(* ===== verification/_CoqProject ===== *)
-Q . S2P
Prelude.v
GoStd.v
Metadata.v
Binary.v
Instances.v
HeadlessOptions.v
MatchState.v
RuleItems.v
Rules.v
HeadlessBuild.v
Srs.v
SrsFacts.v
SrsTheorems.v
RuleFacts.v
RuleTheorems.v
Compile.v
DnsRules.v
DnsTheorems.v
RuleSet.v
RuleSetRefs.v
RuleSetTheorems.v
CacheEntry.v
RuleActions.v
RuleBuild.v
Route.v
RouteTheorems.v
RuleBuildTheorems.v
FakeIP.v
FakeIPTheorems.v
FakeIPCache.v
Managers.v
StartOrder.v
OutboundManager.v
ManagersTheorems.v
TransportManager.v
URLTest.v
URLTestTheorems.v
HealthCheck.v
DnsMessage.v
DnsClient.v
DnsClientTheorems.v
DnsActions.v
DnsBuild.v
DnsMode.v
DnsBuildFacts.v
DnsRouter.v
DnsRouterTheorems.v
DnsModeTheorems.v
DnsRouterRefs.v
DnsSystem.v
DnsRouterSamples.v
ConnPool.v
ConnPoolInv.v
ConnPoolSteps.v
ConnPoolTheorems.v
Datagram.v
RealmPacket.v
RealmStun.v
Sniff.v
Ja3.v
TlsFragment.v
RealmCandidates.v
RealmPunch.v
RealmPunchTheorems.v
RealmPunchRuns.v
RealmDiscover.v
RealmControl.v
Rendezvous.v
RendezvousTheorems.v
RendezvousRuns.v
RendezvousSystem.v
RealmDial.v
RealmDialTheorems.v
RealmDialRuns.v
Hy2Wire.v
QuicSniff.v
Hy2Udp.v
Hy2UdpTheorems.v
Hy2Session.v
Hy2SessionTheorems.v
