(* ===== verification/Prelude.v ===== *)
(** * otun-kernel: a verification development

    The program is a universal proxy kernel in Go (a fork of sing-box).  Inbounds
    accept connections and describe them in an [InboundContext]; the router walks
    the rules, whose conditions read that context and whose actions sniff,
    resolve, reject or pick an outbound; DNS queries walk rules of their own;
    rule-sets are collections of conditions loaded from inline options, files or
    HTTP, in JSON or in the binary SRS format.  Managers own the inbounds,
    outbounds and DNS servers and start them in the order of their dependencies;
    groups pick an outbound among others by testing them.  Nodes behind a NAT, the
    realms, are reached by punching or through a relay, and spoken to in Hysteria 2
    over QUIC.  This development models these paths.

    ** Files and the sources they model

    - [Prelude]: errors, the [result] type of Go functions (value, error or
      panic), shared lemmas and tactics.
    - [GoStd]: what the sources use of net/netip, strings, strconv, path/filepath,
      net and errors.
    - [Metadata]: src/adapter/inbound.go and its neighbours.  [InboundContext] is
      the struct; [Externals] collects third-party functions (regexp, the domain
      matchers and metadata of sing, netipx, miekg/dns), each an argument of the
      definitions that use it.
    - [Binary]: readers over bytes, big-endian integers and varints, with the
      lemmas [reads] (what is read back), [shrinks] and [returns] (progress).
    - [Instances]: concrete externals for the witnesses.
    - [MatchState]: src/route/rule/match_state.go, the sets of sixteen match
      states as bit sets.
    - [RuleItems]: src/route/rule/rule_item_*.go, one constructor of [RuleItem] per
      item with its construction, [item_Match] and [item_String].
    - [Rules]: src/route/rule/rule_abstract.go, rule_item_rule_set.go and the
      matching of rule_set_local.go.  [default_matchStatesWithBase] and
      [logical_matchStatesWithBase] are the methods of the same name.
    - [HeadlessOptions], [HeadlessBuild]: src/option/rule_set.go and
      src/route/rule/rule_headless.go, options and construction of rule-set rules.
    - [Srs], [SrsFacts], [SrsTheorems]: src/common/srs, reader and writer.
      [Codec] holds the third-party codecs inside the format (zlib, succinct sets,
      varbin, badjson maps) and [CodecLaws] what is relied on.
    - [RuleFacts], [RuleTheorems]: theorems on rule evaluation.
    - [Compile]: the command that compiles a rule-set, as write followed by read.
    - [DnsRules], [DnsTheorems]: matching in src/route/rule/rule_dns.go.
    - [RuleSet], [RuleSetTheorems]: src/route/rule/rule_set.go, rule_set_local.go and
      rule_set_remote.go: metadata, loading, updates, cache.
    - [RuleSetRefs]: the reference counters, as a step relation over starts and
      closes of items in any order.
    - [CacheEntry]: the cache entry of a remote rule-set (src/adapter/experimental.go).
    - [RuleActions]: src/route/rule/rule_action.go, the options of actions, and the
      sniffing loops of src/common/sniff/sniff.go.  A sniffer is a function that may panic.
    - [Route], [RouteTheorems]: src/route/route.go.  A connection is the sequence of
      what its reads return; the managers the router asks are the record [Env].
    - [RuleBuild], [RuleBuildTheorems]: src/route/rule/rule_default.go,
      rule_nested_action.go and src/option/rule.go, from options to rules.
    - [FakeIP], [FakeIPTheorems]: src/dns/transport/fakeip/store.go and memory.go, with
      concurrent calls as a step relation; [FakeIPCache]: the storage in the cache
      file (src/experimental/cachefile/fakeip.go).
    - [Managers], [StartOrder], [OutboundManager], [ManagersTheorems]:
      src/adapter/{inbound,outbound,endpoint,service}/manager.go.  Starting and closing
      an object is a parameter, and the calls made are part of the outcome.
    - [TransportManager]: src/dns/transport_manager.go.
    - [URLTest], [URLTestTheorems], [HealthCheck]: src/protocol/group/urltest.go, groups
      that select by delay or by failover; steps of goroutines interleave.
    - [DnsMessage], [DnsClient], [DnsClientTheorems]: src/dns/client.go and
      src/dns/extension_edns0_subnet.go; the encoding of miekg/dns is the class [DnsLib].
      The clock is read when the cache is and again when a response has come, and a query
      may wait for its transport while others go on.
    - [DnsActions], [DnsBuild], [DnsBuildFacts]: actions, options and construction of
      DNS rules (src/route/rule/rule_dns.go, src/option/rule_dns.go).
    - [DnsMode], [DnsRouter]: src/dns/router.go.  A query is a program ([prog]) that asks
      the client and the caches and continues with their answers, so that theorems
      hold for all answers; two lookups at once are interleaved by [par].
    - [DnsRouterTheorems], [DnsModeTheorems], [DnsRouterRefs]: theorems on
      the DNS router; [DnsSystem]: its programs run against the client of [DnsClient];
      [DnsRouterSamples]: concrete runs.
    - [ConnPool], [ConnPoolInv], [ConnPoolSteps], [ConnPoolTheorems]:
      src/dns/transport/conn_pool.go, the connections of DNS transports.  Sections under
      the lock and calls that block are steps of threads that interleave.
    - [Datagram]: addresses with ports and slices of datagrams.
    - [RealmPacket], [RealmStun], [RealmCandidates]: packets, STUN messages and candidates
      of src/third_party/sing-quic/hysteria2/{realm,internal/stun}.  [RealmPunch],
      [RealmPunchTheorems], [RealmPunchRuns]: the client [Punch] as a fold over the turns of
      its loop and the node [ServerPuncher] as a machine of interleaved steps, joined by a
      network that drops, repeats, reorders, readdresses and brings foreign datagrams from
      any address.
    - [Sniff]: the recognisers of src/common/sniff; the DNS and HTTP parsers and the TLS
      handshake behind them are the class [SniffLib].  [Ja3]: src/common/ja3, the parser of
      a client hello.  [QuicSniff]: src/common/sniff/quic.go and internal/qtls, over the
      primitives of the class [QuicCrypto] ([QuicCryptoLaws]: the lengths they keep), up
      to the router that reads packets for it.
      [TlsFragment]: src/common/tlsfragment, hellos sent in pieces; the calls on the socket
      are part of the outcome.
    - [RealmDiscover], [RealmControl]: realm/stun.go and realm/control.go there.
    - [Rendezvous], [RendezvousTheorems], [RendezvousRuns]: src/protocol/hysteria2/realm_server.go,
      where nodes register and clients ask for them.  The sections of a request under the
      lock are steps; [RendezvousSystem]: its replies and streams read by [RealmControl],
      and concrete runs.
    - [RealmDial], [RealmDialTheorems], [RealmDialRuns]: src/transport/realm, dialing with the sockets it opens and closes as its state.
    - [Hy2Wire], [Hy2Udp], [Hy2UdpTheorems]: the framing and the datagrams of
      src/third_party/sing-quic/hysteria2, with the bounded channel to the reader;
      [Hy2Session], [Hy2SessionTheorems]: the UDP sessions of a server, whose messages are
      pointers into a pool.

    ** What the theorems show

    Rules.  A rule without rule-sets computes the documented formula over its
    groups, a rule with rule-sets matches exactly when its conditions and those of some
    branch of some set hold together (inverted: when there is none), logical rules are conjunction and disjunction, inverted
    rules contribute the inherited state; states only grow.

    SRS.  Written rule-sets are read back, reading returns on every input, the
    writer refuses items its version lacks, and a compiled rule-set matches as its
    source does.  A large rule count panics.

    DNS.  DNS rules without response conditions match as route rules; the two
    phases of a legacy rule accept a response by its domain conditions, or by its addresses
    when there are none: an address filter does nothing when a domain condition matches.

    Rule-sets.  The metadata tells exactly whether destination addresses are
    tested, counters of references are exact and never negative in every reachable
    state, failing updates change nothing, the cache restores what was saved,
    and what a rule does while its sets are empty.

    Router.  The first matching final rule is selected; a routed connection always
    has an outbound that supports its network; sniffing loses neither bytes nor
    packets, and one sniff action leaves the payload exact; a second one can
    reorder a stream or duplicate packets; a pre-match that is not stopped by
    sniffing predicts the routing; rejections are counted over thirty seconds.
    Conditions mean the same in a route rule and in a rule-set, and rules built
    from decoded options add no panic to those of sniffers and lookups.

    Sniffers.  The sniffers that read a stream piece by piece do not depend on how it is
    cut; a client hello is read back, and found in CRYPTO frames in any order over any
    number of packets, of which the router reads as many as it needs; the parser of a hello returns, and panics only on two lists; the
    QUIC sniffer returns unless a frame is empty, and panics neither in its header nor in
    its decryption, only where the length of a frame or a list is too large or there is no
    frame.  Packets that make it hang or panic are given.  A hello that is
    sent in fragments is the same hello, cut inside its name, with one write for each piece
    when packets are split; a name that starts with an
    empty label panics.

    FakeIP.  Under every interleaving, from a storage that an earlier store of the same
    ranges left or whose reset succeeds, domains and addresses correspond one to one;
    concurrent calls agree and return, an address lives for as many allocations as
    the range has, a restart keeps the mappings, and the router gets the domain
    back from the address.

    Managers and groups.  Objects are started through all stages and closed once;
    outbounds start after what they depend on, and all of them start exactly when
    the dependencies have no cycle; a failure names a cycle or a dependency, which an
    endpoint in a cycle can be too; a group selects within the tolerance of the
    fastest outbound; a failover group follows a machine that counts failures.

    DNS client and router.  Every answer has a source, and a cached one a time to live that
    ends when it expires, one second when it is stale, and no bound when expiry is turned
    off; lookups of the program never ask a FakeIP server they do not name; the rules
    of each mode have only what the mode evaluates, and updates of rule-sets keep it
    so; legacy queries end and their answers pass the limit of the rule that chose
    the server; starts and closes balance the references of rule-sets.

    Connection pool.  No interleaving of calls panics, gives a connection of an ordered
    pool to two users, loses a connection or exceeds the limit of dials; callers that
    wait for a connection can always be woken.

    Realms.  Exactly the packets of the encoder decode, responses of STUN servers are
    understood, candidates are bounded; a punch returns, and when the
    client reports success packets passed in both directions, as when the node does unless
    a foreign datagram came from the address it was confirming; dialing leaks no socket and closes none twice,
    returns a connection exactly when some way works, and only a confirmed one; the
    trace changes nothing.  The rendezvous does not panic, keeps its limits, streams
    every event once, introduces a client only to a node that holds the realm, and
    gives both the same metadata.

    Hysteria 2.  Requests and responses are read back; fragments fit, and make the
    packet again in any order, once, if the channel to the reader has room; readers get only packets of their session, whichever
    messages of the pool are used again, although closing one session can remove
    another one or its own successor.

    ** Bounds and fuel

    Match states are subsets of sixteen bits and counters of references are
    [int32] with wrap-around written out; the theorem on them assumes fewer than
    2^31 references.  Varints take at most ten bytes, as in Go.  The SRS reader has
    fuel in its counted loops, one more than the length of the input: every
    element takes a byte, and [srs_read_terminates] shows it is enough.  Slices
    above 2^48 bytes panic.  All other functions recurse on their data; the loops
    over connections recurse on the events of the connection.  The start loop of the
    outbounds has one turn per object, its search for a cycle one step per known
    tag, and the legacy loops of the DNS router one turn per rule and one more
    ([legacy_queries_end]).  The walk over STUN attributes and the cut into fragments
    have the length of the data as fuel ([attributes_total], [hy2_fragments_fit]), as have
    the loops over extensions and QUIC frames ([ja3_panics_only_in_lists],
    [parseFrames_total]).  The loop that joins CRYPTO fragments has any fuel: with as much
    as there are fragments it ends when none is empty ([assemble_ends]), and with an empty
    one it ends with none ([assemble_hangs]).  The search for a name ends for writes below
    65536 bytes ([IndexTLSServerName_spec]); above, it may not ([long_extension_hangs]).

    ** What is not modelled

    The geosite format, the loop of a realm node around [ServerPuncher], TUIC and the
    congestion controllers.  JSON decoding, HTTP transports, sockets, protocols over third-party
    libraries, platform code, control interfaces and build tools are input and
    output or library code and are left out.  Locks and goroutines are modelled
    where steps interleave ([RuleSetRefs], [FakeIP], [URLTest], [DnsRouter],
    [RealmPunch], [Rendezvous], [RealmDial], [Hy2Session], [ConnPool], and the two halves of a
    query in [DnsClient]; its lock per question, with which a query waits for an
    earlier one or for the end of its context, is left out); log messages are dropped. *)

From stdpp Require Export base tactics option list gmap sets strings pretty numbers.
From Stdlib Require Export ZArith Lia.
From Stdlib Require Import Strings.Byte.

(** ** Notations of the development *)

Declare Scope kernel_scope.
Delimit Scope kernel_scope with kernel.

(** ** Errors

    [E.New], [E.Cause] and [E.Extend] build error values from a list of
    printable parts, and [E_Join] holds errors returned together; the sentinel
    errors that the sources compare with or return, and the error types of the
    sources, have constructors of their own. *)

Inductive error : Type :=
| E_New (parts : list string)
| E_Cause (cause : error) (parts : list string)
| E_Extend (cause : error) (part : string)
| ErrEOF
| ErrUnexpectedEOF
| ErrInvalid
| ErrVarintOverflow
| ErrSyntax
| ErrRange
| ErrExternal (what : string)
| E_Join (first second : error)
| ErrNeedMoreData
| ErrDeadlineExceeded
| RcodeError (rcode : Z)
| RejectedError (cause : error)
| BypassedError (cause : error).

#[export] Instance error_eq_dec : EqDecision error.
Proof.
  refine (fix go (x y : error) {struct x} : {x = y} + {x <> y} :=
    match x, y with
    | E_New a, E_New b => cast_if (decide (a = b))
    | E_Cause a b, E_Cause c d => cast_if_and (go a c) (decide (b = d))
    | E_Extend a b, E_Extend c d => cast_if_and (go a c) (decide (b = d))
    | ErrEOF, ErrEOF => left eq_refl
    | ErrUnexpectedEOF, ErrUnexpectedEOF => left eq_refl
    | ErrInvalid, ErrInvalid => left eq_refl
    | ErrVarintOverflow, ErrVarintOverflow => left eq_refl
    | ErrSyntax, ErrSyntax => left eq_refl
    | ErrRange, ErrRange => left eq_refl
    | ErrExternal a, ErrExternal b => cast_if (decide (a = b))
    | E_Join a b, E_Join c d => cast_if_and (go a c) (go b d)
    | ErrNeedMoreData, ErrNeedMoreData => left eq_refl
    | ErrDeadlineExceeded, ErrDeadlineExceeded => left eq_refl
    | RcodeError a, RcodeError b => cast_if (decide (a = b))
    | RejectedError a, RejectedError b => cast_if (go a b)
    | BypassedError a, BypassedError b => cast_if (go a b)
    | _, _ => right _
    end); clear go; abstract congruence.
Defined.

(** The result of a Go function: a value, an [error], or a run-time panic. *)
Inductive result (A : Type) : Type :=
| Ok (a : A)
| Err (e : error)
| Panic (msg : string).
Arguments Ok {A} _.
Arguments Err {A} _.
Arguments Panic {A} _.

#[export] Instance result_ret : MRet result := fun A a => Ok a.
#[export] Instance result_bind : MBind result := fun A B f m =>
  match m with
  | Ok a => f a
  | Err e => Err e
  | Panic msg => Panic msg
  end.
#[export] Instance result_fmap : FMap result := fun A B f m =>
  match m with
  | Ok a => Ok (f a)
  | Err e => Err e
  | Panic msg => Panic msg
  end.

Definition map_err {A} (f : error -> error) (m : result A) : result A :=
  match m with
  | Err e => Err (f e)
  | m => m
  end.

Definition not_panic {A} (r : result A) : Prop := forall msg, r <> Panic msg.

Lemma not_panic_bind {A B} (m : result A) (f : A -> result B) : not_panic m -> (forall a, m = Ok a -> not_panic (f a)) -> not_panic (m ≫= f).
Proof. destruct m as [a|e|msg]; simpl; [auto|done|]. intros H. by destruct (H msg). Qed.

Definition is_ok {A} (m : result A) : bool :=
  match m with Ok _ => true | _ => false end.

Lemma bind_Ok_inv {A B} (m : result A) (f : A -> result B) (b : B) :
  m ≫= f = Ok b -> exists a, m = Ok a /\ f a = Ok b.
Proof. destruct m; simpl; [eauto | discriminate | discriminate]. Qed.

Lemma Ok_inj {A} (a b : A) : Ok a = Ok b -> a = b.
Proof. congruence. Qed.

Lemma map_err_Ok_inv {A} (f : error -> error) (m : result A) (a : A) :
  map_err f m = Ok a -> m = Ok a.
Proof. by destruct m. Qed.

(** ** Lists and booleans *)

(** The predicate that lifts a property to the elements of a list, used by the
    induction principles of types nested in lists. *)
Scheme All for list.

Lemma list_all_Forall {A} (P : A -> Prop) (l : list A) : list_all A P l -> Forall P l.
Proof. induction 1; by constructor. Qed.

Lemma existsb_app_orb {A} (f : A -> bool) (l k : list A) :
  existsb f (l ++ k) = existsb f l || existsb f k.
Proof. apply existsb_app. Qed.

Lemma existsb_false_iff {A} (f : A -> bool) (l : list A) :
  existsb f l = false <-> Forall (fun x => f x = false) l.
Proof.
  induction l as [|a l IH]; simpl; [by split|].
  rewrite orb_false_iff, Forall_cons_iff, IH. done.
Qed.

Lemma negb_existsb {A} (f : A -> bool) (l : list A) :
  negb (existsb f l) = forallb (fun x => negb (f x)) l.
Proof. induction l as [|a l IH]; simpl; [done|]. by rewrite negb_orb, IH. Qed.

Lemma existsb_ext_in {A} (f g : A -> bool) (l : list A) :
  Forall (fun x => f x = g x) l -> existsb f l = existsb g l.
Proof. induction 1 as [|a l H _ IH]; simpl; [done|]. by rewrite H, IH. Qed.

Lemma forallb_ext_in {A} (f g : A -> bool) (l : list A) :
  Forall (fun x => f x = g x) l -> forallb f l = forallb g l.
Proof. induction 1 as [|a l H _ IH]; simpl; [done|]. by rewrite H, IH. Qed.

Lemma fold_left_ext {A B} (f g : B -> A -> B) (l : list A) (b : B) :
  (forall b a, f b a = g b a) -> fold_left f l b = fold_left g l b.
Proof. intros H. revert b. induction l as [|a l IH]; intros b; simpl; [done|]. by rewrite H, IH. Qed.

(** ** Bit operations *)

Lemma lor_lt_pow2 (a b k : N) : (a < 2 ^ k -> b < 2 ^ k -> N.lor a b < 2 ^ k)%N.
Proof.
  intros Ha Hb. destruct (decide (N.lor a b = 0%N)) as [->|Hne]; [lia|].
  apply N.log2_lt_pow2; [lia|]. rewrite N.log2_lor.
  assert (forall x, (x < 2 ^ k -> x <> 0 -> N.log2 x < k)%N) as Hl.
  { intros x Hx Hx0. apply N.log2_lt_pow2; lia. }
  destruct (decide (a = 0%N)) as [->|]; destruct (decide (b = 0%N)) as [->|];
    rewrite ?N.lor_0_l, ?N.lor_0_r in Hne; try done.
  - rewrite N.max_r by (simpl; lia). auto.
  - rewrite N.max_l by (simpl; lia). auto.
  - apply N.max_lub_lt; auto.
Qed.

Lemma testbit_above (r k n : N) : (r < 2 ^ k -> k <= n -> N.testbit r n = false)%N.
Proof.
  intros Hr Hn. destruct (decide (r = 0%N)) as [->|]; [apply N.bits_0|].
  apply N.bits_above_log2. eapply N.lt_le_trans; [|exact Hn]. apply N.log2_lt_pow2; lia.
Qed.

(** The sum of numbers without a common bit. *)
Lemma add_shiftl (r x k : N) : (r < 2 ^ k -> r + N.shiftl x k = N.lor r (N.shiftl x k))%N.
Proof.
  intros Hr. assert (N.land r (N.shiftl x k) = 0%N) as Hd.
  { apply N.bits_inj_0. intros n. rewrite N.land_spec. destruct (N.lt_ge_cases n k).
    - by rewrite N.shiftl_spec_low, andb_false_r.
    - by rewrite (testbit_above r k). }
  by rewrite N.add_nocarry_lxor, N.lxor_lor.
Qed.

(** A predicate on all elements, as the recursive definitions over trees unfold to it. *)
Lemma foldr_Forall {A} (P : A -> Prop) l : foldr (fun x Q => P x /\ Q) True l <-> Forall P l.
Proof. induction l; simpl; [done|]. by rewrite List.Forall_cons_iff, IHl. Qed.

(** ** Automation *)

Create HintDb kernel discriminated.

(** Splits a boolean condition of the goal and discharges both branches. *)
Ltac case_bool :=
  match goal with
  | |- context [if ?b then _ else _] => destruct b eqn:?
  | |- context [match ?b with true => _ | false => _ end] => destruct b eqn:?
  end.

(** Turns a successful chain of binds into its steps. *)
Ltac inv_ok :=
  repeat match goal with
  | H : _ ≫= _ = Ok _ |- _ =>
      apply bind_Ok_inv in H; destruct H as (? & ? & H)
  | H : map_err _ _ = Ok _ |- _ => apply map_err_Ok_inv in H
  | H : Ok _ = Ok _ |- _ => injection H as H
  | H : Err _ = Ok _ |- _ => discriminate H
  | H : Panic _ = Ok _ |- _ => discriminate H
  end.
