(* ===== verification/GoStd.v ===== *)
(** * The parts of the Go standard library the modelled sources use

    [net/netip] addresses and prefixes, [strings], [strconv.ParseUint],
    [path/filepath.Base], [net.ParseMAC] and [encoding/hex.DecodeString], each
    with the behaviour its documentation and implementation give on every
    input, errors included.  Platform dependent functions are modelled for a
    Unix target. *)

From S2P Require Import Prelude.
From Stdlib Require Import Ascii.

Open Scope N_scope.

(** ** net/netip *)

Module netip.

(** The zero [Addr], an IPv4 address (32 bits) or an IPv6 address (128 bits)
    with its zone. *)
Inductive Addr : Type :=
| AddrZero
| Addr4 (v : N)
| Addr6 (v : N) (zone : string).

#[export] Instance Addr_eq_dec : EqDecision Addr.
Proof. solve_decision. Defined.
#[export] Program Instance Addr_countable : Countable Addr :=
  inj_countable' (fun a => match a with AddrZero => None | Addr4 v => Some (inl v) | Addr6 v z => Some (inr (v, z)) end)
    (fun s => match s with None => AddrZero | Some (inl v) => Addr4 v | Some (inr (v, z)) => Addr6 v z end) _.
Next Obligation. by intros []. Qed.

Definition IsValid (a : Addr) : bool :=
  match a with AddrZero => false | _ => true end.
Definition Is4 (a : Addr) : bool :=
  match a with Addr4 _ => true | _ => false end.
Definition Is6 (a : Addr) : bool :=
  match a with Addr6 _ _ => true | _ => false end.
Definition BitLen (a : Addr) : N :=
  match a with AddrZero => 0 | Addr4 _ => 32 | Addr6 _ _ => 128 end.
Definition value (a : Addr) : N :=
  match a with AddrZero => 0 | Addr4 v => v | Addr6 v _ => v end.
Definition Is4In6 (a : Addr) : bool :=
  match a with Addr6 v _ => N.shiftr v 32 =? 65535 | _ => false end.
Definition Unmap (a : Addr) : Addr :=
  if Is4In6 a then Addr4 (N.land (value a) (N.ones 32)) else a.
Definition withoutZone (a : Addr) : Addr :=
  match a with Addr6 v _ => Addr6 v "" | a => a end.
Definition wf_addr (a : Addr) : Prop := value a < 2 ^ BitLen a.
Definition hasZone (a : Addr) : bool :=
  match a with Addr6 _ zone => negb (bool_decide (zone = "")) | _ => false end.
(** The zero address after the last one.  Every invalid address is [AddrZero]. *)
Definition Next (a : Addr) : Addr :=
  match a with
  | AddrZero => AddrZero
  | Addr4 v => let w := (v + 1) mod 2 ^ 32 in if w =? 0 then AddrZero else Addr4 w
  | Addr6 v zone => let w := (v + 1) mod 2 ^ 128 in if w =? 0 then AddrZero else Addr6 w zone
  end.

(** [bitsPlusOne] is 0 for the zero or an invalid prefix. *)
Record Prefix : Type := mkPrefix { ip : Addr; bitsPlusOne : N }.

#[export] Instance Prefix_eq_dec : EqDecision Prefix.
Proof. solve_decision. Defined.

Definition PrefixZero : Prefix := mkPrefix AddrZero 0.
Definition PrefixFrom (a : Addr) (bits : Z) : Prefix :=
  mkPrefix (withoutZone a)
    (if IsValid a && (0 <=? bits)%Z && (bits <=? Z.of_N (BitLen a))%Z
     then Z.to_N bits + 1 else 0).
Definition Bits (p : Prefix) : Z := Z.of_N (bitsPlusOne p) - 1.
Definition prefix_IsValid (p : Prefix) : bool := 0 <? bitsPlusOne p.
(** The address of [ip.Prefix(n)]: the [n] leading bits. *)
Definition leading (a : Addr) (n : Z) : N :=
  N.shiftr (value a) (BitLen a - Z.to_N n).
Definition prefix_Contains (p : Prefix) (a : Addr) : bool :=
  if negb (prefix_IsValid p) || hasZone a then false
  else if (BitLen (ip p) =? 0) || (BitLen a =? 0) || negb (BitLen (ip p) =? BitLen a) then false
  else N.shiftr (N.lxor (value a) (value (ip p))) (BitLen a - Z.to_N (Bits p)) =? 0.
Definition Overlaps (p o : Prefix) : bool :=
  if negb (prefix_IsValid p && prefix_IsValid o) then false
  else if bool_decide (p = o) then true
  else if negb (Bool.eqb (Is4 (ip p)) (Is4 (ip o))) then false
  else
    let minBits := Z.min (Bits p) (Bits o) in
    if (minBits =? 0)%Z then true
    else leading (ip p) minBits =? leading (ip o) minBits.

End netip.

(** ** strings *)

Module strings.

Definition byte_at (s : string) (i : nat) : option N :=
  N_of_ascii <$> String.get i s.

Fixpoint is_ascii (s : string) : bool :=
  match s with
  | EmptyString => true
  | String c s => (N_of_ascii c <? 128) && is_ascii s
  end.

Definition HasSuffix (s suffix : string) : bool :=
  (String.length suffix <=? String.length s)%nat
  && bool_decide (String.substring (String.length s - String.length suffix) (String.length suffix) s = suffix).

Definition lower_byte (c : ascii) : ascii :=
  let n := N_of_ascii c in
  if (65 <=? n) && (n <=? 90) then ascii_of_N (n + 32) else c.

Fixpoint lower_ascii (s : string) : string :=
  match s with
  | EmptyString => EmptyString
  | String c s => String (lower_byte c) (lower_ascii s)
  end.

(** The Unicode tables the slow paths of [strings] consult on input that is not
    ASCII: [strings.Map(unicode.ToLower, s)], the rune loop of
    [strings.EqualFold], and [strings.TrimFunc] and [TrimRightFunc] with
    [unicode.IsSpace]. *)
Record unicode : Type := mkUnicode {
  u_lower : string -> string;
  u_fold : string -> string -> bool;
  u_trim : string -> string;
  u_trim_right : string -> string;
}.

Definition ToLower (u : unicode) (s : string) : string :=
  if is_ascii s then lower_ascii s else u_lower u s.

Definition EqualFold (u : unicode) (s t : string) : bool :=
  if is_ascii s && is_ascii t
  then bool_decide (lower_ascii s = lower_ascii t)
  else u_fold u s t.

Definition Index (s sub : string) : option nat := String.index 0 sub s.
Definition Contains (s sub : string) : bool :=
  match Index s sub with Some _ => true | None => false end.

(** [s[:n]] and [s[n:]] *)
Definition take_str (n : nat) (s : string) : string := String.substring 0 n s.
Definition drop_str (n : nat) (s : string) : string :=
  String.substring n (String.length s - n) s.

Fixpoint Join (l : list string) (sep : string) : string :=
  match l with
  | [] => ""
  | [x] => x
  | x :: l => x +:+ sep +:+ Join l sep
  end.

(** The bytes of the table [asciiSpace]. *)
Definition is_space (c : ascii) : bool :=
  let n := N_of_ascii c in
  ((9 <=? n) && (n <=? 13)) || (n =? 32).
Definition rev_str (s : string) : string :=
  String.string_of_list_ascii (rev (String.list_ascii_of_string s)).

(** Both loops of [strings.TrimSpace] stop at the first byte that is not white
    space, and leave the rest to the Unicode functions when it is not ASCII. *)
Fixpoint trim_left (s : string) : sum string string :=
  match s with
  | EmptyString => inl EmptyString
  | String c s' =>
      if 128 <=? N_of_ascii c then inr s
      else if is_space c then trim_left s' else inl s
  end.
Definition TrimSpace (u : unicode) (s : string) : string :=
  match trim_left s with
  | inr s => u_trim u s
  | inl s =>
      match trim_left (rev_str s) with
      | inr s => u_trim_right u (rev_str s)
      | inl s => rev_str s
      end
  end.

End strings.

(** ** strconv *)

Module strconv.

Definition digit (c : ascii) : option N :=
  let n := N_of_ascii c in
  if (48 <=? n) && (n <=? 57) then Some (n - 48) else None.

(** The loop of [strconv.ParseUint(s, 10, bitSize)]: the first byte that is not
    a digit is a syntax error, the first digit that passes the bound a range
    error. *)
Fixpoint parse_digits (maxVal n : N) (s : string) : result N :=
  match s with
  | EmptyString => Ok n
  | String c s =>
      match digit c with
      | None => Err ErrSyntax
      | Some d =>
          let n1 := n * 10 + d in
          if maxVal <? n1 then Err ErrRange else parse_digits maxVal n1 s
      end
  end.

Definition ParseUint (s : string) (bitSize : N) : result N :=
  match s with
  | EmptyString => Err ErrSyntax
  | _ => parse_digits (2 ^ bitSize - 1) 0 s
  end.

End strconv.

(** ** path/filepath, on Unix *)

Module filepath.

Definition is_sep (c : ascii) : bool := N_of_ascii c =? 47.

Fixpoint drop_seps (l : list ascii) : list ascii :=
  match l with
  | c :: l' => if is_sep c then drop_seps l' else l
  | [] => []
  end.
Fixpoint take_name (l : list ascii) : list ascii :=
  match l with
  | c :: l' => if is_sep c then [] else c :: take_name l'
  | [] => []
  end.

(** [filepath.Base]: the last element after the trailing separators are gone. *)
Definition Base (path : string) : string :=
  match path with
  | EmptyString => "."
  | _ =>
      let name := rev (take_name (drop_seps (rev (String.list_ascii_of_string path)))) in
      match name with
      | [] => "/"
      | _ => String.string_of_list_ascii name
      end
  end.

End filepath.

(** ** net and encoding/hex: hardware addresses *)

Module net.

(** A [net.HardwareAddr] is its list of bytes. *)
Definition HardwareAddr : Type := list N.

Definition hex_digit (c : ascii) : option N :=
  let n := N_of_ascii c in
  if (48 <=? n) && (n <=? 57) then Some (n - 48)
  else if (97 <=? n) && (n <=? 102) then Some (n - 87)
  else if (65 <=? n) && (n <=? 70) then Some (n - 55)
  else None.

Definition hex_byte (a b : ascii) : option N :=
  x ← hex_digit a; y ← hex_digit b; Some (x * 16 + y).

(** The groups of two digits of [net.ParseMAC] with separator [sep]: each group
    but the last is followed by the separator. *)
Fixpoint parse_pairs (sep : ascii) (l : list ascii) : option HardwareAddr :=
  match l with
  | [a; b] => x ← hex_byte a b; Some [x]
  | a :: b :: c :: l =>
      if bool_decide (c = sep)
      then x ← hex_byte a b; xs ← parse_pairs sep l; Some (x :: xs)
      else None
  | _ => None
  end.

(** The groups of four digits of the dotted form. *)
Fixpoint parse_quads (sep : ascii) (l : list ascii) : option HardwareAddr :=
  match l with
  | [a; b; c; d] => x ← hex_byte a b; y ← hex_byte c d; Some [x; y]
  | a :: b :: c :: d :: e :: l =>
      if bool_decide (e = sep)
      then x ← hex_byte a b; y ← hex_byte c d; xs ← parse_quads sep l; Some (x :: y :: xs)
      else None
  | _ => None
  end.

Definition mac_length (n : nat) : bool :=
  (n =? 6)%nat || (n =? 8)%nat || (n =? 20)%nat.

Definition ParseMAC (s : string) : option HardwareAddr :=
  let l := String.list_ascii_of_string s in
  if (length l <? 14)%nat then None
  else
    hw ← match l !! 2%nat, l !! 4%nat with
         | Some c, Some d =>
             if (N_of_ascii c =? 58) || (N_of_ascii c =? 45) then parse_pairs c l
             else if N_of_ascii d =? 46 then parse_quads d l
             else None
         | _, _ => None
         end;
    if mac_length (length hw) then Some hw else None.

Definition hex_char (n : N) : ascii := ascii_of_N (if n <? 10 then n + 48 else n + 87).

Definition mac_chars (hw : HardwareAddr) : list ascii :=
  match hw with
  | [] => []
  | x :: hw =>
      hex_char (x / 16) :: hex_char (x mod 16) ::
      flat_map (fun y => [ascii_of_N 58; hex_char (y / 16); hex_char (y mod 16)]) hw
  end.

(** [HardwareAddr.String]: lower case pairs separated by colons. *)
Definition mac_String (hw : HardwareAddr) : string :=
  String.string_of_list_ascii (mac_chars hw).

(** [hex.DecodeString] *)
Fixpoint hex_decode (l : list ascii) : option (list N) :=
  match l with
  | [] => Some []
  | a :: b :: l => x ← hex_byte a b; xs ← hex_decode l; Some (x :: xs)
  | _ => None
  end.
Definition hex_DecodeString (s : string) : option (list N) :=
  hex_decode (String.list_ascii_of_string s).

End net.

(** ** errors *)

Module errors.

(** [errors.Is]: the error or one it wraps is the target. *)
Fixpoint Is (e target : error) : bool :=
  bool_decide (e = target) ||
  match e with
  | E_Cause cause _ | E_Extend cause _ | RejectedError cause | BypassedError cause => Is cause target
  | E_Join a b => Is a target || Is b target
  | _ => false
  end.

(** [errors.As] with a [RcodeError] of the package dns. *)
Fixpoint AsRcode (e : error) : option Z :=
  match e with
  | RcodeError rcode => Some rcode
  | E_Cause cause _ | E_Extend cause _ | RejectedError cause | BypassedError cause => AsRcode cause
  | E_Join a b => match AsRcode a with Some rcode => Some rcode | None => AsRcode b end
  | _ => None
  end.

(** [errors.Is] on an error that may be nil. *)
Definition opt_Is (e : option error) (target : error) : bool :=
  match e with Some e => Is e target | None => false end.

End errors.
