(* ===== verification/Metadata.v ===== *)
(** * Connection metadata and the interfaces rules read it through

    [Externals] collects the third-party code the rule engine and the rule-set
    codec call (github.com/sagernet/sing, go4.org/netipx, github.com/miekg/dns,
    regexp): every one is an argument of the definitions that use it.
    [InboundContext] is the record of src/adapter/inbound.go. *)

From S2P Require Import Prelude GoStd.
From Stdlib Require Import Strings.Byte.
Import netip.

Open Scope N_scope.

(** The address type of sing/common/metadata, with the fields the sources use. *)
Record Socksaddr : Type := mkSocksaddr { Addr_ : Addr; Port : N; Fqdn : string }.
Definition SocksaddrZero : Socksaddr := mkSocksaddr AddrZero 0 "".

#[export] Instance Socksaddr_eq_dec : EqDecision Socksaddr.
Proof. solve_decision. Defined.

(** ** Records of github.com/miekg/dns, with the fields the sources use *)

Inductive SVCBKeyValue : Type :=
| SVCBIPv4Hint (hint : list (list byte))
| SVCBIPv6Hint (hint : list (list byte))
| SVCBOther.

(** Options of an [OPT] record. *)
Inductive EDNS0 : Type :=
| EDNS0_SUBNET (family netmask scope : N) (address : list byte)
| EDNS0_PADDING (padding : list byte)
| EDNS0_Other (code : N) (data : list byte).

Inductive RData : Type :=
| RR_A (a : list byte)
| RR_AAAA (aaaa : list byte)
| RR_HTTPS (value : list SVCBKeyValue)
| RR_CNAME (target : string)
| RR_TXT (txt : list string)
| RR_MX (preference : N) (mx : string)
| RR_SOA (minttl : N) (rest : string)
| RR_OPT (options : list EDNS0)
| RR_Other (text : string).

Record RR : Type := mkRR {
  rr_Name : string;
  rr_Rrtype : N;
  rr_Class : N;
  rr_Ttl : N;
  rr_data : RData;
}.

Definition RcodeSuccess : Z := 0.

Record Question : Type := mkQuestion { q_Name : string; q_Qtype : N; q_Qclass : N }.

#[export] Instance Question_eq_dec : EqDecision Question.
Proof. solve_decision. Defined.

Record Msg : Type := mkMsg {
  Id : N;
  Response : bool;
  Authoritative : bool;
  RecursionDesired : bool;
  RecursionAvailable : bool;
  Rcode : Z;
  Questions : list Question;
  Answer : list RR;
  Ns : list RR;
  Extra : list RR;
}.

(** ** Third-party code *)

Class Externals : Type := {
  (** [regexp.Compile] and [Regexp.MatchString]. *)
  Regexp : Type;
  regexp_Compile : string -> option Regexp;
  Regexp_MatchString : Regexp -> string -> bool;
  (** sing/common/domain: [Matcher] and [AdGuardMatcher]. *)
  Matcher : Type;
  domain_NewMatcher : list string -> list string -> bool -> Matcher;
  Matcher_Match : Matcher -> string -> bool;
  AdGuardMatcher : Type;
  domain_NewAdGuardMatcher : list string -> AdGuardMatcher;
  AdGuardMatcher_Match : AdGuardMatcher -> string -> bool;
  (** go4.org/netipx: an [IPSet] is the list of its ranges; the sources read and
      write that representation. *)
  IPSet_Contains : list (Addr * Addr) -> Addr -> bool;
  IPSetBuilder_IPSet : list (Prefix + Addr) -> result (list (Addr * Addr));
  (** [netip.ParsePrefix] and [netip.ParseAddr]. *)
  netip_ParsePrefix : string -> result Prefix;
  netip_ParseAddr : string -> result Addr;
  (** sing/common/metadata and sing/common/network. *)
  Socksaddr_IsIP : Socksaddr -> bool;
  Socksaddr_IsIPv6 : Socksaddr -> bool;
  M_AddrFromIP : list byte -> Addr;
  N_IsPublicAddr : Addr -> bool;
  (** [dns.IsDuplicate] and [dns.CanonicalName]. *)
  dns_IsDuplicate : RR -> RR -> bool;
  dns_CanonicalName : string -> string;
  (** [( *badoption.Prefixable).Build] of a pointer, with the default it falls
      back to. *)
  Prefixable_Build : option Prefix -> Prefix -> Prefix;
  (** sing/common/format: [F.ToString] on strings and on integers, and the texts of [option.DNSQueryTypeToString], [dns.RcodeToString], [RR.String]
      and [netip.Prefix.String]. *)
  F_ToString : list string -> string;
  F_int : Z -> string;
  DNSQueryTypeToString : N -> string;
  dns_RcodeToString : Z -> string;
  RR_String : RR -> string;
  Prefix_String : Prefix -> string;
  (** Unicode tables of the standard library. *)
  unicode_tables : strings.unicode;
}.

Definition IPSet : Type := list (Addr * Addr).

(** ** src/adapter: process and network state seen by rules *)

Record ConnectionOwner : Type := mkConnectionOwner {
  ProcessPath : string;
  AndroidPackageNames : list string;
  UserName : string;
  UserId : Z;
}.

Definition InterfaceType : Type := N.
Definition InterfaceTypeWIFI : InterfaceType := 0.
Definition InterfaceTypeCellular : InterfaceType := 1.
Definition InterfaceTypeEthernet : InterfaceType := 2.
Definition InterfaceTypeOther : InterfaceType := 3.

Record NetworkInterface : Type := mkNetworkInterface {
  if_Name : string;
  if_Addresses : list Prefix;
  if_Type : InterfaceType;
  if_Expensive : bool;
  if_Constrained : bool;
}.

Record WIFIState : Type := mkWIFIState { SSID : string; BSSID : string }.

(** What rule items ask of the network manager, the Clash API server, the
    outbounds and the DNS transports when they are evaluated. *)
Record Network : Type := mkNetwork {
  DefaultNetworkInterface : option NetworkInterface;
  NetworkInterfaces : list NetworkInterface;
  InterfaceFinder_Interfaces : list (string * list Prefix);
  DefaultInterface_Addresses : option (list Prefix);
  MyInterface : string;
  WIFI : WIFIState;
  clashMode : option string;
  PreferredDomain : string -> string -> bool;
  PreferredAddress : string -> Addr -> bool;
  TransportPreferredDomain : string -> string -> bool;
  IsAndroid : bool;
}.

(** ** InboundContext *)

Record InboundContext : Type := mkInboundContext {
  Inbound : string;
  InboundType : string;
  IPVersion : N;
  Network_ : string;
  Source : Socksaddr;
  Destination : Socksaddr;
  User : string;
  Outbound : string;
  (* sniffer *)
  Protocol : string;
  Domain : string;
  Client : string;
  (* the CRYPTO fragments the QUIC sniffer keeps: offset, length, payload *)
  SniffContext : option (list (N * N * list byte));
  SnifferNames : list string;
  SniffError : option error;
  (* cache *)
  InboundDetour : string;
  LastInbound : string;
  OriginDestination : Socksaddr;
  RouteOriginalDestination : Socksaddr;
  UDPDisableDomainUnmapping : bool;
  UDPConnect : bool;
  UDPTimeout : Z;
  TLSFragment : bool;
  TLSFragmentFallbackDelay : Z;
  TLSRecordFragment : bool;
  TLSSpoof : string;
  TLSSpoofMethod : N;
  NetworkStrategy : option N;
  NetworkType : list InterfaceType;
  FallbackNetworkType : list InterfaceType;
  FallbackDelay : Z;
  DestinationAddresses : list Addr;
  DNSResponse : option Msg;
  DestinationAddressMatchFromResponse : bool;
  SourceGeoIPCode : string;
  GeoIPCode : string;
  ProcessInfo : option ConnectionOwner;
  SourceMACAddress : option net.HardwareAddr;
  SourceHostname : string;
  QueryType : N;
  FakeIP : bool;
  (* rule cache *)
  IPCIDRMatchSource : bool;
  IPCIDRAcceptEmpty : bool;
  SourceAddressMatch : bool;
  SourcePortMatch : bool;
  DestinationAddressMatch : bool;
  DestinationPortMatch : bool;
  DidMatch : bool;
  IgnoreDestinationIPCIDRMatch : bool;
}.

Definition ResetRuleMatchCache (c : InboundContext) : InboundContext :=
  {| c with
     SourceAddressMatch := false;
     SourcePortMatch := false;
     DestinationAddressMatch := false;
     DestinationPortMatch := false;
     DidMatch := false |}.

Definition ResetRuleCache (c : InboundContext) : InboundContext :=
  ResetRuleMatchCache {| c with IPCIDRMatchSource := false; IPCIDRAcceptEmpty := false |}.

Definition setDidMatch (c : InboundContext) : InboundContext := {| c with DidMatch := true |}.

(** The zero value of the struct. *)
Definition InboundContextZero : InboundContext :=
  {| Inbound := ""; InboundType := ""; IPVersion := 0; Network_ := "";
     Source := SocksaddrZero; Destination := SocksaddrZero; User := ""; Outbound := "";
     Protocol := ""; Domain := ""; Client := ""; SniffContext := None; SnifferNames := [];
     SniffError := None; InboundDetour := ""; LastInbound := "";
     OriginDestination := SocksaddrZero; RouteOriginalDestination := SocksaddrZero;
     UDPDisableDomainUnmapping := false; UDPConnect := false; UDPTimeout := 0;
     TLSFragment := false; TLSFragmentFallbackDelay := 0; TLSRecordFragment := false;
     TLSSpoof := ""; TLSSpoofMethod := 0; NetworkStrategy := None; NetworkType := [];
     FallbackNetworkType := []; FallbackDelay := 0; DestinationAddresses := [];
     DNSResponse := None; DestinationAddressMatchFromResponse := false;
     SourceGeoIPCode := ""; GeoIPCode := "";
     ProcessInfo := None; SourceMACAddress := None; SourceHostname := ""; QueryType := 0;
     FakeIP := false; IPCIDRMatchSource := false; IPCIDRAcceptEmpty := false;
     SourceAddressMatch := false; SourcePortMatch := false; DestinationAddressMatch := false;
     DestinationPortMatch := false; DidMatch := false; IgnoreDestinationIPCIDRMatch := false |}.

Section Addresses.
Context `{E : Externals}.

Definition valid_addr (a : Addr) : list Addr := if IsValid a then [a] else [].

(** The addresses one answer record contributes. *)
Definition record_addresses (record : RR) : list Addr :=
  match rr_data record with
  | RR_A a => valid_addr (M_AddrFromIP a)
  | RR_AAAA a => valid_addr (M_AddrFromIP a)
  | RR_HTTPS values =>
      flat_map (fun value =>
        match value with
        | SVCBIPv4Hint hint => flat_map (fun ip => valid_addr (Unmap (M_AddrFromIP ip))) hint
        | SVCBIPv6Hint hint => flat_map (fun ip => valid_addr (M_AddrFromIP ip)) hint
        | SVCBOther => []
        end) values
  | _ => []
  end.

Definition DNSResponseAddresses (response : option Msg) : list Addr :=
  match response with
  | None => []
  | Some response =>
      if negb (Rcode response =? RcodeSuccess)%Z then []
      else flat_map record_addresses (Answer response)
  end.

Definition DNSResponseAddressesForMatch (c : InboundContext) : list Addr :=
  DNSResponseAddresses (DNSResponse c).

(** [adapter.NormalizeWIFIBSSID] *)
Definition NormalizeWIFIBSSID (bssid : string) : string :=
  let bssid := strings.TrimSpace unicode_tables bssid in
  if bool_decide (bssid = "") then ""
  else
    match net.ParseMAC bssid with
    | Some parsed =>
        if (length parsed =? 6)%nat then net.mac_String parsed
        else if (String.length bssid =? 12)%nat then
          match net.hex_DecodeString bssid with
          | Some decoded => net.mac_String decoded
          | None => bssid
          end
        else bssid
    | None =>
        if (String.length bssid =? 12)%nat then
          match net.hex_DecodeString bssid with
          | Some decoded => net.mac_String decoded
          | None => bssid
          end
        else bssid
    end.

End Addresses.

Lemma ResetRuleCache_idem (c : InboundContext) : ResetRuleCache (ResetRuleCache c) = ResetRuleCache c.
Proof. done. Qed.

Lemma ResetRuleCache_setDidMatch (c : InboundContext) :
  ResetRuleCache (setDidMatch c) = ResetRuleCache c.
Proof. done. Qed.
