(* ===== verification/Binary.v ===== *)
(** * Byte streams: io, bufio, encoding/binary and the slices built from them

    A reader consumes a list of bytes.  Its outcome is [None] when the model's
    fuel is exhausted, and otherwise the result of the Go function: a value with
    the unread rest, an error, or a panic.  A writer returns the bytes it writes;
    the buffers the sources write to accept every byte. *)

From S2P Require Import Prelude GoStd.
From Stdlib Require Import Strings.Byte.
Import netip.

Open Scope N_scope.

(** ** Bytes *)

#[export] Instance byte_eq_dec : EqDecision byte := Byte.byte_eq_dec.

Definition byte_of_N (n : N) : byte := default x00 (Byte.of_N (n mod 256)).

Definition bytes_of_string (s : string) : list byte := String.list_byte_of_string s.
Definition string_of_bytes (l : list byte) : string := String.string_of_list_byte l.

(** The [n] bytes of [v], least significant first, and their value. *)
Fixpoint le_encode (n : nat) (v : N) : list byte :=
  match n with
  | O => []
  | S n => byte_of_N v :: le_encode n (v / 256)
  end.
Fixpoint le_decode (l : list byte) : N :=
  match l with
  | [] => 0
  | b :: l => Byte.to_N b + 256 * le_decode l
  end.

(** [binary.BigEndian] *)
Definition be_encode (n : nat) (v : N) : list byte := rev (le_encode n v).
Definition be_decode (l : list byte) : N := le_decode (rev l).

(** [netip.Addr.AsSlice] and [netip.AddrFromSlice]. *)
Definition AsSlice (a : Addr) : list byte :=
  match a with
  | AddrZero => []
  | Addr4 v => be_encode 4 v
  | Addr6 v _ => be_encode 16 v
  end.
Definition AddrFromSlice (l : list byte) : Addr :=
  if (length l =? 4)%nat then Addr4 (be_decode l)
  else if (length l =? 16)%nat then Addr6 (be_decode l) "" else AddrZero.

(** ** Readers *)

Definition Reader (A : Type) : Type := list byte -> option (result (A * list byte)).

#[export] Instance Reader_ret : MRet Reader := fun A a input => Some (Ok (a, input)).
#[export] Instance Reader_bind : MBind Reader := fun A B f m input =>
  match m input with
  | None => None
  | Some (Ok (a, rest)) => f a rest
  | Some (Err e) => Some (Err e)
  | Some (Panic msg) => Some (Panic msg)
  end.

Definition fail {A} (e : error) : Reader A := fun _ => Some (Err e).
Definition panic {A} (msg : string) : Reader A := fun _ => Some (Panic msg).
Definition out_of_fuel {A} : Reader A := fun _ => None.
Definition cause {A} (f : error -> error) (m : Reader A) : Reader A := fun input =>
  match m input with
  | Some (Err e) => Some (Err (f e))
  | outcome => outcome
  end.

(** [io.ByteReader.ReadByte] *)
Definition ReadByte : Reader N := fun input =>
  match input with
  | [] => Some (Err ErrEOF)
  | b :: rest => Some (Ok (Byte.to_N b, rest))
  end.

(** [io.ReadFull] into a buffer of [n] bytes. *)
Definition ReadFull (n : N) : Reader (list byte) := fun input =>
  if n =? 0 then Some (Ok ([], input))
  else match input with
  | [] => Some (Err ErrEOF)
  | _ => if N.of_nat (length input) <? n then Some (Err ErrUnexpectedEOF)
         else Some (Ok (take (N.to_nat n) input, drop (N.to_nat n) input))
  end.

(** [binary.Read(reader, binary.BigEndian, &v)] for the types the sources use. *)
Definition Read_uint8 : Reader N := bs ← ReadFull 1; mret (be_decode bs).
Definition Read_bool : Reader bool := bs ← ReadFull 1; mret (negb (be_decode bs =? 0)).
Definition Read_uint32 : Reader N := bs ← ReadFull 4; mret (be_decode bs).
Definition Read_uint64 : Reader N := bs ← ReadFull 8; mret (be_decode bs).

Fixpoint decode_uint16s (l : list byte) : list N :=
  match l with
  | a :: b :: l => be_decode [a; b] :: decode_uint16s l
  | _ => []
  end.
Definition Read_uint16s (n : N) : Reader (list N) :=
  bs ← ReadFull (2 * n); mret (decode_uint16s bs).
Definition encode_uint16s (l : list N) : list byte := flat_map (be_encode 2) l.

Definition u64 (n : N) : N := n mod 2 ^ 64.

(** The loop of [binary.ReadUvarint]; [more] is [MaxVarintLen64 - i]. *)
Fixpoint uvarint_loop (more : nat) (i x s : N) : Reader N :=
  match more with
  | O => fail ErrVarintOverflow
  | S more => fun input =>
      match input with
      | [] => Some (Err (if 0 <? i then ErrUnexpectedEOF else ErrEOF))
      | byte :: rest =>
          let b := Byte.to_N byte in
          if b <? 128 then
            if (i =? 9) && (1 <? b) then Some (Err ErrVarintOverflow)
            else Some (Ok (N.lor x (u64 (N.shiftl b s)), rest))
          else uvarint_loop more (i + 1) (N.lor x (u64 (N.shiftl (N.land b 127) s))) (s + 7) rest
      end
  end.
Definition ReadUvarint : Reader N := uvarint_loop 10 0 0 0.

(** [binary.PutUvarint]; ten bytes hold any [uint64]. *)
Fixpoint put_uvarint (fuel : nat) (x : N) : list byte :=
  match fuel with
  | O => []
  | S fuel =>
      if 128 <=? x then byte_of_N (N.lor (x mod 256) 128) :: put_uvarint fuel (N.shiftr x 7)
      else [byte_of_N x]
  end.
Definition PutUvarint (x : N) : list byte := put_uvarint 10 x.

(** [make([]T, n)]: the runtime panics when the slice would exceed the address
    space of a 64-bit platform. *)
Definition maxAlloc : N := 2 ^ 48.
Definition make_slice (elemSize n : N) : Reader unit :=
  if maxAlloc <? n * elemSize then panic "makeslice: len out of range" else mret tt.

(** A counted loop [for i := range n] over a reader of elements; every element
    of the formats occupies at least one byte, so the length of the input bounds
    the number of successful iterations. *)
Fixpoint read_loop {A} (fuel : nat) (i n : N) (elem : N -> Reader A) : Reader (list A) :=
  if i =? n then mret []
  else match fuel with
  | O => out_of_fuel
  | S fuel => x ← elem i; xs ← read_loop fuel (i + 1) n elem; mret (x :: xs)
  end.
Definition read_n {A} (n : N) (elem : N -> Reader A) : Reader (list A) := fun input =>
  read_loop (S (length input)) 0 n elem input.

(** ** Bytes: lemmas *)

Lemma to_N_byte_of_N (n : N) : Byte.to_N (byte_of_N n) = n mod 256.
Proof.
  unfold byte_of_N. destruct (Byte.of_N (n mod 256)) eqn:H; simpl.
  - by apply Byte.to_of_N.
  - apply Byte.of_N_None_iff in H. assert (n mod 256 < 256) by (apply N.mod_lt; lia). lia.
Qed.

Lemma to_N_lt (b : byte) : Byte.to_N b < 256.
Proof. generalize (Byte.to_N_bounded b). lia. Qed.

Lemma string_of_bytes_of_string (s : string) : string_of_bytes (bytes_of_string s) = s.
Proof. apply String.string_of_list_byte_of_string. Qed.

Lemma length_bytes_of_string (s : string) : length (bytes_of_string s) = String.length s.
Proof. induction s as [|c s IH]; [done|]. simpl. by rewrite <- IH. Qed.

Lemma bytes_of_string_inj (s s' : string) : bytes_of_string s = bytes_of_string s' -> s = s'.
Proof. intros Hs. rewrite <- (string_of_bytes_of_string s), Hs. apply string_of_bytes_of_string. Qed.

Lemma length_le_encode (n : nat) (v : N) : length (le_encode n v) = n.
Proof. revert v. induction n as [|n IH]; intros v; simpl; [done|]. by rewrite IH. Qed.

Lemma length_be_encode (n : nat) (v : N) : length (be_encode n v) = n.
Proof. unfold be_encode. by rewrite length_rev, length_le_encode. Qed.

Lemma le_decode_encode (n : nat) (v : N) :
  v < 256 ^ N.of_nat n -> le_decode (le_encode n v) = v.
Proof.
  revert v. induction n as [|n IH]; intros v Hv; cbn [le_encode le_decode].
  - change (256 ^ N.of_nat 0) with 1 in Hv. lia.
  - rewrite Nat2N.inj_succ, N.pow_succ_r' in Hv. rewrite to_N_byte_of_N, IH.
    + rewrite N.add_comm. symmetry. apply N.div_mod. lia.
    + apply N.Div0.div_lt_upper_bound. lia.
Qed.

Lemma be_decode_encode (n : nat) (v : N) :
  v < 256 ^ N.of_nat n -> be_decode (be_encode n v) = v.
Proof.
  intros Hv. unfold be_decode, be_encode. by rewrite rev_involutive, le_decode_encode.
Qed.

Lemma AddrFromSlice_AsSlice (a : Addr) :
  wf_addr a -> AddrFromSlice (AsSlice a) = withoutZone a.
Proof.
  unfold wf_addr, AddrFromSlice. destruct a as [|v|v zone]; cbn [AsSlice value BitLen withoutZone].
  - done.
  - intros Hv. rewrite length_be_encode. simpl Nat.eqb. cbv iota. by rewrite be_decode_encode.
  - intros Hv. rewrite length_be_encode. simpl Nat.eqb. cbv iota. by rewrite be_decode_encode.
Qed.

(** ** What a reader reads back

    [reads m bytes a]: in front of any rest, [m] consumes exactly [bytes] and
    returns [a]. *)

Definition reads {A} (m : Reader A) (bytes : list byte) (a : A) : Prop :=
  forall rest, m (bytes ++ rest) = Some (Ok (a, rest)).

Lemma reads_ret {A} (a : A) : reads (mret a) [] a.
Proof. done. Qed.

Lemma reads_bind {A B} (m : Reader A) (f : A -> Reader B) b1 b2 a b :
  reads m b1 a -> reads (f a) b2 b -> reads (m ≫= f) (b1 ++ b2) b.
Proof.
  intros Hm Hf rest. rewrite <- (assoc_L (++)).
  unfold mbind, Reader_bind. rewrite Hm. apply Hf.
Qed.

(** The last step of a reader adds no bytes. *)
Lemma reads_bind_ret {A B} (m : Reader A) (f : A -> Reader B) bytes a b :
  reads m bytes a -> reads (f a) [] b -> reads (m ≫= f) bytes b.
Proof. intros Hm Hf. rewrite <- (right_id_L [] (++) bytes). by eapply reads_bind. Qed.

(** A first step that consumes nothing. *)
Lemma reads_bind_nil {A B} (m : Reader A) (f : A -> Reader B) bytes a b :
  reads m [] a -> reads (f a) bytes b -> reads (m ≫= f) bytes b.
Proof. intros Hm Hf. change bytes with ([] ++ bytes). by eapply reads_bind. Qed.

Lemma reads_cause {A} (f : error -> error) (m : Reader A) bytes a :
  reads m bytes a -> reads (cause f m) bytes a.
Proof. intros Hm rest. unfold cause. by rewrite Hm. Qed.

Lemma reads_ReadByte (b : N) : b < 256 -> reads ReadByte [byte_of_N b] b.
Proof. intros Hb rest. simpl. by rewrite to_N_byte_of_N, N.mod_small. Qed.

Lemma reads_ReadFull (bytes : list byte) (n : N) :
  n = N.of_nat (length bytes) -> reads (ReadFull n) bytes bytes.
Proof.
  intros -> rest. unfold ReadFull. destruct bytes as [|b bytes]; [done|].
  destruct (N.eqb_spec (N.of_nat (length (b :: bytes))) 0) as [H|_]; [simpl in H; lia|].
  cbn [app]. rewrite (proj2 (N.ltb_ge _ _)) by (simpl; rewrite length_app; lia).
  rewrite Nat2N.id. change (b :: bytes ++ rest) with ((b :: bytes) ++ rest).
  by rewrite take_app_length, drop_app_length.
Qed.

Lemma reads_fixed (n : nat) (v : N) {B} (f : N -> B) :
  v < 256 ^ N.of_nat n ->
  reads (bs ← ReadFull (N.of_nat n); mret (f (be_decode bs))) (be_encode n v) (f v).
Proof.
  intros Hv. eapply reads_bind_ret.
  - apply reads_ReadFull. by rewrite length_be_encode.
  - rewrite be_decode_encode by done. apply reads_ret.
Qed.

Lemma reads_uint8 (v : N) : v < 256 -> reads Read_uint8 [byte_of_N v] v.
Proof. intros Hv. apply (reads_fixed 1 v id). simpl. lia. Qed.

Lemma reads_bool (b : bool) : reads Read_bool [byte_of_N (if b then 1 else 0)] b.
Proof.
  destruct b; [apply (reads_fixed 1 1 (fun n => negb (n =? 0))) |
    apply (reads_fixed 1 0 (fun n => negb (n =? 0)))]; done.
Qed.

Lemma reads_uint64 (v : N) : v < 2 ^ 64 -> reads Read_uint64 (be_encode 8 v) v.
Proof. intros Hv. by apply (reads_fixed 8 v id). Qed.

Lemma reads_uint32 (v : N) : v < 2 ^ 32 -> reads Read_uint32 (be_encode 4 v) v.
Proof. intros Hv. by apply (reads_fixed 4 v id). Qed.

Lemma reads_uint16s (l : list N) (n : N) :
  n = N.of_nat (length l) -> Forall (fun v => v < 65536) l ->
  reads (Read_uint16s n) (encode_uint16s l) l.
Proof.
  intros -> Hl. eapply reads_bind_ret.
  - apply reads_ReadFull. clear Hl. induction l as [|v l IH]; [done|].
    unfold encode_uint16s in *. cbn [flat_map length]. rewrite length_app, length_be_encode. lia.
  - replace (decode_uint16s (encode_uint16s l)) with l; [apply reads_ret|].
    induction Hl as [|v l Hv _ IH]; [done|].
    change (encode_uint16s (v :: l)) with (be_encode 2 v ++ encode_uint16s l).
    change (be_encode 2 v) with [byte_of_N (v / 256); byte_of_N v]. cbn [app decode_uint16s].
    rewrite <- IH. change [byte_of_N (v / 256); byte_of_N v] with (be_encode 2 v).
    by rewrite be_decode_encode.
Qed.

(** ** Variable-length integers *)

Lemma shiftl_lt (v s k : N) : v < 2 ^ k -> N.shiftl v s < 2 ^ (s + k).
Proof.
  intros Hv. rewrite N.shiftl_mul_pow2, N.pow_add_r, N.mul_comm.
  apply N.mul_lt_mono_pos_l; [|done]. apply N.neq_0_lt_0, N.pow_nonzero. done.
Qed.

Lemma low7_high (v s : N) :
  N.lor (N.shiftl (N.land v 127) s) (N.shiftl (N.shiftr v 7) (s + 7)) = N.shiftl v s.
Proof.
  change 127 with (N.ones 7). rewrite N.add_comm, <- N.shiftl_shiftl, <- N.shiftl_lor. f_equal.
  apply N.bits_inj. intros i. rewrite N.lor_spec, N.land_spec.
  destruct (N.lt_ge_cases i 7) as [Hi|Hi].
  - rewrite N.ones_spec_low, N.shiftl_spec_low by lia. by rewrite andb_true_r, orb_false_r.
  - rewrite N.ones_spec_high, N.shiftl_spec_high', N.shiftr_spec' by lia.
    by rewrite andb_false_r, N.sub_add.
Qed.

Lemma continuation_byte (v : N) :
  Byte.to_N (byte_of_N (N.lor (v mod 256) 128)) = N.lor (v mod 256) 128 /\
  128 <= N.lor (v mod 256) 128 /\
  N.land (N.lor (v mod 256) 128) 127 = N.land v 127.
Proof.
  assert (v mod 256 < 2 ^ 8) as Hm by (apply N.mod_lt; done).
  assert (N.lor (v mod 256) 128 < 2 ^ 8) as Hl by by apply lor_lt_pow2.
  split; [by rewrite to_N_byte_of_N, N.mod_small|]. split.
  - change 128 with (2 ^ 7) at 1. rewrite N.lor_comm.
    apply N.le_trans with (N.lor (2 ^ 7) 0); [done|]. rewrite N.lor_0_r.
    destruct (N.lt_ge_cases (N.lor 128 (v mod 256)) (2 ^ 7)) as [Hlt|]; [|done].
    assert (N.testbit (N.lor 128 (v mod 256)) 7 = true) as Hb by by rewrite N.lor_spec.
    rewrite <- (N.mod_small _ _ Hlt), N.mod_pow2_bits_high in Hb by done. done.
  - change 127 with (N.ones 7). change 256 with (2 ^ 8). rewrite <- N.land_ones.
    apply N.bits_inj. intros i. rewrite !N.land_spec, N.lor_spec, N.land_spec.
    destruct (N.lt_ge_cases i 7) as [Hi|Hi].
    + rewrite !N.ones_spec_low by lia. change 128 with (2 ^ 7).
      rewrite N.pow2_bits_false by lia. by rewrite !andb_true_r, orb_false_r.
    + rewrite (N.ones_spec_high 7 i) by lia. by rewrite !andb_false_r.
Qed.

(** From position [i], the loop reads back what the encoder writes. *)
Lemma reads_uvarint_loop (fuel : nat) (i x v : N) :
  i + N.of_nat fuel = 10 -> i < 10 -> v < 2 ^ (64 - 7 * i) ->
  reads (uvarint_loop fuel i x (7 * i)) (put_uvarint fuel v) (N.lor x (N.shiftl v (7 * i))).
Proof.
  revert i x v. induction fuel as [|fuel IH]; intros i x v Hf Hi Hv rest; [lia|].
  assert (N.shiftl v (7 * i) < 2 ^ 64) as Hs.
  { eapply N.lt_le_trans; [apply shiftl_lt, Hv|]. apply N.pow_le_mono_r; lia. }
  cbn [put_uvarint]. destruct (N.leb_spec 128 v) as [Hge|Hlt].
  - assert (i < 9) as Hi9.
    { destruct (N.lt_ge_cases i 9) as [|H9]; [done|]. assert (i = 9) as -> by lia.
      change (2 ^ (64 - 7 * 9)) with 2 in Hv. lia. }
    destruct (continuation_byte v) as (Hb & Hbge & Hland).
    cbn [app uvarint_loop]. rewrite Hb, (proj2 (N.ltb_ge _ _)), Hland by done. cbv iota.
    replace (7 * i + 7) with (7 * (i + 1)) by lia. rewrite IH.
    + unfold u64. rewrite N.mod_small.
      { replace (7 * (i + 1)) with (7 * i + 7) by lia. by rewrite <- N.lor_assoc, low7_high. }
      eapply N.le_lt_trans; [|exact Hs]. rewrite !N.shiftl_mul_pow2.
      apply N.mul_le_mono_r. change 127 with (N.ones 7). rewrite N.land_ones.
      apply N.Div0.mod_le.
    + lia.
    + lia.
    + rewrite N.shiftr_div_pow2. apply N.Div0.div_lt_upper_bound.
      rewrite <- N.pow_add_r. eapply N.lt_le_trans; [exact Hv|]. apply N.pow_le_mono_r; lia.
  - cbn [app uvarint_loop]. rewrite to_N_byte_of_N, (N.mod_small v 256) by lia.
    rewrite (proj2 (N.ltb_lt v 128)) by done. unfold u64. rewrite N.mod_small by done.
    destruct (N.eqb_spec i 9) as [->|]; [|done].
    change (2 ^ (64 - 7 * 9)) with 2 in Hv. by rewrite (proj2 (N.ltb_ge 1 v)) by lia.
Qed.

Lemma reads_Uvarint (v : N) : v < 2 ^ 64 -> reads ReadUvarint (PutUvarint v) v.
Proof.
  intros Hv. replace v with (N.lor 0 (N.shiftl v (7 * 0))) at 2.
  - by apply reads_uvarint_loop.
  - rewrite N.lor_0_l. apply N.shiftl_0_r.
Qed.

Lemma put_uvarint_nonempty (fuel : nat) (v : N) : (0 < fuel)%nat -> put_uvarint fuel v <> [].
Proof. destruct fuel; [lia|]. intros _. simpl. by case_bool. Qed.

(** ** Progress

    The readers never return more than they were given, and those that read an
    element consume at least one byte; fuel above the length of the input is
    therefore enough. *)

Definition keeps {A} (m : Reader A) : Prop :=
  forall input a rest, m input = Some (Ok (a, rest)) -> (length rest <= length input)%nat.
Definition shrinks {A} (m : Reader A) : Prop :=
  forall input a rest, m input = Some (Ok (a, rest)) -> (length rest < length input)%nat.
(** [m] returns on every input shorter than [k]. *)
Definition returns {A} (k : nat) (m : Reader A) : Prop :=
  forall input, (length input < k)%nat -> m input <> None.

Lemma shrinks_keeps {A} (m : Reader A) : shrinks m -> keeps m.
Proof. intros H input a rest Hm. apply H in Hm. lia. Qed.

Lemma bind_inv {A B} (m : Reader A) (f : A -> Reader B) input b rest :
  (m ≫= f) input = Some (Ok (b, rest)) ->
  exists a mid, m input = Some (Ok (a, mid)) /\ f a mid = Some (Ok (b, rest)).
Proof.
  unfold mbind, Reader_bind. destruct (m input) as [[[a mid]| |]|]; try discriminate. eauto.
Qed.

Lemma keeps_bind {A B} (m : Reader A) (f : A -> Reader B) :
  keeps m -> (forall a, keeps (f a)) -> keeps (m ≫= f).
Proof.
  intros Hm Hf input b rest (a & mid & H1 & H2)%bind_inv.
  apply Hm in H1. apply Hf in H2. lia.
Qed.

Lemma shrinks_bind {A B} (m : Reader A) (f : A -> Reader B) :
  shrinks m -> (forall a, keeps (f a)) -> shrinks (m ≫= f).
Proof.
  intros Hm Hf input b rest (a & mid & H1 & H2)%bind_inv.
  apply Hm in H1. apply Hf in H2. lia.
Qed.

Lemma returns_bind {A B} (k : nat) (m : Reader A) (f : A -> Reader B) :
  returns k m -> keeps m -> (forall a, returns k (f a)) -> returns k (m ≫= f).
Proof.
  intros Hm Hk Hf input Hin. unfold mbind, Reader_bind.
  specialize (Hm input Hin). destruct (m input) as [[[a mid]| |]|] eqn:E; try done.
  apply Hk in E. apply Hf. lia.
Qed.

(** After a step that consumed a byte, one unit of fuel less is enough. *)
Lemma returns_bind_shrinks {A B} (k : nat) (m : Reader A) (f : A -> Reader B) :
  returns (S k) m -> shrinks m -> (forall a, returns k (f a)) -> returns (S k) (m ≫= f).
Proof.
  intros Hm Hk Hf input Hin. unfold mbind, Reader_bind.
  specialize (Hm input Hin). destruct (m input) as [[[a mid]| |]|] eqn:E; try done.
  apply Hk in E. apply Hf. lia.
Qed.

Lemma keeps_ret {A} (a : A) : keeps (mret a).
Proof. intros input b rest [= _ <-]. done. Qed.
Lemma keeps_fail {A} (e : error) : keeps (fail (A := A) e).
Proof. by intros input a rest. Qed.
Lemma returns_ret {A} k (a : A) : returns k (mret a).
Proof. by intros input _. Qed.
Lemma returns_fail {A} k (e : error) : returns k (fail (A := A) e).
Proof. by intros input _. Qed.
Lemma keeps_cause {A} f (m : Reader A) : keeps m -> keeps (cause f m).
Proof. intros H input a rest. unfold cause. destruct (m input) as [[| |]|] eqn:E; naive_solver. Qed.
Lemma shrinks_cause {A} f (m : Reader A) : shrinks m -> shrinks (cause f m).
Proof. intros H input a rest. unfold cause. destruct (m input) as [[| |]|] eqn:E; naive_solver. Qed.
Lemma returns_cause {A} k f (m : Reader A) : returns k m -> returns k (cause f m).
Proof.
  intros H input Hin. unfold cause. specialize (H input Hin).
  by destruct (m input) as [[| |]|].
Qed.

Lemma shrinks_ReadByte : shrinks ReadByte.
Proof. intros [|b input] a rest; simpl; [done|]. intros [= _ <-]. lia. Qed.
Lemma returns_ReadByte k : returns k ReadByte.
Proof. by intros [|b input] _. Qed.
Lemma keeps_ReadFull n : keeps (ReadFull n).
Proof.
  intros input a rest. unfold ReadFull. destruct (n =? 0); [by intros [= _ <-]|].
  destruct input as [|b input]; [done|]. case_bool; [done|].
  intros [= _ <-]. rewrite length_drop. lia.
Qed.
Lemma shrinks_ReadFull n : n <> 0 -> shrinks (ReadFull n).
Proof.
  intros Hn input a rest. unfold ReadFull. rewrite (proj2 (N.eqb_neq n 0)) by done.
  destruct input as [|b input]; [done|]. case_bool; [done|].
  intros [= _ <-]. rewrite length_drop. simpl. lia.
Qed.
Lemma returns_ReadFull k n : returns k (ReadFull n).
Proof. intros [|b input] _; unfold ReadFull; by repeat case_bool. Qed.

Lemma shrinks_uvarint_loop more i x s : shrinks (uvarint_loop more i x s).
Proof.
  revert i x s. induction more as [|more IH]; intros i x s input a rest; [done|].
  destruct input as [|b input]; [done|]. cbn [uvarint_loop].
  repeat case_bool; try done; [by intros [= _ <-]; simpl; lia|].
  intros H. apply IH in H. simpl. lia.
Qed.
Lemma returns_uvarint_loop k more i x s : returns k (uvarint_loop more i x s).
Proof.
  revert k i x s. induction more as [|more IH]; intros k i x s input Hin; [done|].
  destruct input as [|b input]; [done|]. cbn [uvarint_loop].
  repeat case_bool; try done. apply (IH k). simpl in Hin. lia.
Qed.
Lemma shrinks_Uvarint : shrinks ReadUvarint.
Proof. apply shrinks_uvarint_loop. Qed.
Lemma returns_Uvarint k : returns k ReadUvarint.
Proof. apply returns_uvarint_loop. Qed.

Lemma keeps_make_slice size n : keeps (make_slice size n).
Proof. unfold make_slice. case_bool; [done|apply keeps_ret]. Qed.
Lemma returns_make_slice k size n : returns k (make_slice size n).
Proof. unfold make_slice. case_bool; [done|apply returns_ret]. Qed.

#[export] Hint Resolve keeps_bind keeps_ret keeps_fail keeps_cause keeps_ReadFull shrinks_keeps
  shrinks_bind shrinks_cause shrinks_ReadByte shrinks_Uvarint keeps_make_slice
  returns_bind returns_ret returns_fail returns_cause returns_ReadByte returns_ReadFull
  returns_Uvarint returns_make_slice : kernel.

Lemma shrinks_uint8 : shrinks Read_uint8.
Proof. apply shrinks_bind; [by apply shrinks_ReadFull|auto with kernel]. Qed.
Lemma returns_uint8 k : returns k Read_uint8.
Proof. unfold Read_uint8. auto with kernel. Qed.
Lemma shrinks_bool : shrinks Read_bool.
Proof. apply shrinks_bind; [by apply shrinks_ReadFull|auto with kernel]. Qed.
Lemma returns_bool k : returns k Read_bool.
Proof. unfold Read_bool. auto with kernel. Qed.
Lemma shrinks_uint64 : shrinks Read_uint64.
Proof. apply shrinks_bind; [by apply shrinks_ReadFull|auto with kernel]. Qed.
Lemma returns_uint64 k : returns k Read_uint64.
Proof. unfold Read_uint64. auto with kernel. Qed.
Lemma keeps_uint16s n : keeps (Read_uint16s n).
Proof. unfold Read_uint16s. auto with kernel. Qed.
Lemma returns_uint16s k n : returns k (Read_uint16s n).
Proof. unfold Read_uint16s. auto with kernel. Qed.

#[export] Hint Resolve shrinks_uint8 returns_uint8 shrinks_bool returns_bool shrinks_uint64
  returns_uint64 keeps_uint16s returns_uint16s : kernel.

Lemma keeps_read_loop {A} (elem : N -> Reader A) fuel i n :
  (forall i, keeps (elem i)) -> keeps (read_loop fuel i n elem).
Proof.
  intros He. revert i. induction fuel as [|fuel IH]; intros i; cbn [read_loop].
  - case_bool; [apply keeps_ret|by intros input a rest].
  - case_bool; [apply keeps_ret|]. apply keeps_bind; [done|]. auto with kernel.
Qed.

Lemma returns_read_loop {A} (elem : N -> Reader A) fuel i n k :
  (forall i, shrinks (elem i)) -> (forall i, returns k (elem i)) ->
  forall input, (length input < fuel)%nat -> (length input < k)%nat ->
  read_loop fuel i n elem input <> None.
Proof.
  intros Hs Hr. revert i. induction fuel as [|fuel IH]; intros i input Hf Hk; [lia|].
  cbn [read_loop]. case_bool; [done|]. unfold mbind at 1, Reader_bind at 1.
  specialize (Hr i input Hk). destruct (elem i input) as [[[a mid]| |]|] eqn:E; try done.
  apply Hs in E. unfold mbind, Reader_bind.
  specialize (IH (i + 1) mid ltac:(lia) ltac:(lia)).
  by destruct (read_loop fuel (i + 1) n elem mid) as [[[? ?]| |]|].
Qed.

Lemma keeps_read_n {A} (elem : N -> Reader A) n : (forall i, keeps (elem i)) -> keeps (read_n n elem).
Proof. intros He input a rest. by apply keeps_read_loop. Qed.

Lemma returns_read_n {A} (elem : N -> Reader A) n k :
  (forall i, shrinks (elem i)) -> (forall i, returns k (elem i)) -> returns k (read_n n elem).
Proof. intros Hs Hr input Hin. apply (returns_read_loop elem _ _ _ k); auto. Qed.

#[export] Hint Resolve keeps_read_n returns_read_n : kernel.

Lemma reads_read_loop {A B} (elem : N -> Reader A) (encode : B -> list byte) (value : B -> A)
    (l : list B) fuel i n rest :
  Forall (fun b => forall i, reads (elem i) (encode b) (value b)) l ->
  (length l <= fuel)%nat -> n = i + N.of_nat (length l) ->
  read_loop fuel i n elem (flat_map encode l ++ rest) = Some (Ok (map value l, rest)).
Proof.
  intros Hl. revert fuel i. induction Hl as [|a l Ha _ IH]; intros fuel i Hf Hn.
  - simpl in Hn. rewrite N.add_0_r in Hn. subst. destruct fuel; simpl; by rewrite N.eqb_refl.
  - simpl in Hf, Hn. destruct fuel as [|fuel]; [lia|]. cbn [read_loop flat_map].
    rewrite (proj2 (N.eqb_neq i n)) by lia. rewrite <- (assoc_L (++)).
    unfold mbind, Reader_bind. rewrite Ha, IH by lia. done.
Qed.

Lemma length_flat_map_ge {A} (encode : A -> list byte) (l : list A) :
  Forall (fun a => encode a <> []) l -> (length l <= length (flat_map encode l))%nat.
Proof.
  induction 1 as [|a l Ha _ IH]; simpl; [done|]. rewrite length_app.
  destruct (encode a); [done|]. simpl. lia.
Qed.

Lemma reads_read_n_map {A B} (elem : N -> Reader A) (encode : B -> list byte) (value : B -> A)
    (l : list B) n :
  Forall (fun b => forall i, reads (elem i) (encode b) (value b)) l ->
  Forall (fun b => encode b <> []) l -> n = N.of_nat (length l) ->
  reads (read_n n elem) (flat_map encode l) (map value l).
Proof.
  intros Hl Hne Hn rest. unfold read_n. apply reads_read_loop; [done| |lia].
  rewrite length_app. apply length_flat_map_ge in Hne. lia.
Qed.

Lemma reads_read_n {A} (elem : N -> Reader A) (encode : A -> list byte) (l : list A) n :
  Forall (fun a => forall i, reads (elem i) (encode a) a) l ->
  Forall (fun a => encode a <> []) l -> n = N.of_nat (length l) ->
  reads (read_n n elem) (flat_map encode l) l.
Proof. rewrite <- (map_id l) at 5. apply (reads_read_n_map elem encode id). Qed.

Lemma reads_make_slice (size n : N) : n * size <= maxAlloc -> reads (make_slice size n) [] tt.
Proof. intros H rest. unfold make_slice. by rewrite (proj2 (N.ltb_ge _ _)). Qed.
