(* ===== verification/Instances.v ===== *)
(** * A concrete instance of the third-party interface

    Small functions with the documented behaviour of each external operation,
    on which the theorems are evaluated at concrete inputs. *)

From S2P Require Import Prelude GoStd Metadata Binary.
Import netip.

Open Scope N_scope.

Definition sample_unicode : strings.unicode :=
  strings.mkUnicode strings.lower_ascii
    (fun s t => bool_decide (strings.lower_ascii s = strings.lower_ascii t)) id id.

Definition sample_hasSuffix (s suffix : string) : bool :=
  bool_decide (strings.drop_str (String.length s - String.length suffix) s = suffix).

Definition sample_rangeContains (a : Addr) (r : Addr * Addr) : bool :=
  Bool.eqb (Is4 a) (Is4 r.1) && IsValid a
  && (value r.1 <=? value a) && (value a <=? value r.2).

(** The range of addresses of a prefix. *)
Definition sample_prefixRange (p : Prefix) : Addr * Addr :=
  let host := BitLen (ip p) - Z.to_N (Bits p) in
  let first := N.shiftl (N.shiftr (value (ip p)) host) host in
  let last := first + N.ones host in
  match ip p with
  | Addr4 _ => (Addr4 first, Addr4 last)
  | Addr6 _ _ => (Addr6 first "", Addr6 last "")
  | AddrZero => (AddrZero, AddrZero)
  end.

Definition sample_buildRange (entry : Prefix + Addr) : Addr * Addr :=
  match entry with
  | inl p => sample_prefixRange p
  | inr a => (a, a)
  end.

Definition sampleExternals : Externals := {|
  Regexp := string;
  regexp_Compile := fun expr => if bool_decide (expr = "(") then None else Some expr;
  Regexp_MatchString := fun expr s => strings.Contains s expr;
  Matcher := list string * list string;
  domain_NewMatcher := fun domains suffixes _ => (domains, suffixes);
  Matcher_Match := fun m s =>
    existsb (fun d => bool_decide (d = s)) m.1 || existsb (sample_hasSuffix s) m.2;
  AdGuardMatcher := list string;
  domain_NewAdGuardMatcher := id;
  AdGuardMatcher_Match := fun m s => existsb (fun d => bool_decide (d = s)) m;
  IPSet_Contains := fun set a => existsb (sample_rangeContains a) set;
  IPSetBuilder_IPSet := fun entries => Ok (map sample_buildRange entries);
  netip_ParsePrefix := fun s =>
    if bool_decide (s = "10.0.0.0/8") then Ok (mkPrefix (Addr4 167772160) 9)
    else Err (ErrExternal "netip.ParsePrefix");
  netip_ParseAddr := fun s =>
    if bool_decide (s = "127.0.0.1") then Ok (Addr4 2130706433)
    else Err (ErrExternal "ParseAddr");
  Socksaddr_IsIP := fun a => IsValid (Addr_ a);
  Socksaddr_IsIPv6 := fun a => Is6 (Addr_ a);
  M_AddrFromIP := AddrFromSlice;
  N_IsPublicAddr := fun a => negb (N.shiftr (value a) 24 =? 10);
  dns_IsDuplicate := fun a b => bool_decide (rr_Name a = rr_Name b) && (rr_Rrtype a =? rr_Rrtype b);
  dns_CanonicalName := fun s => (strings.lower_ascii s +:+ ".")%string;
  Prefixable_Build := fun p default => from_option id default p;
  F_ToString := fun parts => strings.Join parts "";
  F_int := fun z => pretty z;
  DNSQueryTypeToString := fun n => pretty n;
  dns_RcodeToString := fun z => pretty z;
  RR_String := fun rr => rr_Name rr;
  Prefix_String := fun p => pretty (value (ip p));
  unicode_tables := sample_unicode;
|}.

Definition sampleNetwork : Network := {|
  DefaultNetworkInterface := None; NetworkInterfaces := [];
  InterfaceFinder_Interfaces := []; DefaultInterface_Addresses := None;
  MyInterface := ""; WIFI := mkWIFIState "" ""; clashMode := None;
  PreferredDomain := fun _ _ => false; PreferredAddress := fun _ _ => false;
  TransportPreferredDomain := fun _ _ => false; IsAndroid := false |}.
