(* ===== verification/HeadlessOptions.v ===== *)
(** * Options of headless rules (src/option/rule_set.go)

    The configuration a rule-set holds, as the JSON decoder or the binary reader
    produce it.  A Go slice distinguishes [nil] from an empty allocated slice,
    which [reflect.DeepEqual] in [IsValid] observes; pointers are options. *)

From S2P Require Import Prelude GoStd Metadata.
Import netip.

Open Scope N_scope.

(** A slice that may be [nil], and its elements. *)
Definition slice (A : Type) : Type := option (list A).
Definition isNil {A} (s : option A) : bool := match s with None => true | Some _ => false end.
Definition elems {A} (s : slice A) : list A := default [] s.

(** src/constant/rule.go *)
Definition RuleTypeDefault : string := "default".
Definition RuleTypeLogical : string := "logical".
Definition RuleSetVersion1 : N := 1.
Definition RuleSetVersion2 : N := 2.
Definition RuleSetVersion3 : N := 3.
Definition RuleSetVersion4 : N := 4.
Definition RuleSetVersion5 : N := 5.
Definition RuleSetVersionCurrent : N := RuleSetVersion5.

Section Options.
Context `{E : Externals}.

Record DefaultHeadlessRule : Type := mkDefaultHeadless {
  h_QueryType : slice N;
  h_Network : slice string;
  h_Domain : slice string;
  h_DomainSuffix : slice string;
  h_DomainKeyword : slice string;
  h_DomainRegex : slice string;
  h_SourceIPCIDR : slice string;
  h_IPCIDR : slice string;
  h_SourcePort : slice N;
  h_SourcePortRange : slice string;
  h_Port : slice N;
  h_PortRange : slice string;
  h_ProcessName : slice string;
  h_ProcessPath : slice string;
  h_ProcessPathRegex : slice string;
  h_PackageName : slice string;
  h_PackageNameRegex : slice string;
  h_NetworkType : slice InterfaceType;
  h_NetworkIsExpensive : bool;
  h_NetworkIsConstrained : bool;
  h_WIFISSID : slice string;
  h_WIFIBSSID : slice string;
  h_NetworkInterfaceAddress : option (list (InterfaceType * slice (option Prefix)));
  h_DefaultInterfaceAddress : slice (option Prefix);
  h_Invert : bool;
  h_DomainMatcher : option Matcher;
  h_SourceIPSet : option IPSet;
  h_IPSet : option IPSet;
  h_AdGuardDomain : slice string;
  h_AdGuardDomainMatcher : option AdGuardMatcher;
}.

Definition DefaultHeadlessRuleZero : DefaultHeadlessRule :=
  mkDefaultHeadless None None None None None None None None None None None None None None None
    None None None false false None None None None false None None None None None.

(** [HeadlessRule]: its type tag, its default options, and the fields of its
    logical options. *)
Inductive HeadlessRuleOptions : Type :=
| mkHeadlessRule (Type_ : string) (DefaultOptions : DefaultHeadlessRule)
    (Mode : string) (Rules : list HeadlessRuleOptions) (Invert : bool).

Definition PlainRuleSet : Type := list HeadlessRuleOptions.

(** [DefaultHeadlessRule.IsValid]: some field other than [Invert] differs from
    the zero value. *)
Definition default_IsValid (r : DefaultHeadlessRule) : bool :=
  negb (isNil (h_QueryType r) && isNil (h_Network r)
  && isNil (h_Domain r) && isNil (h_DomainSuffix r)
  && isNil (h_DomainKeyword r) && isNil (h_DomainRegex r)
  && isNil (h_SourceIPCIDR r) && isNil (h_IPCIDR r)
  && isNil (h_SourcePort r) && isNil (h_SourcePortRange r)
  && isNil (h_Port r) && isNil (h_PortRange r)
  && isNil (h_ProcessName r) && isNil (h_ProcessPath r)
  && isNil (h_ProcessPathRegex r) && isNil (h_PackageName r)
  && isNil (h_PackageNameRegex r) && isNil (h_NetworkType r)
  && negb (h_NetworkIsExpensive r) && negb (h_NetworkIsConstrained r)
  && isNil (h_WIFISSID r) && isNil (h_WIFIBSSID r)
  && isNil (h_NetworkInterfaceAddress r)
  && isNil (h_DefaultInterfaceAddress r)
  && isNil (h_DomainMatcher r)
  && isNil (h_SourceIPSet r)
  && isNil (h_IPSet r)
  && isNil (h_AdGuardDomain r)
  && isNil (h_AdGuardDomainMatcher r)).

(** [common.All] with a predicate that can panic. *)
Definition all_valid {A} (p : A -> result bool) : list A -> result bool :=
  fix go l :=
    match l with
    | [] => Ok true
    | x :: l => match p x with Ok true => go l | r => r end
    end.

(** [HeadlessRule.IsValid], with [LogicalHeadlessRule.IsValid] inlined at the
    recursion. *)
Fixpoint rule_IsValid (r : HeadlessRuleOptions) : result bool :=
  match r with
  | mkHeadlessRule type_ defaultOptions _ rules _ =>
      if bool_decide (type_ = RuleTypeDefault) || bool_decide (type_ = "")
      then Ok (default_IsValid defaultOptions)
      else if bool_decide (type_ = RuleTypeLogical)
      then if (0 <? length rules)%nat then all_valid rule_IsValid rules else Ok false
      else Panic ("unknown rule type: " +:+ type_)
  end.

Definition logical_IsValid (rules : list HeadlessRuleOptions) : result bool :=
  if (0 <? length rules)%nat then all_valid rule_IsValid rules else Ok false.

(** [PlainRuleSetCompat.Upgrade] *)
Definition Upgrade (version : N) (options : PlainRuleSet) : result PlainRuleSet :=
  if (version =? RuleSetVersion1) || (version =? RuleSetVersion2) || (version =? RuleSetVersion3)
     || (version =? RuleSetVersion4) || (version =? RuleSetVersion5)
  then Ok options
  else Err (E_New ["unknown rule-set version: " +:+ F_ToString [F_int (Z.of_N version)]]).

End Options.
