(* ===== verification/MatchState.v ===== *)
(** * Rule match states (src/route/rule/match_state.go)

    A [ruleMatchState] is a set of the four grouped conditions of a rule (source
    address, source port, destination address, destination port), kept in the
    low four bits of a [uint8].  A [ruleMatchStateSet] is a set of such states,
    kept in the sixteen bits of a [uint16]: bit [i] is set when state [i] is a
    member.  The operations are translated with their loops and shifts; the
    lemmas characterise each by membership, and the algebra of [merge] and
    [combine] follows. *)

From S2P Require Import Prelude.

Open Scope N_scope.

Module MatchState.

(** ** Data *)

Definition ruleMatchState : Type := N.
Definition ruleMatchSourceAddress : ruleMatchState := N.shiftl 1 0.
Definition ruleMatchSourcePort : ruleMatchState := N.shiftl 1 1.
Definition ruleMatchDestinationAddress : ruleMatchState := N.shiftl 1 2.
Definition ruleMatchDestinationPort : ruleMatchState := N.shiftl 1 3.

Definition ruleMatchStateSet : Type := N.

(** Truncation of a shift to the sixteen bits of the set's type. *)
Definition u16 (n : N) : N := n mod 2 ^ 16.

Definition singleRuleMatchState (state : ruleMatchState) : ruleMatchStateSet :=
  u16 (N.shiftl 1 state).

Definition emptyRuleMatchState : ruleMatchStateSet := singleRuleMatchState 0.

Definition isEmpty (s : ruleMatchStateSet) : bool := s =? 0.

Definition contains (s : ruleMatchStateSet) (state : ruleMatchState) : bool :=
  negb (N.land s (u16 (N.shiftl 1 state)) =? 0).

Definition add (s : ruleMatchStateSet) (state : ruleMatchState) : ruleMatchStateSet :=
  N.lor s (singleRuleMatchState state).

Definition merge (s other : ruleMatchStateSet) : ruleMatchStateSet := N.lor s other.

(** [for state := range ruleMatchState(16)] *)
Definition range16 : list ruleMatchState :=
  [0; 1; 2; 3; 4; 5; 6; 7; 8; 9; 10; 11; 12; 13; 14; 15].

Definition combine (s other : ruleMatchStateSet) : ruleMatchStateSet :=
  if isEmpty s || isEmpty other then 0
  else
    fold_left
      (fun combined left =>
         if negb (contains s left) then combined
         else
           fold_left
             (fun combined right =>
                if negb (contains other right) then combined
                else add combined (N.lor left right))
             range16 combined)
      range16 0.

Definition withBase (s : ruleMatchStateSet) (base : ruleMatchState) : ruleMatchStateSet :=
  if isEmpty s then 0
  else
    fold_left
      (fun acc state =>
         if negb (contains s state) then acc else add acc (N.lor state base))
      range16 0.

Definition filter (s : ruleMatchStateSet) (allowed : ruleMatchState -> bool)
  : ruleMatchStateSet :=
  fold_left
    (fun filtered state =>
       if negb (contains s state) then filtered
       else if allowed state then add filtered state else filtered)
    range16 0.

(** [ruleMatchState.has] of rule_abstract.go. *)
Definition has (s target : ruleMatchState) : bool := negb (N.land s target =? 0).

(** ** Well-formedness: the values the types can hold in this program *)

Definition wf_state (s : ruleMatchState) : Prop := s < 16.
Definition wf_set (s : ruleMatchStateSet) : Prop := s < 2 ^ 16.

(** ** Membership of each operation *)

Lemma range16_In (i : ruleMatchState) : In i range16 <-> wf_state i.
Proof. unfold wf_state, range16; simpl. lia. Qed.

Lemma u16_shiftl_small (st : N) : st < 16 -> u16 (N.shiftl 1 st) = 2 ^ st.
Proof.
  intros H. unfold u16. rewrite N.shiftl_1_l. apply N.mod_small.
  apply N.pow_lt_mono_r; lia.
Qed.

Lemma u16_shiftl_large (st : N) : 16 <= st -> u16 (N.shiftl 1 st) = 0.
Proof.
  intros H. unfold u16. rewrite N.shiftl_1_l.
  replace st with (16 + (st - 16)) by lia.
  rewrite N.pow_add_r, N.mul_comm. apply N.Div0.mod_mul.
Qed.

Lemma land_pow2 (s i : N) : (N.land s (2 ^ i) =? 0) = negb (N.testbit s i).
Proof.
  destruct (N.testbit s i) eqn:E; simpl.
  - apply N.eqb_neq. intros H0.
    assert (N.testbit (N.land s (2 ^ i)) i = false) as Hb by (rewrite H0; apply N.bits_0).
    rewrite N.land_spec, E, N.pow2_bits_true in Hb. discriminate.
  - apply N.eqb_eq, N.bits_inj_0. intros n. rewrite N.land_spec, N.pow2_bits_eqb.
    destruct (N.eqb_spec i n); subst; [by rewrite E | apply andb_false_r].
Qed.

Lemma contains_testbit (s : ruleMatchStateSet) (st : ruleMatchState) :
  contains s st = N.testbit s st && (st <? 16).
Proof.
  unfold contains. destruct (N.ltb_spec st 16) as [H|H].
  - rewrite u16_shiftl_small, land_pow2, negb_involutive by done.
    by rewrite andb_true_r.
  - rewrite u16_shiftl_large, N.land_0_r by done. by rewrite andb_false_r.
Qed.

Lemma contains_wf (s : ruleMatchStateSet) (st : ruleMatchState) :
  contains s st = true -> wf_state st.
Proof. rewrite contains_testbit, andb_true_iff, N.ltb_lt. tauto. Qed.

Lemma contains_0 (st : ruleMatchState) : contains 0 st = false.
Proof. by rewrite contains_testbit, N.bits_0. Qed.

Lemma contains_single (st i : ruleMatchState) :
  wf_state st -> contains (singleRuleMatchState st) i = (st =? i).
Proof.
  intros H. unfold singleRuleMatchState.
  rewrite contains_testbit, u16_shiftl_small, N.pow2_bits_eqb by done.
  destruct (N.eqb_spec st i) as [->|]; simpl; [by apply N.ltb_lt|done].
Qed.

Lemma contains_merge (a b : ruleMatchStateSet) (i : ruleMatchState) :
  contains (merge a b) i = contains a i || contains b i.
Proof. unfold merge. by rewrite !contains_testbit, N.lor_spec, andb_orb_distrib_l. Qed.

Lemma contains_add (s : ruleMatchStateSet) (st i : ruleMatchState) :
  wf_state st -> contains (add s st) i = contains s i || (st =? i).
Proof.
  intros H. unfold add. fold (merge s (singleRuleMatchState st)).
  by rewrite contains_merge, contains_single.
Qed.

(** Both loops of the source accumulate with [add] under a guard. *)
Lemma contains_fold_add (keep : N -> bool) (image : N -> N) (l : list N) acc i :
  Forall (fun x => wf_state (image x)) l ->
  contains
    (fold_left (fun acc x => if negb (keep x) then acc else add acc (image x)) l acc) i
  = contains acc i || existsb (fun x => keep x && (image x =? i)) l.
Proof.
  intros Hl. revert acc. induction Hl as [|x l Hx _ IH]; intros acc; simpl.
  - by rewrite orb_false_r.
  - rewrite IH. destruct (keep x); simpl; [|done].
    by rewrite contains_add, orb_assoc.
Qed.

Lemma wf_state_lor (a b : ruleMatchState) :
  wf_state a -> wf_state b -> wf_state (N.lor a b).
Proof. apply (lor_lt_pow2 a b 4). Qed.

Lemma Forall_range16 (P : N -> Prop) : (forall x, wf_state x -> P x) -> Forall P range16.
Proof. intros H. apply List.Forall_forall. intros x Hx. by apply H, range16_In. Qed.

Lemma existsb_range16_eqb (p : N -> bool) (i : N) :
  existsb (fun x => p x && (x =? i)) range16 = p i && (i <? 16).
Proof.
  apply eq_iff_eq_true. rewrite existsb_exists, andb_true_iff, N.ltb_lt.
  setoid_rewrite andb_true_iff. setoid_rewrite N.eqb_eq. setoid_rewrite range16_In.
  unfold wf_state. split; [by intros (x & Hx & Hp & <-) | intros [? ?]; by exists i].
Qed.

Lemma contains_filter (s : ruleMatchStateSet) (allowed : ruleMatchState -> bool) i :
  contains (filter s allowed) i = contains s i && allowed i.
Proof.
  unfold filter.
  erewrite fold_left_ext with
    (g := fun acc x => if negb (contains s x && allowed x) then acc else add acc x)
    by (intros; by destruct (contains s _), (allowed _)).
  rewrite contains_fold_add by by apply Forall_range16.
  rewrite contains_0, existsb_range16_eqb. simpl.
  destruct (contains s i) eqn:E; [|done]. apply contains_wf in E.
  rewrite (proj2 (N.ltb_lt i 16)) by done. by rewrite andb_true_r.
Qed.

Lemma isEmpty_0 (s : ruleMatchStateSet) : isEmpty s = true <-> s = 0.
Proof. apply N.eqb_eq. Qed.

Lemma contains_isEmpty (s : ruleMatchStateSet) (i : ruleMatchState) :
  contains s i = true -> isEmpty s = false.
Proof.
  intros H. apply N.eqb_neq. intros ->. by rewrite contains_0 in H.
Qed.

Lemma contains_withBase (s : ruleMatchStateSet) (base i : ruleMatchState) :
  wf_state base ->
  contains (withBase s base) i
  = existsb (fun st => contains s st && (N.lor st base =? i)) range16.
Proof.
  intros Hb. unfold withBase. destruct (isEmpty s) eqn:E.
  - apply isEmpty_0 in E as ->. rewrite contains_0. symmetry.
    apply existsb_false_iff, Forall_range16. intros x _. by rewrite contains_0.
  - rewrite contains_fold_add; [by rewrite contains_0|].
    apply Forall_range16. intros x Hx. by apply wf_state_lor.
Qed.

(** The nested loop of [combine], from any accumulator. *)
Lemma contains_fold_combine (a b : ruleMatchStateSet) (l : list ruleMatchState) acc i :
  Forall wf_state l ->
  contains
    (fold_left
       (fun combined left =>
          if negb (contains a left) then combined
          else
            fold_left
              (fun combined right =>
                 if negb (contains b right) then combined
                 else add combined (N.lor left right))
              range16 combined)
       l acc) i
  = contains acc i || existsb (fun l => contains a l &&
      existsb (fun r => contains b r && (N.lor l r =? i)) range16) l.
Proof.
  intros Hl. revert acc. induction Hl as [|x l Hx _ IH]; intros acc; cbn [fold_left existsb].
  - by rewrite orb_false_r.
  - rewrite IH. destruct (contains a x); cbn [negb andb orb]; [|done].
    rewrite contains_fold_add, orb_assoc; [done|].
    apply Forall_range16. intros y Hy. by apply wf_state_lor.
Qed.

Lemma contains_combine (a b : ruleMatchStateSet) (i : ruleMatchState) :
  contains (combine a b) i
  = existsb (fun l => contains a l &&
      existsb (fun r => contains b r && (N.lor l r =? i)) range16) range16.
Proof.
  unfold combine. destruct (isEmpty a) eqn:Ea; [|destruct (isEmpty b) eqn:Eb]; simpl orb.
  - apply isEmpty_0 in Ea as ->. rewrite contains_0. symmetry.
    apply existsb_false_iff, Forall_range16. intros x _. by rewrite contains_0.
  - apply isEmpty_0 in Eb as ->. rewrite contains_0. symmetry.
    apply existsb_false_iff, Forall_range16. intros x _.
    rewrite (proj2 (existsb_false_iff _ range16)); [by rewrite andb_false_r|].
    apply Forall_range16. intros y _. by rewrite contains_0.
  - cbv iota. rewrite contains_fold_combine by by apply Forall_range16. by rewrite contains_0.
Qed.

(** ** The same facts as set membership *)

Lemma contains_combine_iff (a b : ruleMatchStateSet) (i : ruleMatchState) :
  contains (combine a b) i = true <->
  exists l r, contains a l = true /\ contains b r = true /\ i = N.lor l r.
Proof.
  rewrite contains_combine, existsb_exists. setoid_rewrite andb_true_iff.
  setoid_rewrite existsb_exists. setoid_rewrite andb_true_iff.
  setoid_rewrite N.eqb_eq. split.
  - intros (l & _ & Hl & r & _ & Hr & <-). eauto.
  - intros (l & r & Hl & Hr & ->). exists l. rewrite range16_In.
    split; [by eapply contains_wf|]. split; [done|]. exists r. rewrite range16_In.
    split; [by eapply contains_wf|done].
Qed.

Lemma contains_withBase_iff (s : ruleMatchStateSet) (base i : ruleMatchState) :
  wf_state base ->
  contains (withBase s base) i = true <->
  exists st, contains s st = true /\ i = N.lor st base.
Proof.
  intros Hb. rewrite contains_withBase, existsb_exists by done.
  setoid_rewrite andb_true_iff. setoid_rewrite N.eqb_eq. split.
  - intros (st & _ & Hst & <-). eauto.
  - intros (st & Hst & ->). exists st. rewrite range16_In.
    split; [by eapply contains_wf|done].
Qed.

(** ** Every operation stays within sixteen bits *)

Lemma wf_set_0 : wf_set 0.
Proof. done. Qed.

Lemma wf_set_single (st : ruleMatchState) : wf_set (singleRuleMatchState st).
Proof. unfold wf_set, singleRuleMatchState, u16. apply N.mod_lt. lia. Qed.

Lemma wf_set_lor (a b : N) : wf_set a -> wf_set b -> wf_set (N.lor a b).
Proof. apply lor_lt_pow2. Qed.

Lemma wf_set_merge (a b : ruleMatchStateSet) : wf_set a -> wf_set b -> wf_set (merge a b).
Proof. apply wf_set_lor. Qed.

Lemma wf_set_add (s : ruleMatchStateSet) (st : ruleMatchState) : wf_set s -> wf_set (add s st).
Proof. intros H. apply wf_set_lor; [done|]. apply wf_set_single. Qed.

Lemma wf_set_fold {A} (f : N -> A -> N) (l : list A) (acc : N) :
  (forall acc x, wf_set acc -> wf_set (f acc x)) -> wf_set acc -> wf_set (fold_left f l acc).
Proof. intros Hf. revert acc. induction l as [|x l IH]; intros acc H; simpl; eauto. Qed.

Lemma wf_set_filter (s : ruleMatchStateSet) (p : ruleMatchState -> bool) : wf_set (filter s p).
Proof.
  apply wf_set_fold; [|done]. intros acc x H. repeat case_bool; auto using wf_set_add.
Qed.

Lemma wf_set_withBase (s : ruleMatchStateSet) (base : ruleMatchState) : wf_set (withBase s base).
Proof.
  unfold withBase. case_bool; [done|]. apply wf_set_fold; [|done].
  intros acc x H. case_bool; auto using wf_set_add.
Qed.

Lemma wf_set_combine (a b : ruleMatchStateSet) : wf_set (combine a b).
Proof.
  unfold combine. case_bool; [done|]. apply wf_set_fold; [|done].
  intros acc x H. case_bool; [done|]. apply wf_set_fold; [|done].
  intros acc' y H'. case_bool; auto using wf_set_add.
Qed.

(** Two well-formed sets with the same members are the same number. *)
Lemma set_ext (a b : ruleMatchStateSet) :
  wf_set a -> wf_set b -> (forall i, contains a i = contains b i) -> a = b.
Proof.
  intros Ha Hb H. apply N.bits_inj. intros i.
  specialize (H i). rewrite !contains_testbit in H.
  destruct (N.ltb_spec i 16) as [Hi|Hi]; [by rewrite !andb_true_r in H|].
  assert (forall s, wf_set s -> N.testbit s i = false) as Hz.
  { intros s Hs. destruct (decide (s = 0)) as [->|]; [apply N.bits_0|].
    apply N.bits_above_log2.
    apply N.lt_le_trans with 16; [|done]. apply N.log2_lt_pow2; [lia|done]. }
  by rewrite !Hz.
Qed.

Lemma isEmpty_iff (s : ruleMatchStateSet) :
  wf_set s -> isEmpty s = true <-> forall i, contains s i = false.
Proof.
  intros Hs. rewrite isEmpty_0. split; [intros -> i; apply contains_0|].
  intros H. apply set_ext; [done|apply wf_set_0|]. intros i. by rewrite H, contains_0.
Qed.

Lemma nonempty_iff (s : ruleMatchStateSet) :
  wf_set s -> isEmpty s = false <-> exists i, contains s i = true.
Proof.
  intros Hs. split; [|intros [i Hi]; by eapply contains_isEmpty].
  intros H. destruct (existsb (contains s) range16) eqn:E.
  - apply existsb_exists in E as (i & _ & Hi). eauto.
  - exfalso. apply not_true_iff_false in H. apply H, isEmpty_iff; [done|].
    intros i. destruct (contains s i) eqn:Ei; [|done].
    rewrite existsb_false_iff, List.Forall_forall in E.
    rewrite <- Ei. apply E, range16_In. by eapply contains_wf.
Qed.

(** ** The algebra of [merge] and [combine] *)

Lemma contains_ext (a b : ruleMatchStateSet) :
  wf_set a -> wf_set b ->
  (forall i, contains a i = true <-> contains b i = true) -> a = b.
Proof. intros Ha Hb H. apply set_ext; [done|done|]. intros i. by apply eq_iff_eq_true. Qed.

Lemma combine_comm (a b : ruleMatchStateSet) : combine a b = combine b a.
Proof.
  apply contains_ext; [apply wf_set_combine..|]. intros i. rewrite !contains_combine_iff.
  split; intros (l & r & Hl & Hr & ->); exists r, l; by rewrite N.lor_comm.
Qed.

Lemma combine_assoc (a b c : ruleMatchStateSet) :
  combine a (combine b c) = combine (combine a b) c.
Proof.
  apply contains_ext; [apply wf_set_combine..|]. intros i. rewrite !contains_combine_iff.
  setoid_rewrite contains_combine_iff. split.
  - intros (l & r & Hl & (m & n & Hm & Hn & ->) & ->).
    exists (N.lor l m), n. rewrite N.lor_assoc. eauto 10.
  - intros (l & r & (m & n & Hm & Hn & ->) & Hr & ->).
    exists m, (N.lor n r). rewrite N.lor_assoc. eauto 10.
Qed.

Lemma combine_unit (a : ruleMatchStateSet) : wf_set a -> combine emptyRuleMatchState a = a.
Proof.
  intros Ha. apply contains_ext; [apply wf_set_combine|done|]. intros i.
  rewrite contains_combine_iff. split.
  - intros (l & r & Hl & Hr & ->). unfold emptyRuleMatchState in Hl.
    rewrite contains_single, N.eqb_eq in Hl by done. by subst l.
  - intros H. exists 0, i. unfold emptyRuleMatchState. by rewrite contains_single.
Qed.

Lemma combine_merge_distr (a b c : ruleMatchStateSet) :
  wf_set a -> wf_set b -> wf_set c ->
  combine a (merge b c) = merge (combine a b) (combine a c).
Proof.
  intros Ha Hb Hc. apply contains_ext; [apply wf_set_combine | |].
  { apply wf_set_merge; apply wf_set_combine. }
  intros i. rewrite contains_merge, orb_true_iff, !contains_combine_iff.
  setoid_rewrite contains_merge. setoid_rewrite orb_true_iff. split.
  - intros (l & r & Hl & [Hr|Hr] & ->); [left|right]; eauto.
  - intros [(l & r & Hl & Hr & ->)|(l & r & Hl & Hr & ->)]; eauto 10.
Qed.

Lemma combine_isEmpty (a b : ruleMatchStateSet) :
  wf_set a -> wf_set b -> isEmpty (combine a b) = isEmpty a || isEmpty b.
Proof.
  intros Ha Hb. destruct (isEmpty a) eqn:Ea; [|destruct (isEmpty b) eqn:Eb]; simpl.
  - unfold combine. by rewrite Ea.
  - unfold combine. by rewrite Ea, Eb.
  - apply nonempty_iff in Ea as [l Hl]; [|done]. apply nonempty_iff in Eb as [r Hr]; [|done].
    apply nonempty_iff; [apply wf_set_combine|]. exists (N.lor l r).
    apply contains_combine_iff. eauto.
Qed.

Lemma merge_isEmpty (a b : ruleMatchStateSet) : isEmpty (merge a b) = isEmpty a && isEmpty b.
Proof.
  unfold isEmpty, merge. apply eq_iff_eq_true.
  by rewrite andb_true_iff, !N.eqb_eq, N.lor_eq_0_iff.
Qed.

Lemma withBase_combine (s : ruleMatchStateSet) (base : ruleMatchState) :
  wf_state base -> withBase s base = combine s (singleRuleMatchState base).
Proof.
  intros Hb. apply contains_ext; [apply wf_set_withBase|apply wf_set_combine|]. intros i.
  rewrite contains_withBase_iff, contains_combine_iff by done. split.
  - intros (st & Hst & ->). exists st, base. rewrite contains_single, N.eqb_eq by done. done.
  - intros (l & r & Hl & Hr & ->). rewrite contains_single, N.eqb_eq in Hr by done. subst r. eauto.
Qed.

Lemma withBase_single (st base : ruleMatchState) :
  wf_state st -> wf_state base ->
  withBase (singleRuleMatchState st) base = singleRuleMatchState (N.lor st base).
Proof.
  intros Hs Hb. apply contains_ext; [apply wf_set_withBase|apply wf_set_single|]. intros i.
  rewrite contains_withBase_iff by done. rewrite contains_single by by apply wf_state_lor.
  rewrite N.eqb_eq. split.
  - intros (x & Hx & ->). rewrite contains_single, N.eqb_eq in Hx by done. by subst x.
  - intros <-. exists st. by rewrite contains_single, N.eqb_refl.
Qed.

Lemma withBase_empty (base : ruleMatchState) :
  wf_state base -> withBase emptyRuleMatchState base = singleRuleMatchState base.
Proof. intros Hb. unfold emptyRuleMatchState. by rewrite withBase_single, N.lor_0_l. Qed.

Lemma single_not_empty (st : ruleMatchState) :
  wf_state st -> isEmpty (singleRuleMatchState st) = false.
Proof. intros H. eapply contains_isEmpty. by rewrite contains_single, N.eqb_refl. Qed.

Lemma has_lor (a b t : ruleMatchState) : has (N.lor a b) t = has a t || has b t.
Proof.
  unfold has. rewrite N.land_lor_distr_l, <- negb_andb. f_equal.
  apply eq_iff_eq_true. by rewrite andb_true_iff, !N.eqb_eq, N.lor_eq_0_iff.
Qed.

#[export] Hint Resolve wf_set_0 wf_set_single wf_set_merge wf_set_add wf_set_filter
  wf_set_withBase wf_set_combine wf_state_lor : kernel.

#[global] Arguments combine : simpl never.
#[global] Arguments withBase : simpl never.
#[global] Arguments filter : simpl never.
#[global] Arguments contains : simpl never.
#[global] Arguments singleRuleMatchState : simpl never.
#[global] Arguments emptyRuleMatchState : simpl never.
#[global] Arguments isEmpty : simpl never.
#[global] Arguments merge : simpl never.

End MatchState.

Export (hints) MatchState.
