(* ===== verification/RuleItems.v ===== *)
(** * Rule items (src/route/rule/rule_item_*.go, rule_*interface_address.go)

    One constructor of [RuleItem] per item type of the source, with the fields
    of its struct; [New...] builds it from the configuration, [Match] evaluates
    it on the connection's metadata, [Start] resolves what the item looks up
    when the router starts, [String] is its log text.  A Go [map[K]bool] that
    only ever holds [true] is a [gset]. *)

From S2P Require Import Prelude GoStd Metadata.
Import netip.

Open Scope N_scope.

Module RuleItems.
Section Items.
Context `{E : Externals}.

(** [option.DNSRecordOptions]: a record, absent in the zero value. *)
Definition DNSRecordOptions : Type := option RR.

Record rangeItem : Type := mkRange { start : N; end_ : N }.

Inductive RuleItem : Type :=
| InboundItem (inbounds : list string) (inboundMap : gset string)
| IPVersionItem (isIPv6 : bool)
| NetworkItem (networks : list string) (networkMap : gset string)
| AuthUserItem (users : list string) (userMap : gset string)
| ProtocolItem (protocols : list string) (protocolMap : gset string)
| ClientItem (clients : list string) (clientMap : gset string)
| DomainItem (matcher : Matcher) (description : string)
| DomainKeywordItem (keywords : list string)
| DomainRegexItem (matchers : list Regexp) (description : string)
| AdGuardDomainItem (matcher : AdGuardMatcher)
| IPCIDRItem (ipSet : IPSet) (isSource : bool) (description : string)
| IPIsPrivateItem (isSource : bool)
| IPAcceptAnyItem
| PortItem (ports : list N) (portMap : gset N) (isSource : bool)
| PortRangeItem (isSource : bool) (portRanges : list string) (portRangeList : list rangeItem)
| ProcessItem (processes : list string) (processMap : gset string)
| ProcessPathItem (processes : list string) (processMap : gset string)
| ProcessPathRegexItem (matchers : list Regexp) (description : string)
| PackageNameItem (packageNames : list string) (packageMap : gset string)
| PackageNameRegexItem (matchers : list Regexp) (description : string)
| UserItem (users : list string) (userMap : gset string)
| UserIdItem (userIds : list Z) (userIdMap : gset Z)
| ClashModeItem (clashServer : bool) (mode : string)
| NetworkTypeItem (networkType : list InterfaceType)
| NetworkIsExpensiveItem
| NetworkIsConstrainedItem
| WIFISSIDItem (ssidList : list string) (ssidMap : gset string)
| WIFIBSSIDItem (bssidList : list string) (bssidMap : gset string)
| InterfaceAddressItem (interfaceAddresses : gmap string (list Prefix)) (description : string)
| NetworkInterfaceAddressItem (interfaceAddresses : gmap InterfaceType (list Prefix))
    (description : string)
| DefaultInterfaceAddressItem (interfaceAddresses : list Prefix)
| SourceMACAddressItem (addresses : list string) (addressMap : gset string)
| SourceHostnameItem (hostnames : list string) (hostnameMap : gset string)
| PreferredByItem (outboundTags : list string) (outbounds : list string)
| PreferredByDNSItem (transportTags : list string) (transports : list string)
| QueryTypeItem (typeList : list N) (typeMap : gset N)
| OutboundItem (outbounds : list string) (outboundMap : gset string) (matchAny : bool)
| DNSResponseRCodeItem (rcode : Z)
| DNSResponseRecordItem (field : string) (records : list DNSRecordOptions)
    (selector : Msg -> list RR).

(** ** Constructors *)

Definition NewInboundRule (inbounds : list string) : RuleItem :=
  InboundItem inbounds (list_to_set inbounds).
Definition NewIPVersionItem (isIPv6 : bool) : RuleItem := IPVersionItem isIPv6.
Definition NewNetworkItem (networks : list string) : RuleItem :=
  NetworkItem networks (list_to_set networks).
Definition NewAuthUserItem (users : list string) : RuleItem :=
  AuthUserItem users (list_to_set users).
Definition NewProtocolItem (protocols : list string) : RuleItem :=
  ProtocolItem protocols (list_to_set protocols).
Definition NewClientItem (clients : list string) : RuleItem :=
  ClientItem clients (list_to_set clients).

(** [name=x], [name=\[x y z...\]] past three entries, [name=\[x y\]] otherwise *)
Definition describe3 (name : string) (l : list string) : string :=
  match l with
  | [x] => name +:+ x
  | _ => if (3 <? length l)%nat
         then name +:+ "[" +:+ strings.Join (take 3 l) " " +:+ "...]"
         else name +:+ "[" +:+ strings.Join l " " +:+ "]"
  end.

Definition NewDomainItem (domains domainSuffixes : list string) : result RuleItem :=
  if existsb (fun d => bool_decide (d = "")) domains
  then Err (E_New ["domain: empty item is not allowed"])
  else if existsb (fun d => bool_decide (d = "")) domainSuffixes
  then Err (E_New ["domain_suffix: empty item is not allowed"])
  else
    let description := if (0 <? length domains)%nat then describe3 "domain=" domains else "" in
    let description :=
      if (0 <? length domainSuffixes)%nat
      then (if (0 <? String.length description)%nat then description +:+ " " else description)
           +:+ describe3 "domain_suffix=" domainSuffixes
      else description in
    Ok (DomainItem (domain_NewMatcher domains domainSuffixes false) description).
Definition NewRawDomainItem (matcher : Matcher) : RuleItem :=
  DomainItem matcher "domain/domain_suffix=<binary>".
Definition NewDomainKeywordItem (keywords : list string) : RuleItem := DomainKeywordItem keywords.

(** The loop that compiles a list of expressions, shared by the three regular
    expression items; the first that fails is reported with its index. *)
Fixpoint compile_all (i : nat) (expressions : list string) : result (list Regexp) :=
  match expressions with
  | [] => Ok []
  | regex :: expressions =>
      match regexp_Compile regex with
      | None => Err (E_Cause (ErrExternal "regexp") ["parse expression "; pretty i])
      | Some matcher => matchers ← compile_all (S i) expressions; Ok (matcher :: matchers)
      end
  end.
(** The description the three share: past three entries the rest is dropped
    without an ellipsis. *)
Definition describe_regex (name : string) (l : list string) : string :=
  match l with
  | [x] => name +:+ x
  | _ => if (3 <? length l)%nat
         then name +:+ F_ToString ["["; strings.Join (take 3 l) " "; "]"]
         else name +:+ F_ToString ["["; strings.Join l " "; "]"]
  end.
Definition NewDomainRegexItem (expressions : list string) : result RuleItem :=
  matchers ← compile_all 0 expressions;
  Ok (DomainRegexItem matchers (describe_regex "domain_regex=" expressions)).
Definition NewProcessPathRegexItem (expressions : list string) : result RuleItem :=
  matchers ← compile_all 0 expressions;
  Ok (ProcessPathRegexItem matchers (describe_regex "process_path_regex=" expressions)).
Definition NewPackageNameRegexItem (expressions : list string) : result RuleItem :=
  matchers ← compile_all 0 expressions;
  Ok (PackageNameRegexItem matchers (describe_regex "package_name_regex=" expressions)).

Definition NewAdGuardDomainItem (ruleLines : list string) : RuleItem :=
  AdGuardDomainItem (domain_NewAdGuardMatcher ruleLines).
Definition NewRawAdGuardDomainItem (matcher : AdGuardMatcher) : RuleItem :=
  AdGuardDomainItem matcher.

(** The loop that feeds the set builder: a prefix, else an address, else the
    prefix error with the index of the entry. *)
Fixpoint parse_prefixes (i : nat) (l : list string) : result (list (Prefix + Addr)) :=
  match l with
  | [] => Ok []
  | s :: l =>
      match netip_ParsePrefix s with
      | Ok prefix => rest ← parse_prefixes (S i) l; Ok (inl prefix :: rest)
      | Err e =>
          match netip_ParseAddr s with
          | Ok addr => rest ← parse_prefixes (S i) l; Ok (inr addr :: rest)
          | _ => Err (E_Cause e ["parse ["; pretty i; "]"])
          end
      | Panic msg => Panic msg
      end
  end.
Definition NewIPCIDRItem (isSource : bool) (prefixStrings : list string) : result RuleItem :=
  entries ← parse_prefixes 0 prefixStrings;
  let description := describe3 (if isSource then "source_ip_cidr=" else "ip_cidr=") prefixStrings in
  ipSet ← IPSetBuilder_IPSet entries;
  Ok (IPCIDRItem ipSet isSource description).
Definition NewRawIPCIDRItem (isSource : bool) (ipSet : IPSet) : RuleItem :=
  IPCIDRItem ipSet isSource
    ((if isSource then "source_ip_cidr=" else "ip_cidr=") +:+ "<binary>").
Definition NewIPIsPrivateItem (isSource : bool) : RuleItem := IPIsPrivateItem isSource.
Definition NewIPAcceptAnyItem : RuleItem := IPAcceptAnyItem.

Definition NewPortItem (isSource : bool) (ports : list N) : RuleItem :=
  PortItem ports (list_to_set ports) isSource.

Definition ErrBadPortRange : error := E_New ["bad port range"].

(** One entry of [NewPortRangeItem]: ["start:end"], either side may be empty. *)
Definition parse_port_range (portRange : string) : result rangeItem :=
  match strings.Index portRange ":" with
  | None => Err (E_Extend ErrBadPortRange portRange)
  | Some subIndex =>
      let bad e := E_Cause e ["bad port range"; portRange] in
      start ← (if (0 <? subIndex)%nat
               then map_err bad (strconv.ParseUint (strings.take_str subIndex portRange) 16)
               else Ok 0);
      end_ ← (if (subIndex =? String.length portRange - 1)%nat
              then Ok 65535
              else map_err bad (strconv.ParseUint (strings.drop_str (S subIndex) portRange) 16));
      Ok (mkRange start end_)
  end.
Fixpoint parse_port_ranges (rangeList : list string) : result (list rangeItem) :=
  match rangeList with
  | [] => Ok []
  | portRange :: rangeList =>
      r ← parse_port_range portRange; rs ← parse_port_ranges rangeList; Ok (r :: rs)
  end.
Definition NewPortRangeItem (isSource : bool) (rangeList : list string) : result RuleItem :=
  portRangeList ← parse_port_ranges rangeList;
  Ok (PortRangeItem isSource rangeList portRangeList).

Definition NewProcessItem (l : list string) : RuleItem := ProcessItem l (list_to_set l).
Definition NewProcessPathItem (l : list string) : RuleItem := ProcessPathItem l (list_to_set l).
Definition NewPackageNameItem (l : list string) : RuleItem := PackageNameItem l (list_to_set l).
Definition NewUserItem (users : list string) : RuleItem := UserItem users (list_to_set users).
Definition NewUserIDItem (l : list Z) : RuleItem := UserIdItem l (list_to_set l).
Definition NewClashModeItem (mode : string) : RuleItem := ClashModeItem false mode.
Definition NewNetworkTypeItem (networkType : list InterfaceType) : RuleItem :=
  NetworkTypeItem networkType.
Definition NewNetworkIsExpensiveItem : RuleItem := NetworkIsExpensiveItem.
Definition NewNetworkIsConstrainedItem : RuleItem := NetworkIsConstrainedItem.
Definition NewWIFISSIDItem (ssidList : list string) : RuleItem :=
  WIFISSIDItem ssidList (list_to_set ssidList).
Definition NewWIFIBSSIDItem (bssidList : list string) : RuleItem :=
  WIFIBSSIDItem bssidList (list_to_set (map NormalizeWIFIBSSID bssidList)).

Definition build_prefixes (l : list (option Prefix)) : list Prefix :=
  map (fun prefixable => Prefixable_Build prefixable PrefixZero) l.
Definition describe_addresses (entries : list (string * list Prefix)) : string :=
  strings.Join
    (map (fun '(k, v) => k +:+ "=" +:+ strings.Join (map Prefix_String v) ",") entries) " ".
(** The entries are those of the ordered JSON object; a later entry replaces an
    earlier one with the same key. *)
Definition NewInterfaceAddressItem (interfaceAddresses : list (string * list (option Prefix)))
  : RuleItem :=
  let entries := map (fun '(k, v) => (k, build_prefixes v)) interfaceAddresses in
  InterfaceAddressItem
    (fold_left (fun m '(k, v) => <[k := v]> m) entries ∅)
    ("interface_address=[" +:+ describe_addresses entries +:+ "]").
Definition InterfaceType_String (t : InterfaceType) : string :=
  if t =? InterfaceTypeWIFI then "wifi"
  else if t =? InterfaceTypeCellular then "cellular"
  else if t =? InterfaceTypeEthernet then "ethernet"
  else if t =? InterfaceTypeOther then "other"
  else F_int (Z.of_N t).
Definition NewNetworkInterfaceAddressItem
    (interfaceAddresses : list (InterfaceType * list (option Prefix))) : RuleItem :=
  let entries := map (fun '(k, v) => (k, build_prefixes v)) interfaceAddresses in
  NetworkInterfaceAddressItem
    (fold_left (fun m '(k, v) => <[k := v]> m) entries ∅)
    ("network_interface_address=["
     +:+ describe_addresses (map (fun '(k, v) => (InterfaceType_String k, v)) entries) +:+ "]").
Definition NewDefaultInterfaceAddressItem (interfaceAddresses : list (option Prefix)) : RuleItem :=
  DefaultInterfaceAddressItem (build_prefixes interfaceAddresses).

(** Each address is kept in the canonical text of its parsed form. *)
Definition normalize_mac (address : string) : string :=
  match net.ParseMAC address with
  | Some parsed => net.mac_String parsed
  | None => address
  end.
Definition NewSourceMACAddressItem (addressList : list string) : RuleItem :=
  SourceMACAddressItem addressList (list_to_set (map normalize_mac addressList)).
Definition NewSourceHostnameItem (l : list string) : RuleItem :=
  SourceHostnameItem l (list_to_set l).
Definition NewPreferredByItem (outboundTags : list string) : RuleItem :=
  PreferredByItem outboundTags [].
Definition NewPreferredByDNSItem (transportTags : list string) : RuleItem :=
  PreferredByDNSItem transportTags [].
Definition NewQueryTypeItem (typeList : list N) : RuleItem :=
  QueryTypeItem typeList (list_to_set typeList).
Definition NewOutboundRule (outbounds : list string) : RuleItem :=
  OutboundItem outbounds
    (list_to_set (List.filter (fun o => negb (bool_decide (o = "any"))) outbounds))
    (existsb (fun o => bool_decide (o = "any")) outbounds).
Definition NewDNSResponseRCodeItem (rcode : Z) : RuleItem := DNSResponseRCodeItem rcode.
Definition NewDNSResponseRecordItem (field : string) (records : list DNSRecordOptions)
    (selector : Msg -> list RR) : RuleItem :=
  DNSResponseRecordItem field records selector.
Definition dnsResponseAnswers (message : Msg) : list RR := Answer message.
Definition dnsResponseNS (message : Msg) : list RR := Ns message.
Definition dnsResponseExtra (message : Msg) : list RR := Extra message.

(** ** Match *)

(** The sniffed domain if there is one, else the destination's. *)
Definition domainHost (metadata : InboundContext) : string :=
  if negb (bool_decide (Domain metadata = "")) then Domain metadata
  else Fqdn (Destination metadata).
Definition lowerHost (metadata : InboundContext) : string :=
  strings.ToLower unicode_tables (domainHost metadata).

Definition in_map {K} `{Countable K} (m : gset K) (k : K) : bool := bool_decide (k ∈ m).

Definition IPCIDRItem_Match (ipSet : IPSet) (isSource : bool) (metadata : InboundContext) : bool :=
  if isSource || IPCIDRMatchSource metadata then IPSet_Contains ipSet (Addr_ (Source metadata))
  else if DestinationAddressMatchFromResponse metadata then
    let addresses := DNSResponseAddressesForMatch metadata in
    if (length addresses =? 0)%nat then IPCIDRAcceptEmpty metadata
    else existsb (IPSet_Contains ipSet) addresses
  else if Socksaddr_IsIP (Destination metadata)
  then IPSet_Contains ipSet (Addr_ (Destination metadata))
  else if (0 <? length (DestinationAddresses metadata))%nat
  then existsb (IPSet_Contains ipSet) (DestinationAddresses metadata)
  else IPCIDRAcceptEmpty metadata.

Definition IPIsPrivateItem_Match (isSource : bool) (metadata : InboundContext) : bool :=
  let private a := negb (N_IsPublicAddr a) in
  if isSource then private (Addr_ (Source metadata))
  else if DestinationAddressMatchFromResponse metadata
  then existsb private (DNSResponseAddressesForMatch metadata)
  else if IsValid (Addr_ (Destination metadata)) then private (Addr_ (Destination metadata))
  else existsb private (DestinationAddresses metadata).

Definition IPAcceptAnyItem_Match (metadata : InboundContext) : bool :=
  if DestinationAddressMatchFromResponse metadata
  then (0 <? length (DNSResponseAddressesForMatch metadata))%nat
  else (0 <? length (DestinationAddresses metadata))%nat.

Definition IPVersionItem_Match (isIPv6 : bool) (metadata : InboundContext) : bool :=
  negb (IPVersion metadata =? 0) && Bool.eqb (IPVersion metadata =? 6) isIPv6
  || Socksaddr_IsIP (Destination metadata)
     && Bool.eqb (Socksaddr_IsIPv6 (Destination metadata)) isIPv6.

Definition DomainItem_Match (matcher : Matcher) (metadata : InboundContext) : bool :=
  if bool_decide (domainHost metadata = "") then false
  else Matcher_Match matcher (lowerHost metadata).
Definition AdGuardDomainItem_Match (matcher : AdGuardMatcher) (metadata : InboundContext) : bool :=
  if bool_decide (domainHost metadata = "") then false
  else AdGuardMatcher_Match matcher (lowerHost metadata).
Definition DomainKeywordItem_Match (keywords : list string) (metadata : InboundContext) : bool :=
  if bool_decide (domainHost metadata = "") then false
  else existsb (fun keyword => strings.Contains (lowerHost metadata) keyword) keywords.
Definition DomainRegexItem_Match (matchers : list Regexp) (metadata : InboundContext) : bool :=
  if bool_decide (domainHost metadata = "") then false
  else existsb (fun matcher => Regexp_MatchString matcher (lowerHost metadata)) matchers.

Definition PortItem_Match (portMap : gset N) (isSource : bool) (metadata : InboundContext) : bool :=
  if isSource then in_map portMap (Port (Source metadata))
  else in_map portMap (Port (Destination metadata)).
Definition PortRangeItem_Match (isSource : bool) (l : list rangeItem) (metadata : InboundContext) : bool :=
  let port := if isSource then Port (Source metadata) else Port (Destination metadata) in
  existsb (fun r => (start r <=? port) && (port <=? end_ r)) l.

Definition ProcessItem_Match (processMap : gset string) (metadata : InboundContext) : bool :=
  match ProcessInfo metadata with
  | None => false
  | Some info =>
      if bool_decide (ProcessPath info = "") then false
      else in_map processMap (filepath.Base (ProcessPath info))
  end.
Definition ProcessPathItem_Match (net : Network) (processMap : gset string)
    (metadata : InboundContext) : bool :=
  match ProcessInfo metadata with
  | None => false
  | Some info =>
      if negb (bool_decide (ProcessPath info = "")) && in_map processMap (ProcessPath info)
      then true
      else IsAndroid net && existsb (in_map processMap) (AndroidPackageNames info)
  end.
Definition ProcessPathRegexItem_Match (matchers : list Regexp) (metadata : InboundContext) : bool :=
  match ProcessInfo metadata with
  | None => false
  | Some info =>
      if bool_decide (ProcessPath info = "") then false
      else existsb (fun matcher => Regexp_MatchString matcher (ProcessPath info)) matchers
  end.
Definition PackageNameItem_Match (packageMap : gset string) (metadata : InboundContext) : bool :=
  match ProcessInfo metadata with
  | None => false
  | Some info => existsb (in_map packageMap) (AndroidPackageNames info)
  end.
Definition PackageNameRegexItem_Match (matchers : list Regexp) (metadata : InboundContext) : bool :=
  match ProcessInfo metadata with
  | None => false
  | Some info =>
      existsb (fun matcher => existsb (Regexp_MatchString matcher) (AndroidPackageNames info)) matchers
  end.
Definition UserItem_Match (userMap : gset string) (metadata : InboundContext) : bool :=
  match ProcessInfo metadata with
  | None => false
  | Some info =>
      if bool_decide (UserName info = "") then false else in_map userMap (UserName info)
  end.
Definition UserIdItem_Match (userIdMap : gset Z) (metadata : InboundContext) : bool :=
  match ProcessInfo metadata with
  | None => false
  | Some info => if (UserId info =? -1)%Z then false else in_map userIdMap (UserId info)
  end.
Definition ClashModeItem_Match (net : Network) (clashServer : bool) (mode : string) : bool :=
  match clashMode net with
  | Some current => clashServer && strings.EqualFold unicode_tables current mode
  | None => false
  end.

(** [common.All(l, func(it) { return !address.Overlaps(it) })] *)
Definition overlaps_none (address : Prefix) (l : list Prefix) : bool :=
  forallb (fun it => negb (Overlaps address it)) l.
Definition InterfaceAddressItem_Match (net : Network)
    (interfaceAddresses : gmap string (list Prefix)) : bool :=
  forallb
    (fun '(ifName, addresses) =>
       match List.find (fun it => bool_decide (it.1 = ifName)) (InterfaceFinder_Interfaces net) with
       | None => false
       | Some iface =>
           if bool_decide (iface.1 = "") then false
           else negb (forallb (fun address => overlaps_none address iface.2) addresses)
       end)
    (map_to_list interfaceAddresses).
Definition NetworkInterfaceAddressItem_Match (net : Network)
    (interfaceAddresses : gmap InterfaceType (list Prefix)) : bool :=
  forallb
    (fun '(ifType, addresses) =>
       existsb
         (fun networkInterface =>
            negb (bool_decide (if_Name networkInterface = MyInterface net))
            && (if_Type networkInterface =? ifType)
            && existsb (fun it => existsb (fun prefix => Overlaps prefix it) addresses)
                 (if_Addresses networkInterface))
         (NetworkInterfaces net))
    (map_to_list interfaceAddresses).
Definition DefaultInterfaceAddressItem_Match (net : Network) (interfaceAddresses : list Prefix) : bool :=
  match DefaultInterface_Addresses net with
  | None => false
  | Some addresses =>
      forallb (fun address => negb (overlaps_none address addresses)) interfaceAddresses
  end.

Definition PreferredByItem_Match (net : Network) (outbounds : list string)
    (metadata : InboundContext) : bool :=
  let host := domainHost metadata in
  if negb (bool_decide (host = "")) && existsb (fun o => PreferredDomain net o host) outbounds
  then true
  else if Socksaddr_IsIP (Destination metadata)
          && existsb (fun o => PreferredAddress net o (Addr_ (Destination metadata))) outbounds
  then true
  else existsb (fun address => existsb (fun o => PreferredAddress net o address) outbounds)
         (DestinationAddresses metadata).
Definition PreferredByDNSItem_Match (net : Network) (transports : list string)
    (metadata : InboundContext) : bool :=
  if bool_decide (domainHost metadata = "") then false
  else existsb (fun t => TransportPreferredDomain net t (dns_CanonicalName (domainHost metadata)))
         transports.

(** [DNSRecordOptions.Match] *)
Definition DNSRecordOptions_Match (o : DNSRecordOptions) (record : RR) : bool :=
  match o with None => false | Some rr => dns_IsDuplicate rr record end.
Definition DNSResponseRecordItem_Match (records : list DNSRecordOptions)
    (selector : Msg -> list RR) (metadata : InboundContext) : bool :=
  match DNSResponse metadata with
  | None => false
  | Some msg =>
      existsb (fun expected => existsb (DNSRecordOptions_Match expected) (selector msg)) records
  end.

Definition InboundItem_Match (m : gset string) (metadata : InboundContext) : bool :=
  in_map m (Inbound metadata).
Definition NetworkItem_Match (m : gset string) (metadata : InboundContext) : bool :=
  in_map m (Network_ metadata).
Definition AuthUserItem_Match (m : gset string) (metadata : InboundContext) : bool :=
  in_map m (User metadata).
Definition ProtocolItem_Match (m : gset string) (metadata : InboundContext) : bool :=
  in_map m (Protocol metadata).
Definition ClientItem_Match (m : gset string) (metadata : InboundContext) : bool :=
  in_map m (Client metadata).
Definition NetworkTypeItem_Match (net : Network) (l : list InterfaceType) : bool :=
  match DefaultNetworkInterface net with
  | None => false
  | Some networkInterface => existsb (N.eqb (if_Type networkInterface)) l
  end.
Definition NetworkIsExpensiveItem_Match (net : Network) : bool :=
  match DefaultNetworkInterface net with
  | None => false
  | Some networkInterface => if_Expensive networkInterface
  end.
Definition NetworkIsConstrainedItem_Match (net : Network) : bool :=
  match DefaultNetworkInterface net with
  | None => false
  | Some networkInterface => if_Constrained networkInterface
  end.
Definition WIFISSIDItem_Match (net : Network) (m : gset string) : bool := in_map m (SSID (WIFI net)).
Definition WIFIBSSIDItem_Match (net : Network) (m : gset string) : bool :=
  in_map m (BSSID (WIFI net)).
Definition SourceMACAddressItem_Match (m : gset string) (metadata : InboundContext) : bool :=
  match SourceMACAddress metadata with
  | None => false
  | Some mac => in_map m (net.mac_String mac)
  end.
Definition SourceHostnameItem_Match (m : gset string) (metadata : InboundContext) : bool :=
  if bool_decide (SourceHostname metadata = "") then false
  else in_map m (SourceHostname metadata).
Definition QueryTypeItem_Match (m : gset N) (metadata : InboundContext) : bool :=
  if QueryType metadata =? 0 then false else in_map m (QueryType metadata).
Definition OutboundItem_Match (m : gset string) (matchAny : bool) (metadata : InboundContext) : bool :=
  if matchAny then negb (bool_decide (Outbound metadata = "")) else in_map m (Outbound metadata).
Definition DNSResponseRCodeItem_Match (rcode : Z) (metadata : InboundContext) : bool :=
  match DNSResponse metadata with
  | None => false
  | Some msg => (Rcode msg =? rcode)%Z
  end.

(** [RuleItem.Match]: dispatch on the dynamic type of the item. *)
Definition item_Match (net : Network) (item : RuleItem) (metadata : InboundContext) : bool :=
  match item with
  | InboundItem _ m => InboundItem_Match m metadata
  | IPVersionItem isIPv6 => IPVersionItem_Match isIPv6 metadata
  | NetworkItem _ m => NetworkItem_Match m metadata
  | AuthUserItem _ m => AuthUserItem_Match m metadata
  | ProtocolItem _ m => ProtocolItem_Match m metadata
  | ClientItem _ m => ClientItem_Match m metadata
  | DomainItem matcher _ => DomainItem_Match matcher metadata
  | DomainKeywordItem keywords => DomainKeywordItem_Match keywords metadata
  | DomainRegexItem matchers _ => DomainRegexItem_Match matchers metadata
  | AdGuardDomainItem matcher => AdGuardDomainItem_Match matcher metadata
  | IPCIDRItem ipSet isSource _ => IPCIDRItem_Match ipSet isSource metadata
  | IPIsPrivateItem isSource => IPIsPrivateItem_Match isSource metadata
  | IPAcceptAnyItem => IPAcceptAnyItem_Match metadata
  | PortItem _ m isSource => PortItem_Match m isSource metadata
  | PortRangeItem isSource _ l => PortRangeItem_Match isSource l metadata
  | ProcessItem _ m => ProcessItem_Match m metadata
  | ProcessPathItem _ m => ProcessPathItem_Match net m metadata
  | ProcessPathRegexItem matchers _ => ProcessPathRegexItem_Match matchers metadata
  | PackageNameItem _ m => PackageNameItem_Match m metadata
  | PackageNameRegexItem matchers _ => PackageNameRegexItem_Match matchers metadata
  | UserItem _ m => UserItem_Match m metadata
  | UserIdItem _ m => UserIdItem_Match m metadata
  | ClashModeItem clashServer mode => ClashModeItem_Match net clashServer mode
  | NetworkTypeItem l => NetworkTypeItem_Match net l
  | NetworkIsExpensiveItem => NetworkIsExpensiveItem_Match net
  | NetworkIsConstrainedItem => NetworkIsConstrainedItem_Match net
  | WIFISSIDItem _ m => WIFISSIDItem_Match net m
  | WIFIBSSIDItem _ m => WIFIBSSIDItem_Match net m
  | InterfaceAddressItem m _ => InterfaceAddressItem_Match net m
  | NetworkInterfaceAddressItem m _ => NetworkInterfaceAddressItem_Match net m
  | DefaultInterfaceAddressItem l => DefaultInterfaceAddressItem_Match net l
  | SourceMACAddressItem _ m => SourceMACAddressItem_Match m metadata
  | SourceHostnameItem _ m => SourceHostnameItem_Match m metadata
  | PreferredByItem _ outbounds => PreferredByItem_Match net outbounds metadata
  | PreferredByDNSItem _ transports => PreferredByDNSItem_Match net transports metadata
  | QueryTypeItem _ m => QueryTypeItem_Match m metadata
  | OutboundItem _ m matchAny => OutboundItem_Match m matchAny metadata
  | DNSResponseRCodeItem rcode => DNSResponseRCodeItem_Match rcode metadata
  | DNSResponseRecordItem _ records selector => DNSResponseRecordItem_Match records selector metadata
  end.

(** ** Start *)

(** What the context holds when the router starts: the Clash API server, the
    outbounds with their type and whether they have preferred routes, the DNS
    transports likewise. *)
Record Services : Type := mkServices {
  svc_clashServer : bool;
  svc_Outbound : string -> option (string * bool);
  svc_Transport : string -> option (string * bool);
}.

Fixpoint PreferredByItem_Start (svc : Services) (outboundTags outbounds : list string)
  : list string * option error :=
  match outboundTags with
  | [] => (outbounds, None)
  | tag :: outboundTags =>
      match svc_Outbound svc tag with
      | None => (outbounds, Some (E_New ["outbound not found: "; tag]))
      | Some (type_, withRoutes) =>
          if negb withRoutes
          then (outbounds, Some (E_New ["outbound type does not support preferred routes: "; type_]))
          else PreferredByItem_Start svc outboundTags (outbounds ++ [tag])
      end
  end.
Fixpoint PreferredByDNSItem_Start (svc : Services) (transportTags transports : list string)
  : list string * option error :=
  match transportTags with
  | [] => (transports, None)
  | tag :: transportTags =>
      match svc_Transport svc tag with
      | None => (transports, Some (E_New ["DNS server not found: "; tag]))
      | Some (type_, withPreferredDomain) =>
          if negb withPreferredDomain
          then (transports, Some (E_New ["DNS server type does not support preferred_by: "; type_]))
          else PreferredByDNSItem_Start svc transportTags (transports ++ [tag])
      end
  end.

(** The item after [Start], and the error it returns; items without a [Start]
    method are unchanged. *)
Definition item_Start (svc : Services) (item : RuleItem) : RuleItem * option error :=
  match item with
  | ClashModeItem _ mode => (ClashModeItem (svc_clashServer svc) mode, None)
  | PreferredByItem tags outbounds =>
      let '(outbounds, err) := PreferredByItem_Start svc tags outbounds in
      (PreferredByItem tags outbounds, err)
  | PreferredByDNSItem tags transports =>
      let '(transports, err) := PreferredByDNSItem_Start svc tags transports in
      (PreferredByDNSItem tags transports, err)
  | item => (item, None)
  end.

(** ** String *)

(** [F.ToString(name=x)] of one entry, [F.ToString(name=\[x y\])] otherwise. *)
Definition describe_F (name : string) (l : list string) : string :=
  match l with
  | [x] => F_ToString [name +:+ "="; x]
  | _ => F_ToString [name +:+ "=["; strings.Join l " "; "]"]
  end.
(** The same with plain concatenation. *)
Definition describe_list (name : string) (l : list string) : string :=
  match l with
  | [x] => name +:+ x
  | _ => name +:+ "[" +:+ strings.Join l " " +:+ "]"
  end.
Definition AuthUserItem_String (users : list string) : string := describe_F "auth_user" users.
Definition ClientItem_String (clients : list string) : string := describe_F "client" clients.
Definition InboundItem_String (inbounds : list string) : string := describe_F "inbound" inbounds.
Definition OutboundItem_String (outbounds : list string) : string := describe_F "outbound" outbounds.
Definition ProtocolItem_String (protocols : list string) : string := describe_F "protocol" protocols.
Definition UserItem_String (users : list string) : string := describe_F "user" users.
Definition WIFIBSSIDItem_String (bssidList : list string) : string := describe_F "wifi_bssid" bssidList.
Definition WIFISSIDItem_String (ssidList : list string) : string := describe_F "wifi_ssid" ssidList.
Definition PackageNameItem_String (packageNames : list string) : string :=
  describe_list "package_name=" packageNames.
Definition ProcessItem_String (processes : list string) : string :=
  describe_list "process_name=" processes.
Definition ProcessPathItem_String (processes : list string) : string :=
  describe_list "process_path=" processes.
Definition SourceHostnameItem_String (hostnames : list string) : string :=
  describe_list "source_hostname=" hostnames.
Definition SourceMACAddressItem_String (addresses : list string) : string :=
  describe_list "source_mac_address=" addresses.
Definition RuleSetItem_String (tagList : list string) : string := describe_F "rule_set" tagList.
Definition AdGuardDomainItem_String : string := "!adguard_domain_rules=<binary>".
Definition ClashModeItem_String (mode : string) : string := "clash_mode=" +:+ mode.
Definition DomainKeywordItem_String (keywords : list string) : string :=
  describe3 "domain_keyword=" keywords.
Definition DefaultInterfaceAddressItem_String (interfaceAddresses : list Prefix) : string :=
  describe3 "default_interface_address=" (map Prefix_String interfaceAddresses).
Definition IPAcceptAnyItem_String : string := "ip_accept_any=true".
Definition IPIsPrivateItem_String (isSource : bool) : string :=
  if isSource then "source_ip_is_private=true" else "ip_is_private=true".
Definition IPVersionItem_String (isIPv6 : bool) : string :=
  "ip_version=" +:+ (if isIPv6 then "6" else "4").
Definition NetworkItem_String (networks : list string) : string :=
  describe_list "network=" (map (fun n => F_ToString [n]) networks).
Definition NetworkIsConstrainedItem_String : string := "network_is_expensive=true".
Definition NetworkIsExpensiveItem_String : string := "network_is_expensive=true".
Definition NetworkTypeItem_String (networkType : list InterfaceType) : string :=
  match networkType with
  | [x] => F_ToString ["network_type="; InterfaceType_String x]
  | _ => F_ToString ["network_type=";
           "[" +:+ strings.Join (map (fun t => F_ToString [InterfaceType_String t]) networkType) " " +:+ "]"]
  end.
Definition PortItem_String (isSource : bool) (ports : list N) : string :=
  describe_list (if isSource then "source_port=" else "port=")
    (map (fun p => F_int (Z.of_N p)) ports).
Definition PortRangeItem_String (isSource : bool) (portRanges : list string) : string :=
  describe_list (if isSource then "source_port_range=" else "port_range=") portRanges.
Definition PreferredByItem_String (outboundTags : list string) : string :=
  describe_list "preferred_by=" (map (fun n => F_ToString [n]) outboundTags).
Definition PreferredByDNSItem_String (transportTags : list string) : string :=
  describe_list "preferred_by=" (map (fun n => F_ToString [n]) transportTags).
Definition QueryTypeItem_String (typeList : list N) : string :=
  describe_list "query_type=" (map DNSQueryTypeToString typeList).
Definition DNSResponseRCodeItem_String (rcode : Z) : string :=
  F_ToString ["response_rcode="; dns_RcodeToString rcode].
Definition DNSResponseRecordItem_String (field : string) (records : list DNSRecordOptions) : string :=
  field +:+ "=[" +:+ strings.Join (map RR_String (omap id records)) " " +:+ "]".
Definition UserIdItem_String (userIds : list Z) : string :=
  describe_list "user_id=" (map F_int userIds).

Definition item_String (item : RuleItem) : string :=
  match item with
  | InboundItem inbounds _ => InboundItem_String inbounds
  | IPVersionItem isIPv6 => IPVersionItem_String isIPv6
  | NetworkItem networks _ => NetworkItem_String networks
  | AuthUserItem users _ => AuthUserItem_String users
  | ProtocolItem protocols _ => ProtocolItem_String protocols
  | ClientItem clients _ => ClientItem_String clients
  | DomainItem _ description => description
  | DomainKeywordItem keywords => DomainKeywordItem_String keywords
  | DomainRegexItem _ description => description
  | AdGuardDomainItem _ => AdGuardDomainItem_String
  | IPCIDRItem _ _ description => description
  | IPIsPrivateItem isSource => IPIsPrivateItem_String isSource
  | IPAcceptAnyItem => IPAcceptAnyItem_String
  | PortItem ports _ isSource => PortItem_String isSource ports
  | PortRangeItem isSource portRanges _ => PortRangeItem_String isSource portRanges
  | ProcessItem processes _ => ProcessItem_String processes
  | ProcessPathItem processes _ => ProcessPathItem_String processes
  | ProcessPathRegexItem _ description => description
  | PackageNameItem packageNames _ => PackageNameItem_String packageNames
  | PackageNameRegexItem _ description => description
  | UserItem users _ => UserItem_String users
  | UserIdItem userIds _ => UserIdItem_String userIds
  | ClashModeItem _ mode => ClashModeItem_String mode
  | NetworkTypeItem networkType => NetworkTypeItem_String networkType
  | NetworkIsExpensiveItem => NetworkIsExpensiveItem_String
  | NetworkIsConstrainedItem => NetworkIsConstrainedItem_String
  | WIFISSIDItem ssidList _ => WIFISSIDItem_String ssidList
  | WIFIBSSIDItem bssidList _ => WIFIBSSIDItem_String bssidList
  | InterfaceAddressItem _ description => description
  | NetworkInterfaceAddressItem _ description => description
  | DefaultInterfaceAddressItem interfaceAddresses =>
      DefaultInterfaceAddressItem_String interfaceAddresses
  | SourceMACAddressItem addresses _ => SourceMACAddressItem_String addresses
  | SourceHostnameItem hostnames _ => SourceHostnameItem_String hostnames
  | PreferredByItem outboundTags _ => PreferredByItem_String outboundTags
  | PreferredByDNSItem transportTags _ => PreferredByDNSItem_String transportTags
  | QueryTypeItem typeList _ => QueryTypeItem_String typeList
  | OutboundItem outbounds _ _ => OutboundItem_String outbounds
  | DNSResponseRCodeItem rcode => DNSResponseRCodeItem_String rcode
  | DNSResponseRecordItem field records _ => DNSResponseRecordItem_String field records
  end.

End Items.
End RuleItems.
