(* ===== verification/Rules.v ===== *)
(** * Rules (src/route/rule/rule_abstract.go, rule_default.go, rule_headless.go,
    rule_item_rule_set.go, rule_set_local.go)

    [abstractDefaultRule] groups items by the address or port they test;
    [matchStatesWithBase] computes the set of match states a rule can reach from
    the states it inherits.  [Rule] is the tree of default and logical rules.  A
    rule-set item refers to rule-sets of type [S]: headless rules have none
    ([S := Empty_set]), route and DNS rules point into the table of loaded
    rule-sets, whose matcher is an argument.  The metadata the source mutates
    through a pointer ([DidMatch]) is passed and returned. *)

From S2P Require Import Prelude GoStd Metadata MatchState RuleItems.
Import MatchState RuleItems.

Open Scope N_scope.

Module Rules.
Section Rules.
Context `{E : Externals}.
Context {A : Type}.

Definition LogicalTypeAnd : string := "and".
Definition LogicalTypeOr : string := "or".

(** ** Data *)

Record RuleSetItem (S : Type) : Type := mkRuleSetItem {
  tagList : list string;
  setList : list S;
  ipCidrMatchSource : bool;
  ipCidrAcceptEmpty : bool;
}.
Arguments tagList {S} _.
Arguments setList {S} _.
Arguments ipCidrMatchSource {S} _.
Arguments ipCidrAcceptEmpty {S} _.
Arguments mkRuleSetItem {S} _ _ _ _.

Inductive AnyItem (S : Type) : Type :=
| Plain (item : RuleItem)
| OfRuleSet (item : RuleSetItem S).
Arguments Plain {S} _.
Arguments OfRuleSet {S} _.

Record abstractDefaultRule (S : Type) : Type := mkDefault {
  items : list RuleItem;
  sourceAddressItems : list RuleItem;
  sourcePortItems : list RuleItem;
  destinationAddressItems : list RuleItem;
  destinationIPCIDRItems : list RuleItem;
  destinationPortItems : list RuleItem;
  allItems : list (AnyItem S);
  ruleSetItem : option (RuleSetItem S);
  invert : bool;
  action : option A;
}.
Arguments items {S} _.
Arguments sourceAddressItems {S} _.
Arguments sourcePortItems {S} _.
Arguments destinationAddressItems {S} _.
Arguments destinationIPCIDRItems {S} _.
Arguments destinationPortItems {S} _.
Arguments allItems {S} _.
Arguments ruleSetItem {S} _.
Arguments invert {S} _.
Arguments action {S} _.
Arguments mkDefault {S} _ _ _ _ _ _ _ _ _ _.

(** [abstractLogicalRule] with its fields, and the two kinds of rule. *)
Inductive Rule (S : Type) : Type :=
| DefaultRule (r : abstractDefaultRule S)
| LogicalRule (rules : list (Rule S)) (mode : string) (inverted : bool) (act : option A).
Arguments DefaultRule {S} _.
Arguments LogicalRule {S} _ _ _ _.

(** ** Default rules *)

Section Match.
Context {S : Type}.
(** [adapter.NetworkManager] and the other services, and the matcher of a
    rule-set. *)
Variable net : Network.
Variable ruleSet_matchStatesWithBase : S -> InboundContext -> ruleMatchState -> ruleMatchStateSet.

Definition matchAnyItem (l : list RuleItem) (metadata : InboundContext) : bool :=
  existsb (fun it => item_Match net it metadata) l.

Definition nonempty {B} (l : list B) : bool := (0 <? length l)%nat.

Definition destinationIPCIDRMatchesSource (r : abstractDefaultRule S) (metadata : InboundContext) : bool :=
  negb (IgnoreDestinationIPCIDRMatch metadata) && IPCIDRMatchSource metadata
  && nonempty (destinationIPCIDRItems r).

Definition destinationIPCIDRMatchesDestination (r : abstractDefaultRule S) (metadata : InboundContext) : bool :=
  negb (IgnoreDestinationIPCIDRMatch metadata) && negb (IPCIDRMatchSource metadata)
  && nonempty (destinationIPCIDRItems r).

Definition requiresSourceAddressMatch (r : abstractDefaultRule S) (metadata : InboundContext) : bool :=
  nonempty (sourceAddressItems r) || destinationIPCIDRMatchesSource r metadata.

Definition requiresDestinationAddressMatch (r : abstractDefaultRule S) (metadata : InboundContext) : bool :=
  nonempty (destinationAddressItems r) || destinationIPCIDRMatchesDestination r metadata.

Definition invertedFailure (r : abstractDefaultRule S) (base : ruleMatchState) : ruleMatchStateSet :=
  if invert r then withBase emptyRuleMatchState base else 0.

(** [RuleSetItem.matchStatesWithBase]: each set sees its own copy of the
    metadata. *)
Definition nestedMetadata (item : RuleSetItem S) (metadata : InboundContext) : InboundContext :=
  let nestedMetadata := ResetRuleMatchCache metadata in
  {| nestedMetadata with
     IPCIDRMatchSource := ipCidrMatchSource item;
     IPCIDRAcceptEmpty := ipCidrAcceptEmpty item |}.

Definition ruleSetItem_matchStatesWithBase (item : RuleSetItem S) (metadata : InboundContext)
    (base : ruleMatchState) : ruleMatchStateSet :=
  fold_left
    (fun stateSet ruleSet =>
       merge stateSet (ruleSet_matchStatesWithBase ruleSet (nestedMetadata item metadata) base))
    (setList item) 0.

(** One grouped condition: when the group is configured, its bit joins the state
    if an item of the group matches. *)
Definition matchGroup (configured : bool) (group : list RuleItem) (bit : ruleMatchState)
    (st : ruleMatchState * InboundContext) : ruleMatchState * InboundContext :=
  let '(baseState, metadata) := st in
  if configured then
    let metadata := setDidMatch metadata in
    (if matchAnyItem group metadata then N.lor baseState bit else baseState, metadata)
  else (baseState, metadata).

(** The destination [ip_cidr] group, which is consulted only while its bit is
    still missing. *)
Definition matchIPCIDRGroup (applies : bool) (group : list RuleItem) (bit : ruleMatchState)
    (st : ruleMatchState * InboundContext) : ruleMatchState * InboundContext :=
  let '(baseState, metadata) := st in
  if applies && negb (has baseState bit) then
    let metadata := setDidMatch metadata in
    (if matchAnyItem group metadata then N.lor baseState bit else baseState, metadata)
  else if applies then (baseState, setDidMatch metadata)
  else (baseState, metadata).

(** The loop over the ungrouped items, which stops at the first that fails. *)
Fixpoint matchItems (l : list RuleItem) (metadata : InboundContext) : bool * InboundContext :=
  match l with
  | [] => (true, metadata)
  | item :: l =>
      let metadata := setDidMatch metadata in
      if negb (item_Match net item metadata) then (false, metadata)
      else matchItems l metadata
  end.

(** The closure passed to [filter]: every configured group has its bit. *)
Definition allowed (r : abstractDefaultRule S) (metadata : InboundContext) (state : ruleMatchState) : bool :=
  if requiresSourceAddressMatch r metadata && negb (has state ruleMatchSourceAddress) then false
  else if nonempty (sourcePortItems r) && negb (has state ruleMatchSourcePort) then false
  else if requiresDestinationAddressMatch r metadata
          && negb (has state ruleMatchDestinationAddress) then false
  else if nonempty (destinationPortItems r) && negb (has state ruleMatchDestinationPort) then false
  else true.

Definition default_matchStatesWithBase (r : abstractDefaultRule S) (metadata : InboundContext)
    (inheritedBase : ruleMatchState) : ruleMatchStateSet * InboundContext :=
  if (length (allItems r) =? 0)%nat
  then (withBase emptyRuleMatchState inheritedBase, metadata)
  else
    let evaluationBase := if invert r then 0 else inheritedBase in
    let st := (evaluationBase, metadata) in
    let st := matchGroup (nonempty (sourceAddressItems r)) (sourceAddressItems r)
                ruleMatchSourceAddress st in
    let st := matchIPCIDRGroup (destinationIPCIDRMatchesSource r st.2) (destinationIPCIDRItems r)
                ruleMatchSourceAddress st in
    let st := matchGroup (nonempty (sourcePortItems r)) (sourcePortItems r)
                ruleMatchSourcePort st in
    let st := matchGroup (nonempty (destinationAddressItems r)) (destinationAddressItems r)
                ruleMatchDestinationAddress st in
    let st := matchIPCIDRGroup (destinationIPCIDRMatchesDestination r st.2)
                (destinationIPCIDRItems r) ruleMatchDestinationAddress st in
    let '(baseState, metadata) :=
      matchGroup (nonempty (destinationPortItems r)) (destinationPortItems r)
        ruleMatchDestinationPort st in
    let '(matched, metadata) := matchItems (items r) metadata in
    if negb matched then (invertedFailure r inheritedBase, metadata)
    else
      let '(stateSet, metadata) :=
        match ruleSetItem r with
        | Some item =>
            let metadata := setDidMatch metadata in
            (ruleSetItem_matchStatesWithBase item metadata baseState, metadata)
        | None => (singleRuleMatchState baseState, metadata)
        end in
      let stateSet := filter stateSet (allowed r metadata) in
      if isEmpty stateSet then (invertedFailure r inheritedBase, metadata)
      else if invert r then
        if IgnoreDestinationIPCIDRMatch metadata && (stateSet =? emptyRuleMatchState)
           && negb (DidMatch metadata) && nonempty (destinationIPCIDRItems r)
        then (withBase emptyRuleMatchState inheritedBase, metadata)
        else (0, metadata)
      else (stateSet, metadata).

(** ** Logical rules *)

Section Logical.
Context {R : Type}.
(** [matchHeadlessRuleStatesWithBase] on a nested rule. *)
Variable nested_matchStatesWithBase : R -> InboundContext -> ruleMatchState -> ruleMatchStateSet.

(** The [and] loop; [None] is the early return at an unmatched nested rule. *)
Fixpoint logicalAnd (rules : list R) (metadata : InboundContext) (base : ruleMatchState)
    (stateSet : ruleMatchStateSet) : option ruleMatchStateSet :=
  match rules with
  | [] => Some stateSet
  | rule :: rules =>
      let nestedStateSet := nested_matchStatesWithBase rule (ResetRuleCache metadata) base in
      if isEmpty nestedStateSet then None
      else logicalAnd rules metadata base (combine stateSet nestedStateSet)
  end.

Definition logicalOr (rules : list R) (metadata : InboundContext) (base : ruleMatchState)
  : ruleMatchStateSet :=
  fold_left
    (fun stateSet rule =>
       merge stateSet (nested_matchStatesWithBase rule (ResetRuleCache metadata) base))
    rules 0.

Definition logical_matchStatesWithBase (rules : list R) (mode : string) (inverted : bool)
    (metadata : InboundContext) (base : ruleMatchState) : ruleMatchStateSet :=
  let evaluationBase := if inverted then 0 else base in
  let failure := if inverted then withBase emptyRuleMatchState base else 0 in
  if bool_decide (mode = LogicalTypeAnd) then
    match logicalAnd rules metadata evaluationBase (withBase emptyRuleMatchState evaluationBase) with
    | None => failure
    | Some stateSet => if inverted then 0 else stateSet
    end
  else
    let stateSet := logicalOr rules metadata evaluationBase in
    if isEmpty stateSet then failure else if inverted then 0 else stateSet.

End Logical.

Fixpoint matchStatesWithBase (rule : Rule S) (metadata : InboundContext) (base : ruleMatchState)
  : ruleMatchStateSet :=
  match rule with
  | DefaultRule r => (default_matchStatesWithBase r metadata base).1
  | LogicalRule rules mode inverted _ =>
      logical_matchStatesWithBase matchStatesWithBase rules mode inverted metadata base
  end.

Definition matchStates (rule : Rule S) (metadata : InboundContext) : ruleMatchStateSet :=
  matchStatesWithBase rule metadata 0.

Definition Match (rule : Rule S) (metadata : InboundContext) : bool :=
  negb (isEmpty (matchStates rule metadata)).

Definition Action (rule : Rule S) : option A :=
  match rule with
  | DefaultRule r => action r
  | LogicalRule _ _ _ act => act
  end.

End Match.

(** ** Headless rules and rule-sets *)

Definition HeadlessRule : Type := Rule Empty_set.

Definition headless_matchStatesWithBase (net : Network) : HeadlessRule -> InboundContext ->
  ruleMatchState -> ruleMatchStateSet :=
  matchStatesWithBase net (fun (s : Empty_set) _ _ => match s with end).

(** [LocalRuleSet.matchStatesWithBase]; the remote rule-set has the same loop. *)
Definition ruleSet_matchStatesWithBase (net : Network) (rules : list HeadlessRule)
    (metadata : InboundContext) (base : ruleMatchState) : ruleMatchStateSet :=
  fold_left
    (fun stateSet rule =>
       merge stateSet
         (headless_matchStatesWithBase net rule (ResetRuleMatchCache metadata) base))
    rules 0.

End Rules.

Arguments RuleSetItem : clear implicits.
Arguments mkRuleSetItem {S} _ _ _ _.
Arguments tagList {S} _.
Arguments setList {S} _.
Arguments ipCidrMatchSource {S} _.
Arguments ipCidrAcceptEmpty {S} _.
Arguments AnyItem {E} S.
Arguments Plain {E S} _.
Arguments OfRuleSet {E S} _.
Arguments abstractDefaultRule {E} A S.
Arguments mkDefault {E A S} _ _ _ _ _ _ _ _ _ _.
Arguments items {E A S} _.
Arguments sourceAddressItems {E A S} _.
Arguments sourcePortItems {E A S} _.
Arguments destinationAddressItems {E A S} _.
Arguments destinationIPCIDRItems {E A S} _.
Arguments destinationPortItems {E A S} _.
Arguments allItems {E A S} _.
Arguments ruleSetItem {E A S} _.
Arguments invert {E A S} _.
Arguments action {E A S} _.
Arguments Rule {E} A S.
Arguments DefaultRule {E A S} _.
Arguments LogicalRule {E A S} _ _ _ _.
Arguments HeadlessRule {E} A.

End Rules.
