(* ===== verification/HeadlessBuild.v ===== *)
(** * Building headless rules (src/route/rule/rule_headless.go)

    [NewHeadlessRule] turns the options of a rule-set's rule into the rule the
    matcher evaluates: each configured field becomes an item of the group it
    belongs to. *)

From S2P Require Import Prelude GoStd Metadata RuleItems Rules HeadlessOptions.
Import RuleItems Rules.

Open Scope N_scope.

Section Build.
Context `{E : Externals} {A S : Type}.

(** ** Appending an item to a group of a rule *)

Definition newRule (inverted : bool) (act : option A) : abstractDefaultRule A S :=
  mkDefault [] [] [] [] [] [] [] None inverted act.

Definition addItem (rule : abstractDefaultRule A S) (item : RuleItem) : abstractDefaultRule A S :=
  {| rule with items := items rule ++ [item]; allItems := allItems rule ++ [Plain item] |}.
Definition addSourceAddress (rule : abstractDefaultRule A S) (item : RuleItem) : abstractDefaultRule A S :=
  {| rule with sourceAddressItems := sourceAddressItems rule ++ [item];
               allItems := allItems rule ++ [Plain item] |}.
Definition addSourcePort (rule : abstractDefaultRule A S) (item : RuleItem) : abstractDefaultRule A S :=
  {| rule with sourcePortItems := sourcePortItems rule ++ [item];
               allItems := allItems rule ++ [Plain item] |}.
Definition addDestinationAddress (rule : abstractDefaultRule A S) (item : RuleItem) : abstractDefaultRule A S :=
  {| rule with destinationAddressItems := destinationAddressItems rule ++ [item];
               allItems := allItems rule ++ [Plain item] |}.
Definition addDestinationIPCIDR (rule : abstractDefaultRule A S) (item : RuleItem) : abstractDefaultRule A S :=
  {| rule with destinationIPCIDRItems := destinationIPCIDRItems rule ++ [item];
               allItems := allItems rule ++ [Plain item] |}.
Definition addDestinationPort (rule : abstractDefaultRule A S) (item : RuleItem) : abstractDefaultRule A S :=
  {| rule with destinationPortItems := destinationPortItems rule ++ [item];
               allItems := allItems rule ++ [Plain item] |}.

(** [if configured { item := new; add }] *)
Definition addIf (configured : bool) (add : abstractDefaultRule A S -> RuleItem -> abstractDefaultRule A S)
    (item : RuleItem) (rule : abstractDefaultRule A S) : abstractDefaultRule A S :=
  if configured then add rule item else rule.
(** The same for a constructor that can fail; the error is wrapped. *)
Definition addIfOk (configured : bool) (wrap : error -> error)
    (add : abstractDefaultRule A S -> RuleItem -> abstractDefaultRule A S)
    (item : result RuleItem) (rule : abstractDefaultRule A S) : result (abstractDefaultRule A S) :=
  if configured then item ← map_err wrap item; Ok (add rule item) else Ok rule.
Definition causedBy (part : string) (e : error) : error := E_Cause e [part].

(** An optional item: a configured list, or else its compiled form. *)
Definition addOrRaw {B} (raw : option B) (new : B -> RuleItem)
    (add : abstractDefaultRule A S -> RuleItem -> abstractDefaultRule A S)
    (rule : abstractDefaultRule A S) : abstractDefaultRule A S :=
  match raw with Some m => add rule (new m) | None => rule end.

(** What the additions do not touch. *)
Lemma addIf_keeps {B} (f : abstractDefaultRule A S -> B) b add it r :
  (forall r it, f (add r it) = f r) -> f (addIf b add it r) = f r.
Proof. intros H. unfold addIf. by destruct b. Qed.

Lemma addIfOk_keeps {B} (f : abstractDefaultRule A S -> B) b wrap add it r R :
  (forall r it, f (add r it) = f r) -> addIfOk b wrap add it r = Ok R -> f R = f r.
Proof.
  intros H. unfold addIfOk. destruct b; [|by intros [= <-]]. intros Hok. inv_ok. by subst.
Qed.

Lemma addOrRaw_keeps {B D} (f : abstractDefaultRule A S -> B) (raw : option D) new add r :
  (forall r it, f (add r it) = f r) -> f (addOrRaw raw new add r) = f r.
Proof. intros H. unfold addOrRaw. by destruct raw. Qed.

End Build.

Section Headless.
Context `{E : Externals} {A : Type}.
#[local] Abbreviation rule_t := (abstractDefaultRule A Empty_set).

(** Query type, network, domains and addresses. *)
Definition headless_addressItems (options : DefaultHeadlessRule) (rule : rule_t) : result rule_t :=
  let rule := addIf (nonempty (elems (h_QueryType options))) addItem
                (NewQueryTypeItem (elems (h_QueryType options))) rule in
  let rule := addIf (nonempty (elems (h_Network options))) addItem
                (NewNetworkItem (elems (h_Network options))) rule in
  rule ←
    (if nonempty (elems (h_Domain options)) || nonempty (elems (h_DomainSuffix options))
     then item ← NewDomainItem (elems (h_Domain options)) (elems (h_DomainSuffix options));
          Ok (addDestinationAddress rule item)
     else Ok (addOrRaw (h_DomainMatcher options) NewRawDomainItem addDestinationAddress rule));
  let rule := addIf (nonempty (elems (h_DomainKeyword options))) addDestinationAddress
                (NewDomainKeywordItem (elems (h_DomainKeyword options))) rule in
  rule ← addIfOk (nonempty (elems (h_DomainRegex options))) (causedBy "domain_regex")
           addDestinationAddress (NewDomainRegexItem (elems (h_DomainRegex options))) rule;
  rule ←
    (if nonempty (elems (h_SourceIPCIDR options))
     then addIfOk true (causedBy "source_ip_cidr") addSourceAddress
            (NewIPCIDRItem true (elems (h_SourceIPCIDR options))) rule
     else Ok (addOrRaw (h_SourceIPSet options) (NewRawIPCIDRItem true) addSourceAddress rule));
  (if nonempty (elems (h_IPCIDR options))
   then addIfOk true (causedBy "ipcidr") addDestinationIPCIDR
          (NewIPCIDRItem false (elems (h_IPCIDR options))) rule
   else Ok (addOrRaw (h_IPSet options) (NewRawIPCIDRItem false) addDestinationIPCIDR rule)).

(** Ports. *)
Definition headless_portItems (options : DefaultHeadlessRule) (rule : rule_t) : result rule_t :=
  let rule := addIf (nonempty (elems (h_SourcePort options))) addSourcePort
                (NewPortItem true (elems (h_SourcePort options))) rule in
  rule ← addIfOk (nonempty (elems (h_SourcePortRange options))) (causedBy "source_port_range")
           addSourcePort (NewPortRangeItem true (elems (h_SourcePortRange options))) rule;
  let rule := addIf (nonempty (elems (h_Port options))) addDestinationPort
                (NewPortItem false (elems (h_Port options))) rule in
  addIfOk (nonempty (elems (h_PortRange options))) (causedBy "port_range")
    addDestinationPort (NewPortRangeItem false (elems (h_PortRange options))) rule.

(** Processes and packages. *)
Definition headless_processItems (options : DefaultHeadlessRule) (rule : rule_t) : result rule_t :=
  let rule := addIf (nonempty (elems (h_ProcessName options))) addItem
                (NewProcessItem (elems (h_ProcessName options))) rule in
  let rule := addIf (nonempty (elems (h_ProcessPath options))) addItem
                (NewProcessPathItem (elems (h_ProcessPath options))) rule in
  rule ← addIfOk (nonempty (elems (h_ProcessPathRegex options))) (causedBy "process_path_regex")
           addItem (NewProcessPathRegexItem (elems (h_ProcessPathRegex options))) rule;
  let rule := addIf (nonempty (elems (h_PackageName options))) addItem
                (NewPackageNameItem (elems (h_PackageName options))) rule in
  addIfOk (nonempty (elems (h_PackageNameRegex options))) (causedBy "package_name_regex")
    addItem (NewPackageNameRegexItem (elems (h_PackageNameRegex options))) rule.

(** The items that need the network manager of the context. *)
Definition headless_networkItems (networkManager : bool) (options : DefaultHeadlessRule)
    (rule : rule_t) : rule_t :=
  if networkManager then
    let rule := addIf (nonempty (elems (h_NetworkType options))) addItem
                  (NewNetworkTypeItem (elems (h_NetworkType options))) rule in
    let rule := addIf (h_NetworkIsExpensive options) addItem NewNetworkIsExpensiveItem rule in
    let rule := addIf (h_NetworkIsConstrained options) addItem NewNetworkIsConstrainedItem rule in
    let rule := addIf (nonempty (elems (h_WIFISSID options))) addItem
                  (NewWIFISSIDItem (elems (h_WIFISSID options))) rule in
    let rule := addIf (nonempty (elems (h_WIFIBSSID options))) addItem
                  (NewWIFIBSSIDItem (elems (h_WIFIBSSID options))) rule in
    let rule := addIf (nonempty (default [] (h_NetworkInterfaceAddress options))) addItem
                  (NewNetworkInterfaceAddressItem
                     (map (fun '(k, v) => (k, elems v))
                        (default [] (h_NetworkInterfaceAddress options)))) rule in
    addIf (nonempty (elems (h_DefaultInterfaceAddress options))) addItem
      (NewDefaultInterfaceAddressItem (elems (h_DefaultInterfaceAddress options))) rule
  else rule.

Definition NewDefaultHeadlessRule (networkManager : bool) (options : DefaultHeadlessRule)
  : result rule_t :=
  rule ← headless_addressItems options (newRule (h_Invert options) None);
  rule ← headless_portItems options rule;
  rule ← headless_processItems options rule;
  let rule := headless_networkItems networkManager options rule in
  Ok (if nonempty (elems (h_AdGuardDomain options))
      then addDestinationAddress rule (NewAdGuardDomainItem (elems (h_AdGuardDomain options)))
      else addOrRaw (h_AdGuardDomainMatcher options) NewRawAdGuardDomainItem
             addDestinationAddress rule).

(** The loop over the nested rules; an error carries the index. *)
Definition build_all {B C} (new : B -> result C) : nat -> list B -> result (list C) :=
  fix go i l :=
    match l with
    | [] => Ok []
    | x :: l =>
        match new x with
        | Ok rule => rules ← go (Datatypes.S i) l; Ok (rule :: rules)
        | Err e => Err (E_Cause e ["sub rule["; pretty i; "]"])
        | Panic msg => Panic msg
        end
    end.

(** [NewHeadlessRule], with [NewLogicalHeadlessRule] inlined at the recursion. *)
Fixpoint NewHeadlessRule (networkManager : bool) (options : HeadlessRuleOptions)
  : result (HeadlessRule A) :=
  match options with
  | mkHeadlessRule type_ defaultOptions mode rules invert =>
      if bool_decide (type_ = "") || bool_decide (type_ = RuleTypeDefault) then
        if negb (default_IsValid defaultOptions) then Err (E_New ["missing conditions"])
        else rule ← NewDefaultHeadlessRule networkManager defaultOptions; Ok (DefaultRule rule)
      else if bool_decide (type_ = RuleTypeLogical) then
        valid ← logical_IsValid rules;
        if negb valid then Err (E_New ["missing conditions"])
        else if bool_decide (mode = LogicalTypeAnd) || bool_decide (mode = LogicalTypeOr) then
          rules ← build_all (NewHeadlessRule networkManager) 0 rules;
          Ok (LogicalRule rules mode invert None)
        else Err (E_New ["unknown logical mode: "; mode])
      else Err (E_New ["unknown rule type: "; type_])
  end.

End Headless.
