(* ===== verification/Srs.v ===== *)
(** * The binary rule-set format (src/common/srs)

    [Read] and [Write] with the functions they call, over the byte streams of
    Binary.v.  The domain matchers of sing, netipx, badjson's ordered map, varbin
    and the compression of compress/zlib are the operations of [Codec]; their
    documented behaviour is [CodecLaws].  [writeRule] writes what [readRule]
    reads back in compiled form: [compiled] says what that form is. *)

From S2P Require Import Prelude GoStd Metadata RuleItems Rules HeadlessOptions Binary.
From Stdlib Require Import Strings.Byte.
Import netip RuleItems Rules.

Open Scope N_scope.

(** ** Third-party code *)

Class Codec `{E : Externals} : Type := {
  (** sing/common/domain *)
  domain_ReadMatcher : list byte -> result (Matcher * list byte);
  Matcher_Write : Matcher -> list byte;
  Matcher_Dump : Matcher -> slice string * slice string;
  domain_ReadAdGuardMatcher : list byte -> result (AdGuardMatcher * list byte);
  AdGuardMatcher_Write : AdGuardMatcher -> list byte;
  AdGuardMatcher_Dump : AdGuardMatcher -> slice string;
  (** go4.org/netipx: [IPSet.Prefixes] *)
  IPSet_Prefixes : IPSet -> list Prefix;
  (** sing/common/varbin: [WriteUvarint] *)
  varbin_WriteUvarint : N -> list byte;
  (** sing/common/json/badjson: [TypedMap.Put] *)
  TypedMap_Put : forall {V : Type}, list (InterfaceType * V) -> InterfaceType -> V ->
    list (InterfaceType * V);
  (** compress/zlib: the contents of a compressed stream, and its writer *)
  zlib_NewReader : list byte -> result (list byte);
  zlib_Compress : list byte -> list byte;
}.

(** What is documented of it and the codec relies on. *)
Class CodecLaws `{C : Codec} : Prop := {
  ReadMatcher_Write (m : Matcher) rest :
    domain_ReadMatcher (Matcher_Write m ++ rest) = Ok (m, rest);
  ReadMatcher_consumes input m rest :
    domain_ReadMatcher input = Ok (m, rest) -> (length rest <= length input)%nat;
  ReadAdGuardMatcher_Write (m : AdGuardMatcher) rest :
    domain_ReadAdGuardMatcher (AdGuardMatcher_Write m ++ rest) = Ok (m, rest);
  ReadAdGuardMatcher_consumes input m rest :
    domain_ReadAdGuardMatcher input = Ok (m, rest) -> (length rest <= length input)%nat;
  WriteUvarint_spec n : n < 2 ^ 64 -> varbin_WriteUvarint n = PutUvarint n;
  AddrFromIP_spec l : M_AddrFromIP l = AddrFromSlice l;
  Prefixable_Build_Some p d : Prefixable_Build (Some p) d = p;
  TypedMap_Put_fresh {V} (m : list (InterfaceType * V)) k v :
    k ∉ m.*1 -> TypedMap_Put m k v = m ++ [(k, v)];
  zlib_Compress_spec l : zlib_NewReader (zlib_Compress l) = Ok l;
}.

Module Srs.

Definition MagicBytes : list byte := [x53; x52; x53].

Definition ruleItemQueryType : N := 0.
Definition ruleItemNetwork : N := 1.
Definition ruleItemDomain : N := 2.
Definition ruleItemDomainKeyword : N := 3.
Definition ruleItemDomainRegex : N := 4.
Definition ruleItemSourceIPCIDR : N := 5.
Definition ruleItemIPCIDR : N := 6.
Definition ruleItemSourcePort : N := 7.
Definition ruleItemSourcePortRange : N := 8.
Definition ruleItemPort : N := 9.
Definition ruleItemPortRange : N := 10.
Definition ruleItemProcessName : N := 11.
Definition ruleItemProcessPath : N := 12.
Definition ruleItemPackageName : N := 13.
Definition ruleItemWIFISSID : N := 14.
Definition ruleItemWIFIBSSID : N := 15.
Definition ruleItemAdGuardDomain : N := 16.
Definition ruleItemProcessPathRegex : N := 17.
Definition ruleItemNetworkType : N := 18.
Definition ruleItemNetworkIsExpensive : N := 19.
Definition ruleItemNetworkIsConstrained : N := 20.
Definition ruleItemNetworkInterfaceAddress : N := 21.
Definition ruleItemDefaultInterfaceAddress : N := 22.
Definition ruleItemPackageNameRegex : N := 23.
Definition ruleItemFinal : N := 255.

(** [unsafe.Sizeof] of the element types of the slices the readers allocate. *)
Definition sizeof_string : N := 16.
Definition sizeof_myIPRange : N := 48.
Definition sizeof_HeadlessRule : N := 648.

Section Codec.
Context `{C : Codec}.

(** An external reader that returns a value or an error. *)
Definition external {A} (f : list byte -> result (A * list byte)) : Reader A :=
  fun input => Some (f input).

(** ** Elements *)

Definition readString : Reader string :=
  strLen ← ReadUvarint; _ ← make_slice 1 strLen; buf ← ReadFull strLen; mret (string_of_bytes buf).

Definition readRuleItemString : Reader (list string) :=
  length ← ReadUvarint; _ ← make_slice sizeof_string length; read_n length (fun _ => readString).

Definition writeString (s : string) : list byte :=
  varbin_WriteUvarint (N.of_nat (length (bytes_of_string s))) ++ bytes_of_string s.

Definition writeRuleItemString (itemType : N) (value : list string) : list byte :=
  byte_of_N itemType :: varbin_WriteUvarint (N.of_nat (length value)) ++ flat_map writeString value.

Definition readRuleItemUint8 : Reader (list N) :=
  length ← ReadUvarint; _ ← make_slice 1 length; buf ← ReadFull length; mret (map Byte.to_N buf).

Definition writeRuleItemUint8 (itemType : N) (value : list N) : list byte :=
  byte_of_N itemType :: varbin_WriteUvarint (N.of_nat (length value)) ++ map byte_of_N value.

Definition readRuleItemUint16 : Reader (list N) :=
  length ← ReadUvarint; _ ← make_slice 2 length; Read_uint16s length.

Definition writeRuleItemUint16 (itemType : N) (value : list N) : list byte :=
  byte_of_N itemType :: varbin_WriteUvarint (N.of_nat (length value)) ++ encode_uint16s value.

(** ** Prefixes and sets of addresses (ip_cidr.go, ip_set.go) *)

(** A length-prefixed byte slice. *)
Definition readBytes : Reader (list byte) :=
  len ← ReadUvarint; _ ← make_slice 1 len; ReadFull len.
Definition writeBytes (l : list byte) : list byte :=
  varbin_WriteUvarint (N.of_nat (length l)) ++ l.

Definition readPrefix : Reader Prefix :=
  addrSlice ← readBytes; prefixBits ← ReadByte;
  mret (PrefixFrom (M_AddrFromIP addrSlice) (Z.of_N prefixBits)).

(** [uint8(prefix.Bits())] of an invalid prefix is 255. *)
Definition writePrefix (prefix : Prefix) : list byte :=
  writeBytes (AsSlice (ip prefix)) ++ [byte_of_N (Z.to_N (Bits prefix mod 256))].

Definition readIPRange : Reader (Addr * Addr) :=
  fromBytes ← readBytes; toBytes ← readBytes; mret (M_AddrFromIP fromBytes, M_AddrFromIP toBytes).

Definition readIPSet : Reader IPSet :=
  version ← ReadByte;
  if negb (version =? 1) then fail ErrInvalid
  else
    length ← Read_uint64; _ ← make_slice sizeof_myIPRange length;
    read_n length (fun _ => readIPRange).

Definition writeIPRange (rr : Addr * Addr) : list byte :=
  writeBytes (AsSlice rr.1) ++ writeBytes (AsSlice rr.2).

Definition writeIPSet (set : IPSet) : list byte :=
  x01 :: be_encode 8 (N.of_nat (length set)) ++ flat_map writeIPRange set.

Definition writeRuleItemCIDR (itemType : N) (value : list string) : result (list byte) :=
  entries ← parse_prefixes 0 value;
  ipSet ← IPSetBuilder_IPSet entries;
  Ok (byte_of_N itemType :: writeIPSet ipSet).

(** The prefixes of an interface address item; [append] to a nil slice. *)
Definition readPrefixes : Reader (slice (option Prefix)) :=
  prefixCount ← ReadUvarint;
  value ← read_n prefixCount (fun _ => readPrefix);
  mret (if prefixCount =? 0 then None else Some (map Some value)).
Definition writePrefixes (l : list (option Prefix)) : list byte :=
  varbin_WriteUvarint (N.of_nat (length l))
  ++ flat_map (fun rawPrefix => writePrefix (Prefixable_Build rawPrefix PrefixZero)) l.

Definition readInterfaceEntry : Reader (InterfaceType * slice (option Prefix)) :=
  key ← Read_uint8; value ← readPrefixes; mret (key, value).
Definition writeInterfaceEntry (entry : InterfaceType * slice (option Prefix)) : list byte :=
  byte_of_N entry.1 :: writePrefixes (elems entry.2).

(** ** Default rules *)

(** The switch of [readDefaultRule] on an item type other than
    [ruleItemFinal]. *)
Definition readItem (recover : bool) (itemType lastItemType : N) (rule : DefaultHeadlessRule)
  : Reader DefaultHeadlessRule :=
  if itemType =? ruleItemQueryType then
    rawQueryType ← readRuleItemUint16; mret {| rule with h_QueryType := Some rawQueryType |}
  else if itemType =? ruleItemNetwork then
    v ← readRuleItemString; mret {| rule with h_Network := Some v |}
  else if itemType =? ruleItemDomain then
    matcher ← external domain_ReadMatcher;
    let rule := {| rule with h_DomainMatcher := Some matcher |} in
    mret (if recover
          then let '(domain, domainSuffix) := Matcher_Dump matcher in
               {| rule with h_Domain := domain; h_DomainSuffix := domainSuffix |}
          else rule)
  else if itemType =? ruleItemDomainKeyword then
    v ← readRuleItemString; mret {| rule with h_DomainKeyword := Some v |}
  else if itemType =? ruleItemDomainRegex then
    v ← readRuleItemString; mret {| rule with h_DomainRegex := Some v |}
  else if itemType =? ruleItemSourceIPCIDR then
    set ← readIPSet;
    let rule := {| rule with h_SourceIPSet := Some set |} in
    mret (if recover
          then {| rule with h_SourceIPCIDR := Some (map Prefix_String (IPSet_Prefixes set)) |}
          else rule)
  else if itemType =? ruleItemIPCIDR then
    set ← readIPSet;
    let rule := {| rule with h_IPSet := Some set |} in
    mret (if recover
          then {| rule with h_IPCIDR := Some (map Prefix_String (IPSet_Prefixes set)) |}
          else rule)
  else if itemType =? ruleItemSourcePort then
    v ← readRuleItemUint16; mret {| rule with h_SourcePort := Some v |}
  else if itemType =? ruleItemSourcePortRange then
    v ← readRuleItemString; mret {| rule with h_SourcePortRange := Some v |}
  else if itemType =? ruleItemPort then
    v ← readRuleItemUint16; mret {| rule with h_Port := Some v |}
  else if itemType =? ruleItemPortRange then
    v ← readRuleItemString; mret {| rule with h_PortRange := Some v |}
  else if itemType =? ruleItemProcessName then
    v ← readRuleItemString; mret {| rule with h_ProcessName := Some v |}
  else if itemType =? ruleItemProcessPath then
    v ← readRuleItemString; mret {| rule with h_ProcessPath := Some v |}
  else if itemType =? ruleItemProcessPathRegex then
    v ← readRuleItemString; mret {| rule with h_ProcessPathRegex := Some v |}
  else if itemType =? ruleItemPackageName then
    v ← readRuleItemString; mret {| rule with h_PackageName := Some v |}
  else if itemType =? ruleItemPackageNameRegex then
    v ← readRuleItemString; mret {| rule with h_PackageNameRegex := Some v |}
  else if itemType =? ruleItemWIFISSID then
    v ← readRuleItemString; mret {| rule with h_WIFISSID := Some v |}
  else if itemType =? ruleItemWIFIBSSID then
    v ← readRuleItemString; mret {| rule with h_WIFIBSSID := Some v |}
  else if itemType =? ruleItemAdGuardDomain then
    matcher ← external domain_ReadAdGuardMatcher;
    let rule := {| rule with h_AdGuardDomainMatcher := Some matcher |} in
    mret (if recover then {| rule with h_AdGuardDomain := AdGuardMatcher_Dump matcher |} else rule)
  else if itemType =? ruleItemNetworkType then
    v ← readRuleItemUint8; mret {| rule with h_NetworkType := Some v |}
  else if itemType =? ruleItemNetworkIsExpensive then
    mret {| rule with h_NetworkIsExpensive := true |}
  else if itemType =? ruleItemNetworkIsConstrained then
    mret {| rule with h_NetworkIsConstrained := true |}
  else if itemType =? ruleItemNetworkInterfaceAddress then
    size ← ReadUvarint;
    entries ← read_n size (fun _ => readInterfaceEntry);
    mret {| rule with h_NetworkInterfaceAddress :=
              Some (fold_left (fun m '(k, v) => TypedMap_Put m k v) entries []) |}
  else if itemType =? ruleItemDefaultInterfaceAddress then
    v ← readPrefixes; mret {| rule with h_DefaultInterfaceAddress := v |}
  else
    fail (E_New ["unknown rule item type: "; pretty itemType; ", last type: "; pretty lastItemType]).

(** The loop of [readDefaultRule]; every iteration consumes the item type. *)
Fixpoint readItems (fuel : nat) (recover : bool) (lastItemType : N) (rule : DefaultHeadlessRule)
  : Reader DefaultHeadlessRule :=
  match fuel with
  | O => out_of_fuel
  | S fuel =>
      itemType ← Read_uint8;
      if itemType =? ruleItemFinal then
        invert ← Read_bool; mret {| rule with h_Invert := invert |}
      else
        rule ← readItem recover itemType lastItemType rule;
        readItems fuel recover itemType rule
  end.

Definition readDefaultRule (recover : bool) : Reader DefaultHeadlessRule := fun input =>
  readItems (S (length input)) recover 0 DefaultHeadlessRuleZero input.

(** One item of [writeDefaultRule]: written when configured; some need a format
    version. *)
Definition writeIf (configured : bool) (bytes : list byte) : list byte :=
  if configured then bytes else [].
Definition writeSince (since generateVersion : N) (name : string) (configured : bool)
    (bytes : list byte) : result (list byte) :=
  if configured then
    if generateVersion <? since
    then Err (E_New [name +:+ " is only supported in version " +:+ pretty since +:+ " or later"])
    else Ok bytes
  else Ok [].
Definition writeCIDR (name : string) (itemType : N) (value : list string) : result (list byte) :=
  if nonempty value
  then map_err (fun e => E_Cause e [name]) (writeRuleItemCIDR itemType value)
  else Ok [].

(** A list of strings, of [uint16] values. *)
Definition writeStrings (itemType : N) (value : slice string) : list byte :=
  writeIf (nonempty (elems value)) (writeRuleItemString itemType (elems value)).
Definition writeUint16s (itemType : N) (value : slice N) : list byte :=
  writeIf (nonempty (elems value)) (writeRuleItemUint16 itemType (elems value)).

Definition writeDefaultRule (rule : DefaultHeadlessRule) (generateVersion : N) : result (list byte) :=
  sourceIPCIDR ← writeCIDR "source_ip_cidr" ruleItemSourceIPCIDR (elems (h_SourceIPCIDR rule));
  ipCIDR ← writeCIDR "ipcidr" ruleItemIPCIDR (elems (h_IPCIDR rule));
  packageNameRegex ← writeSince RuleSetVersion5 generateVersion "`package_name_regex` rule item"
    (nonempty (elems (h_PackageNameRegex rule)))
    (writeRuleItemString ruleItemPackageNameRegex (elems (h_PackageNameRegex rule)));
  networkType ← writeSince RuleSetVersion3 generateVersion "`network_type` rule item"
    (nonempty (elems (h_NetworkType rule)))
    (writeRuleItemUint8 ruleItemNetworkType (elems (h_NetworkType rule)));
  networkIsExpensive ← writeSince RuleSetVersion3 generateVersion "`network_is_expensive` rule item"
    (h_NetworkIsExpensive rule) [byte_of_N ruleItemNetworkIsExpensive];
  networkIsConstrained ← writeSince RuleSetVersion3 generateVersion
    "`network_is_constrained` rule item"
    (h_NetworkIsConstrained rule) [byte_of_N ruleItemNetworkIsConstrained];
  networkInterfaceAddress ← writeSince RuleSetVersion4 generateVersion
    "`network_interface_address` rule item"
    (nonempty (default [] (h_NetworkInterfaceAddress rule)))
    (byte_of_N ruleItemNetworkInterfaceAddress
     :: varbin_WriteUvarint (N.of_nat (length (default [] (h_NetworkInterfaceAddress rule))))
     ++ flat_map writeInterfaceEntry (default [] (h_NetworkInterfaceAddress rule)));
  defaultInterfaceAddress ← writeSince RuleSetVersion4 generateVersion
    "`default_interface_address` rule item"
    (nonempty (elems (h_DefaultInterfaceAddress rule)))
    (byte_of_N ruleItemDefaultInterfaceAddress
     :: writePrefixes (elems (h_DefaultInterfaceAddress rule)));
  adGuardDomain ← writeSince RuleSetVersion2 generateVersion "AdGuard rule items"
    (nonempty (elems (h_AdGuardDomain rule)))
    (byte_of_N ruleItemAdGuardDomain
     :: AdGuardMatcher_Write (domain_NewAdGuardMatcher (elems (h_AdGuardDomain rule))));
  Ok ([x00]
    ++ writeUint16s ruleItemQueryType (h_QueryType rule)
    ++ writeStrings ruleItemNetwork (h_Network rule)
    ++ writeIf (nonempty (elems (h_Domain rule)) || nonempty (elems (h_DomainSuffix rule)))
         (byte_of_N ruleItemDomain
          :: Matcher_Write (domain_NewMatcher (elems (h_Domain rule)) (elems (h_DomainSuffix rule))
               (generateVersion =? RuleSetVersion1)))
    ++ writeStrings ruleItemDomainKeyword (h_DomainKeyword rule)
    ++ writeStrings ruleItemDomainRegex (h_DomainRegex rule)
    ++ sourceIPCIDR
    ++ ipCIDR
    ++ writeUint16s ruleItemSourcePort (h_SourcePort rule)
    ++ writeStrings ruleItemSourcePortRange (h_SourcePortRange rule)
    ++ writeUint16s ruleItemPort (h_Port rule)
    ++ writeStrings ruleItemPortRange (h_PortRange rule)
    ++ writeStrings ruleItemProcessName (h_ProcessName rule)
    ++ writeStrings ruleItemProcessPath (h_ProcessPath rule)
    ++ writeStrings ruleItemProcessPathRegex (h_ProcessPathRegex rule)
    ++ writeStrings ruleItemPackageName (h_PackageName rule)
    ++ packageNameRegex
    ++ networkType
    ++ networkIsExpensive
    ++ networkIsConstrained
    ++ networkInterfaceAddress
    ++ defaultInterfaceAddress
    ++ writeStrings ruleItemWIFISSID (h_WIFISSID rule)
    ++ writeStrings ruleItemWIFIBSSID (h_WIFIBSSID rule)
    ++ adGuardDomain
    ++ [byte_of_N ruleItemFinal; byte_of_N (if h_Invert rule then 1 else 0)]).

(** ** Rules and rule-sets *)

(** [readRule] and [readLogicalRule], mutually recursive through the nested
    rules; every nested rule consumes its type byte. *)
Fixpoint readRule (fuel : nat) (recover : bool) : Reader HeadlessRuleOptions :=
  match fuel with
  | O => out_of_fuel
  | S fuel =>
      let readLogicalRule : Reader HeadlessRuleOptions :=
        mode ← ReadByte;
        if negb (mode =? 0) && negb (mode =? 1)
        then fail (E_New ["unknown logical mode: "; pretty mode])
        else
          length ← ReadUvarint;
          _ ← make_slice sizeof_HeadlessRule length;
          rules ← read_n length (fun i =>
            cause (fun e => E_Cause e ["read logical rule ["; pretty i; "]"])
              (readRule fuel recover));
          invert ← Read_bool;
          mret (mkHeadlessRule RuleTypeLogical DefaultHeadlessRuleZero
                  (if mode =? 0 then LogicalTypeAnd else LogicalTypeOr) rules invert) in
      ruleType ← Read_uint8;
      if ruleType =? 0 then
        options ← readDefaultRule recover;
        mret (mkHeadlessRule RuleTypeDefault options "" [] false)
      else if ruleType =? 1 then readLogicalRule
      else fail (E_New ["unknown rule type: "; pretty ruleType])
  end.

(** The writes of a list of rules, in order. *)
Definition write_all {A} (write : A -> result (list byte)) : list A -> result (list byte) :=
  fix go l :=
    match l with
    | [] => Ok []
    | x :: l => bytes ← write x; rest ← go l; Ok (bytes ++ rest)
    end.

(** [writeRule], with [writeLogicalRule] inlined at the recursion. *)
Fixpoint writeRule (rule : HeadlessRuleOptions) (generateVersion : N) : result (list byte) :=
  match rule with
  | mkHeadlessRule type_ defaultOptions mode rules invert =>
      if bool_decide (type_ = RuleTypeDefault) then writeDefaultRule defaultOptions generateVersion
      else if bool_decide (type_ = RuleTypeLogical) then
        modeByte ← (if bool_decide (mode = LogicalTypeAnd) then Ok 0
                    else if bool_decide (mode = LogicalTypeOr) then Ok 1
                    else Panic ("unknown logical mode: " +:+ mode));
        nested ← write_all (fun rule => writeRule rule generateVersion) rules;
        Ok ([x01; byte_of_N modeByte]
            ++ varbin_WriteUvarint (N.of_nat (length rules)) ++ nested
            ++ [byte_of_N (if invert then 1 else 0)])
      else Panic ("unknown rule type: " +:+ type_)
  end.

(** The rules of the decompressed stream. *)
Definition readRules (recover : bool) : Reader PlainRuleSet :=
  length ← ReadUvarint;
  _ ← make_slice sizeof_HeadlessRule length;
  read_n length (fun i =>
    cause (fun e => E_Cause e ["read rule["; pretty i; "]"])
      (fun input => readRule (S (List.length input)) recover input)).

(** The magic bytes and the version. *)
Definition readHeader : Reader N :=
  magicBytes ← ReadFull 3;
  if negb (bool_decide (magicBytes = MagicBytes))
  then fail (E_New ["invalid sing-box rule-set file"])
  else
    version ← Read_uint8;
    if RuleSetVersionCurrent <? version
    then fail (E_New ["unsupported version: "; pretty version])
    else mret version.

(** [Read]: the version of the file and its rules. *)
Definition Read (recover : bool) (reader : list byte) : option (result (N * PlainRuleSet)) :=
  match readHeader reader with
  | None => None
  | Some (Err e) => Some (Err e)
  | Some (Panic msg) => Some (Panic msg)
  | Some (Ok (version, reader)) =>
      match zlib_NewReader reader with
      | Err e => Some (Err e)
      | Panic msg => Some (Panic msg)
      | Ok contents =>
          match readRules recover contents with
          | None => None
          | Some (Err e) => Some (Err e)
          | Some (Panic msg) => Some (Panic msg)
          | Some (Ok (rules, _)) => Some (Ok (version, rules))
          end
      end
  end.

Definition Write (ruleSet : PlainRuleSet) (generateVersion : N) : result (list byte) :=
  contents ← write_all (fun rule => writeRule rule generateVersion) ruleSet;
  Ok (MagicBytes ++ [byte_of_N generateVersion]
      ++ zlib_Compress (varbin_WriteUvarint (N.of_nat (length ruleSet)) ++ contents)).

End Codec.
End Srs.
