(* ===== verification/SrsFacts.v ===== *)
(** * Reading back what the rule-set compiler writes

    Every element of the format is read back in front of any rest; the item loop
    composes these steps.  [compiledDefault] is the form in which a default rule
    comes back: domains and addresses as matchers, empty lists as absent. *)

From S2P Require Import Prelude GoStd Metadata RuleItems Rules HeadlessOptions Binary Srs.
From Stdlib Require Import Strings.Byte.
Import netip RuleItems Rules Srs.

Open Scope N_scope.

Section Facts.
Context `{L : CodecLaws}.

(** ** What fits the format

    The widths of the Go types, and the sizes [make] accepts. *)

Definition fits (n : nat) (elemSize : N) : Prop := N.of_nat n * elemSize <= maxAlloc.
Definition string_fits (s : string) : Prop := fits (length (bytes_of_string s)) 1.
Definition strings_fit (s : slice string) : Prop :=
  fits (length (elems s)) sizeof_string /\ Forall string_fits (elems s).
Definition uint16s_fit (s : slice N) : Prop :=
  fits (length (elems s)) 2 /\ Forall (fun v => v < 65536) (elems s).
Definition wf_plain_addr (a : Addr) : Prop := wf_addr a /\ withoutZone a = a.
Definition wf_prefix (p : Prefix) : Prop :=
  wf_plain_addr (ip p) /\
  bitsPlusOne p <= (if IsValid (ip p) then BitLen (ip p) + 1 else 0).
Definition prefixes_fit (l : list (option Prefix)) : Prop :=
  N.of_nat (length l) < 2 ^ 64 /\
  Forall (fun raw => wf_prefix (Prefixable_Build raw PrefixZero)) l.
Definition ipSet_fits (set : IPSet) : Prop :=
  fits (length set) sizeof_myIPRange /\
  Forall (fun rr => wf_plain_addr rr.1 /\ wf_plain_addr rr.2) set.

(** ** The compiled form *)

Definition norm {A} (s : slice A) : slice A := if nonempty (elems s) then s else None.

Definition buildSet (l : list string) : result IPSet :=
  entries ← parse_prefixes 0 l; IPSetBuilder_IPSet entries.
Definition compiledSet (l : list string) : option IPSet :=
  if nonempty l then match buildSet l with Ok set => Some set | _ => None end else None.
Definition compiledPrefixes (l : list (option Prefix)) : slice (option Prefix) :=
  if nonempty l
  then Some (map (fun raw => Some (Prefixable_Build raw PrefixZero)) l) else None.
Definition compiledEntry (entry : InterfaceType * slice (option Prefix))
  : InterfaceType * slice (option Prefix) :=
  (entry.1, compiledPrefixes (elems entry.2)).
Definition compiledEntries (m : option (list (InterfaceType * slice (option Prefix))))
  : option (list (InterfaceType * slice (option Prefix))) :=
  if nonempty (default [] m) then Some (map compiledEntry (default [] m)) else None.

Definition compiledDefault (generateVersion : N) (r : DefaultHeadlessRule) : DefaultHeadlessRule :=
  {| h_QueryType := norm (h_QueryType r);
     h_Network := norm (h_Network r);
     h_Domain := None;
     h_DomainSuffix := None;
     h_DomainKeyword := norm (h_DomainKeyword r);
     h_DomainRegex := norm (h_DomainRegex r);
     h_SourceIPCIDR := None;
     h_IPCIDR := None;
     h_SourcePort := norm (h_SourcePort r);
     h_SourcePortRange := norm (h_SourcePortRange r);
     h_Port := norm (h_Port r);
     h_PortRange := norm (h_PortRange r);
     h_ProcessName := norm (h_ProcessName r);
     h_ProcessPath := norm (h_ProcessPath r);
     h_ProcessPathRegex := norm (h_ProcessPathRegex r);
     h_PackageName := norm (h_PackageName r);
     h_PackageNameRegex := norm (h_PackageNameRegex r);
     h_NetworkType := norm (h_NetworkType r);
     h_NetworkIsExpensive := h_NetworkIsExpensive r;
     h_NetworkIsConstrained := h_NetworkIsConstrained r;
     h_WIFISSID := norm (h_WIFISSID r);
     h_WIFIBSSID := norm (h_WIFIBSSID r);
     h_NetworkInterfaceAddress := compiledEntries (h_NetworkInterfaceAddress r);
     h_DefaultInterfaceAddress := compiledPrefixes (elems (h_DefaultInterfaceAddress r));
     h_Invert := h_Invert r;
     h_DomainMatcher :=
       if nonempty (elems (h_Domain r)) || nonempty (elems (h_DomainSuffix r))
       then Some (domain_NewMatcher (elems (h_Domain r)) (elems (h_DomainSuffix r))
                    (generateVersion =? RuleSetVersion1))
       else None;
     h_SourceIPSet := compiledSet (elems (h_SourceIPCIDR r));
     h_IPSet := compiledSet (elems (h_IPCIDR r));
     h_AdGuardDomain := None;
     h_AdGuardDomainMatcher :=
       if nonempty (elems (h_AdGuardDomain r))
       then Some (domain_NewAdGuardMatcher (elems (h_AdGuardDomain r))) else None |}.

Fixpoint compiled (generateVersion : N) (rule : HeadlessRuleOptions) : HeadlessRuleOptions :=
  match rule with
  | mkHeadlessRule type_ defaultOptions mode rules invert =>
      if bool_decide (type_ = RuleTypeDefault)
      then mkHeadlessRule RuleTypeDefault (compiledDefault generateVersion defaultOptions) "" [] false
      else mkHeadlessRule RuleTypeLogical DefaultHeadlessRuleZero mode
             (map (compiled generateVersion) rules) invert
  end.

(** A rule whose parts fit the format. *)
Record default_fits (r : DefaultHeadlessRule) : Prop := {
  fits_QueryType : uint16s_fit (h_QueryType r);
  fits_Network : strings_fit (h_Network r);
  fits_DomainKeyword : strings_fit (h_DomainKeyword r);
  fits_DomainRegex : strings_fit (h_DomainRegex r);
  fits_SourceIPCIDR : forall set, buildSet (elems (h_SourceIPCIDR r)) = Ok set -> ipSet_fits set;
  fits_IPCIDR : forall set, buildSet (elems (h_IPCIDR r)) = Ok set -> ipSet_fits set;
  fits_SourcePort : uint16s_fit (h_SourcePort r);
  fits_SourcePortRange : strings_fit (h_SourcePortRange r);
  fits_Port : uint16s_fit (h_Port r);
  fits_PortRange : strings_fit (h_PortRange r);
  fits_ProcessName : strings_fit (h_ProcessName r);
  fits_ProcessPath : strings_fit (h_ProcessPath r);
  fits_ProcessPathRegex : strings_fit (h_ProcessPathRegex r);
  fits_PackageName : strings_fit (h_PackageName r);
  fits_PackageNameRegex : strings_fit (h_PackageNameRegex r);
  fits_NetworkType : fits (length (elems (h_NetworkType r))) 1 /\
    Forall (fun v => v < 256) (elems (h_NetworkType r));
  fits_WIFISSID : strings_fit (h_WIFISSID r);
  fits_WIFIBSSID : strings_fit (h_WIFIBSSID r);
  fits_NetworkInterfaceAddress :
    N.of_nat (length (default [] (h_NetworkInterfaceAddress r))) < 2 ^ 64 /\
    NoDup (default [] (h_NetworkInterfaceAddress r)).*1 /\
    Forall (fun entry => entry.1 < 256 /\ prefixes_fit (elems entry.2))
      (default [] (h_NetworkInterfaceAddress r));
  fits_DefaultInterfaceAddress : prefixes_fit (elems (h_DefaultInterfaceAddress r));
}.

Fixpoint rule_fits (rule : HeadlessRuleOptions) : Prop :=
  match rule with
  | mkHeadlessRule _ defaultOptions _ rules _ =>
      default_fits defaultOptions /\ fits (length rules) sizeof_HeadlessRule /\
      foldr (fun rule P => rule_fits rule /\ P) True rules
  end.

(** ** Elements *)

Lemma maxAlloc_64 (n : N) : n <= maxAlloc -> n < 2 ^ 64.
Proof. unfold maxAlloc. intros H. eapply N.le_lt_trans; [exact H|done]. Qed.

Lemma fits_count (n : nat) (size : N) : fits n size -> 0 < size -> N.of_nat n < 2 ^ 64.
Proof. unfold fits. intros H Hs. apply maxAlloc_64. nia. Qed.

Lemma reads_WriteUvarint (n : N) : n < 2 ^ 64 -> reads ReadUvarint (varbin_WriteUvarint n) n.
Proof. intros H. rewrite WriteUvarint_spec by done. by apply reads_Uvarint. Qed.

(** A count, the allocation of that many elements, and the elements. *)
Lemma reads_counted {B} (n : nat) (size : N) (m : N -> Reader B) bytes b :
  fits n size -> 0 < size -> reads (m (N.of_nat n)) bytes b ->
  reads (length ← ReadUvarint; _ ← make_slice size length; m length)
    (varbin_WriteUvarint (N.of_nat n) ++ bytes) b.
Proof.
  intros Hf Hs Hm. eapply reads_bind; [by apply reads_WriteUvarint, (fits_count n size)|].
  eapply reads_bind_nil; [by apply reads_make_slice|]. done.
Qed.

Lemma reads_readBytes (l : list byte) : fits (length l) 1 -> reads readBytes (writeBytes l) l.
Proof. intros H. apply reads_counted; [done|done|]. by apply reads_ReadFull. Qed.

Lemma reads_readString (s : string) : string_fits s -> reads readString (writeString s) s.
Proof.
  intros H. apply (reads_counted _ 1); [done|done|].
  eapply reads_bind_ret; [by apply reads_ReadFull|].
  rewrite string_of_bytes_of_string. apply reads_ret.
Qed.

Lemma WriteUvarint_nonempty (n : N) : n < 2 ^ 64 -> varbin_WriteUvarint n <> [].
Proof. intros H. rewrite WriteUvarint_spec by done. apply put_uvarint_nonempty. lia. Qed.

Lemma app_nonempty {B} (l k : list B) : l <> [] -> l ++ k <> [].
Proof. by destruct l. Qed.

(** A counted list of elements that are written by [encode]. *)
Lemma reads_elements {B} (l : list B) (size : N) (elem : Reader B) (encode : B -> list byte) :
  fits (length l) size -> 0 < size ->
  Forall (fun x => reads elem (encode x) x /\ encode x <> []) l ->
  reads (length ← ReadUvarint; _ ← make_slice size length; read_n length (fun _ => elem))
    (varbin_WriteUvarint (N.of_nat (length l)) ++ flat_map encode l) l.
Proof.
  intros Hf Hs Hl. apply (reads_counted _ size _ _ _ Hf Hs).
  apply reads_read_n; [| |done]; (eapply Forall_impl; [|exact Hl]); intros x [? ?]; auto.
Qed.

Lemma reads_strings (l : list string) :
  fits (length l) sizeof_string -> Forall string_fits l ->
  reads readRuleItemString (varbin_WriteUvarint (N.of_nat (length l)) ++ flat_map writeString l) l.
Proof.
  intros Hf Hl. apply reads_elements; [done|done|]. eapply Forall_impl; [|exact Hl].
  intros s Hs. split; [by apply reads_readString|].
  apply app_nonempty, WriteUvarint_nonempty, (fits_count _ 1); done.
Qed.

Lemma reads_uint16_item (l : list N) :
  fits (length l) 2 -> Forall (fun v => v < 65536) l ->
  reads readRuleItemUint16 (varbin_WriteUvarint (N.of_nat (length l)) ++ encode_uint16s l) l.
Proof. intros Hf Hl. apply (reads_counted _ 2); [done|done|]. by apply reads_uint16s. Qed.

Lemma reads_uint8_item (l : list N) :
  fits (length l) 1 -> Forall (fun v => v < 256) l ->
  reads readRuleItemUint8 (varbin_WriteUvarint (N.of_nat (length l)) ++ map byte_of_N l) l.
Proof.
  intros Hf Hl. apply (reads_counted _ 1); [done|done|].
  eapply reads_bind_ret; [apply reads_ReadFull; by rewrite length_map|].
  replace (map Byte.to_N (map byte_of_N l)) with l; [apply reads_ret|].
  induction Hl as [|v l Hv _ IH]; [done|]. simpl. by rewrite to_N_byte_of_N, N.mod_small, <- IH by
    (try done; unfold fits in *; simpl in *; lia).
Qed.

Lemma AsSlice_fits (a : Addr) : fits (length (AsSlice a)) 1.
Proof. destruct a; [done| |]; simpl; by rewrite ?length_be_encode. Qed.

Lemma AddrFromIP_AsSlice (a : Addr) : wf_plain_addr a -> M_AddrFromIP (AsSlice a) = a.
Proof. intros [Hw Hz]. by rewrite AddrFromIP_spec, AddrFromSlice_AsSlice, Hz. Qed.

Lemma reads_readPrefix (p : Prefix) : wf_prefix p -> reads readPrefix (writePrefix p) p.
Proof.
  intros [Ha Hb]. eapply reads_bind; [apply reads_readBytes, AsSlice_fits|].
  assert (Z.to_N (Bits p mod 256) < 256) as Hlt.
  { assert (0 <= Bits p mod 256 < 256)%Z by (apply Z.mod_pos_bound; lia). lia. }
  eapply reads_bind_ret; [by apply reads_ReadByte|].
  rewrite AddrFromIP_AsSlice by done.
  replace (PrefixFrom (ip p) (Z.of_N (Z.to_N (Bits p mod 256)))) with p; [apply reads_ret|].
  destruct p as [a b]. unfold PrefixFrom, Bits. simpl in *. destruct Ha as [_ ->]. f_equal.
  assert (BitLen a <= 128) as Hbits by by destruct a. destruct (IsValid a) eqn:Hv; simpl andb.
  - destruct (decide (b = 0)) as [->|Hne].
    + change (Z.to_N ((Z.of_N 0 - 1) mod 256)) with 255.
      destruct (Z.leb_spec (Z.of_N 255) (Z.of_N (BitLen a))); [lia|]. by rewrite andb_false_r.
    + rewrite Z.mod_small by lia. rewrite Z2N.id by lia.
      rewrite !(proj2 (Z.leb_le _ _)) by lia. simpl. lia.
  - apply N.le_0_r. done.
Qed.

Lemma writeBytes_nonempty (l : list byte) : fits (length l) 1 -> writeBytes l <> [].
Proof. intros H. apply app_nonempty, WriteUvarint_nonempty, (fits_count _ 1); done. Qed.

Lemma reads_readIPSet (set : IPSet) : ipSet_fits set -> reads readIPSet (writeIPSet set) set.
Proof.
  intros [Hf Hs]. unfold writeIPSet.
  change (x01 :: ?l) with ([byte_of_N 1] ++ l).
  eapply reads_bind; [by apply reads_ReadByte|]. simpl negb. cbv iota.
  eapply reads_bind; [by apply reads_uint64, (fits_count _ sizeof_myIPRange)|].
  eapply reads_bind_nil; [by apply reads_make_slice|].
  apply reads_read_n; [| |done]; (eapply Forall_impl; [|exact Hs]); intros [a b] [Ha Hb].
  - intros _. eapply reads_bind; [apply reads_readBytes, AsSlice_fits|].
    eapply reads_bind_ret; [apply reads_readBytes, AsSlice_fits|].
    rewrite !AddrFromIP_AsSlice by done. apply reads_ret.
  - apply app_nonempty, writeBytes_nonempty, AsSlice_fits.
Qed.

(** The prefixes come back built. *)
Lemma reads_readPrefixes (l : list (option Prefix)) :
  prefixes_fit l -> reads readPrefixes (writePrefixes l) (compiledPrefixes l).
Proof.
  intros [Hn Hl]. eapply reads_bind; [by apply reads_WriteUvarint|].
  apply (reads_bind_ret _ _ _ (map (fun raw => Prefixable_Build raw PrefixZero) l)).
  - apply reads_read_n_map; [| |done]; (eapply Forall_impl; [|exact Hl]); intros p Hp.
    + intros _. by apply reads_readPrefix.
    + apply app_nonempty, writeBytes_nonempty, AsSlice_fits.
  - unfold compiledPrefixes. rewrite map_map. destruct l; apply reads_ret.
Qed.

Lemma reads_readInterfaceEntry (entry : InterfaceType * slice (option Prefix)) :
  entry.1 < 256 -> prefixes_fit (elems entry.2) ->
  reads readInterfaceEntry (writeInterfaceEntry entry) (compiledEntry entry).
Proof.
  intros Hk Hv. unfold writeInterfaceEntry. change (byte_of_N entry.1 :: ?l) with ([byte_of_N entry.1] ++ l).
  eapply reads_bind; [by apply reads_uint8|].
  eapply reads_bind_ret; [by apply reads_readPrefixes|]. apply reads_ret.
Qed.

(** ** The item loop *)

(** From [rule], the loop consumes [bytes] and goes on from [rule']. *)
Definition advances (rule rule' : DefaultHeadlessRule) (bytes : list byte) : Prop :=
  forall fuel last rest, (length (bytes ++ rest) < fuel)%nat ->
  exists fuel' last', (length rest < fuel')%nat /\
    readItems fuel false last rule (bytes ++ rest) = readItems fuel' false last' rule' rest.

Lemma advances_app r1 r2 r3 b1 b2 :
  advances r1 r2 b1 -> advances r2 r3 b2 -> advances r1 r3 (b1 ++ b2).
Proof.
  intros H1 H2 fuel last rest Hf. rewrite <- (assoc_L (++)) in Hf |- *.
  destruct (H1 fuel last (b2 ++ rest) Hf) as (fuel1 & last1 & Hf1 & ->).
  destruct (H2 fuel1 last1 rest Hf1) as (fuel2 & last2 & Hf2 & ->). eauto.
Qed.

Lemma advances_nil r : advances r r [].
Proof. intros fuel last rest Hf. eauto. Qed.

Lemma advances_item (itemType : N) bytes rule rule' :
  itemType < 255 -> (forall last, reads (readItem false itemType last rule) bytes rule') ->
  advances rule rule' (byte_of_N itemType :: bytes).
Proof.
  intros Ht Hr fuel last rest Hf. destruct fuel as [|fuel]; [simpl in Hf; lia|].
  exists fuel, itemType. split; [simpl in Hf; rewrite length_app in Hf; lia|].
  cbn [readItems]. change (byte_of_N itemType :: bytes) with ([byte_of_N itemType] ++ bytes).
  rewrite <- (assoc_L (++)). unfold mbind at 1, Reader_bind at 1.
  rewrite reads_uint8 by lia. change ruleItemFinal with 255.
  rewrite (proj2 (N.eqb_neq itemType 255)) by lia.
  unfold mbind, Reader_bind. by rewrite Hr.
Qed.

(** An item that the writer skips when it is not configured. *)
Lemma advances_if {B} (b : bool) (itemType : N) (m : Reader B) bytes x rule
    (set : DefaultHeadlessRule -> B -> DefaultHeadlessRule) rule' :
  itemType < 255 ->
  (forall last, readItem false itemType last rule = (v ← m; mret (set rule v))) ->
  (b = true -> reads m bytes x) ->
  rule' = (if b then set rule x else rule) ->
  advances rule rule' (writeIf b (byte_of_N itemType :: bytes)).
Proof.
  intros Ht Hitem Hm ->. unfold writeIf. destruct b; [|apply advances_nil].
  apply advances_item; [done|]. intros last. rewrite Hitem.
  eapply reads_bind_ret; [by apply Hm|apply reads_ret].
Qed.

Lemma norm_elems {B} (s : slice B) :
  norm s = if nonempty (elems s) then Some (elems s) else None.
Proof. unfold norm. by destruct s. Qed.

Lemma advances_strings (itemType : N) (value : slice string) rule
    (set : DefaultHeadlessRule -> slice string -> DefaultHeadlessRule) :
  itemType < 255 ->
  (forall last, readItem false itemType last rule
    = (v ← readRuleItemString; mret (set rule (Some v)))) ->
  set rule None = rule -> strings_fit value ->
  advances rule (set rule (norm value)) (writeStrings itemType value).
Proof.
  intros Ht Hitem Hset [Hf Hl].
  eapply advances_if with (set := fun r v => set r (Some v)); [done|exact Hitem| |].
  - intros _. by apply reads_strings.
  - rewrite norm_elems. by destruct (nonempty (elems value)).
Qed.

Lemma advances_uint16s (itemType : N) (value : slice N) rule
    (set : DefaultHeadlessRule -> slice N -> DefaultHeadlessRule) :
  itemType < 255 ->
  (forall last, readItem false itemType last rule
    = (v ← readRuleItemUint16; mret (set rule (Some v)))) ->
  set rule None = rule -> uint16s_fit value ->
  advances rule (set rule (norm value)) (writeUint16s itemType value).
Proof.
  intros Ht Hitem Hset [Hf Hl].
  eapply advances_if with (set := fun r v => set r (Some v)); [done|exact Hitem| |].
  - intros _. by apply reads_uint16_item.
  - rewrite norm_elems. by destruct (nonempty (elems value)).
Qed.

(** ** Items with a writer of their own *)

Lemma writeSince_Ok since v name b bytes out :
  writeSince since v name b bytes = Ok out -> out = writeIf b bytes.
Proof. unfold writeSince, writeIf. repeat case_bool; congruence. Qed.

Lemma writeSince_guard since v name b bytes out :
  writeSince since v name b bytes = Ok out -> b = true -> since <= v.
Proof. unfold writeSince. intros H ->. destruct (N.ltb_spec v since); [discriminate|done]. Qed.

Lemma writeCIDR_Ok name itemType value out :
  writeCIDR name itemType value = Ok out ->
  exists set, out = writeIf (nonempty value) (byte_of_N itemType :: writeIPSet set) /\
    (nonempty value = true -> buildSet value = Ok set).
Proof.
  unfold writeCIDR, writeRuleItemCIDR, buildSet, writeIf. destruct (nonempty value).
  - intros H. inv_ok. eexists. split; [by symmetry|]. intros _. simplify_eq/=.
    by match goal with H : parse_prefixes _ _ = Ok _ |- _ => rewrite H end.
  - intros [= <-]. by exists [].
Qed.

Lemma fold_Put_fresh {V} (l m : list (InterfaceType * V)) :
  NoDup (m ++ l).*1 -> fold_left (fun m '(k, v) => TypedMap_Put m k v) l m = m ++ l.
Proof.
  revert m. induction l as [|[k v] l IH]; intros m Hd; simpl; [by rewrite app_nil_r|].
  rewrite TypedMap_Put_fresh.
  - rewrite IH; by rewrite <- (assoc_L (++)).
  - rewrite fmap_app in Hd. simpl in Hd. apply list.NoDup_app in Hd as (_ & Hd & _).
    intros Hk. apply (Hd k Hk). by left.
Qed.

Lemma compiledEntry_keys l : (map compiledEntry l).*1 = l.*1.
Proof. induction l as [|e l IH]; simpl; [done|]. by f_equal. Qed.

Lemma reads_interface_entries {B} (l : list (InterfaceType * slice (option Prefix)))
    (use : list (InterfaceType * slice (option Prefix)) -> B) :
  N.of_nat (length l) < 2 ^ 64 ->
  Forall (fun entry => entry.1 < 256 /\ prefixes_fit (elems entry.2)) l ->
  reads (size ← ReadUvarint; entries ← read_n size (fun _ => readInterfaceEntry); mret (use entries))
    (varbin_WriteUvarint (N.of_nat (length l)) ++ flat_map writeInterfaceEntry l)
    (use (map compiledEntry l)).
Proof.
  intros Hn Hl. eapply reads_bind; [by apply reads_WriteUvarint|].
  eapply reads_bind_ret; [|apply reads_ret].
  apply reads_read_n_map; [| |done]; (eapply Forall_impl; [|exact Hl]); intros entry [Hk Hv].
  - intros _. by apply reads_readInterfaceEntry.
  - done.
Qed.

(** The last two bytes of a rule. *)
Lemma readItems_final fuel last rule (invert : bool) rest :
  (0 < fuel)%nat ->
  readItems fuel false last rule
    ([byte_of_N ruleItemFinal; byte_of_N (if invert then 1 else 0)] ++ rest)
  = Some (Ok ({| rule with h_Invert := invert |}, rest)).
Proof.
  destruct fuel as [|fuel]; [lia|]. intros _. cbn [readItems app].
  change (byte_of_N ruleItemFinal :: ?l) with ([byte_of_N ruleItemFinal] ++ l).
  unfold mbind, Reader_bind. rewrite reads_uint8 by done. rewrite N.eqb_refl.
  change (byte_of_N (if invert then 1 else 0) :: rest)
    with ([byte_of_N (if invert then 1 else 0)] ++ rest).
  by rewrite reads_bool.
Qed.

(** Reads one item of the chain that [writeDefaultRule] writes. *)
Ltac next_item tac := eapply advances_app; [tac|cbn [
    h_QueryType h_Network h_Domain h_DomainSuffix h_DomainKeyword h_DomainRegex h_SourceIPCIDR
    h_IPCIDR h_SourcePort h_SourcePortRange h_Port h_PortRange h_ProcessName h_ProcessPath
    h_ProcessPathRegex h_PackageName h_PackageNameRegex h_NetworkType h_NetworkIsExpensive
    h_NetworkIsConstrained h_WIFISSID h_WIFIBSSID h_NetworkInterfaceAddress
    h_DefaultInterfaceAddress h_Invert h_DomainMatcher h_SourceIPSet h_IPSet h_AdGuardDomain
    h_AdGuardDomainMatcher]].
Ltac advance lemma itemType update F :=
  apply (lemma itemType) with (set := update); [done|done|done|apply F].

(** An item whose field is an option that the writer omits. *)
Lemma advances_option {B} (b : bool) (itemType : N) (m : Reader B) bytes x rule
    (set : DefaultHeadlessRule -> option B -> DefaultHeadlessRule) :
  itemType < 255 ->
  (forall last, readItem false itemType last rule = (v ← m; mret (set rule (Some v)))) ->
  set rule None = rule -> (b = true -> reads m bytes x) ->
  advances rule (set rule (if b then Some x else None)) (writeIf b (byte_of_N itemType :: bytes)).
Proof.
  intros Ht Hitem Hset Hm.
  eapply advances_if with (set := fun r v => set r (Some v)); [done|exact Hitem|exact Hm|].
  by destruct b.
Qed.

Lemma advances_flag (b : bool) (itemType : N) rule
    (set : DefaultHeadlessRule -> bool -> DefaultHeadlessRule) :
  itemType < 255 -> (forall last, readItem false itemType last rule = mret (set rule true)) ->
  set rule false = rule -> advances rule (set rule b) (writeIf b [byte_of_N itemType]).
Proof.
  intros Ht Hitem Hset.
  eapply (advances_if b itemType (mret tt) [] tt rule (fun r _ => set r true));
    [done|intros last; by rewrite Hitem|intros _; apply reads_ret|by destruct b].
Qed.

Lemma compiledSet_eq (value : list string) (set : IPSet) :
  (nonempty value = true -> buildSet value = Ok set) ->
  compiledSet value = if nonempty value then Some set else None.
Proof. unfold compiledSet. destruct (nonempty value); [by intros ->|done]. Qed.

Lemma reads_external {B} (f : list byte -> result (B * list byte)) (write : B -> list byte) x :
  (forall x rest, f (write x ++ rest) = Ok (x, rest)) -> reads (external f) (write x) x.
Proof. intros H rest. unfold external. by rewrite H. Qed.

Lemma advances_interface rule (value : option (list (InterfaceType * slice (option Prefix)))) :
  h_NetworkInterfaceAddress rule = None ->
  N.of_nat (length (default [] value)) < 2 ^ 64 /\ NoDup (default [] value).*1 /\
    Forall (fun entry => entry.1 < 256 /\ prefixes_fit (elems entry.2)) (default [] value) ->
  advances rule {| rule with h_NetworkInterfaceAddress := compiledEntries value |}
    (writeIf (nonempty (default [] value))
      (byte_of_N ruleItemNetworkInterfaceAddress
       :: varbin_WriteUvarint (N.of_nat (length (default [] value)))
       ++ flat_map writeInterfaceEntry (default [] value))).
Proof.
  intros Hn (Hl & Hd & Hf). unfold compiledEntries, writeIf.
  destruct (nonempty (default [] value)).
  - apply advances_item; [done|]. intros last.
    pose proof (fold_Put_fresh (map compiledEntry (default [] value)) []) as Hput.
    cbn [app] in Hput. rewrite <- Hput.
    + by apply (reads_interface_entries _ (fun entries => {| rule with h_NetworkInterfaceAddress :=
        Some (fold_left (fun m '(k, v) => TypedMap_Put m k v) entries []) |})).
    + by rewrite compiledEntry_keys.
  - destruct rule. simpl in Hn. subst. apply advances_nil.
Qed.

Lemma advances_default_interface rule (value : list (option Prefix)) :
  h_DefaultInterfaceAddress rule = None -> prefixes_fit value ->
  advances rule {| rule with h_DefaultInterfaceAddress := compiledPrefixes value |}
    (writeIf (nonempty value) (byte_of_N ruleItemDefaultInterfaceAddress :: writePrefixes value)).
Proof.
  intros Hn Hf. eapply (advances_if _ ruleItemDefaultInterfaceAddress readPrefixes _
    (compiledPrefixes value) rule (fun r v => {| r with h_DefaultInterfaceAddress := v |}));
    [done|done|intros _; by apply reads_readPrefixes|].
  destruct rule. simpl in Hn. subst. by destruct value.
Qed.

(** What the writer wrote before the final item is read back into the compiled
    rule, still without its [invert]. *)
Lemma advances_default (v : N) (r : DefaultHeadlessRule) bytes :
  default_fits r -> writeDefaultRule r v = Ok bytes ->
  exists items, bytes = x00 :: items ++ [byte_of_N ruleItemFinal; byte_of_N (if h_Invert r then 1 else 0)]
    /\ exists r', {| r' with h_Invert := h_Invert r |} = compiledDefault v r /\
       advances DefaultHeadlessRuleZero r' items.
Proof.
  intros F Hw. unfold writeDefaultRule in Hw. inv_ok. subst bytes.
  repeat match goal with
  | H : writeSince _ _ _ _ _ = Ok _ |- _ => apply writeSince_Ok in H; subst
  end.
  repeat match goal with
  | H : writeCIDR _ _ _ = Ok _ |- _ => apply writeCIDR_Ok in H as (? & -> & ?)
  end.
  eexists. split; [cbn [app]; f_equal; rewrite !(assoc_L (++)); reflexivity|].
  rewrite <- !(assoc_L (++)). eexists. split; cycle 1.
  { next_item ltac:(advance advances_uint16s ruleItemQueryType (fun r v => {| r with h_QueryType := v |}) F).
  next_item ltac:(advance advances_strings ruleItemNetwork (fun r v => {| r with h_Network := v |}) F).
  next_item ltac:(eapply (advances_option _ ruleItemDomain) with (set := fun r v => {| r with h_DomainMatcher := v |});
    [done|done|done|intros _; apply reads_external, ReadMatcher_Write]).
  next_item ltac:(advance advances_strings ruleItemDomainKeyword (fun r v => {| r with h_DomainKeyword := v |}) F).
  next_item ltac:(advance advances_strings ruleItemDomainRegex (fun r v => {| r with h_DomainRegex := v |}) F).
  next_item ltac:(eapply (advances_option _ ruleItemSourceIPCIDR) with (set := fun r v => {| r with h_SourceIPSet := v |});
    [done|done|done|intros Hne; eapply reads_readIPSet, (fits_SourceIPCIDR r F); eauto]).
  next_item ltac:(eapply (advances_option _ ruleItemIPCIDR) with (set := fun r v => {| r with h_IPSet := v |});
    [done|done|done|intros Hne; eapply reads_readIPSet, (fits_IPCIDR r F); eauto]).
  next_item ltac:(advance advances_uint16s ruleItemSourcePort (fun r v => {| r with h_SourcePort := v |}) F).
  next_item ltac:(advance advances_strings ruleItemSourcePortRange (fun r v => {| r with h_SourcePortRange := v |}) F).
  next_item ltac:(advance advances_uint16s ruleItemPort (fun r v => {| r with h_Port := v |}) F).
  next_item ltac:(advance advances_strings ruleItemPortRange (fun r v => {| r with h_PortRange := v |}) F).
  next_item ltac:(advance advances_strings ruleItemProcessName (fun r v => {| r with h_ProcessName := v |}) F).
  next_item ltac:(advance advances_strings ruleItemProcessPath (fun r v => {| r with h_ProcessPath := v |}) F).
  next_item ltac:(advance advances_strings ruleItemProcessPathRegex (fun r v => {| r with h_ProcessPathRegex := v |}) F).
  next_item ltac:(advance advances_strings ruleItemPackageName (fun r v => {| r with h_PackageName := v |}) F).
  next_item ltac:(advance advances_strings ruleItemPackageNameRegex (fun r v => {| r with h_PackageNameRegex := v |}) F).
  next_item ltac:(eapply (advances_option _ ruleItemNetworkType) with (set := fun r v => {| r with h_NetworkType := v |});
    [done|done|done|intros _; apply reads_uint8_item; apply F]).
  next_item ltac:(apply (advances_flag _ ruleItemNetworkIsExpensive) with (set := fun r v => {| r with h_NetworkIsExpensive := v |}); done).
  next_item ltac:(apply (advances_flag _ ruleItemNetworkIsConstrained) with (set := fun r v => {| r with h_NetworkIsConstrained := v |}); done).
  next_item ltac:(by apply advances_interface, F).
  next_item ltac:(by apply advances_default_interface, F).
  next_item ltac:(advance advances_strings ruleItemWIFISSID (fun r v => {| r with h_WIFISSID := v |}) F).
  next_item ltac:(advance advances_strings ruleItemWIFIBSSID (fun r v => {| r with h_WIFIBSSID := v |}) F).
  eapply (advances_option _ ruleItemAdGuardDomain)
    with (set := fun r v => {| r with h_AdGuardDomainMatcher := v |});
    [done|done|done|intros _; apply reads_external, ReadAdGuardMatcher_Write]. }
  unfold compiledDefault. rewrite (norm_elems (h_NetworkType r)).
  erewrite (compiledSet_eq (elems (h_SourceIPCIDR r))) by eassumption.
  by erewrite (compiledSet_eq (elems (h_IPCIDR r))) by eassumption.
Qed.

Lemma reads_default (v : N) (r : DefaultHeadlessRule) bytes :
  default_fits r -> writeDefaultRule r v = Ok bytes ->
  exists body, bytes = x00 :: body /\ reads (readDefaultRule false) body (compiledDefault v r).
Proof.
  intros F Hw. destruct (advances_default v r bytes F Hw) as (items & -> & r' & <- & Ha).
  eexists. split; [done|]. intros rest. unfold readDefaultRule. rewrite <- (assoc_L (++)).
  destruct (Ha (S (length (items ++ [byte_of_N ruleItemFinal; byte_of_N (if h_Invert r then 1 else 0)]
    ++ rest))) 0 ([byte_of_N ruleItemFinal; byte_of_N (if h_Invert r then 1 else 0)] ++ rest)
    ltac:(lia)) as (fuel & last & Hf & ->).
  apply readItems_final. lia.
Qed.

(** ** Rules *)

Definition written (v : N) (rule : HeadlessRuleOptions) : list byte :=
  match writeRule rule v with Ok bytes => bytes | _ => [] end.

Lemma write_all_Ok (v : N) (rules : list HeadlessRuleOptions) bytes :
  write_all (fun rule => writeRule rule v) rules = Ok bytes ->
  bytes = flat_map (written v) rules /\
  Forall (fun rule => writeRule rule v = Ok (written v rule)) rules.
Proof.
  revert bytes. induction rules as [|rule rules IH]; intros bytes Hw; simpl in Hw.
  - by inv_ok.
  - inv_ok. subst. destruct (IH _ ltac:(eassumption)) as [-> Hall].
    assert (writeRule rule v = Ok (written v rule)) as Hr.
    { unfold written. by match goal with H : writeRule rule v = Ok _ |- _ => rewrite H end. }
    simplify_eq. simpl. split; [by repeat f_equal; congruence|by constructor].
Qed.

Lemma length_flat_map_In {A B} (f : A -> list B) (l : list A) :
  Forall (fun x => (length (f x) <= length (flat_map f l))%nat) l.
Proof.
  induction l as [|x l IH]; [constructor|]. simpl. rewrite length_app. constructor; [lia|].
  eapply Forall_impl; [|exact IH]. simpl. lia.
Qed.

(** A reader of rules over a list of written rules. *)
Lemma reads_rules (v : N) (rules : list HeadlessRuleOptions) (elem : N -> Reader HeadlessRuleOptions) :
  Forall (fun rule => writeRule rule v = Ok (written v rule)) rules ->
  Forall (fun rule => written v rule <> [] /\
    forall i, reads (elem i) (written v rule) (compiled v rule)) rules ->
  reads (read_n (N.of_nat (length rules)) elem) (flat_map (written v) rules)
    (map (compiled v) rules).
Proof.
  intros Hw Hr. apply reads_read_n_map; [| |done];
    (eapply Forall_impl; [|exact Hr]); intros rule [Hne H]; auto.
Qed.

Lemma reads_rule (v : N) (rule : HeadlessRuleOptions) bytes fuel :
  rule_fits rule -> writeRule rule v = Ok bytes -> (length bytes < fuel)%nat ->
  bytes <> [] /\ reads (readRule fuel false) bytes (compiled v rule).
Proof.
  revert bytes fuel. induction rule as [type_ options mode rules IH invert]; intros bytes fuel.
  apply list_all_Forall in IH. cbn [rule_fits writeRule compiled]. intros (Fd & Fr & Fn) Hw Hf.
  destruct fuel as [|fuel]; [lia|]. case_bool_decide as Hd; [|case_bool_decide as Hl; [|done]].
  - destruct (reads_default v options bytes Fd Hw) as (body & -> & Hb). split; [done|].
    change (x00 :: body) with ([byte_of_N 0] ++ body). cbn [readRule].
    eapply reads_bind; [by apply reads_uint8|]. simpl N.eqb. cbv iota.
    eapply reads_bind_ret; [exact Hb|apply reads_ret].
  - apply bind_Ok_inv in Hw as (modeByte & Hm & Hw).
    apply bind_Ok_inv in Hw as (nested & Hn & Hw). inv_ok. subst bytes. split; [done|].
    apply write_all_Ok in Hn as [-> Hall]. cbn [readRule].
    change (x01 :: byte_of_N modeByte :: ?l) with ([byte_of_N 1] ++ [byte_of_N modeByte] ++ l).
    eapply reads_bind; [by apply reads_uint8|]. simpl N.eqb. cbv iota.
    assert (modeByte < 256 /\ (negb (modeByte =? 0) && negb (modeByte =? 1)) = false /\
      (if modeByte =? 0 then LogicalTypeAnd else LogicalTypeOr) = mode) as (Hm1 & Hm2 & Hm3).
    { repeat case_bool_decide; simplify_eq/=; done. }
    eapply reads_bind; [by apply reads_ReadByte|]. rewrite Hm2, Hm3. cbv iota.
    eapply reads_bind; [by apply reads_WriteUvarint, (fits_count _ sizeof_HeadlessRule)|].
    eapply reads_bind_nil; [by apply reads_make_slice|].
    eapply reads_bind; [|eapply reads_bind_ret; [apply reads_bool|apply reads_ret]].
    apply reads_rules; [done|]. apply foldr_Forall in Fn.
    apply List.Forall_forall. intros rule Hin. rewrite List.Forall_forall in IH, Fn, Hall.
    pose proof (length_flat_map_In (written v) rules) as Hlen. rewrite List.Forall_forall in Hlen.
    specialize (Hlen rule Hin). simpl in Hf. rewrite !length_app in Hf.
    destruct (IH rule Hin (written v rule) fuel (Fn rule Hin) (Hall rule Hin) ltac:(lia)) as [Hne Hr].
    split; [done|]. intros i. by apply reads_cause.
Qed.

(** ** The readers return

    On every input, however damaged, fuel above its length is enough. *)

Lemma keeps_external {B} (f : list byte -> result (B * list byte)) :
  (forall input x rest, f input = Ok (x, rest) -> (length rest <= length input)%nat) ->
  keeps (external f).
Proof. intros H input x rest [= Hf]. by eapply H. Qed.
Lemma returns_external {B} k (f : list byte -> result (B * list byte)) : returns k (external f).
Proof. done. Qed.

Lemma keeps_ReadMatcher : keeps (external domain_ReadMatcher).
Proof. apply keeps_external, ReadMatcher_consumes. Qed.
Lemma keeps_ReadAdGuardMatcher : keeps (external domain_ReadAdGuardMatcher).
Proof. apply keeps_external, ReadAdGuardMatcher_consumes. Qed.

#[local] Hint Resolve keeps_ReadMatcher keeps_ReadAdGuardMatcher returns_external : kernel.
#[local] Hint Extern 5 (keeps _) => apply keeps_bind : kernel.
#[local] Hint Extern 5 (shrinks _) => apply shrinks_bind : kernel.
#[local] Hint Extern 5 (returns _ _) => apply returns_bind : kernel.

Lemma progress_readString k : shrinks readString /\ returns k readString.
Proof. unfold readString. split; auto 10 with kernel. Qed.
Lemma progress_readBytes k : shrinks readBytes /\ returns k readBytes.
Proof. unfold readBytes. split; auto 10 with kernel. Qed.

Lemma progress_strings k : keeps readRuleItemString /\ returns k readRuleItemString.
Proof.
  destruct (progress_readString k) as [Hs Hr]. unfold readRuleItemString. split; auto 10 with kernel.
Qed.
Lemma progress_uint8s k : keeps readRuleItemUint8 /\ returns k readRuleItemUint8.
Proof. unfold readRuleItemUint8. split; auto 10 with kernel. Qed.
Lemma progress_uint16s k : keeps readRuleItemUint16 /\ returns k readRuleItemUint16.
Proof. unfold readRuleItemUint16. split; auto 10 with kernel. Qed.

Lemma progress_readPrefix k : shrinks readPrefix /\ returns k readPrefix.
Proof.
  destruct (progress_readBytes k) as [Hs Hr]. unfold readPrefix. split; auto 10 with kernel.
Qed.
Lemma progress_readIPSet k : keeps readIPSet /\ returns k readIPSet.
Proof.
  destruct (progress_readBytes k) as [Hs Hr].
  assert (shrinks readIPRange /\ returns k readIPRange) as [Hs' Hr'].
  { unfold readIPRange. split; auto 10 with kernel. }
  unfold readIPSet. split.
  - apply keeps_bind; [auto with kernel|]. intros version. case_bool; auto 10 with kernel.
  - apply returns_bind; [auto with kernel..|]. intros version. case_bool; auto 10 with kernel.
Qed.
Lemma progress_readPrefixes k : keeps readPrefixes /\ returns k readPrefixes.
Proof.
  destruct (progress_readPrefix k) as [Hs Hr]. unfold readPrefixes. split; auto 10 with kernel.
Qed.
Lemma progress_readInterfaceEntry k : shrinks readInterfaceEntry /\ returns k readInterfaceEntry.
Proof.
  destruct (progress_readPrefixes k) as [Hs Hr]. unfold readInterfaceEntry.
  split; auto 10 with kernel.
Qed.

Lemma progress_readItem k recover itemType last rule :
  keeps (readItem recover itemType last rule) /\ returns k (readItem recover itemType last rule).
Proof.
  destruct (progress_strings k), (progress_uint8s k), (progress_uint16s k), (progress_readIPSet k),
    (progress_readPrefixes k), (progress_readInterfaceEntry k).
  unfold readItem. repeat (case_bool; [split; auto 10 with kernel|]). split; auto 10 with kernel.
Qed.

Lemma progress_readItems fuel recover last rule :
  shrinks (readItems fuel recover last rule) /\ returns fuel (readItems fuel recover last rule).
Proof.
  revert last rule. induction fuel as [|fuel IH]; intros last rule.
  - split; [done|]. intros input Hin. lia.
  - cbn [readItems]. split.
    + apply shrinks_bind; [auto with kernel|]. intros itemType. case_bool; [auto 10 with kernel|].
      apply keeps_bind; [apply (progress_readItem 0)|]. intros r. apply shrinks_keeps, IH.
    + apply returns_bind_shrinks; [auto with kernel..|]. intros itemType.
      case_bool; [auto 10 with kernel|].
      apply returns_bind; [apply progress_readItem|apply (progress_readItem 0)|]. intros r. apply IH.
Qed.

Lemma progress_readDefaultRule k recover :
  shrinks (readDefaultRule recover) /\ returns k (readDefaultRule recover).
Proof.
  split.
  - intros input r rest. by apply progress_readItems.
  - intros input _. apply progress_readItems. lia.
Qed.

Lemma progress_readRule fuel recover :
  shrinks (readRule fuel recover) /\ returns fuel (readRule fuel recover).
Proof.
  induction fuel as [|fuel [IHs IHr]]; [split; [done|]; intros input Hin; lia|].
  destruct (progress_readDefaultRule fuel recover) as [Hs Hr].
  cbn [readRule]. split.
  - apply shrinks_bind; [auto with kernel|]. intros ruleType. repeat case_bool; auto 10 with kernel.
    apply keeps_bind; [auto with kernel|]. intros mode. case_bool; auto 12 with kernel.
  - apply returns_bind_shrinks; [auto with kernel..|]. intros ruleType.
    repeat case_bool; auto 10 with kernel.
    apply returns_bind; [auto with kernel..|]. intros mode. case_bool; [auto with kernel|].
    apply returns_bind; [auto with kernel..|]. intros n.
    apply returns_bind; [auto with kernel..|]. intros _.
    apply returns_bind; [auto 10 with kernel..|]. intros rules. auto 10 with kernel.
Qed.

(** ** The header *)

Lemma reads_readHeader (v : N) :
  v <= RuleSetVersionCurrent -> reads readHeader (MagicBytes ++ [byte_of_N v]) v.
Proof.
  unfold RuleSetVersionCurrent, RuleSetVersion5. intros Hv.
  eapply reads_bind; [by apply reads_ReadFull|]. rewrite bool_decide_eq_true_2 by done. cbn [negb].
  eapply reads_bind_ret; [apply reads_uint8; lia|].
  rewrite (proj2 (N.ltb_ge _ _)) by done. apply reads_ret.
Qed.

Lemma returns_readHeader k : returns k readHeader.
Proof.
  apply returns_bind; [auto with kernel..|]. intros magic.
  case_bool; [auto with kernel|]. apply returns_bind; [auto with kernel..|]. intros version.
  case_bool; auto with kernel.
Qed.

Lemma read_written (rules : PlainRuleSet) (v : N) bytes :
  Forall rule_fits rules -> fits (length rules) sizeof_HeadlessRule ->
  v <= RuleSetVersionCurrent -> Write rules v = Ok bytes ->
  Read false bytes = Some (Ok (v, map (compiled v) rules)).
Proof.
  intros Hr Hf Hv Hw. apply bind_Ok_inv in Hw as (contents & Hc & Hw%Ok_inj).
  apply write_all_Ok in Hc as [-> Hall]. subst bytes.
  unfold RuleSetVersionCurrent, RuleSetVersion5 in Hv.
  unfold Read. rewrite (assoc_L (++)), reads_readHeader by done.
  rewrite zlib_Compress_spec.
  assert (reads (readRules false)
    (varbin_WriteUvarint (N.of_nat (length rules)) ++ flat_map (written v) rules)
    (map (compiled v) rules)) as Hreads.
  { apply (reads_counted _ sizeof_HeadlessRule); [done|done|]. apply reads_rules; [done|].
    apply List.Forall_forall. intros rule Hin. rewrite List.Forall_forall in Hr, Hall.
    split; [by eapply (reads_rule v rule _ (S (length (written v rule)))); auto|].
    intros i. apply reads_cause. intros rest.
    apply (reads_rule v rule); auto. rewrite length_app. lia. }
  specialize (Hreads []). rewrite app_nil_r in Hreads. by rewrite Hreads.
Qed.

End Facts.
