(* ===== verification/SrsTheorems.v ===== *)
(** * Correctness of the binary rule-set format

    What [Write] writes, [Read] reads back in compiled form; the reader returns on
    every input; the writer refuses items its format version does not have; a
    count beyond the address space makes the reader panic. *)

From S2P Require Import Prelude GoStd Metadata Binary Instances RuleItems Rules HeadlessOptions.
From S2P Require Import Srs SrsFacts.
From Stdlib Require Import Strings.Byte.
Import netip RuleItems Rules Srs.

Open Scope N_scope.

Section Theorems.
Context `{L : CodecLaws}.

(** C3: the rule-set compiler and the loader agree.  A rule-set whose parts fit
    the format, written for a supported version, is read back completely: the
    same version and, for every rule, its compiled form (matchers for domains and
    address sets, absent fields for empty lists, everything else as written). *)
Theorem srs_round_trip (rules : PlainRuleSet) (v : N) bytes :
  Forall rule_fits rules -> fits (length rules) sizeof_HeadlessRule ->
  v <= RuleSetVersionCurrent -> Write rules v = Ok bytes ->
  Read false bytes = Some (Ok (v, map (compiled v) rules)).
Proof. apply read_written. Qed.

(** The loader terminates.  On every input, however damaged, reading a binary
    rule-set returns: the fuel of the model, one more than the number of bytes,
    is never exhausted. *)
Theorem srs_read_terminates (recover : bool) (input : list byte) : Read recover input <> None.
Proof.
  unfold Read.
  destruct (readHeader input) as [[[version rest]| |]|] eqn:Hh; try done;
    [|by apply (returns_readHeader (S (length input)) input) in Hh; [|lia]].
  destruct (zlib_NewReader rest) as [contents| |]; try done.
  assert (readRules recover contents <> None) as Hr.
  { apply (returns_bind (S (length contents))); [auto with kernel..| |lia]. intros n.
    apply returns_bind; [auto with kernel..|]. intros _. apply returns_read_n; intros i.
    - apply shrinks_cause. intros inp r rest'. by apply progress_readRule.
    - apply returns_cause. intros inp Hin. apply progress_readRule. lia. }
  by destruct (readRules recover contents) as [[[? ?]| |]|].
Qed.

(** The compiler respects format versions.  When a default rule is written
    for a version, every configured item exists in that version; otherwise the
    writer returns an error instead of a file older readers misread. *)
Theorem srs_version_guards (r : DefaultHeadlessRule) (v : N) :
  is_ok (writeDefaultRule r v) = true ->
  (nonempty (elems (h_AdGuardDomain r)) = true -> RuleSetVersion2 <= v) /\
  (nonempty (elems (h_NetworkType r)) || h_NetworkIsExpensive r || h_NetworkIsConstrained r = true ->
   RuleSetVersion3 <= v) /\
  (nonempty (default [] (h_NetworkInterfaceAddress r))
   || nonempty (elems (h_DefaultInterfaceAddress r)) = true -> RuleSetVersion4 <= v) /\
  (nonempty (elems (h_PackageNameRegex r)) = true -> RuleSetVersion5 <= v).
Proof.
  destruct (writeDefaultRule r v) as [bytes| |] eqn:Hw; try done. intros _.
  unfold writeDefaultRule in Hw. inv_ok.
  repeat match goal with
  | H : writeSince _ _ _ _ _ = Ok _ |- _ => generalize (writeSince_guard _ _ _ _ _ _ H); clear H
  end.
  clear. intros. rewrite !orb_true_iff. tauto.
Qed.

(** An oversized count crashes the loader.  A file with a valid header whose
    rule count exceeds what [make] accepts makes [Read] panic, whatever follows:
    the count is not checked against the input. *)
Theorem srs_oversized_count_panics (recover : bool) (v n : N) (rest : list byte) :
  v <= RuleSetVersionCurrent -> n < 2 ^ 64 -> maxAlloc < n * sizeof_HeadlessRule ->
  Read recover (MagicBytes ++ [byte_of_N v] ++ zlib_Compress (varbin_WriteUvarint n ++ rest))
  = Some (Panic "makeslice: len out of range").
Proof.
  intros Hv Hn Hbig. unfold Read. rewrite (assoc_L (++)), reads_readHeader by done.
  rewrite zlib_Compress_spec. unfold readRules, mbind, Reader_bind.
  rewrite reads_WriteUvarint by done. unfold make_slice.
  by rewrite (proj2 (N.ltb_lt _ _)).
Qed.

End Theorems.

(** ** A concrete codec

    Strings as tagged bytes, streams stored without compression. *)

Definition sample_chars (l : list byte) : list byte := flat_map (fun b => [x01; b]) l.
Definition sample_encode (l : list string) : list byte :=
  flat_map (fun s => sample_chars (bytes_of_string s) ++ [x02]) l ++ [x00].

Fixpoint sample_decode (current : list byte) (acc : list string) (input : list byte)
  : result (list string * list byte) :=
  match input with
  | x00 :: rest => Ok (rev acc, rest)
  | x02 :: rest => sample_decode [] (string_of_bytes (rev current) :: acc) rest
  | x01 :: b :: rest => sample_decode (b :: current) acc rest
  | _ => Err ErrUnexpectedEOF
  end.

Definition sample_readMatcher (input : list byte)
  : result ((list string * list string) * list byte) :=
  match sample_decode [] [] input with
  | Ok (domains, rest) =>
      match sample_decode [] [] rest with
      | Ok (suffixes, rest) => Ok ((domains, suffixes), rest)
      | Err e => Err e
      | Panic msg => Panic msg
      end
  | Err e => Err e
  | Panic msg => Panic msg
  end.

Definition sample_put {V} (m : list (InterfaceType * V)) (k : InterfaceType) (v : V)
  : list (InterfaceType * V) :=
  if existsb (fun '(k', _) => k' =? k) m
  then map (fun '(k', v') => (k', if k' =? k then v else v')) m
  else m ++ [(k, v)].

Definition sampleCodec : @Codec sampleExternals :=
  @Build_Codec sampleExternals sample_readMatcher
    (fun m => sample_encode m.1 ++ sample_encode m.2) (fun m => (Some m.1, Some m.2))
    (sample_decode [] []) sample_encode Some (fun _ => []) PutUvarint (@sample_put) Ok id.

Lemma sample_decode_chars (l : list byte) current acc rest :
  sample_decode current acc (sample_chars l ++ x02 :: rest)
  = sample_decode [] (string_of_bytes (rev current ++ l) :: acc) rest.
Proof.
  revert current. induction l as [|b l IH]; intros current; simpl; [by rewrite app_nil_r|].
  rewrite IH. simpl. by rewrite <- (assoc_L (++)).
Qed.

Lemma sample_decode_encode (l : list string) acc rest :
  sample_decode [] acc (sample_encode l ++ rest) = Ok (rev acc ++ l, rest).
Proof.
  unfold sample_encode. revert acc. induction l as [|s l IH]; intros acc; cbn [flat_map app].
  - simpl. by rewrite app_nil_r.
  - rewrite <- !(assoc_L (++)). cbn [app]. rewrite sample_decode_chars.
    change (x00 :: rest) with ([x00] ++ rest). rewrite (assoc_L (++)), IH. simpl. rewrite string_of_bytes_of_string. by rewrite <- (assoc_L (++)).
Qed.

Lemma sample_decode_consumes (input : list byte) current acc l rest :
  sample_decode current acc input = Ok (l, rest) -> (length rest <= length input)%nat.
Proof.
  assert (forall n input current acc, (length input <= n)%nat ->
    sample_decode current acc input = Ok (l, rest) -> (length rest <= length input)%nat) as H.
  { clear. intros n. induction n as [|n IH]; intros [|b input] current acc Hn; simpl; try done;
      [simpl in Hn; lia|].
    simpl in Hn. destruct b; try done.
    - intros [= _ <-]. lia.
    - destruct input as [|c input]; [done|]. intros Hd. apply IH in Hd; simpl in *; lia.
    - intros Hd. apply IH in Hd; lia. }
  by apply (H (length input)).
Qed.

Lemma sampleLaws : @CodecLaws sampleExternals sampleCodec.
Proof.
  split; try done.
  - intros [domains suffixes] rest. simpl. unfold sample_readMatcher.
    by rewrite <- (assoc_L (++)), !sample_decode_encode.
  - intros input m rest. simpl. unfold sample_readMatcher.
    destruct (sample_decode [] [] input) as [[domains mid]| |] eqn:H1; try done.
    destruct (sample_decode [] [] mid) as [[suffixes rest']| |] eqn:H2; try done.
    intros [= _ <-]. apply sample_decode_consumes in H1, H2. lia.
  - intros m rest. apply sample_decode_encode.
  - intros input m rest. apply sample_decode_consumes.
  - intros V m k v Hk. simpl. unfold sample_put.
    rewrite (proj2 (existsb_false_iff _ m)); [done|]. apply List.Forall_forall.
    intros [k' v'] Hin. apply N.eqb_neq. intros ->. apply Hk, list_elem_of_fmap.
    exists (k, v'). split; [done|]. by apply list_elem_of_In.
Qed.

(** ** Witnesses *)

Section Witnesses.
#[local] Existing Instance sampleExternals.
#[local] Existing Instance sampleCodec.

Definition sampleDefault : DefaultHeadlessRule :=
  let r := DefaultHeadlessRuleZero in
  {| r with
     h_Domain := Some ["example.org"]; h_DomainKeyword := Some ["exam"; "ple"];
     h_IPCIDR := Some ["10.0.0.0/8"]; h_Port := Some [443; 8443];
     h_NetworkType := Some [InterfaceTypeWIFI]; h_NetworkIsExpensive := true;
     h_NetworkInterfaceAddress :=
       Some [(InterfaceTypeCellular, Some [Some (mkPrefix (Addr4 167772160) 9); None])];
     h_PackageNameRegex := Some ["org.example"]; h_Invert := true |}.

Definition sampleRules : PlainRuleSet :=
  [mkHeadlessRule RuleTypeLogical DefaultHeadlessRuleZero LogicalTypeOr
     [mkHeadlessRule RuleTypeDefault sampleDefault "" [] false;
      mkHeadlessRule RuleTypeDefault sampleDefault "" [] false] true].

(** Discharges the bounds of a concrete rule. *)
Ltac solve_fits :=
  constructor; unfold uint16s_fit, strings_fit, prefixes_fit, ipSet_fits;
  try (intros set [= <-]); cbn; repeat split;
  repeat first [done | constructor | progress vm_compute].

Lemma zero_fits : default_fits DefaultHeadlessRuleZero.
Proof. solve_fits. Qed.

Lemma sampleDefault_fits : default_fits sampleDefault.
Proof. solve_fits. by apply not_elem_of_nil. Qed.

Lemma srs_round_trip_witness :
  exists bytes, Write sampleRules 5 = Ok bytes /\
    Read false bytes = Some (Ok (5, map (compiled 5) sampleRules)).
Proof.
  eexists. split; [reflexivity|].
  apply (@srs_round_trip sampleExternals sampleCodec sampleLaws sampleRules 5); [|done|done|reflexivity].
  constructor; [|constructor]. cbn.
  repeat match goal with |- _ /\ _ => split end; try done; first [exact zero_fits | exact sampleDefault_fits].
Defined.

Lemma srs_read_terminates_witness : Read true [x53; x52; x53; x05; x02; x00] <> None.
Proof. exact (@srs_read_terminates sampleExternals sampleCodec sampleLaws true _). Defined.

Lemma srs_version_guards_witness : RuleSetVersion5 <= 5.
Proof.
  destruct (srs_version_guards sampleDefault 5) as (_ & _ & _ & H); [reflexivity|].
  by apply H.
Defined.

Lemma srs_oversized_count_panics_witness :
  Read false (MagicBytes ++ [x05] ++ PutUvarint (2 ^ 63)) = Some (Panic "makeslice: len out of range").
Proof.
  generalize (@srs_oversized_count_panics sampleExternals sampleCodec sampleLaws false 5 (2 ^ 63) []
    ltac:(done) ltac:(done) ltac:(done)).
  rewrite app_nil_r. done.
Defined.

End Witnesses.
