(* ===== verification/RuleFacts.v ===== *)
(** * What a rule matches

    The matching code of Rules.v works with sets of states and a mutable
    [DidMatch] flag.  This file gives it its meaning: the states a default rule
    reaches, the boolean formula of the documentation, and lemmas shared by the
    theorems of RuleTheorems.v. *)

From S2P Require Import Prelude GoStd Metadata MatchState RuleItems Rules.
Import MatchState RuleItems Rules.

Open Scope N_scope.

Section Facts.
Context `{E : Externals} {A S : Type}.
Variable net : Network.
Variable setStates : S -> InboundContext -> ruleMatchState -> ruleMatchStateSet.

(** ** The flag [DidMatch] is not read by items and groups *)

Definition setDidMatchIf (b : bool) (md : InboundContext) : InboundContext :=
  {| md with DidMatch := b || DidMatch md |}.

Lemma setDidMatchIf_false (md : InboundContext) : setDidMatchIf false md = md.
Proof. by destruct md. Qed.

Lemma setDidMatchIf_twice (a b : bool) (md : InboundContext) :
  setDidMatchIf a (setDidMatchIf b md) = setDidMatchIf (a || b) md.
Proof. unfold setDidMatchIf. simpl. by rewrite orb_assoc. Qed.

Lemma setDidMatch_If (b : bool) (md : InboundContext) :
  setDidMatch (setDidMatchIf b md) = setDidMatchIf true md.
Proof. done. Qed.

Lemma item_Match_DidMatch (b : bool) (it : RuleItem) (md : InboundContext) :
  item_Match net it (setDidMatchIf b md) = item_Match net it md.
Proof. done. Qed.

Lemma matchAnyItem_DidMatch (b : bool) (l : list RuleItem) (md : InboundContext) :
  matchAnyItem net l (setDidMatchIf b md) = matchAnyItem net l md.
Proof. done. Qed.

Lemma forallb_DidMatch (b : bool) (l : list RuleItem) (md : InboundContext) :
  forallb (fun it => item_Match net it (setDidMatchIf b md)) l
  = forallb (fun it => item_Match net it md) l.
Proof. done. Qed.

Lemma matchesSource_DidMatch (b : bool) (r : abstractDefaultRule A S) (md : InboundContext) :
  destinationIPCIDRMatchesSource r (setDidMatchIf b md) = destinationIPCIDRMatchesSource r md.
Proof. done. Qed.

Lemma matchesDestination_DidMatch (b : bool) (r : abstractDefaultRule A S) (md : InboundContext) :
  destinationIPCIDRMatchesDestination r (setDidMatchIf b md)
  = destinationIPCIDRMatchesDestination r md.
Proof. done. Qed.

Lemma allowed_DidMatch (b : bool) (r : abstractDefaultRule A S) (md : InboundContext) :
  allowed r (setDidMatchIf b md) = allowed r md.
Proof. done. Qed.

Lemma ruleSetItem_DidMatch (b : bool) (item : RuleSetItem S) (md : InboundContext) base :
  ruleSetItem_matchStatesWithBase setStates item (setDidMatchIf b md) base
  = ruleSetItem_matchStatesWithBase setStates item md base.
Proof. done. Qed.

Create Rewrite HintDb did_match.
Hint Rewrite setDidMatchIf_twice setDidMatch_If matchAnyItem_DidMatch forallb_DidMatch
  matchesSource_DidMatch matchesDestination_DidMatch allowed_DidMatch ruleSetItem_DidMatch
  : did_match.

(** ** The state a default rule computes before its rule-set is consulted *)

Definition mark (b : bool) (bit st : ruleMatchState) : ruleMatchState :=
  if b then N.lor st bit else st.

Definition baseState (r : abstractDefaultRule A S) (md : InboundContext) (base : ruleMatchState)
  : ruleMatchState :=
  mark (matchAnyItem net (destinationPortItems r) md) ruleMatchDestinationPort
  (mark (destinationIPCIDRMatchesDestination r md && matchAnyItem net (destinationIPCIDRItems r) md)
     ruleMatchDestinationAddress
  (mark (matchAnyItem net (destinationAddressItems r) md) ruleMatchDestinationAddress
  (mark (matchAnyItem net (sourcePortItems r) md) ruleMatchSourcePort
  (mark (destinationIPCIDRMatchesSource r md && matchAnyItem net (destinationIPCIDRItems r) md)
     ruleMatchSourceAddress
  (mark (matchAnyItem net (sourceAddressItems r) md) ruleMatchSourceAddress base))))).

(** Whether evaluation reaches a configured condition, which sets [DidMatch]. *)
Definition touched (r : abstractDefaultRule A S) (md : InboundContext) : bool :=
  nonempty (items r) || nonempty (destinationPortItems r)
  || destinationIPCIDRMatchesDestination r md || nonempty (destinationAddressItems r)
  || nonempty (sourcePortItems r) || destinationIPCIDRMatchesSource r md
  || nonempty (sourceAddressItems r).

Lemma matchAnyItem_nonempty (l : list RuleItem) (md : InboundContext) :
  nonempty l && matchAnyItem net l md = matchAnyItem net l md.
Proof. by destruct l. Qed.

Lemma lor_has (st k : N) : has st (2 ^ k) = true -> N.lor st (2 ^ k) = st.
Proof.
  unfold has. rewrite negb_true_iff, land_pow2, negb_false_iff. intros H.
  apply N.bits_inj. intros i. rewrite N.lor_spec, N.pow2_bits_eqb.
  destruct (N.eqb_spec k i) as [<-|]; [by rewrite H|apply orb_false_r].
Qed.

Lemma matchGroup_eq (g : list RuleItem) bit st md :
  matchGroup net (nonempty g) g bit (st, md)
  = (mark (matchAnyItem net g md) bit st, setDidMatchIf (nonempty g) md).
Proof.
  unfold matchGroup, mark. destruct g as [|it g]; simpl nonempty; cbv iota.
  - by rewrite setDidMatchIf_false.
  - done.
Qed.

Lemma matchIPCIDRGroup_eq (applies : bool) (g : list RuleItem) k st md :
  matchIPCIDRGroup net applies g (2 ^ k) (st, md)
  = (mark (applies && matchAnyItem net g md) (2 ^ k) st, setDidMatchIf applies md).
Proof.
  unfold matchIPCIDRGroup, mark. destruct applies; simpl andb; cbv iota.
  - destruct (has st (2 ^ k)) eqn:Hh; simpl.
    + rewrite lor_has by done. by destruct (matchAnyItem net g md).
    + done.
  - by rewrite setDidMatchIf_false.
Qed.

Lemma matchItems_eq (l : list RuleItem) (md : InboundContext) :
  matchItems net l md
  = (forallb (fun it => item_Match net it md) l, setDidMatchIf (nonempty l) md).
Proof.
  revert md. induction l as [|it l IH]; intros md; simpl.
  - by rewrite setDidMatchIf_false.
  - change (item_Match net it (setDidMatch md)) with (item_Match net it md).
    destruct (item_Match net it md); simpl; [|done].
    rewrite IH. unfold setDidMatchIf. simpl. by rewrite orb_true_r.
Qed.

(** ** The whole evaluation in closed form *)

Definition reached (r : abstractDefaultRule A S) (md : InboundContext) (base : ruleMatchState)
  : ruleMatchStateSet :=
  if forallb (fun it => item_Match net it md) (items r) then
    filter
      (match ruleSetItem r with
       | Some item => ruleSetItem_matchStatesWithBase setStates item md (baseState r md base)
       | None => singleRuleMatchState (baseState r md base)
       end) (allowed r md)
  else 0.

(** [DidMatch] after the evaluation of a rule whose ungrouped items all match. *)
Definition didMatchAfter (r : abstractDefaultRule A S) (md : InboundContext) : bool :=
  match ruleSetItem r with Some _ => true | None => touched r md end || DidMatch md.

(** The exceptional case of an inverted rule that has only [ip_cidr]
    conditions while those are deferred. *)
Definition deferred (r : abstractDefaultRule A S) (md : InboundContext) : bool :=
  IgnoreDestinationIPCIDRMatch md && (reached r md 0 =? emptyRuleMatchState)
  && negb (didMatchAfter r md) && nonempty (destinationIPCIDRItems r).

(** The tail of the evaluation, from the filtered set on. *)
Lemma finish_eq (inverted c : bool) (s full : ruleMatchStateSet) (md : InboundContext) :
  (if isEmpty s then (if inverted then full else 0, md)
   else if inverted then if c then (full, md) else (0, md) else (s, md)).1
  = if inverted then if isEmpty s || c then full else 0 else s.
Proof.
  destruct inverted, (isEmpty s) eqn:Hs, c; try done; by apply isEmpty_0 in Hs as ->.
Qed.

Lemma default_matchStates_eq (r : abstractDefaultRule A S) md base :
  allItems r <> [] ->
  (default_matchStatesWithBase net setStates r md base).1
  = if invert r
    then if isEmpty (reached r md 0) || deferred r md
         then withBase emptyRuleMatchState base else 0
    else reached r md base.
Proof.
  intros Hall. unfold default_matchStatesWithBase.
  destruct (length (allItems r)) eqn:Hlen; [by apply length_zero_iff_nil in Hlen|]. simpl Nat.eqb.
  cbv iota zeta.
  rewrite matchGroup_eq.
  change ruleMatchSourceAddress with (2 ^ 0). rewrite matchIPCIDRGroup_eq.
  rewrite matchGroup_eq, matchGroup_eq.
  change ruleMatchDestinationAddress with (2 ^ 2). rewrite matchIPCIDRGroup_eq.
  rewrite matchGroup_eq, matchItems_eq. cbn [fst snd].
  autorewrite with did_match.
  change (mark (matchAnyItem net (destinationPortItems r) md) _ _)
    with (baseState r md (if invert r then 0 else base)).
  unfold deferred, didMatchAfter, reached, invertedFailure.
  destruct (forallb _ (items r)); cbn [negb fst]; [|by destruct (invert r)].
  destruct (ruleSetItem r); rewrite finish_eq; autorewrite with did_match;
    by destruct (invert r).
Qed.

(** ** Which bits the state has *)

Lemma mark_wf (b : bool) (bit st : ruleMatchState) :
  wf_state bit -> wf_state st -> wf_state (mark b bit st).
Proof. intros Hb Hs. unfold mark. case_bool; auto using wf_state_lor. Qed.

Lemma baseState_wf (r : abstractDefaultRule A S) md base :
  wf_state base -> wf_state (baseState r md base).
Proof. intros H. unfold baseState. by repeat (apply mark_wf; [done|]). Qed.

Lemma has_mark (b : bool) (bit st t : ruleMatchState) :
  has (mark b bit st) t = has st t || b && has bit t.
Proof. unfold mark. destruct b; simpl; [apply has_lor|by rewrite orb_false_r]. Qed.

Definition sourceAddressHit (r : abstractDefaultRule A S) (md : InboundContext) : bool :=
  matchAnyItem net (sourceAddressItems r) md
  || destinationIPCIDRMatchesSource r md && matchAnyItem net (destinationIPCIDRItems r) md.
Definition destinationAddressHit (r : abstractDefaultRule A S) (md : InboundContext) : bool :=
  matchAnyItem net (destinationAddressItems r) md
  || destinationIPCIDRMatchesDestination r md && matchAnyItem net (destinationIPCIDRItems r) md.

(** Evaluates [has] on constant bits. *)
Ltac eval_has :=
  repeat match goal with
  | |- context [has ?a ?b] =>
      let v := eval vm_compute in (has a b) in
      match v with true => idtac | false => idtac end;
      change (has a b) with v
  end;
  rewrite ?andb_true_r, ?andb_false_r, ?orb_false_r.

Lemma has_baseState (r : abstractDefaultRule A S) md base :
  has (baseState r md base) ruleMatchSourceAddress
    = has base ruleMatchSourceAddress || sourceAddressHit r md /\
  has (baseState r md base) ruleMatchSourcePort
    = has base ruleMatchSourcePort || matchAnyItem net (sourcePortItems r) md /\
  has (baseState r md base) ruleMatchDestinationAddress
    = has base ruleMatchDestinationAddress || destinationAddressHit r md /\
  has (baseState r md base) ruleMatchDestinationPort
    = has base ruleMatchDestinationPort || matchAnyItem net (destinationPortItems r) md.
Proof.
  unfold baseState, sourceAddressHit, destinationAddressHit. rewrite !has_mark. eval_has.
  by rewrite !orb_assoc.
Qed.

(** ** The formula of a default rule without rule-sets *)

Lemma allowed_eq (r : abstractDefaultRule A S) md st :
  allowed r md st
  = implb (requiresSourceAddressMatch r md) (has st ruleMatchSourceAddress)
    && implb (nonempty (sourcePortItems r)) (has st ruleMatchSourcePort)
    && implb (requiresDestinationAddressMatch r md) (has st ruleMatchDestinationAddress)
    && implb (nonempty (destinationPortItems r)) (has st ruleMatchDestinationPort).
Proof.
  unfold allowed.
  destruct (requiresSourceAddressMatch r md), (has st ruleMatchSourceAddress); try done;
  destruct (nonempty (sourcePortItems r)), (has st ruleMatchSourcePort); try done;
  destruct (requiresDestinationAddressMatch r md), (has st ruleMatchDestinationAddress); try done;
  by destruct (nonempty (destinationPortItems r)), (has st ruleMatchDestinationPort).
Qed.

(** Every configured condition holds, or was already met by the inherited
    state. *)
Definition conditions (r : abstractDefaultRule A S) (md : InboundContext) (base : ruleMatchState) : bool :=
  implb (requiresSourceAddressMatch r md) (has base ruleMatchSourceAddress || sourceAddressHit r md)
  && implb (nonempty (sourcePortItems r))
       (has base ruleMatchSourcePort || matchAnyItem net (sourcePortItems r) md)
  && implb (requiresDestinationAddressMatch r md)
       (has base ruleMatchDestinationAddress || destinationAddressHit r md)
  && implb (nonempty (destinationPortItems r))
       (has base ruleMatchDestinationPort || matchAnyItem net (destinationPortItems r) md).

Lemma allowed_baseState (r : abstractDefaultRule A S) md base :
  allowed r md (baseState r md base) = conditions r md base.
Proof.
  rewrite allowed_eq. destruct (has_baseState r md base) as (-> & -> & -> & ->). done.
Qed.

Lemma filter_single (st : ruleMatchState) (p : ruleMatchState -> bool) :
  wf_state st -> filter (singleRuleMatchState st) p = if p st then singleRuleMatchState st else 0.
Proof.
  intros Hst. apply set_ext; [apply wf_set_filter| |].
  { case_bool; [apply wf_set_single|done]. }
  intros i. rewrite contains_filter, contains_single by done.
  destruct (N.eqb_spec st i) as [<-|Hne]; simpl.
  - case_bool; [by rewrite contains_single, N.eqb_refl|by rewrite contains_0].
  - case_bool; [|by rewrite contains_0]. rewrite contains_single by done.
    symmetry. by apply N.eqb_neq.
Qed.

Lemma reached_no_ruleSet (r : abstractDefaultRule A S) md base :
  wf_state base -> ruleSetItem r = None ->
  reached r md base
  = if forallb (fun it => item_Match net it md) (items r) && conditions r md base
    then singleRuleMatchState (baseState r md base) else 0.
Proof.
  intros Hb Hrs. unfold reached. rewrite Hrs, filter_single, allowed_baseState by by apply baseState_wf.
  by destruct (forallb _ (items r)).
Qed.

(** ** Loops that merge the states of their elements *)

Lemma contains_fold_merge {B} (f : B -> ruleMatchStateSet) (l : list B) acc i :
  contains (fold_left (fun s x => merge s (f x)) l acc) i
  = contains acc i || existsb (fun x => contains (f x) i) l.
Proof.
  revert acc. induction l as [|x l IH]; intros acc; simpl; [by rewrite orb_false_r|].
  by rewrite IH, contains_merge, orb_assoc.
Qed.

Lemma wf_fold_merge {B} (f : B -> ruleMatchStateSet) (l : list B) acc :
  Forall (fun x => wf_set (f x)) l -> wf_set acc ->
  wf_set (fold_left (fun s x => merge s (f x)) l acc).
Proof.
  intros Hl. revert acc. induction Hl as [|x l Hx _ IH]; intros acc Ha; simpl; [done|].
  by apply IH, wf_set_merge.
Qed.

Lemma isEmpty_fold_merge {B} (f : B -> ruleMatchStateSet) (l : list B) acc :
  isEmpty (fold_left (fun s x => merge s (f x)) l acc)
  = isEmpty acc && negb (existsb (fun x => negb (isEmpty (f x))) l).
Proof.
  revert acc. induction l as [|x l IH]; intros acc; simpl; [by rewrite andb_true_r|].
  rewrite IH, merge_isEmpty, negb_orb, negb_involutive. by rewrite andb_assoc.
Qed.

(** ** Every result is a sixteen bit set *)

Lemma wf_reached (r : abstractDefaultRule A S) md base : wf_set (reached r md base).
Proof. unfold reached. case_bool; [apply wf_set_filter|done]. Qed.

Lemma wf_default (r : abstractDefaultRule A S) md base :
  wf_set (default_matchStatesWithBase net setStates r md base).1.
Proof.
  destruct (allItems r) as [|it l] eqn:Hall.
  - unfold default_matchStatesWithBase. rewrite Hall. simpl. apply wf_set_withBase.
  - rewrite default_matchStates_eq by congruence.
    repeat case_bool; auto using wf_set_withBase, wf_set_0, wf_reached.
Qed.

Section Logical.
Context {R : Type}.
Variable nested : R -> InboundContext -> ruleMatchState -> ruleMatchStateSet.

Definition nestedMatch (base : ruleMatchState) (md : InboundContext) (r : R) : bool :=
  negb (isEmpty (nested r (ResetRuleCache md) base)).

Lemma logicalAnd_spec (rules : list R) md base acc :
  Forall (fun r => forall md b, wf_set (nested r md b)) rules ->
  wf_set acc -> isEmpty acc = false ->
  match logicalAnd nested rules md base acc with
  | None => forallb (nestedMatch base md) rules = false
  | Some s => forallb (nestedMatch base md) rules = true /\ isEmpty s = false /\ wf_set s
  end.
Proof.
  intros Hwf. revert acc. induction Hwf as [|r rules Hr _ IH]; intros acc Ha Hne; simpl; [done|].
  unfold nestedMatch at 1 3. destruct (isEmpty (nested r (ResetRuleCache md) base)) eqn:He; [done|].
  apply IH; [apply wf_set_combine|]. by rewrite combine_isEmpty, Hne, He by auto.
Qed.

Lemma wf_logicalAnd (rules : list R) md base acc s :
  wf_set acc -> logicalAnd nested rules md base acc = Some s -> wf_set s.
Proof.
  revert acc. induction rules as [|r rules IH]; intros acc Ha; simpl; [by intros [= <-]|].
  case_bool; [done|]. apply IH, wf_set_combine.
Qed.

Lemma wf_logical (rules : list R) mode inverted md base :
  Forall (fun r => forall md b, wf_set (nested r md b)) rules ->
  wf_set (logical_matchStatesWithBase nested rules mode inverted md base).
Proof.
  intros Hwf. unfold logical_matchStatesWithBase.
  destruct (bool_decide (mode = LogicalTypeAnd)).
  - destruct (logicalAnd _ _ _ _ _) as [s|] eqn:He.
    + apply wf_logicalAnd in He; [|apply wf_set_withBase]. by destruct inverted.
    + destruct inverted; auto using wf_set_withBase, wf_set_0.
  - assert (forall b, wf_set (logicalOr nested rules md b)) as Ho.
    { intros b. apply wf_fold_merge; [|done]. eapply Forall_impl; [|exact Hwf]. simpl. auto. }
    repeat case_bool; auto using wf_set_withBase, wf_set_0.
Qed.

(** The states of a logical rule are empty exactly when the conjunction or
    disjunction of its nested rules, inverted if so configured, is false. *)
Lemma isEmpty_logical (rules : list R) mode inverted md base :
  wf_state base -> Forall (fun r => forall md b, wf_set (nested r md b)) rules ->
  isEmpty (logical_matchStatesWithBase nested rules mode inverted md base)
  = Bool.eqb inverted
      (if bool_decide (mode = LogicalTypeAnd)
       then forallb (nestedMatch (if inverted then 0 else base) md) rules
       else existsb (nestedMatch (if inverted then 0 else base) md) rules).
Proof.
  intros Hb Hwf. set (eb := if inverted then 0 else base).
  assert (wf_state eb) as Heb by by destruct inverted.
  change (nestedMatch (if inverted then 0 else base) md) with (nestedMatch eb md).
  unfold logical_matchStatesWithBase. fold eb.
  rewrite !withBase_empty by done. destruct (bool_decide (mode = LogicalTypeAnd)).
  - generalize (logicalAnd_spec rules md eb (singleRuleMatchState eb) Hwf
      (wf_set_single eb) (single_not_empty eb Heb)).
    destruct (logicalAnd _ _ _ _ _) as [s|].
    + intros (-> & Hs & _). destruct inverted; [done|by rewrite Hs].
    + intros ->. destruct inverted; [by rewrite single_not_empty|done].
  - assert (isEmpty (logicalOr nested rules md eb) = negb (existsb (nestedMatch eb md) rules)) as Ho.
    { unfold logicalOr. by rewrite isEmpty_fold_merge. }
    rewrite Ho. destruct (existsb (nestedMatch eb md) rules) eqn:Ex; cbn [negb].
    + destruct inverted; [done|]. rewrite Ho. done.
    + destruct inverted; [by rewrite single_not_empty|done].
Qed.

End Logical.

Lemma wf_matchStatesWithBase (rule : Rule A S) md base :
  wf_set (matchStatesWithBase net setStates rule md base).
Proof.
  revert md base. induction rule as [r|rules IH mode inverted act]; intros md base; simpl.
  - apply wf_default.
  - apply list_all_Forall in IH. by apply wf_logical.
Qed.

End Facts.
