(* ===== verification/RuleTheorems.v ===== *)
(** * Correctness of rule matching

    The matcher against the documented semantics: the formula of a default rule
    (docs/configuration/route/rule.md), the merging of rule-set branches into
    the outer rule, the boolean meaning of logical rules, and the invariant of
    the states that are passed down. *)

From Stdlib Require Import Btauto.
From S2P Require Import Prelude GoStd Metadata Instances MatchState RuleItems Rules RuleFacts.
Import netip MatchState RuleItems Rules.

Open Scope N_scope.

Section Theorems.
Context `{E : Externals} {A S : Type}.
Variable net : Network.
(** The rules a loaded rule-set holds now. *)
Variable contents : S -> list (HeadlessRule A).

Definition setStates (s : S) : InboundContext -> ruleMatchState -> ruleMatchStateSet :=
  ruleSet_matchStatesWithBase net (contents s).

(** A group of alternatives: not configured, or one of its items matches. *)
Definition anyOf (l : list RuleItem) (md : InboundContext) : bool :=
  negb (nonempty l) || matchAnyItem net l md.

(** The formula of docs/configuration/route/rule.md: destination address and
    [ip_cidr] conditions are alternatives of one group. *)
Definition documentedFormula (r : abstractDefaultRule A S) (md : InboundContext) : bool :=
  anyOf (destinationAddressItems r ++ destinationIPCIDRItems r) md
  && anyOf (destinationPortItems r) md
  && anyOf (sourceAddressItems r) md
  && anyOf (sourcePortItems r) md
  && forallb (fun it => item_Match net it md) (items r).

Lemma matchAnyItem_app (l k : list RuleItem) (md : InboundContext) :
  matchAnyItem net (l ++ k) md = matchAnyItem net l md || matchAnyItem net k md.
Proof. apply existsb_app. Qed.

Lemma nonempty_app {B} (l k : list B) : nonempty (l ++ k) = nonempty l || nonempty k.
Proof. by destruct l, k. Qed.

Lemma has_0 (t : ruleMatchState) : has 0 t = false.
Proof. done. Qed.

Lemma conditions_documented (r : abstractDefaultRule A S) (md : InboundContext) :
  IgnoreDestinationIPCIDRMatch md = false -> IPCIDRMatchSource md = false ->
  forallb (fun it => item_Match net it md) (items r) && conditions net r md 0
  = documentedFormula r md.
Proof.
  intros Hi Hs. unfold conditions, documentedFormula, anyOf, sourceAddressHit,
    destinationAddressHit, requiresSourceAddressMatch, requiresDestinationAddressMatch,
    destinationIPCIDRMatchesSource, destinationIPCIDRMatchesDestination.
  rewrite Hi, Hs, !has_0, matchAnyItem_app, nonempty_app. cbn [negb andb orb].
  rewrite matchAnyItem_nonempty, !orb_false_r.
  destruct (forallb _ _), (nonempty (sourceAddressItems r)), (nonempty (sourcePortItems r)),
    (nonempty (destinationAddressItems r)), (nonempty (destinationIPCIDRItems r)),
    (nonempty (destinationPortItems r)); cbn [negb andb orb implb];
  rewrite ?andb_true_r; try done; btauto.
Qed.

(** ** States grow from the inherited state *)

(** Every member of [s] has the bits of [base]. *)
Definition extends (base : ruleMatchState) (s : ruleMatchStateSet) : Prop :=
  forall st, contains s st = true -> N.lor st base = st.

Lemma extends_0 (base : ruleMatchState) : extends base 0.
Proof. intros st. by rewrite contains_0. Qed.

Lemma extends_single (base : ruleMatchState) :
  wf_state base -> extends base (singleRuleMatchState base).
Proof. intros Hb st. rewrite contains_single, N.eqb_eq by done. intros <-. apply N.lor_diag. Qed.

Lemma extends_trans (a b : ruleMatchState) (s : ruleMatchStateSet) :
  N.lor b a = b -> extends b s -> extends a s.
Proof. intros Hab Hs st Hst. rewrite <- (Hs st Hst), <- N.lor_assoc, Hab. done. Qed.

Lemma extends_filter (base : ruleMatchState) (s : ruleMatchStateSet) p :
  extends base s -> extends base (filter s p).
Proof. intros Hs st. rewrite contains_filter, andb_true_iff. intros [? _]. by apply Hs. Qed.

Lemma extends_combine (base : ruleMatchState) (a b : ruleMatchStateSet) :
  extends base b -> extends base (combine a b).
Proof.
  intros Hb st. rewrite contains_combine_iff. intros (l & r & _ & Hr & ->).
  by rewrite <- N.lor_assoc, Hb.
Qed.

Lemma extends_fold_merge {B} (f : B -> ruleMatchStateSet) (l : list B) base :
  Forall (fun x => extends base (f x)) l ->
  extends base (fold_left (fun s x => merge s (f x)) l 0).
Proof.
  intros Hl st. rewrite contains_fold_merge, contains_0. simpl.
  rewrite existsb_exists. intros (x & Hx & Hst).
  rewrite List.Forall_forall in Hl. by apply (Hl x Hx).
Qed.

Lemma mark_absorbs (b : bool) (bit st base : ruleMatchState) :
  N.lor st base = st -> N.lor (mark b bit st) base = mark b bit st.
Proof.
  intros H. unfold mark. case_bool; [|done].
  by rewrite <- N.lor_assoc, (N.lor_comm bit), N.lor_assoc, H.
Qed.

Lemma extends_logicalAnd {R} (nested : R -> InboundContext -> ruleMatchState -> ruleMatchStateSet)
    (rules : list R) md base acc s :
  Forall (fun r => forall md b, wf_state b -> extends b (nested r md b)) rules ->
  wf_state base -> extends base acc ->
  logicalAnd nested rules md base acc = Some s -> extends base s.
Proof.
  intros Hn Hb. revert acc. induction Hn as [|r rules Hr _ IH]; intros acc Ha; simpl.
  - by intros [= <-].
  - case_bool; [done|]. apply IH, extends_combine. auto.
Qed.

Lemma extends_logical {R} (nested : R -> InboundContext -> ruleMatchState -> ruleMatchStateSet)
    (rules : list R) mode inverted md base :
  Forall (fun r => forall md b, wf_state b -> extends b (nested r md b)) rules ->
  wf_state base ->
  extends base (logical_matchStatesWithBase nested rules mode inverted md base).
Proof.
  intros Hn Hb. unfold logical_matchStatesWithBase. rewrite !withBase_empty by by destruct inverted.
  destruct inverted.
  - repeat case_bool; auto using extends_0, extends_single; by destruct (logicalAnd _ _ _ _ _);
      auto using extends_0, extends_single.
  - case_bool.
    + destruct (logicalAnd _ _ _ _ _) eqn:He; [|apply extends_0].
      eapply extends_logicalAnd; eauto using extends_single.
    + case_bool; [apply extends_0|]. apply extends_fold_merge.
      eapply Forall_impl; [|exact Hn]. simpl. auto.
Qed.

Lemma extends_default {S'} (ss : S' -> InboundContext -> ruleMatchState -> ruleMatchStateSet)
    (r : abstractDefaultRule A S') md base :
  (forall s md b, wf_state b -> extends b (ss s md b)) ->
  wf_state base -> extends base (default_matchStatesWithBase net ss r md base).1.
Proof.
  intros Hss Hb. destruct (allItems r) as [|it l] eqn:Hall.
  { unfold default_matchStatesWithBase. rewrite Hall. simpl.
    rewrite withBase_empty by done. by apply extends_single. }
  rewrite default_matchStates_eq by congruence. rewrite withBase_empty by done.
  destruct (invert r); [case_bool; auto using extends_0, extends_single|].
  unfold reached. case_bool; [|apply extends_0]. apply extends_filter.
  apply (extends_trans _ (baseState net r md base)).
  { unfold baseState. do 6 apply mark_absorbs. apply N.lor_diag. }
  destruct (ruleSetItem r); [|by apply extends_single, baseState_wf].
  apply extends_fold_merge, Forall_forall. intros s _. by apply Hss, baseState_wf.
Qed.

Lemma extends_rule {S'} (ss : S' -> InboundContext -> ruleMatchState -> ruleMatchStateSet)
    (rule : Rule A S') md base :
  (forall s md b, wf_state b -> extends b (ss s md b)) ->
  wf_state base -> extends base (matchStatesWithBase net ss rule md base).
Proof.
  intros Hss. revert md base.
  induction rule as [r|rules IH mode inverted act]; intros md base Hb; simpl.
  - by apply extends_default.
  - apply list_all_Forall in IH. by apply extends_logical.
Qed.

Lemma extends_ruleSet (rules : list (HeadlessRule A)) md base :
  wf_state base -> extends base (ruleSet_matchStatesWithBase net rules md base).
Proof.
  intros Hb. apply extends_fold_merge, Forall_forall. intros r _. by apply extends_rule.
Qed.

(** ** Rule-set branches *)

(** The default rule [outer] with the conditions of a rule [branch] of a
    rule-set added to its own groups. *)
Definition mergeBranch (outer : abstractDefaultRule A S) (branch : abstractDefaultRule A Empty_set)
  : abstractDefaultRule A S :=
  {| outer with
     items := items outer ++ items branch;
     sourceAddressItems := sourceAddressItems outer ++ sourceAddressItems branch;
     sourcePortItems := sourcePortItems outer ++ sourcePortItems branch;
     destinationAddressItems := destinationAddressItems outer ++ destinationAddressItems branch;
     destinationIPCIDRItems := destinationIPCIDRItems outer ++ destinationIPCIDRItems branch;
     destinationPortItems := destinationPortItems outer ++ destinationPortItems branch;
     ruleSetItem := None |}.

Lemma implb_merge (p q a b : bool) :
  implb (p || q) (a || b) = implb p (a || b) && implb q (a || b).
Proof. by destruct p, q, a, b. Qed.

(** Both the conditions a branch has to meet from the state of the outer rule,
    and those the outer rule requires of the branch's state, hold exactly when
    the merged rule's conditions hold. *)
Lemma conditions_mergeBranch (r : abstractDefaultRule A S) (h : abstractDefaultRule A Empty_set) md :
  conditions net (mergeBranch r h) md 0
  = conditions net h md (baseState net r md 0)
    && allowed r md (baseState net h md (baseState net r md 0)).
Proof.
  rewrite allowed_eq. unfold conditions at 2.
  destruct (has_baseState net h md (baseState net r md 0)) as (-> & -> & -> & ->).
  destruct (has_baseState net r md 0) as (-> & -> & -> & ->). rewrite !has_0. cbn [orb].
  assert (requiresSourceAddressMatch (mergeBranch r h) md
    = requiresSourceAddressMatch r md || requiresSourceAddressMatch h md) as E1.
  { unfold requiresSourceAddressMatch, destinationIPCIDRMatchesSource, mergeBranch. simpl.
    rewrite !nonempty_app. btauto. }
  assert (requiresDestinationAddressMatch (mergeBranch r h) md
    = requiresDestinationAddressMatch r md || requiresDestinationAddressMatch h md) as E2.
  { unfold requiresDestinationAddressMatch, destinationIPCIDRMatchesDestination, mergeBranch. simpl.
    rewrite !nonempty_app. btauto. }
  assert (sourceAddressHit net (mergeBranch r h) md
    = sourceAddressHit net r md || sourceAddressHit net h md) as E3.
  { unfold sourceAddressHit, destinationIPCIDRMatchesSource, mergeBranch. simpl.
    rewrite <- !andb_assoc, !matchAnyItem_nonempty, !matchAnyItem_app. btauto. }
  assert (destinationAddressHit net (mergeBranch r h) md
    = destinationAddressHit net r md || destinationAddressHit net h md) as E4.
  { unfold destinationAddressHit, destinationIPCIDRMatchesDestination, mergeBranch. simpl.
    rewrite <- !andb_assoc, !matchAnyItem_nonempty, !matchAnyItem_app. btauto. }
  unfold conditions. rewrite E1, E2, E3, E4, !has_0. simpl.
  rewrite !nonempty_app, !matchAnyItem_app, !implb_merge. btauto.
Qed.

(** A rule of a rule-set that is a single conjunction of conditions. *)
Definition plainBranch (rule : HeadlessRule A) : option (abstractDefaultRule A Empty_set) :=
  match rule with
  | DefaultRule h =>
      match ruleSetItem h with
      | None => if nonempty (allItems h) && negb (invert h) then Some h else None
      | Some _ => None
      end
  | LogicalRule _ _ _ _ => None
  end.

Lemma plainBranch_inv (rule : HeadlessRule A) h :
  plainBranch rule = Some h ->
  rule = DefaultRule h /\ ruleSetItem h = None /\ allItems h <> [] /\ invert h = false.
Proof.
  destruct rule as [h'|]; simpl; [|done]. destruct (ruleSetItem h') eqn:Hr; [done|].
  destruct (allItems h') eqn:Ha, (invert h') eqn:Hi; simpl; try done.
  intros [= <-]. by rewrite Ha.
Qed.

(** What a nested rule-set sees of the metadata is what its items read. *)
Lemma nested_metadata_eq (item : RuleSetItem S) (md : InboundContext)
    (h : abstractDefaultRule A Empty_set) base :
  ipCidrMatchSource item = IPCIDRMatchSource md ->
  ipCidrAcceptEmpty item = IPCIDRAcceptEmpty md ->
  let nested := nestedMetadata item md in
  conditions net h (ResetRuleMatchCache nested) base = conditions net h md base /\
  baseState net h (ResetRuleMatchCache nested) base = baseState net h md base /\
  forallb (fun it => item_Match net it (ResetRuleMatchCache nested)) (items h)
  = forallb (fun it => item_Match net it md) (items h).
Proof. unfold nestedMetadata. intros -> ->. by repeat split. Qed.

(** An inverted rule outside of the evaluation that defers [ip_cidr] conditions. *)
Lemma Match_inverts (r : abstractDefaultRule A S) ss md :
  allItems r <> [] -> (invert r = true -> IgnoreDestinationIPCIDRMatch md = false) ->
  Match net ss (DefaultRule r) md = xorb (invert r) (negb (isEmpty (reached net ss r md 0))).
Proof.
  intros Ha Hg. unfold Match, matchStates. simpl matchStatesWithBase. rewrite default_matchStates_eq by done.
  destruct (invert r); [|by destruct (isEmpty _)]. unfold deferred. rewrite Hg by done. cbn [andb]. rewrite orb_false_r.
  by destruct (isEmpty (reached net ss r md 0)).
Qed.

Lemma Match_default (r : abstractDefaultRule A S) ss md :
  allItems r <> [] -> invert r = false ->
  Match net ss (DefaultRule r) md = negb (isEmpty (reached net ss r md 0)).
Proof.
  intros Ha Hi. unfold Match, matchStates. simpl matchStatesWithBase.
  by rewrite default_matchStates_eq, Hi.
Qed.

Lemma isEmpty_if_single (b : bool) (st : ruleMatchState) :
  wf_state st -> negb (isEmpty (if b then singleRuleMatchState st else 0)) = b.
Proof. intros H. destruct b; [by rewrite single_not_empty|done]. Qed.

Lemma filter_nonempty (s : ruleMatchStateSet) p :
  negb (isEmpty (filter s p)) = true <-> exists st, contains s st = true /\ p st = true.
Proof.
  rewrite negb_true_iff, nonempty_iff by apply wf_set_filter.
  split; intros (st & H); exists st; by rewrite contains_filter, andb_true_iff in *.
Qed.

Lemma filter_fold_merge {B} (f : B -> ruleMatchStateSet) (l : list B) p :
  negb (isEmpty (filter (fold_left (fun s x => merge s (f x)) l 0) p))
  = existsb (fun x => negb (isEmpty (filter (f x) p))) l.
Proof.
  apply eq_iff_eq_true. rewrite filter_nonempty, existsb_exists. split.
  - intros (st & Hst & Hp). rewrite contains_fold_merge, contains_0, orb_false_l in Hst.
    apply existsb_exists in Hst as (x & Hx & Hst). exists x. split; [done|].
    apply filter_nonempty. eauto.
  - intros (x & Hx & (st & Hst & Hp)%filter_nonempty). exists st. split; [|done].
    rewrite contains_fold_merge, contains_0, orb_false_l. apply existsb_exists. eauto.
Qed.

Lemma filter_0 p : filter 0 p = 0.
Proof.
  apply set_ext; [apply wf_set_filter|done|]. intros i. by rewrite contains_filter, contains_0.
Qed.

(** A group that two rules share: required when one of them has it, met by either. *)
Definition sharedGroup (required required' hit hit' : bool) : bool := implb (required || required') (hit || hit').

(** An outer rule on its metadata and a branch on the metadata it sees: the address, port and [ip_cidr] conditions of
    the two are alternatives within a group, the others are required together. *)
Definition mergedConditions (r : abstractDefaultRule A S) (md : InboundContext) (h : abstractDefaultRule A Empty_set) (md' : InboundContext) : bool :=
  sharedGroup (requiresSourceAddressMatch r md) (requiresSourceAddressMatch h md') (sourceAddressHit net r md) (sourceAddressHit net h md')
  && sharedGroup (nonempty (sourcePortItems r)) (nonempty (sourcePortItems h))
       (matchAnyItem net (sourcePortItems r) md) (matchAnyItem net (sourcePortItems h) md')
  && sharedGroup (requiresDestinationAddressMatch r md) (requiresDestinationAddressMatch h md')
       (destinationAddressHit net r md) (destinationAddressHit net h md')
  && sharedGroup (nonempty (destinationPortItems r)) (nonempty (destinationPortItems h))
       (matchAnyItem net (destinationPortItems r) md) (matchAnyItem net (destinationPortItems h) md').

Lemma mergedConditions_eq (r : abstractDefaultRule A S) md (h : abstractDefaultRule A Empty_set) md' :
  mergedConditions r md h md' = conditions net h md' (baseState net r md 0) && allowed r md (baseState net h md' (baseState net r md 0)).
Proof.
  rewrite allowed_eq. unfold conditions. destruct (has_baseState net h md' (baseState net r md 0)) as (-> & -> & -> & ->).
  destruct (has_baseState net r md 0) as (-> & -> & -> & ->). rewrite !has_0. cbn [orb].
  unfold mergedConditions, sharedGroup. rewrite !implb_merge. btauto.
Qed.

(** A plain branch, evaluated from the state of the outer rule and filtered by
    the outer rule's requirements. *)
Lemma branch_nonempty (r : abstractDefaultRule A S) (item : RuleSetItem S) rule h md :
  plainBranch rule = Some h ->
  let nested := nestedMetadata item md in
  negb (isEmpty (filter
    (headless_matchStatesWithBase net rule (ResetRuleMatchCache nested) (baseState net r md 0))
    (allowed r md)))
  = forallb (fun it => item_Match net it nested) (items h) && mergedConditions r md h nested.
Proof.
  intros (-> & Hr & Ha & Hi)%plainBranch_inv nested.
  assert (wf_state (baseState net r md 0)) as Hb by by apply baseState_wf.
  unfold headless_matchStatesWithBase. simpl matchStatesWithBase.
  rewrite default_matchStates_eq, Hi, reached_no_ruleSet by done.
  change (ResetRuleMatchCache nested) with nested. rewrite mergedConditions_eq.
  destruct (forallb _ _); cbn [andb]; [|by rewrite filter_0].
  destruct (conditions net h nested _); cbn [andb]; [|by rewrite filter_0].
  rewrite filter_single by by apply baseState_wf. apply isEmpty_if_single.
  by apply baseState_wf.
Qed.

Lemma existsb_andb_l {B} (b : bool) (f : B -> bool) (l : list B) :
  b && existsb f l = existsb (fun x => b && f x) l.
Proof. induction l as [|x l IH]; simpl; [apply andb_false_r|]. by rewrite andb_orb_distrib_r, IH. Qed.

Lemma Match_mergeBranch (r : abstractDefaultRule A S) (h : abstractDefaultRule A Empty_set) ss md :
  allItems r <> [] -> invert r = false ->
  Match net ss (DefaultRule (mergeBranch r h)) md
  = forallb (fun it => item_Match net it md) (items r)
    && (forallb (fun it => item_Match net it md) (items h) && conditions net (mergeBranch r h) md 0).
Proof.
  intros Ha Hi. rewrite Match_default, reached_no_ruleSet by done.
  rewrite isEmpty_if_single by by apply baseState_wf. simpl items.
  by rewrite forallb_app, andb_assoc.
Qed.

(** ** The theorems *)

(** What a rule with a rule-set item reaches: whether a plain branch of a set meets the merged conditions. *)
Lemma reached_branches (r : abstractDefaultRule A S) (item : RuleSetItem S) md :
  ruleSetItem r = Some item ->
  Forall (fun s => Forall (fun rule => is_Some (plainBranch rule)) (contents s)) (setList item) ->
  negb (isEmpty (reached net setStates r md 0))
  = forallb (fun it => item_Match net it md) (items r)
    && existsb (fun s => existsb (fun rule =>
         match plainBranch rule with
         | Some h => forallb (fun it => item_Match net it (nestedMetadata item md)) (items h) && mergedConditions r md h (nestedMetadata item md)
         | None => false
         end) (contents s)) (setList item).
Proof.
  intros Hr Hplain. unfold reached. rewrite Hr. destruct (forallb _ _); [|done]. rewrite andb_true_l.
  etransitivity; [apply filter_fold_merge|]. apply existsb_ext_in. eapply Forall_impl; [|exact Hplain].
  intros s Hb. unfold setStates, ruleSet_matchStatesWithBase. rewrite filter_fold_merge. apply existsb_ext_in.
  eapply Forall_impl; [|exact Hb]. intros rule [h Hh]. by rewrite Hh, (branch_nonempty r item rule h).
Qed.

(** C1: merging of rule-set branches.  A default rule with a rule-set item whose
    sets hold plain (default, not inverted) rules matches exactly when, for some
    rule of some set, the outer rule on the metadata and the branch on what the set
    sees of it meet their conditions together: address, port and [ip_cidr] conditions
    of the two are alternatives within a group, the others are all required.  An inverted
    rule matches exactly when there is no such rule, outside of the evaluation that defers
    [ip_cidr] conditions.  When the item does not change how [ip_cidr] conditions are read,
    this is the rule obtained by adding the conditions of the branch to the groups of the outer
    rule. *)
Theorem rule_set_branches_merge (r : abstractDefaultRule A S) (item : RuleSetItem S) md :
  ruleSetItem r = Some item -> allItems r <> [] -> (invert r = true -> IgnoreDestinationIPCIDRMatch md = false) ->
  Forall (fun s => Forall (fun rule => is_Some (plainBranch rule)) (contents s)) (setList item) ->
  let branches (P : abstractDefaultRule A Empty_set -> bool) := existsb (fun s => existsb (fun rule =>
      match plainBranch rule with Some h => P h | None => false end) (contents s)) (setList item) in
  let nested := nestedMetadata item md in
  Match net setStates (DefaultRule r) md
  = xorb (invert r) (branches (fun h => forallb (fun it => item_Match net it md) (items r) && forallb (fun it => item_Match net it nested) (items h)
      && mergedConditions r md h nested)) /\
  (ipCidrMatchSource item = IPCIDRMatchSource md -> ipCidrAcceptEmpty item = IPCIDRAcceptEmpty md ->
   Match net setStates (DefaultRule r) md
   = xorb (invert r) (branches (fun h => Match net setStates (DefaultRule (mergeBranch {| r with invert := false |} h)) md))).
Proof.
  intros Hr Ha Hg Hplain branches nested. rewrite Match_inverts, (reached_branches r item) by done. fold nested.
  rewrite existsb_andb_l. split; [|intros Hs He]; f_equal; apply existsb_ext_in; eapply Forall_impl; try exact Hplain;
    intros s Hb; rewrite existsb_andb_l; apply existsb_ext_in; (eapply Forall_impl; [|exact Hb]); intros rule [h Hh]; rewrite Hh.
  - by rewrite andb_assoc.
  - rewrite Match_mergeBranch by done. cbn [items]. f_equal. rewrite conditions_mergeBranch.
    destruct (nested_metadata_eq item md h (baseState net r md 0) Hs He) as (E1 & E2 & E3). rewrite mergedConditions_eq.
    change (ResetRuleMatchCache (nestedMetadata item md)) with nested in *. rewrite E1, E2, E3. done.
Qed.

(** C2: the documented formula.  A default rule without rule-sets, evaluated on
    metadata with a fresh rule cache, matches exactly when the formula of
    docs/configuration/route/rule.md holds, or fails to hold if the rule is
    inverted. *)
Theorem default_rule_documented_formula (r : abstractDefaultRule A S) md :
  ruleSetItem r = None -> allItems r <> [] ->
  IgnoreDestinationIPCIDRMatch md = false -> IPCIDRMatchSource md = false ->
  Match net setStates (DefaultRule r) md = xorb (invert r) (documentedFormula r md).
Proof.
  intros Hr Ha Hg Hs. unfold Match, matchStates. simpl matchStatesWithBase.
  rewrite default_matchStates_eq by done. unfold deferred. rewrite Hg.
  rewrite reached_no_ruleSet, conditions_documented by done.
  destruct (documentedFormula r md), (invert r); cbn [andb orb negb xorb].
  - rewrite single_not_empty by by apply baseState_wf. done.
  - rewrite single_not_empty by by apply baseState_wf. done.
  - by vm_compute.
  - done.
Qed.

(** Logical rules.  A logical rule matches exactly when the conjunction (mode
    [and]) or the disjunction (any other mode) of its nested rules does, each
    evaluated with a fresh rule cache, negated if the rule is inverted. *)
Theorem logical_rule_semantics (rules : list (Rule A S)) mode inverted act md :
  Match net setStates (LogicalRule rules mode inverted act) md
  = xorb inverted
      (if bool_decide (mode = LogicalTypeAnd)
       then forallb (fun rule => Match net setStates rule (ResetRuleCache md)) rules
       else existsb (fun rule => Match net setStates rule (ResetRuleCache md)) rules).
Proof.
  unfold Match at 1, matchStates. cbn [matchStatesWithBase]. rewrite isEmpty_logical; [|done|].
  - replace (if inverted then 0 else 0) with 0 by by destruct inverted.
    unfold nestedMatch, Match, matchStates. by destruct inverted, (if bool_decide _ then _ else _).
  - apply Forall_forall. intros. apply wf_matchStatesWithBase.
Qed.

(** States only grow.  Every state a rule reaches from an inherited state has
    all the bits of the inherited state, and the result is a set of sixteen bits:
    a condition met by an outer rule is never lost in a nested rule-set or
    logical rule. *)
Theorem match_states_extend_base (rule : Rule A S) md base :
  wf_state base ->
  wf_set (matchStatesWithBase net setStates rule md base) /\
  extends base (matchStatesWithBase net setStates rule md base).
Proof.
  intros Hb. split; [apply wf_matchStatesWithBase|].
  apply extends_rule; [|done]. intros. by apply extends_ruleSet.
Qed.

(** Inverted rules.  Outside the deferred address check an inverted default
    rule contributes the inherited state alone, exactly when the rule without
    [invert] fails to match on its own. *)
Theorem inverted_rule_states (r : abstractDefaultRule A S) md base :
  wf_state base -> allItems r <> [] -> IgnoreDestinationIPCIDRMatch md = false ->
  matchStatesWithBase net setStates (DefaultRule {| r with invert := true |}) md base
  = if Match net setStates (DefaultRule {| r with invert := false |}) md
    then 0 else singleRuleMatchState base.
Proof.
  intros Hb Ha Hg. unfold Match, matchStates. simpl matchStatesWithBase.
  rewrite !default_matchStates_eq by done. simpl invert. cbv iota.
  rewrite withBase_empty by done. unfold deferred. rewrite Hg. cbn [andb]. rewrite orb_false_r.
  change (reached net setStates {| r with invert := false |} md 0)
    with (reached net setStates {| r with invert := true |} md 0).
  by destruct (isEmpty _).
Qed.

End Theorems.

(** ** Witnesses *)

Section Witnesses.
#[local] Existing Instance sampleExternals.

(** Source port 53, with the rule-set tagged [s]. *)
Definition sampleOuter : abstractDefaultRule unit unit :=
  let item := mkRuleSetItem ["s"] [tt] false false in
  mkDefault [NewNetworkItem ["udp"]] [] [NewPortItem true [53]] [] [] []
    [OfRuleSet item] (Some item) false None.

(** One branch: a destination port and a keyword. *)
Definition sampleBranch : abstractDefaultRule unit Empty_set :=
  mkDefault [] [] [NewPortItem true [54]] [NewDomainKeywordItem ["example"]] [] [NewPortItem false [443]]
    [Plain (NewPortItem false [443])] None false None.

Definition sampleContents (_ : unit) : list (HeadlessRule unit) := [DefaultRule sampleBranch].

Definition sampleMetadata : InboundContext :=
  let md := InboundContextZero in
  {| md with Network_ := "udp"; Domain := "www.example.org";
     Source := mkSocksaddr (Addr4 1) 54 ""; Destination := mkSocksaddr AddrZero 443 "" |}.

(** The rule above without its rule-set. *)
Definition samplePlain : abstractDefaultRule unit unit :=
  let r := sampleOuter in {| r with ruleSetItem := None; invert := true |}.

(** The set read for source addresses: the [ip_cidr] of its branch is about the source. *)
Definition sampleSourceOuter : abstractDefaultRule unit unit :=
  let item := mkRuleSetItem ["s"] [tt] true false in
  mkDefault [NewNetworkItem ["udp"]] [] [] [] [] [] [OfRuleSet item] (Some item) true None.
Definition sampleSourceBranch : abstractDefaultRule unit Empty_set :=
  let cidr := NewRawIPCIDRItem false [(Addr4 1, Addr4 9)] in mkDefault [] [] [] [] [cidr] [] [Plain cidr] None false None.

Lemma rule_set_branches_merge_witness :
  Match sampleNetwork (setStates sampleNetwork sampleContents) (DefaultRule sampleOuter) sampleMetadata = true /\
  Match sampleNetwork (setStates sampleNetwork (fun _ : unit => [DefaultRule sampleSourceBranch])) (DefaultRule sampleSourceOuter) sampleMetadata = false.
Proof.
  split.
  - rewrite (proj2 (rule_set_branches_merge sampleNetwork sampleContents sampleOuter
      (mkRuleSetItem ["s"] [tt] false false) sampleMetadata eq_refl ltac:(done) ltac:(done) ltac:(by repeat constructor)) eq_refl eq_refl). reflexivity.
  - rewrite (proj1 (rule_set_branches_merge sampleNetwork (fun _ : unit => [DefaultRule sampleSourceBranch]) sampleSourceOuter
      (mkRuleSetItem ["s"] [tt] true false) sampleMetadata eq_refl ltac:(done) ltac:(done) ltac:(by repeat constructor))). reflexivity.
Defined.

Lemma default_rule_documented_formula_witness :
  Match sampleNetwork (setStates sampleNetwork sampleContents) (DefaultRule samplePlain) sampleMetadata
  = true.
Proof.
  rewrite (default_rule_documented_formula sampleNetwork sampleContents samplePlain sampleMetadata);
    done.
Defined.

Lemma match_states_extend_base_witness :
  extends 1 (matchStatesWithBase sampleNetwork (setStates sampleNetwork sampleContents)
    (DefaultRule sampleOuter) sampleMetadata 1).
Proof.
  apply (match_states_extend_base sampleNetwork sampleContents (DefaultRule sampleOuter)
    sampleMetadata 1). done.
Defined.

Lemma inverted_rule_states_witness :
  matchStatesWithBase sampleNetwork (setStates sampleNetwork sampleContents)
    (DefaultRule {| sampleOuter with invert := true |}) sampleMetadata 2 = 0.
Proof.
  rewrite (inverted_rule_states sampleNetwork sampleContents sampleOuter sampleMetadata 2); done.
Defined.

End Witnesses.
