(* ===== verification/Compile.v ===== *)
(** * Compiling a rule-set does not change what it matches

    A source rule and its compiled form are built into rules whose items differ
    only in their log text. *)

From S2P Require Import Prelude GoStd Metadata Binary Instances MatchState RuleItems Rules RuleFacts.
From S2P Require Import HeadlessOptions HeadlessBuild Srs SrsFacts SrsTheorems.
Import netip MatchState RuleItems Rules Srs.

Open Scope N_scope.

(** ** Rules with items that match alike *)

Section Similar.
Context `{E : Externals} {A S : Type}.

Definition same_item (it it' : RuleItem) : Prop :=
  forall net md, item_Match net it md = item_Match net it' md.

Record similar (r r' : abstractDefaultRule A S) : Prop := {
  similar_items : Forall2 same_item (items r) (items r');
  similar_sourceAddress : Forall2 same_item (sourceAddressItems r) (sourceAddressItems r');
  similar_sourcePort : Forall2 same_item (sourcePortItems r) (sourcePortItems r');
  similar_destinationAddress :
    Forall2 same_item (destinationAddressItems r) (destinationAddressItems r');
  similar_destinationIPCIDR :
    Forall2 same_item (destinationIPCIDRItems r) (destinationIPCIDRItems r');
  similar_destinationPort : Forall2 same_item (destinationPortItems r) (destinationPortItems r');
  similar_allItems : length (allItems r) = length (allItems r');
  similar_ruleSetItem : ruleSetItem r = ruleSetItem r';
  similar_invert : invert r = invert r';
}.

Lemma nonempty_sim (l l' : list RuleItem) : Forall2 same_item l l' -> nonempty l = nonempty l'.
Proof. by destruct 1. Qed.

Lemma matchAnyItem_sim net (l l' : list RuleItem) md :
  Forall2 same_item l l' -> matchAnyItem net l md = matchAnyItem net l' md.
Proof. induction 1 as [|x y l l' Hx _ IH]; simpl; [done|]. by rewrite Hx, IH. Qed.

Lemma matchGroup_sim net (l l' : list RuleItem) bit st :
  Forall2 same_item l l' ->
  matchGroup net (nonempty l) l bit st = matchGroup net (nonempty l') l' bit st.
Proof.
  intros H. unfold matchGroup. destruct st as [st md].
  by rewrite (nonempty_sim _ _ H), (matchAnyItem_sim net _ _ (setDidMatch md) H).
Qed.

Lemma matchIPCIDRGroup_sim net applies (l l' : list RuleItem) bit st :
  Forall2 same_item l l' ->
  matchIPCIDRGroup net applies l bit st = matchIPCIDRGroup net applies l' bit st.
Proof.
  intros H. unfold matchIPCIDRGroup. destruct st as [st md].
  by rewrite (matchAnyItem_sim net _ _ (setDidMatch md) H).
Qed.

Lemma matchItems_sim net (l l' : list RuleItem) md :
  Forall2 same_item l l' -> matchItems net l md = matchItems net l' md.
Proof.
  intros H. revert md. induction H as [|x y l l' Hx _ IH]; intros md; simpl; [done|].
  by rewrite Hx, IH.
Qed.

Lemma filter_ext (s : ruleMatchStateSet) p q : (forall st, p st = q st) -> filter s p = filter s q.
Proof.
  intros H. apply set_ext; [apply wf_set_filter..|]. intros i. by rewrite !contains_filter, H.
Qed.

Lemma default_sim net ss (r r' : abstractDefaultRule A S) md base :
  similar r r' ->
  default_matchStatesWithBase net ss r md base = default_matchStatesWithBase net ss r' md base.
Proof.
  intros [Hi Hsa Hsp Hda Hdc Hdp Hall Hrs Hinv].
  assert (forall md, destinationIPCIDRMatchesSource r md = destinationIPCIDRMatchesSource r' md) as E1.
  { intros. unfold destinationIPCIDRMatchesSource. by rewrite (nonempty_sim _ _ Hdc). }
  assert (forall md, destinationIPCIDRMatchesDestination r md
    = destinationIPCIDRMatchesDestination r' md) as E2.
  { intros. unfold destinationIPCIDRMatchesDestination. by rewrite (nonempty_sim _ _ Hdc). }
  assert (forall s md, filter s (allowed r md) = filter s (allowed r' md)) as E3.
  { intros. apply filter_ext. intros st. unfold allowed, requiresSourceAddressMatch,
      requiresDestinationAddressMatch.
    by rewrite E1, E2, (nonempty_sim _ _ Hsa), (nonempty_sim _ _ Hsp), (nonempty_sim _ _ Hda),
      (nonempty_sim _ _ Hdp). }
  unfold default_matchStatesWithBase, invertedFailure. rewrite Hall, Hinv, Hrs.
  rewrite (matchGroup_sim net _ _ _ _ Hsa), E1, (matchIPCIDRGroup_sim net _ _ _ _ _ Hdc).
  rewrite (matchGroup_sim net _ _ _ _ Hsp), (matchGroup_sim net _ _ _ _ Hda), E2.
  rewrite (matchIPCIDRGroup_sim net _ _ _ _ _ Hdc), (matchGroup_sim net _ _ _ _ Hdp).
  destruct (matchGroup _ _ _ _ _) as [st md1]. rewrite (matchItems_sim net _ _ _ Hi).
  destruct (matchItems _ _ _) as [matched md2].
  destruct (ruleSetItem r'); by rewrite E3, (nonempty_sim _ _ Hdc).
Qed.

(** Rules that reach the same states. *)
Definition same_rule (r r' : Rule A S) : Prop :=
  forall net ss md base, matchStatesWithBase net ss r md base = matchStatesWithBase net ss r' md base.

Lemma logical_sim (rules rules' : list (Rule A S)) mode inverted act :
  Forall2 same_rule rules rules' ->
  same_rule (LogicalRule rules mode inverted act) (LogicalRule rules' mode inverted act).
Proof.
  intros H net ss md base. cbn [matchStatesWithBase]. unfold logical_matchStatesWithBase.
  assert (forall b acc, logicalAnd (matchStatesWithBase net ss) rules md b acc
    = logicalAnd (matchStatesWithBase net ss) rules' md b acc) as ->.
  { intros b. induction H as [|x y l l' Hx _ IH]; intros acc; simpl; [done|]. rewrite Hx.
    case_bool; [done|apply IH]. }
  assert (forall b, logicalOr (matchStatesWithBase net ss) rules md b
    = logicalOr (matchStatesWithBase net ss) rules' md b) as ->; [|done].
  intros b. unfold logicalOr. generalize 0.
  induction H as [|x y l l' Hx _ IH]; intros acc; simpl; [done|]. by rewrite Hx, IH.
Qed.

End Similar.

(** ** Building from similar rules *)

Section Builders.
Context `{E : Externals} {A S : Type}.
#[local] Abbreviation rule_t := (abstractDefaultRule A S).

Lemma similar_refl (r : rule_t) : similar r r.
Proof.
  assert (forall l, Forall2 same_item l l) as H.
  { induction l; constructor; [by intros net md|done]. }
  by split.
Qed.

Definition adds_similar (add : rule_t -> RuleItem -> rule_t) : Prop :=
  forall r r' it it', similar r r' -> same_item it it' -> similar (add r it) (add r' it').

(** Appends the similar item to the group it changes. *)
Ltac solve_adds :=
  intros r r' it it' [] Hit; split; simpl; rewrite ?length_app;
  try apply Forall2_app; auto; simpl; lia.

Lemma adds_addItem : adds_similar addItem.
Proof. solve_adds. Qed.
Lemma adds_addSourceAddress : adds_similar addSourceAddress.
Proof. solve_adds. Qed.
Lemma adds_addSourcePort : adds_similar addSourcePort.
Proof. solve_adds. Qed.
Lemma adds_addDestinationAddress : adds_similar addDestinationAddress.
Proof. solve_adds. Qed.
Lemma adds_addDestinationIPCIDR : adds_similar addDestinationIPCIDR.
Proof. solve_adds. Qed.
Lemma adds_addDestinationPort : adds_similar addDestinationPort.
Proof. solve_adds. Qed.

Lemma same_item_refl (it : RuleItem) : same_item it it.
Proof. by intros net md. Qed.

Lemma addIf_similar b add it (r r' : rule_t) :
  adds_similar add -> similar r r' -> similar (addIf b add it r) (addIf b add it r').
Proof. intros Ha Hr. unfold addIf. destruct b; [|done]. apply Ha; [done|apply same_item_refl]. Qed.

Lemma addIfOk_similar b wrap add it (r r' : rule_t) R :
  adds_similar add -> similar r r' -> addIfOk b wrap add it r = Ok R ->
  exists R', addIfOk b wrap add it r' = Ok R' /\ similar R R'.
Proof.
  intros Ha Hr. unfold addIfOk. destruct b; [|intros [= <-]; eauto].
  destruct (map_err wrap it) as [item| |]; simpl; try done. intros [= <-].
  eexists. split; [done|]. apply Ha; [done|apply same_item_refl].
Qed.

End Builders.

#[export] Hint Resolve similar_refl adds_addItem adds_addSourceAddress adds_addSourcePort
  adds_addDestinationAddress adds_addDestinationIPCIDR adds_addDestinationPort same_item_refl
  addIf_similar : kernel.

(** ** Source rules *)

Section Compile.
Context `{L : CodecLaws} {A : Type}.
#[local] Abbreviation rule_t := (abstractDefaultRule A Empty_set).

(** A slice that is [nil] or has an element, as JSON options without empty
    lists give. *)
Definition nil_or_nonempty {B} (s : option (list B)) : Prop := s <> Some [].

(** Options as decoded from a source file: no compiled fields, no empty
    lists. *)
Record source_default (r : DefaultHeadlessRule) : Prop := {
  source_matchers : h_DomainMatcher r = None /\ h_SourceIPSet r = None /\ h_IPSet r = None /\
    h_AdGuardDomainMatcher r = None;
  source_lists : Forall nil_or_nonempty
    [h_Network r; h_Domain r; h_DomainSuffix r; h_DomainKeyword r; h_DomainRegex r;
     h_SourceIPCIDR r; h_IPCIDR r; h_SourcePortRange r; h_PortRange r; h_ProcessName r;
     h_ProcessPath r; h_ProcessPathRegex r; h_PackageName r; h_PackageNameRegex r;
     h_WIFISSID r; h_WIFIBSSID r; h_AdGuardDomain r];
  source_numbers : Forall nil_or_nonempty
    [h_QueryType r; h_SourcePort r; h_Port r; h_NetworkType r];
  source_interfaces : nil_or_nonempty (h_NetworkInterfaceAddress r) /\
    nil_or_nonempty (h_DefaultInterfaceAddress r);
}.

Lemma elems_norm {B} (s : slice B) : elems (norm s) = elems s.
Proof. unfold norm. by destruct s as [[|x l]|]. Qed.

Lemma NewDomainItem_matcher domains suffixes item :
  NewDomainItem domains suffixes = Ok item ->
  exists description, item = DomainItem (domain_NewMatcher domains suffixes false) description.
Proof. unfold NewDomainItem. repeat case_bool; try done; intros [= <-]; eauto. Qed.

Lemma NewIPCIDRItem_set isSource l item :
  NewIPCIDRItem isSource l = Ok item ->
  exists set description, item = IPCIDRItem set isSource description /\ buildSet l = Ok set.
Proof.
  unfold NewIPCIDRItem, buildSet. intros H. inv_ok. subst. do 2 eexists. split; [done|].
  by match goal with H : parse_prefixes _ _ = Ok _ |- _ => rewrite H end.
Qed.

(** The CIDR item of a source rule and the raw item of its compiled form. *)
Lemma cidr_similar part add isSource (l : list string) (r r' : rule_t) R :
  adds_similar add -> similar r r' -> nonempty l = true ->
  addIfOk true (causedBy part) add (NewIPCIDRItem isSource l) r = Ok R ->
  similar R (addOrRaw (compiledSet l) (NewRawIPCIDRItem isSource) add r').
Proof.
  intros Ha Hr Hl. unfold addIfOk, compiledSet. rewrite Hl.
  destruct (NewIPCIDRItem isSource l) as [item| |] eqn:Hi; simpl; try done. intros [= <-].
  destruct (NewIPCIDRItem_set _ _ _ Hi) as (set & description & -> & ->).
  by apply Ha.
Qed.

Lemma build_prefixes_compiled (l : list (option Prefix)) :
  build_prefixes (elems (compiledPrefixes l)) = build_prefixes l.
Proof.
  unfold compiledPrefixes, build_prefixes. destruct l as [|x l]; [done|].
  change (nonempty (x :: l)) with true. cbv iota.
  change (elems (Some ?k)) with k. rewrite map_map. apply map_ext. intros raw. apply Prefixable_Build_Some.
Qed.

Lemma interface_item_compiled (m : option (list (InterfaceType * slice (option Prefix)))) :
  NewNetworkInterfaceAddressItem (map (fun '(k, v) => (k, elems v)) (default [] (compiledEntries m)))
  = NewNetworkInterfaceAddressItem (map (fun '(k, v) => (k, elems v)) (default [] m)).
Proof.
  unfold NewNetworkInterfaceAddressItem.
  replace (map (fun '(k, v) => (k, build_prefixes v))
    (map (fun '(k, v) => (k, elems v)) (default [] (compiledEntries m))))
    with (map (fun '(k, v) => (k, build_prefixes v))
      (map (fun '(k, v) => (k, elems v)) (default [] m))); [done|].
  unfold compiledEntries. destruct m as [[|e l]|]; [done| |done].
  change (default [] (Some (e :: l))) with (e :: l).
  change (nonempty (e :: l)) with true. cbv iota. unfold from_option, id.
  rewrite !map_map. apply map_ext.
  intros [k v]. simpl. by rewrite build_prefixes_compiled.
Qed.

(** The four stages of [NewDefaultHeadlessRule] on the compiled options. *)

Lemma addressItems_similar v r (rule rule' : rule_t) R :
  v <> RuleSetVersion1 -> source_default r -> similar rule rule' ->
  headless_addressItems r rule = Ok R ->
  exists R', headless_addressItems (compiledDefault v r) rule' = Ok R' /\ similar R R'.
Proof.
  intros Hv [(Hm1 & Hm2 & Hm3 & _) _ _ _] Hr. unfold headless_addressItems, compiledDefault.
  cbn [h_QueryType h_Network h_Domain h_DomainSuffix h_DomainKeyword h_DomainRegex h_SourceIPCIDR
    h_IPCIDR h_DomainMatcher h_SourceIPSet h_IPSet]. rewrite !elems_norm.
  change (nonempty (elems (@None (list string)))) with false. cbn [orb]. cbv zeta.
  set (r1 := addIf _ addItem _ (addIf _ addItem _ rule)).
  set (r1' := addIf _ addItem _ (addIf _ addItem _ rule')).
  assert (similar r1 r1') as H1 by (subst r1 r1'; auto with kernel). intros H.
  apply bind_Ok_inv in H as (r2 & H2 & H). apply bind_Ok_inv in H as (r3 & H3 & H).
  apply bind_Ok_inv in H as (r4 & H4 & H). rewrite (proj2 (N.eqb_neq v RuleSetVersion1)) by done.
  cbn [mbind result_bind].
  assert (similar r2 (addOrRaw (if nonempty (elems (h_Domain r)) || nonempty (elems (h_DomainSuffix r))
    then Some (domain_NewMatcher (elems (h_Domain r)) (elems (h_DomainSuffix r)) false) else None)
    NewRawDomainItem addDestinationAddress r1')) as S2.
  { destruct (nonempty (elems (h_Domain r)) || nonempty (elems (h_DomainSuffix r))).
    - apply bind_Ok_inv in H2 as (item & Hi & [= <-]).
      apply NewDomainItem_matcher in Hi as (description & ->). by apply adds_addDestinationAddress.
    - rewrite Hm1 in H2. by inversion H2; subst. }
  destruct (addIfOk_similar _ _ _ _ _ _ _ adds_addDestinationAddress
    (addIf_similar _ _ _ _ _ adds_addDestinationAddress S2) H3) as (r3' & -> & S3).
  cbn [mbind result_bind].
  assert (similar r4 (addOrRaw (compiledSet (elems (h_SourceIPCIDR r))) (NewRawIPCIDRItem true)
    addSourceAddress r3')) as S4.
  { destruct (nonempty (elems (h_SourceIPCIDR r))) eqn:Hne.
    - eapply cidr_similar; eauto with kernel.
    - unfold compiledSet. rewrite Hne. rewrite Hm2 in H4. by inversion H4; subst. }
  eexists. split; [done|]. destruct (nonempty (elems (h_IPCIDR r))) eqn:Hne.
  - eapply cidr_similar; eauto with kernel.
  - unfold compiledSet. rewrite Hne. rewrite Hm3 in H. by inversion H; subst.
Qed.

Lemma portItems_similar v r (rule rule' : rule_t) R :
  similar rule rule' -> headless_portItems r rule = Ok R ->
  exists R', headless_portItems (compiledDefault v r) rule' = Ok R' /\ similar R R'.
Proof.
  intros Hr. unfold headless_portItems, compiledDefault.
  cbn [h_SourcePort h_SourcePortRange h_Port h_PortRange]. rewrite !elems_norm. cbv zeta. intros H.
  apply bind_Ok_inv in H as (r1 & H1 & H).
  destruct (addIfOk_similar _ _ _ _ _ _ _ adds_addSourcePort
    (addIf_similar _ _ _ _ _ adds_addSourcePort Hr) H1) as (r1' & -> & S1).
  cbn [mbind result_bind]. eapply addIfOk_similar; [| |exact H]; eauto with kernel.
Qed.

Lemma processItems_similar v r (rule rule' : rule_t) R :
  similar rule rule' -> headless_processItems r rule = Ok R ->
  exists R', headless_processItems (compiledDefault v r) rule' = Ok R' /\ similar R R'.
Proof.
  intros Hr. unfold headless_processItems, compiledDefault.
  cbn [h_ProcessName h_ProcessPath h_ProcessPathRegex h_PackageName h_PackageNameRegex].
  rewrite !elems_norm. cbv zeta. intros H. apply bind_Ok_inv in H as (r1 & H1 & H).
  destruct (addIfOk_similar _ _ _ _ _ _ _ adds_addItem (addIf_similar _ _ _ _ _ adds_addItem
    (addIf_similar _ _ _ _ _ adds_addItem Hr)) H1) as (r1' & -> & S1).
  cbn [mbind result_bind]. eapply addIfOk_similar; [| |exact H]; eauto with kernel.
Qed.

Lemma nonempty_compiledPrefixes l : nonempty (elems (compiledPrefixes l)) = nonempty l.
Proof. by destruct l. Qed.
Lemma nonempty_compiledEntries m : nonempty (default [] (compiledEntries m)) = nonempty (default [] m).
Proof. by destruct m as [[|]|]. Qed.

Lemma networkItems_similar networkManager v r (rule rule' : rule_t) :
  similar rule rule' ->
  similar (headless_networkItems networkManager r rule)
    (headless_networkItems networkManager (compiledDefault v r) rule').
Proof.
  intros Hr. unfold headless_networkItems, compiledDefault. destruct networkManager; [|done].
  cbn [h_NetworkType h_NetworkIsExpensive h_NetworkIsConstrained h_WIFISSID h_WIFIBSSID
    h_NetworkInterfaceAddress h_DefaultInterfaceAddress].
  rewrite !elems_norm, nonempty_compiledPrefixes, nonempty_compiledEntries, interface_item_compiled.
  unfold NewDefaultInterfaceAddressItem. rewrite build_prefixes_compiled. auto 12 with kernel.
Qed.

Lemma NewDefaultHeadlessRule_compiled networkManager v r (R : rule_t) :
  v <> RuleSetVersion1 -> source_default r -> NewDefaultHeadlessRule networkManager r = Ok R ->
  exists R', NewDefaultHeadlessRule networkManager (compiledDefault v r) = Ok R' /\ similar R R'.
Proof.
  intros Hv Hsrc H. unfold NewDefaultHeadlessRule in H |- *.
  apply bind_Ok_inv in H as (r1 & H1 & H). apply bind_Ok_inv in H as (r2 & H2 & H).
  apply bind_Ok_inv in H as (r3 & H3 & H). apply Ok_inj in H.
  destruct (addressItems_similar v r _ _ _ Hv Hsrc (similar_refl _) H1) as (r1' & E1 & S1).
  change (h_Invert (compiledDefault v r)) with (h_Invert r). rewrite E1.
  cbn [mbind result_bind]. destruct (portItems_similar v r _ _ _ S1 H2) as (r2' & -> & S2).
  cbn [mbind result_bind].
  destruct (processItems_similar v r _ _ _ S2 H3) as (r3' & -> & S3).
  cbn [mbind result_bind]. eexists. split; [reflexivity|]. subst R.
  apply (networkItems_similar networkManager v r) in S3.
  destruct Hsrc as [(_ & _ & _ & Hm) _ _ _]. 
  change (nonempty (elems (h_AdGuardDomain (compiledDefault v r)))) with false.
  change (h_AdGuardDomainMatcher (compiledDefault v r)) with
    (if nonempty (elems (h_AdGuardDomain r))
     then Some (domain_NewAdGuardMatcher (elems (h_AdGuardDomain r))) else None).
  destruct (nonempty (elems (h_AdGuardDomain r))).
  - by apply adds_addDestinationAddress.
  - rewrite Hm. done.
Qed.

(** ** The compiled rule is valid *)

Lemma isNil_norm {B} (s : slice B) : nil_or_nonempty s -> isNil (norm s) = true -> isNil s = true.
Proof. by destruct s as [[|x l]|]. Qed.

Lemma isNil_elems {B} (s : slice B) : nil_or_nonempty s -> nonempty (elems s) = false -> isNil s = true.
Proof. by destruct s as [[|x l]|]. Qed.

Lemma addIfOk_cidr wrap add isSource l (r R : rule_t) :
  addIfOk true wrap add (NewIPCIDRItem isSource l) r = Ok R -> exists set, buildSet l = Ok set.
Proof.
  unfold addIfOk. intros H. inv_ok. edestruct NewIPCIDRItem_set as (set & _ & _ & Hs); eauto.
Qed.

Lemma builds_sets networkManager r (R : rule_t) :
  NewDefaultHeadlessRule networkManager r = Ok R ->
  (isNil (compiledSet (elems (h_SourceIPCIDR r))) = true -> nonempty (elems (h_SourceIPCIDR r)) = false) /\
  (isNil (compiledSet (elems (h_IPCIDR r))) = true -> nonempty (elems (h_IPCIDR r)) = false).
Proof.
  unfold NewDefaultHeadlessRule, headless_addressItems. intros H.
  apply bind_Ok_inv in H as (r1 & H & _). apply bind_Ok_inv in H as (r2 & _ & H).
  apply bind_Ok_inv in H as (r3 & _ & H). apply bind_Ok_inv in H as (r4 & H4 & H).
  unfold compiledSet. split.
  - destruct (nonempty (elems (h_SourceIPCIDR r))); [|done].
    apply addIfOk_cidr in H4 as [set ->]. done.
  - destruct (nonempty (elems (h_IPCIDR r))); [|done].
    apply addIfOk_cidr in H as [set ->]. done.
Qed.

Lemma compiledDefault_valid networkManager v r (R : rule_t) :
  source_default r -> NewDefaultHeadlessRule networkManager r = Ok R ->
  default_IsValid r = true -> default_IsValid (compiledDefault v r) = true.
Proof.
  intros [(Hm1 & Hm2 & Hm3 & Hm4) Hl Hn [Hi1 Hi2]] [Hb1 Hb2]%builds_sets Hvalid.
  apply not_false_iff_true. intros Hc. revert Hvalid. apply not_true_iff_false.
  unfold default_IsValid, compiledDefault in Hc.
  cbn [h_QueryType h_Network h_Domain h_DomainSuffix h_DomainKeyword h_DomainRegex h_SourceIPCIDR
    h_IPCIDR h_SourcePort h_SourcePortRange h_Port h_PortRange h_ProcessName h_ProcessPath
    h_ProcessPathRegex h_PackageName h_PackageNameRegex h_NetworkType h_NetworkIsExpensive
    h_NetworkIsConstrained h_WIFISSID h_WIFIBSSID h_NetworkInterfaceAddress
    h_DefaultInterfaceAddress h_Invert h_DomainMatcher h_SourceIPSet h_IPSet h_AdGuardDomain
    h_AdGuardDomainMatcher] in Hc. rewrite negb_false_iff, !andb_true_iff in Hc. destruct_and! Hc.
  repeat match goal with
  | H : Forall nil_or_nonempty (_ :: _) |- _ => apply Forall_cons_iff in H as [? H]
  end.
  unfold default_IsValid. rewrite negb_false_iff, !andb_true_iff, Hm1, Hm2, Hm3, Hm4.
  assert (nonempty (elems (h_Domain r)) = false /\ nonempty (elems (h_DomainSuffix r)) = false) as [].
  { apply orb_false_iff. by destruct (_ || _). }
  assert (nonempty (elems (h_AdGuardDomain r)) = false) by by destruct (nonempty (elems (h_AdGuardDomain r))).
  assert (nonempty (default [] (h_NetworkInterfaceAddress r)) = false).
  { unfold compiledEntries in *. by destruct (nonempty (default [] (h_NetworkInterfaceAddress r))). }
  assert (nonempty (elems (h_DefaultInterfaceAddress r)) = false).
  { unfold compiledPrefixes in *. by destruct (nonempty (elems (h_DefaultInterfaceAddress r))). }
  repeat match goal with |- _ /\ _ => split end; auto using isNil_norm, isNil_elems.
Qed.

(** ** Rules *)

Fixpoint source_rule (options : HeadlessRuleOptions) : Prop :=
  match options with
  | mkHeadlessRule type_ defaultOptions _ rules _ =>
      (type_ = RuleTypeDefault /\ source_default defaultOptions) \/
      (type_ = RuleTypeLogical /\ foldr (fun rule P => source_rule rule /\ P) True rules)
  end.

Lemma build_all_Ok {B D} (new : B -> result D) i l out :
  build_all new i l = Ok out -> Forall2 (fun x y => new x = Ok y) l out.
Proof.
  revert i out. induction l as [|x l IH]; intros i out; simpl; [by intros [= <-]|].
  destruct (new x) as [y| |] eqn:Hx; try done. intros H. inv_ok. subst. constructor; [done|].
  by eapply IH.
Qed.

Lemma build_all_intro {B D} (new : B -> result D) i l out :
  Forall2 (fun x y => new x = Ok y) l out -> build_all new i l = Ok out.
Proof.
  intros H. revert i. induction H as [|x y l out Hx _ IH]; intros i; simpl; [done|].
  by rewrite Hx, IH.
Qed.

Lemma all_valid_intro {B} (p : B -> result bool) (l : list B) :
  Forall (fun x => p x = Ok true) l -> all_valid p l = Ok true.
Proof. induction 1 as [|x l Hx _ IH]; simpl; [done|]. by rewrite Hx. Qed.

Lemma compiled_builds networkManager v options (R : HeadlessRule A) :
  v <> RuleSetVersion1 -> source_rule options -> NewHeadlessRule networkManager options = Ok R ->
  rule_IsValid (compiled v options) = Ok true /\
  exists R', NewHeadlessRule networkManager (compiled v options) = Ok R' /\ same_rule R R'.
Proof.
  intros Hv. revert R. induction options as [type_ o mode rules IH invert]; intros R.
  apply list_all_Forall in IH. cbn [source_rule compiled NewHeadlessRule].
  intros [[-> Hsrc]|[-> Hsrc]].
  - simpl bool_decide. cbv iota. cbn [orb]. cbn [rule_IsValid NewHeadlessRule].
    destruct (default_IsValid o) eqn:Hvalid; [|done]. cbn [negb].
    intros H. apply bind_Ok_inv in H as (r & Hr & [= <-]).
    rewrite (compiledDefault_valid networkManager v o r) by done. split; [done|].
    destruct (NewDefaultHeadlessRule_compiled networkManager v o r Hv Hsrc Hr) as (r' & Hr' & Hs).
    simpl. rewrite Hr'. eexists. split; [done|].
    intros net ss md base. simpl. by rewrite (default_sim net ss r r' md base Hs).
  - simpl bool_decide. cbv iota. cbn [orb]. cbn [rule_IsValid NewHeadlessRule].
    intros H. apply bind_Ok_inv in H as (valid & Hvalid & H).
    destruct valid; [|done]. cbn [negb] in H.
    destruct (bool_decide (mode = LogicalTypeAnd) || bool_decide (mode = LogicalTypeOr)); [|done].
    apply bind_Ok_inv in H as (built & Hb%build_all_Ok & [= <-]).
    assert (nonempty rules = true) as Hne.
    { unfold logical_IsValid in Hvalid. unfold nonempty. by destruct (0 <? length rules)%nat. }
    assert (exists built', Forall (fun o => rule_IsValid (compiled v o) = Ok true) rules /\
      Forall2 (fun o r => NewHeadlessRule networkManager (compiled v o) = Ok r) rules built' /\
      Forall2 same_rule built built') as (built' & Hv' & Hb' & Hs).
    { clear Hne Hvalid. induction Hb as [|x r rules built Hr _ IHb]; [by exists []|].
      destruct Hsrc as [Ho Hsrc]. apply Forall_cons_iff in IH as [IHo IH].
      destruct (IHo r Ho Hr) as (Hvo & r' & Hr' & Hs).
      destruct (IHb IH Hsrc) as (built' & ? & ? & ?). exists (r' :: built'). by repeat constructor. }
    assert (logical_IsValid (map (compiled v) rules) = Ok true) as Hlv.
    { unfold logical_IsValid. rewrite length_map. unfold nonempty in Hne. rewrite Hne.
      apply all_valid_intro. by apply Forall_fmap. }
    split; [done|]. simpl bool_decide. cbv iota. cbn [orb]. rewrite Hlv. cbn [mbind result_bind negb].
    rewrite (build_all_intro _ _ _ built') by by apply Forall2_fmap_l.
    eexists. split; [done|]. by apply logical_sim.
Qed.

Lemma ruleSet_sim net (rules rules' : list (HeadlessRule A)) md base :
  Forall2 same_rule rules rules' ->
  ruleSet_matchStatesWithBase net rules md base = ruleSet_matchStatesWithBase net rules' md base.
Proof.
  intros H. unfold ruleSet_matchStatesWithBase. generalize 0.
  induction H as [|r r' rules rules' Hr _ IH]; intros acc; simpl; [done|].
  rewrite <- IH. do 2 f_equal. apply Hr.
Qed.

(** C4: compiling a rule-set preserves its meaning.  For source rules that build
    and fit the format, the file written for a version from 2 on is read back
    into options that build again, into a rule-set that reaches exactly the same
    match states on every connection, network state and inherited state. *)
Theorem compile_preserves_matching networkManager (rules : PlainRuleSet) (v : N) bytes
    (built : list (HeadlessRule A)) :
  RuleSetVersion2 <= v <= RuleSetVersionCurrent ->
  Forall source_rule rules -> Forall rule_fits rules -> fits (length rules) sizeof_HeadlessRule ->
  Forall2 (fun options rule => NewHeadlessRule networkManager options = Ok rule) rules built ->
  Write rules v = Ok bytes ->
  exists rules' (built' : list (HeadlessRule A)), Read false bytes = Some (Ok (v, rules')) /\
    Forall2 (fun options rule => NewHeadlessRule networkManager options = Ok rule) rules' built' /\
    forall net md base, ruleSet_matchStatesWithBase net built md base
                        = ruleSet_matchStatesWithBase net built' md base.
Proof.
  intros [Hv1 Hv2] Hsrc Hfits Hn Hb Hw. exists (map (compiled v) rules).
  assert (v <> RuleSetVersion1) as Hv by (unfold RuleSetVersion1, RuleSetVersion2 in *; lia).
  assert (exists built',
    Forall2 (fun o r => NewHeadlessRule networkManager (compiled v o) = Ok r) rules built' /\
    Forall2 same_rule built built') as (built' & Hb' & Hs).
  { clear Hw Hn Hfits. induction Hb as [|x r rules built Hr _ IH]; [by exists []|].
    apply Forall_cons_iff in Hsrc as [Hx Hsrc].
    destruct (compiled_builds networkManager v x r Hv Hx Hr) as (_ & r' & Hr' & Hs).
    destruct (IH Hsrc) as (built' & ? & ?). exists (r' :: built'). by repeat constructor. }
  exists built'. split; [by apply read_written|]. split; [by apply Forall2_fmap_l|].
  intros. by apply ruleSet_sim.
Qed.

End Compile.

Section Witness.
#[local] Existing Instance sampleExternals.
#[local] Existing Instance sampleCodec.

Lemma sampleDefault_source : source_default sampleDefault.
Proof. split; repeat constructor; done. Qed.

Lemma compile_preserves_matching_witness :
  exists bytes built rules' (built' : list (HeadlessRule unit)), Write sampleRules 5 = Ok bytes /\
    Forall2 (fun options rule => NewHeadlessRule (A := unit) true options = Ok rule) sampleRules built /\
    Read false bytes = Some (Ok (5, rules')) /\
    forall net md base, ruleSet_matchStatesWithBase net built md base
                        = ruleSet_matchStatesWithBase net built' md base.
Proof.
  eexists _, _.
  edestruct (@compile_preserves_matching sampleExternals sampleCodec sampleLaws unit true sampleRules 5)
    as (rules' & built' & Hr & _ & Hs).
  - done.
  - constructor; [|constructor]. right. split; [done|].
    split; [|split; [|done]]; left; (split; [done|exact sampleDefault_source]).
  - constructor; [|constructor]. cbn.
    repeat match goal with |- _ /\ _ => split end; try done; first [exact zero_fits | exact sampleDefault_fits].
  - done.
  - constructor; [reflexivity|constructor].
  - reflexivity.
  - exists rules', built'. split; [reflexivity|]. split; [constructor; [reflexivity|constructor]|].
    split; [exact Hr|exact Hs].
Defined.

End Witness.
