(* ===== verification/DnsRules.v ===== *)
(** * DNS rules (src/route/rule/rule_dns.go)

    A DNS rule is matched before the query is sent ([LegacyPreMatch] in the legacy
    mode, with destination [ip_cidr] conditions deferred, or [Match]) and again
    on the response ([MatchAddressLimit]).  The nested rules of a logical DNS
    rule go through the methods of [abstractDefaultRule] and
    [abstractLogicalRule] on those two paths: [erase] is that view. *)

From S2P Require Import Prelude GoStd Metadata MatchState RuleItems Rules RuleFacts RuleTheorems.
Import MatchState RuleItems Rules.

Open Scope N_scope.

Module DnsRules.
Section DnsRules.
Context `{E : Externals} {A S : Type}.

Inductive DNSRule : Type :=
| DefaultDNSRule (r : abstractDefaultRule A S) (matchResponse : bool)
| LogicalDNSRule (rules : list DNSRule) (mode : string) (inverted : bool) (act : option A).

Fixpoint erase (rule : DNSRule) : Rule A S :=
  match rule with
  | DefaultDNSRule r _ => DefaultRule r
  | LogicalDNSRule rules mode inverted act => LogicalRule (map erase rules) mode inverted act
  end.

Variable net : Network.
Variable ruleSet_matchStatesWithBase : S -> InboundContext -> ruleMatchState -> ruleMatchStateSet.
(** [RuleSetMetadata.ContainsIPCIDRRule] of a loaded rule-set. *)
Variable containsIPCIDRRule : S -> bool.

Definition ContainsDestinationIPCIDRRule (item : RuleSetItem S) : bool :=
  if ipCidrMatchSource item then false else existsb containsIPCIDRRule (setList item).

Definition default_WithAddressLimit (r : abstractDefaultRule A S) : bool :=
  if nonempty (destinationIPCIDRItems r) then true
  else match ruleSetItem r with
  | Some ruleSet => ContainsDestinationIPCIDRRule ruleSet
  | None => false
  end.

Fixpoint WithAddressLimit (rule : DNSRule) : bool :=
  match rule with
  | DefaultDNSRule r _ => default_WithAddressLimit r
  | LogicalDNSRule rules _ _ _ => existsb WithAddressLimit rules
  end.

Definition default_matchStatesForMatch (r : abstractDefaultRule A S) (matchResponse : bool)
    (metadata : InboundContext) : ruleMatchStateSet :=
  if matchResponse then
    match DNSResponse metadata with
    | None => invertedFailure r 0
    | Some _ =>
        matchStates net ruleSet_matchStatesWithBase (DefaultRule r)
          {| metadata with DestinationAddressMatchFromResponse := true |}
    end
  else matchStates net ruleSet_matchStatesWithBase (DefaultRule r) metadata.

(** The [and] loop of [LogicalDNSRule.matchStatesForMatch]; [None] is its early
    return. *)
Definition dns_logicalAnd (nested : DNSRule -> InboundContext -> ruleMatchStateSet)
    (metadata : InboundContext) : list DNSRule -> ruleMatchStateSet -> option ruleMatchStateSet :=
  fix go rules stateSet :=
    match rules with
    | [] => Some stateSet
    | rule :: rules =>
        let nestedStateSet := nested rule (ResetRuleCache metadata) in
        if isEmpty nestedStateSet then None else go rules (combine stateSet nestedStateSet)
    end.

Definition dns_logicalOr (nested : DNSRule -> InboundContext -> ruleMatchStateSet)
    (metadata : InboundContext) (rules : list DNSRule) : ruleMatchStateSet :=
  fold_left (fun stateSet rule => merge stateSet (nested rule (ResetRuleCache metadata))) rules 0.

Fixpoint matchStatesForMatch (rule : DNSRule) (metadata : InboundContext) : ruleMatchStateSet :=
  match rule with
  | DefaultDNSRule r matchResponse => default_matchStatesForMatch r matchResponse metadata
  | LogicalDNSRule rules mode inverted _ =>
      let failure := if inverted then emptyRuleMatchState else 0 in
      if bool_decide (mode = LogicalTypeAnd) then
        match dns_logicalAnd matchStatesForMatch metadata rules emptyRuleMatchState with
        | None => failure
        | Some stateSet => if inverted then 0 else stateSet
        end
      else
        let stateSet := dns_logicalOr matchStatesForMatch metadata rules in
        if isEmpty stateSet then failure else if inverted then 0 else stateSet
  end.

Definition dns_Match (rule : DNSRule) (metadata : InboundContext) : bool :=
  negb (isEmpty (matchStatesForMatch rule metadata)).

(** [LegacyPreMatch] raises [IgnoreDestinationIPCIDRMatch] for the evaluation
    and leaves it lowered; the metadata after the call is the second result. *)
Definition LegacyPreMatch (rule : DNSRule) (metadata : InboundContext) : bool * InboundContext :=
  match rule with
  | DefaultDNSRule r true => (false, metadata)
  | DefaultDNSRule r false =>
      let metadata := {| metadata with IgnoreDestinationIPCIDRMatch := true |} in
      let '(stateSet, metadata) :=
        default_matchStatesWithBase net ruleSet_matchStatesWithBase r metadata 0 in
      (negb (isEmpty stateSet), {| metadata with IgnoreDestinationIPCIDRMatch := false |})
  | LogicalDNSRule _ _ _ _ =>
      let metadata := {| metadata with IgnoreDestinationIPCIDRMatch := true |} in
      (negb (isEmpty (matchStates net ruleSet_matchStatesWithBase (erase rule) metadata)),
       {| metadata with IgnoreDestinationIPCIDRMatch := false |})
  end.

(** The metadata [MatchAddressLimit] evaluates the response with. *)
Definition responseMetadata (metadata : InboundContext) (response : option Msg) : InboundContext :=
  {| metadata with DNSResponse := response; DestinationAddressMatchFromResponse := true |}.

Definition MatchAddressLimit (rule : DNSRule) (metadata : InboundContext) (response : option Msg) : bool :=
  negb (isEmpty (matchStates net ruleSet_matchStatesWithBase (erase rule)
    (responseMetadata metadata response))).

Definition dns_Action (rule : DNSRule) : option A :=
  match rule with
  | DefaultDNSRule r _ => action r
  | LogicalDNSRule _ _ _ act => act
  end.

(** ** Specification *)

(** No rule of the tree waits for a response. *)
Fixpoint withoutResponse (rule : DNSRule) : bool :=
  match rule with
  | DefaultDNSRule _ matchResponse => negb matchResponse
  | LogicalDNSRule rules _ _ _ => forallb withoutResponse rules
  end.

(** The item reads the response under evaluation. *)
Definition readsResponse (it : RuleItem) : bool :=
  match it with
  | DNSResponseRCodeItem _ | DNSResponseRecordItem _ _ _ | IPAcceptAnyItem => true
  | IPCIDRItem _ isSource _ | IPIsPrivateItem isSource => negb isSource
  | _ => false
  end.

End DnsRules.

Arguments DNSRule {E} A S.

End DnsRules.
