(* ===== verification/DnsTheorems.v ===== *)
(** * Correctness of DNS rule matching *)

From Stdlib Require Import Btauto.
From S2P Require Import Prelude GoStd Metadata Instances MatchState RuleItems Rules RuleFacts.
From S2P Require Import RuleTheorems DnsRules.
Import netip MatchState RuleItems Rules DnsRules.

Open Scope N_scope.

Section Theorems.
Context `{E : Externals} {A S : Type}.
Variable net : Network.
Variable ss : S -> InboundContext -> ruleMatchState -> ruleMatchStateSet.

(** ** The logical loops *)

Lemma dns_logicalAnd_eq (nested : DNSRule A S -> InboundContext -> ruleMatchStateSet)
    (nested' : Rule A S -> InboundContext -> ruleMatchState -> ruleMatchStateSet)
    (rules : list (DNSRule A S)) md acc :
  Forall (fun rule => forall md, nested rule md = nested' (erase rule) md 0) rules ->
  dns_logicalAnd nested md rules acc = logicalAnd nested' (map erase rules) md 0 acc.
Proof.
  intros H. revert acc. induction H as [|rule rules Hr _ IH]; intros acc; simpl; [done|].
  rewrite Hr. case_bool; [done|apply IH].
Qed.

Lemma dns_logicalOr_eq (nested : DNSRule A S -> InboundContext -> ruleMatchStateSet)
    (nested' : Rule A S -> InboundContext -> ruleMatchState -> ruleMatchStateSet)
    (rules : list (DNSRule A S)) md :
  Forall (fun rule => forall md, nested rule md = nested' (erase rule) md 0) rules ->
  dns_logicalOr nested md rules = logicalOr nested' (map erase rules) md 0.
Proof.
  unfold dns_logicalOr, logicalOr. intros H. generalize 0 at 1 3.
  induction H as [|rule rules Hr _ IH]; intros acc; simpl; [done|]. by rewrite Hr, IH.
Qed.

Lemma matchStatesForMatch_erase (rule : DNSRule A S) md :
  withoutResponse rule = true ->
  matchStatesForMatch net ss rule md = matchStatesWithBase net ss (erase rule) md 0.
Proof.
  revert md. induction rule as [r matchResponse|rules IH mode inverted act]; intros md Hw.
  - destruct matchResponse; [done|]. done.
  - apply list_all_Forall in IH. cbn [withoutResponse] in Hw.
    assert (Forall (fun rule => forall md, matchStatesForMatch net ss rule md
      = matchStatesWithBase net ss (erase rule) md 0) rules) as Hn.
    { rewrite forallb_forall in Hw. rewrite List.Forall_forall in IH |- *. auto. }
    cbn [matchStatesForMatch erase matchStatesWithBase]. unfold logical_matchStatesWithBase.
    replace (if inverted then 0 else 0) with 0 by by destruct inverted.
    rewrite !withBase_empty by done. change (singleRuleMatchState 0) with emptyRuleMatchState.
    by rewrite (dns_logicalAnd_eq _ _ _ _ _ Hn), (dns_logicalOr_eq _ _ _ _ Hn).
Qed.

Lemma wf_matchStatesForMatch (rule : DNSRule A S) md : wf_set (matchStatesForMatch net ss rule md).
Proof.
  revert md. induction rule as [r matchResponse|rules IH mode inverted act]; intros md.
  - cbn [matchStatesForMatch]. unfold default_matchStatesForMatch, invertedFailure.
    destruct matchResponse; [destruct (DNSResponse md)|]; try apply wf_matchStatesWithBase.
    case_bool; auto using wf_set_withBase, wf_set_0.
  - apply list_all_Forall in IH. cbn [matchStatesForMatch]. case_bool_decide.
    + assert (forall (l : list (DNSRule A S)) acc s, wf_set acc ->
        dns_logicalAnd (matchStatesForMatch net ss) md l acc = Some s -> wf_set s) as Ha.
      { intros l. induction l as [|r l IHl]; intros acc s Hacc; simpl; [by intros [= <-]|].
        case_bool; [done|]. apply IHl, wf_set_combine. }
      destruct (dns_logicalAnd _ _ _ _) eqn:He; [apply Ha in He; [|done]|]; by destruct inverted.
    + assert (wf_set (dns_logicalOr (matchStatesForMatch net ss) md rules)).
      { apply wf_fold_merge; [|done]. eapply Forall_impl; [|exact IH]. simpl. auto. }
      repeat case_bool; done.
Qed.

(** ** Items and the response *)

Lemma item_Match_response (it : RuleItem) md response :
  readsResponse it = false ->
  item_Match net it (responseMetadata md response) = item_Match net it md.
Proof. destruct it; try done; simpl; destruct isSource; done. Qed.

Lemma any_response (l : list RuleItem) md response :
  forallb (fun it => negb (readsResponse it)) l = true ->
  matchAnyItem net l (responseMetadata md response) = matchAnyItem net l md.
Proof.
  intros H. apply existsb_ext_in, List.Forall_forall. intros it Hin.
  rewrite forallb_forall in H. apply item_Match_response, negb_true_iff, H, Hin.
Qed.

Lemma all_response (l : list RuleItem) md response :
  forallb (fun it => negb (readsResponse it)) l = true ->
  forallb (fun it => item_Match net it (responseMetadata md response)) l
  = forallb (fun it => item_Match net it md) l.
Proof.
  intros H. apply forallb_ext_in, List.Forall_forall. intros it Hin.
  rewrite forallb_forall in H. apply item_Match_response, negb_true_iff, H, Hin.
Qed.

(** ** The two phases of a default rule *)

(** The conditions other than the destination address. *)
Definition otherConditions (r : abstractDefaultRule A S) (md : InboundContext) : bool :=
  forallb (fun it => item_Match net it md) (items r)
  && anyOf net (sourceAddressItems r) md && anyOf net (sourcePortItems r) md
  && anyOf net (destinationPortItems r) md.

(** Only the destination [ip_cidr] group reads the response. *)
Definition responseFree (r : abstractDefaultRule A S) : bool :=
  forallb (fun it => negb (readsResponse it))
    (items r ++ sourceAddressItems r ++ sourcePortItems r ++ destinationAddressItems r
     ++ destinationPortItems r).

Lemma responseFree_groups (r : abstractDefaultRule A S) :
  responseFree r = true ->
  forallb (fun it => negb (readsResponse it)) (items r) = true /\
  forallb (fun it => negb (readsResponse it)) (sourceAddressItems r) = true /\
  forallb (fun it => negb (readsResponse it)) (sourcePortItems r) = true /\
  forallb (fun it => negb (readsResponse it)) (destinationAddressItems r) = true /\
  forallb (fun it => negb (readsResponse it)) (destinationPortItems r) = true.
Proof. unfold responseFree. rewrite !forallb_app, !andb_true_iff. tauto. Qed.

Lemma preMatch_eq (r : abstractDefaultRule A S) md :
  ruleSetItem r = None -> allItems r <> [] -> invert r = false ->
  (LegacyPreMatch net ss (DefaultDNSRule r false) md).1
  = otherConditions r md && anyOf net (destinationAddressItems r) md.
Proof.
  intros Hr Ha Hi. unfold LegacyPreMatch.
  set (md' := {| md with IgnoreDestinationIPCIDRMatch := true |}).
  pose proof (default_matchStates_eq net ss r md' 0 Ha) as He.
  destruct (default_matchStatesWithBase net ss r md' 0) as [s md'']. simpl in He |- *. subst s.
  rewrite Hi, reached_no_ruleSet, isEmpty_if_single by (try done; by apply baseState_wf).
  unfold conditions, otherConditions, anyOf, sourceAddressHit, destinationAddressHit,
    requiresSourceAddressMatch, requiresDestinationAddressMatch,
    destinationIPCIDRMatchesSource, destinationIPCIDRMatchesDestination. rewrite !has_0.
  change (IgnoreDestinationIPCIDRMatch md') with true. cbn [negb andb orb].
  rewrite !orb_false_r. change (matchAnyItem net ?l md') with (matchAnyItem net l md).
  change (forallb (fun it => item_Match net it md') (items r))
    with (forallb (fun it => item_Match net it md) (items r)).
  destruct (forallb _ _), (nonempty (sourceAddressItems r)), (nonempty (sourcePortItems r)),
    (nonempty (destinationAddressItems r)), (nonempty (destinationPortItems r));
    cbn [negb andb orb implb]; btauto.
Qed.

Lemma addressLimit_eq (r : abstractDefaultRule A S) md response :
  ruleSetItem r = None -> allItems r <> [] -> invert r = false -> responseFree r = true ->
  IgnoreDestinationIPCIDRMatch md = false -> IPCIDRMatchSource md = false ->
  MatchAddressLimit net ss (DefaultDNSRule r false) md response
  = otherConditions r md &&
    (matchAnyItem net (destinationAddressItems r) md
     || matchAnyItem net (destinationIPCIDRItems r) (responseMetadata md response)
     || negb (nonempty (destinationAddressItems r) || nonempty (destinationIPCIDRItems r))).
Proof.
  intros Hr Ha Hi (F1 & F2 & F3 & F4 & F5)%responseFree_groups Hg Hs.
  unfold MatchAddressLimit, matchStates. cbn [erase matchStatesWithBase].
  rewrite default_matchStates_eq, Hi, reached_no_ruleSet, isEmpty_if_single
    by (try done; by apply baseState_wf).
  rewrite conditions_documented by done. unfold documentedFormula, otherConditions, anyOf.
  rewrite matchAnyItem_app, nonempty_app, all_response by done.
  rewrite (any_response (destinationAddressItems r)), (any_response (destinationPortItems r)),
    (any_response (sourceAddressItems r)), (any_response (sourcePortItems r)) by done.
  btauto.
Qed.

(** ** The theorems *)

(** DNS rules are rules.  For a rule none of whose parts waits for a response,
    matching a DNS query is the ordinary matching of rules, through every level
    of logical nesting. *)
Theorem dns_match_is_rule_match (rule : DNSRule A S) md :
  withoutResponse rule = true -> dns_Match net ss rule md = Match net ss (erase rule) md.
Proof. intros Hw. unfold dns_Match, Match, matchStates. by rewrite matchStatesForMatch_erase. Qed.


(** The address filter of a rule with domain conditions has no effect.  Once
    such a rule has matched the query, every response passes its [ip_cidr]
    conditions, whatever addresses it carries. *)
Theorem dns_address_filter_bypassed (r : abstractDefaultRule A S) md response :
  ruleSetItem r = None -> allItems r <> [] -> invert r = false -> responseFree r = true ->
  IgnoreDestinationIPCIDRMatch md = false -> IPCIDRMatchSource md = false ->
  destinationAddressItems r <> [] ->
  (LegacyPreMatch net ss (DefaultDNSRule r false) md).1 = true ->
  MatchAddressLimit net ss (DefaultDNSRule r false) md response = true.
Proof.
  intros Hr Ha Hi Hf Hg Hs Hd. rewrite preMatch_eq, addressLimit_eq by done. unfold anyOf.
  destruct (destinationAddressItems r) as [|it l]; [done|]. change (nonempty (it :: l)) with true.
  cbn [negb orb]. rewrite !andb_true_iff. intros [-> ->]. done.
Qed.

(** Rules on responses.  A rule with [match_response] never matches before a
    response exists (its inverted form always does), and is never used in the
    legacy pre-match. *)
Theorem dns_match_response_needs_response (r : abstractDefaultRule A S) md :
  DNSResponse md = None ->
  dns_Match net ss (DefaultDNSRule r true) md = invert r /\
  LegacyPreMatch net ss (DefaultDNSRule r true) md = (false, md).
Proof.
  intros Hn. unfold dns_Match. cbn [matchStatesForMatch]. unfold default_matchStatesForMatch.
  rewrite Hn. unfold invertedFailure. by destruct (invert r).
Qed.

(** Logical DNS rules.  A logical DNS rule matches exactly when the conjunction
    or disjunction of its nested DNS rules does, each with a fresh rule cache,
    negated if the rule is inverted. *)
Theorem dns_logical_semantics (rules : list (DNSRule A S)) mode inverted act md :
  dns_Match net ss (LogicalDNSRule rules mode inverted act) md
  = xorb inverted
      (if bool_decide (mode = LogicalTypeAnd)
       then forallb (fun rule => dns_Match net ss rule (ResetRuleCache md)) rules
       else existsb (fun rule => dns_Match net ss rule (ResetRuleCache md)) rules).
Proof.
  unfold dns_Match at 1. cbn [matchStatesForMatch]. case_bool_decide.
  - assert (forall acc, wf_set acc -> isEmpty acc = false ->
      match dns_logicalAnd (matchStatesForMatch net ss) md rules acc with
      | None => forallb (fun rule => dns_Match net ss rule (ResetRuleCache md)) rules = false
      | Some s => forallb (fun rule => dns_Match net ss rule (ResetRuleCache md)) rules = true
                  /\ isEmpty s = false
      end) as Hand.
    { induction rules as [|rule rules IH]; intros acc Ha He; simpl; [done|].
      unfold dns_Match at 1 3.
      destruct (isEmpty (matchStatesForMatch net ss rule (ResetRuleCache md))) eqn:Hr; [done|].
      apply IH; [apply wf_set_combine|]. rewrite combine_isEmpty, He, Hr; [done|done|].
      apply wf_matchStatesForMatch. }
    specialize (Hand emptyRuleMatchState ltac:(done) ltac:(done)).
    destruct (dns_logicalAnd _ _ _ _) as [s|].
    + destruct Hand as [-> Hs]. destruct inverted; [done|by rewrite Hs].
    + rewrite Hand. by destruct inverted.
  - assert (isEmpty (dns_logicalOr (matchStatesForMatch net ss) md rules)
      = negb (existsb (fun rule => dns_Match net ss rule (ResetRuleCache md)) rules)) as Ho.
    { unfold dns_logicalOr. by rewrite isEmpty_fold_merge. }
    rewrite Ho. destruct (existsb _ rules); cbn [negb]; destruct inverted; try done.
    by rewrite Ho.
Qed.

End Theorems.

(** ** Witnesses *)

Section Witnesses.
#[local] Existing Instance sampleExternals.

(** [domain_keyword] and [ip_cidr] together. *)
Definition sampleDns : abstractDefaultRule unit Empty_set :=
  let keyword := NewDomainKeywordItem ["example"] in
  let cidr := NewRawIPCIDRItem false [(Addr4 167772160, Addr4 184549375)] in
  mkDefault [] [] [] [keyword] [cidr] [] [Plain keyword; Plain cidr] None false None.

(** A response with one address outside the [ip_cidr]. *)
Definition sampleResponse : option Msg :=
  Some (mkMsg 0 true false true true 0 [] [mkRR "www.example.org." 1 1 60
    (RR_A [Byte.x01; Byte.x01; Byte.x01; Byte.x01])] [] []).

Definition noSets (s : Empty_set) : InboundContext -> ruleMatchState -> ruleMatchStateSet :=
  match s with end.

Definition sampleQuery : InboundContext :=
  let md := InboundContextZero in {| md with Domain := "www.example.org" |}.

Lemma dns_match_is_rule_match_witness :
  dns_Match sampleNetwork noSets (DefaultDNSRule sampleDns false) sampleQuery = true.
Proof. rewrite (dns_match_is_rule_match sampleNetwork noSets); reflexivity. Defined.


Lemma dns_address_filter_bypassed_witness :
  MatchAddressLimit sampleNetwork noSets (DefaultDNSRule sampleDns false) sampleQuery sampleResponse
  = true
  /\ matchAnyItem sampleNetwork (destinationIPCIDRItems sampleDns)
       (responseMetadata sampleQuery sampleResponse) = false.
Proof.
  split; [|reflexivity].
  apply (dns_address_filter_bypassed sampleNetwork noSets sampleDns); done.
Defined.

Lemma dns_match_response_needs_response_witness :
  dns_Match sampleNetwork noSets (DefaultDNSRule sampleDns true) sampleQuery = false.
Proof.
  apply (dns_match_response_needs_response sampleNetwork noSets sampleDns sampleQuery). done.
Defined.

End Witnesses.
