(* ===== verification/RuleSet.v ===== *)
(** * Rule-sets (src/route/rule/rule_set.go, rule_set_local.go, rule_set_remote.go,
    rule_item_rule_set.go)

    The content of a rule-set and its metadata, the operations that load,
    refresh and release it, and the items that hold references to it.  Files,
    HTTP responses, the clock, the cache file and the JSON decoder are arguments;
    the binary decoder is [Srs.Read]. *)

From S2P Require Import Prelude GoStd Metadata Binary MatchState RuleItems Rules.
From S2P Require Import HeadlessOptions HeadlessBuild Srs.
From Stdlib Require Import Strings.Byte.
Import netip MatchState RuleItems Rules.

Open Scope N_scope.

Module RuleSet.

Definition RuleSetFormatSource : string := "source".
Definition RuleSetFormatBinary : string := "binary".

(** ** Metadata *)

Record RuleSetMetadata : Type := mkRuleSetMetadata {
  ContainsProcessRule : bool;
  ContainsWIFIRule : bool;
  ContainsIPCIDRRule : bool;
  ContainsDNSQueryTypeRule : bool;
  ContainsNonIPCIDRRule : bool;
}.

Definition RuleSetMetadataZero : RuleSetMetadata := mkRuleSetMetadata false false false false false.

Section Content.
Context `{E : Externals} {A : Type}.

(** The body of [HasHeadlessRule] on one rule. *)
Fixpoint hasHeadlessRule1 (cond : DefaultHeadlessRule -> bool) (rule : HeadlessRuleOptions) : bool :=
  match rule with
  | mkHeadlessRule type_ defaultOptions _ rules _ =>
      if bool_decide (type_ = RuleTypeDefault) then cond defaultOptions
      else if bool_decide (type_ = RuleTypeLogical) then existsb (hasHeadlessRule1 cond) rules
      else false
  end.
Definition HasHeadlessRule (rules : list HeadlessRuleOptions) (cond : DefaultHeadlessRule -> bool) : bool :=
  existsb (hasHeadlessRule1 cond) rules.

Definition isProcessHeadlessRule (rule : DefaultHeadlessRule) : bool :=
  nonempty (elems (h_ProcessName rule)) || nonempty (elems (h_ProcessPath rule))
  || nonempty (elems (h_ProcessPathRegex rule)) || nonempty (elems (h_PackageName rule))
  || nonempty (elems (h_PackageNameRegex rule)).
Definition isWIFIHeadlessRule (rule : DefaultHeadlessRule) : bool :=
  nonempty (elems (h_WIFISSID rule)) || nonempty (elems (h_WIFIBSSID rule)).
Definition isIPCIDRHeadlessRule (rule : DefaultHeadlessRule) : bool :=
  nonempty (elems (h_IPCIDR rule)) || negb (isNil (h_IPSet rule)).
Definition isDNSQueryTypeHeadlessRule (rule : DefaultHeadlessRule) : bool :=
  nonempty (elems (h_QueryType rule)).
(** [reflect.DeepEqual] with the rule that keeps only [IPCIDR], [IPSet] and
    [Invert]: every other field is its zero value. *)
Definition isNonIPCIDRHeadlessRule (rule : DefaultHeadlessRule) : bool :=
  default_IsValid {| rule with h_IPCIDR := None; h_IPSet := None |}.

Definition buildRuleSetMetadata (headlessRules : list HeadlessRuleOptions) : RuleSetMetadata :=
  mkRuleSetMetadata
    (HasHeadlessRule headlessRules isProcessHeadlessRule)
    (HasHeadlessRule headlessRules isWIFIHeadlessRule)
    (HasHeadlessRule headlessRules isIPCIDRHeadlessRule)
    (HasHeadlessRule headlessRules isDNSQueryTypeHeadlessRule)
    (HasHeadlessRule headlessRules isNonIPCIDRHeadlessRule).

Fixpoint extractIPSetFromRule (rule : HeadlessRule A) : list IPSet :=
  match rule with
  | DefaultRule r =>
      flat_map (fun item => match item with IPCIDRItem ipSet _ _ => [ipSet] | _ => [] end)
        (destinationIPCIDRItems r)
  | LogicalRule rules _ _ _ => flat_map extractIPSetFromRule rules
  end.
Definition ExtractIPSet (rules : list (HeadlessRule A)) : list IPSet :=
  flat_map extractIPSetFromRule rules.

(** ** Loading *)

(** What is loaded: the rules and their metadata, replaced together. *)
Record content : Type := mkContent {
  rules : list (HeadlessRule A);
  metadata : RuleSetMetadata;
}.
Definition contentZero : content := mkContent [] RuleSetMetadataZero.

(** The loop over the options of a rule-set. *)
Fixpoint parseRules (networkManager : bool) (i : nat) (l : list HeadlessRuleOptions)
  : result (list (HeadlessRule A)) :=
  match l with
  | [] => Ok []
  | options :: l =>
      match NewHeadlessRule networkManager options with
      | Ok rule => rules ← parseRules networkManager (S i) l; Ok (rule :: rules)
      | Err e => Err (E_Cause e ["parse rule_set.rules.["; pretty i; "]"])
      | Panic msg => Panic msg
      end
  end.

(** [LocalRuleSet.reloadRules], and the end of [RemoteRuleSet.loadBytes]: the new
    content, which replaces the old one only when every step succeeds.
    [validator] is [DNSRuleSetUpdateValidator.ValidateRuleSetMetadataUpdate] of
    the context, if it has one. *)
Definition reloadRules (networkManager : bool)
    (validator : option (string -> RuleSetMetadata -> option error)) (tag : string)
    (headlessRules : list HeadlessRuleOptions) : result content :=
  rules ← parseRules networkManager 0 headlessRules;
  let metadata := buildRuleSetMetadata headlessRules in
  match validator with
  | None => Ok (mkContent rules metadata)
  | Some validate =>
      match validate tag metadata with
      | Some err => Err err
      | None => Ok (mkContent rules metadata)
      end
  end.

End Content.
Arguments content {E} A.

Section Load.
Context `{C : Codec} {A : Type}.
(** [json.UnmarshalExtended[option.PlainRuleSetCompat]]: version and rules. *)
Variable parseSource : list byte -> result (N * PlainRuleSet).
Variable networkManager : bool.
Variable validator : option (string -> RuleSetMetadata -> option error).

Definition srs_Read (bytes : list byte) : result (N * PlainRuleSet) :=
  default (Panic "out of fuel") (Srs.Read false bytes).

(** [LocalRuleSet.reloadFile] on the content of the file or the error of reading
    it; the source format is the default. *)
Definition reloadFile (fileFormat tag : string) (file : result (list byte)) : result (content A) :=
  ruleSet ← (if bool_decide (fileFormat = RuleSetFormatSource) || bool_decide (fileFormat = "")
             then bytes ← file; parseSource bytes
             else if bool_decide (fileFormat = RuleSetFormatBinary)
             then bytes ← file; srs_Read bytes
             else Err (E_New ["unknown rule-set format: "; fileFormat]));
  plainRuleSet ← Upgrade ruleSet.1 ruleSet.2;
  reloadRules networkManager validator tag plainRuleSet.

(** [RemoteRuleSet.loadBytes] *)
Definition loadBytes (format tag : string) (bytes : list byte) : result (content A) :=
  ruleSet ← (if bool_decide (format = RuleSetFormatSource) then parseSource bytes
             else if bool_decide (format = RuleSetFormatBinary) then srs_Read bytes
             else Err (E_New ["unknown rule-set format: "; format]));
  plainRuleSet ← Upgrade ruleSet.1 ruleSet.2;
  reloadRules networkManager validator tag plainRuleSet.

(** [NewLocalRuleSet]: the content it starts with.  [watcher] is the error of
    [fswatch.NewWatcher], if it fails. *)
Definition NewLocalRuleSet (type_ fileFormat tag : string) (inlineRules : PlainRuleSet)
    (file : result (list byte)) (watcher : option error) : result (content A) :=
  if bool_decide (type_ = "inline") then
    if (length inlineRules =? 0)%nat then Err (E_New ["empty inline rule-set"])
    else reloadRules networkManager validator tag inlineRules
  else
    content ← reloadFile fileFormat tag file;
    match watcher with
    | Some err => Err err
    | None => Ok content
    end.

(** A reload triggered by the file watcher: an error keeps what was loaded. *)
Definition watchReload (fileFormat tag : string) (old : content A) (file : result (list byte))
  : result (content A) :=
  match reloadFile fileFormat tag file with
  | Err _ => Ok old
  | new => new
  end.

(** ** Remote rule-sets *)

Record SavedBinary : Type := mkSavedBinary {
  saved_Content : list byte;
  saved_LastUpdated : Z;
  saved_LastEtag : string;
}.

(** The fields that change, and the entry of the cache file for the tag ([None]
    when nothing is saved).  [lastUpdated] is [None] for the zero time. *)
Record RemoteRuleSet : Type := mkRemote {
  loaded : content A;
  lastUpdated : option Z;
  lastEtag : string;
  refs : Z;
  cache : option SavedBinary;
}.

(** What the HTTP client returns: an error, or status, entity tag and body. *)
Record Response : Type := mkResponse {
  StatusCode : N;
  Status : string;
  Etag : string;
  Body : error + list byte;
}.

(** [http.StatusOK] and [http.StatusNotModified] *)
Definition StatusOK : N := 200.
Definition StatusNotModified : N := 304.

(** [RemoteRuleSet.fetch]: the rule-set after the call and the error it returns.
    [hasCache] tells whether the context has a cache file, [saveOk] whether its
    write succeeds, [now] is the clock. *)
Definition fetch (format tag : string) (hasCache saveOk : bool) (now : Z)
    (response : error + Response) (s : RemoteRuleSet) : result (RemoteRuleSet * option error) :=
  match response with
  | inl e => Ok (s, Some e)
  | inr response =>
      if StatusCode response =? StatusOK then
        match Body response with
        | inl e => Ok (s, Some e)
        | inr bytes =>
            match loadBytes format tag bytes with
            | Ok new =>
                let lastEtag :=
                  if bool_decide (Etag response = "") then lastEtag s else Etag response in
                let s := {| s with loaded := new; lastEtag := lastEtag; lastUpdated := Some now |} in
                Ok (if hasCache && saveOk
                    then {| s with cache := Some (mkSavedBinary bytes now lastEtag) |}
                    else s, None)
            | Err e => Ok (s, Some e)
            | Panic msg => Panic msg
            end
        end
      else if StatusCode response =? StatusNotModified then
        let s := {| s with lastUpdated := Some now |} in
        match cache s with
        | Some saved =>
            Ok (if hasCache && saveOk
                then {| s with cache := Some {| saved with saved_LastUpdated := now |} |}
                else s, None)
        | None => Ok (s, None)
        end
      else Ok (s, Some (E_New ["unexpected status: "; Status response]))
  end.

(** The part of [StartContext] after the transport is resolved: the cache is
    restored if it loads, the first fetch is attempted if nothing was, and its
    failure is only logged. *)
Definition StartContext (format tag : string) (hasCache saveOk : bool) (now : Z)
    (response : error + Response) (s : RemoteRuleSet) : result RemoteRuleSet :=
  s ← match (if hasCache then cache s else None) with
      | Some saved =>
          match loadBytes format tag (saved_Content saved) with
          | Ok new =>
              Ok {| s with loaded := new; lastUpdated := Some (saved_LastUpdated saved);
                           lastEtag := saved_LastEtag saved |}
          | Err _ => Ok s
          | Panic msg => Panic msg
          end
      | None => Ok s
      end;
  match lastUpdated s with
  | None => fst <$> fetch format tag hasCache saveOk now response s
  | Some _ => Ok s
  end.

Definition updateOnce (format tag : string) (hasCache saveOk : bool) (now : Z)
    (response : error + Response) (s : RemoteRuleSet) : result RemoteRuleSet :=
  '(s, err) ← fetch format tag hasCache saveOk now response s;
  match err with
  | Some _ => Ok s
  | None =>
      if (refs s =? 0)%Z
      then let c := loaded s in Ok {| s with loaded := {| c with rules := [] |} |}
      else Ok s
  end.

(** The guard of the first update in [loopUpdate]; the zero time is older than
    any interval. *)
Definition updateDue (now updateInterval : Z) (s : RemoteRuleSet) : bool :=
  match lastUpdated s with
  | None => true
  | Some t => (updateInterval <? now - t)%Z
  end.

Definition Cleanup (s : RemoteRuleSet) : RemoteRuleSet :=
  if (refs s =? 0)%Z
  then let c := loaded s in {| s with loaded := {| c with rules := [] |} |}
  else s.

(** [Close] drops the rules. *)
Definition Close (s : RemoteRuleSet) : RemoteRuleSet :=
  let c := loaded s in {| s with loaded := {| c with rules := [] |} |}.

End Load.
Arguments RemoteRuleSet {E} A.
Arguments mkRemote {E A} _ _ _ _ _.
Arguments loaded {E A} _.
Arguments lastUpdated {E A} _.
Arguments lastEtag {E A} _.
Arguments refs {E A} _.
Arguments cache {E A} _.

End RuleSet.
