(* ===== verification/RuleSetRefs.v ===== *)
(** * References to rule-sets (src/route/rule/rule_item_rule_set.go)

    A rule-set counts the items that use it in an [atomic.Int32]; an item takes
    its references in [Start] and gives them back in [Close].  The state is the
    table of counters and, per item, its tags and the sets it holds; a step starts
    or closes one item. *)

From S2P Require Import Prelude.

Open Scope Z_scope.

Module RuleSetRefs.

(** ** Operations *)

(** Wrap-around of an [int32]. *)
Definition int32 (z : Z) : Z := (z + 2 ^ 31) mod 2 ^ 32 - 2 ^ 31.

(** The counter of each rule-set of the router, by tag. *)
Abbreviation table := (gmap string Z).

Definition IncRef (tag : string) (sets : table) : table := alter (fun z => int32 (z + 1)) tag sets.

Definition DecRef (tag : string) (sets : table) : result table :=
  match sets !! tag with
  | None => Ok sets
  | Some z =>
      let z := int32 (z - 1) in
      if z <? 0 then Panic "rule-set: negative refs" else Ok (<[tag := z]> sets)
  end.

(** [RuleSetItem.Close]: every held set loses a reference. *)
Fixpoint item_Close (setList : list string) (sets : table) : result table :=
  match setList with
  | [] => Ok sets
  | tag :: setList => sets ← DecRef tag sets; item_Close setList sets
  end.

(** The loop of [RuleSetItem.Start]: the sets held afterwards, the counters and
    the error returned. *)
Fixpoint startLoop (tagList setList : list string) (sets : table)
  : result (list string * table * option error) :=
  match tagList with
  | [] => Ok (setList, sets, None)
  | tag :: tagList =>
      match sets !! tag with
      | None =>
          sets ← item_Close setList sets;
          Ok ([], sets, Some (E_New ["rule-set not found: "; tag]))
      | Some _ => startLoop tagList (setList ++ [tag]) (IncRef tag sets)
      end
  end.

Definition item_Start (tagList setList : list string) (sets : table)
  : result (list string * table * option error) :=
  sets ← item_Close setList sets; startLoop tagList [] sets.

(** ** The system *)

Record item : Type := mkItem { tagList : list string; setList : list string }.

Record system : Type := mkSystem { sets : table; items : list item }.

Inductive step : system -> system -> Prop :=
| step_start s i it held sets' err :
    items s !! i = Some it ->
    item_Start (tagList it) (setList it) (sets s) = Ok (held, sets', err) ->
    step s (mkSystem sets' (<[i := mkItem (tagList it) held]> (items s)))
| step_close s i it sets' :
    items s !! i = Some it ->
    item_Close (setList it) (sets s) = Ok sets' ->
    step s (mkSystem sets' (<[i := mkItem (tagList it) []]> (items s))).

(** Items that were not started, and counters at zero. *)
Definition initial (s : system) : Prop :=
  (forall tag z, sets s !! tag = Some z -> z = 0) /\ Forall (fun it => setList it = []) (items s).

Definition reachable (s : system) : Prop := exists s0, initial s0 /\ rtc step s0 s.

(** ** Counting *)

Definition occ (tag : string) (l : list string) : Z := Z.of_nat (count_occ String.string_dec l tag).
Definition held (s : system) (tag : string) : Z :=
  foldr (fun it n => occ tag (setList it) + n) 0 (items s).
(** The references the configuration can ever hold. *)
Definition capacity (l : list item) : Z :=
  foldr (fun it n => Z.of_nat (length (tagList it)) + n) 0 l.

Record inv (s : system) : Prop := {
  inv_counts tag z : sets s !! tag = Some z -> z = held s tag;
  inv_loaded : Forall (fun it => Forall (fun tag => is_Some (sets s !! tag)) (setList it)) (items s);
  inv_lengths : Forall (fun it => (length (setList it) <= length (tagList it))%nat) (items s);
}.

(** ** Lemmas *)

Lemma int32_id (z : Z) : - 2 ^ 31 <= z < 2 ^ 31 -> int32 z = z.
Proof. intros H. unfold int32. rewrite Z.mod_small; lia. Qed.

Lemma occ_cons tag x l : occ tag (x :: l) = (if decide (x = tag) then 1 else 0) + occ tag l.
Proof. unfold occ. simpl. destruct (String.string_dec x tag), (decide (x = tag)); try done; lia. Qed.

Lemma occ_nonneg tag l : 0 <= occ tag l.
Proof. unfold occ. lia. Qed.

Lemma occ_app tag l k : occ tag (l ++ k) = occ tag l + occ tag k.
Proof. unfold occ. rewrite count_occ_app. lia. Qed.

Lemma occ_le_length tag l : occ tag l <= Z.of_nat (length l).
Proof.
  unfold occ. pose proof (count_occ_bound String.string_dec tag l). lia.
Qed.

Lemma item_Close_spec (l : list string) (sets : table) :
  Forall (fun tag => is_Some (sets !! tag)) l ->
  (forall tag z, sets !! tag = Some z -> occ tag l <= z < 2 ^ 31) ->
  exists sets', item_Close l sets = Ok sets' /\
    forall tag, sets' !! tag = (fun z => z - occ tag l) <$> sets !! tag.
Proof.
  revert sets. induction l as [|x l IH]; intros sets Hl Hz.
  - exists sets. split; [done|]. intros tag. unfold occ. simpl.
    destruct (sets !! tag); simpl; [f_equal; lia|done].
  - apply Forall_cons_iff in Hl as [[z Hx] Hl]. pose proof (Hz x z Hx) as Hb.
    rewrite occ_cons, decide_True in Hb by done. pose proof (occ_nonneg x l).
    simpl. unfold DecRef. rewrite Hx, int32_id by lia.
    rewrite (proj2 (Z.ltb_ge _ _)) by lia. simpl.
    destruct (IH (<[x := z - 1]> sets)) as (sets' & -> & Hs').
    + eapply Forall_impl; [|exact Hl]. intros tag [w Hw]. cbv beta.
      destruct (decide (tag = x)) as [->|].
      * rewrite lookup_insert_eq. eauto.
      * rewrite lookup_insert_ne by done. eauto.
    + intros tag w. destruct (decide (tag = x)) as [->|Hne].
      * rewrite lookup_insert_eq. intros [= <-]. lia.
      * rewrite lookup_insert_ne by done. intros Hw. pose proof (Hz tag w Hw) as Ht.
        rewrite occ_cons, decide_False in Ht by done. lia.
    + exists sets'. split; [done|]. intros tag. rewrite Hs', occ_cons.
      destruct (decide (x = tag)) as [->|Hne].
      * rewrite lookup_insert_eq, Hx. simpl. f_equal. lia.
      * by rewrite lookup_insert_ne.
Qed.

Lemma lookup_IncRef tag x (sets : table) z :
  sets !! x = Some z -> - 2 ^ 31 <= z + 1 < 2 ^ 31 ->
  IncRef x sets !! tag = (fun w => w + (if decide (x = tag) then 1 else 0)) <$> sets !! tag.
Proof.
  intros Hx Hz. unfold IncRef. destruct (decide (x = tag)) as [<-|Hne].
  - rewrite lookup_alter_eq, Hx. simpl. by rewrite int32_id.
  - rewrite lookup_alter_ne by done. destruct (sets !! tag); simpl; [f_equal; lia|done].
Qed.

Lemma startLoop_spec (tags acc : list string) (sets : table) :
  Forall (fun tag => is_Some (sets !! tag)) acc ->
  (forall tag z, sets !! tag = Some z -> occ tag acc <= z /\ z + Z.of_nat (length tags) < 2 ^ 31) ->
  exists l sets' err, startLoop tags acc sets = Ok (l, sets', err) /\
    l = match err with Some _ => [] | None => acc ++ tags end /\
    (forall tag, sets' !! tag = (fun z => z - occ tag acc + occ tag l) <$> sets !! tag) /\
    Forall (fun tag => is_Some (sets !! tag)) l.
Proof.
  revert acc sets. induction tags as [|x tags IH]; intros acc sets Hacc Hz; simpl.
  - exists acc, sets, None. rewrite app_nil_r. repeat split; [|done].
    intros tag. destruct (sets !! tag); simpl; [f_equal; lia|done].
  - destruct (sets !! x) as [z|] eqn:Hx.
    + destruct (Hz x z Hx) as [Hx1 Hx2]. simpl in Hx2. pose proof (occ_nonneg x acc).
      assert (forall tag, IncRef x sets !! tag
        = (fun w => w + (if decide (x = tag) then 1 else 0)) <$> sets !! tag) as Hinc.
      { intros tag. apply (lookup_IncRef tag x sets z Hx). lia. }
      assert (forall tag, is_Some (IncRef x sets !! tag) <-> is_Some (sets !! tag)) as Hdom.
      { intros tag. rewrite Hinc, fmap_is_Some. done. }
      destruct (IH (acc ++ [x]) (IncRef x sets)) as (l & sets' & err & -> & Hl & Hs & Hd).
      * apply Forall_app. split.
        -- eapply Forall_impl; [|exact Hacc]. intros tag. apply Hdom.
        -- repeat constructor. apply Hdom. eauto.
      * intros tag w. rewrite Hinc, occ_app, occ_cons. destruct (sets !! tag) as [v|] eqn:Hv; [|done].
        simpl. intros [= <-]. destruct (Hz tag v Hv). simpl in *.
        change (occ tag []) with 0. destruct (decide (x = tag)); lia.
      * exists l, sets', err. split; [done|]. split; [rewrite Hl; destruct err; by rewrite <- ?(assoc_L (++))|].
        split.
        -- intros tag. rewrite Hs, Hinc. destruct (sets !! tag); simpl; [|done]. f_equal.
           rewrite occ_app, occ_cons. change (occ tag []) with 0. lia.
        -- eapply Forall_impl; [|exact Hd]. intros tag. apply Hdom.
    + destruct (item_Close_spec acc sets Hacc) as (sets' & -> & Hs).
      { intros tag z Htag. destruct (Hz tag z Htag). lia. }
      simpl. exists [], sets', (Some (E_New ["rule-set not found: "; x])). repeat split; [|done].
      intros tag. rewrite Hs. destruct (sets !! tag); simpl; [f_equal; change (occ tag []) with 0; lia|done].
Qed.

(** ** The invariant *)

Lemma held_insert (l : list item) i it it' tag :
  l !! i = Some it ->
  foldr (fun it n => occ tag (setList it) + n) 0 (<[i := it']> l)
  = foldr (fun it n => occ tag (setList it) + n) 0 l - occ tag (setList it) + occ tag (setList it').
Proof.
  revert i. induction l as [|x l IH]; intros [|i] Hi; simplify_eq/=; [lia|].
  rewrite (IH i) by done. lia.
Qed.

Lemma held_item (l : list item) i it tag :
  l !! i = Some it -> occ tag (setList it) <= foldr (fun it n => occ tag (setList it) + n) 0 l.
Proof.
  revert i. induction l as [|x l IH]; intros [|i] Hi; simplify_eq/=.
  - assert (0 <= foldr (fun it n => occ tag (setList it) + n) 0 l); [|lia].
    clear. induction l as [|y l IH]; simpl; [lia|]. pose proof (occ_nonneg tag (setList y)). lia.
  - specialize (IH i Hi). pose proof (occ_nonneg tag (setList x)). lia.
Qed.

Lemma held_le_capacity (l : list item) tag :
  Forall (fun it => (length (setList it) <= length (tagList it))%nat) l ->
  foldr (fun it n => occ tag (setList it) + n) 0 l <= capacity l.
Proof.
  induction 1 as [|it l Hit _ IH]; simpl; [lia|].
  pose proof (occ_le_length tag (setList it)). lia.
Qed.

(** Without one item's references the others fit beside its tags. *)
Lemma held_others (l : list item) i it tag :
  Forall (fun it => (length (setList it) <= length (tagList it))%nat) l -> l !! i = Some it ->
  foldr (fun it n => occ tag (setList it) + n) 0 l - occ tag (setList it)
  + Z.of_nat (length (tagList it)) <= capacity l.
Proof.
  intros Hl. revert i. induction Hl as [|x l Hx Hl IH]; intros [|i] Hi; simplify_eq/=.
  - pose proof (held_le_capacity l tag Hl). lia.
  - specialize (IH i Hi). pose proof (occ_le_length tag (setList x)). lia.
Qed.

Lemma close_spec s i it :
  inv s -> capacity (items s) < 2 ^ 31 -> items s !! i = Some it ->
  exists sets', item_Close (setList it) (sets s) = Ok sets' /\
    forall tag, sets' !! tag = (fun z => z - occ tag (setList it)) <$> sets s !! tag.
Proof.
  intros [Hc Hd Hl] Hcap Hi. apply item_Close_spec.
  - eapply Forall_lookup_1 in Hd; [|exact Hi]. exact Hd.
  - intros tag z Hz. rewrite (Hc tag z Hz). split; [by eapply held_item|].
    pose proof (held_le_capacity (items s) tag Hl). unfold held. lia.
Qed.

Lemma start_spec s i it :
  inv s -> capacity (items s) < 2 ^ 31 -> items s !! i = Some it ->
  exists l sets' err, item_Start (tagList it) (setList it) (sets s) = Ok (l, sets', err) /\
    l = match err with Some _ => [] | None => tagList it end /\
    (forall tag, sets' !! tag = (fun z => z - occ tag (setList it) + occ tag l) <$> sets s !! tag) /\
    Forall (fun tag => is_Some (sets s !! tag)) l.
Proof.
  intros Hinv Hcap Hi. destruct (close_spec s i it Hinv Hcap Hi) as (sets1 & Hclose & Hs1).
  unfold item_Start. rewrite Hclose. cbn [mbind result_bind].
  destruct Hinv as [Hc Hd Hl].
  destruct (startLoop_spec (tagList it) [] sets1) as (l & sets' & err & -> & Hlen & Hs & Hd').
  - constructor.
  - intros tag z. rewrite Hs1. destruct (sets s !! tag) as [w|] eqn:Hw; [|done].
    simpl. intros [= <-]. rewrite (Hc tag w Hw). change (occ tag []) with 0.
    pose proof (held_item (items s) i it tag Hi). pose proof (held_others (items s) i it tag Hl Hi).
    unfold held. lia.
  - exists l, sets', err. split; [done|]. split; [done|]. split.
    + intros tag. rewrite Hs, Hs1. destruct (sets s !! tag); simpl; [|done]. f_equal.
      change (occ tag []) with 0. lia.
    + eapply Forall_impl; [|exact Hd']. intros tag. cbv beta. rewrite Hs1. by rewrite fmap_is_Some.
Qed.

Lemma inv_update s i it l sets' :
  inv s -> items s !! i = Some it ->
  (forall tag, sets' !! tag = (fun z => z - occ tag (setList it) + occ tag l) <$> sets s !! tag) ->
  Forall (fun tag => is_Some (sets s !! tag)) l -> (length l <= length (tagList it))%nat ->
  inv (mkSystem sets' (<[i := mkItem (tagList it) l]> (items s))).
Proof.
  intros [Hc Hd Hl] Hi Hs Hdom Hlen.
  assert (forall tag, is_Some (sets' !! tag) <-> is_Some (sets s !! tag)) as Hiff.
  { intros tag. by rewrite Hs, fmap_is_Some. }
  split; simpl.
  - intros tag z. rewrite Hs. destruct (sets s !! tag) as [w|] eqn:Hw; [|done].
    simpl. intros [= <-]. rewrite (Hc tag w Hw). unfold held. simpl.
    by rewrite (held_insert (items s) i it).
  - apply Forall_insert.
    + eapply Forall_impl; [|exact Hd]. intros it'. apply Forall_impl. intros tag. apply Hiff.
    + simpl. eapply Forall_impl; [|exact Hdom]. intros tag. apply Hiff.
  - by apply Forall_insert.
Qed.

Lemma capacity_insert (l : list item) i it k :
  l !! i = Some it -> capacity (<[i := mkItem (tagList it) k]> l) = capacity l.
Proof.
  revert i. induction l as [|x l IH]; intros [|i] Hi; simplify_eq/=; [done|]. by rewrite (IH i).
Qed.

Lemma capacity_step s s' : step s s' -> capacity (items s') = capacity (items s).
Proof. intros [? i it ? ? ? Hi _|? i it ? Hi _]; simpl; by apply capacity_insert. Qed.

Lemma inv_step s s' : capacity (items s) < 2 ^ 31 -> step s s' -> inv s -> inv s'.
Proof.
  intros Hcap Hstep Hinv. destruct Hstep as [s1 i it l sets' err Hi Hs|s1 i it sets' Hi Hs].
  - destruct (start_spec s1 i it Hinv Hcap Hi) as (l' & sets'' & err' & Hs' & Hl & Hz & Hd).
    rewrite Hs in Hs'. simplify_eq. eapply inv_update; eauto. destruct err'; simpl; lia.
  - destruct (close_spec s1 i it Hinv Hcap Hi) as (sets'' & Hs' & Hz).
    rewrite Hs in Hs'. simplify_eq.
    eapply inv_update; [exact Hinv|exact Hi| |constructor|simpl; lia].
    intros tag. rewrite Hz. destruct (sets s1 !! tag); simpl; [|done]. f_equal.
    change (occ tag []) with 0. lia.
Qed.

Lemma inv_initial s : initial s -> inv s.
Proof.
  intros [Hz Hi]. split.
  - intros tag z Htag. rewrite (Hz tag z Htag). unfold held. clear - Hi.
    induction Hi as [|it l Hit _ IH]; simpl; [done|]. rewrite Hit, <- IH. done.
  - eapply Forall_impl; [|exact Hi]. intros it ->. constructor.
  - eapply Forall_impl; [|exact Hi]. intros it ->. simpl. lia.
Qed.

Lemma inv_reachable s : reachable s -> capacity (items s) < 2 ^ 31 -> inv s.
Proof.
  intros (s0 & Hinv%inv_initial & Hsteps). revert Hinv.
  induction Hsteps as [|s0 s1 s Hstep Hsteps IH]; intros Hinv Hcap; [done|].
  apply IH; [|done]. eapply inv_step; [|exact Hstep|done].
  rewrite <- (capacity_step _ _ Hstep).
  assert (capacity (items s) = capacity (items s1)) as <-; [|done].
  clear - Hsteps. induction Hsteps as [|x y z Hxy _ IH]; [done|]. by rewrite IH, (capacity_step x y).
Qed.

(** ** The theorems *)

(** Reference counts are exact.  However starts and closes of the items are
    interleaved, the counter of every rule-set is the number of references the
    items hold, as long as the configuration has fewer than 2^31 of them. *)
Theorem rule_set_refs_exact (s : system) tag z :
  reachable s -> capacity (items s) < 2 ^ 31 -> sets s !! tag = Some z -> z = held s tag.
Proof. intros Hr Hcap. by apply (inv_reachable s Hr Hcap). Qed.

(** Starting and closing never panic.  In every reachable state an item can be
    started and closed without a negative count; a start that does not find a
    rule-set returns an error, holds nothing, and leaves every counter as if the
    item had only been closed. *)
Theorem rule_set_refs_no_panic (s : system) i it :
  reachable s -> capacity (items s) < 2 ^ 31 -> items s !! i = Some it ->
  (exists sets', item_Close (setList it) (sets s) = Ok sets') /\
  exists l sets' err, item_Start (tagList it) (setList it) (sets s) = Ok (l, sets', err) /\
    (is_Some err -> l = [] /\ item_Close (setList it) (sets s) = Ok sets').
Proof.
  intros Hr Hcap Hi. pose proof (inv_reachable s Hr Hcap) as Hinv.
  destruct (close_spec s i it Hinv Hcap Hi) as (sets1 & Hclose & Hs1).
  destruct (start_spec s i it Hinv Hcap Hi) as (l & sets2 & err & Hstart & Hl & Hs2 & _).
  split; [by exists sets1|]. exists l, sets2, err. split; [done|]. intros [e ->]. split; [done|].
  rewrite Hclose. f_equal. apply map_eq. intros tag. rewrite Hs1, Hs2, Hl.
  destruct (sets s !! tag); simpl; [|done]. f_equal. change (occ tag []) with 0. lia.
Qed.

(** ** Witnesses *)

(** Two items over the rule-sets [a] and [b]; the second also names a missing
    one. *)
Definition sampleSystem : system :=
  mkSystem {["a" := 0; "b" := 0]} [mkItem ["a"; "b"; "a"] []; mkItem ["b"; "missing"] []].

Definition sampleStarted : system :=
  mkSystem {["a" := 2; "b" := 1]} [mkItem ["a"; "b"; "a"] ["a"; "b"; "a"]; mkItem ["b"; "missing"] []].

Lemma sample_reachable : reachable sampleStarted.
Proof.
  exists sampleSystem. split.
  - split; [|by repeat constructor]. intros tag z. simpl.
    rewrite lookup_insert_Some, lookup_singleton_Some. by intros [[_ <-]|[_ [_ <-]]].
  - eapply rtc_l; [|apply rtc_refl].
    apply (step_start sampleSystem 0 (mkItem ["a"; "b"; "a"] []) ["a"; "b"; "a"] {["a" := 2; "b" := 1]} None);
      done.
Qed.

Lemma rule_set_refs_exact_witness : 2 = held sampleStarted "a".
Proof. apply (rule_set_refs_exact sampleStarted "a" 2); [exact sample_reachable|done|done]. Defined.

Lemma rule_set_refs_no_panic_witness :
  exists l sets' err,
    item_Start ["b"; "missing"] [] (sets sampleStarted) = Ok (l, sets', err) /\
    (is_Some err -> l = [] /\ item_Close [] (sets sampleStarted) = Ok sets').
Proof.
  apply (rule_set_refs_no_panic sampleStarted 1 (mkItem ["b"; "missing"] [])).
  - exact sample_reachable.
  - done.
  - done.
Defined.

End RuleSetRefs.
