(* ===== verification/RuleSetTheorems.v ===== *)
(** * Correctness of rule-set loading *)

From S2P Require Import Prelude GoStd Metadata Binary Instances MatchState RuleItems Rules RuleFacts.
From S2P Require Import RuleTheorems HeadlessOptions HeadlessBuild Srs SrsTheorems RuleSet.
Import netip MatchState RuleItems Rules RuleSet.

Open Scope N_scope.

(** ** The metadata of a rule-set *)

Section Metadata.
Context `{E : Externals} {A : Type}.
#[local] Abbreviation rule_t := (abstractDefaultRule A Empty_set).

(** Some default rule of the tree tests destination addresses. *)
Fixpoint testsDestinationIP (rule : HeadlessRule A) : bool :=
  match rule with
  | DefaultRule r => nonempty (destinationIPCIDRItems r)
  | LogicalRule rules _ _ _ => existsb testsDestinationIP rules
  end.

(** Options with the type tag both decoders set. *)
Fixpoint tagged (options : HeadlessRuleOptions) : bool :=
  match options with
  | mkHeadlessRule type_ _ _ rules _ => negb (bool_decide (type_ = "")) && forallb tagged rules
  end.

Lemma addressItems_cidr o (r R : rule_t) :
  headless_addressItems o r = Ok R -> destinationIPCIDRItems r = [] ->
  nonempty (destinationIPCIDRItems R) = isIPCIDRHeadlessRule o.
Proof.
  unfold headless_addressItems, isIPCIDRHeadlessRule. intros H Hr.
  apply bind_Ok_inv in H as (r1 & H1 & H). apply bind_Ok_inv in H as (r2 & H2 & H).
  apply bind_Ok_inv in H as (r3 & H3 & H).
  assert (destinationIPCIDRItems r1 = []) as E1.
  { destruct (nonempty (elems (h_Domain o)) || nonempty (elems (h_DomainSuffix o))).
    - inv_ok. subst r1. simpl. by rewrite !(addIf_keeps destinationIPCIDRItems).
    - injection H1 as <-. by rewrite (addOrRaw_keeps destinationIPCIDRItems),
        !(addIf_keeps destinationIPCIDRItems). }
  apply (addIfOk_keeps destinationIPCIDRItems) in H2; [|done].
  rewrite (addIf_keeps destinationIPCIDRItems), E1 in H2 by done.
  assert (destinationIPCIDRItems r3 = []) as E3.
  { destruct (nonempty (elems (h_SourceIPCIDR o))).
    - apply (addIfOk_keeps destinationIPCIDRItems) in H3; [|done]. by rewrite H3, H2.
    - injection H3 as <-. by rewrite (addOrRaw_keeps destinationIPCIDRItems). }
  destruct (nonempty (elems (h_IPCIDR o))); cbn [orb].
  - unfold addIfOk in H. inv_ok. subst R. simpl. by rewrite E3.
  - injection H as <-. unfold addOrRaw. destruct (h_IPSet o); simpl; by rewrite E3.
Qed.

Lemma NewDefaultHeadlessRule_cidr nm o (R : rule_t) :
  NewDefaultHeadlessRule nm o = Ok R ->
  nonempty (destinationIPCIDRItems R) = isIPCIDRHeadlessRule o.
Proof.
  unfold NewDefaultHeadlessRule. intros H.
  apply bind_Ok_inv in H as (r1 & H1 & H). apply bind_Ok_inv in H as (r2 & H2 & H).
  apply bind_Ok_inv in H as (r3 & H3 & H%Ok_inj). subst R.
  apply addressItems_cidr in H1; [|done].
  assert (destinationIPCIDRItems r3 = destinationIPCIDRItems r1) as E3.
  { unfold headless_processItems in H3. apply bind_Ok_inv in H3 as (r4 & H4 & H3).
    apply (addIfOk_keeps destinationIPCIDRItems) in H3; [|done].
    apply (addIfOk_keeps destinationIPCIDRItems) in H4; [|done].
    unfold headless_portItems in H2. apply bind_Ok_inv in H2 as (r5 & H5 & H2).
    apply (addIfOk_keeps destinationIPCIDRItems) in H2; [|done].
    apply (addIfOk_keeps destinationIPCIDRItems) in H5; [|done].
    rewrite !(addIf_keeps destinationIPCIDRItems) in * by done. congruence. }
  assert (destinationIPCIDRItems (headless_networkItems nm o r3) = destinationIPCIDRItems r3) as E4.
  { unfold headless_networkItems. destruct nm; [|done].
    by rewrite !(addIf_keeps destinationIPCIDRItems). }
  case_bool; [simpl|rewrite (addOrRaw_keeps destinationIPCIDRItems) by done];
    by rewrite E4, E3, H1.
Qed.

Lemma hasHeadlessRule1_cidr nm o (R : HeadlessRule A) :
  tagged o = true -> NewHeadlessRule nm o = Ok R ->
  hasHeadlessRule1 isIPCIDRHeadlessRule o = testsDestinationIP R.
Proof.
  revert R. induction o as [type_ d mode rules IH inverted]; intros R.
  apply list_all_Forall in IH. cbn [tagged NewHeadlessRule hasHeadlessRule1].
  rewrite andb_true_iff, negb_true_iff. intros [-> Hrules]. cbn [orb].
  destruct (bool_decide (type_ = RuleTypeDefault)).
  - case_bool; [done|]. intros H. inv_ok. subst R. simpl. symmetry. by eapply NewDefaultHeadlessRule_cidr.
  - destruct (bool_decide (type_ = RuleTypeLogical)); [|done].
    intros H. apply bind_Ok_inv in H as (valid & _ & H). destruct (negb valid); [done|].
    destruct (bool_decide (mode = LogicalTypeAnd) || bool_decide (mode = LogicalTypeOr)); [|done]. apply bind_Ok_inv in H as (built & Hb & [= <-]). simpl.
    revert built Hb. generalize 0%nat.
    induction IH as [|x l Hx _ IHl]; intros n built; simpl; [by intros [= <-]|].
    simpl in Hrules. apply andb_true_iff in Hrules as [Hx1 Hl].
    destruct (NewHeadlessRule nm x) as [y| |] eqn:Hy; try done. intros H.
    apply bind_Ok_inv in H as (out & Ho & [= <-]). simpl.
    by rewrite (Hx y Hx1 eq_refl), (IHl Hl _ _ Ho).
Qed.

(** The metadata describes the rules.  For options tagged as the decoders tag
    them, the loaded metadata says that the set tests destination addresses
    exactly when some built rule does, at any depth: this is what DNS rules rely
    on to know whether a response must be checked. *)
Theorem metadata_describes_rules nm (validator : option (string -> RuleSetMetadata -> option error))
    tag (options : list HeadlessRuleOptions) (c : content A) :
  forallb tagged options = true -> reloadRules nm validator tag options = Ok c ->
  ContainsIPCIDRRule (metadata c) = existsb testsDestinationIP (rules c).
Proof.
  intros Ht H. unfold reloadRules in H. apply bind_Ok_inv in H as (built & Hb & H).
  assert (c = mkContent built (buildRuleSetMetadata options)) as ->.
  { destruct validator as [validate|]; [destruct (validate tag _)|]; congruence. }
  simpl. unfold HasHeadlessRule. clear H. revert built Hb. generalize 0%nat.
  induction options as [|o l IH]; intros n built; simpl; [by intros [= <-]|].
  simpl in Ht. apply andb_true_iff in Ht as [Ho Hl].
  destruct (NewHeadlessRule nm o) as [y| |] eqn:Hy; try done. intros H.
  apply bind_Ok_inv in H as (out & Hout & [= <-]). simpl.
  by rewrite (hasHeadlessRule1_cidr nm o y Ho Hy), (IH Hl _ _ Hout).
Qed.

End Metadata.

(** ** Remote rule-sets *)

Section Remote.
Context `{C : Codec} {A : Type}.
Variable parseSource : list Byte.byte -> result (N * PlainRuleSet).
Variable networkManager : bool.
Variable validator : option (string -> RuleSetMetadata -> option error).
Variables format tag : string.

Lemma fetch_error hasCache saveOk now response (s s' : RemoteRuleSet A) e :
  fetch parseSource networkManager validator format tag hasCache saveOk now response s
    = Ok (s', Some e) -> s' = s.
Proof.
  unfold fetch. destruct response as [e'|r]; [congruence|].
  destruct (StatusCode r =? StatusOK); [|destruct (StatusCode r =? StatusNotModified)].
  - destruct (Body r) as [e'|bytes]; [congruence|].
    destruct (loadBytes _ _ _ _ _ _); congruence.
  - destruct (cache _); congruence.
  - congruence.
Qed.

(** An update that fails changes nothing.  Whatever goes wrong between the
    request and the check of the new rules, the rule-set keeps the rules,
    metadata, update time, entity tag and cache it had, so it goes on matching as
    before and stays due for another try. *)
Theorem failed_update_keeps_rule_set hasCache saveOk now response (s : RemoteRuleSet A) e s' :
  fetch parseSource networkManager validator format tag hasCache saveOk now response s
    = Ok (s', Some e) ->
  updateOnce parseSource networkManager validator format tag hasCache saveOk now response s = Ok s.
Proof. intros H. unfold updateOnce. rewrite H. simpl. by rewrite (fetch_error _ _ _ _ _ _ _ H). Qed.

(** The cache restores what was loaded.  After an update is fetched, accepted and
    saved, a rule-set started later from that cache entry has the same rules,
    metadata, update time and entity tag, without using the network. *)
Theorem cache_restores_rule_set now now' r response' saveOk (s s' fresh : RemoteRuleSet A) :
  StatusCode r = StatusOK ->
  fetch parseSource networkManager validator format tag true true now (inr r) s = Ok (s', None) ->
  cache fresh = cache s' ->
  exists restored,
    StartContext parseSource networkManager validator format tag true saveOk now' response' fresh
      = Ok restored /\
    loaded restored = loaded s' /\ lastUpdated restored = lastUpdated s' /\
    lastEtag restored = lastEtag s' /\ cache restored = cache s'.
Proof.
  intros Hcode. unfold fetch. rewrite Hcode. change (StatusOK =? StatusOK) with true. cbv iota.
  destruct (Body r) as [e|bytes]; [congruence|].
  destruct (loadBytes parseSource networkManager validator format tag bytes) as [new| |] eqn:Hl;
    try congruence.
  intros [= <-] Hc. unfold StartContext. rewrite Hc. simpl. rewrite Hl. simpl.
  eexists. split; [done|]. done.
Qed.

(** Degraded start.  When nothing is cached, or what is cached no longer loads,
    and the first fetch fails, the start still succeeds: the rule-set is left as
    it was created and is due for an update at once. *)
Theorem degraded_start hasCache saveOk now interval response e (s s' : RemoteRuleSet A) :
  lastUpdated s = None ->
  (forall saved, cache s = Some saved -> hasCache = true ->
    exists err, loadBytes (A:=A) parseSource networkManager validator format tag (saved_Content saved)
      = Err err) ->
  fetch parseSource networkManager validator format tag hasCache saveOk now response s
    = Ok (s', Some e) ->
  StartContext parseSource networkManager validator format tag hasCache saveOk now response s = Ok s /\
  updateDue now interval s = true.
Proof.
  intros Hu Hc Hf. split; [|unfold updateDue; by rewrite Hu].
  assert (fst <$> fetch parseSource networkManager validator format tag hasCache saveOk now response s
          = Ok s) as Hs.
  { rewrite Hf. by rewrite (fetch_error _ _ _ _ _ _ _ Hf). }
  unfold StartContext. destruct hasCache; [|simpl; by rewrite Hu].
  destruct (cache s) as [saved|]; [|simpl; by rewrite Hu].
  destruct (Hc saved eq_refl eq_refl) as [err ->]. simpl. by rewrite Hu.
Qed.

(** A missing entity tag keeps the old one.  A response with new rules but no
    [Etag] header replaces the rules and keeps the tag of the previous rules,
    which is then saved beside the new content and sent with the next request. *)
Theorem stale_etag_is_kept now bytes status (s : RemoteRuleSet A) new :
  loadBytes parseSource networkManager validator format tag bytes = Ok new ->
  fetch parseSource networkManager validator format tag true true now
    (inr (mkResponse StatusOK status "" (inr bytes))) s
  = Ok ({| s with loaded := new; lastUpdated := Some now;
                  cache := Some (mkSavedBinary bytes now (lastEtag s)) |}, None).
Proof. intros Hl. unfold fetch. simpl. by rewrite Hl. Qed.

End Remote.

(** ** Rules over an empty rule-set *)

Section Degraded.
Context `{E : Externals} {A S : Type}.
Variable net : Network.
Variable contents : S -> list (HeadlessRule A).

(** A rule over rule-sets that are not loaded.  While every rule-set of a rule is
    empty the rule matches no connection; if it is inverted it matches all of
    them. *)
Theorem unloaded_rule_set (r : abstractDefaultRule A S) item md :
  ruleSetItem r = Some item -> allItems r <> [] -> IgnoreDestinationIPCIDRMatch md = false ->
  Forall (fun s => contents s = []) (setList item) ->
  Match net (setStates net contents) (DefaultRule r) md = invert r.
Proof.
  intros Hr Ha Hg Hempty. unfold Match, matchStates. simpl matchStatesWithBase.
  rewrite default_matchStates_eq by done. unfold deferred. rewrite Hg. cbn [andb]. rewrite orb_false_r.
  assert (isEmpty (reached net (setStates net contents) r md 0) = true) as He.
  { apply negb_false_iff. unfold reached. rewrite Hr. destruct (forallb _ _); [|done].
    unfold ruleSetItem_matchStatesWithBase. rewrite filter_fold_merge. apply existsb_false_iff.
    eapply Forall_impl; [|exact Hempty]. intros s Hs. cbv beta. unfold setStates. rewrite Hs.
    unfold ruleSet_matchStatesWithBase. simpl fold_left. by rewrite filter_0. }
  rewrite He. destruct (invert r); [done|]. apply isEmpty_0 in He. by rewrite He.
Qed.

End Degraded.

(** ** Witnesses *)

#[local] Existing Instance sampleExternals.
#[local] Existing Instance sampleCodec.

Definition sampleBytes : list Byte.byte := bytes_of_string "{}".
Definition sampleOptions : PlainRuleSet :=
  let r := DefaultHeadlessRuleZero in
  [mkHeadlessRule RuleTypeDefault {| r with h_IPCIDR := Some ["10.0.0.0/8"]; h_Port := Some [443] |}
     "" [] false].
Definition sampleSource (_ : list Byte.byte) : result (N * PlainRuleSet) := Ok (4, sampleOptions).
Definition sampleContent : content unit :=
  match reloadRules true None "set" sampleOptions with Ok c => c | _ => contentZero end.
Definition sampleRemote (etag : string) : RemoteRuleSet unit :=
  mkRemote contentZero None etag 1 None.
Definition sampleResponse : Response := mkResponse StatusOK "200 OK" "" (inr sampleBytes).

Lemma metadata_describes_rules_witness :
  ContainsIPCIDRRule (metadata sampleContent) = existsb testsDestinationIP (rules sampleContent).
Proof.
  apply (metadata_describes_rules true None "set"
    sampleOptions sampleContent); reflexivity.
Defined.

Lemma failed_update_keeps_rule_set_witness :
  updateOnce sampleSource true None RuleSetFormatSource "set" true true 7 (inl (E_New ["down"]))
    (sampleRemote "v1") = Ok (sampleRemote "v1").
Proof.
  by apply (failed_update_keeps_rule_set _ _ _ _ _ _ _ _ _ _ (E_New ["down"]) (sampleRemote "v1")).
Defined.

Lemma stale_etag_is_kept_witness :
  fetch sampleSource true None RuleSetFormatSource "set" true true 7 (inr sampleResponse)
    (sampleRemote "v1")
  = Ok (mkRemote sampleContent (Some 7%Z) "v1" 1 (Some (mkSavedBinary sampleBytes 7 "v1")), None).
Proof.
  apply (stale_etag_is_kept _ _ _ _ _ _ _ _ (sampleRemote "v1") sampleContent).
  reflexivity.
Defined.

Definition sampleSaved : option SavedBinary := Some (mkSavedBinary sampleBytes 7 "v1").
Definition sampleLoaded : RemoteRuleSet unit :=
  mkRemote sampleContent (Some 7%Z) "v1" 1 sampleSaved.
Definition sampleFresh : RemoteRuleSet unit := mkRemote contentZero None "" 0 sampleSaved.

Lemma cache_restores_rule_set_witness :
  exists restored,
    StartContext sampleSource true None RuleSetFormatSource "set" true true 9 (inl (E_New ["down"]))
      sampleFresh = Ok restored /\
    loaded restored = loaded sampleLoaded /\ lastUpdated restored = lastUpdated sampleLoaded /\
    lastEtag restored = lastEtag sampleLoaded /\ cache restored = cache sampleLoaded.
Proof.
  apply (cache_restores_rule_set sampleSource true None RuleSetFormatSource "set" 7 9 sampleResponse
    (inl (E_New ["down"])) true (sampleRemote "v1") sampleLoaded sampleFresh); reflexivity.
Defined.

Lemma degraded_start_witness :
  StartContext sampleSource true None RuleSetFormatSource "set" true true 9 (inl (E_New ["down"]))
    (sampleRemote "") = Ok (sampleRemote "") /\
  updateDue 9 60 (sampleRemote "") = true.
Proof.
  by apply (degraded_start sampleSource true None RuleSetFormatSource "set" true true 9 60
    (inl (E_New ["down"])) (E_New ["down"]) (sampleRemote "") (sampleRemote "")).
Defined.

Lemma unloaded_rule_set_witness :
  Match sampleNetwork (setStates sampleNetwork (fun _ : unit => @nil (HeadlessRule unit)))
    (DefaultRule {| sampleOuter with invert := true |}) sampleMetadata = true.
Proof.
  apply (unloaded_rule_set sampleNetwork (fun _ => []) {| sampleOuter with invert := true |}
    (mkRuleSetItem ["s"] [tt] false false)); [done|done|done|]. by repeat constructor.
Defined.
