(* ===== verification/CacheEntry.v ===== *)
(** * Cache entries of remote rule-sets (src/adapter/experimental.go)

    [SavedBinary] is stored under the tag of the rule-set: a version byte, the
    content, the update time in seconds and the entity tag. *)

From S2P Require Import Prelude GoStd Metadata Binary RuleSet.
From Stdlib Require Import Strings.Byte.
Import RuleSet.

Open Scope N_scope.

Module CacheEntry.

(** [time.Time.Unix] of a time in nanoseconds, and [time.Unix(sec, 0)]. *)
Definition Unix (t : Z) : Z := (t / 10 ^ 9)%Z.
Definition fromUnix (sec : Z) : Z := (sec * 10 ^ 9)%Z.

(** An [int64] and its bits. *)
Definition bits64 (z : Z) : N := Z.to_N (z mod 2 ^ 64)%Z.
Definition int64 (n : N) : Z :=
  if n <? 2 ^ 63 then Z.of_N n else (Z.of_N n - 2 ^ 64)%Z.

Definition MarshalBinary (s : SavedBinary) : list byte :=
  [byte_of_N 1]
  ++ PutUvarint (N.of_nat (length (saved_Content s))) ++ saved_Content s
  ++ be_encode 8 (bits64 (Unix (saved_LastUpdated s)))
  ++ PutUvarint (N.of_nat (length (bytes_of_string (saved_LastEtag s))))
  ++ bytes_of_string (saved_LastEtag s).

Definition UnmarshalBinary : Reader SavedBinary :=
  _ ← Read_uint8;
  contentLength ← ReadUvarint;
  _ ← make_slice 1 contentLength;
  content ← ReadFull contentLength;
  lastUpdated ← (bits ← Read_uint64; mret (int64 bits));
  etagLength ← ReadUvarint;
  _ ← make_slice 1 etagLength;
  etagBytes ← ReadFull etagLength;
  mret (mkSavedBinary content (fromUnix lastUpdated) (string_of_bytes etagBytes)).

(** [CacheFile.LoadRuleSet] on the value stored for the tag: an entry that is
    missing, empty or does not decode is treated as absent. *)
Definition LoadRuleSet (stored : option (list byte)) : result (option SavedBinary) :=
  match stored with
  | None => Ok None
  | Some setBinary =>
      if (length setBinary =? 0)%nat then Ok None
      else
        match UnmarshalBinary setBinary with
        | Some (Ok (savedSet, _)) => Ok (Some savedSet)
        | Some (Err _) => Ok None
        | Some (Panic msg) => Panic msg
        | None => Panic "out of fuel"
        end
  end.

(** ** Round trip *)

Lemma int64_bits64 (z : Z) : (- 2 ^ 63 <= z < 2 ^ 63)%Z -> int64 (bits64 z) = z.
Proof.
  intros Hz. unfold int64, bits64. destruct (Z.ltb_spec z 0) as [Hneg|Hpos].
  - rewrite <- (Z.mod_unique z (2 ^ 64) (-1) (z + 2 ^ 64)) by lia.
    rewrite (proj2 (N.ltb_ge _ _)) by lia. lia.
  - rewrite Z.mod_small by lia. rewrite (proj2 (N.ltb_lt _ _)) by lia. lia.
Qed.

Lemma bits64_lt (z : Z) : bits64 z < 2 ^ 64.
Proof. unfold bits64. pose proof (Z.mod_pos_bound z (2 ^ 64)). lia. Qed.

Lemma reads_bytes {B} (bytes rest : list byte) (f : list byte -> Reader B) (b : B) :
  N.of_nat (length bytes) <= maxAlloc ->
  reads (f bytes) rest b ->
  reads (n ← ReadUvarint; _ ← make_slice 1 n; bs ← ReadFull n; f bs)
    (PutUvarint (N.of_nat (length bytes)) ++ bytes ++ rest) b.
Proof.
  intros Hlen Hf. eapply reads_bind; [apply reads_Uvarint; unfold maxAlloc in Hlen; lia|].
  eapply reads_bind_nil; [apply reads_make_slice; lia|].
  eapply reads_bind; [by apply reads_ReadFull|done].
Qed.

(** Cache entries survive storage.  An entry that was saved is loaded with the
    same content and entity tag; its time is cut to whole seconds. *)
Theorem saved_binary_round_trip (s : SavedBinary) :
  N.of_nat (length (saved_Content s)) <= maxAlloc ->
  N.of_nat (String.length (saved_LastEtag s)) <= maxAlloc ->
  (- 2 ^ 63 <= Unix (saved_LastUpdated s) < 2 ^ 63)%Z ->
  LoadRuleSet (Some (MarshalBinary s))
  = Ok (Some (mkSavedBinary (saved_Content s) (fromUnix (Unix (saved_LastUpdated s))) (saved_LastEtag s))).
Proof.
  intros Hc He Ht.
  assert (reads UnmarshalBinary (MarshalBinary s)
    (mkSavedBinary (saved_Content s) (fromUnix (Unix (saved_LastUpdated s))) (saved_LastEtag s))) as Hr.
  { unfold UnmarshalBinary, MarshalBinary. eapply reads_bind; [by apply reads_uint8|].
    apply reads_bytes; [done|]. eapply reads_bind.
    { eapply reads_bind_ret; [apply reads_uint64, bits64_lt|apply reads_ret]. }
    rewrite <- (app_nil_r (bytes_of_string _)) at 2. apply reads_bytes.
    { by rewrite length_bytes_of_string. }
    rewrite int64_bits64, string_of_bytes_of_string by done. apply reads_ret. }
  specialize (Hr []). rewrite app_nil_r in Hr. unfold LoadRuleSet. by rewrite Hr.
Qed.

Lemma saved_binary_round_trip_witness :
  LoadRuleSet (Some (MarshalBinary (mkSavedBinary [x61; x62] 1700000000999999999 "v1")))
  = Ok (Some (mkSavedBinary [x61; x62] 1700000000000000000 "v1")).
Proof. apply (saved_binary_round_trip (mkSavedBinary [x61; x62] 1700000000999999999 "v1")); by vm_compute. Defined.

End CacheEntry.
