(* ===== verification/RuleActions.v ===== *)
(** * Rule actions (src/route/rule/rule_action.go, src/option/rule_action.go,
    src/common/sniff/sniff.go)

    What a matching rule does: the actions, their construction from the options,
    the counter behind [reject], and the loops that run protocol sniffers over a
    connection.  Sniffers are function values in the source and here. *)

From S2P Require Import Prelude GoStd Metadata.
From Stdlib Require Import Strings.Byte.
Import netip.

Open Scope N_scope.

(** Further third-party code: sing/common/metadata, sing/common/exceptions. *)
Class RouteExternals : Type := {
  Socksaddr_IsValid : Socksaddr -> bool;
  Socksaddr_IsDomain : Socksaddr -> bool;
  Socksaddr_IsIPv4 : Socksaddr -> bool;
  M_IsDomainName : string -> bool;
  M_ParseSocksaddrHostPort : string -> N -> Socksaddr;
  (** [E.Errors]: the errors of the list that are not nil, as one error. *)
  E_Errors : list (option error) -> option error;
}.

Module RuleActions.

(** ** Constants (src/constant/rule.go, src/constant/protocol.go) *)

Definition RuleActionTypeRoute : string := "route".
Definition RuleActionTypeRouteOptions : string := "route-options".
Definition RuleActionTypeDirect : string := "direct".
Definition RuleActionTypeBypass : string := "bypass".
Definition RuleActionTypeReject : string := "reject".
Definition RuleActionTypeHijackDNS : string := "hijack-dns".
Definition RuleActionTypeSniff : string := "sniff".
Definition RuleActionTypeResolve : string := "resolve".
Definition RuleActionRejectMethodDefault : string := "default".
Definition RuleActionRejectMethodDrop : string := "drop".
Definition RuleActionRejectMethodReply : string := "reply".

(** ** Sniffers *)

(** A sniffer sees the payload, updates the metadata and returns an error unless it
    recognises the protocol; [Panic] is a sniffer that does not return, because it panics
    or because its loop never ends.  The reader of a stream sniffer goes through the buffers
    one after the other. *)
Definition StreamSniffer : Type := InboundContext -> list (list byte) -> result (InboundContext * option error).
Definition PacketSniffer : Type := InboundContext -> list byte -> result (InboundContext * option error).

(** The sniffers of src/common/sniff, by name. *)
Record Sniffers : Type := mkSniffers {
  TLSClientHello : StreamSniffer;
  HTTPHost : StreamSniffer;
  StreamDomainNameQuery : StreamSniffer;
  BitTorrent : StreamSniffer;
  SSH : StreamSniffer;
  RDP : StreamSniffer;
  DomainNameQuery : PacketSniffer;
  QUICClientHello : PacketSniffer;
  STUNMessage : PacketSniffer;
  UTP : PacketSniffer;
  UDPTracker : PacketSniffer;
  DTLSRecord : PacketSniffer;
  NTP : PacketSniffer;
}.

Definition Skip (metadata : InboundContext) : bool :=
  let port := Port (Destination metadata) in
  existsb (N.eqb port) [25; 465; 587] || existsb (N.eqb port) [143; 993]
  || existsb (N.eqb port) [110; 995].

(** What one iteration meets on the connection: bytes, bytes with an error, or a
    failure of [SetReadDeadline]. *)
Inductive read_event : Type :=
| ReadBytes (bytes : list byte)
| ReadError (bytes : list byte) (err : error)
| DeadlineError (err : error).
Definition event_bytes (e : read_event) : list byte :=
  match e with ReadBytes bytes | ReadError bytes _ => bytes | DeadlineError _ => [] end.

Section Peek.
Context `{X : RouteExternals}.

(** The loop of [PeekPacket]; [errs] is [sniffError]. *)
Fixpoint peekPacket_loop (sniffers : list PacketSniffer) (metadata : InboundContext) (packet : list byte)
    (errs : list (option error)) : result (InboundContext * option error) :=
  match sniffers with
  | [] => Ok (metadata, E_Errors errs)
  | sniffer :: sniffers =>
      '(metadata, err) ← sniffer metadata packet;
      match err with
      | None => Ok (metadata, None)
      | Some _ => peekPacket_loop sniffers metadata packet (errs ++ [err])
      end
  end.
Definition PeekPacket (metadata : InboundContext) (packet : list byte) (sniffers : list PacketSniffer)
  : result (InboundContext * option error) :=
  peekPacket_loop sniffers metadata packet [].

(** The inner loop of [PeekStream]: [None] in the second component is the early
    return of a success, [Some sniffError] the error after all sniffers. *)
Fixpoint peekStream_sniffers (sniffers : list StreamSniffer) (metadata : InboundContext)
    (payload : list (list byte)) (sniffError : option error) : result (InboundContext * option (option error)) :=
  match sniffers with
  | [] => Ok (metadata, Some sniffError)
  | sniffer :: sniffers =>
      '(metadata, err) ← sniffer metadata payload;
      match err with
      | None => Ok (metadata, None)
      | Some _ => peekStream_sniffers sniffers metadata payload (E_Errors [sniffError; err])
      end
  end.

(** The outer loop of [PeekStream] over the reads of the connection; when no event
    is left the read deadline expires.  [first] is [i == 0].  It returns the
    metadata, the buffer, what is left to read and the error. *)
Fixpoint peekStream_loop (events : list read_event) (first : bool) (metadata : InboundContext)
    (buffers : list (list byte)) (buffer : list byte) (sniffers : list StreamSniffer)
    (sniffError : option error)
  : result (InboundContext * list byte * list read_event * option error) :=
  let failed buffer events err :=
    Ok (metadata, buffer, events,
     if first then Some (E_Cause err ["read payload"]) else sniffError) in
  match events with
  | [] => failed buffer [] ErrDeadlineExceeded
  | DeadlineError err :: events =>
      Ok (metadata, buffer, events, Some (E_Cause err ["set read deadline"]))
  | ReadError bytes err :: events => failed (buffer ++ bytes) events err
  | ReadBytes bytes :: events =>
      let buffer := buffer ++ bytes in
      '(metadata, outcome) ← peekStream_sniffers sniffers metadata (buffers ++ [buffer]) None;
      match outcome with
      | None => Ok (metadata, buffer, events, None)
      | Some sniffError =>
          if negb (errors.opt_Is sniffError ErrNeedMoreData)
          then Ok (metadata, buffer, events, sniffError)
          else peekStream_loop events false metadata buffers buffer sniffers sniffError
      end
  end.
Definition PeekStream (metadata : InboundContext) (events : list read_event)
    (buffers : list (list byte)) (sniffers : list StreamSniffer)
  : result (InboundContext * list byte * list read_event * option error) :=
  peekStream_loop events true metadata buffers [] sniffers None.

End Peek.

(** ** Actions *)

Record RuleActionRouteOptions : Type := mkRouteOptions {
  OverrideAddress : Socksaddr;
  OverridePort : N;
  ro_NetworkStrategy : option N;
  ro_NetworkType : list InterfaceType;
  ro_FallbackNetworkType : list InterfaceType;
  ro_FallbackDelay : Z;
  ro_UDPDisableDomainUnmapping : bool;
  ro_UDPConnect : bool;
  ro_UDPTimeout : Z;
  ro_TLSFragment : bool;
  ro_TLSFragmentFallbackDelay : Z;
  ro_TLSRecordFragment : bool;
  ro_TLSSpoof : string;
  ro_TLSSpoofMethod : N;
}.

Record RuleActionReject : Type := mkReject { Method : string; NoDrop : bool }.

Record RuleActionSniff : Type := mkSniff {
  sn_SnifferNames : list string;
  StreamSniffers : list StreamSniffer;
  PacketSniffers : list PacketSniffer;
  sn_Timeout : Z;
  OverrideDestination : bool;
}.

Record RuleActionResolve : Type := mkResolve {
  Server : string;
  rs_Timeout : Z;
  Strategy : N;
  DisableCache : bool;
  DisableOptimisticCache : bool;
  RewriteTTL : option N;
  ClientSubnet : Prefix;
}.

Inductive RuleAction : Type :=
| ActionRoute (outbound : string) (options : RuleActionRouteOptions)
| ActionRouteOptions (options : RuleActionRouteOptions)
| ActionBypass (outbound : string) (options : RuleActionRouteOptions)
| ActionDirect (description : string)
| ActionReject (action : RuleActionReject)
| ActionHijackDNS
| ActionSniff (action : RuleActionSniff)
| ActionResolve (action : RuleActionResolve).

Definition action_Type (action : RuleAction) : string :=
  match action with
  | ActionRoute _ _ => RuleActionTypeRoute
  | ActionRouteOptions _ => RuleActionTypeRouteOptions
  | ActionBypass _ _ => RuleActionTypeBypass
  | ActionDirect _ => RuleActionTypeDirect
  | ActionReject _ => RuleActionTypeReject
  | ActionHijackDNS => RuleActionTypeHijackDNS
  | ActionSniff _ => RuleActionTypeSniff
  | ActionResolve _ => RuleActionTypeResolve
  end.

(** ** Rejecting *)

(** [tun.ErrReset] and [tun.ErrDrop] of sing-tun. *)
Definition ErrReset : error := ErrExternal "tun.ErrReset".
Definition ErrDrop : error := ErrExternal "tun.ErrDrop".

(** [30*time.Second] in nanoseconds. *)
Definition dropWindow : Z := 30 * 10 ^ 9.

(** [RuleActionReject.Error] at time [now]: the error returned (nil is [None]) and
    [dropCounter] afterwards. *)
Definition reject_Error (r : RuleActionReject) (now : Z) (dropCounter : list Z)
  : result (option error * list Z) :=
  if bool_decide (Method r = RuleActionRejectMethodDefault) then
    let returnErr := RejectedError ErrReset in
    if NoDrop r then Ok (Some returnErr, dropCounter)
    else
      let dropCounter := List.filter (fun t => (now - t <=? dropWindow)%Z) dropCounter in
      let dropCounter := dropCounter ++ [now] in
      if (50 <? length dropCounter)%nat then Ok (Some (RejectedError ErrDrop), dropCounter)
      else Ok (Some returnErr, dropCounter)
  else if bool_decide (Method r = RuleActionRejectMethodDrop) then
    Ok (Some (RejectedError ErrDrop), dropCounter)
  else if bool_decide (Method r = RuleActionRejectMethodReply) then Ok (None, dropCounter)
  else Panic ("unknown reject method: " ++ Method r).

(** [errors.As] with the type [RejectedError], and with [BypassedError]. *)
Fixpoint IsRejected (err : error) : bool :=
  match err with
  | RejectedError _ => true
  | E_Cause cause _ | E_Extend cause _ | BypassedError cause => IsRejected cause
  | E_Join a b => IsRejected a || IsRejected b
  | _ => false
  end.
Fixpoint IsBypassed (err : error) : bool :=
  match err with
  | BypassedError _ => true
  | E_Cause cause _ | E_Extend cause _ | RejectedError cause => IsBypassed cause
  | E_Join a b => IsBypassed a || IsBypassed b
  | _ => false
  end.

(** ** Options *)

Record RawRouteOptionsActionOptions : Type := mkRawRouteOptions {
  raw_OverrideAddress : string;
  raw_OverridePort : N;
  raw_NetworkStrategy : option N;
  raw_FallbackDelay : N;
  raw_UDPDisableDomainUnmapping : bool;
  raw_UDPConnect : bool;
  raw_UDPTimeout : Z;
  raw_TLSFragment : bool;
  raw_TLSFragmentFallbackDelay : Z;
  raw_TLSRecordFragment : bool;
  raw_TLSSpoof : string;
  raw_TLSSpoofMethod : string;
}.

#[export] Instance RawRouteOptions_eq_dec : EqDecision RawRouteOptionsActionOptions.
Proof. solve_decision. Defined.

Definition RawRouteOptionsZero : RawRouteOptionsActionOptions :=
  mkRawRouteOptions "" 0 None 0 false false 0 false 0 false "" "".

(** [RouteOptionsActionOptions.UnmarshalJSON] after the fields are decoded. *)
Definition checkRouteOptions (r : RawRouteOptionsActionOptions) : result unit :=
  if bool_decide (r = RawRouteOptionsZero) then Err (E_New ["empty route option action"])
  else if raw_TLSFragment r && raw_TLSRecordFragment r
  then Err (E_New ["`tls_fragment` and `tls_record_fragment` are mutually exclusive"])
  else Ok tt.

(** [RejectActionOptions.UnmarshalJSON] after the fields are decoded. *)
Definition checkRejectOptions (r : RuleActionReject) : result RuleActionReject :=
  method ← (if bool_decide (Method r = "") || bool_decide (Method r = RuleActionRejectMethodDefault)
            then Ok RuleActionRejectMethodDefault
            else if bool_decide (Method r = RuleActionRejectMethodDrop)
                    || bool_decide (Method r = RuleActionRejectMethodReply)
            then Ok (Method r)
            else Err (E_New ["unknown reject method: " +:+ Method r]));
  if bool_decide (method = RuleActionRejectMethodDrop) && NoDrop r
  then Err (E_New ["no_drop is not available in current context"])
  else Ok (mkReject method (NoDrop r)).

Record RouteActionResolve : Type := mkResolveOptions {
  o_Server : string;
  o_Timeout : Z;
  o_Strategy : N;
  o_DisableCache : bool;
  o_DisableOptimisticCache : bool;
  o_RewriteTTL : option N;
  o_ClientSubnet : option Prefix;
}.

(** [option.RuleAction]; [D] is the type of dialer options. *)
Record RuleActionOptions (D : Type) : Type := mkActionOptions {
  o_Action : string;
  o_RouteOptions : string * RawRouteOptionsActionOptions;
  o_RouteOptionsOptions : RawRouteOptionsActionOptions;
  o_DirectOptions : D;
  o_BypassOptions : string * RawRouteOptionsActionOptions;
  o_RejectOptions : RuleActionReject;
  o_SniffOptions : list string * Z;
  o_ResolveOptions : RouteActionResolve;
}.
Arguments o_Action {D} _.
Arguments o_RouteOptions {D} _.
Arguments o_RouteOptionsOptions {D} _.
Arguments o_DirectOptions {D} _.
Arguments o_BypassOptions {D} _.
Arguments o_RejectOptions {D} _.
Arguments o_SniffOptions {D} _.
Arguments o_ResolveOptions {D} _.

(** ** src/common/tlsspoof/spoof.go: the methods *)

Definition ParseMethod (s : string) : result N :=
  if bool_decide (s = "") || bool_decide (s = "wrong-sequence") then Ok 0
  else if bool_decide (s = "wrong-checksum") then Ok 1
  else if bool_decide (s = "wrong-ack") then Ok 2
  else if bool_decide (s = "wrong-md5") then Ok 3
  else if bool_decide (s = "wrong-timestamp") then Ok 4
  else Err (E_New ["tls_spoof: unknown method: "; s]).

Definition Method_String (m : N) : string :=
  if m =? 0 then "wrong-sequence" else if m =? 1 then "wrong-checksum"
  else if m =? 2 then "wrong-ack" else if m =? 3 then "wrong-md5"
  else if m =? 4 then "wrong-timestamp" else "unknown".

Definition ParseOptions (PlatformSupported : bool) (spoof method : string) : result (string * N) :=
  if bool_decide (spoof = "") then
    if negb (bool_decide (method = "")) then Err (E_New ["spoof_method requires spoof"])
    else Ok ("", 0)
  else if negb PlatformSupported then Err (E_New ["tls_spoof is not supported on this platform"])
  else parsedMethod ← ParseMethod method; Ok (spoof, parsedMethod).

(** ** Construction *)

Section Build.
Context `{E : Externals} `{X : RouteExternals}.
Variable PlatformSupported : bool.
Variable sniffers : Sniffers.
(** [dialer.New] on the options of a direct action, and their descriptions. *)
Variable D : Type.
Variable dialer_New : D -> result unit.
Variable Descriptions : D -> list string.

Definition newRuleActionRouteOptions (options : RawRouteOptionsActionOptions)
  : result RuleActionRouteOptions :=
  '(spoof, spoofMethod) ← ParseOptions PlatformSupported (raw_TLSSpoof options) (raw_TLSSpoofMethod options);
  Ok (mkRouteOptions
    (M_ParseSocksaddrHostPort (raw_OverrideAddress options) 0)
    (raw_OverridePort options)
    (raw_NetworkStrategy options)
    [] []
    (Z.of_N (raw_FallbackDelay options))
    (raw_UDPDisableDomainUnmapping options)
    (raw_UDPConnect options)
    (raw_UDPTimeout options)
    (raw_TLSFragment options)
    (raw_TLSFragmentFallbackDelay options)
    (raw_TLSRecordFragment options)
    spoof spoofMethod).

(** The sniffers a name stands for, in the switch of [build]. *)
Definition snifferByName (name : string) : option (list StreamSniffer * list PacketSniffer) :=
  if bool_decide (name = "tls") then Some ([TLSClientHello sniffers], [])
  else if bool_decide (name = "http") then Some ([HTTPHost sniffers], [])
  else if bool_decide (name = "quic") then Some ([], [QUICClientHello sniffers])
  else if bool_decide (name = "dns") then Some ([StreamDomainNameQuery sniffers], [DomainNameQuery sniffers])
  else if bool_decide (name = "stun") then Some ([], [STUNMessage sniffers])
  else if bool_decide (name = "bittorrent")
  then Some ([BitTorrent sniffers], [UTP sniffers; UDPTracker sniffers])
  else if bool_decide (name = "dtls") then Some ([], [DTLSRecord sniffers])
  else if bool_decide (name = "ssh") then Some ([SSH sniffers], [])
  else if bool_decide (name = "rdp") then Some ([RDP sniffers], [])
  else if bool_decide (name = "ntp") then Some ([], [NTP sniffers])
  else None.

(** The loop of [RuleActionSniff.build]. *)
Fixpoint sniff_build (names : list string) (stream : list StreamSniffer) (packet : list PacketSniffer)
  : result (list StreamSniffer * list PacketSniffer) :=
  match names with
  | [] => Ok (stream, packet)
  | name :: names =>
      match snifferByName name with
      | Some (s, p) => sniff_build names (stream ++ s) (packet ++ p)
      | None => Err (E_New ["unknown sniffer: "; name])
      end
  end.

Definition directDescription (descriptions : list string) : string :=
  match descriptions with
  | [] => ""
  | [a] => F_ToString ["("; a; ")"]
  | [a; b] => F_ToString ["("; a; ","; b; ")"]
  | a :: b :: _ => F_ToString ["("; a; ","; b; ",...)"]
  end.

Definition NewRuleAction (action : RuleActionOptions D) : result (option RuleAction) :=
  let type_ := o_Action action in
  if bool_decide (type_ = "") then Ok None
  else if bool_decide (type_ = RuleActionTypeRoute) then
    routeOptions ← newRuleActionRouteOptions (o_RouteOptions action).2;
    Ok (Some (ActionRoute (o_RouteOptions action).1 routeOptions))
  else if bool_decide (type_ = RuleActionTypeRouteOptions) then
    routeOptions ← newRuleActionRouteOptions (o_RouteOptionsOptions action);
    Ok (Some (ActionRouteOptions routeOptions))
  else if bool_decide (type_ = RuleActionTypeBypass) then
    routeOptions ← newRuleActionRouteOptions (o_BypassOptions action).2;
    Ok (Some (ActionBypass (o_BypassOptions action).1 routeOptions))
  else if bool_decide (type_ = RuleActionTypeDirect) then
    _ ← dialer_New (o_DirectOptions action);
    Ok (Some (ActionDirect (directDescription (Descriptions (o_DirectOptions action)))))
  else if bool_decide (type_ = RuleActionTypeReject) then
    Ok (Some (ActionReject (o_RejectOptions action)))
  else if bool_decide (type_ = RuleActionTypeHijackDNS) then Ok (Some ActionHijackDNS)
  else if bool_decide (type_ = RuleActionTypeSniff) then
    '(stream, packet) ← sniff_build (o_SniffOptions action).1 [] [];
    Ok (Some (ActionSniff (mkSniff (o_SniffOptions action).1 stream packet (o_SniffOptions action).2 false)))
  else if bool_decide (type_ = RuleActionTypeResolve) then
    let o := o_ResolveOptions action in
    Ok (Some (ActionResolve (mkResolve (o_Server o) (o_Timeout o) (o_Strategy o) (o_DisableCache o)
      (o_DisableOptimisticCache o) (o_RewriteTTL o) (Prefixable_Build (o_ClientSubnet o) PrefixZero))))
  else Panic (F_ToString ["unknown rule action: "; type_]).

End Build.

End RuleActions.
