(* ===== verification/RuleBuild.v ===== *)
(** * Building route rules (src/route/rule/rule_default.go, rule_nested_action.go,
    src/option/rule.go)

    [NewRule] checks the options of a rule and turns each configured field into
    an item of its group; sub rules of a logical rule must not have actions. *)

From S2P Require Import Prelude GoStd Metadata RuleItems Rules HeadlessOptions HeadlessBuild RuleActions.
Import netip RuleItems Rules RuleActions.

Open Scope N_scope.

Module RuleBuild.

(** ** Options *)

Record RawDefaultRule : Type := mkRawDefault {
  r_Inbound : slice string;
  r_IPVersion : Z;
  r_Network : slice string;
  r_AuthUser : slice string;
  r_Protocol : slice string;
  r_Client : slice string;
  r_Domain : slice string;
  r_DomainSuffix : slice string;
  r_DomainKeyword : slice string;
  r_DomainRegex : slice string;
  r_Geosite : slice string;
  r_SourceGeoIP : slice string;
  r_GeoIP : slice string;
  r_SourceIPCIDR : slice string;
  r_SourceIPIsPrivate : bool;
  r_IPCIDR : slice string;
  r_IPIsPrivate : bool;
  r_SourcePort : slice N;
  r_SourcePortRange : slice string;
  r_Port : slice N;
  r_PortRange : slice string;
  r_ProcessName : slice string;
  r_ProcessPath : slice string;
  r_ProcessPathRegex : slice string;
  r_PackageName : slice string;
  r_PackageNameRegex : slice string;
  r_User : slice string;
  r_UserID : slice Z;
  r_ClashMode : string;
  r_NetworkType : slice InterfaceType;
  r_NetworkIsExpensive : bool;
  r_NetworkIsConstrained : bool;
  r_WIFISSID : slice string;
  r_WIFIBSSID : slice string;
  r_InterfaceAddress : option (list (string * slice (option Prefix)));
  r_NetworkInterfaceAddress : option (list (InterfaceType * slice (option Prefix)));
  r_DefaultInterfaceAddress : slice (option Prefix);
  r_SourceMACAddress : slice string;
  r_SourceHostname : slice string;
  r_PreferredBy : slice string;
  r_RuleSet : slice string;
  r_RuleSetIPCIDRMatchSource : bool;
  r_Invert : bool;
  r_Deprecated_RulesetIPCIDRMatchSource : bool;
}.

Definition RawDefaultRuleZero : RawDefaultRule :=
  mkRawDefault None 0 None None None None None None None None None None None None false None false
    None None None None None None None None None None None "" None false false None None None None
    None None None None None false false false.

(** Every field other than [Invert] has its zero value. *)
Definition raw_isZero (r : RawDefaultRule) : bool :=
  isNil (r_Inbound r) && (r_IPVersion r =? 0)%Z && isNil (r_Network r) && isNil (r_AuthUser r)
  && isNil (r_Protocol r) && isNil (r_Client r) && isNil (r_Domain r) && isNil (r_DomainSuffix r)
  && isNil (r_DomainKeyword r) && isNil (r_DomainRegex r) && isNil (r_Geosite r)
  && isNil (r_SourceGeoIP r) && isNil (r_GeoIP r) && isNil (r_SourceIPCIDR r)
  && negb (r_SourceIPIsPrivate r) && isNil (r_IPCIDR r) && negb (r_IPIsPrivate r)
  && isNil (r_SourcePort r) && isNil (r_SourcePortRange r) && isNil (r_Port r) && isNil (r_PortRange r)
  && isNil (r_ProcessName r) && isNil (r_ProcessPath r) && isNil (r_ProcessPathRegex r)
  && isNil (r_PackageName r) && isNil (r_PackageNameRegex r) && isNil (r_User r) && isNil (r_UserID r)
  && bool_decide (r_ClashMode r = "") && isNil (r_NetworkType r) && negb (r_NetworkIsExpensive r)
  && negb (r_NetworkIsConstrained r) && isNil (r_WIFISSID r) && isNil (r_WIFIBSSID r)
  && isNil (r_InterfaceAddress r) && isNil (r_NetworkInterfaceAddress r)
  && isNil (r_DefaultInterfaceAddress r) && isNil (r_SourceMACAddress r) && isNil (r_SourceHostname r)
  && isNil (r_PreferredBy r) && isNil (r_RuleSet r) && negb (r_RuleSetIPCIDRMatchSource r)
  && negb (r_Deprecated_RulesetIPCIDRMatchSource r).

Section Build.
Context `{E : Externals} `{X : RouteExternals} {S : Type}.
#[local] Abbreviation rule_t := (abstractDefaultRule RuleAction S).

(** ** Default rules *)

(** The conditions on the connection itself. *)
Definition route_connectionItems (o : RawDefaultRule) (rule : rule_t) : result rule_t :=
  let rule := addIf (nonempty (elems (r_Inbound o))) addItem (NewInboundRule (elems (r_Inbound o))) rule in
  rule ← (if (0 <? r_IPVersion o)%Z then
            if (r_IPVersion o =? 4)%Z || (r_IPVersion o =? 6)%Z
            then Ok (addItem rule (NewIPVersionItem (r_IPVersion o =? 6)%Z))
            else Err (E_New ["invalid ip version: "; F_int (r_IPVersion o)])
          else Ok rule);
  let rule := addIf (nonempty (elems (r_Network o))) addItem (NewNetworkItem (elems (r_Network o))) rule in
  let rule := addIf (nonempty (elems (r_AuthUser o))) addItem (NewAuthUserItem (elems (r_AuthUser o))) rule in
  let rule := addIf (nonempty (elems (r_Protocol o))) addItem (NewProtocolItem (elems (r_Protocol o))) rule in
  Ok (addIf (nonempty (elems (r_Client o))) addItem (NewClientItem (elems (r_Client o))) rule).

(** Domains and addresses. *)
Definition route_addressItems (o : RawDefaultRule) (rule : rule_t) : result rule_t :=
  rule ← addIfOk (nonempty (elems (r_Domain o)) || nonempty (elems (r_DomainSuffix o))) id
           addDestinationAddress (NewDomainItem (elems (r_Domain o)) (elems (r_DomainSuffix o))) rule;
  let rule := addIf (nonempty (elems (r_DomainKeyword o))) addDestinationAddress
                (NewDomainKeywordItem (elems (r_DomainKeyword o))) rule in
  rule ← addIfOk (nonempty (elems (r_DomainRegex o))) id addDestinationAddress
           (NewDomainRegexItem (elems (r_DomainRegex o))) rule;
  if nonempty (elems (r_Geosite o)) then
    Err (E_New ["geosite database is deprecated in sing-box 1.8.0 and removed in sing-box 1.12.0"])
  else if nonempty (elems (r_SourceGeoIP o)) then
    Err (E_New ["geoip database is deprecated in sing-box 1.8.0 and removed in sing-box 1.12.0"])
  else if nonempty (elems (r_GeoIP o)) then
    Err (E_New ["geoip database is deprecated in sing-box 1.8.0 and removed in sing-box 1.12.0"])
  else
    rule ← addIfOk (nonempty (elems (r_SourceIPCIDR o))) (causedBy "source_ip_cidr") addSourceAddress
             (NewIPCIDRItem true (elems (r_SourceIPCIDR o))) rule;
    let rule := addIf (r_SourceIPIsPrivate o) addSourceAddress (NewIPIsPrivateItem true) rule in
    rule ← addIfOk (nonempty (elems (r_IPCIDR o))) (causedBy "ipcidr") addDestinationIPCIDR
             (NewIPCIDRItem false (elems (r_IPCIDR o))) rule;
    Ok (addIf (r_IPIsPrivate o) addDestinationIPCIDR (NewIPIsPrivateItem false) rule).

Definition route_portItems (o : RawDefaultRule) (rule : rule_t) : result rule_t :=
  let rule := addIf (nonempty (elems (r_SourcePort o))) addSourcePort
                (NewPortItem true (elems (r_SourcePort o))) rule in
  rule ← addIfOk (nonempty (elems (r_SourcePortRange o))) (causedBy "source_port_range")
           addSourcePort (NewPortRangeItem true (elems (r_SourcePortRange o))) rule;
  let rule := addIf (nonempty (elems (r_Port o))) addDestinationPort
                (NewPortItem false (elems (r_Port o))) rule in
  addIfOk (nonempty (elems (r_PortRange o))) (causedBy "port_range")
    addDestinationPort (NewPortRangeItem false (elems (r_PortRange o))) rule.

(** Processes, packages, users and the Clash mode. *)
Definition route_processItems (o : RawDefaultRule) (rule : rule_t) : result rule_t :=
  let rule := addIf (nonempty (elems (r_ProcessName o))) addItem
                (NewProcessItem (elems (r_ProcessName o))) rule in
  let rule := addIf (nonempty (elems (r_ProcessPath o))) addItem
                (NewProcessPathItem (elems (r_ProcessPath o))) rule in
  rule ← addIfOk (nonempty (elems (r_ProcessPathRegex o))) (causedBy "process_path_regex")
           addItem (NewProcessPathRegexItem (elems (r_ProcessPathRegex o))) rule;
  let rule := addIf (nonempty (elems (r_PackageName o))) addItem
                (NewPackageNameItem (elems (r_PackageName o))) rule in
  rule ← addIfOk (nonempty (elems (r_PackageNameRegex o))) (causedBy "package_name_regex")
           addItem (NewPackageNameRegexItem (elems (r_PackageNameRegex o))) rule;
  let rule := addIf (nonempty (elems (r_User o))) addItem (NewUserItem (elems (r_User o))) rule in
  let rule := addIf (nonempty (elems (r_UserID o))) addItem (NewUserIDItem (elems (r_UserID o))) rule in
  Ok (addIf (negb (bool_decide (r_ClashMode o = ""))) addItem (NewClashModeItem (r_ClashMode o)) rule).

Definition interfaceEntries {K} (m : option (list (K * slice (option Prefix)))) : list (K * list (option Prefix)) :=
  map (fun '(k, v) => (k, elems v)) (default [] m).

(** The state of the network and the neighbours. *)
Definition route_networkItems (o : RawDefaultRule) (rule : rule_t) : rule_t :=
  let rule := addIf (nonempty (elems (r_NetworkType o))) addItem
                (NewNetworkTypeItem (elems (r_NetworkType o))) rule in
  let rule := addIf (r_NetworkIsExpensive o) addItem NewNetworkIsExpensiveItem rule in
  let rule := addIf (r_NetworkIsConstrained o) addItem NewNetworkIsConstrainedItem rule in
  let rule := addIf (nonempty (elems (r_WIFISSID o))) addItem
                (NewWIFISSIDItem (elems (r_WIFISSID o))) rule in
  let rule := addIf (nonempty (elems (r_WIFIBSSID o))) addItem
                (NewWIFIBSSIDItem (elems (r_WIFIBSSID o))) rule in
  let rule := addIf (nonempty (default [] (r_InterfaceAddress o))) addItem
                (NewInterfaceAddressItem (interfaceEntries (r_InterfaceAddress o))) rule in
  let rule := addIf (nonempty (default [] (r_NetworkInterfaceAddress o))) addItem
                (NewNetworkInterfaceAddressItem (interfaceEntries (r_NetworkInterfaceAddress o))) rule in
  let rule := addIf (nonempty (elems (r_DefaultInterfaceAddress o))) addItem
                (NewDefaultInterfaceAddressItem (elems (r_DefaultInterfaceAddress o))) rule in
  let rule := addIf (nonempty (elems (r_SourceMACAddress o))) addItem
                (NewSourceMACAddressItem (elems (r_SourceMACAddress o))) rule in
  let rule := addIf (nonempty (elems (r_SourceHostname o))) addItem
                (NewSourceHostnameItem (elems (r_SourceHostname o))) rule in
  addIf (nonempty (elems (r_PreferredBy o))) addItem (NewPreferredByItem (elems (r_PreferredBy o))) rule.

Definition route_ruleSetItem (o : RawDefaultRule) (rule : rule_t) : result rule_t :=
  if nonempty (elems (r_RuleSet o)) then
    if r_Deprecated_RulesetIPCIDRMatchSource o then
      Err (E_New ["rule_set_ipcidr_match_source is deprecated in sing-box 1.10.0 and removed in sing-box 1.11.0"])
    else
      let item := mkRuleSetItem (elems (r_RuleSet o)) [] (r_RuleSetIPCIDRMatchSource o) false in
      Ok {| rule with ruleSetItem := Some item; allItems := allItems rule ++ [OfRuleSet item] |}
  else Ok rule.

(** ** Rules *)

Variable PlatformSupported : bool.
Variable sniffers : Sniffers.
Variable D : Type.
Variable dialer_New : D -> result unit.
Variable Descriptions : D -> list string.
(** The options of a direct action have the zero value. *)
Variable D_isZero : D -> bool.

Definition NewDefaultRule (o : RawDefaultRule) (a : RuleActionOptions D) : result rule_t :=
  act ← map_err (causedBy "action") (NewRuleAction PlatformSupported sniffers D dialer_New Descriptions a);
  rule ← route_connectionItems o (newRule (r_Invert o) act);
  rule ← route_addressItems o rule;
  rule ← route_portItems o rule;
  rule ← route_processItems o rule;
  route_ruleSetItem o (route_networkItems o rule).

(** [option.Rule]: its type, the options and action of a default rule, and the
    fields and action of a logical rule. *)
Inductive RuleOptions : Type :=
| mkRule (Type_ : string) (DefaultOptions : RawDefaultRule) (DefaultAction : RuleActionOptions D)
    (Mode : string) (Rules : list RuleOptions) (Invert : bool) (LogicalAction : RuleActionOptions D).

(** [reflect.DeepEqual] of an action with the zero value. *)
Definition action_isZero (a : RuleActionOptions D) : bool :=
  bool_decide (o_Action a = "")
  && bool_decide (o_RouteOptions a = ("", RawRouteOptionsZero))
  && bool_decide (o_RouteOptionsOptions a = RawRouteOptionsZero)
  && D_isZero (o_DirectOptions a)
  && bool_decide (o_BypassOptions a = ("", RawRouteOptionsZero))
  && bool_decide (Method (o_RejectOptions a) = "") && negb (NoDrop (o_RejectOptions a))
  && bool_decide (o_SniffOptions a = ([], 0%Z))
  && bool_decide (o_Server (o_ResolveOptions a) = "") && (o_Timeout (o_ResolveOptions a) =? 0)%Z
  && (o_Strategy (o_ResolveOptions a) =? 0) && negb (o_DisableCache (o_ResolveOptions a))
  && negb (o_DisableOptimisticCache (o_ResolveOptions a))
  && isNil (o_RewriteTTL (o_ResolveOptions a)) && isNil (o_ClientSubnet (o_ResolveOptions a)).

Definition defaultRule_IsValid (o : RawDefaultRule) (a : RuleActionOptions D) : bool :=
  negb (raw_isZero o && action_isZero a).

(** [Rule.IsValid], with [LogicalRule.IsValid] inlined at the recursion. *)
Fixpoint route_IsValid (r : RuleOptions) : result bool :=
  match r with
  | mkRule type_ o a _ rules _ _ =>
      if bool_decide (type_ = RuleTypeDefault) then Ok (defaultRule_IsValid o a)
      else if bool_decide (type_ = RuleTypeLogical)
      then if (0 <? length rules)%nat then all_valid route_IsValid rules else Ok false
      else Panic ("unknown rule type: " +:+ type_)
  end.
Definition route_logical_IsValid (rules : list RuleOptions) : result bool :=
  if (0 <? length rules)%nat then all_valid route_IsValid rules else Ok false.

Definition ruleHasConfiguredAction (r : RuleOptions) : bool :=
  match r with
  | mkRule type_ _ a _ _ _ la =>
      if bool_decide (type_ = "") || bool_decide (type_ = RuleTypeDefault) then negb (action_isZero a)
      else if bool_decide (type_ = RuleTypeLogical) then negb (action_isZero la)
      else false
  end.

(** [option.RouteRuleActionNestedUnsupportedMessage] *)
Definition RouteRuleActionNestedUnsupportedMessage : string :=
  "rule action is not supported in nested rules".

Fixpoint validateNoNestedRuleActions (r : RuleOptions) (nested : bool) : result unit :=
  if nested && ruleHasConfiguredAction r then Err (E_New [RouteRuleActionNestedUnsupportedMessage])
  else
    match r with
    | mkRule type_ _ _ _ rules _ _ =>
        if negb (bool_decide (type_ = RuleTypeLogical)) then Ok tt
        else _ ← build_all (fun sub => validateNoNestedRuleActions sub true) 0 rules; Ok tt
    end.

(** The check of a missing outbound. *)
Definition missingOutbound (a : RuleActionOptions D) (checkOutbound : bool) : bool :=
  (bool_decide (o_Action a = "") || bool_decide (o_Action a = RuleActionTypeRoute))
  && bool_decide ((o_RouteOptions a).1 = "") && checkOutbound.

(** [NewLogicalRule]; [newSub] builds a sub rule, which is checked for actions
    first. *)
Definition NewLogicalRule (newSub : RuleOptions -> result (Rule RuleAction S)) (mode : string)
    (rules : list RuleOptions) (inverted : bool) (la : RuleActionOptions D) : result (Rule RuleAction S) :=
  act ← map_err (causedBy "action")
          (NewRuleAction PlatformSupported sniffers D dialer_New Descriptions la);
  if bool_decide (mode = LogicalTypeAnd) || bool_decide (mode = LogicalTypeOr) then
    rules ← build_all (fun sub => _ ← validateNoNestedRuleActions sub true; newSub sub) 0 rules;
    Ok (LogicalRule rules mode inverted act)
  else Err (E_New ["unknown logical mode: "; mode]).

Fixpoint NewRule (r : RuleOptions) (checkOutbound : bool) : result (Rule RuleAction S) :=
  match r with
  | mkRule type_ o a mode rules inverted la =>
      if bool_decide (type_ = "") || bool_decide (type_ = RuleTypeDefault) then
        if negb (defaultRule_IsValid o a) then Err (E_New ["missing conditions"])
        else if missingOutbound a checkOutbound then Err (E_New ["missing outbound field"])
        else rule ← NewDefaultRule o a; Ok (DefaultRule rule)
      else if bool_decide (type_ = RuleTypeLogical) then
        valid ← route_logical_IsValid rules;
        if negb valid then Err (E_New ["missing conditions"])
        else if missingOutbound la checkOutbound then Err (E_New ["missing outbound field"])
        else NewLogicalRule (fun sub => NewRule sub false) mode rules inverted la
      else Err (E_New ["unknown rule type: "; type_])
  end.

End Build.

End RuleBuild.
