(* ===== verification/Route.v ===== *)
(** * The router (src/route/route.go, src/route/process_cache.go)

    [matchRule] walks the rules in order with mutable metadata: options of matching
    rules are applied, connections are sniffed, destinations resolved, until a
    final action is reached.  [routeConnection], [routePacketConnection] and
    [PreMatch] act on its outcome.  The managers the router asks (outbounds, DNS,
    FakeIP, neighbours, processes) are the fields of [Env]; the connection is the
    sequence of what its reads return. *)

From S2P Require Import Prelude GoStd Metadata MatchState RuleItems Rules RuleActions.
From Stdlib Require Import Strings.Byte.
Import netip Rules RuleActions.

Open Scope N_scope.

Module Route.

(** ** What the router asks of other components *)

Definition NetworkTCP : string := "tcp".
Definition NetworkUDP : string := "udp".
Definition NetworkICMP : string := "icmp".
Definition TypeTun : string := "tun".
Definition ProtocolDNS : string := "dns".

(** An outbound: its tag, [Network()], and whether it is an
    [adapter.DirectRouteOutbound]. *)
Record OutboundInfo : Type := mkOutbound {
  Tag : string;
  Networks : list string;
  isDirectRoute : bool;
}.

Record Env : Type := mkEnv {
  (* process searcher *)
  processSearcher : bool;
  isLocalSource : Addr -> bool;
  findProcessInfoCached : string -> Socksaddr -> option Socksaddr -> result ConnectionOwner;
  (* neighbour resolver: hardware address and host name *)
  neighborResolver : option ((Addr -> option net.HardwareAddr) * (Addr -> option string));
  (* FakeIP store: [Contains] and [Lookup] *)
  FakeIPStore : option ((Addr -> bool) * (Addr -> option string));
  LookupReverseMapping : Addr -> option string;
  (* DNS transports and lookups *)
  hasTransport : string -> bool;
  Lookup : InboundContext -> string -> RuleActionResolve -> result (list Addr);
  (* outbound and inbound managers *)
  OutboundByTag : string -> option OutboundInfo;
  DefaultOutbound : OutboundInfo;
  (* an inbound: whether it is TCP and UDP injectable *)
  InboundByTag : string -> option (bool * bool);
  (* [mux.Destination.Fqdn], [vmess.MuxDestination.Fqdn], [uot.MagicAddress] and
     [uot.LegacyMagicAddress] *)
  muxFqdn : string;
  vmessMuxFqdn : string;
  uotMagicAddress : string;
  uotLegacyMagicAddress : string;
}.

(** What a read of a packet connection gives: a packet with its destination, an
    error, or the cancellation of the context while waiting. *)
Inductive packet_event : Type :=
| PacketRead (bytes : list byte) (destination : Socksaddr)
| PacketError (err : error)
| PacketCancelled (err : error).

(** [inputConn] and [inputPacketConn]. *)
Inductive Input : Type :=
| InputConn (events : list read_event)
| InputPacketConn (events : list packet_event)
| InputNone.

Definition PacketBuffer : Type := list byte * Socksaddr.

Section Route.
Context `{E : Externals} `{X : RouteExternals} {S : Type}.
Variable env : Env.
Variable sniffers : Sniffers.
Variable net : Network.
Variable ruleSet_matchStatesWithBase : S -> InboundContext -> MatchState.ruleMatchState -> MatchState.ruleMatchStateSet.

#[local] Abbreviation rule_t := (@Rule E RuleAction S).

(** ** Before the rules *)

Definition searchProcessInfo (metadata : InboundContext) : InboundContext :=
  match ProcessInfo metadata with
  | Some _ => metadata
  | None =>
      if negb (processSearcher env) || negb (isLocalSource env (Addr_ (Source metadata)))
      then metadata
      else
        let originDestination :=
          if Socksaddr_IsValid (OriginDestination metadata) then Some (OriginDestination metadata)
          else if Socksaddr_IsIP (Destination metadata) then Some (Destination metadata)
          else None in
        match findProcessInfoCached env (Network_ metadata) (Source metadata) originDestination with
        | Ok processInfo => {| metadata with ProcessInfo := Some processInfo |}
        | _ => metadata
        end
  end.

(** The neighbour lookup of [matchRule]. *)
Definition lookupNeighbor (metadata : InboundContext) : InboundContext :=
  match neighborResolver env, SourceMACAddress metadata with
  | Some (LookupMAC, LookupHostname), None =>
      let addr := Addr_ (Source metadata) in
      if IsValid addr then
        let metadata :=
          match LookupMAC addr with
          | Some mac => {| metadata with SourceMACAddress := Some mac |}
          | None => metadata
          end in
        match LookupHostname addr with
        | Some hostname => {| metadata with SourceHostname := hostname |}
        | None => metadata
        end
      else metadata
  | _, _ => metadata
  end.

Definition lookupReverse (metadata : InboundContext) : InboundContext :=
  if bool_decide (Domain metadata = "") then
    match LookupReverseMapping env (Addr_ (Destination metadata)) with
    | Some domain => {| metadata with Domain := domain |}
    | None => metadata
    end
  else metadata.

(** The FakeIP and reverse mapping lookups of [matchRule]. *)
Definition lookupFakeIP (metadata : InboundContext) : result InboundContext :=
  let addr := Addr_ (Destination metadata) in
  match FakeIPStore env with
  | Some (Contains, StoreLookup) =>
      if IsValid addr && Contains addr then
        match StoreLookup addr with
        | None => Err (E_New ["missing fakeip record, try enable `experimental.cache_file`"])
        | Some domain =>
            if bool_decide (domain = "") then Ok metadata
            else Ok {| metadata with
                       OriginDestination := Destination metadata;
                       Destination := mkSocksaddr AddrZero (Port (Destination metadata)) domain;
                       FakeIP := true |}
        end
      else Ok (lookupReverse metadata)
  | None => Ok (lookupReverse metadata)
  end.

Definition setIPVersion (metadata : InboundContext) : InboundContext :=
  if Socksaddr_IsIPv4 (Destination metadata) then {| metadata with IPVersion := 4 |}
  else if Socksaddr_IsIPv6 (Destination metadata) then {| metadata with IPVersion := 6 |}
  else metadata.

(** ** Route options *)

Definition routeOptionsOf (action : RuleAction) : option RuleActionRouteOptions :=
  match action with
  | ActionRoute _ options => Some options
  | ActionRouteOptions options => Some options
  | ActionBypass outbound options => if bool_decide (outbound = "") then None else Some options
  | _ => None
  end.

(** The destination part of the options: the destination in effect before the first
    override is kept, the address and the port are replaced. *)
Definition keepOriginalDestination (o : RuleActionRouteOptions) (md : InboundContext) : InboundContext :=
  if (Socksaddr_IsValid (OverrideAddress o) || (0 <? OverridePort o))
     && negb (Socksaddr_IsValid (RouteOriginalDestination md))
  then {| md with RouteOriginalDestination := Destination md |} else md.
Definition overrideAddress (o : RuleActionRouteOptions) (md : InboundContext) : InboundContext :=
  if Socksaddr_IsValid (OverrideAddress o)
  then {| md with
          Destination := mkSocksaddr (Addr_ (OverrideAddress o)) (Port (Destination md))
                           (Fqdn (OverrideAddress o));
          DestinationAddresses := [] |}
  else md.
Definition overridePort (o : RuleActionRouteOptions) (md : InboundContext) : InboundContext :=
  if 0 <? OverridePort o
  then {| md with
          Destination := mkSocksaddr (Addr_ (Destination md)) (OverridePort o) (Fqdn (Destination md)) |}
  else md.
Definition overrideDestination (o : RuleActionRouteOptions) (md : InboundContext) : InboundContext :=
  overridePort o (overrideAddress o (keepOriginalDestination o md)).

(** The dial and TLS part. *)
Definition applyDialOptions (o : RuleActionRouteOptions) (md : InboundContext) : InboundContext :=
  {| md with
     NetworkStrategy :=
       match ro_NetworkStrategy o with Some s => Some s | None => NetworkStrategy md end;
     NetworkType := if nonempty (ro_NetworkType o) then ro_NetworkType o else NetworkType md;
     FallbackNetworkType :=
       if nonempty (ro_FallbackNetworkType o) then ro_FallbackNetworkType o
       else FallbackNetworkType md;
     FallbackDelay := if (ro_FallbackDelay o =? 0)%Z then FallbackDelay md else ro_FallbackDelay o;
     UDPDisableDomainUnmapping := ro_UDPDisableDomainUnmapping o || UDPDisableDomainUnmapping md;
     UDPConnect := ro_UDPConnect o || UDPConnect md;
     UDPTimeout := if (0 <? ro_UDPTimeout o)%Z then ro_UDPTimeout o else UDPTimeout md;
     TLSFragment := ro_TLSFragment o || TLSFragment md;
     TLSFragmentFallbackDelay :=
       if ro_TLSFragment o then ro_TLSFragmentFallbackDelay o else TLSFragmentFallbackDelay md;
     TLSRecordFragment := ro_TLSRecordFragment o || TLSRecordFragment md;
     TLSSpoof := if bool_decide (ro_TLSSpoof o = "") then TLSSpoof md else ro_TLSSpoof o;
     TLSSpoofMethod :=
       if bool_decide (ro_TLSSpoof o = "") then TLSSpoofMethod md else ro_TLSSpoofMethod o |}.

Definition applyRouteOptions (action : RuleAction) (md : InboundContext) : InboundContext :=
  match routeOptionsOf action with
  | Some o => applyDialOptions o (overrideDestination o md)
  | None => md
  end.

(** ** Sniffing *)

(** The guards that skip a sniff of a stream ([used] are the sniffers of this kind
    and [other] those of the other kind). *)
Definition sniffSkipped {A B} (action : RuleActionSniff) (used : list A) (other : list B) (md : InboundContext) : bool :=
  ((length used =? 0)%nat && nonempty other)
  || (bool_decide (SnifferNames md = sn_SnifferNames action)
      && bool_decide (SniffError md <> None)
      && negb (errors.opt_Is (SniffError md) ErrNeedMoreData)).

Definition recordSniff (action : RuleActionSniff) (err : option error) (md : InboundContext) : InboundContext :=
  {| md with SnifferNames := sn_SnifferNames action; SniffError := err |}.

(** The destination override after a success. *)
Definition sniffed (action : RuleActionSniff) (err : option error) (md : InboundContext) : InboundContext :=
  match err with
  | None =>
      if OverrideDestination action && M_IsDomainName (Domain md)
      then {| md with Destination := mkSocksaddr AddrZero (Port (Destination md)) (Domain md) |}
      else md
  | Some _ => md
  end.

Definition defaultStreamSniffers : list StreamSniffer :=
  [TLSClientHello sniffers; HTTPHost sniffers; StreamDomainNameQuery sniffers; BitTorrent sniffers;
   SSH sniffers; RDP sniffers].
Definition defaultPacketSniffers : list PacketSniffer :=
  [DomainNameQuery sniffers; QUICClientHello sniffers; STUNMessage sniffers; UTP sniffers;
   UDPTracker sniffers; DTLSRecord sniffers; NTP sniffers].

(** The stream branch of [actionSniff]: metadata, the new buffer if it is not
    empty, and what is left to read. *)
Definition sniffStream (action : RuleActionSniff) (events : list read_event)
    (inputBuffers : list (list byte)) (md : InboundContext)
  : result (InboundContext * option (list byte) * list read_event) :=
  if sniffSkipped action (StreamSniffers action) (PacketSniffers action) md
  then Ok (md, None, events)
  else
    let streamSniffers :=
      if nonempty (StreamSniffers action) then StreamSniffers action else defaultStreamSniffers in
    '(md, sniffBuffer, events, err) ← PeekStream md events inputBuffers streamSniffers;
    let md := sniffed action err (recordSniff action err md) in
    Ok (md, if nonempty sniffBuffer then Some sniffBuffer else None, events).

Definition quicMoreData (action : RuleActionSniff) (md : InboundContext) : bool :=
  bool_decide (SnifferNames md = sn_SnifferNames action)
  && errors.opt_Is (SniffError md) ErrNeedMoreData.

(** One packet: [PeekPacket] with the QUIC sniffer while it asks for more data. *)
Definition sniffPacket (action : RuleActionSniff) (packetSniffers : list PacketSniffer)
    (packet : list byte) (md : InboundContext) : result (InboundContext * option error) :=
  '(md, err) ← PeekPacket md packet
    (if quicMoreData action md then [QUICClientHello sniffers] else packetSniffers);
  Ok (recordSniff action err md, err).

(** The loop over the packets already read; [Some err] is the jump to
    [finally]. *)
Fixpoint sniffCached (action : RuleActionSniff) (packetSniffers : list PacketSniffer)
    (inputPacketBuffers : list PacketBuffer) (md : InboundContext)
  : result (InboundContext * option (option error)) :=
  match inputPacketBuffers with
  | [] => Ok (md, None)
  | packetBuffer :: rest =>
      '(md, err) ← sniffPacket action packetSniffers packetBuffer.1 md;
      if errors.opt_Is err ErrNeedMoreData then sniffCached action packetSniffers rest md
      else Ok (md, Some err)
  end.

(** The loop that reads packets: metadata, packets, what is left to read, the
    error at [finally] ([inl]) or the fatal error of an early return ([inr]).
    When no event is left the read deadline expires. *)
Fixpoint sniffPackets (action : RuleActionSniff) (packetSniffers : list PacketSniffer)
    (events : list packet_event) (packetBuffers : list PacketBuffer) (md : InboundContext)
  : result (InboundContext * list PacketBuffer * list packet_event * (option error + error)) :=
  match events with
  | [] => Ok (md, packetBuffers, [], inl (Some ErrDeadlineExceeded))
  | PacketCancelled err :: events => Ok (md, packetBuffers, events, inr err)
  | PacketError err :: events =>
      if negb (errors.Is err ErrDeadlineExceeded) then Ok (md, packetBuffers, events, inr err)
      else Ok (md, packetBuffers, events, inl (Some err))
  | PacketRead bytes destination :: events =>
      '(md, err) ← sniffPacket action packetSniffers bytes md;
      let packetBuffers := packetBuffers ++ [(bytes, destination)] in
      if errors.opt_Is err ErrNeedMoreData
      then sniffPackets action packetSniffers events packetBuffers md
      else Ok (md, packetBuffers, events, inl err)
  end.

(** The packet branch of [actionSniff]. *)
Definition sniffPacketConn (action : RuleActionSniff) (events : list packet_event)
    (inputPacketBuffers : list PacketBuffer) (md : InboundContext)
  : result (InboundContext * list PacketBuffer * list packet_event * option error) :=
  if sniffSkipped action (PacketSniffers action) (StreamSniffers action) md
  then Ok (md, [], events, None)
  else
    let packetSniffers :=
      if nonempty (PacketSniffers action) then PacketSniffers action else defaultPacketSniffers in
    '(md, cached) ← sniffCached action packetSniffers inputPacketBuffers md;
    match cached with
    | Some err => Ok (sniffed action err md, [], events, None)
    | None =>
        '(md, packetBuffers, events, outcome) ←
          sniffPackets action packetSniffers events inputPacketBuffers md;
        match outcome with
        | inl err => Ok (sniffed action err md, packetBuffers, events, None)
        | inr err => Ok (md, packetBuffers, events, Some err)
        end
    end.

(** ** Matching *)

(** What [matchRule] carries from rule to rule. *)
Record matchState : Type := mkMatchState {
  md_ : InboundContext;
  input : Input;
  buffers : list (list byte);
  packetBuffers : list PacketBuffer;
}.

(** [actionSniff] and what [matchRule] does with its results. *)
Definition actionSniff (action : RuleActionSniff) (st : matchState) : result (matchState * option error) :=
  let md := md_ st in
  if Skip md || negb (bool_decide (Protocol md = "")) then Ok (st, None)
  else
    match input st with
    | InputConn events =>
        '(md, newBuffer, events) ← sniffStream action events (buffers st) md;
        let st := {| st with md_ := md; input := InputConn events |} in
        match newBuffer with
        | Some newBuffer => Ok ({| st with buffers := buffers st ++ [newBuffer] |}, None)
        | None => Ok (st, None)
        end
    | InputPacketConn events =>
        '(md, newPacketBuffers, events, fatalErr) ←
          sniffPacketConn action events (packetBuffers st) md;
        let st := {| st with md_ := md; input := InputPacketConn events |} in
        Ok ({| st with packetBuffers := packetBuffers st ++ newPacketBuffers |}, fatalErr)
    | InputNone => Ok (st, None)
    end.

Definition actionResolve (action : RuleActionResolve) (md : InboundContext) : result InboundContext :=
  if Socksaddr_IsDomain (Destination md) then
    if negb (bool_decide (Server action = "")) && negb (hasTransport env (Server action))
    then Err (E_New ["DNS server not found: "; Server action])
    else
      addresses ← Lookup env md (Fqdn (Destination md)) action;
      Ok {| md with DestinationAddresses := addresses |}
  else Ok md.

(** How a rule that matched continues: the next rule, the selection of this rule,
    or a fatal error. *)
Inductive verdict : Type := Next | Select | Fatal (err : error).

(** Whether the type of the action ends the walk. *)
Definition finalVerdict (supportBypass : bool) (action : RuleAction) : verdict :=
  let actionType := action_Type action in
  if bool_decide (actionType = RuleActionTypeRoute) || bool_decide (actionType = RuleActionTypeReject)
     || bool_decide (actionType = RuleActionTypeHijackDNS)
  then Select
  else
    match action with
    | ActionBypass outbound _ =>
        if negb supportBypass && bool_decide (outbound = "") then Next else Select
    | _ => Next
    end.

(** The body of the loop for a rule that matched. *)
Definition runAction (preMatch supportBypass : bool) (action : RuleAction) (st : matchState)
  : result (matchState * verdict) :=
  let st := {| st with md_ := applyRouteOptions action (md_ st) |} in
  match action with
  | ActionSniff sniff =>
      if negb preMatch then
        '(st, newErr) ← actionSniff sniff st;
        match newErr with
        | Some err => Ok (st, Fatal err)
        | None => Ok (st, finalVerdict supportBypass action)
        end
      else if negb (bool_decide (Network_ (md_ st) = NetworkICMP)) then Ok (st, Select)
      else Ok (st, finalVerdict supportBypass action)
  | ActionResolve resolve =>
      match actionResolve resolve (md_ st) with
      | Ok md => Ok ({| st with md_ := md |}, finalVerdict supportBypass action)
      | Err err => Ok (st, Fatal err)
      | Panic msg => Panic msg
      end
  | _ => Ok (st, finalVerdict supportBypass action)
  end.

(** The loop over the rules: the selected rule with its index, or the fatal
    error.  Every iteration starts by resetting the rule cache, so what matching
    leaves in it is not carried over. *)
Fixpoint matchLoop (preMatch supportBypass : bool) (index : nat) (rules : list rule_t) (st : matchState)
  : result (matchState * (option (nat * rule_t) + error)) :=
  match rules with
  | [] => Ok (st, inl None)
  | currentRule :: rules =>
      let st := {| st with md_ := ResetRuleCache (md_ st) |} in
      if negb (Match net ruleSet_matchStatesWithBase currentRule (md_ st))
      then matchLoop preMatch supportBypass (Datatypes.S index) rules st
      else
        match Action currentRule with
        | None => Panic "nil pointer dereference"
        | Some action =>
            '(st, v) ← runAction preMatch supportBypass action st;
            match v with
            | Next => matchLoop preMatch supportBypass (Datatypes.S index) rules st
            | Select => Ok (st, inl (Some (index, currentRule)))
            | Fatal err => Ok (st, inr err)
            end
        end
  end.

Definition matchRule (rules : list rule_t) (metadata : InboundContext) (preMatch supportBypass : bool)
    (input : Input) : result (matchState * (option (nat * rule_t) + error)) :=
  let metadata := lookupNeighbor (searchProcessInfo metadata) in
  match lookupFakeIP metadata with
  | Ok metadata =>
      matchLoop preMatch supportBypass 0 rules (mkMatchState (setIPVersion metadata) input [] [])
  | Err err => Ok (mkMatchState metadata input [] [], inr err)
  | Panic msg => Panic msg
  end.

(** ** Routing *)

(** Connections as the outbounds see them: [connOf] is the inbound connection with
    the reads that are left, [NewCachedConn] and [NewCachedPacketConn] are those
    of sing/common/bufio. *)
Variables Conn PacketConn : Type.
Variable connOf : list read_event -> Conn.
Variable packetConnOf : list packet_event -> PacketConn.
Variable NewCachedConn : Conn -> list byte -> Conn.
Variable NewCachedPacketConn : PacketConn -> list byte -> Socksaddr -> PacketConn.
(** [bufio.NewNATPacketConn] *)
Variable NewNATPacketConn : PacketConn -> Socksaddr -> Socksaddr -> PacketConn.

(** How the routing of a connection ends: injected into an inbound, closed with the
    error (nil is [None]), answered by the DNS router with the packets already
    read, or handed to an outbound (nil is [None]). *)
Inductive outcome (C : Type) : Type :=
| Injected (inbound : string) (md : InboundContext)
| Closed (err : option error)
| Hijacked (conn : C) (packets : list PacketBuffer) (md : InboundContext)
| Routed (outbound : option OutboundInfo) (rule : option rule_t) (conn : C) (md : InboundContext).
Arguments Injected {C} _ _.
Arguments Closed {C} _.
Arguments Hijacked {C} _ _ _.
Arguments Routed {C} _ _ _ _.

(** The deprecated inbound detour, for one of the two kinds of injection. *)
Definition injectDetour {C} (injectable : bool * bool -> bool) (kind : string) (metadata : InboundContext)
  : outcome C :=
  let detour := InboundDetour metadata in
  if bool_decide (LastInbound metadata = detour)
  then Closed (Some (E_New ["routing loop on detour: "; detour]))
  else
    match InboundByTag env detour with
    | None => Closed (Some (E_New ["inbound detour not found: "; detour]))
    | Some inbound =>
        if negb (injectable inbound)
        then Closed (Some (E_New ["inbound detour is not " +:+ kind +:+ " injectable: "; detour]))
        else Injected detour
               {| metadata with LastInbound := Inbound metadata; Inbound := detour; InboundDetour := "" |}
    end.

(** The lookup of an outbound and the check of its networks. *)
Definition selectOutbound (network kind tag : string) : option error + OutboundInfo :=
  match OutboundByTag env tag with
  | None => inl (Some (E_New ["outbound not found: "; tag]))
  | Some outbound =>
      if existsb (String.eqb network) (Networks outbound) then inr outbound
      else inl (Some (E_New [kind +:+ " is not supported by outbound: "; Tag outbound]))
  end.

Definition rejectReply (kind : string) : error :=
  E_New ["reject method `reply` is not supported for " +:+ kind +:+ " connections"].

(** The switch on the action of the selected rule: the end of the routing, or the
    outbound to use.  [now] and [dropCounter] are the clock and the state of the
    reject action. *)
Definition onAction {C} (network kind : string) (hijack : outcome C) (now : Z) (dropCounter : list Z)
    (action : RuleAction) : result (outcome C + option OutboundInfo) :=
  match action with
  | ActionRoute outbound _ =>
      match selectOutbound network kind outbound with
      | inl err => Ok (inl (Closed err))
      | inr outbound => Ok (inr (Some outbound))
      end
  | ActionBypass outbound _ =>
      if bool_decide (outbound = "") then Ok (inr None)
      else
        match selectOutbound network kind outbound with
        | inl err => Ok (inl (Closed err))
        | inr outbound => Ok (inr (Some outbound))
        end
  | ActionReject reject =>
      if bool_decide (Method reject = RuleActionRejectMethodReply)
      then Ok (inl (Closed (Some (rejectReply kind))))
      else
        '(err, _) ← reject_Error reject now dropCounter;
        Ok (inl (Closed err))
  | ActionHijackDNS => Ok (inl hijack)
  | _ => Ok (inr None)
  end.

(** The default outbound when no rule is selected. *)
Definition defaultOutbound (network message : string) : option error + OutboundInfo :=
  if existsb (String.eqb network) (Networks (DefaultOutbound env)) then inr (DefaultOutbound env)
  else inl (Some (E_New [message; Tag (DefaultOutbound env)])).

(** The outbound for the outcome of [matchRule]. *)
Definition chooseOutbound {C} (network kind message : string) (hijack : outcome C) (now : Z)
    (dropCounter : nat -> list Z) (selected : option (nat * rule_t))
  : result (outcome C + option OutboundInfo) :=
  match selected with
  | None =>
      match defaultOutbound network message with
      | inl err => Ok (inl (Closed err))
      | inr outbound => Ok (inr (Some outbound))
      end
  | Some (index, rule) =>
      match Action rule with
      | Some action => onAction network kind hijack now (dropCounter index) action
      | None => Ok (inr None)
      end
  end.

(** The destinations of removed features. *)
Definition deprecatedDestination (fqdn : string) : option error :=
  if bool_decide (fqdn = muxFqdn env) then
    Some (E_New ["global multiplex is deprecated since sing-box v1.7.0, enable multiplex in Inbound fields instead."])
  else if bool_decide (fqdn = vmessMuxFqdn env) then
    Some (E_New ["global multiplex (v2ray legacy) not supported since sing-box v1.7.0."])
  else if bool_decide (fqdn = uotMagicAddress env) then
    Some (E_New ["global UoT not supported since sing-box v1.7.0."])
  else if bool_decide (fqdn = uotLegacyMagicAddress env) then
    Some (E_New ["global UoT (legacy) not supported since sing-box v1.7.0."])
  else None.

Definition inputEvents (i : Input) : list read_event :=
  match i with InputConn events => events | _ => [] end.
Definition inputPacketEvents (i : Input) : list packet_event :=
  match i with InputPacketConn events => events | _ => [] end.

Definition routeConnection (rules : list rule_t) (now : Z) (dropCounter : nat -> list Z)
    (metadata : InboundContext) (events : list read_event) : result (outcome Conn) :=
  if negb (bool_decide (InboundDetour metadata = "")) then Ok (injectDetour fst "TCP" metadata)
  else
    let metadata := {| metadata with Network_ := NetworkTCP |} in
    match deprecatedDestination (Fqdn (Destination metadata)) with
    | Some err => Ok (Closed (Some err))
    | None =>
        if bool_decide (InboundType metadata = TypeTun) && bool_decide (Protocol metadata = ProtocolDNS)
        then Ok (Hijacked (connOf events) [] metadata)
        else
          '(st, selected) ← matchRule rules metadata false false (InputConn events);
          match selected with
          | inr err => Ok (Closed (Some err))
          | inl selected =>
              let conn := fold_left NewCachedConn (buffers st) (connOf (inputEvents (input st))) in
              choice ← chooseOutbound NetworkTCP "TCP" "TCP is not supported by default outbound: "
                         (Hijacked conn [] (md_ st)) now dropCounter selected;
              match choice with
              | inl o => Ok o
              | inr outbound => Ok (Routed outbound (snd <$> selected) conn (md_ st))
              end
          end
    end.

Definition routePacketConnection (rules : list rule_t) (now : Z) (dropCounter : nat -> list Z)
    (metadata : InboundContext) (events : list packet_event) : result (outcome PacketConn) :=
  if negb (bool_decide (InboundDetour metadata = "")) then Ok (injectDetour snd "UDP" metadata)
  else
    let metadata := {| metadata with Network_ := NetworkUDP |} in
    if bool_decide (InboundType metadata = TypeTun) && bool_decide (Protocol metadata = ProtocolDNS)
    then Ok (Hijacked (packetConnOf events) [] metadata)
    else
      '(st, selected) ← matchRule rules metadata false false (InputPacketConn events);
      match selected with
      | inr err => Ok (Closed (Some err))
      | inl selected =>
          let conn := packetConnOf (inputPacketEvents (input st)) in
          choice ← chooseOutbound NetworkUDP "UDP" "UDP is not supported by outbound: "
                     (Hijacked conn (packetBuffers st) (md_ st)) now dropCounter selected;
          match choice with
          | inl o => Ok o
          | inr outbound =>
              let conn :=
                fold_left (fun conn buffer => NewCachedPacketConn conn buffer.1 buffer.2)
                  (packetBuffers st) conn in
              let conn :=
                if FakeIP (md_ st)
                then NewNATPacketConn conn (OriginDestination (md_ st)) (Destination (md_ st))
                else conn in
              Ok (Routed outbound (snd <$> selected) conn (md_ st))
          end
      end.

(** ** Pre-matching *)

(** The result of [PreMatch]: no destination, an error (nil is [None]), or a direct
    route of an outbound, with the address that replaces the domain. *)
Inductive preOutcome : Type :=
| PreNone
| PreFailed (err : option error)
| PreDirect (outbound : OutboundInfo) (md : InboundContext) (newDestination : option Addr).

(** The lookup of an outbound for a direct route and the type assertion. *)
Definition selectDirect (network tag : string) : result (preOutcome + OutboundInfo) :=
  match OutboundByTag env tag with
  | None => Ok (inl (PreFailed (Some (E_New ["outbound not found: "; tag]))))
  | Some outbound =>
      if negb (existsb (String.eqb network) (Networks outbound))
      then Ok (inl (PreFailed (Some (E_New [network; " is not supported by outbound: "; tag]))))
      else if isDirectRoute outbound then Ok (inr outbound) else Panic "interface conversion"
  end.

(** The switch on the selected rule; [inr None] leaves [directRouteOutbound] nil. *)
Definition preAction (hasRouteContext supportBypass : bool) (now : Z) (dropCounter : list Z)
    (network : string) (action : RuleAction) : result (preOutcome + option OutboundInfo) :=
  let direct tag :=
    if negb hasRouteContext then Ok (inl PreNone)
    else choice ← selectDirect network tag;
         Ok (match choice with inl o => inl o | inr outbound => inr (Some outbound) end) in
  match action with
  | ActionReject reject =>
      let reply := bool_decide (Method reject = RuleActionRejectMethodReply) in
      if bool_decide (network = NetworkTCP) && reply then Ok (inl (PreFailed (Some (rejectReply "TCP"))))
      else if bool_decide (network = NetworkUDP) && reply
      then Ok (inl (PreFailed (Some (rejectReply "UDP"))))
      else '(err, _) ← reject_Error reject now dropCounter; Ok (inl (PreFailed err))
  | ActionBypass outbound _ =>
      if supportBypass then Ok (inl (PreFailed (Some (BypassedError (ErrExternal "tun.ErrBypass")))))
      else direct outbound
  | ActionRoute outbound _ => direct outbound
  | _ => Ok (inr None)
  end.

(** What happens when no outbound was chosen by a rule. *)
Definition preDefault (selected : bool) (network : string) : result (preOutcome + OutboundInfo) :=
  if selected || negb (bool_decide (network = NetworkICMP)) then Ok (inl PreNone)
  else if negb (existsb (String.eqb network) (Networks (DefaultOutbound env)))
  then Ok (inl (PreFailed (Some (E_New
         [network; " is not supported by default outbound: "; Tag (DefaultOutbound env)]))))
  else if isDirectRoute (DefaultOutbound env) then Ok (inr (DefaultOutbound env))
  else Panic "interface conversion".

Definition DomainStrategyIPv4Only : N := 3.
Definition DomainStrategyIPv6Only : N := 4.

(** The end of [PreMatch]: a domain is resolved to an address of the family of the
    source. *)
Definition preDestination (outbound : OutboundInfo) (md : InboundContext) : result preOutcome :=
  if Socksaddr_IsDomain (Destination md) then
    let v4 := Socksaddr_IsIPv4 (Source md) in
    let strategy := if v4 then DomainStrategyIPv4Only else DomainStrategyIPv6Only in
    let resolved :=
      if (length (DestinationAddresses md) =? 0)%nat
      then actionResolve (mkResolve "" 0 strategy false false None PrefixZero) md
      else Ok md in
    match resolved with
    | Panic msg => Panic msg
    | Err err => Ok (PreFailed (Some err))
    | Ok md =>
        match List.find (if v4 then Is4 else Is6) (DestinationAddresses md) with
        | Some newDestination =>
            Ok (PreDirect outbound
                  {| md with Destination := mkSocksaddr newDestination 0 "" |} (Some newDestination))
        | None =>
            Ok (PreFailed (Some (E_New
              [if v4 then "no IPv4 address found for domain: " else "no IPv6 address found for domain: ";
               Fqdn (Destination md)])))
        end
    end
  else Ok (PreDirect outbound md None).

Definition PreMatch (rules : list rule_t) (now : Z) (dropCounter : nat -> list Z)
    (hasRouteContext supportBypass : bool) (metadata : InboundContext) : result preOutcome :=
  '(st, selected) ← matchRule rules metadata true supportBypass InputNone;
  match selected with
  | inr err => Ok (PreFailed (Some err))
  | inl selected =>
      let network := Network_ (md_ st) in
      choice ← match selected with
               | Some (index, rule) =>
                   match Action rule with
                   | Some action =>
                       preAction hasRouteContext supportBypass now (dropCounter index) network action
                   | None => Ok (inr None)
                   end
               | None => Ok (inr None)
               end;
      match choice with
      | inl o => Ok o
      | inr (Some outbound) => preDestination outbound (md_ st)
      | inr None =>
          choice ← preDefault (bool_decide (is_Some selected)) network;
          match choice with inl o => Ok o | inr outbound => preDestination outbound (md_ st) end
      end
  end.

End Route.
Arguments Injected {E S C} _ _.
Arguments Closed {E S C} _.
Arguments Hijacked {E S C} _ _ _.
Arguments Routed {E S C} _ _ _ _.

End Route.
