(* ===== verification/RouteTheorems.v ===== *)
(** * Correctness of rule actions and of the router *)

From S2P Require Import Prelude GoStd Metadata Instances MatchState RuleItems Rules RuleActions Route.
From Stdlib Require Import Strings.Byte.
Import netip Rules RuleActions Route.

Open Scope N_scope.

(** ** The flood window of [reject] *)

Section Reject.
Open Scope Z_scope.

(** The counter after calls at the given times. *)
Fixpoint counterAfter (r : RuleActionReject) (times counter : list Z) : list Z :=
  match times with
  | [] => counter
  | now :: times =>
      match reject_Error r now counter with
      | Ok (_, counter) => counterAfter r times counter
      | _ => counter
      end
  end.

(** The calls that fall into the window that ends now. *)
Definition recent (now : Z) (times : list Z) : list Z :=
  List.filter (fun t => now - t <=? dropWindow) times.

Lemma recent_recent now last times : last <= now -> recent now (recent last times) = recent now times.
Proof.
  intros H. unfold recent. induction times as [|t times IH]; simpl; [done|].
  destruct (last - t <=? dropWindow) eqn:H1; simpl.
  - by rewrite IH.
  - rewrite IH. destruct (now - t <=? dropWindow) eqn:H2; [|done].
    apply Z.leb_gt in H1. apply Z.leb_le in H2. lia.
Qed.

Lemma recent_snoc now times : recent now (times ++ [now]) = recent now times ++ [now].
Proof.
  unfold recent. rewrite List.filter_app. simpl. rewrite Z.sub_diag. done.
Qed.

Lemma reject_Error_default now counter :
  reject_Error (mkReject RuleActionRejectMethodDefault false) now counter
  = Ok (Some (RejectedError (if (50 <? length (recent now counter ++ [now]))%nat then ErrDrop else ErrReset)),
        recent now counter ++ [now]).
Proof. unfold reject_Error. simpl. fold (recent now counter). by destruct (50 <? _)%nat. Qed.

Lemma recent_app now l k : recent now (l ++ k) = recent now l ++ recent now k.
Proof. apply List.filter_app. Qed.

Lemma counterAfter_recent times now counter :
  Forall (fun t => t <= now) times ->
  recent now (counterAfter (mkReject RuleActionRejectMethodDefault false) times counter)
  = recent now (counter ++ times).
Proof.
  intros Ht. revert counter. induction Ht as [|t times Ht _ IH]; intros counter; [by rewrite app_nil_r|].
  cbn [counterAfter]. rewrite reject_Error_default, IH, !recent_app, recent_recent by done.
  by rewrite <- (assoc_L (++)), <- recent_app.
Qed.

(** Flood protection.  A default reject action drops a connection instead of
    resetting it exactly when, with this one, more than fifty connections were
    rejected by the rule in the last thirty seconds. *)
Theorem reject_flood_window times now :
  Forall (fun t => t <= now) times ->
  let r := mkReject RuleActionRejectMethodDefault false in
  exists counter,
    reject_Error r now (counterAfter r times []) =
      Ok (Some (RejectedError (if (50 <? length (recent now (times ++ [now])))%nat then ErrDrop else ErrReset)),
          counter).
Proof.
  intros Ht r. eexists. unfold r. rewrite reject_Error_default, counterAfter_recent by done.
  by rewrite recent_snoc.
Qed.

Lemma reject_flood_window_witness :
  exists counter,
    reject_Error (mkReject RuleActionRejectMethodDefault false) 60
      (counterAfter (mkReject RuleActionRejectMethodDefault false) (repeat 7 50) []) =
      Ok (Some (RejectedError ErrDrop), counter).
Proof. apply (reject_flood_window (repeat 7 50) 60). by repeat constructor. Defined.

End Reject.

(** ** Sniffing loses nothing *)

Definition stream_bytes (events : list read_event) : list byte := concat (map event_bytes events).

Definition packets_of (events : list packet_event) : list PacketBuffer :=
  flat_map (fun e => match e with PacketRead bytes dest => [(bytes, dest)] | _ => [] end) events.

(** Membership in concatenations, by propositional reasoning. *)
#[local] Ltac in_lists := repeat rewrite ?elem_of_app, ?elem_of_cons in *; tauto.

Section Sniff.
Context `{E : Externals} `{X : RouteExternals}.

Lemma peekStream_bytes events first md buffers buffer sniffers sniffError md' buffer' events' err :
  peekStream_loop events first md buffers buffer sniffers sniffError = Ok (md', buffer', events', err) ->
  buffer' ++ stream_bytes events' = buffer ++ stream_bytes events.
Proof.
  revert first md buffer sniffError.
  induction events as [|[bytes|bytes e|e] events IH]; intros first md buffer sniffError; simpl.
  - by intros [= _ <- <- _].
  - destruct (peekStream_sniffers _ _ _ _) as [[md1 [serr|]]|e|m]; try done; cbn [mbind result_bind].
    + destruct (negb _); [intros [= _ <- <- _]|intros ->%IH];
        unfold stream_bytes; simpl; by rewrite (assoc_L (++)).
    + intros [= _ <- <- _]. unfold stream_bytes. simpl. by rewrite (assoc_L (++)).
  - intros [= _ <- <- _]. unfold stream_bytes. simpl. by rewrite (assoc_L (++)).
  - by intros [= _ <- <- _].
Qed.

Lemma sniffStream_bytes sniffers action events buffers md md' new events' :
  sniffStream sniffers action events buffers md = Ok (md', new, events') ->
  default [] new ++ stream_bytes events' = stream_bytes events.
Proof.
  unfold sniffStream. case_bool; [by intros [= _ <- <-]|].
  destruct (PeekStream _ _ _ _) as [[[[md1 b] ev] err]|e|m] eqn:Hp; try done; cbn [mbind result_bind].
  apply peekStream_bytes in Hp. simpl in Hp. intros [= _ <- <-]. rewrite <- Hp.
  unfold nonempty. by destruct b.
Qed.

Lemma sniffPackets_spec sniffers action ps events bufs md md' bufs' events' out :
  sniffPackets sniffers action ps events bufs md = Ok (md', bufs', events', out) ->
  exists read, bufs' = bufs ++ read /\ packets_of events = read ++ packets_of events'.
Proof.
  revert bufs md. induction events as [|[bytes dest|e|e] events IH]; intros bufs md; simpl.
  - intros [= _ <- <- _]. exists []. by rewrite app_nil_r.
  - destruct (sniffPacket _ _ _ _ _) as [[md1 err]|e|m]; try done; cbn [mbind result_bind]. destruct (errors.opt_Is err _).
    + intros (read & -> & H)%IH. exists ((bytes, dest) :: read).
      rewrite <- (assoc_L (++)). split; [done|]. simpl. by rewrite H.
    + intros [= _ <- <- _]. exists [(bytes, dest)]. by split.
  - destruct (negb _); intros [= _ <- <- _]; exists []; by rewrite app_nil_r.
  - intros [= _ <- <- _]. exists []. by rewrite app_nil_r.
Qed.

End Sniff.

(** What the client sent: what was read so far and what is left to read. *)
Definition stream_of (st : matchState) : list byte :=
  concat (buffers st) ++ stream_bytes (inputEvents (input st)).
Definition seen_packets (st : matchState) : list PacketBuffer :=
  packetBuffers st ++ packets_of (inputPacketEvents (input st)).

Section Loop.
Context `{E : Externals} `{X : RouteExternals} {S : Type}.
Variable env : Env.
Variable sniffers : Sniffers.
Variable net : Network.
Variable sets : S -> InboundContext -> MatchState.ruleMatchState -> MatchState.ruleMatchStateSet.

Lemma actionSniff_keeps action st st' err :
  actionSniff sniffers action st = Ok (st', err) ->
  stream_of st' = stream_of st /\ (forall p, p ∈ seen_packets st -> p ∈ seen_packets st').
Proof.
  unfold actionSniff. case_bool; [by intros [= <- _]|].
  destruct st as [md [events|events|] bufs pbufs]; cbn [md_ input buffers packetBuffers].
  - destruct (sniffStream _ _ _ _ _) as [[[md1 new] ev]|e|m] eqn:Hs; try done; cbn [mbind result_bind]. apply sniffStream_bytes in Hs.
    unfold stream_of, seen_packets.
    destruct new; intros [= <- _]; simpl in *; (split; [|done]); rewrite <- Hs; [|done].
    rewrite concat_app. simpl. by rewrite app_nil_r, (assoc_L (++)).
  - destruct (sniffPacketConn _ _ _ _ _) as [[[[md1 new] ev] fatal]|e|m] eqn:Hs; try done; cbn [mbind result_bind].
    intros [= <- _]. split; [done|]. unfold seen_packets. simpl.
    intros p. revert Hs. unfold sniffPacketConn. case_bool.
    { intros [= _ <- <- _]. in_lists. }
    destruct (sniffCached _ _ _ _ _) as [[md2 [err2|]]|e|m]; try done; cbn [mbind result_bind].
    { intros [= _ <- <- _]. in_lists. }
    destruct (sniffPackets _ _ _ _ _ _) as [[[[md3 b3] ev3] out]|e|m] eqn:Hp; try done; cbn [mbind result_bind].
    apply sniffPackets_spec in Hp as (read & -> & Hread).
    assert (forall q : PacketBuffer, q ∈ pbufs ++ packets_of events ->
              q ∈ (pbufs ++ (pbufs ++ read)) ++ packets_of ev3) as Hgoal.
    { intros q. rewrite Hread. in_lists. }
    destruct out; intros [= _ <- <- _]; apply Hgoal.
  - by intros [= <- _].
Qed.

Lemma runAction_keeps preMatch supportBypass action st st' v :
  runAction env sniffers preMatch supportBypass action st = Ok (st', v) ->
  stream_of st' = stream_of st /\ (forall p, p ∈ seen_packets st -> p ∈ seen_packets st').
Proof.
  unfold runAction. destruct action; try (by intros [= <- _]).
  - case_bool; [|case_bool; by intros [= <- _]].
    destruct (actionSniff _ _ _) as [[st1 [e|]]|e|m] eqn:Hs; try done; intros [= <- _]; by apply actionSniff_keeps in Hs.
  - destruct (actionResolve _ _ _); intros [= <- _]; done.
Qed.

Lemma matchLoop_keeps preMatch supportBypass index rules st st' out :
  matchLoop env sniffers net sets preMatch supportBypass index rules st = Ok (st', out) ->
  stream_of st' = stream_of st /\ (forall p, p ∈ seen_packets st -> p ∈ seen_packets st').
Proof.
  revert index st. induction rules as [|r rules IH]; intros index st; cbn [matchLoop].
  { by intros [= <- _]. }
  case_bool; [by intros H%IH|]. destruct (Action r) as [action|]; [|done].
  intros H. apply bind_Ok_inv in H as ([st1 v] & Hr & H).
  apply runAction_keeps in Hr as [Hr1 Hr2].
  destruct v; [apply IH in H as [H1 H2]|injection H as <- _|injection H as <- _].
  - rewrite H1, Hr1. split; [done|]. intros p Hp. by apply H2, Hr2.
  - by split.
  - by split.
Qed.

(** *** Selection *)

(** The first rule that matches, with its index. *)
Fixpoint firstMatch (index : nat) (rules : list (Rule RuleAction S)) (md : InboundContext)
  : option (nat * Rule RuleAction S) :=
  match rules with
  | [] => None
  | r :: rules =>
      if Match net sets r md then Some (index, r) else firstMatch (Datatypes.S index) rules md
  end.

(** The rule ends the walk: route, reject or hijack-dns. *)
Definition final (r : Rule RuleAction S) : bool :=
  match Action r with
  | Some (ActionRoute _ _) | Some (ActionReject _) | Some ActionHijackDNS => true
  | _ => false
  end.

(** C9: the first match wins.  Over rules with final actions the router selects the
    first rule that matches the metadata of the connection, applies the options
    of that rule alone, and reads nothing from the connection. *)
Theorem first_match_wins preMatch supportBypass index rules st :
  forallb final rules = true ->
  exists st',
    matchLoop env sniffers net sets preMatch supportBypass index rules st
      = Ok (st', inl (firstMatch index rules (ResetRuleCache (md_ st)))) /\
    buffers st' = buffers st /\ packetBuffers st' = packetBuffers st /\ input st' = input st.
Proof.
  revert index st. induction rules as [|r rules IH]; intros index st Hf.
  { by exists st. }
  simpl in Hf. apply andb_true_iff in Hf as [Hr Hf]. cbn [matchLoop firstMatch].
  cbn [md_]. destruct (Match net sets r (ResetRuleCache (md_ st))); cbn [negb].
  - unfold final in Hr. destruct (Action r) as [[]|]; try done; eexists; (split; [reflexivity|done]).
  - destruct (IH (Datatypes.S index) {| st with md_ := ResetRuleCache (md_ st) |} Hf) as (st' & H & Hk).
    exists st'. split; [exact H|exact Hk].
Qed.

(** A [direct] action has no effect.  The walk over the rules behaves as if a
    rule with this action were not there, whether it matches or not. *)
Theorem direct_action_has_no_effect preMatch supportBypass index r description rules st :
  Action r = Some (ActionDirect description) ->
  matchLoop env sniffers net sets preMatch supportBypass index (r :: rules) st
  = matchLoop env sniffers net sets preMatch supportBypass (Datatypes.S index) rules
      {| st with md_ := ResetRuleCache (md_ st) |}.
Proof. intros Hr. cbn [matchLoop]. case_bool; [done|]. by rewrite Hr. Qed.

(** *** Pre-matching *)

Lemma overrideDestination_network o md : Network_ (overrideDestination o md) = Network_ md.
Proof.
  assert (forall md, Network_ (keepOriginalDestination o md) = Network_ md) as H1
    by (intros m; unfold keepOriginalDestination; by destruct (_ && _)).
  assert (forall md, Network_ (overrideAddress o md) = Network_ md) as H2
    by (intros m; unfold overrideAddress; by destruct (Socksaddr_IsValid _)).
  assert (forall md, Network_ (overridePort o md) = Network_ md) as H3
    by (intros m; unfold overridePort; by destruct (_ <? _)).
  unfold overrideDestination. by rewrite H3, H2, H1.
Qed.

Lemma applyRouteOptions_network action md : Network_ (applyRouteOptions action md) = Network_ md.
Proof.
  unfold applyRouteOptions. destruct (routeOptionsOf action) as [o|]; [|done].
  unfold applyDialOptions. cbn [Network_]. apply overrideDestination_network.
Qed.

Lemma actionResolve_network action md md' :
  actionResolve env action md = Ok md' -> Network_ md' = Network_ md.
Proof.
  unfold actionResolve. destruct (Socksaddr_IsDomain _); [|by intros [= <-]].
  destruct (_ && _); [done|]. destruct (Lookup _ _ _ _); [|done|done]. by intros [= <-].
Qed.

Lemma runAction_network preMatch supportBypass action st st' v :
  preMatch = true ->
  runAction env sniffers preMatch supportBypass action st = Ok (st', v) ->
  Network_ (md_ st') = Network_ (md_ st).
Proof.
  pose proof (applyRouteOptions_network action) as Hn. intros ->. unfold runAction. destruct action; cbn [negb md_]; try (intros [= <- _]; apply Hn).
  - case_bool; intros [= <- _]; apply Hn.
  - destruct (actionResolve _ _ _) as [md| |] eqn:Hres; intros [= <- _]; [|apply Hn].
    apply actionResolve_network in Hres. cbn [md_]. by rewrite Hres.
Qed.

Definition isSniff (r : Rule RuleAction S) : bool :=
  match Action r with Some (ActionSniff _) => true | _ => false end.

(** C8: pre-matching predicts routing.  For a connection that is not ICMP, if the
    pre-match does not stop at a sniff action, the full walk over the rules gives
    the same result, whatever the connection would send: the same rule or error,
    with the same metadata. *)
Theorem prematch_predicts supportBypass index rules st st' out :
  Network_ (md_ st) <> NetworkICMP ->
  matchLoop env sniffers net sets true supportBypass index rules st = Ok (st', out) ->
  match out with inl (Some (_, r)) => isSniff r = false | _ => True end ->
  matchLoop env sniffers net sets false supportBypass index rules st = Ok (st', out).
Proof.
  revert index st. induction rules as [|r rules IH]; intros index st Hn H Ho; cbn [matchLoop] in *; [done|].
  destruct (negb _); [by apply IH|]. destruct (Action r) as [action|] eqn:Ha; [|done].
  apply bind_Ok_inv in H as ([st1 v] & Hr & H).
  pose proof (runAction_network _ _ _ _ _ _ eq_refl Hr) as Hnet. cbn [md_] in Hnet.
  destruct (match action with ActionSniff _ => true | _ => false end) eqn:Hs.
  - exfalso. destruct action; try done. unfold runAction in Hr. cbn [negb md_] in Hr.
    rewrite bool_decide_false in Hr by done. injection Hr as <- <-. injection H as <- <-.
    unfold isSniff in Ho. by rewrite Ha in Ho.
  - assert (runAction env sniffers false supportBypass action {| st with md_ := ResetRuleCache (md_ st) |}
            = Ok (st1, v)) as ->.
    { rewrite <- Hr. by destruct action. }
    simpl. destruct v; [|done|done]. apply IH; [|done|done]. by rewrite Hnet.
Qed.

(** *** The outbound *)

Lemma runAction_select supportBypass action st st' :
  runAction env sniffers false supportBypass action st = Ok (st', Select) ->
  finalVerdict supportBypass action = Select.
Proof.
  unfold runAction. destruct action; cbn [negb]; try (intros H; congruence).
  - by destruct (actionSniff _ _ _) as [[st1 [e|]]|e|m].
  - destruct (actionResolve _ _ _); done.
Qed.

Lemma matchLoop_selected supportBypass index rules st st' i r :
  matchLoop env sniffers net sets false supportBypass index rules st = Ok (st', inl (Some (i, r))) ->
  exists action, Action r = Some action /\ finalVerdict supportBypass action = Select.
Proof.
  revert index st. induction rules as [|r' rules IH]; intros index st; cbn [matchLoop]; [done|].
  destruct (negb _); [apply IH|]. destruct (Action r') as [action|] eqn:Ha; [|done].
  intros H. apply bind_Ok_inv in H as ([st1 v] & Hr & H). destruct v; [by apply IH in H| |done].
  injection H as <- <- <-. exists action. split; [done|]. by eapply runAction_select.
Qed.

Lemma matchRule_loop rules md preMatch supportBypass inp st out :
  matchRule env sniffers net sets rules md preMatch supportBypass inp = Ok (st, inl out) ->
  exists md', matchLoop env sniffers net sets preMatch supportBypass 0 rules (mkMatchState md' inp [] [])
                = Ok (st, inl out).
Proof. unfold matchRule. destruct (lookupFakeIP _ _); [eauto|congruence|congruence]. Qed.

Lemma selectOutbound_supports network kind tag o :
  selectOutbound env network kind tag = inr o -> In network (Networks o).
Proof.
  unfold selectOutbound. destruct (OutboundByTag env tag) as [o'|]; [|done].
  destruct (existsb _ _) eqn:Hex; [|done]. intros [= <-].
  apply existsb_exists in Hex as (n & Hn & ->%String.eqb_eq). done.
Qed.

Lemma onAction_supports {C} network kind (hijack : outcome (S:=S) C) now counter action o :
  finalVerdict false action = Select ->
  onAction env network kind hijack now counter action = Ok (inr o) ->
  exists outbound, o = Some outbound /\ In network (Networks outbound).
Proof.
  destruct action; try done; simpl; intros Hf.
  - destruct (selectOutbound _ _ _ _) eqn:Hs; intros [= <-]. eauto using selectOutbound_supports.
  - unfold finalVerdict in Hf. simpl in Hf. destruct (bool_decide (outbound = "")); [done|].
    destruct (selectOutbound _ _ _ _) eqn:Hs; intros [= <-]. eauto using selectOutbound_supports.
  - case_bool; [done|]. destruct (reject_Error _ _ _) as [[]| |]; done.
Qed.

Lemma chooseOutbound_supports {C} network kind message (hijack : outcome (S:=S) C) now counter rules md inp st selected o :
  matchRule env sniffers net sets rules md false false inp = Ok (st, inl selected) ->
  chooseOutbound env network kind message hijack now counter selected = Ok (inr o) ->
  exists outbound, o = Some outbound /\ In network (Networks outbound).
Proof.
  intros Hm. destruct selected as [[i r]|]; simpl.
  - apply matchRule_loop in Hm as (md' & Hm). apply matchLoop_selected in Hm as (action & -> & Hf).
    by apply onAction_supports.
  - unfold defaultOutbound. destruct (existsb _ _) eqn:Hex; intros [= <-].
    apply existsb_exists in Hex as (n & Hn & ->%String.eqb_eq). eauto.
Qed.

Lemma chooseOutbound_ends {C} network kind message (hijack o : outcome (S:=S) C) now counter selected :
  chooseOutbound env network kind message hijack now counter selected = Ok (inl o) ->
  o = hijack \/ exists err, o = Closed err.
Proof.
  unfold chooseOutbound, onAction. destruct selected as [[i r]|].
  - destruct (Action r) as [[]|]; try done.
    + destruct (selectOutbound _ _ _ _); intros [= <-]; eauto.
    + case_bool; [done|]. destruct (selectOutbound _ _ _ _); intros [= <-]; eauto.
    + case_bool; [intros [= <-]; eauto|].
      destruct (reject_Error _ _ _) as [[]| |]; simpl; intros [= <-]; eauto.
    + intros [= <-]. by left.
  - destruct (defaultOutbound _ _ _); intros [= <-]; eauto.
Qed.

Lemma runAction_no_sniff preMatch supportBypass action st st' v :
  match action with ActionSniff _ => False | _ => True end ->
  runAction env sniffers preMatch supportBypass action st = Ok (st', v) ->
  buffers st' = buffers st /\ packetBuffers st' = packetBuffers st /\ input st' = input st.
Proof.
  unfold runAction. destruct action; try done; intros _; try (by intros [= <- _]).
  destruct (actionResolve _ _ _); by intros [= <- _].
Qed.

Lemma actionSniff_first action st st' err :
  buffers st = [] -> packetBuffers st = [] -> actionSniff sniffers action st = Ok (st', err) ->
  (length (buffers st') <= 1)%nat /\ seen_packets st' = seen_packets st.
Proof.
  unfold actionSniff. destruct st as [md inp bufs pbufs]. cbn [md_ input buffers packetBuffers].
  intros -> ->. case_bool; [intros [= <- _]; simpl; auto with lia|].
  destruct inp as [events|events|].
  - destruct (sniffStream _ _ _ _ _) as [[[md1 new] ev]|e|m]; try done; cbn [mbind result_bind].
    destruct new; intros [= <- _]; simpl; auto with lia.
  - destruct (sniffPacketConn _ _ _ _ _) as [[[[md1 new] ev] fatal]|e|m] eqn:Hs; try done; cbn [mbind result_bind].
    intros [= <- _]. unfold seen_packets. simpl. split; [lia|]. revert Hs.
    unfold sniffPacketConn. case_bool; [by intros [= _ <- <- _]|]. simpl.
    destruct (sniffPackets _ _ _ _ _ _) as [[[[md3 b3] ev3] out]|e|m] eqn:Hp; try done; cbn [mbind result_bind].
    apply sniffPackets_spec in Hp as (read & -> & Hread).
    destruct out; intros [= _ <- <- _]; by rewrite Hread.
  - intros [= <- _]. simpl. auto with lia.
Qed.

Lemma no_sniff_keeps preMatch supportBypass index rules st st' out :
  List.filter isSniff rules = [] ->
  matchLoop env sniffers net sets preMatch supportBypass index rules st = Ok (st', out) ->
  buffers st' = buffers st /\ packetBuffers st' = packetBuffers st /\ input st' = input st.
Proof.
  revert index st. induction rules as [|r rules IH]; intros index st Hf; cbn [matchLoop].
  { by intros [= <- _]. }
  simpl in Hf. destruct (isSniff r) eqn:Hr; [done|]. destruct (negb _); [by intros H%IH|].
  unfold isSniff in Hr. destruct (Action r) as [action|]; [|done].
  intros H. apply bind_Ok_inv in H as ([st1 v] & Hrun & H).
  apply runAction_no_sniff in Hrun as (H1 & H2 & H3); [|by destruct action].
  destruct v; [|by injection H as <- _|by injection H as <- _].
  by apply IH in H as (-> & -> & ->).
Qed.

Lemma single_sniff supportBypass index rules st st' out :
  (length (List.filter isSniff rules) <= 1)%nat -> buffers st = [] -> packetBuffers st = [] ->
  matchLoop env sniffers net sets false supportBypass index rules st = Ok (st', out) ->
  (length (buffers st') <= 1)%nat /\ seen_packets st' = seen_packets st.
Proof.
  revert index st. induction rules as [|r rules IH]; intros index st Hf Hb Hp; cbn [matchLoop].
  { intros [= <- _]. rewrite Hb. simpl. auto with lia. }
  simpl in Hf. destruct (negb _).
  { apply (IH _ {| st with md_ := ResetRuleCache (md_ st) |}); [|done|done].
    destruct (isSniff r); simpl in Hf; lia. }
  unfold isSniff in Hf at 1. destruct (Action r) as [action|]; [|done].
  intros H. apply bind_Ok_inv in H as ([st1 v] & Hrun & H).
  destruct (match action with ActionSniff _ => true | _ => false end) eqn:Ha.
  - destruct action as [| | | | | |sniff|]; try done. simpl in Hf.
    assert (List.filter isSniff rules = []) as Hrest by (apply length_zero_iff_nil; lia).
    unfold runAction in Hrun. cbn [negb] in Hrun.
    destruct (actionSniff sniffers sniff _) as [[st2 e]|e|m] eqn:Hs; try done; cbn [mbind result_bind] in Hrun.
    apply actionSniff_first in Hs as [H1 H2]; [|done|done].
    assert (st2 = st1) as -> by (destruct e; congruence).
    destruct v; [|by injection H as <- _|by injection H as <- _].
    apply no_sniff_keeps in H as (-> & Hp' & Hi'); [|done]. split; [done|].
    unfold seen_packets in *. by rewrite Hp', Hi'.
  - apply runAction_no_sniff in Hrun as (H1 & H2 & H3); [|by destruct action].
    cbn [buffers packetBuffers input] in *.
    assert (seen_packets st1 = seen_packets st) as Hsp by (unfold seen_packets; by rewrite H2, H3).
    rewrite <- Hsp. destruct v.
    + apply IH in H; [done| |congruence|congruence]. by destruct action.
    + injection H as <- _. rewrite H1, Hb. simpl. auto with lia.
    + injection H as <- _. rewrite H1, Hb. simpl. auto with lia.
Qed.

Section Connections.
Variables Conn PacketConn : Type.
Variable connOf : list read_event -> Conn.
Variable packetConnOf : list packet_event -> PacketConn.
Variable NewCachedConn : Conn -> list byte -> Conn.
Variable NewCachedPacketConn : PacketConn -> list byte -> Socksaddr -> PacketConn.
Variable NewNATPacketConn : PacketConn -> Socksaddr -> Socksaddr -> PacketConn.

Lemma routeConnection_inv rules now counter md events outbound rule conn md' :
  routeConnection env sniffers net sets Conn connOf NewCachedConn rules now counter md events
    = Ok (Routed outbound rule conn md') ->
  exists md0 st selected,
    matchRule env sniffers net sets rules md0 false false (InputConn events) = Ok (st, inl selected) /\
    conn = fold_left NewCachedConn (buffers st) (connOf (inputEvents (input st))) /\
    (exists o, outbound = Some o /\ In NetworkTCP (Networks o)).
Proof.
  unfold routeConnection. case_bool.
  { unfold injectDetour. case_bool; [done|]. destruct (InboundByTag _ _); [|done]. by case_bool. }
  destruct (deprecatedDestination _ _); [done|].
  destruct (bool_decide _ && bool_decide _); [done|]. intros H.
  apply bind_Ok_inv in H as ([st [selected|err]] & Hm & H); [|done].
  apply bind_Ok_inv in H as ([o|o] & Hc & H).
  { apply chooseOutbound_ends in Hc as [->|[err ->]]; done. }
  injection H as <- <- <- <-. eexists _, st, selected. split; [exact Hm|]. split; [done|].
  by eapply chooseOutbound_supports.
Qed.

Lemma routePacketConnection_inv rules now counter md events outbound rule conn md' :
  routePacketConnection env sniffers net sets PacketConn packetConnOf NewCachedPacketConn NewNATPacketConn
    rules now counter md events = Ok (Routed outbound rule conn md') ->
  exists o, outbound = Some o /\ In NetworkUDP (Networks o).
Proof.
  unfold routePacketConnection. case_bool.
  { unfold injectDetour. case_bool; [done|]. destruct (InboundByTag _ _); [|done]. by case_bool. }
  destruct (bool_decide _ && bool_decide _); [done|]. intros H.
  apply bind_Ok_inv in H as ([st [selected|err]] & Hm & H); [|done].
  apply bind_Ok_inv in H as ([o|o] & Hc & H).
  { apply chooseOutbound_ends in Hc as [->|[err ->]]; done. }
  injection H as <- _ _ _. by eapply chooseOutbound_supports.
Qed.

(** C7: connections go to outbounds that can carry them.  A routed connection is
    always handed to an outbound, never to a nil one, and that outbound supports
    TCP for a stream and UDP for a packet connection. *)
Theorem routed_outbound_supports_network rules now counter md outbound rule md' :
  (forall events conn,
    routeConnection env sniffers net sets Conn connOf NewCachedConn rules now counter md events
      = Ok (Routed outbound rule conn md') ->
    exists o, outbound = Some o /\ In NetworkTCP (Networks o)) /\
  (forall events conn,
    routePacketConnection env sniffers net sets PacketConn packetConnOf NewCachedPacketConn NewNATPacketConn
      rules now counter md events = Ok (Routed outbound rule conn md') ->
    exists o, outbound = Some o /\ In NetworkUDP (Networks o)).
Proof.
  split; intros events conn H.
  - by apply routeConnection_inv in H as (md0 & st & selected & _ & _ & Ho).
  - by apply routePacketConnection_inv in H.
Qed.

(** *** The payload *)

(** What is read from a connection: the behaviour of [bufio.CachedConn], which
    yields its buffer before the connection it wraps. *)
Variable pending : Conn -> list byte.
Hypothesis pending_connOf : forall events, pending (connOf events) = stream_bytes events.
Hypothesis pending_cached : forall conn buffer, pending (NewCachedConn conn buffer) = buffer ++ pending conn.

Lemma pending_replay bufs conn : pending (fold_left NewCachedConn bufs conn) = concat (rev bufs) ++ pending conn.
Proof.
  revert conn. induction bufs as [|b bufs IH]; intros conn; simpl; [done|].
  rewrite IH, pending_cached, concat_app. simpl. by rewrite app_nil_r, (assoc_L (++)).
Qed.

(** C5: the outbound sees what the client sent.  With at most one sniff action in
    the rules, the connection handed to the outbound yields exactly the bytes the
    client sends, sniffed or not, in order. *)
Theorem routed_payload rules now counter md events outbound rule conn md' :
  (length (List.filter isSniff rules) <= 1)%nat ->
  routeConnection env sniffers net sets Conn connOf NewCachedConn rules now counter md events
    = Ok (Routed outbound rule conn md') ->
  pending conn = stream_bytes events.
Proof.
  intros Hone H. apply routeConnection_inv in H as (md0 & st & selected & Hm & -> & _).
  apply matchRule_loop in Hm as (md1 & Hm).
  pose proof Hm as Hb. apply single_sniff in Hb as [Hb _]; [|done|done|done].
  apply matchLoop_keeps in Hm as [Hs _]. change (stream_of (mkMatchState md1 _ _ _)) with (stream_bytes events) in Hs.
  rewrite <- Hs, pending_replay, pending_connOf. unfold stream_of.
  destruct (buffers st) as [|b [|b' bufs]]; [done|done|simpl in Hb; lia].
Qed.

End Connections.

(** C6: sniffing loses no payload.  Whatever the rules and sniffers do, after the walk
    over the rules the bytes kept in the buffers followed by those still to be
    read are the bytes of the stream, and every packet is kept or still to be
    read; with at most one sniff action the packets are kept exactly once and in
    order. *)
Theorem sniffing_loses_nothing rules md supportBypass inp st out :
  matchRule env sniffers net sets rules md false supportBypass inp = Ok (st, out) ->
  stream_of st = stream_bytes (inputEvents inp) /\
  (forall p, p ∈ packets_of (inputPacketEvents inp) -> p ∈ seen_packets st) /\
  ((length (List.filter isSniff rules) <= 1)%nat -> seen_packets st = packets_of (inputPacketEvents inp)).
Proof.
  unfold matchRule. destruct (lookupFakeIP _ _) as [md'|e|]; [|by intros [= <- _]|done].
  intros H. pose proof H as Hk. apply matchLoop_keeps in Hk as [H1 H2].
  split; [exact H1|]. split; [exact H2|]. intros Hone. by apply single_sniff in H as [_ H].
Qed.

(** *** Overrides *)

(** Options that replace the address or the port. *)
Definition overrides (o : RuleActionRouteOptions) : bool :=
  Socksaddr_IsValid (OverrideAddress o) || (0 <? OverridePort o).

Lemma overrideDestination_original o md :
  RouteOriginalDestination (overrideDestination o md)
  = if overrides o && negb (Socksaddr_IsValid (RouteOriginalDestination md))
    then Destination md else RouteOriginalDestination md.
Proof.
  assert (forall md, RouteOriginalDestination (overrideAddress o md) = RouteOriginalDestination md) as H2
    by (intros m; unfold overrideAddress; by destruct (Socksaddr_IsValid _)).
  assert (forall md, RouteOriginalDestination (overridePort o md) = RouteOriginalDestination md) as H3
    by (intros m; unfold overridePort; by destruct (_ <? _)).
  unfold overrideDestination. rewrite H3, H2. unfold keepOriginalDestination, overrides.
  by destruct (_ && _).
Qed.

Lemma applyRouteOptions_original_valid action md :
  Socksaddr_IsValid (RouteOriginalDestination md) = true ->
  RouteOriginalDestination (applyRouteOptions action md) = RouteOriginalDestination md.
Proof.
  intros Hv. unfold applyRouteOptions. destruct (routeOptionsOf action) as [o|]; [|done].
  unfold applyDialOptions. cbn [RouteOriginalDestination].
  by rewrite overrideDestination_original, Hv, andb_false_r.
Qed.

(** The original destination is the first.  However many options are applied to a connection,
    the destination recorded as original is the one in effect before the first
    option that overrides it. *)
Theorem original_destination_is_first action o actions md :
  routeOptionsOf action = Some o -> overrides o = true ->
  Socksaddr_IsValid (RouteOriginalDestination md) = false ->
  Socksaddr_IsValid (Destination md) = true ->
  RouteOriginalDestination (fold_left (fun md action => applyRouteOptions action md) (action :: actions) md)
  = Destination md.
Proof.
  intros Ha Ho Hv Hd. simpl.
  assert (RouteOriginalDestination (applyRouteOptions action md) = Destination md) as Hfirst.
  { unfold applyRouteOptions. rewrite Ha. unfold applyDialOptions. cbn [RouteOriginalDestination].
    by rewrite overrideDestination_original, Ho, Hv. }
  rewrite <- Hfirst. rewrite <- Hfirst in Hd. revert Hd.
  generalize (applyRouteOptions action md). induction actions as [|a actions IH]; intros m Hm; simpl; [done|].
  pose proof (applyRouteOptions_original_valid a m Hm) as He. rewrite IH by (by rewrite He). done.
Qed.

End Loop.

(** ** Witnesses *)

#[local] Existing Instance sampleExternals.

Definition sampleJoin (l : list (option error)) : option error :=
  fold_left (fun acc e =>
    match acc, e with Some a, Some b => Some (E_Join a b) | None, e => e | acc, None => acc end) l None.
Definition sampleRouteExternals : RouteExternals := {|
  Socksaddr_IsValid := fun a => IsValid (Addr_ a) || negb (bool_decide (Fqdn a = ""));
  Socksaddr_IsDomain := fun a => negb (bool_decide (Fqdn a = ""));
  Socksaddr_IsIPv4 := fun a => Is4 (Addr_ a);
  M_IsDomainName := fun s => negb (bool_decide (s = ""));
  M_ParseSocksaddrHostPort := fun s port => mkSocksaddr AddrZero port s;
  E_Errors := sampleJoin;
|}.
#[local] Existing Instance sampleRouteExternals.

Definition sampleOutbound : OutboundInfo := mkOutbound "out" [NetworkTCP; NetworkUDP] false.
Definition sampleEnv : Env := {|
  processSearcher := false;
  isLocalSource := fun _ => false;
  findProcessInfoCached := fun _ _ _ => Err ErrInvalid;
  neighborResolver := None;
  FakeIPStore := None;
  LookupReverseMapping := fun _ => None;
  hasTransport := fun _ => false;
  Lookup := fun _ _ _ => Ok [];
  OutboundByTag := fun tag => if bool_decide (tag = "out") then Some sampleOutbound else None;
  DefaultOutbound := sampleOutbound;
  InboundByTag := fun _ => None;
  muxFqdn := "sp.mux.sing-box.arpa";
  vmessMuxFqdn := "v1.mux.cool";
  uotMagicAddress := "sp.v2.udp-over-tcp.arpa";
  uotLegacyMagicAddress := "sp.udp-over-tcp.arpa";
|}.

(** Sniffers that recognise nothing; the QUIC one asks for more data. *)
Definition unknown {A} : InboundContext -> A -> result (InboundContext * option error) := fun md _ => Ok (md, Some (E_New ["unknown"])).
Definition needMore : PacketSniffer := fun md _ => Ok (md, Some ErrNeedMoreData).
Definition sampleSniffers : Sniffers :=
  mkSniffers unknown unknown unknown unknown unknown unknown unknown needMore unknown unknown unknown
    unknown unknown.

(** A rule without conditions. *)
Definition always (action : RuleAction) : Rule RuleAction Empty_set :=
  DefaultRule (mkDefault [] [] [] [] [] [] [] None false (Some action)).
Definition sniffRule (names : list string) : Rule RuleAction Empty_set :=
  always (match sniff_build sampleSniffers names [] [] with
          | Ok (stream, packet) => ActionSniff (mkSniff names stream packet 0 false)
          | _ => ActionHijackDNS
          end).
Definition noOptions : RuleActionRouteOptions :=
  mkRouteOptions SocksaddrZero 0 None [] [] 0 false false 0 false 0 false "" 0.
Definition routeRule : Rule RuleAction Empty_set := always (ActionRoute "out" noOptions).
Definition noSets (s : Empty_set) (_ : InboundContext) (_ : MatchState.ruleMatchState)
  : MatchState.ruleMatchStateSet := match s with end.
Definition sampleConnection : InboundContext :=
  let md := InboundContextZero in {| md with Destination := mkSocksaddr AddrZero 443 "example.org" |}.

#[local] Abbreviation sampleRoute rules events :=
  (routeConnection sampleEnv sampleSniffers sampleNetwork noSets (list byte) stream_bytes
     (fun conn buffer => buffer ++ conn) rules 0 (fun _ => []) sampleConnection events).

(** Sniffing twice reorders the payload.  When two sniff actions each read a part
    of the stream, the parts are replayed to the outbound in the wrong order: a
    client that sends [a] and then [b] is routed as if it had sent [ba]. *)
Theorem sniffing_twice_reorders :
  match sampleRoute [sniffRule ["tls"]; sniffRule ["http"]; routeRule] [ReadBytes [x61]; ReadBytes [x62]] with
  | Ok (Routed outbound _ conn _) => outbound = Some sampleOutbound /\ conn = [x62; x61]
  | _ => False
  end.
Proof. lazy. done. Qed.

(** Sniffing twice duplicates packets.  When a QUIC sniff ends at the read
    deadline and the next one asks for more data again, the packet read by the
    first is kept twice. *)
Theorem sniffing_twice_duplicates :
  match matchRule sampleEnv sampleSniffers sampleNetwork noSets
          [sniffRule ["quic"]; sniffRule ["quic"]; routeRule] sampleConnection false false
          (InputPacketConn [PacketRead [x61] SocksaddrZero; PacketError ErrDeadlineExceeded;
                            PacketRead [x62] SocksaddrZero]) with
  | Ok (st, inl (Some (index, _))) =>
      index = 2%nat /\
      packetBuffers st = [([x61], SocksaddrZero); ([x61], SocksaddrZero); ([x62], SocksaddrZero)]
  | _ => False
  end.
Proof. lazy. done. Qed.

Lemma routed_payload_witness :
  match sampleRoute [sniffRule ["tls"]; routeRule] [ReadBytes [x61]; ReadBytes [x62]] with
  | Ok (Routed _ _ conn _) => conn = [x61; x62]
  | _ => False
  end.
Proof.
  assert (match sampleRoute [sniffRule ["tls"]; routeRule] [ReadBytes [x61]; ReadBytes [x62]] with
          | Ok (Routed _ _ _ _) => true | _ => false end = true) as Hr by reflexivity.
  destruct (sampleRoute _ _) as [[| | |o r conn md]| |] eqn:H; try discriminate Hr.
  apply (routed_payload sampleEnv sampleSniffers sampleNetwork noSets (list byte) stream_bytes
    (fun conn buffer => buffer ++ conn) id (fun _ => eq_refl) (fun _ _ => eq_refl)) in H; [exact H|].
  simpl. lia.
Defined.

Lemma first_match_wins_witness :
  exists st',
    matchLoop sampleEnv sampleSniffers sampleNetwork noSets false false 0 [routeRule]
      (mkMatchState sampleConnection InputNone [] []) = Ok (st', inl (Some (0%nat, routeRule))) /\
    buffers st' = [] /\ packetBuffers st' = [] /\ input st' = InputNone.
Proof.
  apply (first_match_wins sampleEnv sampleSniffers sampleNetwork noSets false false 0 [routeRule]
    (mkMatchState sampleConnection InputNone [] [])). reflexivity.
Defined.

Lemma direct_action_has_no_effect_witness :
  matchLoop sampleEnv sampleSniffers sampleNetwork noSets false false 0
    [always (ActionDirect ""); routeRule] (mkMatchState sampleConnection InputNone [] [])
  = matchLoop sampleEnv sampleSniffers sampleNetwork noSets false false 1 [routeRule]
      (mkMatchState (ResetRuleCache sampleConnection) InputNone [] []).
Proof.
  apply (direct_action_has_no_effect sampleEnv sampleSniffers sampleNetwork noSets false false 0
    (always (ActionDirect "")) "" [routeRule] (mkMatchState sampleConnection InputNone [] [])). reflexivity.
Defined.

Lemma prematch_predicts_witness :
  exists st, matchLoop sampleEnv sampleSniffers sampleNetwork noSets false false 0 [routeRule]
    (mkMatchState sampleConnection InputNone [] []) = Ok (st, inl (Some (0%nat, routeRule))).
Proof.
  eexists. apply (prematch_predicts sampleEnv sampleSniffers sampleNetwork noSets false 0 [routeRule]
    (mkMatchState sampleConnection InputNone [] [])); [done|reflexivity|reflexivity].
Defined.

Lemma sniffing_loses_nothing_witness :
  match matchRule sampleEnv sampleSniffers sampleNetwork noSets [sniffRule ["tls"]; routeRule]
          sampleConnection false false (InputConn [ReadBytes [x61]]) with
  | Ok (st, _) => stream_of st = [x61]
  | _ => False
  end.
Proof.
  assert (match matchRule sampleEnv sampleSniffers sampleNetwork noSets [sniffRule ["tls"]; routeRule]
            sampleConnection false false (InputConn [ReadBytes [x61]]) with
          | Ok _ => true | _ => false end = true) as Hr by reflexivity.
  destruct (matchRule _ _ _ _ _ _ _ _ _) as [[st out]| |] eqn:H; try discriminate Hr.
  by destruct (sniffing_loses_nothing sampleEnv sampleSniffers sampleNetwork noSets _ _ _ _ _ _ H) as (H1 & _).
Defined.

Lemma original_destination_is_first_witness :
  RouteOriginalDestination
    (fold_left (fun md action => applyRouteOptions action md)
       [ActionRouteOptions {| noOptions with OverridePort := 8443 |};
        ActionRouteOptions {| noOptions with OverridePort := 9443 |}] sampleConnection)
  = mkSocksaddr AddrZero 443 "example.org".
Proof.
  apply (original_destination_is_first _ {| noOptions with OverridePort := 8443 |}); reflexivity.
Defined.
