(* ===== verification/RuleBuildTheorems.v ===== *)
(** * Correctness of the construction of route rules *)

From S2P Require Import Prelude GoStd Metadata Instances MatchState RuleItems Rules RuleFacts HeadlessOptions.
From S2P Require Import HeadlessBuild RuleActions RuleBuild Route RouteTheorems.
Import netip MatchState RuleItems Rules RuleActions RuleBuild Route.

Open Scope N_scope.

(** ** A rule in the route and in a rule-set *)

(** The options of a route rule with the conditions of a rule-set rule. *)
Definition ofHeadless `{E : Externals} (h : DefaultHeadlessRule) : RawDefaultRule :=
  let o := RawDefaultRuleZero in
  {| o with
     r_Network := h_Network h;
     r_Domain := h_Domain h; r_DomainSuffix := h_DomainSuffix h;
     r_DomainKeyword := h_DomainKeyword h; r_DomainRegex := h_DomainRegex h;
     r_SourceIPCIDR := h_SourceIPCIDR h; r_IPCIDR := h_IPCIDR h;
     r_SourcePort := h_SourcePort h; r_SourcePortRange := h_SourcePortRange h;
     r_Port := h_Port h; r_PortRange := h_PortRange h;
     r_ProcessName := h_ProcessName h; r_ProcessPath := h_ProcessPath h;
     r_ProcessPathRegex := h_ProcessPathRegex h;
     r_PackageName := h_PackageName h; r_PackageNameRegex := h_PackageNameRegex h;
     r_NetworkType := h_NetworkType h;
     r_NetworkIsExpensive := h_NetworkIsExpensive h;
     r_NetworkIsConstrained := h_NetworkIsConstrained h;
     r_WIFISSID := h_WIFISSID h; r_WIFIBSSID := h_WIFIBSSID h;
     r_NetworkInterfaceAddress := h_NetworkInterfaceAddress h;
     r_DefaultInterfaceAddress := h_DefaultInterfaceAddress h;
     r_Invert := h_Invert h |}.

(** The rule has only conditions a route rule also has: no query types, no compiled
    matchers, no AdGuard rules. *)
Definition plainHeadless `{E : Externals} (h : DefaultHeadlessRule) : bool :=
  isNil (h_QueryType h) && isNil (h_DomainMatcher h) && isNil (h_SourceIPSet h) && isNil (h_IPSet h)
  && isNil (h_AdGuardDomain h) && isNil (h_AdGuardDomainMatcher h).

Lemma filter_ext_all (s : ruleMatchStateSet) p q : (forall state, p state = q state) -> filter s p = filter s q.
Proof. intros H. unfold filter. apply fold_left_ext. intros. by rewrite H. Qed.

Section Inline.
Context `{E : Externals} {A B S T : Type}.

Record same (r : abstractDefaultRule A S) (q : abstractDefaultRule B T) : Prop := mkSame {
  same_items : items r = items q;
  same_sourceAddress : sourceAddressItems r = sourceAddressItems q;
  same_sourcePort : sourcePortItems r = sourcePortItems q;
  same_destinationAddress : destinationAddressItems r = destinationAddressItems q;
  same_destinationIPCIDR : destinationIPCIDRItems r = destinationIPCIDRItems q;
  same_destinationPort : destinationPortItems r = destinationPortItems q;
  same_all : length (allItems r) = length (allItems q);
  same_ruleSet : ruleSetItem r = None /\ ruleSetItem q = None;
  same_invert : invert r = invert q;
}.

Definition related (m : result (abstractDefaultRule A S)) (n : result (abstractDefaultRule B T)) : Prop :=
  match m, n with
  | Ok r, Ok q => same r q
  | Ok _, _ | _, Ok _ => False
  | _, _ => True
  end.

Lemma related_bind (m : result (abstractDefaultRule A S)) (n : result (abstractDefaultRule B T)) f g :
  related m n -> (forall r q, same r q -> related (f r) (g q)) -> related (m ≫= f) (n ≫= g).
Proof. intros H Hf. destruct m, n; simpl in *; auto; done. Qed.

(** The two ways to add the same item to a group. *)
Definition same_add (add : abstractDefaultRule A S -> RuleItem -> abstractDefaultRule A S)
    (add' : abstractDefaultRule B T -> RuleItem -> abstractDefaultRule B T) : Prop :=
  forall r q item, same r q -> same (add r item) (add' q item).

#[local] Ltac same_add_tac :=
  intros r q item []; constructor; simpl; rewrite ?length_app; congruence || done || (simpl; lia).

Lemma same_addItem : same_add addItem addItem.
Proof. same_add_tac. Qed.
Lemma same_addSourceAddress : same_add addSourceAddress addSourceAddress.
Proof. same_add_tac. Qed.
Lemma same_addSourcePort : same_add addSourcePort addSourcePort.
Proof. same_add_tac. Qed.
Lemma same_addDestinationAddress : same_add addDestinationAddress addDestinationAddress.
Proof. same_add_tac. Qed.
Lemma same_addDestinationIPCIDR : same_add addDestinationIPCIDR addDestinationIPCIDR.
Proof. same_add_tac. Qed.
Lemma same_addDestinationPort : same_add addDestinationPort addDestinationPort.
Proof. same_add_tac. Qed.

Lemma same_addIf b add add' item r q :
  same_add add add' -> same r q -> same (addIf b add item r) (addIf b add' item q).
Proof. intros Ha H. unfold addIf. destruct b; auto. Qed.

Lemma related_addIfOk b wrap wrap' add add' item r q :
  same_add add add' -> same r q -> related (addIfOk b wrap add item r) (addIfOk b wrap' add' item q).
Proof. intros Ha H. unfold addIfOk. destruct b; [|done]. destruct item; simpl; auto. Qed.

(** Rules with the same conditions match alike. *)
Lemma same_reached net sets sets' (r : abstractDefaultRule A S) (q : abstractDefaultRule B T) md base :
  same r q -> reached net sets r md base = reached net sets' q md base.
Proof.
  intros [H1 H2 H3 H4 H5 H6 _ [H8 H9] _].
  assert (baseState net r md base = baseState net q md base) as Hb.
  { unfold baseState, destinationIPCIDRMatchesDestination, destinationIPCIDRMatchesSource.
    by rewrite H2, H3, H4, H5, H6. }
  unfold reached. rewrite H1, H8, H9, Hb. destruct (forallb _ _); [|done].
  apply filter_ext_all. intros state.
  unfold allowed, requiresSourceAddressMatch, requiresDestinationAddressMatch,
    destinationIPCIDRMatchesDestination, destinationIPCIDRMatchesSource.
  by rewrite H2, H3, H4, H5, H6.
Qed.

Lemma same_deferred net sets sets' (r : abstractDefaultRule A S) (q : abstractDefaultRule B T) md :
  same r q -> deferred net sets r md = deferred net sets' q md.
Proof.
  intros H. unfold deferred. rewrite (same_reached net sets sets' r q md 0 H).
  destruct H as [H1 H2 H3 H4 H5 H6 _ [H8 H9] _]. unfold didMatchAfter, touched,
    destinationIPCIDRMatchesDestination, destinationIPCIDRMatchesSource.
  by rewrite H1, H2, H3, H4, H5, H6, H8, H9.
Qed.

Lemma same_Match net sets sets' (r : abstractDefaultRule A S) (q : abstractDefaultRule B T) md :
  same r q ->
  Match net sets (DefaultRule r) md = Match net sets' (DefaultRule q) md.
Proof.
  intros H. unfold Match, matchStates. cbn [matchStatesWithBase]. do 2 f_equal.
  pose proof (same_all _ _ H) as Hlen. destruct (allItems r) as [|i l] eqn:Hr.
  - destruct (allItems q) eqn:Hq; [|done]. unfold default_matchStatesWithBase. by rewrite Hr, Hq.
  - rewrite !default_matchStates_eq by (intros Hn; rewrite ?Hr in Hn; try done; by rewrite Hn in Hlen).
    by rewrite (same_invert _ _ H), (same_deferred net sets sets' r q md H),
      !(same_reached net sets sets' r q md _ H).
Qed.

End Inline.

#[local] Hint Resolve same_addItem same_addSourceAddress same_addSourcePort same_addDestinationAddress
  same_addDestinationIPCIDR same_addDestinationPort same_addIf related_addIfOk : kernel.

Lemma isNil_true {A} (s : option A) : isNil s = true <-> s = None.
Proof. by destruct s. Qed.

Section InlineTheorem.
Context `{E : Externals} `{X : RouteExternals} {A S : Type}.
Variable PlatformSupported : bool.
Variable sniffers : Sniffers.
Variable D : Type.
Variable dialer_New : D -> result unit.
Variable Descriptions : D -> list string.

#[local] Abbreviation route_t := (abstractDefaultRule RuleAction S).
#[local] Abbreviation headless_t := (abstractDefaultRule A Empty_set).

Lemma related_if (b : bool) wrap (add : route_t -> RuleItem -> route_t) (add' : headless_t -> RuleItem -> headless_t) item r q :
  same_add add add' -> same r q ->
  related (addIfOk b wrap add item r) (if b then item ≫= (fun item => Ok (add' q item)) else Ok q).
Proof. intros Ha H. unfold addIfOk. destruct b; [|done]. destruct item; simpl; auto. Qed.

Lemma related_if_wrapped (b : bool) wrap wrap' (add : route_t -> RuleItem -> route_t) (add' : headless_t -> RuleItem -> headless_t) item r q :
  same_add add add' -> same r q ->
  related (addIfOk b wrap add item r) (if b then map_err wrap' item ≫= (fun item => Ok (add' q item)) else Ok q).
Proof. intros Ha H. unfold addIfOk. destruct b; [|done]. destruct item; simpl; auto. Qed.

Lemma bind_Ok_r {B} (m : result B) : (m ≫= fun x => Ok x) = m.
Proof. by destruct m. Qed.

Lemma bind_assoc {B C F} (m : result B) (f : B -> result C) (g : C -> result F) :
  (m ≫= f) ≫= g = m ≫= (fun x => f x ≫= g).
Proof. by destruct m. Qed.

Lemma same_newRule inverted act : same (newRule inverted act : route_t) (newRule inverted None : headless_t).
Proof. done. Qed.

#[local] Hint Resolve related_if related_if_wrapped : kernel.

(** Both constructions side by side: binds in step, items added in step. *)
#[local] Ltac in_step :=
  repeat (apply related_bind; [eauto 20 with kernel|intros ? ? ?]); eauto 20 with kernel.

Lemma related_address h (r : route_t) (q : headless_t) :
  plainHeadless h = true -> same r q ->
  related (rule ← route_connectionItems (ofHeadless h) r; route_addressItems (ofHeadless h) rule)
    (headless_addressItems h q).
Proof.
  unfold plainHeadless. rewrite !andb_true_iff, !isNil_true. intros [[[[[H1 H2] H3] H4] _] _] H.
  unfold route_connectionItems, route_addressItems, headless_addressItems.
  rewrite H1, H2, H3, H4. simpl. in_step. rewrite bind_Ok_r. in_step.
Qed.

Lemma related_ports h (r : route_t) (q : headless_t) :
  same r q -> related (route_portItems (ofHeadless h) r) (headless_portItems h q).
Proof. intros H. unfold route_portItems, headless_portItems. simpl. in_step. Qed.

Lemma related_processes h (r : route_t) (q : headless_t) :
  same r q -> related (route_processItems (ofHeadless h) r) (headless_processItems h q).
Proof. intros H. unfold route_processItems, headless_processItems. simpl. in_step. rewrite bind_Ok_r. in_step. Qed.

Lemma same_network h (r : route_t) (q : headless_t) :
  same r q -> same (route_networkItems (ofHeadless h) r) (headless_networkItems true h q).
Proof. intros H. unfold route_networkItems, headless_networkItems, interfaceEntries. simpl. eauto 20 with kernel. Qed.

(** C28: a rule means the same in the route and in a rule-set.  Conditions written as
    a route rule are accepted exactly when they are accepted as the rule of a
    rule-set, and then both match the same connections. *)
Theorem inline_rule_matches_headless h a act net
    (sets : S -> InboundContext -> ruleMatchState -> ruleMatchStateSet) md :
  plainHeadless h = true ->
  NewRuleAction PlatformSupported sniffers D dialer_New Descriptions a = Ok act ->
  match NewDefaultRule PlatformSupported sniffers D dialer_New Descriptions (ofHeadless h) a,
        NewDefaultHeadlessRule true h with
  | Ok r, Ok q => Match net sets (DefaultRule r) md = Match net (fun (s : Empty_set) _ _ => match s with end)
                                                        (DefaultRule (q : headless_t)) md
  | Ok _, _ | _, Ok _ => False
  | _, _ => True
  end.
Proof.
  intros Hp Ha.
  assert (related (S:=S) (NewDefaultRule PlatformSupported sniffers D dialer_New Descriptions (ofHeadless h) a)
    (NewDefaultHeadlessRule true h : result headless_t)) as Hr.
  { unfold NewDefaultRule. rewrite Ha.
    pose proof Hp as Hp'. unfold plainHeadless in Hp'. rewrite !andb_true_iff, !isNil_true in Hp'.
    destruct Hp' as [[_ H5] H6].
    change (related (S:=S) (route_connectionItems (ofHeadless h) (newRule (h_Invert h) act) ≫= fun rule =>
      route_addressItems (ofHeadless h) rule ≫= fun rule => route_portItems (ofHeadless h) rule ≫= fun rule =>
      route_processItems (ofHeadless h) rule ≫= fun rule =>
      route_ruleSetItem (ofHeadless h) (route_networkItems (ofHeadless h) rule))
      (NewDefaultHeadlessRule true h : result headless_t)).
    rewrite <- bind_assoc. unfold NewDefaultHeadlessRule. rewrite H5, H6.
    apply related_bind; [apply related_address; [done|apply same_newRule]|intros r1 q1 H1].
    apply related_bind; [by apply related_ports|intros r2 q2 H2].
    apply related_bind; [by apply related_processes|intros r3 q3 H3]. by apply same_network. }
  destruct (NewDefaultRule _ _ _ _ _ _ _), (NewDefaultHeadlessRule true h); try done. by apply same_Match.
Qed.

End InlineTheorem.

(** ** Actions of built rules *)

(** No rule of the tree has an action. *)
Fixpoint noActions `{E : Externals} {A S} (rule : Rule A S) : bool :=
  match rule with
  | DefaultRule r => isNil (action r)
  | LogicalRule rules _ _ act => isNil act && forallb noActions rules
  end.

Section Actions.
Context `{E : Externals} `{X : RouteExternals} {S : Type}.
Variable PlatformSupported : bool.
Variable sniffers : Sniffers.
Variable D : Type.
Variable dialer_New : D -> result unit.
Variable Descriptions : D -> list string.
Variable D_isZero : D -> bool.

#[local] Abbreviation newAction := (NewRuleAction PlatformSupported sniffers D dialer_New Descriptions).
#[local] Abbreviation newDefault := (NewDefaultRule (S:=S) PlatformSupported sniffers D dialer_New Descriptions).
#[local] Abbreviation newRule_ := (NewRule (S:=S) PlatformSupported sniffers D dialer_New Descriptions D_isZero).

(** Follows the action through one construction step. *)
#[local] Ltac keeps_action :=
  repeat match goal with
  | H : _ ≫= _ = Ok _ |- _ => apply bind_Ok_inv in H as (? & ? & H)
  | H : addIfOk _ _ _ _ _ = Ok _ |- _ => apply (addIfOk_keeps action) in H; [|done]
  | H : Ok _ = Ok _ |- _ => apply Ok_inj in H; subst
  | H : (if ?b then _ else _) = Ok _ |- _ => destruct b; try discriminate H
  end;
  repeat (rewrite (addIf_keeps action) in * by done); cbn [addItem action] in *; try congruence.

Lemma route_items_action o (r0 r1 r2 r3 r4 r5 : abstractDefaultRule RuleAction S) :
  route_connectionItems o r0 = Ok r1 -> route_addressItems o r1 = Ok r2 -> route_portItems o r2 = Ok r3 ->
  route_processItems o r3 = Ok r4 -> route_ruleSetItem o (route_networkItems o r4) = Ok r5 ->
  action r5 = action r0.
Proof.
  intros H1 H2 H3 H4 H5. transitivity (action r4).
  - unfold route_ruleSetItem in H5. assert (action (route_networkItems o r4) = action r4) as Hn.
    { unfold route_networkItems. by rewrite !(addIf_keeps action). }
    rewrite <- Hn. keeps_action; done.
  - transitivity (action r3); [unfold route_processItems in H4; keeps_action|].
    transitivity (action r2); [unfold route_portItems in H3; keeps_action|].
    transitivity (action r1); [unfold route_addressItems in H2; keeps_action|].
    unfold route_connectionItems in H1. keeps_action. by rewrite (addIf_keeps action).
Qed.
Lemma newDefault_action o a r : newDefault o a = Ok r -> newAction a = Ok (action r).
Proof.
  unfold NewDefaultRule. intros H. apply bind_Ok_inv in H as (act & Ha%map_err_Ok_inv & H).
  apply bind_Ok_inv in H as (r1 & H1 & H). apply bind_Ok_inv in H as (r2 & H2 & H).
  apply bind_Ok_inv in H as (r3 & H3 & H). apply bind_Ok_inv in H as (r4 & H4 & H).
  rewrite Ha. f_equal. by rewrite (route_items_action _ _ _ _ _ _ _ H1 H2 H3 H4 H).
Qed.

Lemma newAction_None a : newAction a = Ok None <-> o_Action a = "".
Proof.
  unfold NewRuleAction. split; [|intros ->; done]. case_bool_decide; [done|].
  repeat (case_bool_decide; [intros H'; by inv_ok|]).
  case_bool_decide; [by destruct (sniff_build _ _ _ _) as [[]| |]|]. by case_bool_decide.
Qed.

Lemma action_isZero_None a act : action_isZero D D_isZero a = true -> newAction a = Ok act -> act = None.
Proof.
  unfold action_isZero. rewrite !andb_true_iff, bool_decide_eq_true. intros Hz Ha.
  assert (newAction a = Ok None) as Hn by (apply newAction_None; tauto). congruence.
Qed.

Lemma build_all_Forall {B C} (new : B -> result C) (P : B -> C -> Prop) i l out :
  Forall (fun x => forall y, new x = Ok y -> P x y) l -> build_all new i l = Ok out -> Forall2 P l out.
Proof.
  intros Hl. revert i out. induction Hl as [|x l Hx _ IH]; intros i out; simpl; [by intros [= <-]|].
  destruct (new x) as [y| |] eqn:Hy; [|done|done].
  intros H. apply bind_Ok_inv in H as (ys & Hys & [= <-]). constructor; eauto.
Qed.

Lemma nested_noActions r rule :
  validateNoNestedRuleActions D D_isZero r true = Ok tt -> newRule_ r false = Ok rule -> noActions rule = true.
Proof.
  revert rule. induction r as [type_ o a mode rules IH inverted la]; intros rule. apply list_all_Forall in IH.
  cbn [validateNoNestedRuleActions NewRule ruleHasConfiguredAction andb].
  destruct (bool_decide (type_ = "") || bool_decide (type_ = RuleTypeDefault)).
  - destruct (negb (action_isZero D D_isZero a)) eqn:Hz; [done|]. intros _.
    case_bool; [done|]. case_bool; [done|]. intros H. apply bind_Ok_inv in H as (r & Hr%newDefault_action & [= <-]).
    apply negb_false_iff in Hz. simpl. by rewrite (action_isZero_None _ _ Hz Hr).
  - case_bool_decide; [|done]. subst type_. simpl.
    destruct (negb (action_isZero D D_isZero la)) eqn:Hz; [done|]. apply negb_false_iff in Hz.
    intros Hv H. apply bind_Ok_inv in H as (valid & _ & H). destruct (negb valid); [done|].
    destruct (missingOutbound _ _ _); [done|]. unfold NewLogicalRule in H.
    apply bind_Ok_inv in H as (act & Hact%map_err_Ok_inv & H). destruct (_ || _); [|done].
    apply bind_Ok_inv in H as (out & Ho & [= <-]). simpl. rewrite (action_isZero_None _ _ Hz Hact). simpl.
    apply (build_all_Forall _ (fun _ rule => noActions rule = true)) in Ho.
    + clear -Ho. induction Ho as [|x y l k Hy _ IH]; [done|]. simpl. by rewrite Hy, IH.
    + eapply Forall_impl; [|exact IH]. intros x Hx y H. cbv beta in H.
      apply bind_Ok_inv in H as ([] & Hvx & H). by apply (Hx y).
Qed.

(** Only top-level rules have actions.  In a logical rule that was built, no rule
    below the top has an action at any depth. *)
Theorem nested_rules_have_no_actions r checkOutbound rules mode inverted act :
  newRule_ r checkOutbound = Ok (LogicalRule rules mode inverted act) -> forallb noActions rules = true.
Proof.
  destruct r as [type_ o a m subs inv la]. cbn [NewRule]. case_bool.
  { case_bool; [done|]. case_bool; [done|]. intros H. by apply bind_Ok_inv in H as (r & _ & H). }
  destruct (bool_decide (type_ = RuleTypeLogical)); [|done].
  intros H. apply bind_Ok_inv in H as (valid & _ & H).
  destruct (negb valid); [done|]. destruct (missingOutbound _ _ _); [done|]. unfold NewLogicalRule in H.
  apply bind_Ok_inv in H as (act' & _ & H). clear Heqb. destruct (_ || _); [|done].
  apply bind_Ok_inv in H as (out & Ho & H). injection H as -> _ _ _.
  apply (build_all_Forall _ (fun _ rule => noActions rule = true)) in Ho.
  - clear -Ho. induction Ho as [|x y l k Hy _ IH]; [done|]. simpl. by rewrite Hy, IH.
  - apply Forall_true. intros x y H. cbv beta in H. apply bind_Ok_inv in H as ([] & Hv & H).
    by eapply nested_noActions.
Qed.

(** The action the options of a top-level rule name. *)
Definition topAction (r : RuleOptions D) : string :=
  match r with
  | mkRule _ type_ _ a _ _ _ la =>
      if bool_decide (type_ = RuleTypeLogical) then o_Action la else o_Action a
  end.

(** *** Panics *)

(** A sniffer of a list that does not return. *)
Definition stops {P} (l : list (InboundContext -> P -> result (InboundContext * option error))) (msg : string) : Prop :=
  exists s md payload, s ∈ l /\ s md payload = Panic msg.
Definition snifferStops (msg : string) : Prop :=
  stops (defaultStreamSniffers sniffers) msg \/ stops (defaultPacketSniffers sniffers) msg.

Lemma stops_mono {P} (l k : list (InboundContext -> P -> result (InboundContext * option error))) msg : l ⊆ k -> stops l msg -> stops k msg.
Proof. intros Hlk (s & md & p & Hs & H). exists s, md, p. split; [by apply Hlk|done]. Qed.

Lemma bind_Panic_inv {B C} (m : result B) (g : B -> result C) msg : m ≫= g = Panic msg -> m = Panic msg \/ exists b, m = Ok b /\ g b = Panic msg.
Proof. destruct m as [b|e|m']; cbn; [eauto|done|]. intros [= ->]. by left. Qed.

Lemma peekPacket_stops l md packet errs msg : peekPacket_loop l md packet errs = Panic msg -> stops l msg.
Proof.
  revert md errs. induction l as [|s l IH]; intros md errs; cbn; [done|]. intros [H|([md1 [e|]] & _ & H)]%bind_Panic_inv; [|apply IH in H|done].
  - exists s, md, packet. split; [apply elem_of_cons; by left|done].
  - eapply stops_mono; [|done]. set_solver.
Qed.
Lemma peekStream_sniffers_stops l md payload e msg : peekStream_sniffers l md payload e = Panic msg -> stops l msg.
Proof.
  revert md e. induction l as [|s l IH]; intros md e; cbn; [done|]. intros [H|([md1 [e1|]] & _ & H)]%bind_Panic_inv; [|apply IH in H|done].
  - exists s, md, payload. split; [apply elem_of_cons; by left|done].
  - eapply stops_mono; [|done]. set_solver.
Qed.
Lemma peekStream_stops events first md bufs buffer l e msg : peekStream_loop events first md bufs buffer l e = Panic msg -> stops l msg.
Proof.
  revert first md buffer e. induction events as [|[bytes|bytes err|err] events IH]; intros first md buffer e; cbn; try done.
  intros [H|([md1 [e1|]] & _ & H)]%bind_Panic_inv; [by apply peekStream_sniffers_stops in H| |done]. destruct (negb _); [done|by apply IH in H].
Qed.

(** The sniffers of an action are those of the program. *)
Definition sniffsWith (action : RuleAction) : Prop :=
  match action with
  | ActionSniff a => StreamSniffers a ⊆ defaultStreamSniffers sniffers /\ PacketSniffers a ⊆ defaultPacketSniffers sniffers
  | _ => True
  end.

Lemma sniffPacket_stops action ps packet md msg : ps ⊆ defaultPacketSniffers sniffers ->
  sniffPacket sniffers action ps packet md = Panic msg -> snifferStops msg.
Proof.
  unfold sniffPacket. intros Hps [H%peekPacket_stops|([md1 e] & _ & H)]%bind_Panic_inv; [|done]. right. eapply stops_mono; [|done].
  destruct (quicMoreData _ _); [|done]. intros s ->%list_elem_of_singleton. unfold defaultPacketSniffers. set_solver.
Qed.

Lemma sniffPacketConn_stops action events bufs md msg : sniffsWith (ActionSniff action) ->
  sniffPacketConn sniffers action events bufs md = Panic msg -> snifferStops msg.
Proof.
  intros [_ Hp]. unfold sniffPacketConn. destruct (sniffSkipped _ _ _ _); [done|]. set (ps := if nonempty _ then _ else _). assert (Hps : ps ⊆ defaultPacketSniffers sniffers) by (unfold ps; by case_bool).
  clearbody ps. intros [H|([md1 c] & _ & H)]%bind_Panic_inv.
  - revert md H. induction bufs as [|b bufs IH]; intros md; cbn; [done|]. intros [H|([md1 e] & _ & H)]%bind_Panic_inv; [by eapply sniffPacket_stops|]. destruct (errors.opt_Is _ _); [by apply IH in H|done].
  - destruct c as [err|]; [done|]. apply bind_Panic_inv in H as [H|([[[md2 b2] ev2] [e|e]] & _ & H)]; [|done|done].
    revert bufs md1 H. induction events as [|[bytes dest|err|err] events IH]; intros bufs md1; cbn; try done; [|by case_bool].
    intros [H|([md2 e] & _ & H)]%bind_Panic_inv; [by eapply sniffPacket_stops|]. destruct (errors.opt_Is _ _); [by apply IH in H|done].
Qed.

Lemma actionSniff_stops action st msg : sniffsWith (ActionSniff action) -> actionSniff sniffers action st = Panic msg -> snifferStops msg.
Proof.
  intros Hw. unfold actionSniff. case_bool; [done|]. destruct (input st) as [events|events|]; [| |done].
  - intros [H|([[md1 [b|]] ev] & _ & H)]%bind_Panic_inv; [|done|done]. revert H. unfold sniffStream. case_bool; [done|].
    intros [H%peekStream_stops|([[[md1 b] ev] e] & _ & H)]%bind_Panic_inv; [|done]. left. eapply stops_mono; [|done]. destruct Hw as [Hs _]. by case_bool.
  - intros [H|([[[md1 b] ev] e] & _ & H)]%bind_Panic_inv; [by eapply sniffPacketConn_stops|done].
Qed.

Lemma snifferByName_default name s p : snifferByName sniffers name = Some (s, p) -> s ⊆ defaultStreamSniffers sniffers /\ p ⊆ defaultPacketSniffers sniffers.
Proof.
  unfold snifferByName, defaultStreamSniffers, defaultPacketSniffers. repeat (case_bool_decide; [intros [= <- <-]; split; intros x; rewrite !elem_of_cons, ?elem_of_nil; tauto|]). done.
Qed.

Lemma sniff_build_default names stream packet s p : stream ⊆ defaultStreamSniffers sniffers -> packet ⊆ defaultPacketSniffers sniffers ->
  sniff_build sniffers names stream packet = Ok (s, p) -> s ⊆ defaultStreamSniffers sniffers /\ p ⊆ defaultPacketSniffers sniffers.
Proof.
  revert stream packet. induction names as [|name names IH]; intros stream packet Hs Hp; cbn; [by intros [= <- <-]|].
  destruct (snifferByName _ name) as [[s1 p1]|] eqn:Hn; [|done]. apply snifferByName_default in Hn as [H1 H2]. apply IH; intros x [Hx|Hx]%elem_of_app; auto.
Qed.

Lemma newAction_sniffs a act : newAction a = Ok (Some act) -> sniffsWith act.
Proof.
  unfold NewRuleAction. case_bool_decide; [done|]. repeat (case_bool_decide; [intros H'; inv_ok; by subst|]).
  case_bool_decide; [|case_bool_decide; [intros H'; by injection H' as <-|done]]. intros H'. apply bind_Ok_inv in H' as ([s p] & Hb & H'). injection H' as <-.
  eapply sniff_build_default in Hb; [done|apply list_subseteq_nil|apply list_subseteq_nil].
Qed.

Lemma newRule_action r checkOutbound rule :
  newRule_ r checkOutbound = Ok rule -> topAction r <> "" -> exists act, Action rule = Some act /\ sniffsWith act.
Proof.
  assert (Hact : forall a act, newAction a = Ok act -> o_Action a <> "" -> exists act', act = Some act' /\ sniffsWith act').
  { intros a [act|] Ha Hne; [eauto using newAction_sniffs|]. by apply newAction_None in Ha. }
  destruct r as [type_ o a m subs inv la]. cbn [NewRule topAction]. case_bool.
  - case_bool; [done|]. case_bool; [done|]. intros H Ht.
    apply bind_Ok_inv in H as (r & Hr%newDefault_action & [= <-]). cbn. apply (Hact _ _ Hr). intros Hz.
    apply orb_true_iff in Heqb as [Hb|Hb]; apply bool_decide_eq_true in Hb as ->; by rewrite bool_decide_false in Ht.
  - clear Heqb. case_bool_decide as Hlog; [|done]. intros H Ht. apply bind_Ok_inv in H as (valid & _ & H).
    destruct (negb valid); [done|]. destruct (missingOutbound _ _ _); [done|]. unfold NewLogicalRule in H.
    apply bind_Ok_inv in H as (act & Ha%map_err_Ok_inv & H). destruct (_ || _); [|done].
    apply bind_Ok_inv in H as (out & Ho & [= <-]). by apply (Hact _ _ Ha).
Qed.

Lemma matchLoop_panic env net (sets : S -> InboundContext -> ruleMatchState -> ruleMatchStateSet)
    preMatch supportBypass index rules st msg :
  Forall (fun r => exists act, Action r = Some act /\ sniffsWith act) rules ->
  matchLoop env sniffers net sets preMatch supportBypass index rules st = Panic msg ->
  snifferStops msg \/ exists md fqdn action, Lookup env md fqdn action = Panic msg.
Proof.
  intros Hr. revert index st. induction Hr as [|r rules (act & Ha & Hw) _ IH]; intros index st; cbn [matchLoop]; [done|].
  destruct (negb _); [apply IH|]. rewrite Ha. intros [H|([st1 v] & _ & H)]%bind_Panic_inv; [|destruct v; [by apply IH in H|done|done]].
  revert H. unfold runAction. destruct act; try done.
  - case_bool; [|by case_bool]. intros [H|([st1 [e|]] & _ & H)]%bind_Panic_inv; [left; by eapply actionSniff_stops|done|done].
  - destruct (actionResolve _ _ _) as [| |m'] eqn:Hres; try done. intros [= ->]. revert Hres. unfold actionResolve.
    case_bool; [|done]. case_bool; [done|]. intros [H|(addresses & _ & H)]%bind_Panic_inv; [right; eauto|done].
Qed.

(** C37: the router adds no panic of its own.  Rules built from decoded options, which always name an action at the
    top, have an action where the router reads one: when the walk over them panics, a lookup panicked or one of the
    sniffers of the program did not return. *)
Theorem built_rules_add_no_panic env net (sets : S -> InboundContext -> ruleMatchState -> ruleMatchStateSet)
    options rules md preMatch supportBypass inp msg :
  Forall2 (fun r rule => newRule_ r true = Ok rule) options rules ->
  Forall (fun r => topAction r <> "") options ->
  matchRule env sniffers net sets rules md preMatch supportBypass inp = Panic msg ->
  snifferStops msg \/ exists md fqdn action, Lookup env md fqdn action = Panic msg.
Proof.
  intros Hb Ht. unfold matchRule. destruct (lookupFakeIP _ _) as [md'| |m] eqn:Hf; [|done|].
  - apply matchLoop_panic. clear -Hb Ht.
    induction Hb as [|r rule options rules Hr _ IH]; [done|].
    inversion_clear Ht. constructor; [by eapply newRule_action|by apply IH].
  - exfalso. revert Hf. unfold lookupFakeIP. destruct (FakeIPStore env) as [[c l]|]; [|done].
    case_bool; [|done]. destruct (l _); [|done]. by case_bool.
Qed.

End Actions.

(** ** Witnesses *)

#[local] Existing Instance sampleExternals.
#[local] Existing Instance sampleRouteExternals.

Definition sampleAction (type_ : string) : RuleActionOptions unit :=
  mkActionOptions unit type_ (if bool_decide (type_ = "") then "" else "out", RawRouteOptionsZero)
    RawRouteOptionsZero tt ("", RawRouteOptionsZero) (mkReject "" false) ([], 0%Z)
    (mkResolveOptions "" 0 0 false false None None).
Definition samplePort : RawDefaultRule := let o := RawDefaultRuleZero in {| o with r_Port := Some [443] |}.
Definition sampleRuleOptions (action : string) : RuleOptions unit :=
  mkRule unit RuleTypeDefault samplePort (sampleAction action) "" [] false (sampleAction "").
Definition sampleLogical : RuleOptions unit :=
  mkRule unit RuleTypeLogical RawDefaultRuleZero (sampleAction "") "and"
    [sampleRuleOptions ""; sampleRuleOptions ""] false (sampleAction "route").

#[local] Abbreviation sampleNewRule :=
  (NewRule (S:=Empty_set) false sampleSniffers unit (fun _ => Ok tt) (fun _ => []) (fun _ => true)).

Definition samplePortHeadless : DefaultHeadlessRule :=
  let h := DefaultHeadlessRuleZero in {| h with h_Port := Some [443]; h_Invert := true |}.

Lemma inline_rule_matches_headless_witness :
  match NewDefaultRule (S:=Empty_set) false sampleSniffers unit (fun _ => Ok tt) (fun _ => [])
          (ofHeadless samplePortHeadless) (sampleAction "route"),
        NewDefaultHeadlessRule (A:=unit) true samplePortHeadless with
  | Ok r, Ok q => Match sampleNetwork noSets (DefaultRule r) sampleConnection
                  = Match sampleNetwork (fun (s : Empty_set) _ _ => match s with end) (DefaultRule q)
                      sampleConnection
  | Ok _, _ | _, Ok _ => False
  | _, _ => True
  end.
Proof.
  apply (inline_rule_matches_headless false sampleSniffers unit (fun _ => Ok tt) (fun _ => [])
    samplePortHeadless (sampleAction "route")
    (Some (ActionRoute "out" noOptions)) sampleNetwork noSets sampleConnection); reflexivity.
Defined.

Definition sampleBuilt : list (Rule RuleAction Empty_set) :=
  match sampleNewRule sampleLogical true with Ok (LogicalRule rules _ _ _) => rules | _ => [] end.

Lemma nested_rules_have_no_actions_witness : length sampleBuilt = 2%nat /\ forallb noActions sampleBuilt = true.
Proof.
  split; [reflexivity|].
  apply (nested_rules_have_no_actions false sampleSniffers unit (fun _ => Ok tt) (fun _ => []) (fun _ => true)
    sampleLogical true sampleBuilt "and" false (Some (ActionRoute "out" noOptions))). reflexivity.
Defined.

(** A sniffer that panics on every packet, and a rule that runs it. *)
Definition panickingSniffers : Sniffers := {| sampleSniffers with QUICClientHello := fun _ _ => Panic "slice bounds out of range" |}.
Definition sniffOptions : RuleOptions unit :=
  mkRule unit RuleTypeDefault (let o := RawDefaultRuleZero in {| o with r_Network := Some ["udp"] |})
    (let a := sampleAction "sniff" in {| a with o_SniffOptions := (["quic"], 0%Z) |}) "" [] false (sampleAction "").

Lemma built_rules_add_no_panic_witness :
  snifferStops panickingSniffers "slice bounds out of range" \/
  exists md fqdn action, Lookup sampleEnv md fqdn action = Panic "slice bounds out of range".
Proof.
  apply (built_rules_add_no_panic false panickingSniffers unit (fun _ => Ok tt) (fun _ => []) (fun _ => true)
    sampleEnv sampleNetwork noSets [sniffOptions]
    (match NewRule (S:=Empty_set) false panickingSniffers unit (fun _ => Ok tt) (fun _ => []) (fun _ => true) sniffOptions true with Ok r => [r] | _ => [] end)
    {| sampleConnection with Network_ := "udp" |} false false (InputPacketConn [PacketRead [] SocksaddrZero])).
  - repeat constructor.
  - by repeat constructor.
  - vm_compute. reflexivity.
Defined.
