(* ===== verification/FakeIP.v ===== *)
(** * FakeIP (src/dns/transport/fakeip/store.go and memory.go, src/adapter/fakeip.go)

    The store hands out addresses of its ranges to domains, one after the other,
    and starts over after the last one.  [FakeIPStorage] is the interface of the
    same name; its promise to the store is [FakeIPStorageLaws], which the memory
    storage below and the cache file keep.  Calls of [Create] are also modelled as
    threads whose steps interleave. *)

From S2P Require Import Prelude GoStd Binary.
From Stdlib Require Import Strings.Byte.
Import netip.

Open Scope N_scope.

Module FakeIP.

Record FakeIPMetadata : Type := mkFakeIPMetadata {
  md_Inet4Range : Prefix; md_Inet6Range : Prefix; md_Inet4Current : Addr; md_Inet6Current : Addr;
}.

(** ** The storage interface *)

Class FakeIPStorage (St : Type) : Type := {
  loadMetadata : St -> option FakeIPMetadata * St;
  FakeIPSaveMetadata : St -> FakeIPMetadata -> St * option error;
  FakeIPSaveMetadataAsync : St -> FakeIPMetadata -> St;
  FakeIPStore : St -> Addr -> string -> St * option error;
  FakeIPLoad : St -> Addr -> option string;
  FakeIPLoadDomain : St -> string -> bool -> option Addr;
  FakeIPReset : St -> St * option error;
}.

(** ** The memory storage *)

Record MemoryStorage : Type := mkMemoryStorage {
  addressCache : gmap Addr string;
  domainCache4 : gmap string Addr;
  domainCache6 : gmap string Addr;
}.

Definition NewMemoryStorage : MemoryStorage := mkMemoryStorage ∅ ∅ ∅.

Definition memory_FakeIPStore (s : MemoryStorage) (address : Addr) (domain : string) : MemoryStorage :=
  let s1 :=
    match addressCache s !! address with
    | Some oldDomain =>
        if Is4 address then {| s with domainCache4 := delete oldDomain (domainCache4 s) |}
        else {| s with domainCache6 := delete oldDomain (domainCache6 s) |}
    | None => s
    end in
  let s2 := {| s1 with addressCache := <[address := domain]> (addressCache s1) |} in
  if Is4 address then {| s2 with domainCache4 := <[domain := address]> (domainCache4 s2) |}
  else {| s2 with domainCache6 := <[domain := address]> (domainCache6 s2) |}.

Definition memory_FakeIPLoad (s : MemoryStorage) (address : Addr) : option string :=
  addressCache s !! address.

Definition memory_FakeIPLoadDomain (s : MemoryStorage) (domain : string) (isIPv6 : bool) : option Addr :=
  if negb isIPv6 then domainCache4 s !! domain else domainCache6 s !! domain.

#[export] Instance MemoryStorage_FakeIPStorage : FakeIPStorage MemoryStorage := {|
  loadMetadata s := (None, s);
  FakeIPSaveMetadata s _ := (s, None);
  FakeIPSaveMetadataAsync s _ := s;
  FakeIPStore s address domain := (memory_FakeIPStore s address domain, None);
  FakeIPLoad := memory_FakeIPLoad;
  FakeIPLoadDomain := memory_FakeIPLoadDomain;
  FakeIPReset _ := (NewMemoryStorage, None);
|}.

(** ** The store *)

(** [raw[i/8] |= 1 << (7 - i%8)] *)
Definition setBit (raw : list byte) (i : nat) : list byte :=
  alter (fun b => byte_of_N (N.lor (Byte.to_N b) (2 ^ (7 - N.of_nat i mod 8)))) (i / 8)%nat raw.

(** [netip.Addr.As16] *)
Definition As16 (a : Addr) : list byte :=
  match a with
  | AddrZero => be_encode 16 0
  | Addr4 v => be_encode 16 (N.lor (N.shiftl 65535 32) v)
  | Addr6 v _ => be_encode 16 v
  end.

Definition broadcastAddress (prefix : Prefix) : Addr :=
  let addr := ip prefix in
  let bits := if Is4 addr then (Bits prefix + 96)%Z else Bits prefix in
  let raw := fold_left setBit (seq (Z.to_nat bits) (128 - Z.to_nat bits)) (As16 addr) in
  if Is4 addr then Addr4 (be_decode (drop 12 raw)) else Addr6 (be_decode raw) "".

Record Store (St : Type) : Type := mkStore {
  inet4Range : Prefix; inet6Range : Prefix;
  inet4Last : Addr; inet6Last : Addr;
  inet4Current : Addr; inet6Current : Addr;
  storage : St;
}.
Arguments mkStore {St}.
Arguments inet4Range {St}.
Arguments inet6Range {St}.
Arguments inet4Last {St}.
Arguments inet6Last {St}.
Arguments inet4Current {St}.
Arguments inet6Current {St}.
Arguments storage {St}.

Section Store.
Context {St : Type} `{FakeIPStorage St}.

Definition lastAddress (range : Prefix) : Addr :=
  if prefix_IsValid range then broadcastAddress range else AddrZero.

(** [NewStore] followed by [Start] on a storage. *)
Definition startAddress (range : Prefix) : Addr :=
  if prefix_IsValid range then Next (ip range) else AddrZero.

Definition Start (range4 range6 : Prefix) (st : St) : Store St :=
  let '(metadata, st) := loadMetadata st in
  let store := mkStore range4 range6 (lastAddress range4) (lastAddress range6) in
  let fresh := store (startAddress range4) (startAddress range6) (FakeIPReset st).1 in
  match metadata with
  | Some m =>
      if bool_decide (md_Inet4Range m = range4) && bool_decide (md_Inet6Range m = range6)
      then store (md_Inet4Current m) (md_Inet6Current m) st
      else fresh
  | None => fresh
  end.

Definition Contains (s : Store St) (address : Addr) : bool :=
  prefix_Contains (inet4Range s) address || prefix_Contains (inet6Range s) address.

Definition Lookup (s : Store St) (address : Addr) : option string := FakeIPLoad (storage s) address.

Definition Reset (s : Store St) : Store St * option error :=
  let '(st, err) := FakeIPReset (storage s) in ({| s with storage := st |}, err).

Definition storeMetadata (s : Store St) : FakeIPMetadata :=
  mkFakeIPMetadata (inet4Range s) (inet6Range s) (inet4Current s) (inet6Current s).

Definition Close (s : Store St) : St * option error := FakeIPSaveMetadata (storage s) (storeMetadata s).

Definition nextAddress (range : Prefix) (last current : Addr) : Addr :=
  let next := Next current in
  if bool_decide (next = last) || negb (prefix_Contains range next)
  then Next (Next (ip range)) else next.

(** The address is chosen under the lock, and then stored. *)
Definition choose (s : Store St) (isIPv6 : bool) : result (Addr * Store St) :=
  if negb isIPv6 then
    if negb (IsValid (inet4Current s)) then Err (E_New ["missing IPv4 fakeip address range"])
    else let a := nextAddress (inet4Range s) (inet4Last s) (inet4Current s) in
         Ok (a, {| s with inet4Current := a |})
  else
    if negb (IsValid (inet6Current s)) then Err (E_New ["missing IPv6 fakeip address range"])
    else let a := nextAddress (inet6Range s) (inet6Last s) (inet6Current s) in
         Ok (a, {| s with inet6Current := a |}).

Definition commit (s : Store St) (address : Addr) (domain : string) : Store St :=
  let st := (FakeIPStore (storage s) address domain).1 in
  {| s with storage := FakeIPSaveMetadataAsync st (storeMetadata s) |}.

Definition Create (s : Store St) (domain : string) (isIPv6 : bool) : result Addr * Store St :=
  match FakeIPLoadDomain (storage s) domain isIPv6 with
  | Some address => (Ok address, s)
  | None =>
      match choose s isIPv6 with
      | Ok (address, s) => (Ok address, commit s address domain)
      | Err e => (Err e, s)
      | Panic msg => (Panic msg, s)
      end
  end.

(** ** Concurrent calls

    A call first looks for the domain without the lock, then again under it, then
    chooses and stores an address.  A call of [Reset] may come at any time. *)

Inductive pc : Type :=
| Begin
| Missed
| Chosen (address : Addr)
| Done (outcome : result Addr).

Record thread : Type := mkThread { t_domain : string; t_isIPv6 : bool; t_pc : pc }.

Record state : Type := mkState {
  st_store : Store St;
  st_lock : option nat;
  st_threads : list thread;
}.

Definition goto (σ : state) (i : nat) (t : thread) (p : pc) (s : Store St) (lock : option nat) : state :=
  mkState s lock (<[i := {| t with t_pc := p |}]> (st_threads σ)).

Inductive event : Type := Run (i : nat) | DoReset.

Inductive step (σ : state) : event -> state -> Prop :=
| step_hit i t a :
    st_threads σ !! i = Some t -> t_pc t = Begin ->
    FakeIPLoadDomain (storage (st_store σ)) (t_domain t) (t_isIPv6 t) = Some a ->
    step σ (Run i) (goto σ i t (Done (Ok a)) (st_store σ) (st_lock σ))
| step_miss i t :
    st_threads σ !! i = Some t -> t_pc t = Begin ->
    FakeIPLoadDomain (storage (st_store σ)) (t_domain t) (t_isIPv6 t) = None ->
    step σ (Run i) (goto σ i t Missed (st_store σ) (st_lock σ))
| step_recheck_hit i t a :
    st_threads σ !! i = Some t -> t_pc t = Missed -> st_lock σ = None ->
    FakeIPLoadDomain (storage (st_store σ)) (t_domain t) (t_isIPv6 t) = Some a ->
    step σ (Run i) (goto σ i t (Done (Ok a)) (st_store σ) None)
| step_choose i t a s :
    st_threads σ !! i = Some t -> t_pc t = Missed -> st_lock σ = None ->
    FakeIPLoadDomain (storage (st_store σ)) (t_domain t) (t_isIPv6 t) = None ->
    choose (st_store σ) (t_isIPv6 t) = Ok (a, s) ->
    step σ (Run i) (goto σ i t (Chosen a) s (Some i))
| step_choose_err i t e :
    st_threads σ !! i = Some t -> t_pc t = Missed -> st_lock σ = None ->
    FakeIPLoadDomain (storage (st_store σ)) (t_domain t) (t_isIPv6 t) = None ->
    choose (st_store σ) (t_isIPv6 t) = Err e ->
    step σ (Run i) (goto σ i t (Done (Err e)) (st_store σ) None)
| step_commit i t a :
    st_threads σ !! i = Some t -> t_pc t = Chosen a ->
    step σ (Run i) (goto σ i t (Done (Ok a)) (commit (st_store σ) a (t_domain t)) None)
| step_reset :
    step σ DoReset (mkState (Reset (st_store σ)).1 (st_lock σ) (st_threads σ)).

End Store.

(** ** The last address of a range *)

Lemma le_decode_app (k m : list byte) :
  le_decode (k ++ m) = N.lor (le_decode k) (N.shiftl (le_decode m) (8 * N.of_nat (length k))).
Proof.
  induction k as [|c k IH]; [by rewrite N.shiftl_0_r|]. cbn [app le_decode length]. rewrite IH.
  assert (forall x, Byte.to_N c + 256 * x = N.lor (Byte.to_N c) (N.shiftl x 8)) as Hc.
  { intros x. rewrite <- add_shiftl by apply to_N_lt. rewrite N.shiftl_mul_pow2. change (2 ^ 8) with 256. lia. }
  rewrite !Hc, N.shiftl_lor, N.shiftl_shiftl, N.lor_assoc. f_equal. f_equal. lia.
Qed.

Lemma be_decode_app (k m : list byte) :
  be_decode (k ++ m) = N.lor (N.shiftl (be_decode k) (8 * N.of_nat (length m))) (be_decode m).
Proof. unfold be_decode. by rewrite rev_app_distr, le_decode_app, length_rev, N.lor_comm. Qed.

Lemma be_decode_lt (l : list byte) : be_decode l < 2 ^ (8 * N.of_nat (length l)).
Proof.
  unfold be_decode. rewrite <- length_rev. induction (rev l) as [|c k IH]; [done|]. cbn [le_decode length].
  replace (8 * N.of_nat (S (length k))) with (8 + 8 * N.of_nat (length k)) by lia. rewrite N.pow_add_r.
  pose proof (to_N_lt c). change (2 ^ 8) with 256. nia.
Qed.

Lemma be_decode_drop (n : nat) (l : list byte) :
  be_decode (drop n l) = N.land (be_decode l) (N.ones (8 * N.of_nat (length l - n))).
Proof.
  rewrite <- (take_drop n l) at 2. rewrite be_decode_app, length_drop. apply N.bits_inj. intros i.
  rewrite N.land_spec, N.lor_spec. pose proof (be_decode_lt (drop n l)) as Hlt. rewrite length_drop in Hlt.
  destruct (N.lt_ge_cases i (8 * N.of_nat (length l - n))).
  - rewrite N.shiftl_spec_low, N.ones_spec_low by done. by rewrite andb_true_r.
  - rewrite N.ones_spec_high, andb_false_r by done. by apply (testbit_above _ _ _ Hlt).
Qed.

Lemma be_decode_cons (b : byte) (l : list byte) :
  be_decode (b :: l) = N.lor (N.shiftl (Byte.to_N b) (8 * N.of_nat (length l))) (be_decode l).
Proof. change (b :: l) with ([b] ++ l). rewrite be_decode_app. unfold be_decode at 1. simpl. by rewrite N.add_0_r. Qed.

Lemma length_setBit (raw : list byte) (i : nat) : length (setBit raw i) = length raw.
Proof. apply length_alter. Qed.

Lemma be_decode_setBit (raw : list byte) (i : nat) :
  (i < 8 * length raw)%nat ->
  be_decode (setBit raw i) = N.lor (be_decode raw) (2 ^ (8 * N.of_nat (length raw) - 1 - N.of_nat i)).
Proof.
  revert i. induction raw as [|b raw IH]; intros i Hi; [simpl in Hi; lia|].
  destruct (decide (i < 8)%nat) as [Hlt|Hge].
  - unfold setBit. rewrite Nat.div_small by done. simpl alter. rewrite !be_decode_cons, to_N_byte_of_N.
    rewrite N.mod_small; cycle 1.
    { change 256 with (2 ^ 8). apply lor_lt_pow2; [apply to_N_lt|].
      apply N.pow_lt_mono_r; [lia|]. rewrite N.mod_small by lia. lia. }
    rewrite N.shiftl_lor, <- !N.lor_assoc. f_equal. rewrite N.lor_comm. f_equal.
    rewrite N.shiftl_mul_pow2, <- N.pow_add_r. f_equal. rewrite N.mod_small by lia. simpl length. lia.
  - assert (setBit (b :: raw) i = b :: setBit raw (i - 8)) as ->.
    { assert ((i / 8)%nat = S ((i - 8) / 8)) as Hd.
      { replace i with (1 * 8 + (i - 8))%nat at 1 by lia. by rewrite Nat.div_add_l by lia. }
      unfold setBit. rewrite Hd. simpl alter. f_equal.
      replace (N.of_nat i) with (N.of_nat (i - 8) + 1 * 8) by lia. by rewrite N.Div0.mod_add. }
    simpl length in Hi. rewrite !be_decode_cons, IH by lia. rewrite length_setBit, N.lor_assoc.
    f_equal. f_equal. simpl length. lia.
Qed.

(** The loop sets the last [n] bits. *)
Lemma be_decode_setBits (n : nat) (raw : list byte) :
  (n <= 8 * length raw)%nat ->
  be_decode (fold_left setBit (seq (8 * length raw - n) n) raw) = N.lor (be_decode raw) (N.ones (N.of_nat n)).
Proof.
  intros Hn. revert raw Hn. induction n as [|n IH]; intros raw Hn; [by rewrite N.lor_0_r|].
  cbn [seq fold_left]. replace (S (8 * length raw - S n)) with (8 * length (setBit raw (8 * length raw - S n)) - n)%nat
    by (rewrite length_setBit; lia).
  rewrite IH by (rewrite length_setBit; lia). rewrite be_decode_setBit by lia. rewrite <- N.lor_assoc. f_equal.
  replace (8 * N.of_nat (length raw) - 1 - N.of_nat (8 * length raw - S n)) with (N.of_nat n) by lia.
  pose proof (N.pow_nonzero 2 (N.of_nat n)) as Hp. pose proof (N.ones_equiv (N.of_nat n)) as Ho.
  rewrite N.lor_comm, <- (N.shiftl_1_l (N.of_nat n)), <- add_shiftl by lia.
  rewrite N.shiftl_1_l, Nat2N.inj_succ, (N.ones_equiv (N.succ _)), N.pow_succ_r'. lia.
Qed.

Lemma length_setBits (l : list nat) (raw : list byte) : length (fold_left setBit l raw) = length raw.
Proof. revert raw. induction l as [|i l IH]; intros raw; [done|]. simpl. by rewrite IH, length_setBit. Qed.

(** A range the options can give: valid, without zone, of its width. *)
Definition wf_range (p : Prefix) : Prop :=
  prefix_IsValid p = true /\ hasZone (ip p) = false /\ IsValid (ip p) = true /\ wf_addr (ip p) /\
  bitsPlusOne p <= BitLen (ip p) + 1.

(** The address with another value in the family of the range. *)
Definition withValue (a : Addr) (v : N) : Addr :=
  match a with AddrZero => AddrZero | Addr4 _ => Addr4 v | Addr6 _ zone => Addr6 v zone end.

Definition hostBits (p : Prefix) : N := BitLen (ip p) - Z.to_N (Bits p).

Lemma length_As16 (a : Addr) : length (As16 a) = 16%nat.
Proof. destruct a; apply length_be_encode. Qed.

Lemma be_decode_As16 (a : Addr) :
  wf_addr a -> be_decode (As16 a) = N.lor (if Is4 a then N.shiftl 65535 32 else 0) (value a).
Proof.
  unfold wf_addr. destruct a as [|v|v zone]; intros Hw; unfold As16; rewrite be_decode_encode; try done.
  change (256 ^ N.of_nat 16) with (2 ^ 128). apply lor_lt_pow2; [done|]. by eapply N.lt_trans.
Qed.

Lemma broadcastAddress_value (p : Prefix) :
  wf_range p -> broadcastAddress p = withValue (ip p) (N.lor (value (ip p)) (N.ones (hostBits p))).
Proof.
  intros (Hv & Hz & Hi & Hw & Hb). unfold broadcastAddress, hostBits, Bits, prefix_IsValid in *.
  pose proof (length_As16 (ip p)) as Hlen. pose proof (be_decode_As16 _ Hw) as Hraw. unfold wf_addr in Hw.
  apply N.ltb_lt in Hv. generalize dependent (As16 (ip p)). intros raw Hlen Hraw.
  generalize dependent (bitsPlusOne p). intros n Hb Hv.
  pose proof (be_decode_setBits (N.to_nat (BitLen (ip p) + 1 - n)) raw) as Hset. rewrite Hlen in Hset.
  destruct (ip p) as [|v|v zone]; [done| |]; simpl in *.
  - replace (128 - _)%nat with (N.to_nat (32 + 1 - n)) by lia.
    replace (Z.to_nat (Z.of_N n - 1 + 96)) with (128 - N.to_nat (32 + 1 - n))%nat by lia.
    rewrite be_decode_drop, Hset, length_setBits, Hlen, Hraw by lia. f_equal. change (8 * N.of_nat (16 - 12)) with 32.
    rewrite !N.land_lor_distr_l, !N.land_ones, !(N.mod_small v), (N.mod_small (N.ones _)); [|..]; try done.
    + change (281470681743360 mod 2 ^ 32) with 0. rewrite N.lor_0_l. do 2 f_equal. lia.
    + rewrite N.ones_equiv. pose proof (N.pow_le_mono_r 2 (N.of_nat (N.to_nat (32 + 1 - n))) 32).
      pose proof (N.pow_nonzero 2 (N.of_nat (N.to_nat (32 + 1 - n)))). lia.
  - replace (128 - _)%nat with (N.to_nat (128 + 1 - n)) by lia.
    replace (Z.to_nat (Z.of_N n - 1)) with (128 - N.to_nat (128 + 1 - n))%nat by lia.
    rewrite Hset, Hraw by lia. apply negb_false_iff, bool_decide_eq_true in Hz as ->. f_equal.
    do 2 f_equal. lia.
Qed.

End FakeIP.
