(* ===== verification/FakeIPTheorems.v ===== *)
(** * Theorems on FakeIP

    Stated for every storage that keeps [FakeIPStorageLaws].  At the end, the router on a
    connection to an address that was handed out for a domain. *)

From S2P Require Import Prelude GoStd Metadata Binary Route RouteTheorems FakeIP.
Import netip FakeIP.

Open Scope N_scope.

(** What a storage promises.  [addressable] are the addresses it distinguishes and
    [acceptable] the domains it can store; storing another domain fails and changes
    nothing.  A reset empties the storage or fails and changes nothing. *)

Definition same_view {St} `{FakeIPStorage St} (s s' : St) : Prop :=
  (forall a, FakeIPLoad s' a = FakeIPLoad s a) /\
  (forall d isIPv6, FakeIPLoadDomain s' d isIPv6 = FakeIPLoadDomain s d isIPv6).

Definition empty_view {St} `{FakeIPStorage St} (s : St) : Prop :=
  (forall a, FakeIPLoad s a = None) /\ (forall d isIPv6, FakeIPLoadDomain s d isIPv6 = None).

Class FakeIPStorageLaws (St : Type) `{FakeIPStorage St} : Type := {
  storage_ok : St -> Prop;
  addressable : Addr -> bool;
  acceptable : string -> bool;
  store_load s a d : storage_ok s -> addressable a = true -> acceptable d = true ->
    forall b, addressable b = true ->
    FakeIPLoad (FakeIPStore s a d).1 b = if decide (b = a) then Some d else FakeIPLoad s b;
  store_loadDomain s a d : storage_ok s -> addressable a = true -> acceptable d = true ->
    forall d' isIPv6, FakeIPLoadDomain (FakeIPStore s a d).1 d' isIPv6 =
    if Bool.eqb isIPv6 (negb (Is4 a)) then
      if decide (d' = d) then Some a
      else if decide (FakeIPLoad s a = Some d') then None
      else FakeIPLoadDomain s d' isIPv6
    else FakeIPLoadDomain s d' isIPv6;
  store_ok s a d : storage_ok s -> addressable a = true -> storage_ok (FakeIPStore s a d).1;
  store_refused s a d : storage_ok s -> acceptable d = false -> same_view s (FakeIPStore s a d).1;
  async_ok s m : storage_ok s -> storage_ok (FakeIPSaveMetadataAsync s m);
  async_view s m : storage_ok s -> same_view s (FakeIPSaveMetadataAsync s m);
  reset_ok s : storage_ok s -> storage_ok (FakeIPReset s).1;
  reset_view s : storage_ok s ->
    match (FakeIPReset s).2 with
    | None => empty_view (FakeIPReset s).1
    | Some _ => same_view s (FakeIPReset s).1
    end;
}.

#[export] Program Instance MemoryStorage_laws : FakeIPStorageLaws MemoryStorage := {|
  storage_ok _ := True;
  addressable _ := true;
  acceptable _ := true;
|}.
Next Obligation.
  intros s a d _ _ _ b _. simpl. unfold memory_FakeIPLoad, memory_FakeIPStore.
  case_decide as Hb; [subst b|].
  - destruct (addressCache s !! a), (Is4 a); simpl; by rewrite lookup_insert_eq.
  - destruct (addressCache s !! a), (Is4 a); simpl; by rewrite lookup_insert_ne by congruence.
Qed.
Next Obligation.
  intros s a d _ _ _ d' v6. simpl. unfold memory_FakeIPLoadDomain, memory_FakeIPLoad, memory_FakeIPStore.
  destruct (addressCache s !! a) as [old|], (Is4 a), v6; simpl; try done;
    (case_decide as Hd; [subst d'; by rewrite lookup_insert_eq|]);
    rewrite lookup_insert_ne by congruence; try done;
    (case_decide as Ho; [injection Ho as ->; by rewrite lookup_delete_eq|]);
    rewrite lookup_delete_ne; [done|congruence|done|congruence].
Qed.
Next Obligation. done. Qed.
Next Obligation. done. Qed.
Next Obligation. done. Qed.
Next Obligation. by split. Qed.
Next Obligation. done. Qed.
Next Obligation.
  intros s _. split; [intros a; apply lookup_empty|].
  intros d []; apply lookup_empty.
Qed.

(** ** The ring of addresses of a range

    The addresses handed out are those after the first host and before the last
    address of the range. *)

Definition first (range : Prefix) : N := value (ip range) + 2.
Definition end_ (range : Prefix) : N := N.lor (value (ip range)) (N.ones (hostBits range)).
Definition capacity (range : Prefix) : N := end_ range - first range.

Definition roomy (range : Prefix) : Prop := wf_range range /\ first range < end_ range.

Definition in_ring (range : Prefix) (a : Addr) : Prop :=
  a = withValue (ip range) (value a) /\ first range <= value a < end_ range.

Lemma end_eq (range : Prefix) :
  end_ range = N.shiftl (N.shiftr (value (ip range)) (hostBits range)) (hostBits range) + N.ones (hostBits range).
Proof.
  rewrite N.add_comm, add_shiftl; cycle 1.
  { rewrite N.ones_equiv. pose proof (N.pow_nonzero 2 (hostBits range)). lia. }
  apply N.bits_inj. intros n. unfold end_. rewrite !N.lor_spec. destruct (N.lt_ge_cases n (hostBits range)).
  - by rewrite N.ones_spec_low, orb_true_r.
  - rewrite N.ones_spec_high, orb_false_r by done. rewrite N.shiftl_spec_high', N.shiftr_spec' by done.
    simpl. f_equal. lia.
Qed.

Lemma end_lt (range : Prefix) : wf_range range -> end_ range < 2 ^ BitLen (ip range).
Proof.
  intros (_ & _ & _ & Hw & _). apply lor_lt_pow2; [done|]. rewrite N.ones_equiv.
  pose proof (N.pow_le_mono_r 2 (hostBits range) (BitLen (ip range))).
  pose proof (N.pow_nonzero 2 (hostBits range)). unfold hostBits in *. lia.
Qed.

(** The range contains exactly the addresses with its leading bits. *)
Lemma contains_between (range : Prefix) (v : N) :
  wf_range range -> value (ip range) <= v <= end_ range -> prefix_Contains range (withValue (ip range) v) = true.
Proof.
  intros (Hv & Hz & Hi & Hw & Hb) Hin. rewrite end_eq in Hin. unfold prefix_Contains.
  assert (hasZone (withValue (ip range) v) = false) as -> by (by destruct (ip range)).
  assert (BitLen (withValue (ip range) v) = BitLen (ip range)) as -> by (by destruct (ip range)).
  assert (value (withValue (ip range) v) = v) as -> by (by destruct (ip range)).
  rewrite Hv, N.eqb_refl. assert ((BitLen (ip range) =? 0) = false) as -> by (by destruct (ip range)).
  simpl. fold (hostBits range). apply N.eqb_eq. rewrite N.shiftr_lxor. apply N.lxor_eq_0_iff.
  rewrite N.shiftl_mul_pow2, N.ones_equiv, !N.shiftr_div_pow2 in *. pose proof (N.pow_nonzero 2 (hostBits range)).
  set (m := 2 ^ hostBits range) in *. symmetry. apply (N.div_unique _ _ _ (v - m * (value (ip range) / m))).
  - lia.
  - pose proof (N.Div0.mul_div_le (value (ip range)) m). lia.
Qed.

(** The address after one of the ring, or after the first host, is in the ring. *)
Lemma nextAddress_ring (range : Prefix) (v : N) :
  roomy range -> value (ip range) + 1 <= v < end_ range ->
  nextAddress range (lastAddress range) (withValue (ip range) v)
  = withValue (ip range) (if v + 1 =? end_ range then first range else v + 1).
Proof.
  intros [Hwf Hroom] Hv. unfold nextAddress, lastAddress. pose proof Hwf as (Hval & _ & Hi & _ & _).
  rewrite Hval, broadcastAddress_value by done. fold (end_ range). pose proof (end_lt _ Hwf) as He.
  assert (forall w, w + 1 < 2 ^ BitLen (ip range) -> Next (withValue (ip range) w) = withValue (ip range) (w + 1)) as Hn.
  { intros w Hw. destruct (ip range) as [|x|x zone]; [done| |]; simpl in *.
    - rewrite N.mod_small by done. by rewrite (proj2 (N.eqb_neq _ _)) by lia.
    - rewrite N.mod_small by done. by rewrite (proj2 (N.eqb_neq _ _)) by lia. }
  assert (Next (Next (ip range)) = withValue (ip range) (first range)) as ->.
  { assert (ip range = withValue (ip range) (value (ip range))) as Hip by (by destruct (ip range)).
    unfold first in *. transitivity (Next (Next (withValue (ip range) (value (ip range))))); [by rewrite <- Hip|].
    rewrite !Hn by lia. f_equal. lia. }
  rewrite Hn by lia.
  rewrite contains_between, orb_false_r by (done || lia).
  destruct (N.eqb_spec (v + 1) (end_ range)) as [->|Hne].
  - by rewrite bool_decide_true.
  - rewrite bool_decide_false; [done|]. intros Heq. apply Hne. by destruct (ip range); [done|injection Heq..].
Qed.

Lemma in_ring_withValue (range : Prefix) (v : N) :
  IsValid (ip range) = true -> first range <= v < end_ range -> in_ring range (withValue (ip range) v).
Proof. intros Hi Hv. split; by destruct (ip range). Qed.

Lemma value_withValue (a : Addr) (v : N) : IsValid a = true -> value (withValue a v) = v.
Proof. by destruct a. Qed.

Lemma Is4_withValue (a : Addr) (v : N) : Is4 (withValue a v) = Is4 a.
Proof. by destruct a. Qed.

(** ** Stores *)

Section Laws.
Context {St : Type} `{FakeIPStorageLaws St}.
Implicit Types (s : Store St) (st : St) (a : Addr) (d : string).

Definition range_ s (v6 : bool) : Prefix := if v6 then inet6Range s else inet4Range s.
Definition current_ s (v6 : bool) : Addr := if v6 then inet6Current s else inet4Current s.
Definition last_ s (v6 : bool) : Addr := if v6 then inet6Last s else inet4Last s.

(** Domains and addresses are in one to one correspondence. *)
Definition consistent st : Prop :=
  (forall d v6 a, FakeIPLoadDomain st d v6 = Some a ->
     addressable a = true /\ v6 = negb (Is4 a) /\ FakeIPLoad st a = Some d) /\
  (forall a d, addressable a = true -> FakeIPLoad st a = Some d ->
     FakeIPLoadDomain st d (negb (Is4 a)) = Some a).

(** A family without range hands out nothing; otherwise its current address is
    the first host or in the ring, and the storage takes the addresses of the ring. *)
Definition family_ok s (v6 : bool) : Prop :=
  current_ s v6 = AddrZero \/
  (roomy (range_ s v6) /\ Is4 (ip (range_ s v6)) = negb v6 /\
   last_ s v6 = lastAddress (range_ s v6) /\
   (forall a, in_ring (range_ s v6) a -> addressable a = true) /\
   exists v, current_ s v6 = withValue (ip (range_ s v6)) v /\
     value (ip (range_ s v6)) + 1 <= v < end_ (range_ s v6)).

Definition mapped_in_ring s : Prop :=
  forall d v6 a, FakeIPLoadDomain (storage s) d v6 = Some a -> in_ring (range_ s v6) a.

Definition store_wf s : Prop :=
  storage_ok (storage s) /\ consistent (storage s) /\ mapped_in_ring s /\ forall v6, family_ok s v6.

Lemma same_view_consistent st st' : same_view st st' -> consistent st -> consistent st'.
Proof.
  intros [Hl Hd] [H1 H2]. split.
  - intros d v6 a. rewrite Hd, Hl. apply H1.
  - intros a d. rewrite Hd, Hl. apply H2.
Qed.

Lemma empty_view_consistent st : empty_view st -> consistent st.
Proof. intros [Hl Hd]. split; intros *; [by rewrite Hd|by rewrite Hl]. Qed.

Lemma store_consistent st a d :
  storage_ok st -> addressable a = true -> FakeIPLoadDomain st d (negb (Is4 a)) = None ->
  consistent st -> consistent (FakeIPStore st a d).1.
Proof.
  intros Hok Ha Hnew Hc. destruct (acceptable d) eqn:Hd; [|by eapply same_view_consistent; [apply store_refused|]].
  pose proof (store_load st a d Hok Ha Hd) as Hl. pose proof (store_loadDomain st a d Hok Ha Hd) as Hld.
  destruct Hc as [H1 H2]. split.
  - intros d' v6 b. rewrite Hld. destruct (Bool.eqb_spec v6 (negb (Is4 a))) as [->|Hne].
    + case_decide; [intros [= <-]; subst d'; rewrite Hl by done; by rewrite decide_True|].
      case_decide as Ho; [done|]. intros Hb. apply H1 in Hb as (Hb & Hf & Hlb). rewrite Hl by done.
      rewrite decide_False; [done|]. congruence.
    + intros Hb. apply H1 in Hb as (Hb & Hf & Hlb). rewrite Hl by done. rewrite decide_False; [done|]. congruence.
  - intros b d' Hb. rewrite Hl by done. case_decide as Hba.
    + intros [= <-]. subst b. rewrite Hld, eqb_reflx, decide_True by done. done.
    + intros Hlb. rewrite Hld. apply H2 in Hlb; [|done]. destruct (Bool.eqb_spec (negb (Is4 b)) (negb (Is4 a))) as [Hf|]; [|done].
      rewrite decide_False by congruence. case_decide as Ho; [|done].
      apply H2 in Ho; [|done]. congruence.
Qed.

Lemma choose_spec s (v6 : bool) :
  choose s v6 =
  if IsValid (current_ s v6) then
    let a := nextAddress (range_ s v6) (last_ s v6) (current_ s v6) in
    Ok (a, if v6 then {| s with inet6Current := a |} else {| s with inet4Current := a |})
  else Err (E_New [if v6 then "missing IPv6 fakeip address range" else "missing IPv4 fakeip address range"]).
Proof. unfold choose. destruct v6; simpl; by destruct (IsValid _). Qed.

(** Stores with the same position and mappings answer alike. *)
Lemma Create_same_view s s' d v6 :
  same_view (storage s) (storage s') -> (forall w, range_ s' w = range_ s w) ->
  (forall w, last_ s' w = last_ s w) -> (forall w, current_ s' w = current_ s w) ->
  (Create s' d v6).1 = (Create s d v6).1.
Proof.
  intros [_ Hv] Hr Hl Hc. unfold Create. rewrite Hv. destruct (FakeIPLoadDomain _ _ _); [done|].
  rewrite !choose_spec, Hr, Hl, Hc. by destruct (IsValid _).
Qed.

(** An address that is chosen is in the ring, right after the current one. *)
Lemma choose_wf s v6 a s' :
  store_wf s -> choose s v6 = Ok (a, s') ->
  store_wf s' /\ storage s' = storage s /\ (forall w, range_ s' w = range_ s w) /\
  (forall w, last_ s' w = last_ s w) /\
  current_ s' v6 = a /\ current_ s' (negb v6) = current_ s (negb v6) /\
  in_ring (range_ s v6) a /\ addressable a = true /\ negb (Is4 a) = v6 /\
  value a = (if value (current_ s v6) + 1 =? end_ (range_ s v6) then first (range_ s v6)
             else value (current_ s v6) + 1).
Proof.
  intros (Hok & Hc & Hm & Hf) Hch. rewrite choose_spec in Hch. destruct (IsValid _) eqn:Hv; [|done].
  injection Hch as Ha Hs. destruct (Hf v6) as [Hz|(Hr & H4 & Hl & Had & v & Hcur & Hvr)]; [by rewrite Hz in Hv|].
  rewrite Hl, Hcur, nextAddress_ring in Ha, Hs by done. pose proof Hr as [(_ & _ & Hi & _) Hlt].
  rewrite Hcur, value_withValue by done.
  assert (in_ring (range_ s v6) a) as Hin.
  { rewrite <- Ha. apply in_ring_withValue; [done|]. unfold first in *. destruct (N.eqb_spec (v + 1) (end_ (range_ s v6))); lia. }
  assert (storage s' = storage s /\ (forall w, range_ s' w = range_ s w) /\ (forall w, last_ s' w = last_ s w) /\
          current_ s' v6 = a /\ current_ s' (negb v6) = current_ s (negb v6)) as (Est & Er & El & Ec & Ec').
  { rewrite <- Hs, <- Ha. by destruct v6; repeat split; intros []. }
  assert (negb (Is4 a) = v6) as H4a by (by rewrite <- Ha, Is4_withValue, H4, negb_involutive).
  split; [|split_and!; try done].
  - split_and!; [by rewrite Est|by rewrite Est|intros d w b; rewrite Est, Er; apply Hm|].
    intros w. destruct (decide (w = v6)) as [->|Hw].
    + right. rewrite Er, El, Ec. split_and!; try done. exists (value a). destruct Hin as [Hin1 Hin2].
      split; [done|]. unfold first in Hin2. lia.
    + assert (current_ s' w = current_ s w) as Hcw by (by destruct w, v6).
      destruct (Hf w) as [Hz|Hw']; [left|right]; by rewrite ?Er, ?El, Hcw.
  - by apply Had.
  - by rewrite <- Ha, value_withValue.
Qed.

(** Storing the chosen address for a domain that has none. *)
Lemma commit_wf s a d :
  store_wf s -> FakeIPLoadDomain (storage s) d (negb (Is4 a)) = None ->
  in_ring (range_ s (negb (Is4 a))) a -> addressable a = true ->
  store_wf (commit s a d).
Proof.
  intros (Hok & Hc & Hm & Hf) Hnew Hin Ha. pose proof (store_ok _ _ d Hok Ha) as Hok'.
  pose proof (async_view _ (storeMetadata s) Hok') as Hv.
  unfold commit. split_and!; simpl.
  - by apply async_ok.
  - eapply same_view_consistent; [done|]. by apply store_consistent.
  - intros d' w b. simpl. destruct Hv as [_ Hv]. rewrite Hv. intros Hb.
    destruct (acceptable d) eqn:Hd; [|]; cycle 1.
    { pose proof (store_refused (storage s) a d Hok Hd) as [_ Hr]. rewrite Hr in Hb. by eapply Hm. }
    rewrite store_loadDomain in Hb by done. destruct (Bool.eqb_spec w (negb (Is4 a))) as [->|]; [|by eapply Hm].
    repeat case_decide; [by injection Hb as <-|done|by eapply Hm].
  - done.
Qed.

Lemma reset_wf s : store_wf s -> store_wf (Reset s).1.
Proof.
  intros (Hok & Hc & Hm & Hf). unfold Reset. pose proof (reset_ok _ Hok) as Hok'. pose proof (reset_view _ Hok) as Hr.
  destruct (FakeIPReset (storage s)) as [st err]. simpl in *. split_and!; simpl; [done| | |done].
  - destruct err; [by eapply same_view_consistent|by apply empty_view_consistent].
  - intros d w a. simpl. destruct err; destruct Hr as [_ Hv]; rewrite Hv; [apply Hm|done].
Qed.

(** What [Create] gives: the address the domain has, or the next one of the ring. *)
Lemma Create_wf s d v6 res s' :
  store_wf s -> Create s d v6 = (res, s') ->
  store_wf s' /\ (forall a, res = Ok a -> in_ring (range_ s v6) a) /\
  (FakeIPLoadDomain (storage s) d v6 = None -> IsValid (current_ s v6) = true ->
   exists a, res = Ok a /\ current_ s' v6 = a /\
   value a = (if value (current_ s v6) + 1 =? end_ (range_ s v6) then first (range_ s v6)
              else value (current_ s v6) + 1)).
Proof.
  intros Hwf. unfold Create. destruct (FakeIPLoadDomain _ _ _) as [a|] eqn:Hl.
  { intros [= <- <-]. split_and!; [done| |done]. intros b [= <-]. by eapply Hwf. }
  destruct (choose s v6) as [[a s1]|e|] eqn:Hch.
  - intros [= <- <-]. destruct (choose_wf _ _ _ _ Hwf Hch) as (Hwf1 & Est & Er & El & Ec & _ & Hin & Had & H4 & Hv).
    split_and!.
    + apply commit_wf; [done|by rewrite H4, Est|by rewrite H4, Er|done].
    + intros b [= <-]. done.
    + intros _ _. exists a. split_and!; [done| |done]. by destruct v6.
  - intros [= <- <-]. split_and!; [done..|]. intros _ Hv. rewrite choose_spec, Hv in Hch. done.
  - rewrite choose_spec in Hch. by destruct (IsValid _).
Qed.

(** Starting on a storage without saved position. *)
Definition range_ok (range : Prefix) (v6 : bool) : Prop :=
  prefix_IsValid range = false \/
  (roomy range /\ Is4 (ip range) = negb v6 /\ forall a, in_ring range a -> addressable a = true).

Lemma startAddress_value (range : Prefix) :
  roomy range -> startAddress range = withValue (ip range) (value (ip range) + 1).
Proof.
  intros [Hwf Hlt]. pose proof Hwf as (Hv & _ & Hi & _). pose proof (end_lt _ Hwf) as He. unfold startAddress, first in *.
  rewrite Hv. destruct (ip range) as [|x|x z]; [done| |]; simpl in *;
    rewrite N.mod_small by lia; by rewrite (proj2 (N.eqb_neq _ _)) by lia.
Qed.

Lemma start_family range4 range6 st (v6 : bool) :
  range_ok (if v6 then range6 else range4) v6 ->
  family_ok (mkStore range4 range6 (lastAddress range4) (lastAddress range6)
               (startAddress range4) (startAddress range6) st) v6.
Proof.
  intros [Hr|(Hr & H4 & Had)].
  - left. unfold current_, startAddress. by destruct v6; simpl; rewrite Hr.
  - right. split_and!; [by destruct v6..|]. exists (value (ip (if v6 then range6 else range4)) + 1).
    destruct Hr as [Hwf Hlt]. unfold first in *. split; [|destruct v6; simpl; lia].
    destruct v6; by apply startAddress_value.
Qed.

Lemma Start_wf range4 range6 st st' :
  loadMetadata st = (None, st') -> storage_ok st' -> (FakeIPReset st').2 = None ->
  range_ok range4 false -> range_ok range6 true ->
  store_wf (Start range4 range6 st) /\ empty_view (storage (Start range4 range6 st)).
Proof.
  intros Hm Hok Hr H4 H6. pose proof (reset_view _ Hok) as Hv. rewrite Hr in Hv. unfold Start. rewrite Hm.
  split; [|done]. split_and!; simpl.
  - by apply reset_ok.
  - by apply empty_view_consistent.
  - intros d w a. simpl. destruct Hv as [_ ->]. done.
  - intros [|]; by apply start_family.
Qed.

(** A storage on which a store can start: what an earlier store of the same ranges left there, or one that is reset,
    where the reset does not fail. *)
Definition startable range4 range6 st : Prop :=
  storage_ok (loadMetadata st).2 /\
  ((exists s, store_wf s /\ inet4Range s = range4 /\ inet6Range s = range6 /\
      (loadMetadata st).1 = Some (storeMetadata s) /\ same_view (storage s) (loadMetadata st).2) \/
   ((forall m, (loadMetadata st).1 = Some m -> md_Inet4Range m <> range4 \/ md_Inet6Range m <> range6) /\
    (FakeIPReset (loadMetadata st).2).2 = None)).

Lemma Start_startable range4 range6 st :
  startable range4 range6 st -> range_ok range4 false -> range_ok range6 true ->
  store_wf (Start range4 range6 st) /\ forall v6, range_ (Start range4 range6 st) v6 = if v6 then range6 else range4.
Proof.
  intros [Hok Hcase] H4 H6. unfold Start. destruct (loadMetadata st) as [m st']. cbn [fst snd] in *.
  destruct Hcase as [(s & (_ & Hc & Hring & Hf) & <- & <- & -> & Hview)|[Hother Hr]].
  - rewrite !bool_decide_true by done. cbn [andb]. split; [|by intros []]. split_and!; cbn [storage].
    + done.
    + by eapply same_view_consistent.
    + intros d v6 a. destruct Hview as [_ Hview]. cbn [storage]. rewrite Hview. intros Ha%Hring. by destruct v6.
    + intros v6. specialize (Hf v6). unfold family_ok, range_, current_, last_ in *. destruct v6; cbn [inet6Current inet4Current inet6Range inet4Range inet6Last inet4Last md_Inet4Current md_Inet6Current storeMetadata] in *;
        (destruct Hf as [?|(? & ? & _ & ? & ?)]; [by left|right; done]).
  - pose proof (reset_view _ Hok) as Hv. rewrite Hr in Hv.
    assert (Hfresh : forall x, x = mkStore range4 range6 (lastAddress range4) (lastAddress range6) (startAddress range4) (startAddress range6) (FakeIPReset st').1 ->
      store_wf x /\ forall v6, range_ x v6 = if v6 then range6 else range4).
    { intros x ->. split; [|by intros []]. split_and!; simpl; [by apply reset_ok|by apply empty_view_consistent| |].
      - intros d w a. simpl. destruct Hv as [_ ->]. done.
      - intros [|]; by apply start_family. }
    destruct m as [m|]; [|by apply Hfresh]. destruct (Hother m eq_refl) as [Hne|Hne];
      [rewrite (bool_decide_false (md_Inet4Range m = range4)) by done|rewrite (bool_decide_false (md_Inet6Range m = range6)), andb_false_r by done]; by apply Hfresh.
Qed.

(** *** Concurrent calls *)

Abbreviation state := (FakeIP.state (St := St)).
Abbreviation loaded σ := (FakeIPLoadDomain (storage (st_store σ))).

Definition chosen_ok (σ : state) : Prop :=
  forall i t a, st_threads σ !! i = Some t -> t_pc t = Chosen a ->
    st_lock σ = Some i /\ loaded σ (t_domain t) (t_isIPv6 t) = None /\
    in_ring (range_ (st_store σ) (t_isIPv6 t)) a /\ addressable a = true /\ negb (Is4 a) = t_isIPv6 t.

Definition done_ok (σ : state) : Prop :=
  forall i t a, st_threads σ !! i = Some t -> t_pc t = Done (Ok a) ->
    in_ring (range_ (st_store σ) (t_isIPv6 t)) a.

Definition state_ok (σ : state) : Prop := store_wf (st_store σ) /\ chosen_ok σ /\ done_ok σ.

Definition initial (σ : state) : Prop := st_lock σ = None /\ Forall (fun t => t_pc t = Begin) (st_threads σ).

Lemma initial_ok (σ : state) : store_wf (st_store σ) -> initial σ -> state_ok σ.
Proof.
  intros Hs [Hl Hb]. rewrite Forall_lookup in Hb. split_and!; [done|..]; intros i t a Ht Hp; apply Hb in Ht; congruence.
Qed.

(** The threads after one of them moved. *)
Lemma goto_lookup (σ : state) i t p s l j u :
  st_threads σ !! i = Some t -> st_threads (goto σ i t p s l) !! j = Some u ->
  (j = i /\ t_domain u = t_domain t /\ t_isIPv6 u = t_isIPv6 t /\ t_pc u = p) \/
  (j <> i /\ st_threads σ !! j = Some u).
Proof.
  intros Ht Hu. simpl in Hu. destruct (decide (j = i)) as [->|Hne].
  - rewrite list_lookup_insert_eq in Hu by (by eapply lookup_lt_Some). injection Hu as <-. by left.
  - rewrite list_lookup_insert_ne in Hu by done. by right.
Qed.

(** A step that leaves the store, the lock and the chosen address alone. *)
Lemma goto_idle (σ : state) i t p :
  state_ok σ -> st_threads σ !! i = Some t -> (forall a, t_pc t <> Chosen a) -> (forall a, p <> Chosen a) ->
  (forall a, p = Done (Ok a) -> in_ring (range_ (st_store σ) (t_isIPv6 t)) a) ->
  state_ok (goto σ i t p (st_store σ) (st_lock σ)).
Proof.
  intros (Hs & Hc & Hd) Ht Hnc Hp Hin. split_and!; [done|..]; intros j u a Hu Hpc;
    apply goto_lookup in Hu as [(-> & Hdom & H6 & Hpu)|(Hne & Hu)]; try done; try (by eapply Hc); try (by eapply Hd).
  - rewrite Hpu in Hpc. by apply Hp in Hpc.
  - rewrite H6. apply Hin. congruence.
Qed.

Lemma step_range (σ σ' : state) e v6 : step σ e σ' -> range_ (st_store σ') v6 = range_ (st_store σ) v6.
Proof.
  destruct 1 as [| | |i t a s Ht Hp Hl Hld Hch| | |]; try done.
  - rewrite choose_spec in Hch. destruct (IsValid _); [|done]. injection Hch as _ <-. by destruct (t_isIPv6 t), v6.
  - simpl. unfold Reset. by destruct (FakeIPReset _).
Qed.

Lemma step_ok (σ σ' : state) e : state_ok σ -> step σ e σ' -> state_ok σ'.
Proof.
  intros Hok Hstep. pose proof Hok as (Hs & Hc & Hd).
  destruct Hstep as [i t a Ht Hp Hl|i t Ht Hp Hl|i t a Ht Hp Hlk Hl|i t a s Ht Hp Hlk Hl Hch|i t e Ht Hp Hlk Hl Hch|i t a Ht Hp|].
  - apply goto_idle; try done; [congruence|]. intros b [= <-]. by eapply Hs.
  - apply goto_idle; try done. congruence.
  - rewrite <- Hlk. apply goto_idle; try done; [congruence|]. intros b [= <-]. by eapply Hs.
  - destruct (choose_wf _ _ _ _ Hs Hch) as (Hs' & Est & Er & _ & _ & _ & Hin & Had & H4 & _).
    split_and!; [done|..]; intros j u b Hu Hpc; apply goto_lookup in Hu as [(-> & Hdom & H6 & Hpu)|(Hne & Hu)];
      simpl; rewrite ?Er, ?Est; try done.
    + rewrite Hpu in Hpc. injection Hpc as <-. by rewrite Hdom, H6.
    + destruct (Hc _ _ _ Hu Hpc). congruence.
    + congruence.
    + by eapply Hd.
  - rewrite <- Hlk. apply goto_idle; try done. congruence.
  - destruct (Hc _ _ _ Ht Hp) as (Hlk & Hl & Hin & Had & H4). split_and!.
    + simpl. by apply commit_wf; rewrite ?H4.
    + intros j u b Hu Hpc. apply goto_lookup in Hu as [(-> & Hdom & H6 & Hpu)|(Hne & Hu)]; [congruence| |done].
      destruct (Hc _ _ _ Hu Hpc). congruence.
    + intros j u b Hu Hpc. apply goto_lookup in Hu as [(-> & Hdom & H6 & Hpu)|(Hne & Hu)]; [|by eapply Hd|done].
      rewrite H6. rewrite Hpu in Hpc. by injection Hpc as <-.
  - pose proof (reset_wf _ Hs) as Hs'. pose proof (step_range _ _ _ false (step_reset σ)) as R4.
    pose proof (step_range _ _ _ true (step_reset σ)) as R6. simpl in R4, R6.
    assert (forall w, range_ (Reset (st_store σ)).1 w = range_ (st_store σ) w) as Er by (by intros []).
    split_and!; [done|..]; intros j u b Hu Hpc; simpl in *; rewrite Er.
    + destruct (Hc _ _ _ Hu Hpc) as (Hlk & Hl & Hrest). split_and!; try apply Hrest; [done|].
      destruct Hs as (Hsok & _). pose proof (reset_view _ Hsok) as Hv. unfold Reset. destruct (FakeIPReset _) as [st [e|]];
        destruct Hv as [_ Hv]; simpl in *; by rewrite Hv.
    + by eapply Hd.
Qed.

Definition steps : relation state := rtc (fun σ σ' => exists e, step σ e σ').

Lemma steps_ok σ σ' : state_ok σ -> steps σ σ' -> state_ok σ' /\ forall v6, range_ (st_store σ') v6 = range_ (st_store σ) v6.
Proof.
  intros Hok Hsteps. induction Hsteps as [σ|σ1 σ2 σ3 [e He] _ IH]; [done|].
  destruct IH as [IH1 IH2]; [by eapply step_ok|]. split; [done|]. intros v6. by rewrite IH2, (step_range _ _ _ _ He).
Qed.

Lemma in_ring_contains range a : roomy range -> in_ring range a -> prefix_Contains range a = true.
Proof. intros [Hwf Hlt] [He Ha]. rewrite He. apply contains_between; [done|]. unfold first in Ha. lia. Qed.

Lemma ring_family s v6 a :
  store_wf s -> in_ring (range_ s v6) a -> current_ s v6 <> AddrZero -> Contains s a = true.
Proof.
  intros (_ & _ & _ & Hf) Hin Hc. destruct (Hf v6) as [Hz|(Hr & _)]; [done|]. unfold Contains.
  apply in_ring_contains in Hin; [|done]. destruct v6; simpl in Hin; rewrite Hin; [apply orb_true_r|done].
Qed.

(** C26: FakeIP keeps domains and addresses in one to one correspondence.  A store with ranges that have addresses to hand
    out starts on what an earlier store of the same ranges left in its storage, or on a storage whose reset does not fail.
    Then, whatever calls of [Create] and [Reset] interleave, failed resets included, an address resolves to a domain
    exactly when the domain has that address, and every address handed out is in the ring of its range. *)
Theorem fakeip_mappings_consistent range4 range6 st threads σ :
  startable range4 range6 st -> range_ok range4 false -> range_ok range6 true ->
  Forall (fun t => t_pc t = Begin) threads ->
  steps (mkState (Start range4 range6 st) None threads) σ ->
  (forall a d, addressable a = true ->
     Lookup (st_store σ) a = Some d <-> FakeIPLoadDomain (storage (st_store σ)) d (negb (Is4 a)) = Some a) /\
  (forall i t a, st_threads σ !! i = Some t -> t_pc t = Done (Ok a) ->
     in_ring (if t_isIPv6 t then range6 else range4) a).
Proof.
  intros Hst H4 H6 Ht Hsteps. destruct (Start_startable _ _ _ Hst H4 H6) as [Hwf Er0].
  apply steps_ok in Hsteps as [(Hs & Hc & Hd) Er]; [|by apply initial_ok].
  destruct Hs as (_ & [C1 C2] & _). split.
  - intros a d Ha. split; [by apply C2|]. intros Hl. by apply C1 in Hl as (_ & _ & Hl).
  - intros i t a Hi Hp. pose proof (Er (t_isIPv6 t)) as Er1. cbn [st_store] in Er1. rewrite <- Er0, <- Er1. by eapply Hd.
Qed.

(** *** No two domains share an address while the range lasts *)

Definition advanced (t : thread) : bool := match t_pc t with Chosen _ | Done _ => true | _ => false end.
Definition count (f : thread -> bool) (l : list thread) : nat := length (List.filter f l).

Lemma count_insert f l i (t u : thread) :
  l !! i = Some t ->
  (count f (<[i:=u]> l) + (if f t then 1 else 0) = count f l + (if f u then 1 else 0))%nat.
Proof.
  intros Hi. pose proof (lookup_lt_Some _ _ _ Hi) as Hlt. unfold count. rewrite insert_take_drop by done.
  rewrite <- (take_drop_middle l i t) at 3 by done. rewrite !filter_app, !length_app. simpl.
  destruct (f t), (f u); simpl; lia.
Qed.

Definition inFamily v6 (t : thread) : bool := Bool.eqb (t_isIPv6 t) v6.
Definition advancedIn v6 (t : thread) : bool := inFamily v6 t && advanced t.

(** Addresses are handed out in order: mapped addresses are not after the current
    one, which is at most as far as calls have advanced. *)
Definition in_order (σ : state) : Prop := forall v6, current_ (st_store σ) v6 <> AddrZero ->
  value (current_ (st_store σ) v6)
    <= value (ip (range_ (st_store σ) v6)) + 1 + N.of_nat (count (advancedIn v6) (st_threads σ)) /\
  (forall d a, loaded σ d v6 = Some a -> value a <= value (current_ (st_store σ) v6)).

Definition chosen_free (σ : state) : Prop :=
  forall i t a, st_threads σ !! i = Some t -> t_pc t = Chosen a ->
    FakeIPLoad (storage (st_store σ)) a = None /\ current_ (st_store σ) (t_isIPv6 t) = a.

Definition done_mapped (σ : state) : Prop :=
  forall i t a, st_threads σ !! i = Some t -> t_pc t = Done (Ok a) -> acceptable (t_domain t) = true ->
    loaded σ (t_domain t) (t_isIPv6 t) = Some a.

Definition fits (σ : state) : Prop := forall v6, current_ (st_store σ) v6 <> AddrZero ->
  N.of_nat (count (inFamily v6) (st_threads σ)) <= capacity (range_ (st_store σ) v6).

Definition unique_ok (σ : state) : Prop :=
  state_ok σ /\ in_order σ /\ chosen_free σ /\ done_mapped σ /\ fits σ.

Lemma count_le f g l : (forall t : thread, f t = true -> g t = true) -> (count f l <= count g l)%nat.
Proof.
  intros Hfg. unfold count. induction l as [|t l IH]; [done|]. simpl.
  destruct (f t) eqn:Hf; [rewrite (Hfg _ Hf)|destruct (g t)]; simpl; lia.
Qed.

Lemma count_lt f g l (t : thread) i :
  (forall t, f t = true -> g t = true) -> l !! i = Some t -> f t = false -> g t = true -> (count f l < count g l)%nat.
Proof.
  intros Hfg Hi Hf Hg. rewrite <- (take_drop_middle l i t) by done. unfold count. rewrite !filter_app, !length_app. simpl.
  rewrite Hf, Hg. simpl. pose proof (count_le _ _ (take i l) Hfg). pose proof (count_le _ _ (drop (S i) l) Hfg).
  unfold count in *. lia.
Qed.

Lemma commit_loaded s a d d' (w : bool) :
  storage_ok (storage s) -> addressable a = true -> FakeIPLoad (storage s) a = None ->
  FakeIPLoadDomain (storage (commit s a d)) d' w
  = if acceptable d && Bool.eqb w (negb (Is4 a)) && bool_decide (d' = d) then Some a
    else FakeIPLoadDomain (storage s) d' w.
Proof.
  intros Hok Ha Hfree. pose proof (store_ok _ _ d Hok Ha) as Hok'. unfold commit. simpl.
  destruct (async_view _ (storeMetadata s) Hok') as [_ ->]. destruct (acceptable d) eqn:Hd; simpl.
  - rewrite store_loadDomain, Hfree by done. destruct (Bool.eqb w _); [|done]. simpl.
    case_decide; [by rewrite bool_decide_true|]. by rewrite bool_decide_false.
  - by destruct (store_refused (storage s) a d Hok Hd) as [_ ->].
Qed.

Lemma goto_count (σ : state) i t p s l (f : thread -> bool) :
  st_threads σ !! i = Some t ->
  (count f (st_threads (goto σ i t p s l)) + (if f t then 1 else 0)
   = count f (st_threads σ) + (if f {| t with t_pc := p |} then 1 else 0))%nat.
Proof. intros Ht. simpl. by apply count_insert. Qed.

Lemma advancedIn_chosen v6 t a : advancedIn v6 {| t with t_pc := Chosen a |} = Bool.eqb (t_isIPv6 t) v6.
Proof. apply andb_true_r. Qed.

Lemma advancedIn_at v6 t : advancedIn v6 t = Bool.eqb (t_isIPv6 t) v6 && advanced t.
Proof. done. Qed.

Lemma goto_fits (σ : state) i t p s l :
  st_threads σ !! i = Some t -> (forall v6, range_ s v6 = range_ (st_store σ) v6) ->
  (forall v6, current_ (st_store σ) v6 = AddrZero -> current_ s v6 = AddrZero) ->
  fits σ -> fits (goto σ i t p s l).
Proof.
  intros Ht Hr Hc Hf v6 Hz. simpl in Hz |- *. pose proof (goto_count σ i t p s l (inFamily v6) Ht) as Hn.
  unfold inFamily in Hn at 2 4. simpl in Hn. rewrite Hr. specialize (Hf v6). destruct (Bool.eqb _ _); 
  (eapply N.le_trans; [|apply Hf; by auto]); lia.
Qed.

Lemma goto_unique (σ : state) i t p :
  unique_ok σ -> state_ok (goto σ i t p (st_store σ) (st_lock σ)) -> st_threads σ !! i = Some t ->
  advanced t = false -> (forall a, p <> Chosen a) ->
  (forall a, p = Done (Ok a) -> loaded σ (t_domain t) (t_isIPv6 t) = Some a) ->
  unique_ok (goto σ i t p (st_store σ) (st_lock σ)).
Proof.
  intros (Hs & Ho & Hc & Hd & Hf) Hs' Ht Hadv Hp Hdone. split_and!; [done|..].
  - intros v6 Hz. destruct (Ho v6 Hz) as [Ho1 Ho2]. split; [|done]. simpl. eapply N.le_trans; [exact Ho1|].
    pose proof (goto_count σ i t p (st_store σ) (st_lock σ) (advancedIn v6) Ht) as Hn. simpl in Hn.
    unfold advancedIn in Hn at 2. rewrite Hadv, andb_false_r in Hn. lia.
  - intros j u a Hu Hpc. apply goto_lookup in Hu as [(-> & Hdom & H6 & Hpu)|(Hne & Hu)]; [|by eapply Hc|done].
    rewrite Hpu in Hpc. by apply Hp in Hpc.
  - intros j u a Hu Hpc Hacc. apply goto_lookup in Hu as [(-> & Hdom & H6 & Hpu)|(Hne & Hu)]; [|by eapply Hd|done].
    rewrite Hdom, H6. apply Hdone. congruence.
  - by apply goto_fits.
Qed.

Lemma choose_unique (σ : state) i t a s :
  unique_ok σ -> state_ok (goto σ i t (Chosen a) s (Some i)) -> st_threads σ !! i = Some t -> t_pc t = Missed -> st_lock σ = None ->
  choose (st_store σ) (t_isIPv6 t) = Ok (a, s) ->
  unique_ok (goto σ i t (Chosen a) s (Some i)).
Proof.
  intros (Hs & Ho & Hc & Hd & Hf) Hs' Ht Hpc Hlk Hch. destruct Hs as (Hwf & Hco & _).
  destruct (choose_wf _ _ _ _ Hwf Hch) as (_ & Est & Er & _ & Ec & Ec' & Hin & Had & H4 & Hv).
  set (w := t_isIPv6 t) in *. set (c := current_ (st_store σ) w) in *.
  assert (c <> AddrZero) as Hz.
  { intros Hz. rewrite choose_spec in Hch. subst c. by rewrite Hz in Hch. }
  destruct (Ho w Hz) as [Ho1 Ho2]. fold c in Ho1, Ho2.
  assert (advancedIn w t = false) as Hat by (unfold advancedIn, advanced; by rewrite Hpc, andb_false_r).
  assert (value a = value c + 1) as Hva.
  { rewrite Hv. specialize (Hf w Hz). unfold capacity, first in Hf.
    assert (count (advancedIn w) (st_threads σ) < count (inFamily w) (st_threads σ))%nat.
    { eapply count_lt; [|done..|]; [|by unfold inFamily; rewrite eqb_reflx].
      intros u Hu. by apply andb_prop in Hu as [Hu _]. }
    rewrite (proj2 (N.eqb_neq _ _)); [done|]. lia. }
  assert (forall v6, v6 <> w -> current_ s v6 = current_ (st_store σ) v6) as Eo by (intros [] ?; by destruct w).
  split_and!; [done|..].
  - intros v6 Hz'. simpl in Hz' |- *. rewrite Er, Est. pose proof (goto_count σ i t (Chosen a) s (Some i) (advancedIn v6) Ht) as Hn.
    rewrite advancedIn_chosen in Hn. fold w in Hn. destruct (decide (v6 = w)) as [->|Hne].
    + rewrite Hat, eqb_reflx in Hn. rewrite Ec, Hva. split; [simpl in Hn; lia|]. intros d b Hb. specialize (Ho2 _ _ Hb). lia.
    + rewrite Eo in Hz' |- * by done. destruct (Ho v6 Hz') as [Ho1' Ho2']. split; [|done].
      eapply N.le_trans; [exact Ho1'|]. rewrite (advancedIn_at v6 t) in Hn. fold w in Hn.
      destruct (Bool.eqb_spec w v6) as [->|]; [done|]. simpl in Hn |- *. lia.
  - intros j u b Hu Hpb. simpl. rewrite Est. apply goto_lookup in Hu as [(-> & Hdom & H6 & Hpu)|(Hne & Hu)]; [| |done].
    + rewrite Hpu in Hpb. injection Hpb as <-. rewrite H6. split; [|done].
      destruct (FakeIPLoad _ a) as [d|] eqn:Hl; [|done]. apply Hwf in Hl; [|done]. rewrite H4 in Hl. specialize (Ho2 _ _ Hl). lia.
    + destruct (Hco _ _ _ Hu Hpb). congruence.
  - intros j u b Hu Hpb Hacc. simpl. rewrite Est. apply goto_lookup in Hu as [(-> & Hdom & H6 & Hpu)|(Hne & Hu)]; [congruence| |done].
    by eapply Hd.
  - apply goto_fits; try done. intros v6 Hz'. destruct (decide (v6 = w)) as [->|Hne]; [done|]. by rewrite Eo.
Qed.

Lemma commit_unique (σ : state) i t a :
  unique_ok σ -> state_ok (goto σ i t (Done (Ok a)) (commit (st_store σ) a (t_domain t)) None) ->
  st_threads σ !! i = Some t -> t_pc t = Chosen a ->
  unique_ok (goto σ i t (Done (Ok a)) (commit (st_store σ) a (t_domain t)) None).
Proof.
  intros (Hs & Ho & Hc & Hd & Hf) Hs' Ht Hpc. destruct Hs as (Hwf & Hco & _).
  destruct (Hco _ _ _ Ht Hpc) as (Hlk & Hl & _ & Had & H4). destruct (Hc _ _ _ Ht Hpc) as [Hfree Hcur].
  assert (forall d w, loaded (goto σ i t (Done (Ok a)) (commit (st_store σ) a (t_domain t)) None) d w = _) as Hload
    by (intros d w; apply commit_loaded; [apply Hwf|done..]).
  split_and!; [done|..].
  - intros v6 Hz. destruct (Ho v6 Hz) as [Ho1 Ho2]. split.
    + pose proof (goto_count σ i t (Done (Ok a)) (commit (st_store σ) a (t_domain t)) None (advancedIn v6) Ht) as Hn.
      assert (advancedIn v6 {| t with t_pc := Done (Ok a) |} = advancedIn v6 t) as Heq
        by (rewrite !advancedIn_at; unfold advanced; by rewrite Hpc).
      rewrite Heq in Hn. simpl in Hn. eapply N.le_trans; [exact Ho1|]. simpl.
      change (range_ (commit (st_store σ) a (t_domain t)) v6) with (range_ (st_store σ) v6). lia.
    + intros d b. rewrite Hload. case_bool; [|by apply Ho2]. intros [= <-]. simpl.
      apply andb_prop in Heqb0 as [Hb _]. apply andb_prop in Hb as [_ Hb]. apply eqb_prop in Hb. rewrite Hb, H4.
      change (current_ (commit (st_store σ) a (t_domain t)) (t_isIPv6 t)) with (current_ (st_store σ) (t_isIPv6 t)). by rewrite Hcur.
  - intros j u b Hu Hpb. apply goto_lookup in Hu as [(-> & Hdom & H6 & Hpu)|(Hne & Hu)]; [congruence| |done].
    destruct (Hco _ _ _ Hu Hpb). congruence.
  - intros j u b Hu Hpb Hacc. rewrite Hload. apply goto_lookup in Hu as [(-> & Hdom & H6 & Hpu)|(Hne & Hu)]; [| |done].
    + rewrite Hpu in Hpb. injection Hpb as <-. by rewrite <- Hdom, Hacc, H6, H4, eqb_reflx, bool_decide_true.
    + case_bool; [|by eapply Hd]. apply andb_prop in Heqb0 as [Hb Hdd]. apply andb_prop in Hb as [_ Hb].
      apply bool_decide_eq_true in Hdd. apply eqb_prop in Hb. specialize (Hd _ _ _ Hu Hpb Hacc). congruence.
  - by apply goto_fits.
Qed.

(** A step of a call, no reset. *)
Definition run (σ σ' : state) : Prop := exists i, step σ (Run i) σ'.

Lemma run_unique (σ σ' : state) : unique_ok σ -> run σ σ' -> unique_ok σ'.
Proof.
  intros Hu [j Hstep]. pose proof (step_ok _ _ _ (proj1 Hu) Hstep) as Hs'.
  inversion Hstep as [i t a Ht Hp Hl|i t Ht Hp Hl|i t a Ht Hp Hlk Hl|i t a s Ht Hp Hlk Hl Hch|i t e Ht Hp Hlk Hl Hch|i t a Ht Hp|];
    subst.
  - apply goto_unique; try done; [by unfold advanced; rewrite Hp|]. by intros b [= <-].
  - apply goto_unique; try done. by unfold advanced; rewrite Hp.
  - rewrite <- Hlk in Hs' |- *. apply goto_unique; try done; [by unfold advanced; rewrite Hp|]. by intros b [= <-].
  - by apply choose_unique.
  - rewrite <- Hlk in Hs' |- *. apply goto_unique; try done. by unfold advanced; rewrite Hp.
  - by apply commit_unique.
Qed.

Lemma run_domains (P : string -> Prop) (σ σ' : state) :
  rtc run σ σ' -> Forall (fun t => P (t_domain t)) (st_threads σ) -> Forall (fun t => P (t_domain t)) (st_threads σ').
Proof.
  induction 1 as [|σ1 σ2 σ3 [i Hs] _ IH]; [done|]. intros HP. apply IH. clear IH.
  inversion Hs; subst; simpl; apply Forall_insert; try done; simpl;
    rewrite Forall_lookup in HP; by eapply HP.
Qed.

Lemma initial_unique σ :
  store_wf (st_store σ) -> empty_view (storage (st_store σ)) -> initial σ -> fits σ ->
  (forall v6, current_ (st_store σ) v6 = AddrZero \/
              value (current_ (st_store σ) v6) = value (ip (range_ (st_store σ) v6)) + 1) ->
  unique_ok σ.
Proof.
  intros Hwf [He1 He2] Hi Hf Hcur. pose proof (initial_ok _ Hwf Hi) as Hok. destruct Hi as [Hlk Hb].
  rewrite Forall_lookup in Hb. split_and!; try done.
  - intros v6 Hz. destruct (Hcur v6) as [?|Hv]; [done|]. rewrite Hv. split; [lia|]. intros d a. by rewrite He2.
  - intros i t a Ht Hp. apply Hb in Ht. congruence.
  - intros i t a Ht Hp. apply Hb in Ht. congruence.
Qed.

Lemma Start_position range4 range6 st st' (v6 : bool) :
  loadMetadata st = (None, st') -> range_ok (if v6 then range6 else range4) v6 ->
  range_ (Start range4 range6 st) v6 = (if v6 then range6 else range4) /\
  (current_ (Start range4 range6 st) v6 = AddrZero \/
   value (current_ (Start range4 range6 st) v6) = value (ip (if v6 then range6 else range4)) + 1).
Proof.
  intros Hm Hr. unfold Start. rewrite Hm. split; [by destruct v6|]. destruct Hr as [Hr|(Hr & _)].
  - left. unfold current_, startAddress. by destruct v6; simpl; rewrite Hr.
  - right. pose proof Hr as [(_ & _ & Hi & _) _]. unfold current_. destruct v6; simpl;
      rewrite startAddress_value by done; by apply value_withValue.
Qed.

(** Concurrent calls agree.  As long as a range has an address for every call,
    finished calls for one domain have the same address, finished calls for different
    domains have different addresses, and each address resolves to its domain. *)
Theorem fakeip_calls_agree range4 range6 st st' threads σ :
  loadMetadata st = (None, st') -> storage_ok st' -> (FakeIPReset st').2 = None ->
  range_ok range4 false -> range_ok range6 true ->
  Forall (fun t => t_pc t = Begin /\ acceptable (t_domain t) = true) threads ->
  N.of_nat (count (inFamily false) threads) <= capacity range4 ->
  N.of_nat (count (inFamily true) threads) <= capacity range6 ->
  rtc run (mkState (Start range4 range6 st) None threads) σ ->
  forall i j t u a b,
    st_threads σ !! i = Some t -> t_pc t = Done (Ok a) ->
    st_threads σ !! j = Some u -> t_pc u = Done (Ok b) -> t_isIPv6 t = t_isIPv6 u ->
    Lookup (st_store σ) a = Some (t_domain t) /\ (t_domain t = t_domain u <-> a = b).
Proof.
  intros Hm Hok Hr H4 H6 Ht Hc4 Hc6 Hsteps. destruct (Start_wf _ _ _ _ Hm Hok Hr H4 H6) as [Hwf Hempty].
  pose proof (Start_position range4 range6 st st' false Hm H4) as [R4 P4].
  pose proof (Start_position range4 range6 st st' true Hm H6) as [R6 P6].
  assert (unique_ok (mkState (Start range4 range6 st) None threads)) as Hu.
  { apply initial_unique; try done.
    - split; [done|]. eapply Forall_impl; [|exact Ht]. by intros t [].
    - intros [] _; cbn [st_store st_threads]; by rewrite ?R4, ?R6.
    - intros []; cbn [st_store]; by rewrite ?R4, ?R6. }
  assert (Forall (fun t => acceptable (t_domain t) = true) (st_threads σ)) as Hacc.
  { apply (run_domains (fun d => acceptable d = true) _ _ Hsteps). eapply Forall_impl; [|exact Ht]. by intros t []. }
  assert (unique_ok σ) as (Hs & Ho & Hc & Hd & Hf).
  { clear -Hu Hsteps. induction Hsteps as [|σ1 σ2 σ3 Hs _ IH]; [done|]. apply IH. by eapply run_unique. }
  rewrite Forall_lookup in Hacc. intros i j t u a b Hi Hpi Hj Hpj Hfam.
  pose proof (Hd _ _ _ Hi Hpi (Hacc _ _ Hi)) as Ha. pose proof (Hd _ _ _ Hj Hpj (Hacc _ _ Hj)) as Hb.
  destruct Hs as ((_ & [C1 _] & _) & _). apply C1 in Ha as Ha'. apply C1 in Hb as Hb'.
  destruct Ha' as (_ & _ & La). destruct Hb' as (_ & _ & Lb). split; [done|]. split; intros; congruence.
Qed.

(** *** Every call returns *)

Definition remaining (t : thread) : nat :=
  match t_pc t with Begin => 3 | Missed => 2 | Chosen _ => 1 | Done _ => 0 end.
Definition total (l : list thread) : nat := sum_list_with remaining l.

Lemma total_insert l i (t u : thread) :
  l !! i = Some t -> (total (<[i:=u]> l) + remaining t = total l + remaining u)%nat.
Proof.
  intros Hi. pose proof (lookup_lt_Some _ _ _ Hi) as Hlt. unfold total. rewrite insert_take_drop by done.
  rewrite <- (take_drop_middle l i t) at 3 by done. rewrite !sum_list_with_app. simpl. lia.
Qed.

Lemma run_total (σ σ' : state) : run σ σ' -> (total (st_threads σ') < total (st_threads σ))%nat.
Proof.
  intros [j Hs].
  inversion Hs as [i t a Ht Hp|i t Ht Hp|i t a Ht Hp|i t a s Ht Hp|i t e Ht Hp|i t a Ht Hp|]; subst; simpl;
    match goal with |- context [ {| t with t_pc := ?p |} ] => pose proof (total_insert _ _ _ {| t with t_pc := p |} Ht) as Hn end;
    unfold remaining in Hn; rewrite Hp in Hn; simpl in Hn; lia.
Qed.

(** The lock is held by a call that has chosen its address. *)
Definition lock_held (σ : state) : Prop :=
  forall i, st_lock σ = Some i -> exists t a, st_threads σ !! i = Some t /\ t_pc t = Chosen a.

Lemma step_lock (σ σ' : state) e : lock_held σ -> step σ e σ' -> lock_held σ'.
Proof.
  intros Hl Hs j Hj. destruct Hs as [i t a Ht Hp|i t Ht Hp|i t a Ht Hp|i t a s Ht Hp|i t e Ht Hp|i t a Ht Hp|]; simpl in *; try done.
  - destruct (Hl _ Hj) as (u & b & Hu & Hpu). exists u, b. split; [|done]. rewrite list_lookup_insert_ne; [done|congruence].
  - destruct (Hl _ Hj) as (u & b & Hu & Hpu). exists u, b. split; [|done]. rewrite list_lookup_insert_ne; [done|congruence].
  - injection Hj as <-. eexists _, a. rewrite list_lookup_insert_eq by (by eapply lookup_lt_Some). done.
  - by apply Hl.
Qed.

Lemma unfinished_moves (σ : state) i t :
  lock_held σ -> st_threads σ !! i = Some t -> (forall r, t_pc t <> Done r) -> exists σ', run σ σ'.
Proof.
  intros Hl Ht Hd. destruct (st_lock σ) as [j|] eqn:Hlk.
  { destruct (Hl _ Hlk) as (u & a & Hu & Hp). eexists _, j. by eapply step_commit. }
  destruct (loaded σ (t_domain t) (t_isIPv6 t)) as [a|] eqn:Hld.
  - destruct (t_pc t) eqn:Hp; [| | |by destruct (Hd outcome)]; eexists _, i;
      [by eapply step_hit|by eapply step_recheck_hit|by eapply step_commit].
  - destruct (t_pc t) eqn:Hp; [| | |by destruct (Hd outcome)].
    + eexists _, i. by eapply step_miss.
    + destruct (choose (st_store σ) (t_isIPv6 t)) as [[a s]|e|msg] eqn:Hch; [eexists _, i; by eapply step_choose|
        eexists _, i; by eapply step_choose_err|]. rewrite choose_spec in Hch. by destruct (IsValid _).
    + eexists _, i. by eapply step_commit.
Qed.

(** Every call of [Create] returns.  From any state that calls and resets can
    reach, the calls make at most three moves each, and they stop moving only when
    all of them have returned: no schedule deadlocks or runs forever. *)
Theorem fakeip_calls_finish (s : Store St) threads σ :
  Forall (fun t => t_pc t = Begin) threads ->
  steps (mkState s None threads) σ ->
  (forall n σ', nsteps run n σ σ' -> (n <= 3 * length threads)%nat) /\
  ((forall σ', ~ run σ σ') -> Forall (fun t => exists r, t_pc t = Done r) (st_threads σ)).
Proof.
  intros Hb Hsteps.
  assert (lock_held σ /\ length (st_threads σ) = length threads) as [Hl Hlen].
  { assert (lock_held (mkState s None threads)) as H0' by done. revert H0'.
    change (length threads) with (length (st_threads (mkState s None threads))). clear Hb.
    induction Hsteps as [|σ1 σ2 σ3 [e He] _ IH]; [done|]. intros Hl. destruct IH as [IH1 IH2]; [by eapply step_lock|].
    split; [done|]. rewrite IH2. destruct He; simpl; try done; apply length_insert. }
  split.
  - intros n σ' Hn. assert (n + total (st_threads σ') <= total (st_threads σ))%nat as Hle.
    { clear Hsteps Hl Hlen. induction Hn as [|n σ1 σ2 σ3 Hr _ IH]; [lia|]. apply run_total in Hr. lia. }
    assert (forall l, (total l <= 3 * length l)%nat) as Ht.
    { induction l as [|[d v p] l IH]; [done|]. unfold total, remaining in *. destruct p; simpl in *; lia. }
    specialize (Ht (st_threads σ)). lia.
  - intros Hstuck. rewrite Forall_lookup. intros i t Ht. destruct (t_pc t) eqn:Hp; [..|by eexists];
      destruct (unfinished_moves σ i t Hl Ht) as [σ' Hr]; try (by rewrite Hp); by destruct (Hstuck σ').
Qed.

(** *** How long a domain keeps its address *)

Lemma ring_next (range : Prefix) (v : N) (k : N) :
  roomy range -> first range <= v < end_ range ->
  (if first range + (v - first range + k) mod capacity range + 1 =? end_ range then first range
   else first range + (v - first range + k) mod capacity range + 1)
  = first range + (v - first range + (k + 1)) mod capacity range.
Proof.
  intros [_ Hlt] Hv. unfold capacity in *. set (n := end_ range - first range) in *.
  assert (n <> 0) as Hn by lia. pose proof (N.mod_lt (v - first range + k) n Hn) as Hm.
  rewrite N.add_assoc, <- (N.Div0.add_mod_idemp_l _ 1 n). destruct (N.eqb_spec (first range + (v - first range + k) mod n + 1) (end_ range)) as [He|He].
  - replace ((v - first range + k) mod n + 1) with n by lia. rewrite N.Div0.mod_same. lia.
  - rewrite (N.mod_small (_ + 1)) by lia. lia.
Qed.

(** The store after calls of [Create], one after the other. *)
Definition creates (s : Store St) (calls : list (string * bool)) : Store St :=
  fold_left (fun s call => (Create s call.1 call.2).2) calls s.

(** The domain has its address and the current one is at most [k] steps ahead. *)
Definition keeps_address s d (v6 : bool) a (range : Prefix) (k : N) : Prop :=
  store_wf s /\ range_ s v6 = range /\ FakeIPLoadDomain (storage s) d v6 = Some a /\
  exists j, j <= k /\ value (current_ s v6) = first range + (value a - first range + j) mod capacity range.

Lemma Create_other_family s d v6 e :
  store_wf s -> range_ (Create s e (negb v6)).2 v6 = range_ s v6 /\
  current_ (Create s e (negb v6)).2 v6 = current_ s v6 /\
  FakeIPLoadDomain (storage (Create s e (negb v6)).2) d v6 = FakeIPLoadDomain (storage s) d v6.
Proof.
  intros Hwf. unfold Create. destruct (FakeIPLoadDomain (storage s) e (negb v6)) eqn:Hl; [done|].
  destruct (choose s (negb v6)) as [[b s1]| |] eqn:Hch; [|done..].
  destruct (choose_wf _ _ _ _ Hwf Hch) as (Hwf1 & Est & Er & _ & _ & Ec & _ & Had & H4 & _).
  rewrite negb_involutive in Ec. split_and!; [apply Er|exact Ec|]. cbn [snd]. rewrite <- Est.
  destruct Hwf1 as (Hok & _). pose proof (store_ok _ _ e Hok Had) as Hok'. unfold commit. simpl.
  destruct (async_view _ (storeMetadata s1) Hok') as [_ ->]. destruct (acceptable e) eqn:He.
  - rewrite store_loadDomain, H4 by done. by destruct v6.
  - by destruct (store_refused (storage s1) b e Hok He) as [_ ->].
Qed.

Lemma Create_keeps s d v6 a range k e :
  roomy range -> in_ring range a -> k + 1 < capacity range ->
  keeps_address s d v6 a range k -> keeps_address (Create s e v6).2 d v6 a range (k + 1).
Proof.
  intros Hr [_ Ha] Hk (Hwf & Er & Hl & j & Hj & Hc). destruct (Create s e v6) as [res s'] eqn:Hcr.
  destruct (Create_wf _ _ _ _ _ Hwf Hcr) as (Hwf' & _). unfold Create in Hcr. simpl.
  destruct (FakeIPLoadDomain (storage s) e v6) eqn:Hle.
  { injection Hcr as <- <-. split_and!; try done. exists j. split; [lia|done]. }
  destruct (choose s v6) as [[b s1]|err|] eqn:Hch; injection Hcr as <- <-;
    [|split_and!; try done; exists j; split; [lia|done]..].
  destruct (choose_wf _ _ _ _ Hwf Hch) as (Hwf1 & Est & Er1 & _ & Ec & _ & _ & Had & H4 & Hv).
  rewrite Er, Hc, ring_next in Hv by done.
  assert (value b <> value a) as Hba.
  { rewrite Hv. unfold capacity in *. set (n := end_ range - first range) in *. intros Heq.
    assert ((value a - first range + (j + 1)) mod n = value a - first range) as Hm by lia.
    destruct (N.lt_ge_cases (value a - first range + (j + 1)) n).
    - rewrite N.mod_small in Hm by done. lia.
    - rewrite <- (N.mod_unique _ n 1 (value a - first range + (j + 1) - n)) in Hm by lia. lia. }
  split_and!; [done|by rewrite <- Er, <- Er1| |].
  - destruct Hwf1 as (Hok & [C1 _] & _). pose proof (store_ok _ _ e Hok Had) as Hok'. unfold commit. simpl.
    destruct (async_view _ (storeMetadata s1) Hok') as [_ ->]. destruct (acceptable e) eqn:He.
    + rewrite store_loadDomain, H4, eqb_reflx, Est by done. rewrite decide_False by congruence.
      rewrite decide_False; [done|]. intros Hb. destruct Hwf as (_ & [_ C2] & _). apply C2 in Hb; [|done]. congruence.
    + destruct (store_refused (storage s1) b e Hok He) as [_ ->]. by rewrite Est.
  - exists (j + 1). split; [lia|]. assert (current_ (commit s1 b e) v6 = b) as -> by (by destruct v6). done.
Qed.

Definition sameFamily (v6 : bool) (calls : list (string * bool)) : nat :=
  length (List.filter (fun call => Bool.eqb call.2 v6) calls).

Lemma creates_keep calls s d v6 a range k :
  roomy range -> in_ring range a -> k + N.of_nat (sameFamily v6 calls) < capacity range ->
  keeps_address s d v6 a range k ->
  keeps_address (creates s calls) d v6 a range (k + N.of_nat (sameFamily v6 calls)).
Proof.
  intros Hr Ha. revert s k. induction calls as [|[e w] calls IH]; intros s k Hk Hs; [by rewrite N.add_0_r|].
  unfold creates, sameFamily in *. simpl in *. destruct (Bool.eqb_spec w v6) as [->|Hw]; simpl in *.
  - replace (k + _) with (k + 1 + N.of_nat (length (List.filter (fun call => Bool.eqb call.2 v6) calls))) by lia.
    apply IH; [lia|]. apply Create_keeps; try done. lia.
  - apply IH; [done|]. assert (w = negb v6) as -> by (by destruct w, v6). destruct Hs as (Hwf & Er & Hl & Hc).
    destruct (Create_other_family s d v6 e Hwf) as (E1 & E2 & E3).
    destruct (Create s e (negb v6)) as [res s'] eqn:Hcr. simpl in *. split_and!; [by eapply Create_wf|congruence..|by rewrite E2].
Qed.

Lemma creates_keep_address s d v6 a s1 calls :
  store_wf s -> acceptable d = true -> FakeIPLoadDomain (storage s) d v6 = None ->
  Create s d v6 = (Ok a, s1) ->
  N.of_nat (sameFamily v6 calls) < capacity (range_ s v6) ->
  Create (creates s1 calls) d v6 = (Ok a, creates s1 calls) /\
  Lookup (creates s1 calls) a = Some d /\ Contains (creates s1 calls) a = true.
Proof.
  intros Hwf Hacc Hnew Hcr Hn. destruct (Create_wf _ _ _ _ _ Hwf Hcr) as (Hwf1 & Hin & _).
  specialize (Hin a eq_refl). unfold Create in Hcr. rewrite Hnew in Hcr.
  destruct (choose s v6) as [[b s']|e|] eqn:Hch; [|done..]. injection Hcr as -> <-.
  destruct (choose_wf _ _ _ _ Hwf Hch) as (Hwf' & Est & Er & _ & Ec & _ & _ & Had & H4 & Hv).
  assert (roomy (range_ s v6)) as Hr.
  { destruct Hwf as (_ & _ & _ & Hf). destruct (Hf v6) as [Hz|[Hr _]]; [|done]. rewrite choose_spec, Hz in Hch. done. }
  assert (keeps_address (commit s' a d) d v6 a (range_ s v6) 0) as Hk.
  { split_and!; [done|by rewrite <- Er| |].
    - destruct Hwf' as (Hok & _). pose proof (store_ok _ _ d Hok Had) as Hok'. unfold commit. simpl.
      destruct (async_view _ (storeMetadata s') Hok') as [_ ->]. rewrite store_loadDomain, H4, eqb_reflx by done.
      by rewrite decide_True.
    - exists 0. split; [done|]. assert (current_ (commit s' a d) v6 = a) as -> by (by destruct v6). destruct Hin as [_ Hin].
      unfold capacity. rewrite N.add_0_r, N.mod_small by lia. lia. }
  apply (creates_keep calls) in Hk as (Hwf2 & Er2 & Hl & j & Hj & Hc); [|done..].
  split_and!.
  - unfold Create. by rewrite Hl.
  - destruct Hwf2 as (_ & [C1 _] & _). by destruct (C1 _ _ _ Hl) as (_ & _ & ?).
  - apply (ring_family _ v6); [done|by rewrite Er2|]. intros Hz. rewrite Hz in Hc.
    revert Hc. unfold first at 1. generalize ((value a - first (range_ s v6) + j) mod capacity (range_ s v6)). simpl. lia.
Qed.

(** A domain keeps its address until the whole range has been handed out.  After
    a domain got an address, any sequence of calls with fewer new addresses in its
    family than the range has leaves the domain and the address mapped to each other. *)
Theorem fakeip_address_lifetime s d v6 a s1 calls :
  store_wf s -> acceptable d = true -> FakeIPLoadDomain (storage s) d v6 = None ->
  Create s d v6 = (Ok a, s1) ->
  N.of_nat (sameFamily v6 calls) < capacity (range_ s v6) ->
  Create (creates s1 calls) d v6 = (Ok a, creates s1 calls) /\
  Lookup (creates s1 calls) a = Some d /\ Contains (creates s1 calls) a = true.
Proof. apply creates_keep_address. Qed.

End Laws.

(** ** Samples *)

(** 198.18.0.0/29, with the addresses .2 to .6 to hand out, and no IPv6. *)
Definition sample_range : Prefix := mkPrefix (Addr4 3323068416) 30.

Lemma sample_roomy : roomy sample_range.
Proof. split; [|done]. by split_and!. Qed.

Lemma sample_range_ok : range_ok (St := MemoryStorage) sample_range false /\ range_ok (St := MemoryStorage) PrefixZero true.
Proof. split; [right|by left]. split; [apply sample_roomy|done]. Qed.

Abbreviation sample_store := (Start sample_range PrefixZero NewMemoryStorage).

Lemma sample_store_wf : store_wf sample_store.
Proof. by eapply Start_wf; [..|apply sample_range_ok|apply sample_range_ok]. Qed.

(** Two calls for one domain. *)
Definition sample_threads : list thread := [mkThread "a" false Begin; mkThread "a" false Begin].

Definition sample_run : relation (FakeIP.state (St := MemoryStorage)) := run.

Ltac advance_call i := eapply rtc_l; [exists i; first
  [ eapply step_hit; reflexivity | eapply step_miss; reflexivity
  | eapply step_recheck_hit; reflexivity | eapply step_choose; reflexivity | eapply step_commit; reflexivity ] |].

(** Both calls miss the domain before either chooses. *)
Lemma sample_steps : exists σ, rtc sample_run (mkState sample_store None sample_threads) σ /\
  map t_pc (st_threads σ)
  = [Done (Ok (Addr4 3323068418)); Done (Ok (Addr4 3323068418))].
Proof.
  eexists. split; [|].
  - advance_call 0%nat. advance_call 1%nat. advance_call 1%nat. advance_call 1%nat. advance_call 0%nat. apply rtc_refl.
  - reflexivity.
Qed.

Lemma run_steps (σ σ' : FakeIP.state (St := MemoryStorage)) : rtc sample_run σ σ' -> steps σ σ'.
Proof. apply rtc_subrel. intros ? ? [i Hi]. by eexists. Qed.

Lemma pcs_lookup (l : list thread) i p : map t_pc l !! i = Some p -> exists t, l !! i = Some t /\ t_pc t = p.
Proof. rewrite list_lookup_fmap. destruct (l !! i) as [t|]; [|done]. intros [= <-]. by exists t. Qed.

Lemma fakeip_mappings_consistent_witness : exists σ,
  rtc sample_run (mkState sample_store None sample_threads) σ /\
  exists t, st_threads σ !! 0%nat = Some t /\ t_pc t = Done (Ok (Addr4 3323068418)) /\
  in_ring (if t_isIPv6 t then PrefixZero else sample_range) (Addr4 3323068418).
Proof.
  destruct sample_steps as (σ & Hr & Hp). exists σ. split; [done|].
  destruct (pcs_lookup (st_threads σ) 0 (Done (Ok (Addr4 3323068418)))) as (t & Ht & Hd); [by rewrite Hp|].
  exists t. split; [done|]. split; [done|].
  eapply (fakeip_mappings_consistent sample_range PrefixZero NewMemoryStorage sample_threads σ);
    [split; [done|right; done]|apply sample_range_ok|apply sample_range_ok|by repeat constructor|by apply run_steps|done|done].
Defined.

Lemma fakeip_calls_agree_witness : exists σ t u,
  rtc sample_run (mkState sample_store None sample_threads) σ /\
  st_threads σ !! 0%nat = Some t /\ st_threads σ !! 1%nat = Some u /\
  (t_isIPv6 t = t_isIPv6 u ->
   Lookup (st_store σ) (Addr4 3323068418) = Some (t_domain t) /\
   (t_domain t = t_domain u <-> Addr4 3323068418 = Addr4 3323068418)).
Proof.
  destruct sample_steps as (σ & Hr & Hp).
  destruct (pcs_lookup (st_threads σ) 0 (Done (Ok (Addr4 3323068418)))) as (t & Ht & Hdt); [by rewrite Hp|].
  destruct (pcs_lookup (st_threads σ) 1 (Done (Ok (Addr4 3323068418)))) as (u & Hu & Hdu); [by rewrite Hp|].
  exists σ, t, u. split_and!; [done..|]. intros Hf.
  by eapply (fakeip_calls_agree sample_range PrefixZero NewMemoryStorage NewMemoryStorage sample_threads σ);
    [done|done|done|apply sample_range_ok|apply sample_range_ok|by repeat constructor|done|done|done|done|done|done|done|done].
Defined.

Lemma fakeip_calls_finish_witness : exists σ,
  rtc sample_run (mkState sample_store None sample_threads) σ /\
  ((forall σ', ~ sample_run σ σ') -> Forall (fun t => exists r, t_pc t = Done r) (st_threads σ)).
Proof.
  destruct sample_steps as (σ & Hr & Hp). exists σ. split; [done|].
  apply (fakeip_calls_finish sample_store sample_threads σ); [by repeat constructor|by apply run_steps].
Defined.

Lemma fakeip_address_lifetime_witness :
  let s1 := (Create sample_store "a" false).2 in
  let s2 := creates s1 [("b", false); ("c", false); ("a", true); ("d", false)] in
  Create s2 "a" false = (Ok (Addr4 3323068418), s2) /\
  Lookup s2 (Addr4 3323068418) = Some "a" /\ Contains s2 (Addr4 3323068418) = true.
Proof.
  apply (fakeip_address_lifetime sample_store "a" false (Addr4 3323068418)); [apply sample_store_wf|done..].
Defined.

(** ** The router *)

Section Routed.
Context {St : Type} `{FakeIPStorageLaws St}.

(** C27: connections to fake addresses reach their domain.  A client asks for a domain that has no address and connects to
    the address it gets, after any calls that ask for fewer addresses of its family than the range has, and no reset: it
    is routed with the domain as destination, the same port, and the address kept as original destination. *)
Theorem fakeip_domain_routed (env : Route.Env) (s : FakeIP.Store St) d v6 a s1 calls (md : InboundContext) :
  store_wf s -> acceptable d = true -> d <> "" -> FakeIP.FakeIPLoadDomain (FakeIP.storage s) d v6 = None ->
  FakeIP.Create s d v6 = (Ok a, s1) ->
  N.of_nat (sameFamily v6 calls) < capacity (range_ s v6) ->
  Route.FakeIPStore env = Some (FakeIP.Contains (creates s1 calls), FakeIP.Lookup (creates s1 calls)) ->
  Addr_ (Destination md) = a ->
  Route.lookupFakeIP env md
  = Ok {| md with OriginDestination := Destination md;
                  Destination := mkSocksaddr AddrZero (Port (Destination md)) d;
                  FakeIP := true |}.
Proof.
  intros Hwf Hacc Hne Hnew Hcr Hn Henv Ha.
  destruct (creates_keep_address s d v6 a s1 calls Hwf Hacc Hnew Hcr Hn) as (_ & Hl & Hc).
  assert (IsValid a = true) as Hv.
  { assert (forall p, prefix_Contains p AddrZero = false) as Hz.
    { intros p. unfold prefix_Contains. destruct (_ || _); [done|]. by rewrite orb_true_r. }
    destruct a; [|done..]. unfold FakeIP.Contains in Hc. by rewrite !Hz in Hc. }
  unfold Route.lookupFakeIP. by rewrite Henv, Ha, Hv, Hc, Hl, bool_decide_false.
Qed.

End Routed.


#[local] Existing Instance FakeIP.MemoryStorage_FakeIPStorage.

Definition sample_after : FakeIP.Store FakeIP.MemoryStorage :=
  creates (FakeIP.Create sample_store "a" false).2 [("b", false)].
Definition fakeEnv : Route.Env :=
  {| sampleEnv with Route.FakeIPStore := Some (FakeIP.Contains sample_after, FakeIP.Lookup sample_after) |}.
Definition fakeConnection : InboundContext :=
  let md := InboundContextZero in {| md with Destination := mkSocksaddr (Addr4 3323068418) 443 "" |}.

Lemma fakeip_domain_routed_witness :
  match Route.lookupFakeIP fakeEnv fakeConnection with
  | Ok md => Destination md = mkSocksaddr AddrZero 443 "a"
  | _ => False
  end.
Proof.
  by rewrite (fakeip_domain_routed fakeEnv sample_store "a" false (Addr4 3323068418)
    (FakeIP.Create sample_store "a" false).2 [("b", false)] fakeConnection sample_store_wf eq_refl
    (ltac:(done)) eq_refl eq_refl (ltac:(done)) eq_refl eq_refl).
Defined.
