(* ===== verification/FakeIPCache.v ===== *)
(** * FakeIP in the cache file (src/experimental/cachefile/fakeip.go, src/adapter/fakeip_metadata.go)

    The cache file keeps the mappings in three buckets of a bbolt database and the
    position of the store under a key of the first.  The database is the class
    [Bolt], with what its documentation says of transactions and buckets as
    [BoltLaws]. *)

From S2P Require Import Prelude GoStd Binary FakeIP FakeIPTheorems.
From Stdlib Require Import Strings.Byte.
Import netip FakeIP.

Open Scope N_scope.

Module FakeIPCache.

(** ** The binary form of the position *)

(** [netip.Addr.MarshalBinary] and [UnmarshalBinary]. *)
Definition addr_MarshalBinary (a : Addr) : list byte :=
  match a with
  | AddrZero => []
  | Addr4 v => be_encode 4 v
  | Addr6 v zone => be_encode 16 v ++ bytes_of_string zone
  end.

Definition addr_UnmarshalBinary (b : list byte) : result Addr :=
  let n := length b in
  if (n =? 0)%nat then Ok AddrZero
  else if (n =? 4)%nat then Ok (Addr4 (be_decode b))
  else if (16 <=? n)%nat then Ok (Addr6 (be_decode (take 16 b)) (string_of_bytes (drop 16 b)))
  else Err (ErrExternal "unexpected slice size").

(** [netip.Prefix.MarshalBinary] and [UnmarshalBinary]: the address without zone and
    a byte with the number of bits. *)
Definition prefix_MarshalBinary (p : Prefix) : list byte :=
  addr_MarshalBinary (withoutZone (ip p)) ++ [byte_of_N (Z.to_N (Bits p mod 256))].

Definition prefix_UnmarshalBinary (b : list byte) : result Prefix :=
  match rev b with
  | [] => Err (ErrExternal "unexpected slice size")
  | bits :: rest => addr ← addr_UnmarshalBinary (rev rest); Ok (PrefixFrom addr (Z.of_N (Byte.to_N bits)))
  end.

(** Each element is preceded by its length in two bytes. *)
Definition lengthPrefixed (data : list byte) : list byte :=
  be_encode 2 (N.of_nat (length data) mod 2 ^ 16) ++ data.

Definition metadata_MarshalBinary (m : FakeIPMetadata) : list byte :=
  lengthPrefixed (prefix_MarshalBinary (md_Inet4Range m))
  ++ lengthPrefixed (prefix_MarshalBinary (md_Inet6Range m))
  ++ lengthPrefixed (addr_MarshalBinary (md_Inet4Current m))
  ++ lengthPrefixed (addr_MarshalBinary (md_Inet6Current m)).

(** [common.Must] panics when the length cannot be read. *)
Definition readElement {A} (unmarshal : list byte -> result A) : Reader A := fun reader =>
  match ReadFull 2 reader with
  | Some (Ok (length_, reader)) =>
      match ReadFull (be_decode length_) reader with
      | Some (Ok (element, reader)) =>
          match unmarshal element with
          | Ok a => Some (Ok (a, reader))
          | Err e => Some (Err e)
          | Panic msg => Some (Panic msg)
          end
      | Some (Err e) => Some (Err e)
      | Some (Panic msg) => Some (Panic msg)
      | None => None
      end
  | Some (Err _) => Some (Panic "common.Must")
  | Some (Panic msg) => Some (Panic msg)
  | None => None
  end.

Definition metadata_UnmarshalBinary : Reader FakeIPMetadata :=
  range4 ← readElement prefix_UnmarshalBinary;
  range6 ← readElement prefix_UnmarshalBinary;
  current4 ← readElement addr_UnmarshalBinary;
  current6 ← readElement addr_UnmarshalBinary;
  mret (mkFakeIPMetadata range4 range6 current4 current6).

(** ** The database *)

(** A transaction works on the buckets of the database; [Get] is [None] when the
    key or the bucket is missing. *)
Class Bolt (DB : Type) : Type := {
  hasBucket : DB -> string -> bool;
  Get : DB -> string -> list byte -> option (list byte);
  CreateBucketIfNotExists : DB -> string -> result DB;
  Put : DB -> string -> list byte -> list byte -> result DB;
  Delete : DB -> string -> list byte -> result DB;
  DeleteBucket : DB -> string -> result DB;
  (* the database after the file was removed and opened again *)
  reopen : DB -> DB;
}.

Definition bucketFakeIP : string := "fakeip_address".
Definition bucketFakeIPDomain4 : string := "fakeip_domain4".
Definition bucketFakeIPDomain6 : string := "fakeip_domain6".
Definition keyMetadata : list byte := bytes_of_string "fakeip_metadata".

Record CacheFile (DB : Type) : Type := mkCacheFile {
  DB_ : DB;
  saveMetadataTimer : option FakeIPMetadata;
  saveDomain : gmap Addr string;
  saveAddress4 : gmap string Addr;
  saveAddress6 : gmap string Addr;
}.
Arguments mkCacheFile {DB}.
Arguments DB_ {DB}.
Arguments saveMetadataTimer {DB}.
Arguments saveDomain {DB}.
Arguments saveAddress4 {DB}.
Arguments saveAddress6 {DB}.

Section CacheFile.
Context {DB : Type} `{Bolt DB} (M_AddrFromIP : list byte -> Addr).

(** [batch]: an error rolls the transaction back, a panic in it resets the database. *)
Definition batch {A} (c : CacheFile DB) (fn : DB -> result (A * DB)) : option A * CacheFile DB * option error :=
  match fn (DB_ c) with
  | Ok (a, db) => (Some a, {| c with DB_ := db |}, None)
  | Err e => (None, c, Some e)
  | Panic msg => (None, {| c with DB_ := reopen (DB_ c) |}, Some (E_New ["database corrupted: "; msg]))
  end.

Definition cache_FakeIPMetadata (c : CacheFile DB) : option FakeIPMetadata * CacheFile DB :=
  (batch c (fun tx =>
     if negb (hasBucket tx bucketFakeIP) then Err (ErrExternal "os.ErrNotExist")
     else
       let metadataBinary := default [] (Get tx bucketFakeIP keyMetadata) in
       if (length metadataBinary =? 0)%nat then Err ErrInvalid
       else
         tx ← Delete tx bucketFakeIP keyMetadata;
         match metadata_UnmarshalBinary metadataBinary with
         | Some (Ok (m, _)) => Ok (m, tx)
         | Some (Err e) => Err e
         | Some (Panic msg) => Panic msg
         | None => Panic "out of fuel"
         end)).1.

Definition cache_FakeIPSaveMetadata (c : CacheFile DB) (m : FakeIPMetadata) : CacheFile DB * option error :=
  let '(_, c, err) := batch c (fun tx =>
    tx ← CreateBucketIfNotExists tx bucketFakeIP;
    tx ← Put tx bucketFakeIP keyMetadata (metadata_MarshalBinary m);
    Ok (tt, tx)) in (c, err).

(** The timer runs a function that captured the metadata of the first call. *)
Definition cache_FakeIPSaveMetadataAsync (c : CacheFile DB) (m : FakeIPMetadata) : CacheFile DB :=
  match saveMetadataTimer c with
  | None => {| c with saveMetadataTimer := Some m |}
  | Some _ => c
  end.

Definition timerExpires (c : CacheFile DB) : CacheFile DB :=
  match saveMetadataTimer c with
  | None => c
  | Some m => (cache_FakeIPSaveMetadata c m).1
  end.

Definition domainBucket (isIPv6 : bool) : string :=
  if isIPv6 then bucketFakeIPDomain6 else bucketFakeIPDomain4.

Definition storeTx (address : Addr) (domain : string) (tx : DB) : result DB :=
  tx ← CreateBucketIfNotExists tx bucketFakeIP;
  let oldDomain := Get tx bucketFakeIP (AsSlice address) in
  tx ← Put tx bucketFakeIP (AsSlice address) (bytes_of_string domain);
  let bucket := domainBucket (negb (Is4 address)) in
  tx ← CreateBucketIfNotExists tx bucket;
  tx ← match oldDomain with Some old => Delete tx bucket old | None => Ok tx end;
  Put tx bucket (bytes_of_string domain) (AsSlice address).

Definition cache_FakeIPStore (c : CacheFile DB) (address : Addr) (domain : string) : CacheFile DB * option error :=
  let '(_, c, err) := batch c (fun tx => tx ← storeTx address domain tx; Ok (tt, tx)) in (c, err).

(** The first half of [FakeIPStoreAsync] runs at once, the second in a goroutine. *)
Definition storeAsync_pending (c : CacheFile DB) (address : Addr) (domain : string) : CacheFile DB :=
  let c1 :=
    match saveDomain c !! address with
    | Some oldDomain =>
        if Is4 address then {| c with saveAddress4 := delete oldDomain (saveAddress4 c) |}
        else {| c with saveAddress6 := delete oldDomain (saveAddress6 c) |}
    | None => c
    end in
  let c2 := {| c1 with saveDomain := <[address := domain]> (saveDomain c1) |} in
  if Is4 address then {| c2 with saveAddress4 := <[domain := address]> (saveAddress4 c2) |}
  else {| c2 with saveAddress6 := <[domain := address]> (saveAddress6 c2) |}.

Definition storeAsync_finish (c : CacheFile DB) (address : Addr) (domain : string) : CacheFile DB :=
  let c1 := (cache_FakeIPStore c address domain).1 in
  let c2 := {| c1 with saveDomain := delete address (saveDomain c1) |} in
  if Is4 address then {| c2 with saveAddress4 := delete domain (saveAddress4 c2) |}
  else {| c2 with saveAddress6 := delete domain (saveAddress6 c2) |}.

Definition cache_FakeIPLoad (c : CacheFile DB) (address : Addr) : option string :=
  match saveDomain c !! address with
  | Some cachedDomain => Some cachedDomain
  | None =>
      let domain := string_of_bytes (default [] (Get (DB_ c) bucketFakeIP (AsSlice address))) in
      if bool_decide (domain = "") then None else Some domain
  end.

Definition cache_FakeIPLoadDomain (c : CacheFile DB) (domain : string) (isIPv6 : bool) : option Addr :=
  match (if negb isIPv6 then saveAddress4 c !! domain else saveAddress6 c !! domain) with
  | Some cachedAddress => Some cachedAddress
  | None =>
      if negb (hasBucket (DB_ c) (domainBucket isIPv6)) then None
      else
        let address := M_AddrFromIP (default [] (Get (DB_ c) (domainBucket isIPv6) (bytes_of_string domain))) in
        if IsValid address then Some address else None
  end.

Definition cache_FakeIPReset (c : CacheFile DB) : CacheFile DB * option error :=
  let '(_, c, err) := batch c (fun tx =>
    tx ← DeleteBucket tx bucketFakeIP;
    tx ← DeleteBucket tx bucketFakeIPDomain4;
    tx ← DeleteBucket tx bucketFakeIPDomain6;
    Ok (tt, tx)) in (c, err).

End CacheFile.

Definition CacheFile_FakeIPStorage {DB} `{Bolt DB} (M_AddrFromIP : list byte -> Addr) :
    FakeIPStorage (CacheFile DB) := {|
  loadMetadata := cache_FakeIPMetadata;
  FakeIPSaveMetadata := cache_FakeIPSaveMetadata;
  FakeIPSaveMetadataAsync := cache_FakeIPSaveMetadataAsync;
  FakeIPStore := cache_FakeIPStore;
  FakeIPLoad := cache_FakeIPLoad;
  FakeIPLoadDomain := cache_FakeIPLoadDomain M_AddrFromIP;
  FakeIPReset := cache_FakeIPReset;
|}.

(** ** What bbolt documents *)

(** [MaxKeySize] and [MaxValueSize]. *)
Definition storable (k v : list byte) : bool :=
  (0 <? N.of_nat (length k)) && (N.of_nat (length k) <=? 32768) && (N.of_nat (length v) <=? 2147483646).

Class BoltLaws (DB : Type) `{Bolt DB} : Prop := {
  Get_missing db b k : hasBucket db b = false -> Get db b k = None;
  CreateBucket_law db b : b <> "" ->
    exists db', CreateBucketIfNotExists db b = Ok db' /\
      (forall b', hasBucket db' b' = bool_decide (b' = b) || hasBucket db b') /\
      (forall b' k, Get db' b' k = Get db b' k);
  Put_law db b k v : hasBucket db b = true ->
    if storable k v then
      exists db', Put db b k v = Ok db' /\ (forall b', hasBucket db' b' = hasBucket db b') /\
        (forall b' k', Get db' b' k' = if decide (b' = b /\ k' = k) then Some v else Get db b' k')
    else exists e, Put db b k v = Err e;
  Delete_law db b k : hasBucket db b = true ->
    exists db', Delete db b k = Ok db' /\ (forall b', hasBucket db' b' = hasBucket db b') /\
      (forall b' k', Get db' b' k' = if decide (b' = b /\ k' = k) then None else Get db b' k');
  DeleteBucket_law db b :
    if hasBucket db b then
      exists db', DeleteBucket db b = Ok db' /\
        (forall b', hasBucket db' b' = if decide (b' = b) then false else hasBucket db b') /\
        (forall b' k, b' <> b -> Get db' b' k = Get db b' k)
    else exists e, DeleteBucket db b = Err e;
}.

Section Laws.
Context {DB : Type} `{BoltLaws DB} (M_AddrFromIP : list byte -> Addr).
Hypothesis AddrFromIP_spec : forall l, M_AddrFromIP l = AddrFromSlice l.
Abbreviation cache := (CacheFile DB).
#[local] Instance cacheStorage : FakeIPStorage cache := CacheFile_FakeIPStorage M_AddrFromIP.

(** Nothing is waiting to be saved, and no key is empty. *)
Definition quiet (c : cache) : Prop :=
  saveDomain c = ∅ /\ saveAddress4 c = ∅ /\ saveAddress6 c = ∅ /\
  forall v6, Get (DB_ c) (domainBucket v6) [] = None.

Definition plain (a : Addr) : bool := IsValid a && negb (hasZone a) && (value a <? 2 ^ BitLen a).

Definition accepted (d : string) : bool :=
  (0 <? N.of_nat (String.length d)) && (N.of_nat (String.length d) <=? 32768).

Lemma plain_slice a : plain a = true -> AddrFromSlice (AsSlice a) = a.
Proof.
  intros Hp. apply andb_prop in Hp as [Hp Hv]. apply andb_prop in Hp as [Hi Hz]. apply N.ltb_lt in Hv.
  rewrite AddrFromSlice_AsSlice by done. destruct a as [|v|v zone]; try done. simpl in Hz.
  apply negb_true_iff, negb_false_iff, bool_decide_eq_true in Hz. by subst.
Qed.

Lemma load_quiet (c : cache) a :
  quiet c -> cache_FakeIPLoad c a =
  let d := string_of_bytes (default [] (Get (DB_ c) bucketFakeIP (AsSlice a))) in
  if bool_decide (d = "") then None else Some d.
Proof. intros (Hq & _). unfold cache_FakeIPLoad. by rewrite Hq. Qed.

Lemma loadDomain_quiet (c : cache) d v6 :
  quiet c -> cache_FakeIPLoadDomain M_AddrFromIP c d v6 =
  let a := AddrFromSlice (default [] (Get (DB_ c) (domainBucket v6) (bytes_of_string d))) in
  if IsValid a then Some a else None.
Proof.
  intros (_ & H4 & H6 & _). unfold cache_FakeIPLoadDomain. rewrite H4, H6, AddrFromIP_spec.
  assert ((if negb v6 then (∅ : gmap string Addr) !! d else ∅ !! d) = None) as -> by (by destruct v6).
  destruct (hasBucket _ _) eqn:Hb; [done|]. simpl. by rewrite Get_missing.
Qed.

Lemma domainBucket_ne v6 : domainBucket v6 <> bucketFakeIP /\ domainBucket v6 <> "".
Proof. by destruct v6. Qed.

Lemma slice_length a : plain a = true -> (0 < length (AsSlice a) <= 16)%nat.
Proof. destruct a; [done|..]; intros _; unfold AsSlice; rewrite length_be_encode; lia. Qed.

Lemma storable_addr_domain a d : plain a = true -> accepted d = true ->
  storable (AsSlice a) (bytes_of_string d) = true /\ storable (bytes_of_string d) (AsSlice a) = true.
Proof.
  intros Ha Hd. apply slice_length in Ha. apply andb_prop in Hd as [H1 H2].
  apply N.ltb_lt in H1. apply N.leb_le in H2. unfold storable. rewrite length_bytes_of_string.
  split; rewrite !andb_true_iff, N.ltb_lt, !N.leb_le; lia.
Qed.

(** What a successful store leaves in the database. *)
Lemma storeTx_ok db a d : plain a = true -> accepted d = true ->
  exists db', storeTx a d db = Ok db' /\
    (forall b k, Get db' b k =
       if decide (b = bucketFakeIP /\ k = AsSlice a) then Some (bytes_of_string d)
       else if decide (b = domainBucket (negb (Is4 a)) /\ k = bytes_of_string d) then Some (AsSlice a)
       else if decide (b = domainBucket (negb (Is4 a)) /\ Get db bucketFakeIP (AsSlice a) = Some k) then None
       else Get db b k).
Proof.
  intros Ha Hd. destruct (storable_addr_domain a d Ha Hd) as [S1 S2]. unfold storeTx.
  destruct (CreateBucket_law db bucketFakeIP) as (db1 & E1 & B1 & G1); [done|]. rewrite E1. simpl.
  pose proof (Put_law db1 bucketFakeIP (AsSlice a) (bytes_of_string d)) as P1. rewrite S1 in P1.
  destruct P1 as (db2 & E2 & B2 & G2); [by rewrite B1, bool_decide_true|]. rewrite E2. simpl.
  set (bk := domainBucket (negb (Is4 a))). pose proof (domainBucket_ne (negb (Is4 a))) as [Hne Hne0]. fold bk in Hne, Hne0.
  destruct (CreateBucket_law db2 bk) as (db3 & E3 & B3 & G3); [done|]. rewrite E3. simpl.
  assert (exists db4, match Get db1 bucketFakeIP (AsSlice a) with Some old => Delete db3 bk old | None => Ok db3 end = Ok db4 /\
    hasBucket db4 bk = true /\
    forall b k, Get db4 b k = if decide (b = bk /\ Get db1 bucketFakeIP (AsSlice a) = Some k) then None else Get db3 b k) as (db4 & E4 & B4 & G4).
  { destruct (Get db1 bucketFakeIP (AsSlice a)) as [old|].
    - destruct (Delete_law db3 bk old) as (db4 & E4 & B4 & G4); [by rewrite B3, bool_decide_true|].
      exists db4. split_and!; [done|by rewrite B4, B3, bool_decide_true|]. intros b k. rewrite G4.
      repeat case_decide; intuition congruence.
    - exists db3. split_and!; [done|by rewrite B3, bool_decide_true|]. intros b k. by rewrite decide_False by (by intros []). }
  rewrite E4. simpl. pose proof (Put_law db4 bk (bytes_of_string d) (AsSlice a) B4) as P5. rewrite S2 in P5.
  destruct P5 as (db5 & E5 & B5 & G5). exists db5. split; [done|]. intros b k.
  rewrite G5, G4, G3, G2, !G1. repeat case_decide; intuition congruence.
Qed.

Lemma cache_store_ok (c : cache) a d : quiet c -> plain a = true -> accepted d = true ->
  exists db', cache_FakeIPStore c a d = ({| c with DB_ := db' |}, None) /\ storeTx a d (DB_ c) = Ok db' /\
    quiet {| c with DB_ := db' |}.
Proof.
  intros (Q1 & Q2 & Q3 & Q4) Ha Hd. destruct (storeTx_ok (DB_ c) a d Ha Hd) as (db' & E & G).
  exists db'. unfold cache_FakeIPStore, batch. rewrite E. split_and!; [done..|]. split_and!; try done. simpl.
  intros v6. rewrite G. pose proof (slice_length a Ha). apply andb_prop in Hd as [Hd _]. apply N.ltb_lt in Hd.
  rewrite <- length_bytes_of_string in Hd.
  rewrite decide_False by (intros [_ Hk]; rewrite <- Hk in H1; simpl in H1; lia).
  rewrite decide_False by (intros [_ Hk]; rewrite <- Hk in Hd; simpl in Hd; lia).
  case_decide; [done|]. apply Q4.
Qed.

Lemma storeTx_refused db a d : accepted d = false -> exists e, storeTx a d db = Err e.
Proof.
  intros Hd. unfold storeTx.
  destruct (CreateBucket_law db bucketFakeIP) as (db1 & E1 & B1 & G1); [done|]. rewrite E1. simpl.
  pose proof (Put_law db1 bucketFakeIP (AsSlice a) (bytes_of_string d)) as P1.
  destruct (storable _ _) eqn:S1; [|destruct P1 as [e ->]; [by rewrite B1, bool_decide_true|by exists e]].
  destruct P1 as (db2 & E2 & B2 & G2); [by rewrite B1, bool_decide_true|]. rewrite E2. simpl.
  set (bk := domainBucket (negb (Is4 a))). pose proof (domainBucket_ne (negb (Is4 a))) as [Hne Hne0]. fold bk in Hne, Hne0.
  destruct (CreateBucket_law db2 bk) as (db3 & E3 & B3 & G3); [done|]. rewrite E3. simpl.
  assert (exists db4, match Get db1 bucketFakeIP (AsSlice a) with Some old => Delete db3 bk old | None => Ok db3 end = Ok db4 /\
    hasBucket db4 bk = true) as (db4 & E4 & B4).
  { destruct (Get db1 bucketFakeIP (AsSlice a)) as [old|].
    - destruct (Delete_law db3 bk old) as (db4 & E4 & B4 & G4); [by rewrite B3, bool_decide_true|].
      exists db4. by rewrite B4, B3, bool_decide_true.
    - exists db3. by rewrite B3, bool_decide_true. }
  rewrite E4. simpl. pose proof (Put_law db4 bk (bytes_of_string d) (AsSlice a) B4) as P5.
  assert (storable (bytes_of_string d) (AsSlice a) = false) as S2; [|rewrite S2 in P5; done].
  unfold storable. rewrite length_bytes_of_string. unfold accepted in Hd. by rewrite Hd.
Qed.

Lemma not_empty_bytes (d : string) : accepted d = true -> d <> "".
Proof. by intros Hd ->. Qed.

Lemma AsSlice_inj a b : plain a = true -> plain b = true -> AsSlice a = AsSlice b -> a = b.
Proof. intros Ha Hb He. by rewrite <- (plain_slice a Ha), He, plain_slice. Qed.

(** The domain found under an address, as the bytes that are stored. *)
Lemma load_Some (c : cache) a d :
  quiet c -> cache_FakeIPLoad c a = Some d <->
  Get (DB_ c) bucketFakeIP (AsSlice a) = Some (bytes_of_string d) /\ d <> "".
Proof.
  intros Hq. rewrite load_quiet by done. simpl. destruct (Get _ _ _) as [bs|]; simpl.
  - assert (bytes_of_string (string_of_bytes bs) = bs) as Hbs
      by apply String.list_byte_of_string_of_list_byte.
    case_bool_decide as Hd; split; try done.
    + intros [[= ->] Hne]. by rewrite string_of_bytes_of_string in Hd.
    + intros [= <-]. by rewrite Hbs.
    + intros [[= ->] Hne]. by rewrite string_of_bytes_of_string.
  - by split; [|intros [? ?]].
Qed.

(** A reset deletes the three buckets, or fails when one of them does not exist. *)
Lemma cache_reset (c : cache) :
  if hasBucket (DB_ c) bucketFakeIP && hasBucket (DB_ c) bucketFakeIPDomain4 && hasBucket (DB_ c) bucketFakeIPDomain6
  then exists db', cache_FakeIPReset c = ({| c with DB_ := db' |}, None) /\
       hasBucket db' bucketFakeIP = false /\ forall v6, hasBucket db' (domainBucket v6) = false
  else exists e, cache_FakeIPReset c = (c, Some e).
Proof.
  unfold cache_FakeIPReset, batch. pose proof (DeleteBucket_law (DB_ c) bucketFakeIP) as D1.
  destruct (hasBucket (DB_ c) bucketFakeIP); simpl; [|destruct D1 as [e ->]; by exists e].
  destruct D1 as (db1 & -> & B1 & _). simpl. pose proof (DeleteBucket_law db1 bucketFakeIPDomain4) as D2.
  rewrite !B1 in D2. simpl in D2. destruct (hasBucket (DB_ c) bucketFakeIPDomain4); simpl; [|destruct D2 as [e ->]; by exists e].
  destruct D2 as (db2 & -> & B2 & _). simpl. pose proof (DeleteBucket_law db2 bucketFakeIPDomain6) as D3.
  rewrite !B2, !B1 in D3. simpl in D3. destruct (hasBucket (DB_ c) bucketFakeIPDomain6); simpl; [|destruct D3 as [e ->]; by exists e].
  destruct D3 as (db3 & -> & B3 & _). exists db3. split; [done|]. split; [by rewrite B3, B2, B1|].
  intros []; simpl; by rewrite B3, ?B2.
Qed.

#[export] Program Instance CacheFile_laws : FakeIPStorageLaws cache := {|
  storage_ok := quiet;
  addressable := plain;
  acceptable := accepted;
|}.
Next Obligation.
  intros c a d Hq Ha Hd b Hb. destruct (cache_store_ok c a d Hq Ha Hd) as (db' & E & Etx & Hq').
  destruct (storeTx_ok (DB_ c) a d Ha Hd) as (db'' & Etx' & G). rewrite Etx in Etx'. injection Etx' as <-.
  simpl. rewrite E. simpl. rewrite !load_quiet by done. simpl. rewrite G.
  destruct (decide (b = a)) as [->|Hne].
  - rewrite decide_True by done. simpl. rewrite string_of_bytes_of_string, bool_decide_false by (by apply not_empty_bytes). done.
  - rewrite !decide_False; [done|..]; intros [Hb1 Hb2].
    + by destruct (domainBucket_ne (negb (Is4 a))).
    + by destruct (domainBucket_ne (negb (Is4 a))).
    + by apply Hne, AsSlice_inj.
Qed.
Next Obligation.
  intros c a d Hq Ha Hd d' v6. destruct (cache_store_ok c a d Hq Ha Hd) as (db' & E & Etx & Hq').
  destruct (storeTx_ok (DB_ c) a d Ha Hd) as (db'' & Etx' & G). rewrite Etx in Etx'. injection Etx' as <-.
  simpl. rewrite E. simpl. rewrite !loadDomain_quiet by done. simpl. rewrite G.
  pose proof (domainBucket_ne v6) as [Hne _]. rewrite decide_False by (by intros []).
  destruct (Bool.eqb_spec v6 (negb (Is4 a))) as [->|Hv]; cycle 1.
  { assert (domainBucket v6 <> domainBucket (negb (Is4 a))) by (by destruct v6, (Is4 a)).
    by rewrite !decide_False by (by intros []). }
  destruct (decide (d' = d)) as [->|Hd'].
  - rewrite decide_True by done. simpl. rewrite plain_slice by done. by apply andb_prop in Ha as [Ha _]; apply andb_prop in Ha as [-> _].
  - rewrite decide_False by (intros [_ Hb]; by apply bytes_of_string_inj in Hb).
    destruct (decide (cache_FakeIPLoad c a = Some d')) as [Hl|Hl].
    + apply load_Some in Hl as [Hl Hn]; [|done]. by rewrite decide_True.
    + case_decide as Ho; [|done]. destruct Ho as [_ Ho]. destruct (decide (d' = "")) as [->|Hn]; [|].
      * destruct Hq as (_ & _ & _ & Hq). by rewrite Hq.
      * destruct Hl. by apply load_Some.
Qed.
Next Obligation.
  intros c a d Hq Ha. destruct (accepted d) eqn:Hd.
  - destruct (cache_store_ok c a d Hq Ha Hd) as (db' & E & _ & Hq'). simpl. by rewrite E.
  - destruct (storeTx_refused (DB_ c) a d Hd) as [e E]. simpl. unfold cache_FakeIPStore, batch. by rewrite E.
Qed.
Next Obligation.
  intros c a d Hq Hd. destruct (storeTx_refused (DB_ c) a d Hd) as [e E]. simpl. unfold same_view. simpl. unfold cache_FakeIPStore, batch. by rewrite E.
Qed.
Next Obligation. intros c m Hq. simpl. unfold cache_FakeIPSaveMetadataAsync. by destruct (saveMetadataTimer c). Qed.
Next Obligation. intros c m Hq. unfold same_view. simpl. unfold cache_FakeIPSaveMetadataAsync. by destruct (saveMetadataTimer c). Qed.
Next Obligation.
  intros c Hq. simpl. pose proof (cache_reset c) as Hr. destruct (_ && _); [|by destruct Hr as [e ->]].
  destruct Hr as (db' & -> & B1 & B2). destruct Hq as (Q1 & Q2 & Q3 & Q4). split_and!; try done. intros v6. simpl. by rewrite Get_missing.
Qed.
Next Obligation.
  intros c Hq. unfold same_view, empty_view. simpl. pose proof (cache_reset c) as Hr. destruct (_ && _); [|by destruct Hr as [e ->]].
  destruct Hr as (db' & -> & B1 & B2). simpl. assert (quiet {| c with DB_ := db' |}) as Hq'.
  { destruct Hq as (Q1 & Q2 & Q3 & Q4). split_and!; try done. intros v6. simpl. by rewrite Get_missing. }
  split.
  - intros a. rewrite load_quiet by done. simpl. by rewrite Get_missing.
  - intros d v6. rewrite loadDomain_quiet by done. simpl. by rewrite Get_missing.
Qed.

(** ** The position survives a restart *)

(** Addresses and ranges the options and the store give: of their width and
    without zone; a range with more bits than its address has is invalid. *)
Definition addr_wf (a : Addr) : bool := negb (hasZone a) && (value a <? 2 ^ BitLen a).
Definition prefix_wf (p : Prefix) : bool :=
  addr_wf (ip p) && (bitsPlusOne p <=? if IsValid (ip p) then BitLen (ip p) + 1 else 0).
Definition metadata_wf (m : FakeIPMetadata) : bool :=
  prefix_wf (md_Inet4Range m) && prefix_wf (md_Inet6Range m) &&
  addr_wf (md_Inet4Current m) && addr_wf (md_Inet6Current m).

Lemma addr_round_trip a : addr_wf a = true ->
  addr_UnmarshalBinary (addr_MarshalBinary a) = Ok a /\ (length (addr_MarshalBinary a) <= 16)%nat.
Proof.
  intros Ha. apply andb_prop in Ha as [Hz Hv]. apply N.ltb_lt in Hv. unfold addr_UnmarshalBinary.
  destruct a as [|v|v zone]; [by split; [|simpl; lia]|..]; cbn [addr_MarshalBinary value BitLen] in *.
  - rewrite length_be_encode. simpl Nat.eqb. cbv iota. rewrite be_decode_encode by done. split; [done|lia].
  - simpl in Hz. apply negb_true_iff, negb_false_iff, bool_decide_eq_true in Hz as ->.
    change (bytes_of_string "") with (@nil byte). rewrite app_nil_r, length_be_encode. cbn -[be_encode be_decode take drop].
    rewrite take_ge, drop_ge, be_decode_encode by (done || rewrite length_be_encode; lia). split; [done|lia].
Qed.

Lemma prefix_round_trip p : prefix_wf p = true ->
  prefix_UnmarshalBinary (prefix_MarshalBinary p) = Ok p /\ (length (prefix_MarshalBinary p) <= 17)%nat.
Proof.
  intros Hp. apply andb_prop in Hp as [Ha Hb]. apply N.leb_le in Hb. destruct p as [a n]. simpl in *.
  assert (withoutZone a = a) as Hz.
  { apply andb_prop in Ha as [Hz _]. destruct a as [|v|v zone]; try done. simpl in Hz.
    by apply negb_true_iff, negb_false_iff, bool_decide_eq_true in Hz as ->. }
  apply addr_round_trip in Ha as [Ha Hlen]. unfold prefix_UnmarshalBinary, prefix_MarshalBinary. simpl. rewrite Hz.
  split; [|rewrite length_app; simpl; lia]. rewrite rev_app_distr. simpl. rewrite rev_involutive, Ha. simpl.
  rewrite to_N_byte_of_N. unfold PrefixFrom, Bits. simpl. rewrite Hz. do 2 f_equal.
  assert (n <= 129) as Hn by (destruct a; simpl in *; lia).
  destruct (decide (n = 0)) as [->|Hn0].
  - change (Z.to_N ((Z.of_N 0 - 1) mod 256) mod 256) with 255. destruct a; done.
  - rewrite Z.mod_small, N.mod_small by lia. destruct a; simpl in *; [lia|..];
      rewrite !(proj2 (Z.leb_le _ _)) by lia; simpl; lia.
Qed.

Lemma reads_readElement {A} (unmarshal : list byte -> result A) data (x : A) :
  unmarshal data = Ok x -> N.of_nat (length data) < 65536 -> reads (readElement unmarshal) (lengthPrefixed data) x.
Proof.
  intros Hu Hl rest. unfold readElement, lengthPrefixed. rewrite <- app_assoc.
  rewrite N.mod_small by done.
  rewrite (reads_ReadFull (be_encode 2 (N.of_nat (length data))) 2) by (by rewrite length_be_encode).
  rewrite be_decode_encode by done.
  rewrite (reads_ReadFull data) by done. by rewrite Hu.
Qed.

Lemma metadata_round_trip m : metadata_wf m = true ->
  reads metadata_UnmarshalBinary (metadata_MarshalBinary m) m /\ (0 < length (metadata_MarshalBinary m) <= 74)%nat.
Proof.
  intros Hm. unfold metadata_wf in Hm. rewrite !andb_true_iff in Hm. destruct Hm as [[[H4 H6] C4] C6].
  apply prefix_round_trip in H4 as [H4 L4], H6 as [H6 L6]. apply addr_round_trip in C4 as [C4 M4], C6 as [C6 M6].
  unfold metadata_UnmarshalBinary, metadata_MarshalBinary. split.
  - destruct m as [r4 r6 c4 c6]. cbn [md_Inet4Range md_Inet6Range md_Inet4Current md_Inet6Current] in *.
    eapply reads_bind; [apply reads_readElement; [exact H4|lia]|].
    eapply reads_bind; [apply reads_readElement; [exact H6|lia]|].
    eapply reads_bind; [apply reads_readElement; [exact C4|lia]|].
    eapply reads_bind_ret; [apply reads_readElement; [exact C6|lia]|]. apply reads_ret.
  - unfold lengthPrefixed. rewrite !length_app, !length_be_encode. lia.
Qed.

Lemma key_not_address a v6 : (AsSlice a <> keyMetadata) /\ domainBucket v6 <> bucketFakeIP.
Proof.
  split; [|by destruct v6]. intros Hk. apply (f_equal length) in Hk. change (length keyMetadata) with 15%nat in Hk.
  destruct a; unfold AsSlice in Hk; rewrite ?length_be_encode in Hk; done.
Qed.

Lemma save_metadata (c : cache) m : metadata_wf m = true ->
  exists db', cache_FakeIPSaveMetadata c m = ({| c with DB_ := db' |}, None) /\ hasBucket db' bucketFakeIP = true /\
    forall b k, Get db' b k = if decide (b = bucketFakeIP /\ k = keyMetadata) then Some (metadata_MarshalBinary m) else Get (DB_ c) b k.
Proof.
  intros Hm. apply metadata_round_trip in Hm as [_ Hl]. unfold cache_FakeIPSaveMetadata, batch.
  destruct (CreateBucket_law (DB_ c) bucketFakeIP) as (db1 & E1 & B1 & G1); [done|]. rewrite E1. simpl.
  assert (storable keyMetadata (metadata_MarshalBinary m) = true) as Hs.
  { unfold storable. rewrite !andb_true_iff. split_and!; [done..|]. apply N.leb_le. lia. }
  pose proof (Put_law db1 bucketFakeIP keyMetadata (metadata_MarshalBinary m)) as P. rewrite Hs in P.
  destruct P as (db2 & E2 & B2 & G2); [by rewrite B1, bool_decide_true|]. rewrite E2. simpl.
  exists db2. split_and!; [done|by rewrite B2, B1, bool_decide_true|]. intros b k. by rewrite G2, G1.
Qed.

(** Reading the position back takes it out of the database. *)
Lemma load_metadata (c : cache) m :
  metadata_wf m = true -> hasBucket (DB_ c) bucketFakeIP = true ->
  Get (DB_ c) bucketFakeIP keyMetadata = Some (metadata_MarshalBinary m) ->
  exists db', cache_FakeIPMetadata c = (Some m, {| c with DB_ := db' |}) /\
    (forall b, hasBucket db' b = hasBucket (DB_ c) b) /\
    forall b k, Get db' b k = if decide (b = bucketFakeIP /\ k = keyMetadata) then None else Get (DB_ c) b k.
Proof.
  intros Hm Hb Hg. apply metadata_round_trip in Hm as [Hr Hl]. unfold cache_FakeIPMetadata, batch. rewrite Hb, Hg.
  cbv beta iota zeta delta [negb default from_option id]. rewrite (proj2 (Nat.eqb_neq _ _)) by lia. destruct (Delete_law (DB_ c) bucketFakeIP keyMetadata Hb) as (db' & E & B & G).
  rewrite E. cbv beta iota delta [mbind result_bind]. specialize (Hr []). rewrite app_nil_r in Hr. rewrite Hr. exists db'. done.
Qed.

(** Databases that differ at most in the saved position are seen alike. *)
Lemma metadata_view (c : cache) db' :
  quiet c -> (forall b k, ~ (b = bucketFakeIP /\ k = keyMetadata) -> Get db' b k = Get (DB_ c) b k) ->
  quiet {| c with DB_ := db' |} /\
  same_view c {| c with DB_ := db' |}.
Proof.
  intros Hq Hg. assert (quiet {| c with DB_ := db' |}) as Hq'.
  { destruct Hq as (Q1 & Q2 & Q3 & Q4). split_and!; try done. intros v6. simpl.
    rewrite Hg; [done|]. intros [Hb _]. by destruct (key_not_address AddrZero v6). }
  split; [done|]. split.
  - intros a. simpl. rewrite !load_quiet by done. simpl. rewrite Hg; [done|]. intros [_ Hk]. by destruct (key_not_address a false).
  - intros d v6. simpl. rewrite !loadDomain_quiet by done. simpl. rewrite Hg; [done|].
    intros [Hb _]. by destruct (key_not_address AddrZero v6).
Qed.

(** A restart keeps every mapping and the position.  [Close] always saves, and a
    store started on the same ranges answers every [Lookup] and every [Create] as
    the closed one would have. *)
Theorem fakeip_restart (s : Store cache) :
  quiet (storage s) -> metadata_wf (storeMetadata s) = true ->
  inet4Last s = lastAddress (inet4Range s) -> inet6Last s = lastAddress (inet6Range s) ->
  exists c, Close s = (c, None) /\
    let s' := Start (inet4Range s) (inet6Range s) c in
    (forall a, Lookup s' a = Lookup s a) /\ (forall d v6, (Create s' d v6).1 = (Create s d v6).1).
Proof.
  intros Hq Hm L4 L6. set (c := storage s) in *. destruct (save_metadata c _ Hm) as (db1 & E1 & B1 & G1).
  eexists. split; [exact E1|]. destruct (load_metadata {| c with DB_ := db1 |} _ Hm B1) as (db2 & E2 & _ & G2).
  { simpl. by rewrite G1, decide_True. }
  destruct (metadata_view c db1 Hq) as [Q1 V1].
  { intros b k Hk. by rewrite G1, decide_False. }
  destruct (metadata_view {| c with DB_ := db1 |} db2 Q1) as [_ V2].
  { intros b k Hk. simpl. by rewrite G2, decide_False. }
  unfold Start. simpl loadMetadata. rewrite E2. simpl md_Inet4Range. simpl md_Inet6Range. rewrite !bool_decide_true by done.
  cbn [andb]. destruct V1 as [V1 V1'], V2 as [V2 V2']. split.
  - intros a. etransitivity; [apply V2|apply V1].
  - intros d v6. apply Create_same_view.
    + split; intros; (etransitivity; [apply V2 || apply V2'|apply V1 || apply V1']).
    + by intros [].
    + by intros [].
    + by intros [].
Qed.

(** What a store leaves when it is closed can be started on. *)
Lemma closed_startable (s : Store cache) : store_wf s -> metadata_wf (storeMetadata s) = true ->
  exists c, Close s = (c, None) /\ startable (inet4Range s) (inet6Range s) c.
Proof.
  intros Hwf Hm. pose proof Hwf as (Hq & _). set (c := storage s) in *. destruct (save_metadata c _ Hm) as (db1 & E1 & B1 & G1).
  eexists. split; [exact E1|]. destruct (load_metadata {| c with DB_ := db1 |} _ Hm B1) as (db2 & E2 & _ & G2).
  { simpl. by rewrite G1, decide_True. }
  destruct (metadata_view c db1 Hq) as [Q1 V1].
  { intros b k Hk. by rewrite G1, decide_False. }
  destruct (metadata_view {| c with DB_ := db1 |} db2 Q1) as [Q2 V2].
  { intros b k Hk. simpl. by rewrite G2, decide_False. }
  unfold startable. simpl loadMetadata. rewrite E2. cbn [fst snd]. split; [done|]. left. exists s. split_and!; try done.
  destruct V1 as [V1 V1'], V2 as [V2 V2']. split; intros; (etransitivity; [apply V2 || apply V2'|apply V1 || apply V1']).
Qed.

(** The reset fails as long as no IPv6 address was ever stored, and its error is
    dropped: a store started on another IPv4 range keeps handing out addresses of
    the old one. *)
Theorem fakeip_failed_reset_keeps_old_range (c : cache) m d a range4 range6 :
  quiet c -> metadata_wf m = true -> hasBucket (DB_ c) bucketFakeIP = true ->
  Get (DB_ c) bucketFakeIP keyMetadata = Some (metadata_MarshalBinary m) ->
  md_Inet4Range m <> range4 ->
  hasBucket (DB_ c) bucketFakeIPDomain6 = false ->
  FakeIPLoadDomain c d false = Some a ->
  (Create (Start range4 range6 c) d false).1 = Ok a.
Proof.
  intros Hq Hm Hb Hg Hr H6 Hd. destruct (load_metadata c m Hm Hb Hg) as (db' & E & B & G).
  destruct (metadata_view c db' Hq) as [_ [_ V]].
  { intros b k Hk. by rewrite G, decide_False. }
  pose proof (cache_reset {| c with DB_ := db' |}) as R. cbn [DB_] in R. rewrite !B, H6, andb_false_r in R.
  destruct R as [e R]. unfold Start. simpl loadMetadata. rewrite E, bool_decide_false by done. cbn [andb].
  unfold Create. simpl FakeIPReset. rewrite R. cbn [fst storage]. by rewrite V, Hd.
Qed.

(** The timer saves the position of the first call, whatever was handed out since. *)
Theorem fakeip_timer_saves_first_position (c : cache) m1 m2 :
  metadata_wf m1 = true -> saveMetadataTimer c = None ->
  (loadMetadata (timerExpires (FakeIPSaveMetadataAsync (FakeIPSaveMetadataAsync c m1) m2))).1 = Some m1.
Proof.
  intros Hm Ht. simpl. unfold cache_FakeIPSaveMetadataAsync at 2. rewrite Ht. unfold cache_FakeIPSaveMetadataAsync, timerExpires.
  cbn [saveMetadataTimer]. set (c' := {| c with saveMetadataTimer := Some m1 |}).
  destruct (save_metadata c' m1 Hm) as (db1 & E1 & B1 & G1). rewrite E1. cbn [fst].
  destruct (load_metadata {| c' with DB_ := db1 |} m1 Hm B1) as (db2 & E2 & _ & _); [|by rewrite E2].
  cbn [DB_]. by rewrite G1, decide_True.
Qed.

End Laws.

(** ** A database for the samples *)

Record sampleDB : Type := mkSampleDB { buckets : list string; entries : string -> list byte -> option (list byte) }.

Definition sample_has (db : sampleDB) (b : string) : bool := bool_decide (b ∈ buckets db).
Definition sample_get (db : sampleDB) (b : string) (k : list byte) : option (list byte) :=
  if sample_has db b then entries db b k else None.
Definition sample_set (db : sampleDB) (b : string) (k : list byte) (v : option (list byte)) : sampleDB :=
  {| db with entries := fun b' k' => if decide (b' = b /\ k' = k) then v else entries db b' k' |}.

#[export] Instance sampleBolt : Bolt sampleDB := {|
  hasBucket := sample_has;
  Get := sample_get;
  CreateBucketIfNotExists db b :=
    if sample_has db b then Ok db
    else Ok (mkSampleDB (b :: buckets db) (fun b' k => if decide (b' = b) then None else entries db b' k));
  Put db b k v := if storable k v then Ok (sample_set db b k (Some v)) else Err (ErrExternal "key required");
  Delete db b k := Ok (sample_set db b k None);
  DeleteBucket db b :=
    if sample_has db b then Ok {| db with buckets := filter (fun b' => b' <> b) (buckets db) |}
    else Err (ErrExternal "bucket not found");
  reopen _ := mkSampleDB [] (fun _ _ => None);
|}.

#[export] Instance sampleBoltLaws : BoltLaws sampleDB.
Proof.
  split.
  - intros db b k Hb. simpl in *. unfold sample_get. by rewrite Hb.
  - intros db b _. simpl. destruct (sample_has db b) eqn:Hb.
    + exists db. split_and!; [done| |done]. intros b'. case_bool_decide; [by subst|done].
    + eexists. split; [done|]. assert (forall b', sample_has (mkSampleDB (b :: buckets db)
        (fun b' k => if decide (b' = b) then None else entries db b' k)) b' = bool_decide (b' = b) || sample_has db b') as Hh.
      { intros b'. unfold sample_has. simpl. rewrite <- bool_decide_or. apply bool_decide_ext, elem_of_cons. }
      split; [done|]. intros b' k. unfold sample_get. rewrite Hh. simpl.
      case_bool_decide as Hbb; simpl; [subst b'; by rewrite decide_True, Hb|by rewrite decide_False].
  - intros db b k v Hb. simpl in *. destruct (storable k v); [|by eexists]. eexists. split_and!; [done..|].
    intros b' k'. unfold sample_get, sample_has in *. simpl.
    destruct (decide (b' = b /\ k' = k)) as [[-> ->]|Hn]; [by rewrite Hb|done].
  - intros db b k Hb. simpl in *. eexists. split_and!; [done..|].
    intros b' k'. unfold sample_get, sample_has in *. simpl.
    destruct (decide (b' = b /\ k' = k)) as [[-> ->]|Hn]; [by rewrite Hb|done].
  - intros db b. simpl. destruct (sample_has db b) eqn:Hb; [|by eexists]. eexists. split; [done|].
    assert (forall b', sample_has {| db with buckets := filter (fun b' => b' <> b) (buckets db) |} b'
      = if decide (b' = b) then false else sample_has db b') as Hh.
    { intros b'. unfold sample_has. simpl. case_decide as Hd.
      - apply bool_decide_eq_false. rewrite list_elem_of_filter. naive_solver.
      - apply bool_decide_ext. rewrite list_elem_of_filter. naive_solver. }
    split; [done|]. intros b' k Hne. unfold sample_get. rewrite Hh. simpl. by rewrite decide_False.
Qed.

Definition sampleCache : CacheFile sampleDB := mkCacheFile (mkSampleDB [] (fun _ _ => None)) None ∅ ∅ ∅.

(** A store on the cache file that has handed out one address. *)
Definition sample_cached : Store (CacheFile sampleDB) :=
  let _ := CacheFile_FakeIPStorage AddrFromSlice in
  (Create (Start sample_range PrefixZero sampleCache) "a" false).2.

Lemma fakeip_restart_witness :
  let _ := CacheFile_FakeIPStorage AddrFromSlice in
  exists c, Close sample_cached = (c, None) /\
    let s' := Start sample_range PrefixZero c in
    (forall a, Lookup s' a = Lookup sample_cached a) /\
    (forall d v6, (Create s' d v6).1 = (Create sample_cached d v6).1).
Proof.
  apply (fakeip_restart AddrFromSlice (fun l => eq_refl) sample_cached); [|reflexivity..].
  split_and!; [reflexivity..|]. intros []; reflexivity.
Defined.

End FakeIPCache.
