(* ===== verification/Managers.v ===== *)
(** * Managers (src/adapter/inbound/manager.go, endpoint, service, outbound and src/dns/transport_manager.go)

    A manager owns a list of objects and a map from tags.  An object is what the
    registry builds: its identity, type, tag and dependencies; starting and closing
    it are calls whose errors are parameters and which are recorded in order. *)

From S2P Require Import Prelude.
From stdpp Require Import list.

Open Scope Z_scope.

Module Managers.

(** ** Stages (src/adapter/lifecycle.go) *)

Inductive StartStage : Type :=
| StartStateInitialize
| StartStateStart
| StartStatePostStart
| StartStateStarted.

#[export] Instance StartStage_eq_dec : EqDecision StartStage.
Proof. solve_decision. Defined.

Definition ListStartStages : list StartStage :=
  [StartStateInitialize; StartStateStart; StartStatePostStart; StartStateStarted].

Definition stage_ord (s : StartStage) : nat :=
  match s with
  | StartStateInitialize => 0 | StartStateStart => 1 | StartStatePostStart => 2 | StartStateStarted => 3
  end.

Definition stage_String (s : StartStage) : string :=
  match s with
  | StartStateInitialize => "initialize"
  | StartStateStart => "start"
  | StartStatePostStart => "post-start"
  | StartStateStarted => "finish-start"
  end.

(** ** Objects *)

Record Item : Type := mkItem {
  it_id : nat;
  it_Type : string;
  it_Tag : string;
  it_Dependencies : list string;
}.

#[export] Instance Item_eq_dec : EqDecision Item.
Proof. solve_decision. Defined.

Inductive call : Type :=
| CallStart (it : Item) (stage : StartStage)
| CallClose (it : Item).

(** [common.Index] with pointer equality. *)
Fixpoint index_of (it : Item) (l : list Item) : option nat :=
  match l with
  | [] => None
  | x :: l => if (it_id x =? it_id it)%nat then Some O else S <$> index_of it l
  end.

(** [append(l[:index], l[index+1:]...)] *)
Definition remove_at {A} (index : nat) (l : list A) : list A := take index l ++ drop (S index) l.

(** What an operation gives: its error, the calls it made, and the manager after it. *)
Record outcome (M : Type) : Type := mkOutcome {
  o_err : result unit;
  o_calls : list call;
  o_manager : M;
}.
Arguments mkOutcome {M}.
Arguments o_err {M}.
Arguments o_calls {M}.
Arguments o_manager {M}.

Section Managers.
(** The errors of [adapter.LegacyStart] and of closing an object. *)
Variables (start : Item -> StartStage -> option error) (close : Item -> option error).

(** Starts the objects at a stage and stops at the first error. *)
Fixpoint startAll (name : Item -> string) (stage : StartStage) (items : list Item) : list call * option error :=
  match items with
  | [] => ([], None)
  | it :: items =>
      match start it stage with
      | Some err => ([CallStart it stage], Some (E_Cause err [stage_String stage; " "; name it]))
      | None => let '(calls, err) := startAll name stage items in (CallStart it stage :: calls, err)
      end
  end.

(** The stages of an object that is created after the manager was started. *)
Fixpoint startStages (name : Item -> string) (it : Item) (stages : list StartStage) : list call * option error :=
  match stages with
  | [] => ([], None)
  | stage :: stages =>
      match start it stage with
      | Some err => ([CallStart it stage], Some (E_Cause err [stage_String stage; " "; name it]))
      | None => let '(calls, err) := startStages name it stages in (CallStart it stage :: calls, err)
      end
  end.

Definition to_result (err : option error) : result unit :=
  match err with None => Ok tt | Some e => Err e end.

(** ** Inbounds, endpoints and services *)

Record Manager : Type := mkManager {
  started : bool;
  stage_ : StartStage;
  items : list Item;
  byTag : gmap string Item;
}.

Definition NewManager : Manager := mkManager false StartStateInitialize [] ∅.

(** The word in names of objects and in the message of an internal error. *)
Variables (kind panicKind : string).
Definition itemName (it : Item) : string := kind +:+ "/" +:+ it_Type it +:+ "[" +:+ it_Tag it +:+ "]".

(** [Start]; endpoints leave the start stage to the outbound manager. *)
Definition Start (skip : StartStage -> bool) (m : Manager) (stage : StartStage) : outcome Manager :=
  if started m && (stage_ord stage <=? stage_ord (stage_ m))%nat
  then mkOutcome (Panic "already started") [] m
  else
    let m := {| m with started := true; stage_ := stage |} in
    if skip stage then mkOutcome (Ok tt) [] m
    else let '(calls, err) := startAll itemName stage (items m) in mkOutcome (to_result err) calls m.

(** [Close] drops the errors of the objects. *)
Definition Close (m : Manager) : outcome Manager :=
  if negb (started m) then mkOutcome (Ok tt) [] m
  else mkOutcome (Ok tt) (CallClose <$> items m) {| m with started := false; items := [] |}.

Definition Get (m : Manager) (tag : string) : option Item := byTag m !! tag.

Definition Remove (m : Manager) (tag : string) : outcome Manager :=
  match byTag m !! tag with
  | None => mkOutcome (Err ErrInvalid) [] m
  | Some it =>
      let m := {| m with byTag := delete tag (byTag m) |} in
      match index_of it (items m) with
      | None => mkOutcome (Panic ("invalid " +:+ panicKind +:+ " index")) [] m
      | Some index =>
          let m := {| m with items := remove_at index (items m) |} in
          if started m then mkOutcome (to_result (close it)) [CallClose it] m
          else mkOutcome (Ok tt) [] m
      end
  end.

(** Puts an object in the place of the one with its tag. *)
Definition replaceExisting (m : Manager) (tag : string) : outcome Manager :=
  match byTag m !! tag with
  | None => mkOutcome (Ok tt) [] m
  | Some exists_ =>
      let calls := if started m then [CallClose exists_] else [] in
      match (if started m then close exists_ else None) with
      | Some err => mkOutcome (Err (E_Cause err ["close " +:+ kind +:+ "/"; it_Type exists_; "["; it_Tag exists_; "]"])) calls m
      | None =>
          match index_of exists_ (items m) with
          | None => mkOutcome (Panic ("invalid " +:+ panicKind +:+ " index")) calls m
          | Some index => mkOutcome (Ok tt) calls {| m with items := remove_at index (items m) |}
          end
      end
  end.

(** [Create] with the result of the registry. *)
Definition Create (m : Manager) (tag : string) (created : result Item) : outcome Manager :=
  match created with
  | Err e => mkOutcome (Err e) [] m
  | Panic msg => mkOutcome (Panic msg) [] m
  | Ok it =>
      let '(calls, err) := if started m then startStages itemName it ListStartStages else ([], None) in
      match err with
      | Some e => mkOutcome (Err e) calls m
      | None =>
          let r := replaceExisting m tag in
          match o_err r with
          | Ok _ =>
              let m := o_manager r in
              mkOutcome (Ok tt) (calls ++ o_calls r)
                {| m with items := items m ++ [it]; byTag := <[tag := it]> (byTag m) |}
          | e => mkOutcome e (calls ++ o_calls r) (o_manager r)
          end
      end
  end.

End Managers.

(** ** The managers of the sources *)

Definition inbound_Start start := Start start "inbound" (fun _ => false).
Definition inbound_Remove close := Remove close "inbound".
Definition inbound_Create start close := Create start close "inbound" "inbound".
Definition inbound_Get (endpoint : string -> option Item) (m : Manager) (tag : string) : option Item :=
  match Get m tag with Some it => Some it | None => endpoint tag end.
Definition endpoint_Start start := Start start "endpoint" (fun stage => bool_decide (stage = StartStateStart)).
Definition endpoint_Remove close := Remove close "endpoint".
Definition endpoint_Create start close := Create start close "endpoint" "endpoint".
Definition service_Start start := Start start "service" (fun _ => false).
Definition service_Remove close := Remove close "service".
Definition service_Create start close := Create start close "service" "service".

(** ** Lists of distinct objects *)

Definition ids (l : list Item) : list nat := it_id <$> l.

Lemma index_of_elem it l : it ∈ l -> exists i x, index_of it l = Some i /\ l !! i = Some x /\ it_id x = it_id it.
Proof.
  induction l as [|x l IH]; [by intros ?%not_elem_of_nil|]. simpl. destruct (Nat.eqb_spec (it_id x) (it_id it)) as [He|He].
  - intros _. by exists 0%nat, x.
  - intros Hi. apply elem_of_cons in Hi as [->|Hi]; [done|]. destruct (IH Hi) as (i & y & Hx & Hl & Hy).
    exists (S i), y. by rewrite Hx.
Qed.

Lemma ids_inj l x y : NoDup (ids l) -> x ∈ l -> y ∈ l -> it_id x = it_id y -> x = y.
Proof.
  intros Hn Hx Hy He. apply list_elem_of_lookup in Hx as [i Hx], Hy as [j Hy].
  assert (i = j) as ->; [|congruence]. eapply (NoDup_lookup _ i j (it_id x) Hn); unfold ids; rewrite list_lookup_fmap.
  - by rewrite Hx.
  - rewrite Hy. simpl. congruence.
Qed.

(** Taking an object out of a list of distinct ones. *)
Lemma remove_at_index it l i :
  NoDup (ids l) -> it ∈ l -> index_of it l = Some i ->
  l ≡ₚ it :: remove_at i l /\ NoDup (ids (remove_at i l)) /\ (it_id it ∉ ids (remove_at i l)).
Proof.
  intros Hn Hi Hx. destruct (index_of_elem it l Hi) as (j & x & Hj & Hl & He). rewrite Hx in Hj. injection Hj as <-.
  assert (x = it) as ->. { eapply ids_inj; [done|by eapply list_elem_of_lookup_2|done..]. }
  assert (l ≡ₚ it :: remove_at i l) as Hp.
  { rewrite <- (take_drop_middle l i it Hl) at 1. unfold remove_at. by rewrite <- Permutation_middle. }
  assert (NoDup (it_id it :: ids (remove_at i l))) as Hn'.
  { assert (ids l ≡ₚ it_id it :: ids (remove_at i l)) as Hp' by (unfold ids; by rewrite Hp at 1). by rewrite <- Hp'. }
  apply NoDup_cons in Hn' as [H1 H2]. done.
Qed.

Lemma remove_at_elem it l i y :
  NoDup (ids l) -> it ∈ l -> index_of it l = Some i -> y ∈ remove_at i l <-> y ∈ l /\ y <> it.
Proof.
  intros Hn Hi Hx. destruct (remove_at_index it l i Hn Hi Hx) as (Hp & _ & Hni).
  assert (y ∈ l <-> y = it \/ y ∈ remove_at i l) as -> by (rewrite <- elem_of_cons; by apply elem_of_Permutation_proper).
  split; [|naive_solver]. intros Hy. split; [by right|]. intros ->. apply Hni. unfold ids. apply list_elem_of_fmap. by exists it.
Qed.

End Managers.
