(* ===== verification/StartOrder.v ===== *)
(** * Starting objects after their dependencies

    [startOutbounds] of src/adapter/outbound/manager.go and [startTransports] of
    src/dns/transport_manager.go: passes over the objects that start those whose
    dependencies are started, and a search for the reason when a pass starts
    nothing. *)

From S2P Require Import Prelude GoStd Managers.
From stdpp Require Import list.
Import Managers.

Module StartOrder.

Section StartOrder.
(** The error of starting an object, the words of the messages, and the objects
    the manager knows by tag. *)
Variables (start : Item -> option error) (startName : Item -> list string) (noun : string).
Variable known : gmap string Item.

(** One pass: the objects it starts in order, the tags started, and an error. *)
Fixpoint startPass (todo : list Item) (started : gset string) : list Item * gset string * option error :=
  match todo with
  | [] => ([], started, None)
  | it :: todo =>
      if bool_decide (it_Tag it ∈ started) then startPass todo started
      else if negb (forallb (fun d => bool_decide (d ∈ started)) (it_Dependencies it)) then startPass todo started
      else
        let started := {[it_Tag it]} ∪ started in
        match start it with
        | Some err => ([it], started, Some (E_Cause err (startName it)))
        | None => let '(l, started, err) := startPass todo started in (it :: l, started, err)
        end
  end.

(** [common.Find] on tags gives the empty string when there is none. *)
Definition firstUnstarted (started : gset string) (deps : list string) : string :=
  default "" (List.find (fun d => negb (bool_decide (d ∈ started))) deps).

(** [lintOutbound]; every call appends a tag that the manager knows. *)
Fixpoint lint (fuel : nat) (started : gset string) (oTree : list string) (oCurrent : Item) : result unit :=
  let problem := firstUnstarted started (it_Dependencies oCurrent) in
  if bool_decide (problem ∈ oTree)
  then Err (E_New ["circular " +:+ noun +:+ " dependency: "; strings.Join oTree " -> "; " -> "; problem])
  else
    match known !! problem with
    | None => Err (E_New ["dependency["; problem; "] not found for " +:+ noun +:+ "["; it_Tag oCurrent; "]"])
    | Some problemItem =>
        match fuel with
        | O => Panic "out of fuel"
        | S fuel => lint fuel started (oTree ++ [problem]) problemItem
        end
    end.

(** The loop; it goes on while a pass starts something. *)
Fixpoint startLoop (fuel : nat) (objects : list Item) (started : gset string) : list Item * result unit :=
  let '(l, started, err) := startPass objects started in
  match err with
  | Some e => (l, Err e)
  | None =>
      if (size started =? length objects)%nat then (l, Ok tt)
      else if negb (bool_decide (l = [])) then
        match fuel with
        | O => (l, Panic "out of fuel")
        | S fuel => let '(l', r) := startLoop fuel objects started in (l ++ l', r)
        end
      else
        match List.find (fun it => negb (bool_decide (it_Tag it ∈ started))) objects with
        | None => (l, Panic "invalid memory address or nil pointer dereference")
        | Some current => (l, lint (size known) started [it_Tag current] current)
        end
  end.

Definition startObjects (objects : list Item) : list Item * result unit :=
  startLoop (length objects) objects ∅.

End StartOrder.

(** ** Facts on a pass *)

Section Facts.
Variables (start : Item -> option error) (startName : Item -> list string) (noun : string).
Variable known : gmap string Item.
Abbreviation pass := (startPass start startName).
Abbreviation loop := (startLoop start startName noun known).

Definition tags (l : list Item) : gset string := list_to_set (it_Tag <$> l).

(** Each object comes after objects with the tags it depends on. *)
Fixpoint ordered (before : gset string) (l : list Item) : Prop :=
  match l with
  | [] => True
  | it :: l => Forall (fun d => d ∈ before) (it_Dependencies it) /\ (it_Tag it ∉ before) /\ ordered ({[it_Tag it]} ∪ before) l
  end.

Lemma tags_cons it l : tags (it :: l) = {[it_Tag it]} ∪ tags l.
Proof. done. Qed.

Lemma ordered_app before l k : ordered before (l ++ k) <-> ordered before l /\ ordered (tags l ∪ before) k.
Proof.
  revert before. induction l as [|it l IH]; intros before; simpl.
  - unfold tags. simpl. rewrite (left_id_L ∅ (∪)). naive_solver.
  - rewrite IH, tags_cons. replace ({[it_Tag it]} ∪ tags l ∪ before) with (tags l ∪ ({[it_Tag it]} ∪ before)) by set_solver. naive_solver.
Qed.

Lemma deps_started (started : gset string) deps :
  forallb (fun d => bool_decide (d ∈ started)) deps = true <-> Forall (fun d => d ∈ started) deps.
Proof.
  rewrite forallb_forall, List.Forall_forall. split; intros H d Hd; specialize (H d Hd); by apply bool_decide_eq_true in H || apply bool_decide_eq_true.
Qed.

Lemma startPass_spec todo started l started' err :
  pass todo started = (l, started', err) ->
  ordered started l /\ started' = tags l ∪ started /\ l ⊆ todo /\
  (err = None -> l = [] ->
   Forall (fun it => it_Tag it ∈ started \/ exists d, d ∈ it_Dependencies it /\ d ∉ started) todo).
Proof.
  revert started l started' err. induction todo as [|it todo IH]; intros started l started' err; simpl.
  { intros [= <- <- <-]. split_and!; [done| |done|done]. unfold tags. simpl. by rewrite (left_id_L ∅ (∪)). }
  case_bool_decide as Hin.
  { intros H. destruct (IH _ _ _ _ H) as (Ho & Hs & Hl & Hn). split_and!; [done..|set_solver|].
    intros He Hl'. constructor; auto. }
  destruct (forallb _ _) eqn:Hd; simpl; cycle 1.
  { intros H. destruct (IH _ _ _ _ H) as (Ho & Hs & Hl & Hn). split_and!; [done..|set_solver|].
    intros He Hl'. constructor; [right|auto]. apply not_true_iff_false in Hd. rewrite deps_started in Hd.
    apply not_Forall_Exists in Hd; [|apply _]. apply Exists_exists in Hd as (d & Hd & Hd'). by exists d. }
  apply deps_started in Hd. destruct (start it).
  { intros [= <- <- <-]. split_and!; [done|by rewrite tags_cons; set_solver|set_solver|done]. }
  destruct (pass todo ({[it_Tag it]} ∪ started)) as [[l1 s1] e1] eqn:H. intros [= <- <- <-].
  destruct (IH _ _ _ _ H) as (Ho & Hs & Hl & Hn). split_and!; [done|rewrite tags_cons, Hs; set_solver|set_solver|done].
Qed.

(** ** The loop *)

Lemma tags_app l k : tags (l ++ k) = tags l ∪ tags k.
Proof. unfold tags. by rewrite fmap_app, list_to_set_app_L. Qed.

Lemma ordered_size before l : ordered before l -> size (tags l ∪ before) = (length l + size before)%nat.
Proof.
  revert before. induction l as [|it l IH]; intros before; simpl.
  - intros _. unfold tags. simpl. by rewrite (left_id_L ∅ (∪)).
  - intros (_ & Hn & Ho). rewrite tags_cons. apply IH in Ho.
    replace ({[it_Tag it]} ∪ tags l ∪ before) with (tags l ∪ ({[it_Tag it]} ∪ before)) by set_solver.
    rewrite Ho, size_union by set_solver. rewrite size_singleton. lia.
Qed.

Lemma lint_not_Ok fuel started tree cur : lint noun known fuel started tree cur <> Ok tt.
Proof.
  revert tree cur. induction fuel as [|fuel IH]; intros tree cur; simpl; by repeat case_match.
Qed.

(** A pass ends the loop with an error, with everything started or stuck, or goes on. *)
Lemma startLoop_step fuel objects started :
  loop fuel objects started =
  let '(l, started', err) := pass objects started in
  match err with
  | Some e => (l, Err e)
  | None =>
      if (size started' =? length objects)%nat then (l, Ok tt)
      else if negb (bool_decide (l = [])) then
        match fuel with
        | O => (l, Panic "out of fuel")
        | S fuel => (l ++ (loop fuel objects started').1, (loop fuel objects started').2)
        end
      else
        (l, match List.find (fun it => negb (bool_decide (it_Tag it ∈ started'))) objects with
            | None => Panic "invalid memory address or nil pointer dereference"
            | Some current => lint noun known (size known) started' [it_Tag current] current
            end)
  end.
Proof.
  destruct fuel as [|fuel]; simpl; destruct (pass objects started) as [[l s'] [e|]]; try done;
    destruct (_ =? _)%nat; try done; destruct (negb _); try done; try (by destruct (List.find _ _)).
  by destruct (loop fuel objects s').
Qed.

Lemma startLoop_ordered fuel objects started :
  ordered started (loop fuel objects started).1 /\ (loop fuel objects started).1 ⊆ objects /\
  ((loop fuel objects started).2 = Ok tt -> size (tags (loop fuel objects started).1 ∪ started) = length objects).
Proof.
  revert started. induction fuel as [|fuel IH]; intros started; rewrite startLoop_step;
    destruct (pass objects started) as [[l1 s1] [e|]] eqn:Hp;
    destruct (startPass_spec _ _ _ _ _ Hp) as (Ho & -> & Hl & _); try done;
    destruct (Nat.eqb_spec (size (tags l1 ∪ started)) (length objects)); try done; destruct (negb _); try done;
    try (split_and!; [done..|]; simpl; destruct (List.find _ _); [|done]; by intros ?%lint_not_Ok).
  destruct (IH (tags l1 ∪ started)) as (Ho2 & Hs2 & Hz). simpl. split_and!; [by apply ordered_app|set_solver|].
  intros Hr. rewrite tags_app, <- (Hz Hr). f_equal. set_solver.
Qed.

(** *** Every outcome is a value *)

Definition unique_tags (objects : list Item) : Prop := NoDup (it_Tag <$> objects).

Lemma tags_size objects : unique_tags objects -> size (tags objects) = length objects.
Proof. intros Hu. unfold tags. rewrite size_list_to_set by done. by rewrite length_fmap. Qed.

Lemma tags_elem it l : it ∈ l -> it_Tag it ∈ tags l.
Proof. intros Hi. unfold tags. apply elem_of_list_to_set, list_elem_of_fmap. eauto. Qed.

Lemma tags_elem_inv t l : t ∈ tags l -> exists it, it ∈ l /\ it_Tag it = t.
Proof. unfold tags. rewrite elem_of_list_to_set, list_elem_of_fmap. intros (it & -> & Hi). eauto. Qed.

Lemma tags_mono l k : l ⊆ k -> tags l ⊆ tags k.
Proof. intros Hs t Ht. apply tags_elem_inv in Ht as (it & Hi & <-). apply tags_elem. by apply Hs. Qed.

(** An object whose dependencies are objects that can be started. *)
Inductive startable (objects : list Item) : Item -> Prop :=
| startable_intro it :
    it ∈ objects -> (forall d, d ∈ it_Dependencies it -> d ∈ tags objects) ->
    (forall y, y ∈ objects -> it_Tag y ∈ it_Dependencies it -> startable objects y) ->
    startable objects it.

(** While something can be started, a pass starts something. *)
Lemma startable_progress objects (started : gset string) it :
  startable objects it -> it_Tag it ∉ started ->
  exists y, y ∈ objects /\ (it_Tag y ∉ started) /\ Forall (fun d => d ∈ started) (it_Dependencies y).
Proof.
  induction 1 as [it Hi Ht Hd IH]. intros Hn.
  destruct (decide (Forall (fun d => d ∈ started) (it_Dependencies it))) as [Hf|Hf]; [by exists it|].
  apply not_Forall_Exists in Hf; [|apply _]. apply Exists_exists in Hf as (d & Hdi & Hds).
  destruct (tags_elem_inv _ _ (Ht d Hdi)) as (y & Hy & <-). by apply (IH y).
Qed.

(** A dependency that is missing or leads back, with the path to it. *)
Fixpoint chain (it : Item) (path : list Item) : Prop :=
  match path with
  | [] => True
  | y :: path => it_Tag y ∈ it_Dependencies it /\ known !! it_Tag y = Some y /\ chain y path
  end.

(** The search only knows the objects of [known].  What it does not find is none of the [objects], or one of the others
    among them that cannot be started itself. *)
Definition unknown (objects : list Item) (problem : string) : Prop :=
  known !! problem = None /\ (problem ∉ tags objects \/ exists y, y ∈ objects /\ it_Tag y = problem /\ ~ startable objects y).

Definition explains (objects : list Item) (it : Item) (path : list Item) (problem : string) (e : error) : Prop :=
  chain it path /\ problem ∈ it_Dependencies (List.last path it) /\
  let tree := it_Tag <$> it :: path in
  (problem ∈ tree /\ e = E_New ["circular " +:+ noun +:+ " dependency: "; strings.Join tree " -> "; " -> "; problem]) \/
  (unknown objects problem /\
   e = E_New ["dependency["; problem; "] not found for " +:+ noun +:+ "["; it_Tag (List.last path it); "]"]).

Section Lint.
Variables (objects : list Item) (started : gset string).
Hypothesis known_tags : forall t it, known !! t = Some it -> it_Tag it = t.
Hypothesis known_objects : forall t it, known !! t = Some it -> it ∈ objects.
Hypothesis stuck : Forall (fun it => it_Tag it ∈ started \/ exists d, d ∈ it_Dependencies it /\ d ∉ started) objects.

Lemma firstUnstarted_spec it :
  it ∈ objects -> it_Tag it ∉ started ->
  let d := firstUnstarted started (it_Dependencies it) in d ∈ it_Dependencies it /\ (d ∉ started).
Proof.
  intros Hi Hn. simpl. destruct (proj1 (List.Forall_forall _ _) stuck it (proj1 (list_elem_of_In _ _) Hi)) as [?|(d & Hd & Hds)]; [done|].
  unfold firstUnstarted. destruct (List.find _ _) as [x|] eqn:Hf.
  - apply find_some in Hf as [Hx Hb]. apply negb_true_iff, bool_decide_eq_false in Hb. split; [by apply list_elem_of_In|done].
  - apply list_elem_of_In in Hd. apply (find_none _ _ Hf) in Hd. by rewrite bool_decide_false in Hd.
Qed.

Lemma last_cons_default (z : Item) path it : List.last (z :: path) it = List.last path z.
Proof.
  revert z. induction path as [|y path IH]; intros z; [done|].
  change (List.last (z :: y :: path) it) with (List.last (y :: path) it).
  rewrite IH. symmetry. clear IH. revert y z. induction path as [|x path IH]; intros y z; [done|].
  change (List.last (y :: x :: path) z) with (List.last (x :: path) z). by rewrite IH.
Qed.

Lemma chain_snoc it path y :
  chain it path -> it_Tag y ∈ it_Dependencies (List.last path it) -> known !! it_Tag y = Some y -> chain it (path ++ [y]).
Proof.
  revert it. induction path as [|z path IH]; intros it; [done|]. rewrite last_cons_default. simpl.
  intros (Hz & Hk & Hc) Hy Hky. split_and!; [done..|]. by apply IH.
Qed.

Lemma chain_known it path : chain it path -> Forall (fun y => known !! it_Tag y = Some y) path.
Proof. revert it. induction path as [|y path IH]; intros it; simpl; [done|]. intros (_ & Hk & Hc). constructor; eauto. Qed.

(** Known tags outgrow a path of distinct ones. *)
Lemma path_length it path y :
  chain it path -> NoDup (it_Tag <$> it :: path) -> known !! it_Tag y = Some y -> it_Tag y ∉ it_Tag <$> it :: path ->
  (length path < size known)%nat.
Proof.
  intros Hc Hn Hy Hni. apply chain_known in Hc. rewrite fmap_cons in Hn, Hni. apply NoDup_cons in Hn as [_ Hn].
  apply not_elem_of_cons in Hni as [_ Hni].
  assert (tags (path ++ [y]) ⊆ dom known) as Hsub.
  { intros t Ht. apply tags_elem_inv in Ht as (z & Hz & <-). apply elem_of_dom. apply elem_of_app in Hz as [Hz|Hz].
    - eexists. by apply (proj1 (List.Forall_forall _ _) Hc z), list_elem_of_In.
    - apply list_elem_of_singleton in Hz as ->. by eexists. }
  apply subseteq_size in Hsub. rewrite tags_size, size_dom, length_app in Hsub; [simpl in Hsub; lia|].
  unfold unique_tags. rewrite fmap_app. apply NoDup_app. split_and!; [done| |apply NoDup_singleton].
  intros t Ht Ht'. apply list_elem_of_singleton in Ht' as ->. done.
Qed.

(** What was not started and is not known. *)
Lemma not_known problem : problem ∉ started -> known !! problem = None -> unknown objects problem.
Proof.
  intros Hn Hk. split; [done|]. destruct (decide (problem ∈ tags objects)) as [Hin|]; [right|by left].
  apply tags_elem_inv in Hin as (y & Hy & <-). exists y. split_and!; [done..|]. intros Hst.
  destruct (startable_progress objects started y Hst Hn) as (z & Hz & Hzn & Hzd). rewrite Forall_forall in Hzd.
  destruct (proj1 (List.Forall_forall _ _) stuck z (proj1 (list_elem_of_In _ _) Hz)) as [?|(d & Hd & Hds)]; [done|]. by apply Hds, Hzd.
Qed.

(** Enough fuel is left for the tags that are known and not on the path. *)
Lemma lint_explains fuel it path :
  chain it path -> List.last path it ∈ objects -> it_Tag (List.last path it) ∉ started ->
  NoDup (it_Tag <$> it :: path) -> (size known <= fuel + length path)%nat ->
  exists path' problem e,
    lint noun known fuel started (it_Tag <$> it :: path) (List.last path it) = Err e /\ explains objects it path' problem e.
Proof.
  revert path. induction fuel as [|fuel IH]; intros path Hc Hl Hs Hn Hf;
    destruct (firstUnstarted_spec _ Hl Hs) as [Hp Hps]; cbn [lint];
    set (problem := firstUnstarted started (it_Dependencies (List.last path it))) in *.
  - case_bool_decide as Hin; [exists path, problem; eexists; split; [done|]; split_and!; [done..|by left]|].
    destruct (known !! problem) as [y|] eqn:Hk; [|exists path, problem; eexists; split; [done|]; split_and!; [done..|right; split; [by apply not_known|done]]].
    pose proof (known_tags _ _ Hk) as Ht. rewrite <- Ht in Hk, Hin. pose proof (path_length it path y Hc Hn Hk Hin). lia.
  - case_bool_decide as Hin; [exists path, problem; eexists; split; [done|]; split_and!; [done..|by left]|].
    destruct (known !! problem) as [y|] eqn:Hk; [|exists path, problem; eexists; split; [done|]; split_and!; [done..|right; split; [by apply not_known|done]]].
    pose proof (known_tags _ _ Hk) as Ht. pose proof (known_objects _ _ Hk) as Ho. rewrite <- Ht in *.
    destruct (IH (path ++ [y])) as (path' & problem' & e & He & Hex).
    + by apply chain_snoc.
    + by rewrite last_last.
    + by rewrite last_last.
    + rewrite app_comm_cons, fmap_app. apply NoDup_app. split_and!; [done| |apply NoDup_singleton].
      intros t Ht1 Ht2. by apply list_elem_of_singleton in Ht2 as ->.
    + rewrite length_app. simpl. lia.
    + exists path', problem', e. split; [|done]. rewrite <- He, last_last, app_comm_cons, fmap_app. done.
Qed.
End Lint.

Lemma startPass_no_error objects started :
  Forall (fun it => start it = None) objects -> (pass objects started).2 = None.
Proof.
  intros Hs. revert started. induction Hs as [|it l Hi _ IH]; intros started; [done|]. simpl.
  case_bool_decide; [apply IH|]. destruct (negb _); [apply IH|]. rewrite Hi.
  specialize (IH ({[it_Tag it]} ∪ started)). by destruct (pass l _) as [[? ?] ?].
Qed.

Definition known_in (objects : list Item) : Prop :=
  forall t it, known !! t = Some it -> it ∈ objects /\ it_Tag it = t.

Definition stuck_at (objects : list Item) (started : gset string) : Prop :=
  Forall (fun x => it_Tag x ∈ started \/ exists d, d ∈ it_Dependencies x /\ d ∉ started) objects.

(** Where nothing can be started the search finds the reason. *)
Lemma stuck_explained objects started :
  unique_tags objects -> known_in objects -> started ⊆ tags objects -> size started <> length objects ->
  stuck_at objects started ->
  exists it path problem e, it ∈ objects /\ (it_Tag it ∉ started) /\ explains objects it path problem e /\
    match List.find (fun it => negb (bool_decide (it_Tag it ∈ started))) objects with
    | None => Panic "invalid memory address or nil pointer dereference"
    | Some current => lint noun known (size known) started [it_Tag current] current
    end = Err e.
Proof.
  intros Hu Hk Hsub Hne Hst. destruct (List.find _ _) as [it|] eqn:Hfind.
  - apply find_some in Hfind as [Hi Hb]. apply list_elem_of_In in Hi. apply negb_true_iff, bool_decide_eq_false in Hb.
    destruct (lint_explains objects started (fun t it H => proj2 (Hk t it H)) (fun t it H => proj1 (Hk t it H)) Hst (size known) it [])
      as (path & problem & e & Hlint & Hex); try done; [apply NoDup_singleton|simpl; lia|]. by exists it, path, problem, e.
  - exfalso. apply Hne. rewrite <- (tags_size objects Hu). f_equal. apply set_eq. intros t. split; [set_solver|].
    intros Ht. apply tags_elem_inv in Ht as (it & Hi & <-). apply list_elem_of_In in Hi. apply (find_none _ _ Hfind) in Hi.
    by apply negb_false_iff, bool_decide_eq_true in Hi.
Qed.

(** The loop starts everything, or stops where nothing can be started and says why. *)
Lemma startLoop_total fuel objects started :
  unique_tags objects -> Forall (fun it => start it = None) objects -> known_in objects ->
  started ⊆ tags objects -> (length objects <= fuel + size started)%nat ->
  (loop fuel objects started).2 = Ok tt \/
  exists started' it path problem e,
    stuck_at objects started' /\ it ∈ objects /\ (it_Tag it ∉ started') /\ explains objects it path problem e /\
    (loop fuel objects started).2 = Err e.
Proof.
  intros Hu Hs Hk. revert started. induction fuel as [|fuel IH]; intros started Hsub Hf; rewrite startLoop_step;
    pose proof (startPass_no_error objects started Hs) as He;
    destruct (pass objects started) as [[l1 s1] err] eqn:Hp; simpl in He; subst err;
    destruct (startPass_spec _ _ _ _ _ Hp) as (Ho & -> & Hl & Hn);
    (destruct (Nat.eqb_spec (size (tags l1 ∪ started)) (length objects)) as [|Hne]; [by left|]);
    apply tags_mono in Hl as Hlt; pose proof (ordered_size _ _ Ho) as Hsz;
    assert (size (tags l1 ∪ started) <= length objects)%nat as Hle
      by (rewrite <- (tags_size objects Hu); apply subseteq_size; set_solver);
    assert (l1 = [] -> stuck_at objects (tags l1 ∪ started)) as Hst
      by (intros ->; assert (tags [] ∪ started = started) as -> by (unfold tags; simpl; by rewrite (left_id_L ∅ (∪))); by apply Hn);
    (destruct (decide (l1 = [])) as [Hl1|Hl1]; [right; rewrite bool_decide_true by done|rewrite bool_decide_false by done]);
    cbn [negb snd].
  1, 3: destruct (stuck_explained objects (tags l1 ∪ started)) as (it & path & problem & e & ? & ? & ? & ?); auto;
    [set_solver|]; by exists (tags l1 ∪ started), it, path, problem, e; auto.
  - destruct l1; [done|]. simpl in Hsz. lia.
  - apply IH; [set_solver|]. destruct l1; [done|]. simpl in Hsz. lia.
Qed.

(** *** Theorems *)

Lemma ordered_startable objects l before :
  unique_tags objects -> (forall t, t ∈ before -> exists y, y ∈ objects /\ it_Tag y = t /\ startable objects y) ->
  ordered before l -> l ⊆ objects -> Forall (startable objects) l.
Proof.
  intros Hu. revert before. induction l as [|it l IH]; intros before Hb; [done|]. simpl. intros (Hd & Hn & Ho) Hs.
  assert (it ∈ objects) as Hi by set_solver.
  assert (forall y z, y ∈ objects -> z ∈ objects -> it_Tag y = it_Tag z -> y = z) as Hinj.
  { intros y z Hy Hz Hyz. apply list_elem_of_lookup in Hy as [i Hy], Hz as [j Hz].
    assert (i = j) as ->; [|congruence]. eapply (NoDup_lookup _ i j (it_Tag y) Hu); by rewrite list_lookup_fmap, ?Hy, ?Hz; simpl; congruence. }
  assert (startable objects it) as Hit.
  { rewrite Forall_forall in Hd. constructor; [done|..].
    - intros d Hdd. destruct (Hb d (Hd d Hdd)) as (y & Hy & <- & _). by apply tags_elem.
    - intros y Hy Hyd. destruct (Hb _ (Hd _ Hyd)) as (z & Hz & Hzy & Hzs). by rewrite (Hinj y z). }
  constructor; [done|]. apply (IH ({[it_Tag it]} ∪ before)); [|done|set_solver].
  intros t Ht. apply elem_of_union in Ht as [Ht|Ht]; [|auto]. apply elem_of_singleton in Ht as ->. by exists it.
Qed.

Lemma startObjects_order objects :
  unique_tags objects ->
  ordered ∅ (startObjects start startName noun known objects).1 /\
  ((startObjects start startName noun known objects).2 = Ok tt ->
   (startObjects start startName noun known objects).1 ≡ₚ objects).
Proof.
  intros Hu. unfold startObjects. destruct (startLoop_ordered (length objects) objects ∅) as (Ho & Hs & Hr).
  split; [done|]. intros Hok. specialize (Hr Hok). set (l := (loop (length objects) objects ∅).1) in *.
  rewrite (ordered_size _ _ Ho), size_empty, Nat.add_0_r in Hr.
  assert (NoDup l) as Hnd.
  { clear -Ho. revert Ho. generalize (∅ : gset string). induction l as [|it l IH]; intros before; [constructor|].
    simpl. intros (_ & _ & Ho). constructor; [|by eapply IH]. intros Hi. clear -Ho Hi.
    assert (it_Tag it ∈ ({[it_Tag it]} ∪ before)) as Hb by set_solver. revert Ho Hb. generalize ({[it_Tag it]} ∪ before).
    induction l as [|x l IHl]; intros s Ho Hb; [by apply not_elem_of_nil in Hi|]. simpl in Ho. destruct Ho as (_ & Hx & Ho).
    apply elem_of_cons in Hi as [->|Hi]; [done|]. eapply IHl; [done|exact Ho|set_solver]. }
  apply submseteq_length_Permutation; [|lia]. apply NoDup_submseteq; [done|]. set_solver.
Qed.

Lemma startObjects_complete objects :
  unique_tags objects -> Forall (fun it => start it = None) objects -> known_in objects ->
  ((startObjects start startName noun known objects).2 = Ok tt <-> Forall (startable objects) objects) /\
  ((startObjects start startName noun known objects).2 = Ok tt \/
   exists it path problem e, it ∈ objects /\ explains objects it path problem e /\
     (startObjects start startName noun known objects).2 = Err e).
Proof.
  intros Hu Hs Hk. destruct (startLoop_total (length objects) objects ∅ Hu Hs Hk) as [Hok|Hst]; [set_solver|lia|..].
  - split; [|by left]. split; [|done]. intros _. destruct (startObjects_order objects Hu) as [Ho Hp]. specialize (Hp Hok).
    rewrite <- Hp at 2. eapply ordered_startable; [done| |exact Ho|].
    + intros t Ht. set_solver.
    + intros x. by rewrite Hp.
  - destruct Hst as (st & it & path & problem & e & Hst & Hi & Hn & Hex & He). split; [|right; by exists it, path, problem, e].
    unfold startObjects. rewrite He. split; [done|]. intros Ha. exfalso.
    rewrite Forall_forall in Ha. destruct (startable_progress objects st it (Ha it Hi) Hn) as (y & Hy & Hyn & Hyd).
    unfold stuck_at in Hst. rewrite Forall_forall in Hst. rewrite Forall_forall in Hyd. destruct (Hst y Hy) as [?|(d & Hd & Hds)]; [done|]. by apply Hds, Hyd.
Qed.

End Facts.

End StartOrder.
