(* ===== verification/OutboundManager.v ===== *)
(** * Outbounds and DNS servers (src/adapter/outbound/manager.go, src/dns/transport_manager.go)

    Managers whose objects depend on each other and of which one is the default. *)

From S2P Require Import Prelude Managers StartOrder.
Import Managers StartOrder.

Module OutboundManager.

Record Manager : Type := mkManager {
  defaultTag : string;
  started : bool;
  stage_ : StartStage;
  outbounds : list Item;
  outboundByTag : gmap string Item;
  dependByTag : gmap string (list string);
  defaultOutbound : option Item;
}.

Definition NewManager (defaultTag : string) : Manager :=
  mkManager defaultTag false StartStateInitialize [] ∅ ∅ None.

Definition outboundName (it : Item) : string := "outbound/" +:+ it_Type it +:+ "[" +:+ it_Tag it +:+ "]".

Section Manager.
Variables (start : Item -> StartStage -> option error) (close : Item -> option error).

Definition startOutbounds (m : Manager) (l : list Item) : list Item * result unit :=
  startObjects (fun it => start it StartStateStart) (fun it => ["start "; outboundName it]) "outbound"
    (outboundByTag m) l.

(** The default outbound of [Start]: the one of the default tag may be an endpoint,
    and without a tag the fallback is created. *)
Definition chooseDefault (m : Manager) (endpoint : string -> option Item) (fallback : result Item) : result Manager :=
  match defaultOutbound m with
  | Some _ => Ok m
  | None =>
      if negb (bool_decide (defaultTag m = "")) then
        match endpoint (defaultTag m) with
        | None => Err (E_New ["default outbound not found: "; defaultTag m])
        | Some it => Ok {| m with defaultOutbound := Some it |}
        end
      else
        it ← map_err (fun e => E_Cause e ["create direct outbound for fallback"]) fallback;
        Ok {| m with outbounds := outbounds m ++ [it];
                     outboundByTag := <[it_Tag it := it]> (outboundByTag m);
                     defaultOutbound := Some it |}
  end.

Definition Start (endpoints : list Item) (endpoint : string -> option Item) (fallback : result Item)
    (m : Manager) (stage : StartStage) : outcome Manager :=
  if started m && (stage_ord stage <=? stage_ord (stage_ m))%nat
  then mkOutcome (Panic "already started") [] m
  else
    let m := {| m with started := true; stage_ := stage |} in
    if bool_decide (stage = StartStateStart) then
      match chooseDefault m endpoint fallback with
      | Err e => mkOutcome (Err e) [] m
      | Panic msg => mkOutcome (Panic msg) [] m
      | Ok m =>
          let '(l, r) := startOutbounds m (outbounds m ++ endpoints) in
          mkOutcome r ((fun it => CallStart it StartStateStart) <$> l) m
      end
    else let '(calls, err) := startAll start outboundName stage (outbounds m) in mkOutcome (to_result err) calls m.

Definition Close (m : Manager) : outcome Manager :=
  if negb (started m) then mkOutcome (Ok tt) [] m
  else mkOutcome (Ok tt) (CallClose <$> outbounds m) {| m with started := false; outbounds := [] |}.

Definition Outbound (endpoint : string -> option Item) (m : Manager) (tag : string) : option Item :=
  match outboundByTag m !! tag with Some it => Some it | None => endpoint tag end.

(** Takes a tag out of the lists of the objects it depends on. *)
Definition dropDependency (tag : string) (depend : gmap string (list string)) (dependency : string)
    : gmap string (list string) :=
  let l := default [] (depend !! dependency) in
  if (length l =? 1)%nat then delete dependency depend
  else <[dependency := List.filter (fun it => negb (bool_decide (it = tag))) l]> depend.

Definition Remove (m : Manager) (tag : string) : outcome Manager :=
  match outboundByTag m !! tag with
  | None => mkOutcome (Err ErrInvalid) [] m
  | Some outbound =>
      let m := {| m with outboundByTag := delete tag (outboundByTag m) |} in
      match index_of outbound (outbounds m) with
      | None => mkOutcome (Panic "invalid inbound index") [] m
      | Some index =>
          let m := {| m with outbounds := remove_at index (outbounds m) |} in
          let m :=
            match defaultOutbound m with
            | Some it => if (it_id it =? it_id outbound)%nat
                         then {| m with defaultOutbound := head (outbounds m) |} else m
            | None => m
            end in
          let dependBy := default [] (dependByTag m !! tag) in
          if (0 <? length dependBy)%nat
          then mkOutcome (Err (E_New ["outbound["; tag; "] is depended by "; GoStd.strings.Join dependBy ", "])) [] m
          else
            let m := {| m with dependByTag := fold_left (dropDependency tag) (it_Dependencies outbound) (dependByTag m) |} in
            if started m then mkOutcome (to_result (close outbound)) [CallClose outbound] m
            else mkOutcome (Ok tt) [] m
      end
  end.

Definition replaceExisting (m : Manager) (tag : string) : outcome Manager :=
  match outboundByTag m !! tag with
  | None => mkOutcome (Ok tt) [] m
  | Some exists_ =>
      let calls := if started m then [CallClose exists_] else [] in
      match (if started m then close exists_ else None) with
      | Some err => mkOutcome (Err (E_Cause err ["close outbound/"; it_Type exists_; "["; it_Tag exists_; "]"])) calls m
      | None =>
          match index_of exists_ (outbounds m) with
          | None => mkOutcome (Panic "invalid inbound index") calls m
          | Some index => mkOutcome (Ok tt) calls {| m with outbounds := remove_at index (outbounds m) |}
          end
      end
  end.

Definition addDependency (tag : string) (depend : gmap string (list string)) (dependency : string)
    : gmap string (list string) :=
  <[dependency := default [] (depend !! dependency) ++ [tag]]> depend.

(** Adds the object; it becomes the default when it has the default tag, or when
    there is neither a default tag nor a default. *)
Definition register (m : Manager) (tag : string) (outbound : Item) : Manager :=
  let m := {| m with outbounds := outbounds m ++ [outbound];
                     outboundByTag := <[tag := outbound]> (outboundByTag m);
                     dependByTag := fold_left (addDependency tag) (it_Dependencies outbound) (dependByTag m) |} in
  if bool_decide (tag = defaultTag m) || (bool_decide (defaultTag m = "") && negb (bool_decide (is_Some (defaultOutbound m))))
  then {| m with defaultOutbound := Some outbound |} else m.

Definition Create (m : Manager) (tag : string) (created : result Item) : outcome Manager :=
  if bool_decide (tag = "") then mkOutcome (Err ErrInvalid) [] m
  else
    match created with
    | Err e => mkOutcome (Err e) [] m
    | Panic msg => mkOutcome (Panic msg) [] m
    | Ok outbound =>
        let '(calls, err) := if started m then startStages start outboundName outbound ListStartStages else ([], None) in
        match err with
        | Some e => mkOutcome (Err e) calls m
        | None =>
            let r := replaceExisting m tag in
            match o_err r with
            | Ok _ => mkOutcome (Ok tt) (calls ++ o_calls r) (register (o_manager r) tag outbound)
            | e => mkOutcome e (calls ++ o_calls r) (o_manager r)
            end
        end
    end.

End Manager.

End OutboundManager.
