(* ===== verification/ManagersTheorems.v ===== *)
(** * Theorems on managers *)

From S2P Require Import Prelude GoStd Managers StartOrder OutboundManager.
From stdpp Require Import list.
Import Managers StartOrder.

(** ** Inbounds, endpoints and services *)

(** The list and the map agree, and no object is listed twice. *)
Definition manager_wf (m : Manager) : Prop :=
  NoDup (ids (items m)) /\ forall tag it, byTag m !! tag = Some it <-> it ∈ items m /\ it_Tag it = tag.

Inductive operation : Type :=
| OpCreate (tag : string) (created : result Item)
| OpRemove (tag : string).

(** The objects a sequence of operations builds; the registry builds each with
    its tag, and every object is a new one. *)
Definition built (ops : list operation) : list Item :=
  omap (fun op => match op with OpCreate _ (Ok it) => Some it | _ => None end) ops.

Definition tagged (op : operation) : Prop :=
  match op with OpCreate tag (Ok it) => it_Tag it = tag | OpCreate _ (Panic _) => False | _ => True end.

Section Basic.
Variables (start : Item -> StartStage -> option error) (close : Item -> option error) (kind panicKind : string).

Definition execute (m : Manager) (op : operation) : outcome Manager :=
  match op with
  | OpCreate tag created => Create start close kind panicKind m tag created
  | OpRemove tag => Remove close panicKind m tag
  end.

(** The calls of a sequence, the manager after it, and whether an operation panicked. *)
Fixpoint execute_all (m : Manager) (ops : list operation) : list call * Manager * bool :=
  match ops with
  | [] => ([], m, false)
  | op :: ops =>
      let o := execute m op in
      let '(calls, m', panicked) := execute_all (o_manager o) ops in
      (o_calls o ++ calls, m', match o_err o with Panic _ => true | _ => panicked end)
  end.

Hypothesis start_ok : forall it stage, start it stage = None.
Hypothesis close_ok : forall it, close it = None.

Definition startCalls (it : Item) : list call := CallStart it <$> ListStartStages.
Arguments startCalls : simpl never.

Lemma startStages_ok name it stages : startStages start name it stages = (CallStart it <$> stages, None).
Proof. induction stages as [|s stages IH]; [done|]. simpl. by rewrite start_ok, IH. Qed.

(** The calls on one object. *)
Definition target (c : call) : Item := match c with CallStart it _ => it | CallClose it => it end.
Definition about (it : Item) (calls : list call) : list call := List.filter (fun c => bool_decide (target c = it)) calls.

Lemma about_app it k l : about it (k ++ l) = about it k ++ about it l.
Proof. apply List.filter_app. Qed.

Lemma about_starts it x : about it (startCalls x) = if decide (x = it) then startCalls x else [].
Proof. unfold about, startCalls. simpl. case_decide; [by rewrite !bool_decide_true|by rewrite !bool_decide_false]. Qed.

Lemma about_close it x : about it [CallClose x] = if decide (x = it) then [CallClose x] else [].
Proof. unfold about. simpl. case_decide; [by rewrite bool_decide_true|by rewrite bool_decide_false]. Qed.

Lemma about_closes it l : NoDup (ids l) -> about it (CallClose <$> l) = if decide (it ∈ l) then [CallClose it] else [].
Proof.
  intros Hn. induction l as [|x l IH]; [done|]. unfold ids in Hn. rewrite fmap_cons in *. apply NoDup_cons in Hn as [Hx Hl].
  change (CallClose x :: (CallClose <$> l)) with ([CallClose x] ++ (CallClose <$> l)).
  rewrite about_app, about_close, (IH Hl). pose proof (elem_of_cons l it x) as Hc.
  assert (x ∉ l) as Hxl by (intros Hi; apply Hx, list_elem_of_fmap; eauto).
  repeat case_decide; subst; try done; exfalso; naive_solver.
Qed.

(** Objects that were built are started and, once they left the list, closed. *)
Definition accounted (seen : list Item) (calls : list call) (m : Manager) : Prop :=
  manager_wf m /\ started m = true /\ NoDup (ids seen) /\
  forall it,
    (it ∈ items m -> it ∈ seen) /\
    about it calls =
      if decide (it ∈ items m) then startCalls it
      else if decide (it ∈ seen) then startCalls it ++ [CallClose it] else [].

Lemma wf_lookup m tag it : manager_wf m -> byTag m !! tag = Some it ->
  it ∈ items m /\ exists i, index_of it (items m) = Some i.
Proof.
  intros [_ Hm] Hl. apply Hm in Hl as [Hi _]. split; [done|]. destruct (index_of_elem _ _ Hi) as (i & x & Hx & _). by exists i.
Qed.

Lemma remove_accounted seen calls m tag :
  accounted seen calls m ->
  let o := Remove close panicKind m tag in
  accounted seen (calls ++ o_calls o) (o_manager o) /\ (forall msg, o_err o <> Panic msg).
Proof.
  intros (Hwf & Hs & Hn & Ha). unfold Remove. destruct (byTag m !! tag) as [it|] eqn:Hl; simpl; [|by rewrite app_nil_r].
  destruct (wf_lookup _ _ _ Hwf Hl) as [Hi [i Hx]]. rewrite Hx, Hs, close_ok. simpl. split; [|done].
  destruct Hwf as [Hids Hm]. destruct (remove_at_index _ _ _ Hids Hi Hx) as (Hp & Hn' & Hni).
  pose proof (fun y => remove_at_elem it (items m) i y Hids Hi Hx) as Hrm.
  apply Hm in Hl as [_ Ht]. split_and!; try done.
  - split; [done|]. simpl. intros tag' y. rewrite Hrm. destruct (decide (tag' = tag)) as [->|Hne].
    + rewrite lookup_delete_eq. split; [done|]. intros [[Hy Hyi] Hyt]. destruct Hyi.
      assert (Some y = Some it) as [= ->]; [|done]. rewrite <- (proj2 (Hm tag y)), <- (proj2 (Hm tag it)) by done. done.
    + rewrite lookup_delete_ne, Hm by done. naive_solver.
  - intros y. destruct (Ha y) as [Hsub Hab]. simpl. split; [rewrite Hrm; naive_solver|].
    rewrite about_app, about_close, Hab. specialize (Hrm y). clear Hp Hn Hn' Hni Hids Hm.
    repeat case_decide; subst; rewrite ?app_nil_r; try done; exfalso; naive_solver.
Qed.

(** Adding an object under a tag that is free. *)
Lemma add_accounted seen calls m it :
  accounted seen calls m -> byTag m !! it_Tag it = None -> it_id it ∉ ids seen ->
  accounted (it :: seen) (calls ++ startCalls it)
    {| m with items := items m ++ [it]; byTag := <[it_Tag it := it]> (byTag m) |}.
Proof.
  intros ([Hids Hm] & Hs & Hn & Ha) Hl Hnew.
  assert (it ∉ seen) as Hns by (intros Hi; apply Hnew; unfold ids; apply list_elem_of_fmap; eauto).
  assert (it ∉ items m) as Hni by (intros Hi; by apply Hns, Ha).
  split_and!; [|done|by constructor|].
  - split; simpl.
    + unfold ids. rewrite fmap_app. apply NoDup_app. split_and!; [done| |apply NoDup_singleton].
      intros n Hn1 Hn2. apply list_elem_of_singleton in Hn2 as ->. apply list_elem_of_fmap in Hn1 as (y & Hy & Hyi).
      apply Hnew. unfold ids. apply list_elem_of_fmap. exists y. split; [done|]. by apply Ha.
    + intros tag y. rewrite elem_of_app, list_elem_of_singleton. destruct (decide (tag = it_Tag it)) as [->|Hne].
      * rewrite lookup_insert_eq. split; [intros [= <-]; auto|]. intros [[Hy| ->] Hyt]; [|done].
        assert (byTag m !! it_Tag it = Some y) as Hc by (by apply Hm). congruence.
      * rewrite lookup_insert_ne, Hm by done. naive_solver.
  - intros y. destruct (Ha y) as [Hy Hab]. simpl. assert (y ∈ items m ++ [it] <-> y ∈ items m \/ y = it) as Hin
      by (by rewrite elem_of_app, list_elem_of_singleton).
    pose proof (elem_of_cons seen y it) as Hc. split; [tauto|].
    rewrite about_app, about_starts, Hab. clear Hab Hids Hm Hn. repeat case_decide; subst; rewrite ?app_nil_r; try done; exfalso; naive_solver.
Qed.

Lemma accounted_ext seen calls calls' m :
  (forall it, about it calls = about it calls') -> accounted seen calls m -> accounted seen calls' m.
Proof. intros He (Hwf & Hs & Hn & Ha). split_and!; try done. intros it. rewrite <- He. apply Ha. Qed.

Lemma create_accounted seen calls m tag it :
  accounted seen calls m -> it_Tag it = tag -> it_id it ∉ ids seen ->
  let o := Create start close kind panicKind m tag (Ok it) in
  accounted (it :: seen) (calls ++ o_calls o) (o_manager o) /\ (forall msg, o_err o <> Panic msg).
Proof.
  intros Ha <- Hnew. pose proof Ha as (Hwf & Hs & _ & Hin). unfold Create. rewrite Hs, startStages_ok. fold (startCalls it).
  destruct (remove_accounted seen calls m (it_Tag it) Ha) as [Hr _]. revert Hr. unfold replaceExisting, Remove.
  destruct (byTag m !! it_Tag it) as [old|] eqn:Hl; simpl; intros Hr.
  - destruct (wf_lookup m _ old Hwf Hl) as [Hi [i Hx]]. rewrite Hx, Hs, close_ok in *. simpl in *. split; [|done].
    apply (add_accounted _ _ _ it) in Hr; simpl in *; [|by rewrite lookup_delete_eq|done].
    rewrite insert_delete_eq in Hr. eapply accounted_ext; [|exact Hr]. intros y.
    change (_ :: _ :: _ :: _ :: [CallClose old]) with (startCalls it ++ [CallClose old]).
    rewrite !about_app, about_starts, about_close, <- !(assoc_L (++)). f_equal.
    repeat case_decide; subst; rewrite ?app_nil_r, ?app_nil_l; try done.
    exfalso. apply Hnew. unfold ids. apply list_elem_of_fmap. exists y. split; [done|]. by apply Hin.
  - split; [|done]. by apply add_accounted.
Qed.

(** Every operation keeps the account, whatever the registry says. *)
Lemma execute_accounted seen calls m op :
  accounted seen calls m -> tagged op -> NoDup (ids (built [op] ++ seen)) ->
  let o := execute m op in
  accounted (built [op] ++ seen) (calls ++ o_calls o) (o_manager o) /\ (forall msg, o_err o <> Panic msg).
Proof.
  intros Ha Ht Hn. destruct op as [tag [it|e|msg]|tag]; simpl in *.
  - apply NoDup_cons in Hn as [Hn _]. by apply create_accounted.
  - by rewrite app_nil_r.
  - done.
  - by apply remove_accounted.
Qed.

Lemma built_cons op ops : built (op :: ops) = built [op] ++ built ops.
Proof. unfold built. simpl. by destruct op as [? []|]. Qed.

Lemma execute_all_accounted ops seen calls m :
  accounted seen calls m -> Forall tagged ops -> NoDup (ids (built ops ++ seen)) ->
  let '(calls', m', panicked) := execute_all m ops in
  panicked = false /\ exists seen', accounted seen' (calls ++ calls') m' /\ (forall it, it ∈ seen' <-> it ∈ built ops \/ it ∈ seen).
Proof.
  revert seen calls m. induction ops as [|op ops IH]; intros seen calls m Ha Ht Hn; cbn [execute_all].
  { split; [done|]. exists seen. rewrite app_nil_r. split; [done|]. intros it. unfold built. simpl. rewrite elem_of_nil. tauto. }
  inversion Ht as [|? ? Ht1 Ht2]; subst. rewrite built_cons in Hn. unfold ids in Hn. rewrite !fmap_app in Hn.
  assert (NoDup (ids (built [op] ++ seen)) /\ NoDup (ids (built ops ++ built [op] ++ seen))) as [Hn1 Hn2].
  { unfold ids. rewrite !fmap_app. assert (NoDup ((it_id <$> built ops) ++ (it_id <$> built [op]) ++ (it_id <$> seen))) as Hn'.
    { eapply NoDup_Permutation_proper; [|exact Hn]. rewrite (assoc_L (++)). by rewrite (Permutation_app_comm (it_id <$> built ops)). }
    split; [|done]. by apply NoDup_app in Hn' as (_ & _ & Hn'). }
  destruct (execute_accounted seen calls m op Ha Ht1 Hn1) as [Ha1 Hp]. specialize (IH _ _ _ Ha1 Ht2 Hn2).
  destruct (execute_all (o_manager (execute m op)) ops) as [[calls2 m2] p2]. destruct IH as [-> (seen' & Ha2 & Hs')].
  split; [destruct (o_err (execute m op)) eqn:He; try done; by destruct (Hp msg)|].
  exists seen'. rewrite (assoc_L (++)). split; [done|]. intros it. rewrite Hs', (built_cons op ops), !elem_of_app. tauto.
Qed.

(** Objects are neither leaked nor closed twice.  When starting and closing do
    not fail, any sequence of creations (also under a tag that is taken) and removals
    on a running manager, followed by its close, starts every object the registry
    built once through all stages in order and then closes it exactly once; and no
    operation panics. *)
Theorem managers_start_and_close_once ops :
  Forall tagged ops -> NoDup (ids (built ops)) ->
  let m := mkManager true StartStateStarted [] ∅ in
  let '(calls, m', panicked) := execute_all m ops in
  panicked = false /\
  forall it, about it (calls ++ o_calls (Close m')) =
             if decide (it ∈ built ops) then startCalls it ++ [CallClose it] else [].
Proof.
  intros Ht Hn. simpl. pose proof (execute_all_accounted ops [] [] (mkManager true StartStateStarted [] ∅)) as H.
  destruct (execute_all _ ops) as [[calls m'] panicked]. destruct H as [-> (seen & (Hwf & Hs & Hns & Ha) & Hseen)].
  { split_and!; [split; [by apply NoDup_nil|]; intros tag it; simpl; rewrite lookup_empty, elem_of_nil; naive_solver|done|by apply NoDup_nil|].
    intros it. split; [by intros ?%elem_of_nil|]. done. }
  { done. }
  { by rewrite app_nil_r. }
  split; [done|]. intros it. unfold Close. rewrite Hs. simpl. destruct (Ha it) as [Hin Hab]. simpl in Hab.
  assert (about it (CallClose <$> items m') = if decide (it ∈ items m') then [CallClose it] else []) as Hc.
  { apply about_closes, Hwf. }
  rewrite about_app, Hc, Hab. specialize (Hseen it). rewrite elem_of_nil in Hseen.
  repeat case_decide; rewrite ?app_nil_r; try done; exfalso; naive_solver.
Qed.

End Basic.

(** ** Outbounds *)

Section Outbounds.
Import OutboundManager.
Variables (start : Item -> StartStage -> option error) (close : Item -> option error).
Abbreviation Manager := OutboundManager.Manager.
Implicit Types (m : Manager) (it : Item).

Definition dependents (depend : gmap string (list string)) (d : string) : list string := default [] (depend !! d).

(** The list and the map agree, objects are distinct, and the dependents of a tag
    are the registered objects that depend on it. *)
Definition outbounds_ok m : Prop :=
  NoDup (ids (outbounds m)) /\
  (forall tag it, outboundByTag m !! tag = Some it <-> it ∈ outbounds m /\ it_Tag it = tag) /\
  (forall d t, t ∈ dependents (dependByTag m) d <->
     exists it, it ∈ outbounds m /\ it_Tag it = t /\ d ∈ it_Dependencies it) /\
  (forall it, it ∈ outbounds m -> NoDup (it_Dependencies it)).

Lemma dependents_insert depend d e l :
  dependents (<[d := l]> depend) e = if decide (e = d) then l else dependents depend e.
Proof.
  unfold dependents. case_decide; [subst; by rewrite lookup_insert_eq|by rewrite lookup_insert_ne].
Qed.

Lemma dependents_delete depend d e :
  dependents (delete d depend) e = if decide (e = d) then [] else dependents depend e.
Proof.
  unfold dependents. case_decide; [subst; by rewrite lookup_delete_eq|by rewrite lookup_delete_ne].
Qed.

Lemma addDependency_fold tag deps depend d t :
  t ∈ dependents (fold_left (addDependency tag) deps depend) d
  <-> t ∈ dependents depend d \/ (t = tag /\ d ∈ deps).
Proof.
  revert depend. induction deps as [|e deps IH]; intros depend; simpl.
  - rewrite elem_of_nil. naive_solver.
  - rewrite IH, elem_of_cons. unfold addDependency. fold (dependents depend e). rewrite dependents_insert.
    case_decide; subst; rewrite ?elem_of_app, ?list_elem_of_singleton; naive_solver.
Qed.

(** Dropping a tag from the lists of dependencies it is in. *)
Lemma dropDependency_fold tag deps depend d t :
  NoDup deps -> (forall e, e ∈ deps -> tag ∈ dependents depend e) ->
  t ∈ dependents (fold_left (dropDependency tag) deps depend) d
  <-> t ∈ dependents depend d /\ ~ (t = tag /\ d ∈ deps).
Proof.
  revert depend. induction deps as [|e deps IH]; intros depend Hn Hin; simpl.
  - rewrite elem_of_nil. naive_solver.
  - apply NoDup_cons in Hn as [He Hn].
    assert (forall d t, t ∈ dependents (dropDependency tag depend e) d
              <-> t ∈ dependents depend d /\ ~ (t = tag /\ d = e)) as Hdrop.
    { intros d' t'. unfold dropDependency. fold (dependents depend e). specialize (Hin e (list_elem_of_here _ _)).
      destruct (Nat.eqb_spec (length (dependents depend e)) 1) as [Hl|Hl].
      - rewrite dependents_delete. case_decide; [subst d'|naive_solver].
        destruct (dependents depend e) as [|x [|y l]]; try done. apply list_elem_of_singleton in Hin as ->.
        rewrite elem_of_nil, list_elem_of_singleton. naive_solver.
      - rewrite dependents_insert. case_decide; [subst d'|naive_solver].
        rewrite list_elem_of_In, filter_In, <- list_elem_of_In, negb_true_iff, bool_decide_eq_false. naive_solver. }
    rewrite IH; [|done|].
    + rewrite Hdrop, elem_of_cons. split; [|naive_solver]. intros [[? ?] ?]. split; [done|]. naive_solver.
    + intros d' Hd'. apply Hdrop. split; [apply Hin; by apply elem_of_cons; right|]. intros [_ ->]. done.
Qed.

(** Whether a registered object depends on the tag. *)
Definition depended m (tag : string) : bool :=
  existsb (fun y => bool_decide (tag ∈ it_Dependencies y)) (outbounds m).

Lemma depended_dependents m tag :
  outbounds_ok m -> depended m tag = (0 <? length (dependents (dependByTag m) tag))%nat.
Proof.
  intros (_ & _ & Hd & _). apply eq_bool_prop_intro. unfold depended. rewrite !Is_true_true, existsb_exists, Nat.ltb_lt. split.
  - intros (y & Hy & Ht). apply list_elem_of_In in Hy. apply bool_decide_eq_true in Ht.
    assert (it_Tag y ∈ dependents (dependByTag m) tag) as Hi by (apply Hd; eauto).
    destruct (dependents (dependByTag m) tag); [by apply not_elem_of_nil in Hi|simpl; lia].
  - intros Hl. destruct (dependents (dependByTag m) tag) as [|t l] eqn:Hdt; [simpl in Hl; lia|].
    destruct (proj1 (Hd tag t)) as (y & Hy & _ & Hyd); [rewrite Hdt; by apply elem_of_cons; left|].
    exists y. split; [by apply list_elem_of_In|by apply bool_decide_eq_true].
Qed.

(** An outbound is removed exactly when no registered outbound depends on it.
    The removal is refused when one does; otherwise the object is closed if the manager
    runs, the tag is free, and list, map and dependents agree again. *)
Theorem outbound_remove_respects_dependents m tag it :
  outbounds_ok m -> outboundByTag m !! tag = Some it ->
  let o := Remove close m tag in
  if depended m tag
  then exists l, o_err o = Err (E_New ["outbound["; tag; "] is depended by "; l])
  else o_err o = (if started m then to_result (close it) else Ok tt) /\
       o_calls o = (if started m then [CallClose it] else []) /\
       outbounds_ok (o_manager o) /\ outboundByTag (o_manager o) !! tag = None /\
       (forall y, y ∈ outbounds (o_manager o) <-> y ∈ outbounds m /\ y <> it).
Proof.
  intros Hok Hl. pose proof (depended_dependents m tag Hok) as Hdep. destruct Hok as (Hids & Hm & Hd & Hnd).
  unfold Remove. rewrite Hl. apply Hm in Hl as [Hi Ht]. destruct (index_of_elem _ _ Hi) as (i & x & Hx & _ & _). simpl. rewrite Hx.
  set (m1 := match defaultOutbound m with Some y => _ | None => _ end).
  assert (dependByTag m1 = dependByTag m /\ outbounds m1 = remove_at i (outbounds m) /\ started m1 = started m
          /\ outboundByTag m1 = delete tag (outboundByTag m)) as (E1 & E2 & E3 & E4).
  { subst m1. destruct (defaultOutbound m); [|done]. by destruct (_ =? _)%nat. }
  clearbody m1. rewrite E1. fold (dependents (dependByTag m) tag). rewrite <- Hdep.
  destruct (depended m tag) eqn:Hdt; [by eexists|]. simpl. rewrite E3.
  destruct (remove_at_index _ _ _ Hids Hi Hx) as (Hp & Hn' & _).
  pose proof (fun y => remove_at_elem it (outbounds m) i y Hids Hi Hx) as Hrm.
  assert (forall m2, outbounds m2 = remove_at i (outbounds m) -> outboundByTag m2 = delete tag (outboundByTag m) ->
    dependByTag m2 = fold_left (dropDependency tag) (it_Dependencies it) (dependByTag m) -> outbounds_ok m2) as Hok'.
  { intros m2 F2 F4 F1. split_and!; rewrite ?F1, ?F2, ?F4.
    - done.
    - intros tag' y. rewrite Hrm. destruct (decide (tag' = tag)) as [->|Hne].
      + rewrite lookup_delete_eq. split; [done|]. intros [[Hy Hyi] Hyt]. destruct Hyi.
        assert (Some y = Some it) as [= ->]; [|done]. by rewrite <- (proj2 (Hm tag y)), <- (proj2 (Hm tag it)).
      + rewrite lookup_delete_ne, Hm by done. naive_solver.
    - intros d t. rewrite dropDependency_fold; [|by apply Hnd|intros e He; apply Hd; eauto]. rewrite Hd. split.
      + intros [(y & Hy & Hyt & Hyd) Hne]. exists y. rewrite Hrm. split_and!; try done. intros ->. naive_solver.
      + intros (y & Hy & Hyt & Hyd). apply Hrm in Hy as [Hy Hyi]. split; [eauto|]. intros [-> _]. apply Hyi.
        assert (Some y = Some it) as [= ->]; [|done]. by rewrite <- (proj2 (Hm tag y)), <- (proj2 (Hm tag it)).
    - intros y Hy. apply Hrm in Hy as [Hy _]. by apply Hnd. }
  destruct (started m); (split_and!; [done|done|by apply Hok'|simpl; rewrite E4; apply lookup_delete_eq|simpl; by rewrite E2]).
Qed.

(** Outbounds are started after the outbounds they depend on, and each at most
    once, also when the start fails halfway; a start without error has started all. *)
Theorem outbounds_start_in_order m l :
  unique_tags l ->
  ordered ∅ (startOutbounds start m l).1 /\
  ((startOutbounds start m l).2 = Ok tt -> (startOutbounds start m l).1 ≡ₚ l).
Proof. apply startObjects_order. Qed.

(** C40: starting ends, and fails only for a reason.  When no outbound fails to start, the start of the outbounds and
    endpoints succeeds exactly when every one can be started after its dependencies; otherwise its error names a path of
    dependencies that leads back to itself, or a dependency as not found.  Such a dependency does not exist, or it
    is an endpoint, which the search for the reason does not know, that cannot be started itself. *)
Theorem outbounds_start_iff_acyclic m l :
  unique_tags l -> Forall (fun it => start it StartStateStart = None) l -> known_in (outboundByTag m) l ->
  ((startOutbounds start m l).2 = Ok tt <-> Forall (startable l) l) /\
  ((startOutbounds start m l).2 = Ok tt \/
   exists it path problem e, it ∈ l /\ explains "outbound" (outboundByTag m) l it path problem e /\
     (startOutbounds start m l).2 = Err e).
Proof. apply startObjects_complete. Qed.

End Outbounds.

(** ** Samples *)

Definition never (it : Item) (_ : StartStage) : option error := None.
Definition closes (it : Item) : option error := None.

Definition direct : Item := mkItem 1 "direct" "direct" [].
Definition group : Item := mkItem 2 "selector" "group" ["direct"].
Definition looping : Item := mkItem 3 "selector" "loop" ["loop"].
Definition direct2 : Item := mkItem 4 "direct" "direct" [].

Lemma managers_start_and_close_once_witness :
  let '(calls, m', panicked) :=
    execute_all never closes "inbound" "inbound" (mkManager true StartStateStarted [] ∅)
      [OpCreate "direct" (Ok direct); OpCreate "direct" (Ok direct2); OpRemove "group"] in
  panicked = false /\
  forall it, about it (calls ++ o_calls (Close m')) =
             if decide (it ∈ [direct; direct2]) then startCalls it ++ [CallClose it] else [].
Proof.
  apply (managers_start_and_close_once never closes "inbound" "inbound" (fun _ _ => eq_refl) (fun _ => eq_refl)
    [OpCreate "direct" (Ok direct); OpCreate "direct" (Ok direct2); OpRemove "group"]); [by repeat constructor|].
  by apply (bool_decide_unpack _).
Defined.

Definition sampleManager (l : list Item) : OutboundManager.Manager :=
  OutboundManager.mkManager "" true StartStateStarted l (list_to_map ((fun it => (it_Tag it, it)) <$> l))
    (fold_left (fun depend it => fold_left (OutboundManager.addDependency (it_Tag it)) (it_Dependencies it) depend) l ∅)
    (head l).

Lemma outbounds_start_in_order_witness :
  ordered ∅ (OutboundManager.startOutbounds never (sampleManager [group; direct]) [group; direct]).1 /\
  ((OutboundManager.startOutbounds never (sampleManager [group; direct]) [group; direct]).2 = Ok tt ->
   (OutboundManager.startOutbounds never (sampleManager [group; direct]) [group; direct]).1 ≡ₚ [group; direct]).
Proof. apply outbounds_start_in_order. by apply (bool_decide_unpack _). Defined.

Lemma outbounds_start_iff_acyclic_witness :
  let m := sampleManager [looping; direct] in
  let l := [looping; direct] in
  ((OutboundManager.startOutbounds never m l).2 = Ok tt <-> Forall (startable l) l) /\
  ((OutboundManager.startOutbounds never m l).2 = Ok tt \/
   exists it path problem e, it ∈ l /\ explains "outbound" (OutboundManager.outboundByTag m) l it path problem e /\
     (OutboundManager.startOutbounds never m l).2 = Err e).
Proof.
  apply (outbounds_start_iff_acyclic never (sampleManager [looping; direct]) [looping; direct]).
  - by apply (bool_decide_unpack _).
  - by repeat constructor.
  - intros t it. simpl. rewrite !lookup_insert_Some, lookup_empty. intros [[<- <-]|[_ [[<- <-]|[_ ?]]]]; [..|done];
      (split; [|done]); by apply (bool_decide_unpack _).
Defined.

(** An outbound that depends on an endpoint that depends on the outbound: the endpoint exists, and is said not to. *)
Example cycle_through_endpoint_misreported :
  let outbound := mkItem 5 "selector" "a" ["e"] in
  let endpoint := mkItem 6 "wireguard" "e" ["a"] in
  let o := OutboundManager.Start never [endpoint] (fun tag => if bool_decide (tag = "e") then Some endpoint else None) (Err ErrInvalid)
    (OutboundManager.mkManager "" false StartStateInitialize [outbound] {["a" := outbound]} ∅ (Some outbound)) StartStateStart in
  o_err o = Err (E_New ["dependency["; "e"; "] not found for outbound["; "a"; "]"]).
Proof. vm_compute. reflexivity. Qed.

Lemma sample_outbounds_ok : outbounds_ok (sampleManager [direct; group]).
Proof.
  split_and!.
  - by apply (bool_decide_unpack _).
  - intros tag it. simpl. rewrite !lookup_insert_Some, lookup_empty, !elem_of_cons, elem_of_nil.
    split; [intros [[<- <-]|[? [[<- <-]|[? ?]]]]; naive_solver|]. intros [[->|[->|[]]] <-]; [by left|right; split; [done|by left]].
  - intros d t. assert (dependents (OutboundManager.dependByTag (sampleManager [direct; group])) d
      = if decide (d = "direct") then ["group"] else []) as ->.
    { etransitivity; [apply (dependents_insert ∅ "direct" d ["group"])|]. unfold dependents. by rewrite lookup_empty. }
    split.
    + case_decide; [|by rewrite elem_of_nil]. subst d. rewrite list_elem_of_singleton. intros ->.
      exists group. split_and!; [by apply (bool_decide_unpack _)|done|by apply (bool_decide_unpack _)].
    + intros (it & Hi & <- & Hd). apply elem_of_cons in Hi as [->|Hi]; [by apply elem_of_nil in Hd|].
      apply list_elem_of_singleton in Hi as ->. apply list_elem_of_singleton in Hd as ->. by apply (bool_decide_unpack _).
  - intros it Hi. apply elem_of_cons in Hi as [->|Hi]; [|apply list_elem_of_singleton in Hi as ->]; by apply (bool_decide_unpack _).
Qed.

Lemma outbound_remove_respects_dependents_witness :
  let o := OutboundManager.Remove closes (sampleManager [direct; group]) "group" in
  o_err o = Ok tt /\ o_calls o = [CallClose group] /\ outbounds_ok (o_manager o).
Proof.
  destruct (outbound_remove_respects_dependents never closes (sampleManager [direct; group]) "group" group sample_outbounds_ok
    eq_refl) as (He & Hc & Hok & _). done.
Defined.

(** A refused removal removes the outbound all the same, without closing it: the
    error is returned after the object was taken out of the list and the map. *)
Theorem refused_remove_loses_outbound :
  let o := OutboundManager.Remove closes (sampleManager [direct; group]) "direct" in
  o_err o = Err (E_New ["outbound["; "direct"; "] is depended by "; "group"]) /\
  o_calls o = [] /\ OutboundManager.outbounds (o_manager o) = [group] /\
  OutboundManager.outboundByTag (o_manager o) !! "direct" = None.
Proof. by split_and!. Qed.

(** Without a default tag the first outbound is the default; creating another one
    under its tag closes it and leaves it the default. *)
Theorem replaced_default_is_closed :
  let o := OutboundManager.Create never closes (sampleManager [direct]) "direct" (Ok direct2) in
  o_err o = Ok tt /\ o_calls o = startCalls direct2 ++ [CallClose direct] /\
  OutboundManager.outbounds (o_manager o) = [direct2] /\
  OutboundManager.defaultOutbound (o_manager o) = Some direct.
Proof. by split_and!. Qed.

(** An outbound that names a dependency twice takes the other dependents with it. *)
Theorem repeated_dependency_loses_dependents :
  let twice := mkItem 5 "selector" "twice" ["direct"; "direct"] in
  let o := OutboundManager.Remove closes (sampleManager [direct; group; twice]) "twice" in
  o_err o = Ok tt /\ group ∈ OutboundManager.outbounds (o_manager o) /\
  dependents (OutboundManager.dependByTag (o_manager o)) "direct" = [].
Proof. split_and!; try done. by apply (bool_decide_unpack _). Qed.
