(* ===== verification/TransportManager.v ===== *)
(** * DNS servers (src/dns/transport_manager.go) *)

From S2P Require Import Prelude GoStd Managers StartOrder.
Import Managers StartOrder.

Module TransportManager.

Definition DNSTypeFakeIP : string := "fakeip".

Record TransportManager : Type := mkTransportManager {
  defaultTag : string;
  started : bool;
  stage_ : StartStage;
  transports : list Item;
  transportByTag : gmap string Item;
  dependByTag : gmap string (list string);
  defaultTransport : option Item;
  fakeIPTransport : option Item;
}.

Definition NewTransportManager (defaultTag : string) : TransportManager :=
  mkTransportManager defaultTag false StartStateInitialize [] ∅ ∅ None None.

Section Manager.
Variables (start : Item -> StartStage -> option error) (close : Item -> option error).

Definition startTransports (m : TransportManager) (l : list Item) : list Item * result unit :=
  startObjects (fun it => start it StartStateStart)
    (fun it => ["start dns/"; it_Type it; "["; it_Tag it; "]"]) "server" (transportByTag m) l.

Definition chooseDefault (m : TransportManager) (fallback : result Item) : result TransportManager :=
  match defaultTransport m with
  | Some _ => Ok m
  | None =>
      if negb (bool_decide (defaultTag m = "")) then Err (E_New ["default DNS server not found: "; defaultTag m])
      else
        it ← map_err (fun e => E_Cause e ["default DNS server fallback"]) fallback;
        Ok {| m with transports := transports m ++ [it];
                     transportByTag := <[it_Tag it := it]> (transportByTag m);
                     defaultTransport := Some it |}
  end.

(** The objects of the other stages, with the parts of their error. *)
Fixpoint startStage (stage : StartStage) (l : list Item) : list call * option error :=
  match l with
  | [] => ([], None)
  | it :: l =>
      match start it stage with
      | Some err => ([CallStart it stage], Some (E_Cause err [stage_String stage; " dns/"; it_Type it; "["; it_Tag it; "]"]))
      | None => let '(calls, err) := startStage stage l in (CallStart it stage :: calls, err)
      end
  end.

Definition Start (fallback : result Item) (m : TransportManager) (stage : StartStage) : outcome TransportManager :=
  if started m && (stage_ord stage <=? stage_ord (stage_ m))%nat
  then mkOutcome (Panic "already started") [] m
  else
    let m := {| m with started := true; stage_ := stage |} in
    if bool_decide (stage = StartStateStart) then
      match chooseDefault m fallback with
      | Err e => mkOutcome (Err e) [] m
      | Panic msg => mkOutcome (Panic msg) [] m
      | Ok m =>
          let '(l, r) := startTransports m (transports m) in
          mkOutcome r ((fun it => CallStart it StartStateStart) <$> l) m
      end
    else let '(calls, err) := startStage stage (transports m) in mkOutcome (to_result err) calls m.

Definition Close (m : TransportManager) : outcome TransportManager :=
  if negb (started m) then mkOutcome (Ok tt) [] m
  else mkOutcome (Ok tt) (CallClose <$> transports m) {| m with started := false; transports := [] |}.

Definition Transport (m : TransportManager) (tag : string) : option Item := transportByTag m !! tag.

Definition dropDependency (tag : string) (depend : gmap string (list string)) (dependency : string)
    : gmap string (list string) :=
  let l := default [] (depend !! dependency) in
  if (length l =? 1)%nat then delete dependency depend
  else <[dependency := List.filter (fun it => negb (bool_decide (it = tag))) l]> depend.

(** The default after its object was removed: the first of the list, which is
    accepted only when it is a FakeIP server. *)
Definition nextDefault (m : TransportManager) : result TransportManager :=
  match transports m with
  | nextTransport :: _ =>
      if negb (bool_decide (it_Type nextTransport = DNSTypeFakeIP))
      then Err (E_New ["default server cannot be fakeip"])
      else Ok {| m with defaultTransport := Some nextTransport |}
  | [] => Ok {| m with defaultTransport := None |}
  end.

Definition Remove (m : TransportManager) (tag : string) : outcome TransportManager :=
  match transportByTag m !! tag with
  | None => mkOutcome (Err ErrInvalid) [] m
  | Some transport =>
      let m := {| m with transportByTag := delete tag (transportByTag m) |} in
      match index_of transport (transports m) with
      | None => mkOutcome (Panic "invalid inbound index") [] m
      | Some index =>
          let m := {| m with transports := remove_at index (transports m) |} in
          match (match defaultTransport m with
                 | Some it => if (it_id it =? it_id transport)%nat then nextDefault m else Ok m
                 | None => Ok m
                 end) with
          | Err e => mkOutcome (Err e) [] m
          | Panic msg => mkOutcome (Panic msg) [] m
          | Ok m =>
              let dependBy := default [] (dependByTag m !! tag) in
              if (0 <? length dependBy)%nat
              then mkOutcome (Err (E_New ["server["; tag; "] is depended by "; strings.Join dependBy ", "])) [] m
              else
                mkOutcome (Ok tt) (if started m then [CallClose transport] else [])
                  {| m with dependByTag := fold_left (dropDependency tag) (it_Dependencies transport) (dependByTag m) |}
          end
      end
  end.

(** The stages of an object created after the manager was started. *)
Fixpoint startStages (it : Item) (stages : list StartStage) : list call * option error :=
  match stages with
  | [] => ([], None)
  | stage :: stages =>
      match start it stage with
      | Some err => ([CallStart it stage], Some (E_Cause err [stage_String stage; " dns/"; it_Type it; "["; it_Tag it; "]"]))
      | None => let '(calls, err) := startStages it stages in (CallStart it stage :: calls, err)
      end
  end.

Definition replaceExisting (m : TransportManager) (tag : string) : outcome TransportManager :=
  match transportByTag m !! tag with
  | None => mkOutcome (Ok tt) [] m
  | Some exists_ =>
      let calls := if started m then [CallClose exists_] else [] in
      match (if started m then close exists_ else None) with
      | Some err => mkOutcome (Err (E_Cause err ["close dns/"; it_Type exists_; "["; it_Tag exists_; "]"])) calls m
      | None =>
          match index_of exists_ (transports m) with
          | None => mkOutcome (Panic "invalid inbound index") calls m
          | Some index => mkOutcome (Ok tt) calls {| m with transports := remove_at index (transports m) |}
          end
      end
  end.

Definition addDependency (tag : string) (depend : gmap string (list string)) (dependency : string)
    : gmap string (list string) :=
  <[dependency := default [] (depend !! dependency) ++ [tag]]> depend.

(** Adds the server, then makes it the default and the FakeIP server where it
    applies; the errors leave it added. *)
Definition register (m : TransportManager) (tag : string) (transport : Item) : result unit * TransportManager :=
  let isFakeIP := bool_decide (it_Type transport = DNSTypeFakeIP) in
  let m := {| m with transports := transports m ++ [transport];
                     transportByTag := <[tag := transport]> (transportByTag m);
                     dependByTag := fold_left (addDependency tag) (it_Dependencies transport) (dependByTag m) |} in
  let isDefault := bool_decide (tag = defaultTag m)
                   || (bool_decide (defaultTag m = "") && negb (bool_decide (is_Some (defaultTransport m)))) in
  if isDefault && isFakeIP then (Err (E_New ["default server cannot be fakeip"]), m)
  else
    let m := if isDefault then {| m with defaultTransport := Some transport |} else m in
    if isFakeIP then
      if bool_decide (is_Some (fakeIPTransport m)) then (Err (E_New ["multiple fakeip server are not supported"]), m)
      else (Ok tt, {| m with fakeIPTransport := Some transport |})
    else (Ok tt, m).

Definition Create (m : TransportManager) (tag : string) (created : result Item) : outcome TransportManager :=
  if bool_decide (tag = "") then mkOutcome (Err ErrInvalid) [] m
  else
    match created with
    | Err e => mkOutcome (Err e) [] m
    | Panic msg => mkOutcome (Panic msg) [] m
    | Ok transport =>
        let '(calls, err) := if started m then startStages transport ListStartStages else ([], None) in
        match err with
        | Some e => mkOutcome (Err e) calls m
        | None =>
            let r := replaceExisting m tag in
            match o_err r with
            | Ok _ =>
                let '(e, m) := register (o_manager r) tag transport in
                mkOutcome e (calls ++ o_calls r) m
            | e => mkOutcome e (calls ++ o_calls r) (o_manager r)
            end
        end
    end.

(** Servers are started after the servers they depend on, each at most once. *)
Lemma transports_start_in_order m l :
  unique_tags l ->
  ordered ∅ (startTransports m l).1 /\ ((startTransports m l).2 = Ok tt -> (startTransports m l).1 ≡ₚ l).
Proof. apply startObjects_order. Qed.

(** Without failing starts, the start succeeds exactly when the dependencies can be
    ordered, and otherwise explains itself. *)
Lemma transports_start_iff_acyclic m l :
  unique_tags l -> Forall (fun it => start it StartStateStart = None) l -> known_in (transportByTag m) l ->
  ((startTransports m l).2 = Ok tt <-> Forall (startable l) l) /\
  ((startTransports m l).2 = Ok tt \/
   exists it path problem e, it ∈ l /\ explains "server" (transportByTag m) l it path problem e /\
     (startTransports m l).2 = Err e).
Proof. apply startObjects_complete. Qed.

(** The check of the next default is inverted: removing the default server while an
    ordinary one remains fails with the message about FakeIP servers, after the
    server was taken out of the list and the map but not closed, and leaves it the
    default. *)
Theorem removing_default_server_fails m tag it next rest :
  transportByTag m !! tag = Some it -> transports m = it :: next :: rest -> defaultTransport m = Some it ->
  it_Type next <> DNSTypeFakeIP ->
  let o := Remove m tag in
  o_err o = Err (E_New ["default server cannot be fakeip"]) /\ o_calls o = [] /\
  transports (o_manager o) = next :: rest /\ defaultTransport (o_manager o) = Some it.
Proof.
  intros Hl Ht Hd Hn. unfold Remove. rewrite Hl. simpl. rewrite Ht. simpl. rewrite Nat.eqb_refl. simpl.
  rewrite Hd, Nat.eqb_refl. unfold nextDefault. simpl. by rewrite bool_decide_false.
Qed.

End Manager.

End TransportManager.
