(* ===== verification/URLTest.v ===== *)
(** * URL test groups (src/protocol/group/urltest.go, src/common/urltest/urltest.go,
    src/common/interrupt/group.go)

    A group tests its outbounds and selects one for each network: the fastest one
    within a tolerance or, with failover strikes, the current one until it failed
    that many times in a row.  A test is a parameter: it gives the delay in
    milliseconds or fails.  Groups test members that are groups themselves, and
    then report the result to them; [World] holds the groups by reference. *)

From S2P Require Import Prelude Route.

Open Scope Z_scope.

Module URLTest.

Abbreviation NetworkTCP := Route.NetworkTCP.
Abbreviation NetworkUDP := Route.NetworkUDP.

(** An [adapter.Outbound]: a reference, and its tag. *)
Record Outbound : Type := mkOutbound { ptr : nat; Tag : string }.

#[export] Instance Outbound_eq_dec : EqDecision Outbound.
Proof. solve_decision. Defined.

(** ** History (src/common/urltest/urltest.go) *)

Record URLTestHistory : Type := mkHistory { Time : Z; Delay : Z }.

Definition HistoryStorage : Type := gmap string URLTestHistory.
Definition NewHistoryStorage : HistoryStorage := ∅.
Definition LoadURLTestHistory (s : HistoryStorage) (tag : string) : option URLTestHistory := s !! tag.
Definition DeleteURLTestHistory (s : HistoryStorage) (tag : string) : HistoryStorage := delete tag s.
Definition StoreURLTestHistory (s : HistoryStorage) (tag : string) (h : URLTestHistory) : HistoryStorage :=
  <[tag := h]> s.

(** ** Connections of a group (src/common/interrupt/group.go) *)

Record groupConnItem : Type := mkItem { conn : nat; isExternal : bool }.

Definition NewConn (connections : list groupConnItem) (conn : nat) (isExternal : bool) : list groupConnItem :=
  connections ++ [mkItem conn isExternal].

(** The connections that are closed, and those that stay. *)
Definition Interrupt (connections : list groupConnItem) (interruptExternalConnections : bool)
    : list nat * list groupConnItem :=
  let closes e := negb (isExternal e) || interruptExternalConnections in
  (conn <$> List.filter closes connections, List.filter (fun e => negb (closes e)) connections).

(** ** The group *)

Record URLTestGroup : Type := mkGroup {
  outbounds : list Outbound;
  interval : Z;
  tolerance : Z;
  idleTimeout : Z;
  checking : bool;
  selectedOutboundTCP : option Outbound;
  selectedOutboundUDP : option Outbound;
  connections : list groupConnItem;
  interruptExternalConnections : bool;
  ticker : option nat;
  closed : bool;
  started : bool;
  lastActive : Z;
  failoverStrikes : Z;
  strikes : gmap string Z;
  recheckPending : bool;
}.

Definition DefaultURLTestInterval : Z := 180 * 10 ^ 9.
Definition DefaultURLTestIdleTimeout : Z := 1800 * 10 ^ 9.
Definition failoverRecheckDelay : Z := 15 * 10 ^ 9.

Definition NewURLTestGroup (outbounds : list Outbound) (interval tolerance idleTimeout : Z)
    (interruptExternalConnections : bool) : result URLTestGroup :=
  let interval := if interval =? 0 then DefaultURLTestInterval else interval in
  let tolerance := if tolerance =? 0 then 50 else tolerance in
  let idleTimeout := if idleTimeout =? 0 then DefaultURLTestIdleTimeout else idleTimeout in
  if idleTimeout <? interval then Err (E_New ["interval must be less or equal than idle_timeout"])
  else Ok (mkGroup outbounds interval tolerance idleTimeout false None None [] interruptExternalConnections
             None false false 0 0 ∅ false).

Definition Now (g : URLTestGroup) : string :=
  match selectedOutboundTCP g with
  | Some o => Tag o
  | None => match selectedOutboundUDP g with Some o => Tag o | None => "" end
  end.

(** *** Strikes *)

Definition strikesOf (g : URLTestGroup) (realTag : string) : Z := default 0 (strikes g !! realTag).
Definition condemned (g : URLTestGroup) (realTag : string) : bool := failoverStrikes g <=? strikesOf g realTag.
Definition addStrike (g : URLTestGroup) (realTag : string) : Z * URLTestGroup :=
  let count := strikesOf g realTag + 1 in (count, {| g with strikes := <[realTag := count]> (strikes g) |}).
Definition resetStrikes (g : URLTestGroup) : URLTestGroup := {| g with strikes := ∅ |}.
Definition clearStrikes (g : URLTestGroup) (realTag : string) : URLTestGroup :=
  {| g with strikes := delete realTag (strikes g) |}.

Definition selectedOf (g : URLTestGroup) (network : string) : option Outbound :=
  if bool_decide (network = NetworkTCP) then selectedOutboundTCP g
  else if bool_decide (network = NetworkUDP) then selectedOutboundUDP g else None.

(** What a group sees of its outbounds: the tag a member stands for ([RealTag]: that
    of a group is what it has selected), the networks it supports, and whether the
    manager knows a tag. *)
Record View : Type := mkView {
  RealTag : Outbound -> string;
  Network : Outbound -> list string;
  Known : string -> bool;
}.

Definition supports (v : View) (network : string) (o : Outbound) : bool := bool_decide (network ∈ Network v o).

(** *** Selection *)

(** One outbound of the loop of [Select]; the sum of the delay and the tolerance
    is an [uint16]. *)
Definition selectStep (v : View) (h : HistoryStorage) (tolerance : Z) (network : string)
    (acc : Z * option Outbound) (detour : Outbound) : Z * option Outbound :=
  let '(minDelay, minOutbound) := acc in
  if negb (supports v network detour) then acc
  else
    match LoadURLTestHistory h (RealTag v detour) with
    | None => acc
    | Some history =>
        if (minDelay =? 0) || ((Delay history + tolerance) mod 2 ^ 16 <? minDelay)
        then (Delay history, Some detour) else acc
    end.

Definition selectStart (v : View) (h : HistoryStorage) (g : URLTestGroup) (network : string) : Z * option Outbound :=
  match selectedOf g network with
  | None => (0, None)
  | Some o =>
      match LoadURLTestHistory h (RealTag v o) with
      | None => (0, None)
      | Some history => (Delay history, Some o)
      end
  end.

Definition selectFastest (v : View) (h : HistoryStorage) (g : URLTestGroup) (network : string)
    : option Outbound * bool :=
  match (fold_left (selectStep v h (tolerance g) network) (outbounds g) (selectStart v h g network)).2 with
  | Some minOutbound => (Some minOutbound, true)
  | None => (List.find (supports v network) (outbounds g), false)
  end.

Definition alive (v : View) (g : URLTestGroup) (o : Outbound) : bool := negb (condemned g (RealTag v o)).

(** The outbound, whether it was chosen on evidence, and the group, whose strikes
    are cleared when every candidate is condemned. *)
Definition selectFailover (v : View) (g : URLTestGroup) (network : string) : option Outbound * bool * URLTestGroup :=
  let walk :=
    match List.find (fun o => supports v network o && alive v g o) (outbounds g) with
    | Some detour => (Some detour, true, g)
    | None =>
        match List.find (supports v network) (outbounds g) with
        | Some detour => (Some detour, true, resetStrikes g)
        | None => (None, false, resetStrikes g)
        end
    end in
  match selectedOf g network with
  | Some selected => if alive v g selected then (Some selected, true, g) else walk
  | None => walk
  end.

Definition Select (v : View) (h : HistoryStorage) (g : URLTestGroup) (network : string)
    : option Outbound * bool * URLTestGroup :=
  if 0 <? failoverStrikes g then selectFailover v g network else (selectFastest v h g network, g).

(** What a network has selected after a choice, and whether that replaced another
    outbound. *)
Definition adopt (current choice : option Outbound) (exists_ : bool) : option Outbound * bool :=
  match choice, current with
  | None, _ => (current, false)
  | Some o, None => (Some o, false)
  | Some o, Some c => if exists_ && negb (bool_decide (o = c)) then (Some o, true) else (current, false)
  end.

(** The group, and the connections it closes. *)
Definition performUpdateCheck (v : View) (h : HistoryStorage) (g : URLTestGroup) : URLTestGroup * list nat :=
  let '(tcp, existsTCP, g) := Select v h g NetworkTCP in
  let '(selectedTCP, updatedTCP) := adopt (selectedOutboundTCP g) tcp existsTCP in
  let g := {| g with selectedOutboundTCP := selectedTCP |} in
  let '(udp, existsUDP, g) := Select v h g NetworkUDP in
  let '(selectedUDP, updatedUDP) := adopt (selectedOutboundUDP g) udp existsUDP in
  let g := {| g with selectedOutboundUDP := selectedUDP |} in
  if updatedTCP || updatedUDP then
    let '(closes, stay) := Interrupt (connections g) (interruptExternalConnections g) in
    ({| g with connections := stay |}, closes)
  else (g, []).

(** *** Tests *)

Definition failoverCheckTargets (v : View) (g : URLTestGroup) : list Outbound * URLTestGroup :=
  fold_left (fun acc network =>
    let '(targets, g) := acc in
    let '(outbound, _, g) := selectFailover v g network in
    match outbound with
    | Some o => if bool_decide (o ∈ targets) then (targets, g) else (targets ++ [o], g)
    | None => (targets, g)
    end) [NetworkTCP; NetworkUDP] ([], g).

(** The outbounds a round tests, with their real tags: each real tag once, without a
    recent result unless the round is forced, and known to the manager. *)
Fixpoint roundTests (v : View) (h : HistoryStorage) (interval : Z) (force : bool) (now : Z)
    (checked : gset string) (targets : list Outbound) : list (Outbound * string) :=
  match targets with
  | [] => []
  | detour :: targets =>
      let realTag := RealTag v detour in
      if bool_decide (realTag ∈ checked) then roundTests v h interval force now checked targets
      else if negb force && match LoadURLTestHistory h realTag with
                            | Some history => now - Time history <? interval
                            | None => false
                            end
      then roundTests v h interval force now checked targets
      else
        let rest := roundTests v h interval force now ({[realTag]} ∪ checked) targets in
        if Known v realTag then (detour, realTag) :: rest else rest
  end.

(** A round in progress: what is left to test, whether it asks for a recheck, and the
    delays found. *)
Record Round : Type := mkRound {
  tests : list (Outbound * string);
  needRecheck : bool;
  delays : gmap string Z;
}.

(** The beginning of [urlTest]: nothing when a round is in progress. *)
Definition beginTest (v : View) (h : HistoryStorage) (g : URLTestGroup) (force : bool) (now : Z)
    : option (URLTestGroup * Round) :=
  if checking g then None
  else
    let g := {| g with checking := true |} in
    let '(targets, g) := if 0 <? failoverStrikes g then failoverCheckTargets v g else (outbounds g, g) in
    Some (g, mkRound (roundTests v h (interval g) force now ∅ targets) false ∅).

(** The result of one test. *)
Definition testResult (s : HistoryStorage * URLTestGroup * Round) (now : Z) (test : Outbound * string)
    (outcome : option Z) : HistoryStorage * URLTestGroup * Round :=
  let '(h, g, r) := s in
  let '(detour, realTag) := test in
  match outcome with
  | None =>
      if 0 <? failoverStrikes g then
        let '(count, g) := addStrike g realTag in
        if count <? failoverStrikes g then (h, g, {| r with needRecheck := true |})
        else (DeleteURLTestHistory h realTag, g, r)
      else (DeleteURLTestHistory h realTag, g, r)
  | Some t =>
      (StoreURLTestHistory h realTag (mkHistory now t),
       if 0 <? failoverStrikes g then clearStrikes g realTag else g,
       {| r with delays := <[Tag detour := t]> (delays r) |})
  end.

(** [scheduleCheck]: the delay of the timer it starts, if it starts one. *)
Definition scheduleCheck (g : URLTestGroup) (delay : Z) : URLTestGroup * option Z :=
  if recheckPending g then (g, None) else ({| g with recheckPending := true |}, Some delay).

(** The end of [urlTest] when every test is done; the flag [checking] is released
    after it, by [endTest]. *)
Definition finishTest (v : View) (h : HistoryStorage) (g : URLTestGroup) (r : Round)
    : URLTestGroup * list nat * option Z :=
  let '(g, closes) := performUpdateCheck v h g in
  if needRecheck r then
    let '(g, timer) := scheduleCheck g failoverRecheckDelay in (g, closes, timer)
  else (g, closes, None).

Definition endTest (g : URLTestGroup) : URLTestGroup := {| g with checking := false |}.

(** A whole round, the tests giving [outcome]. *)
Definition urlTest (v : View) (h : HistoryStorage) (g : URLTestGroup) (force : bool) (now : Z)
    (outcome : Outbound * string -> option Z) : HistoryStorage * URLTestGroup * list nat * option Z :=
  match beginTest v h g force now with
  | None => (h, g, [], None)
  | Some (g, r) =>
      let '(h, g, r) := fold_left (fun s test => testResult s now test (outcome test)) (tests r) (h, g, r) in
      let '(g, closes, timer) := finishTest v h g r in (h, endTest g, closes, timer)
  end.

(** The function of the timer of [scheduleCheck]: the group, the delay of the next
    timer and whether a forced round starts. *)
Definition timerFires (g : URLTestGroup) (contextDone : bool) : URLTestGroup * option Z * bool :=
  if contextDone || closed g then ({| g with recheckPending := false |}, None, false)
  else if checking g then
    let g := {| g with recheckPending := false |} in
    let '(g, timer) := scheduleCheck g (10 ^ 9) in (g, timer, false)
  else ({| g with recheckPending := false |}, None, true).

(** Another group tested what this group has selected. *)
Definition onExternalProbe (v : View) (h : HistoryStorage) (g : URLTestGroup) (realTag : string) (failed : bool)
    : HistoryStorage * URLTestGroup * list nat :=
  if negb failed then (h, clearStrikes g realTag, [])
  else
    let '(count, g) := addStrike g realTag in
    if count <? failoverStrikes g then (h, g, [])
    else
      let h := DeleteURLTestHistory h realTag in
      if negb (checking g) then let '(g, closes) := performUpdateCheck v h g in (h, g, closes) else (h, g, []).

Definition onDialFailure (h : HistoryStorage) (g : URLTestGroup) (detour : Outbound)
    : HistoryStorage * URLTestGroup * option Z :=
  if failoverStrikes g =? 0 then (DeleteURLTestHistory h (Tag detour), g, None)
  else let '(g, timer) := scheduleCheck g 0 in (h, g, timer).

(** *** The clock *)

Definition PostStart (g : URLTestGroup) (now : Z) : URLTestGroup :=
  {| g with started := true; lastActive := now |}.

(** The group, and the ticker whose loop starts. *)
Definition Touch (g : URLTestGroup) (now : Z) (fresh : nat) : URLTestGroup * option nat :=
  if negb (started g) then (g, None)
  else
    match ticker g with
    | Some _ => ({| g with lastActive := now |}, None)
    | None => ({| g with ticker := Some fresh |}, Some fresh)
    end.

Definition Close (g : URLTestGroup) : result URLTestGroup :=
  match ticker g with
  | None => Ok g
  | Some _ => if closed g then Panic "close of closed channel"
              else Ok {| g with ticker := None; closed := true |}
  end.

(** [loopCheck] before its loop, and one tick of it: whether a round starts, and
    whether the loop goes on. *)
Definition loopStart (g : URLTestGroup) (now : Z) : URLTestGroup * bool :=
  if interval g <? now - lastActive g then ({| g with lastActive := now |}, true) else (g, false).

Definition loopTick (g : URLTestGroup) (t : nat) (now : Z) : URLTestGroup * bool * bool :=
  if idleTimeout g <? now - lastActive g
  then (if bool_decide (ticker g = Some t) then {| g with ticker := None |} else g, false, false)
  else (g, true, true).

(** ** The outbound (the methods of [URLTest]) *)

Definition NewURLTest (tags : list string) : result (list string) :=
  match tags with [] => Err (E_New ["missing tags"]) | _ => Ok tags end.

Fixpoint findOutbounds (manager : string -> option Outbound) (i : nat) (tags : list string) : result (list Outbound) :=
  match tags with
  | [] => Ok []
  | tag :: tags =>
      match manager tag with
      | None => Err (E_New ["outbound "; pretty i; " not found: "; tag])
      | Some detour => rest ← findOutbounds manager (S i) tags; Ok (detour :: rest)
      end
  end.

Definition Start (v : View) (manager : string -> option Outbound) (h : HistoryStorage) (tags : list string)
    (interval tolerance idleTimeout : Z) (interruptExternalConnections : bool) (failoverStrikes : Z)
    : result URLTestGroup :=
  outbounds ← findOutbounds manager 0 tags;
  group ← NewURLTestGroup outbounds interval tolerance idleTimeout interruptExternalConnections;
  let group := {| group with failoverStrikes := failoverStrikes |} in
  Ok (if 0 <? failoverStrikes then (performUpdateCheck v h group).1 else group).
(** The outbound a connection of a network is dialed with. *)
Definition dialOutbound (v : View) (h : HistoryStorage) (g : URLTestGroup) (selected : option Outbound) (network : string)
    : result Outbound * URLTestGroup :=
  match selected with
  | Some outbound => (Ok outbound, g)
  | None =>
      let '(outbound, _, g) := Select v h g network in
      (match outbound with Some o => Ok o | None => Err (E_New ["missing supported outbound"]) end, g)
  end.

(** What is left when a dial is over: the storage, the group, the loop and the timer
    it started, and the connection. *)
Record Dialed : Type := mkDialed {
  d_history : HistoryStorage;
  d_group : URLTestGroup;
  d_loop : option nat;
  d_timer : option Z;
  d_conn : result nat;
}.

Definition dialWith (h : HistoryStorage) (loop : option nat) (g : URLTestGroup) (outbound : result Outbound)
    (dial : Outbound -> result nat) (external : bool) : Dialed :=
  match outbound with
  | Ok o =>
      match dial o with
      | Ok conn => mkDialed h {| g with connections := NewConn (connections g) conn external |} loop None (Ok conn)
      | Panic msg => mkDialed h g loop None (Panic msg)
      | Err err => let '(h, g, timer) := onDialFailure h g o in mkDialed h g loop timer (Err err)
      end
  | Err err => mkDialed h g loop None (Err err)
  | Panic msg => mkDialed h g loop None (Panic msg)
  end.

(** [NetworkName] and [ErrUnknownNetwork] are those of the package
    sing/common/network. *)
Definition DialContext (NetworkName : string -> string) (ErrUnknownNetwork : error) (v : View) (h : HistoryStorage)
    (g : URLTestGroup) (now : Z) (fresh : nat) (network : string) (dial : Outbound -> result nat) (external : bool) : Dialed :=
  let '(g, loop) := Touch g now fresh in
  let name := NetworkName network in
  if bool_decide (name = NetworkTCP \/ name = NetworkUDP) then
    let '(outbound, g) := dialOutbound v h g (selectedOf g name) network in
    dialWith h loop g outbound dial external
  else mkDialed h g loop None (Err (E_Extend ErrUnknownNetwork network)).

Definition ListenPacket (v : View) (h : HistoryStorage) (g : URLTestGroup) (now : Z) (fresh : nat)
    (listen : Outbound -> result nat) (external : bool) : Dialed :=
  let '(g, loop) := Touch g now fresh in
  let '(outbound, g) := dialOutbound v h g (selectedOutboundUDP g) NetworkUDP in
  dialWith h loop g outbound listen external.

(** ** Groups of groups *)

(** The groups by reference, and the history storage of the context they share. *)
Record World : Type := mkWorld {
  groups : gmap nat URLTestGroup;
  storage : HistoryStorage;
}.

Section World.
(** Outbounds that are no URL test groups, and the tags the manager knows. *)
Variable others : View.

Definition viewOf (w : World) : View := {|
  RealTag o := match groups w !! ptr o with Some g => Now g | None => RealTag others o end;
  Network o := match groups w !! ptr o with Some _ => [NetworkTCP; NetworkUDP] | None => Network others o end;
  Known := Known others;
|}.

(** The end of one test of a round of the group [p]: a member with failover strikes
    is told the result before the group is. *)
Definition completeTest (p : nat) (s : World * Round) (now : Z) (test : Outbound * string) (outcome : option Z)
    : World * Round :=
  let '(w, r) := s in
  let w :=
    match groups w !! ptr test.1 with
    | Some member =>
        if 0 <? failoverStrikes member then
          let '(h, member, _) := onExternalProbe (viewOf w) (storage w) member test.2 (bool_decide (outcome = None)) in
          mkWorld (<[ptr test.1 := member]> (groups w)) h
        else w
    | None => w
    end in
  match groups w !! p with
  | None => (w, r)
  | Some g => let '(h, g, r) := testResult (storage w, g, r) now test outcome in (mkWorld (<[p := g]> (groups w)) h, r)
  end.

(** [CheckOutbounds] of the group [p]. *)
Definition CheckOutbounds (p : nat) (w : World) (force : bool) (now : Z) (outcome : Outbound * string -> option Z) : World :=
  match groups w !! p with
  | None => w
  | Some g =>
      match beginTest (viewOf w) (storage w) g force now with
      | None => w
      | Some (g, r) =>
          let w := mkWorld (<[p := g]> (groups w)) (storage w) in
          let '(w, r) := fold_left (fun s test => completeTest p s now test (outcome test)) (tests r) (w, r) in
          match groups w !! p with
          | None => w
          | Some g =>
              let '(g, _, _) := finishTest (viewOf w) (storage w) g r in
              mkWorld (<[p := endTest g]> (groups w)) (storage w)
          end
      end
  end.
End World.

End URLTest.
