(* ===== verification/URLTestTheorems.v ===== *)
(** * Theorems on URL test groups

    Selection by delay, independence of the order of test results, and the failover
    mode: a reference machine that counts consecutive failures of the current
    outbound, which rounds of the group and reports of other groups implement; what
    is tested at all; and a health check group in front of a failover group. *)

From S2P Require Import Prelude Route URLTest.
From stdpp Require Import list.
Import URLTest.

Open Scope Z_scope.

Arguments Route.NetworkTCP : simpl never.
Arguments Route.NetworkUDP : simpl never.

(** ** Selection by delay *)

Section Fastest.
Context (v : View) (h : HistoryStorage) (g : URLTestGroup) (network : string).
Implicit Types (o c : Outbound) (d : URLTestHistory).

Definition tested o d : Prop := LoadURLTestHistory h (RealTag v o) = Some d.

(** Delays are positive and do not overflow with the tolerance. *)
Definition delays_fit (l : list Outbound) : Prop :=
  forall o d, o ∈ l -> tested o d -> 0 < Delay d /\ Delay d + tolerance g < 2 ^ 16.

(** What the loop keeps: a tested candidate, as fast as every outbound seen up to the
    tolerance, and the current one unless another is faster by more than it. *)
Definition best (seen : list Outbound) (acc : Z * option Outbound) : Prop :=
  match acc.2 with
  | None => acc.1 = 0 /\ forall o d, o ∈ seen -> supports v network o = true -> ~ tested o d
  | Some o => exists d, tested o d /\ acc.1 = Delay d /\ 0 < Delay d
      /\ (selectedOf g network = Some o \/ (o ∈ outbounds g /\ supports v network o = true))
      /\ (forall o' d', o' ∈ seen -> supports v network o' = true -> tested o' d' -> Delay d <= Delay d' + tolerance g)
      /\ (forall c dc, selectedOf g network = Some c -> tested c dc -> o = c \/ Delay d + tolerance g < Delay dc)
  end.

Hypothesis tolerance_ge0 : 0 <= tolerance g.
Hypothesis fits : delays_fit (outbounds g).
Hypothesis current_fits : forall c d, selectedOf g network = Some c -> tested c d -> 0 < Delay d.

Lemma best_start : best [] (selectStart v h g network).
Proof.
  unfold best, selectStart. destruct (selectedOf g network) as [c|] eqn:Ec; [|split; [done|set_solver]].
  destruct (LoadURLTestHistory h (RealTag v c)) as [d|] eqn:Ed; [|split; [done|set_solver]].
  exists d. repeat split; eauto; [set_solver|]. intros c' dc [= ->] _. by left.
Qed.

Lemma best_step seen acc o :
  o ∈ outbounds g -> (acc.2 = None -> forall c d, selectedOf g network = Some c -> ~ tested c d) ->
  best seen acc -> best (seen ++ [o]) (selectStep v h (tolerance g) network acc o).
Proof.
  intros Ho Hnone Hb. destruct acc as [m cur]. unfold selectStep.
  assert (Hkeep : supports v network o = false \/ (forall d, ~ tested o d) \/ (exists d, tested o d /\ cur <> None /\ m <= Delay d + tolerance g) ->
    best (seen ++ [o]) (m, cur)).
  { unfold best in *; cbn in *. destruct cur as [k|].
    - destruct Hb as (d & Hd & -> & Hpos & Hin & Hall & Hc). intros Hcase. exists d. split_and!; auto.
      intros o' d' [?|Ho']%elem_of_app Hs Hd'; [eauto|]. apply list_elem_of_singleton in Ho' as ->.
      destruct Hcase as [?|[?|(d2 & Hd2 & _ & ?)]]; [congruence|naive_solver|].
      unfold tested in *. by simplify_eq.
    - intros Hcase. destruct Hb as [-> Hall]. split; [done|]. intros o' d' [?|Ho']%elem_of_app Hs; [eauto|].
      apply list_elem_of_singleton in Ho' as ->. destruct Hcase as [?|[?|(? & _ & ? & _)]]; [congruence|eauto|done]. }
  destruct (supports v network o) eqn:Es; cbn; [|apply Hkeep; auto].
  destruct (LoadURLTestHistory h (RealTag v o)) as [d|] eqn:Ed;
    [|apply Hkeep; right; left; unfold tested; congruence].
  destruct (fits o d Ho Ed) as [Hpos Hlt]. rewrite Z.mod_small by lia.
  destruct (Z.eqb_spec m 0) as [->|Hm]; cbn.
  - unfold best in *; cbn in *. destruct cur as [k|]; [destruct Hb as (? & _ & ? & ? & _); lia|].
    exists d. split_and!; auto.
    + intros o' d' [?|Ho']%elem_of_app Hs Hd'; [by edestruct (proj2 Hb)|].
      apply list_elem_of_singleton in Ho' as ->. unfold tested in *. simplify_eq. lia.
    + intros c dc Hc Hdc. by edestruct Hnone.
  - unfold best in *; cbn in *. destruct (Z.ltb_spec (Delay d + tolerance g) m) as [Hlt'|Hge].
    + destruct cur as [k|]; [|lia]. destruct Hb as (dk & Hdk & -> & ? & _ & Hall & Hc). exists d. split_and!; auto.
      * intros o' d' [?|Ho']%elem_of_app Hs Hd'; [specialize (Hall o' d'); intuition lia|].
        apply list_elem_of_singleton in Ho' as ->. unfold tested in *. simplify_eq. lia.
      * intros c dc Hsel Hdc. right. destruct (Hc c dc Hsel Hdc) as [->|?]; [unfold tested in *; simplify_eq; lia|lia].
    + apply Hkeep. right. right. exists d. split_and!; auto. by destruct cur; [|lia].
Qed.

Lemma best_fold l seen acc :
  (forall o, o ∈ l -> o ∈ outbounds g) -> (acc.2 = None -> forall c d, selectedOf g network = Some c -> ~ tested c d) ->
  best seen acc -> best (seen ++ l) (fold_left (selectStep v h (tolerance g) network) l acc).
Proof.
  revert seen acc. induction l as [|o l IH]; intros seen acc Hl Hn Hb; cbn; [by rewrite app_nil_r|].
  rewrite cons_middle, (assoc_L (++)). apply IH; [set_solver| |apply best_step; auto; set_solver].
  destruct acc as [m [k|]]; unfold selectStep; cbn; repeat case_match; cbn; try done; auto.
Qed.
End Fastest.

(** Without failover strikes, when some outbound of a network has a test result, the
    group selects for the network a tested outbound whose delay is within the
    tolerance of the delay of every tested outbound of the network, and it leaves a
    tested current outbound only for one that is faster by more than the tolerance
    (for positive delays whose sum with the tolerance fits 16 bits). *)
Theorem urltest_selects_fastest v h g network o' d' :
  failoverStrikes g = 0 -> 0 <= tolerance g ->
  delays_fit v h g (outbounds g) ->
  (forall c d, selectedOf g network = Some c -> tested v h c d -> 0 < Delay d) ->
  o' ∈ outbounds g -> supports v network o' = true -> tested v h o' d' ->
  exists o d, Select v h g network = (Some o, true, g) /\ tested v h o d
    /\ (selectedOf g network = Some o \/ (o ∈ outbounds g /\ supports v network o = true))
    /\ (forall o1 d1, o1 ∈ outbounds g -> supports v network o1 = true -> tested v h o1 d1 ->
          Delay d <= Delay d1 + tolerance g)
    /\ (forall c dc, selectedOf g network = Some c -> tested v h c dc -> o = c \/ Delay d + tolerance g < Delay dc).
Proof.
  intros Hn Htol Hfit Hcur Ho' Hs' Hd'. unfold Select, selectFastest. rewrite Hn. cbn.
  assert (Hb : best v h g network (outbounds g)
    (fold_left (selectStep v h (tolerance g) network) (outbounds g) (selectStart v h g network))).
  { apply (best_fold v h g network Htol Hfit Hcur (outbounds g) []); [done| |by apply best_start].
    unfold selectStart, tested. intros Hnone c d Hc. rewrite Hc in Hnone. by case_match. }
  destruct (fold_left _ _ _) as [m [o|]]; unfold best in Hb; cbn in *.
  - destruct Hb as (d & Hd & -> & _ & Hin & Hall & Hc). exists o, d. done.
  - by edestruct (proj2 Hb o' d').
Qed.

(** ** The order of the results of a round *)

Ltac results E E1 E2 :=
  repeat (cbn; rewrite ?E, ?E1, ?E2; rewrite ?lookup_insert_ne, ?lookup_delete_ne by done).

Lemma testResult_comm s now t1 t2 out1 out2 :
  t1.2 <> t2.2 -> Tag t1.1 <> Tag t2.1 ->
  testResult (testResult s now t1 out1) now t2 out2 = testResult (testResult s now t2 out2) now t1 out1.
Proof.
  intros Hr Ht. destruct s as [[h g] r], t1 as [o1 r1], t2 as [o2 r2]; cbn in Hr, Ht.
  unfold testResult, addStrike, clearStrikes, strikesOf, DeleteURLTestHistory, StoreURLTestHistory.
  destruct g as [? ? ? ? ? ? ? ? ? ? ? ? ? n st ?], r.
  destruct (0 <? n) eqn:E, (default 0 (st !! r1) + 1 <? n) eqn:E1, (default 0 (st !! r2) + 1 <? n) eqn:E2,
    out1 as [x1|], out2 as [x2|]; progress results E E1 E2;
    repeat match goal with
    | |- (_, _) = (_, _) => f_equal
    | |- mkGroup _ _ _ _ _ _ _ _ _ _ _ _ _ _ _ _ = _ => f_equal
    | |- mkRound _ _ _ = _ => f_equal
    end;
    first [done | apply insert_insert_ne; done | apply delete_delete | apply delete_insert_ne; done
          | symmetry; apply delete_insert_ne; done].
Qed.

Lemma roundTests_spec v h i force now checked targets :
  NoDup (roundTests v h i force now checked targets).*2
  /\ forall t, t ∈ roundTests v h i force now checked targets ->
       t.1 ∈ targets /\ t.2 = RealTag v t.1 /\ (t.2 ∉ checked) /\ Known v t.2 = true.
Proof.
  revert checked. induction targets as [|o targets IH]; intros checked; cbn [roundTests].
  { split; [constructor|set_solver]. }
  case_bool_decide as Hc; [|case_match].
  1-2: destruct (IH checked) as [? Ht]; split; [done|]; intros t Hin; destruct (Ht t Hin); set_solver.
  destruct (IH ({[RealTag v o]} ∪ checked)) as [Hnd Ht]. destruct (Known v (RealTag v o)) eqn:Ek.
  - split.
    + cbn. apply NoDup_cons. split; [|done]. intros (t & Et & Hin)%list_elem_of_fmap.
      destruct (Ht t Hin) as (_ & _ & Hn & _). set_solver.
    + intros t [->|Hin]%elem_of_cons; [cbn; set_solver|]. destruct (Ht t Hin) as (? & ? & ? & ?). set_solver.
  - split; [done|]. intros t Hin. destruct (Ht t Hin) as (? & ? & ? & ?). set_solver.
Qed.

Lemma results_permute now (outcome : Outbound * string -> option Z) l1 l2 s :
  (forall t1 t2, t1 ∈ l1 -> t2 ∈ l1 -> t1 <> t2 -> t1.2 <> t2.2 /\ Tag t1.1 <> Tag t2.1) -> NoDup l1 -> l1 ≡ₚ l2 ->
  fold_left (fun s t => testResult s now t (outcome t)) l1 s
  = fold_left (fun s t => testResult s now t (outcome t)) l2 s.
Proof.
  intros Hne Hnd Hp. revert s. induction Hp as [|t l1 l2 Hp IH|t1 t2 l|l1 l2 l3 Hp1 IH1 Hp2 IH2]; intros s; cbn.
  - done.
  - apply NoDup_cons in Hnd as [_ ?]. apply IH; [|done]. intros; apply Hne; set_solver.
  - rewrite testResult_comm; [done|..]; apply NoDup_cons in Hnd as [Hn _];
      apply (Hne t2 t1); set_solver.
  - rewrite IH1 by done. apply IH2; [|by rewrite <- Hp1]. intros t1 t2. rewrite <- Hp1. apply Hne.
Qed.

(** The tests of a round run in parallel; whatever the order in which they end, the
    round leaves the same results, strikes, request for a recheck and reported
    delays (the outbounds of a group are found by tag, so two with one tag are one). *)
Theorem results_in_any_order v h g force now g' r outcome order :
  beginTest v h g force now = Some (g', r) ->
  (forall t1 t2, t1 ∈ tests r -> t2 ∈ tests r -> Tag t1.1 = Tag t2.1 -> t1.1 = t2.1) ->
  order ≡ₚ tests r ->
  fold_left (fun s t => testResult s now t (outcome t)) order (h, g', r)
  = fold_left (fun s t => testResult s now t (outcome t)) (tests r) (h, g', r).
Proof.
  unfold beginTest. case_match; [done|]. match goal with |- context [let '(_, _) := ?x in _] => destruct x as [targets g1] end. intros [= <- <-] Htag Hp.
  cbn [tests] in *. set (l := roundTests _ _ _ _ _ _ _) in *.
  destruct (roundTests_spec v h (interval g1) force now ∅ targets) as [Hnd Hin].
  symmetry. apply results_permute; [|exact (NoDup_fmap_1 _ _ Hnd)|by symmetry].
  intros t1 t2 H1 H2 Hne. assert (Heq : t1.1 = t2.1 -> False).
  { intros E. apply Hne. destruct (Hin t1 H1) as (_ & E1 & _), (Hin t2 H2) as (_ & E2 & _).
    destruct t1, t2; cbn in *. by subst. }
  split; [|by intros E; apply Heq, Htag]. intros E. apply Hne.
  destruct (list_elem_of_lookup_1 _ _ H1) as [i Hi], (list_elem_of_lookup_1 _ _ H2) as [j Hj].
  assert (i = j); [|congruence]. apply (NoDup_lookup l.*2 i j t1.2 Hnd); rewrite list_lookup_fmap.
  - by rewrite Hi.
  - by rewrite Hj, E.
Qed.

(** ** Failover *)

Lemma find_ext {A} (p q : A -> bool) l : (forall x, x ∈ l -> p x = q x) -> List.find p l = List.find q l.
Proof.
  induction l as [|x l IH]; intros H; cbn; [done|]. rewrite (H x) by set_solver. case_match; [done|].
  apply IH. set_solver.
Qed.

Lemma find_in {A} (p : A -> bool) l x : List.find p l = Some x -> x ∈ l /\ p x = true.
Proof. intros H. apply List.find_some in H as [H ?]. by apply list_elem_of_In in H. Qed.

(** The reference machine: the current outbound, its failures in a row, and the tags
    that were given up.  It has no next state when every outbound was given up. *)
Record Watch : Type := mkWatch { current : Outbound; count : Z; dead : gset string }.

Definition watchStep (limit : Z) (outs : list Outbound) (w : Watch) (ok : bool) : option Watch :=
  if ok then Some (mkWatch (current w) 0 (dead w))
  else if count w + 1 <? limit then Some (mkWatch (current w) (count w + 1) (dead w))
  else
    let dead := {[Tag (current w)]} ∪ dead w in
    o ← List.find (fun o => bool_decide (Tag o ∉ dead)) outs;
    Some (mkWatch o 0 dead).

Fixpoint watchRun (limit : Z) (outs : list Outbound) (w : Watch) (oks : list bool) : option Watch :=
  match oks with
  | [] => Some w
  | ok :: oks => w ← watchStep limit outs w ok; watchRun limit outs w oks
  end.

(** The outbounds of the group are no groups, support both networks and are known to
    the manager. *)
Definition plain (v : View) (outs : list Outbound) : Prop :=
  forall o, o ∈ outs -> RealTag v o = Tag o /\ supports v NetworkTCP o = true /\ supports v NetworkUDP o = true
    /\ Known v (Tag o) = true.

Record watching (g : URLTestGroup) (w : Watch) : Prop := {
  w_limit : 0 < failoverStrikes g;
  w_tcp : selectedOutboundTCP g = Some (current w);
  w_udp : selectedOutboundUDP g = Some (current w);
  w_member : current w ∈ outbounds g;
  w_count : strikesOf g (Tag (current w)) = count w;
  w_below : 0 <= count w < failoverStrikes g;
  w_alive : Tag (current w) ∉ dead w;
  w_dead : forall t, t ∈ dead w -> failoverStrikes g <= strikesOf g t;
  w_fresh : forall t, t ∉ dead w -> t <> Tag (current w) -> strikesOf g t = 0;
}.

Lemma selectedOf_tcp g : selectedOf g NetworkTCP = selectedOutboundTCP g.
Proof. done. Qed.
Lemma selectedOf_udp g : selectedOf g NetworkUDP = selectedOutboundUDP g.
Proof. done. Qed.

Lemma selectFailover_kept v g n c : selectedOf g n = Some c -> alive v g c = true -> selectFailover v g n = (Some c, true, g).
Proof. intros Hs Ha. unfold selectFailover. by rewrite Hs, Ha. Qed.

Lemma selectFailover_next v g n o :
  match selectedOf g n with Some c => alive v g c = false | None => True end ->
  List.find (fun o => supports v n o && alive v g o) (outbounds g) = Some o ->
  selectFailover v g n = (Some o, true, g).
Proof. intros Hs Hf. unfold selectFailover. rewrite Hf. destruct (selectedOf g n); [by rewrite Hs|done]. Qed.

Section Watching.
Context (v : View).
Implicit Types (g : URLTestGroup) (w : Watch) (h : HistoryStorage).

Lemma plain_alive g o : plain v (outbounds g) -> o ∈ outbounds g -> alive v g o = negb (condemned g (Tag o)).
Proof. intros Hp Ho. unfold alive. by destruct (Hp o Ho) as [-> _]. Qed.

Lemma watching_alive g w : plain v (outbounds g) -> watching g w -> alive v g (current w) = true.
Proof.
  intros Hp W. rewrite plain_alive by (done || apply W). unfold condemned. rewrite (w_count _ _ W).
  pose proof (w_below _ _ W). rewrite negb_true_iff. lia.
Qed.

Lemma selectFailover_udp g x :
  selectFailover v {| g with selectedOutboundTCP := x |} NetworkUDP
  = let '(o, e, g') := selectFailover v g NetworkUDP in (o, e, {| g' with selectedOutboundTCP := x |}).
Proof.
  unfold selectFailover. rewrite !selectedOf_udp. cbn [outbounds selectedOutboundUDP].
  change (alive v {| g with selectedOutboundTCP := x |}) with (alive v g).
  destruct g; cbn. repeat case_match; simplify_eq; done.
Qed.

(** An update when both networks choose one outbound. *)
Lemma update_selects h g o :
  0 < failoverStrikes g -> (forall n, n = NetworkTCP \/ n = NetworkUDP -> selectFailover v g n = (Some o, true, g)) ->
  exists stay closes, performUpdateCheck v h g
    = ({| g with selectedOutboundTCP := Some o; selectedOutboundUDP := Some o; connections := stay |}, closes).
Proof.
  intros Hl Hs. unfold performUpdateCheck, Select. rewrite (proj2 (Z.ltb_lt _ _) Hl), Hs by auto.
  assert (Ha : forall c, exists b, adopt c (Some o) true = (Some o, b)).
  { intros [c|]; cbn; [|eauto]. case_bool_decide; subst; cbn; eauto. }
  destruct (Ha (selectedOutboundTCP g)) as [b1 ->]. cbn [failoverStrikes].
  rewrite (proj2 (Z.ltb_lt _ _) Hl), selectFailover_udp, Hs by auto. cbn [selectedOutboundUDP].
  destruct (Ha (selectedOutboundUDP g)) as [b2 ->]. destruct (b1 || b2); [|by eexists (connections g), []].
  cbn. by eexists _, _.
Qed.

Lemma watching_selects g w n :
  plain v (outbounds g) -> watching g w -> n = NetworkTCP \/ n = NetworkUDP ->
  selectFailover v g n = (Some (current w), true, g).
Proof.
  intros Hp W [-> | ->]; apply selectFailover_kept; (by apply watching_alive) || apply W.
Qed.

Lemma watching_cleared g w :
  watching g w -> watching (clearStrikes g (Tag (current w))) (mkWatch (current w) 0 (dead w)).
Proof.
  intros [Hl Ht Hu Hm Hc Hb Ha Hd Hf]. unfold clearStrikes, strikesOf in *.
  constructor; cbn; try (done || lia); unfold strikesOf; cbn.
  - by rewrite lookup_delete_eq.
  - intros t Hin. rewrite lookup_delete_ne; [by apply Hd|]. congruence.
  - intros t Hn Hne. rewrite lookup_delete_ne; [by apply Hf|congruence].
Qed.

Lemma watching_struck g w :
  watching g w -> count w + 1 < failoverStrikes g ->
  watching (addStrike g (Tag (current w))).2 (mkWatch (current w) (count w + 1) (dead w)).
Proof.
  intros [Hl Ht Hu Hm Hc Hb Ha Hd Hf] Hlt. unfold addStrike, strikesOf in *.
  constructor; cbn; try (done || lia); unfold strikesOf; cbn.
  - rewrite lookup_insert_eq. cbn. lia.
  - intros t Hin. rewrite lookup_insert_ne; [by apply Hd|]. congruence.
  - intros t Hn Hne. rewrite lookup_insert_ne; [by apply Hf|congruence].
Qed.

Lemma struck_condemned g w t :
  watching g w -> failoverStrikes g <= count w + 1 ->
  condemned (addStrike g (Tag (current w))).2 t = bool_decide (t ∈ {[Tag (current w)]} ∪ dead w).
Proof.
  intros W Hge. unfold condemned, addStrike, strikesOf; cbn. pose proof (w_limit _ _ W). pose proof (w_count _ _ W) as Hc.
  unfold strikesOf in Hc. destruct (decide (t = Tag (current w))) as [->|Hne].
  { rewrite lookup_insert_eq, bool_decide_true by set_solver. cbn. lia. }
  rewrite lookup_insert_ne by done. case_bool_decide as Ht.
  - apply Z.leb_le, (w_dead _ _ W). set_solver.
  - pose proof (w_fresh _ _ W t ltac:(set_solver) Hne) as Hz. unfold strikesOf in Hz. rewrite Hz. lia.
Qed.

(** The last failure moves both networks to the first outbound that was not given up. *)
Lemma watching_fails_over h g w o :
  plain v (outbounds g) -> watching g w -> failoverStrikes g <= count w + 1 ->
  List.find (fun o => bool_decide (Tag o ∉ ({[Tag (current w)]} ∪ dead w : gset string))) (outbounds g) = Some o ->
  exists stay closes, let g1 := (addStrike g (Tag (current w))).2 in
  let g2 := {| g1 with selectedOutboundTCP := Some o; selectedOutboundUDP := Some o; connections := stay |} in
  performUpdateCheck v h g1 = (g2, closes) /\ watching g2 (mkWatch o 0 ({[Tag (current w)]} ∪ dead w)).
Proof.
  intros Hp W Hge Hf. set (g1 := (addStrike g (Tag (current w))).2).
  assert (Ha : forall o, o ∈ outbounds g -> alive v g1 o = bool_decide (Tag o ∉ ({[Tag (current w)]} ∪ dead w : gset string))).
  { intros o' Ho'. rewrite (plain_alive g1) by done. unfold g1. rewrite struck_condemned by done. by rewrite <- bool_decide_not. }
  destruct (update_selects h g1 o) as (stay & closes & E); [apply W| |].
  - intros n Hn. apply selectFailover_next.
    + assert (selectedOf g1 n = Some (current w)) as ->
        by (destruct Hn as [-> | ->]; apply W).
      rewrite Ha by apply W. apply bool_decide_false. set_solver.
    + rewrite <- Hf. apply find_ext. intros o' Ho'. rewrite Ha by done. destruct (Hp o' Ho') as (_ & ? & ? & _).
      by destruct Hn as [-> | ->]; rewrite H || rewrite H0.
  - exists stay, closes. split; [done|]. apply find_in in Hf as [Ho Hal]. apply bool_decide_eq_true in Hal.
    assert (Hs : forall t, strikesOf g1 t = (if decide (t = Tag (current w)) then count w + 1 else strikesOf g t)).
    { intros t. unfold g1, addStrike, strikesOf; cbn. destruct (decide _) as [->|].
      - rewrite lookup_insert_eq. cbn. pose proof (w_count _ _ W). unfold strikesOf in *. lia.
      - by rewrite lookup_insert_ne. }
    pose proof (w_limit _ _ W).
    constructor; cbn; try (done || lia); intros; change (strikesOf _ ?x) with (strikesOf g1 x); rewrite Hs; case_decide.
    + exfalso. clear -Hal H0. set_solver.
    + apply (w_fresh _ _ W); [clear -Hal; set_solver|done].
    + done.
    + apply (w_dead _ _ W). clear -H0 H1. set_solver.
    + exfalso. clear -H0 H2. set_solver.
    + apply (w_fresh _ _ W); [clear -H0; set_solver|done].
Qed.

(** What the steps keep of a group. *)
Definition same_setup g g' : Prop :=
  outbounds g' = outbounds g /\ failoverStrikes g' = failoverStrikes g /\ checking g' = checking g.

Lemma watchStep_cases limit outs w ok w' :
  watchStep limit outs w ok = Some w' ->
  (ok = true /\ w' = mkWatch (current w) 0 (dead w))
  \/ (ok = false /\ count w + 1 < limit /\ w' = mkWatch (current w) (count w + 1) (dead w))
  \/ (ok = false /\ limit <= count w + 1 /\ exists o, w' = mkWatch o 0 ({[Tag (current w)]} ∪ dead w)
      /\ List.find (fun o => bool_decide (Tag o ∉ ({[Tag (current w)]} ∪ dead w : gset string))) outs = Some o).
Proof.
  unfold watchStep. destruct ok; [intros [= <-]; auto|]. destruct (Z.ltb_spec (count w + 1) limit).
  - intros [= <-]. auto.
  - destruct (List.find _ outs) as [o|] eqn:E; cbn; [|done]. intros [= <-]. right. right. eauto.
Qed.

Lemma addStrike_count g w : watching g w -> (addStrike g (Tag (current w))).1 = count w + 1.
Proof. intros W. cbn. by rewrite (w_count _ _ W). Qed.

(** A report of another group is one step of the reference machine. *)
Lemma probe_step h g w failed w' :
  plain v (outbounds g) -> watching g w -> checking g = false ->
  watchStep (failoverStrikes g) (outbounds g) w (negb failed) = Some w' ->
  exists h' g' closes, onExternalProbe v h g (Tag (current w)) failed = (h', g', closes)
    /\ watching g' w' /\ same_setup g g'.
Proof.
  intros Hp W Hck [(Hok & ->)|[(Hok & Hlt & ->)|(Hok & Hge & o & -> & Hf)]]%watchStep_cases;
    unfold onExternalProbe; destruct failed; try done; cbn [negb].
  - eexists _, _, _. split; [done|]. split; [by apply watching_cleared|done].
  - pose proof (addStrike_count _ _ W). destruct (addStrike g _) as [k g1] eqn:E. cbn in H. subst k.
    assert (g1 = (addStrike g (Tag (current w))).2) as -> by by rewrite E. cbn [failoverStrikes addStrike snd].
    rewrite (proj2 (Z.ltb_lt _ _) Hlt). eexists _, _, _. split; [done|]. split; [by apply watching_struck|done].
  - destruct (watching_fails_over (DeleteURLTestHistory h (Tag (current w))) g w o Hp W Hge Hf) as (stay & closes & Eu & W').
    unfold addStrike in *. cbn [snd failoverStrikes checking] in *. rewrite (w_count _ _ W) in *.
    rewrite (proj2 (Z.ltb_ge _ _) Hge), Hck in *. cbn [negb]. rewrite Eu. eexists _, _, _. split; [done|].
    split; [done|]. split_and!; cbn; done.
Qed.

Lemma watching_checking g w b : watching g w -> watching {| g with checking := b |} w.
Proof. intros []. by constructor. Qed.

(** A round tests the current outbound and nothing else. *)
Lemma begin_watching h g w now :
  plain v (outbounds g) -> watching g w -> checking g = false ->
  beginTest v h g true now
  = Some ({| g with checking := true |}, mkRound [(current w, Tag (current w))] false ∅).
Proof.
  intros Hp W Hck. unfold beginTest. rewrite Hck. cbn [failoverStrikes].
  rewrite (proj2 (Z.ltb_lt _ _) (w_limit _ _ W)). unfold failoverCheckTargets. cbn [fold_left].
  rewrite (watching_selects {| g with checking := true |} w) by (auto using watching_checking).
  rewrite bool_decide_false by set_solver. cbn [app].
  rewrite (watching_selects {| g with checking := true |} w) by (auto using watching_checking).
  rewrite bool_decide_true by set_solver.
  cbn [interval]. destruct (Hp (current w) (w_member _ _ W)) as (Er & _ & _ & Hk). cbn [roundTests].
  rewrite Er, bool_decide_false by set_solver. cbn [negb andb]. by rewrite Hk.
Qed.

Lemma update_watching h g w :
  watching g w -> plain v (outbounds g) ->
  exists stay closes,
    let g' := {| g with selectedOutboundTCP := Some (current w); selectedOutboundUDP := Some (current w); connections := stay |} in
    performUpdateCheck v h g = (g', closes) /\ watching g' w.
Proof.
  intros W Hp. destruct (update_selects h g (current w)) as (stay & closes & E); [apply W|intros n; by apply watching_selects|].
  exists stay, closes. split; [done|]. destruct W. by constructor.
Qed.

Lemma watching_pending g w b : watching g w -> watching {| g with recheckPending := b |} w.
Proof. intros []. by constructor. Qed.

Lemma finish_watching h g w r g1 closes :
  performUpdateCheck v h g = (g1, closes) -> watching g1 w ->
  exists g' timer, finishTest v h g r = (g', closes, timer) /\ watching g' w
    /\ same_setup g1 g' /\ (needRecheck r = true -> recheckPending g' = true).
Proof.
  intros E W. unfold finishTest, scheduleCheck. rewrite E. destruct (needRecheck r).
  - destruct (recheckPending g1) eqn:Er; eexists _, _; (split; [done|]); split_and!; auto using watching_pending; done.
  - eexists _, _; (split; [done|]); split_and!; auto; done.
Qed.

(** A round is one step of the reference machine; a failure that is not the last
    leaves a recheck pending. *)
Lemma check_step h g w now outcome w' :
  plain v (outbounds g) -> watching g w -> checking g = false ->
  watchStep (failoverStrikes g) (outbounds g) w (bool_decide (is_Some outcome)) = Some w' ->
  exists h' g' closes timer, urlTest v h g true now (fun _ => outcome) = (h', g', closes, timer)
    /\ watching g' w' /\ same_setup g g'
    /\ (outcome = None -> count w + 1 < failoverStrikes g -> recheckPending g' = true).
Proof.
  intros Hp W Hck Hw. unfold urlTest. rewrite (begin_watching h g w now) by done.
  set (g0 := {| g with checking := true |}). assert (W0 : watching g0 w) by by apply watching_checking.
  cbn [tests fold_left]. unfold testResult. rewrite (proj2 (Z.ltb_lt _ _) (w_limit _ _ W0)).
  assert (Hend : forall h1 g1 g2 r closes,
    performUpdateCheck v h1 g1 = (g2, closes) -> watching g2 w' -> same_setup g0 g2 ->
    (outcome = None -> count w + 1 < failoverStrikes g -> needRecheck r = true) ->
    exists h' g' closes timer,
      (let '(g', closes, timer) := finishTest v h1 g1 r in (h1, endTest g', closes, timer)) = (h', g', closes, timer)
      /\ watching g' w' /\ same_setup g g'
      /\ (outcome = None -> count w + 1 < failoverStrikes g -> recheckPending g' = true)).
  { intros h1 g1 g2 r closes Eu W2 [So Sf] Hr. destruct (finish_watching h1 g1 w' r g2 closes Eu W2) as (g3 & timer & -> & W3 & [So' Sf'] & Hp').
    eexists _, _, _, _. split; [done|]. split_and!; [by apply watching_checking| |cbn; auto].
    split_and!; cbn; try congruence; by rewrite ?So', ?(proj1 Sf'), ?So, ?(proj1 Sf). }
  apply watchStep_cases in Hw as [(Hok & ->)|[(Hok & Hlt & ->)|(Hok & Hge & o & -> & Hf)]];
    destruct outcome as [t|]; try done.
  - pose proof (watching_cleared g0 w W0) as W1.
    destruct (update_watching (StoreURLTestHistory h (Tag (current w)) (mkHistory now t)) _ _ W1 Hp) as (stay & closes & Eu & W2).
    eapply Hend; eauto; done.
  - pose proof (watching_struck g0 w W0 Hlt) as W1. unfold addStrike in *. cbn [snd failoverStrikes] in *.
    rewrite (w_count _ _ W0) in *. rewrite (proj2 (Z.ltb_lt _ _) (Hlt : _ < failoverStrikes g0)).
    destruct (update_watching h _ _ W1 Hp) as (stay & closes & Eu & W2). eapply Hend; eauto; done.
  - destruct (watching_fails_over (DeleteURLTestHistory h (Tag (current w))) g0 w o Hp W0 Hge Hf) as (stay & closes & Eu & W2).
    unfold addStrike in *. cbn [snd failoverStrikes] in *. rewrite (w_count _ _ W0) in *.
    rewrite (proj2 (Z.ltb_ge _ _) (Hge : failoverStrikes g0 <= _)). eapply Hend; eauto; [done|]. change (failoverStrikes g0) with (failoverStrikes g) in Hge. lia.
Qed.
End Watching.

(** What happens to a group with failover strikes between starts of rounds. *)
Variant event : Type :=
| Checked (now : Z) (outcome : option Z)
| Probed (failed : bool)
| DialFailed (o : Outbound)
| TimerFired (contextDone : bool).

Definition happens (v : View) (s : HistoryStorage * URLTestGroup) (e : event) : HistoryStorage * URLTestGroup :=
  let '(h, g) := s in
  match e with
  | Checked now outcome => let '(h, g, _, _) := urlTest v h g true now (fun _ => outcome) in (h, g)
  | Probed failed => let '(h, g, _) := onExternalProbe v h g (Now g) failed in (h, g)
  | DialFailed o => let '(h, g, _) := onDialFailure h g o in (h, g)
  | TimerFired contextDone => (h, (timerFires g contextDone).1.1)
  end.

Definition verdict (e : event) : list bool :=
  match e with
  | Checked _ outcome => [bool_decide (is_Some outcome)]
  | Probed failed => [negb failed]
  | DialFailed _ | TimerFired _ => []
  end.

Lemma happens_step v h g w e oks w' :
  plain v (outbounds g) -> watching g w -> checking g = false ->
  watchRun (failoverStrikes g) (outbounds g) w (verdict e ++ oks) = Some w' ->
  exists h1 g1 w1, happens v (h, g) e = (h1, g1) /\ watching g1 w1 /\ same_setup g g1
    /\ watchRun (failoverStrikes g) (outbounds g) w1 oks = Some w'.
Proof.
  intros Hp W Hck Hr. destruct e as [now outcome|failed|o|d]; cbn [verdict app] in Hr.
  - apply bind_Some in Hr as (w1 & Hw & Hr).
    destruct (check_step v h g w now outcome w1 Hp W Hck Hw) as (h1 & g1 & cl & tm & E & W1 & S & _).
    exists h1, g1, w1. cbn [happens]. by rewrite E.
  - apply bind_Some in Hr as (w1 & Hw & Hr).
    destruct (probe_step v h g w failed w1 Hp W Hck Hw) as (h1 & g1 & cl & E & W1 & S).
    exists h1, g1, w1. cbn [happens]. assert (Now g = Tag (current w)) as -> by (unfold Now; by rewrite (w_tcp _ _ W)). by rewrite E.
  - exists h, (scheduleCheck g 0).1, w. pose proof (w_limit _ _ W). cbn [happens]. unfold onDialFailure, scheduleCheck.
    rewrite (proj2 (Z.eqb_neq _ _)) by lia. destruct (recheckPending g); (split; [done|]); cbn; split_and!; auto using watching_pending; done.
  - exists h, (timerFires g d).1.1, w. cbn [happens]. split; [done|].
    assert ((timerFires g d).1.1 = {| g with recheckPending := false |}) as ->
      by (unfold timerFires; rewrite Hck; by destruct (d || closed g), g; cbn in *; subst).
    split_and!; auto using watching_pending; done.
Qed.

Lemma happens_run v es : forall h g w w',
  plain v (outbounds g) -> watching g w -> checking g = false ->
  watchRun (failoverStrikes g) (outbounds g) w (flat_map verdict es) = Some w' ->
  watching (fold_left (happens v) es (h, g)).2 w'.
Proof.
  induction es as [|e es IH]; intros h g w w' Hp W Hck Hr; cbn [flat_map fold_left] in *; [by injection Hr as <-|].
  destruct (happens_step v h g w e (flat_map verdict es) w' Hp W Hck Hr) as (h1 & g1 & w1 & -> & W1 & (Eo & Ef & Ec) & Hr1).
  apply (IH _ _ w1); [by rewrite Eo|done|congruence|by rewrite Eo, Ef].
Qed.

(** A started group is on its first outbound. *)
Lemma start_watching v manager h tags i t idle ext limit g first rest :
  Start v manager h tags i t idle ext limit = Ok g -> 0 < limit ->
  findOutbounds manager 0 tags = Ok (first :: rest) -> plain v (first :: rest) ->
  watching g (mkWatch first 0 ∅) /\ outbounds g = first :: rest /\ checking g = false /\ failoverStrikes g = limit.
Proof.
  intros Hs Hl Hf Hp. unfold Start in Hs. rewrite Hf in Hs. cbn [mbind result_bind] in Hs.
  apply bind_Ok_inv in Hs as (g0 & Hg & Hs). rewrite (proj2 (Z.ltb_lt _ _) Hl) in Hs. injection Hs as Hs.
  unfold NewURLTestGroup in Hg. destruct (_ <? _) in Hg; [done|]. injection Hg as <-. cbn in Hs.
  match type of Hs with (performUpdateCheck v h ?x).1 = _ => set (g1 := x) in * end.
  destruct (update_selects v h g1 first) as (stay & closes & E); [done| |].
  - intros n Hn. apply selectFailover_next; [by destruct Hn as [-> | ->]|]. cbn [List.find outbounds g1].
    destruct (Hp first) as (Er & St & Su & _); [set_solver|].
    assert (supports v n first = true) as -> by (by destruct Hn as [-> | ->]).
    assert (alive v g1 first = true) as ->; [|done]. unfold alive, condemned, strikesOf. change (strikes g1) with (∅ : gmap string Z).
    change (failoverStrikes g1) with limit. rewrite lookup_empty, negb_true_iff. cbn. lia.
  - rewrite E in Hs. cbn in Hs. subst g. split; [|done]. constructor; cbn; try (done || set_solver || lia).
Qed.

(** C38: a group with failover strikes whose outbounds are no groups and support both networks
    starts on its first outbound and from then on, through rounds of tests, reports
    of other groups, failed dials and timers, is for both networks where the reference
    machine is: on its current outbound, whatever the delays, until that fails the
    given number of times in a row, and then on the first outbound that did not (as
    long as there is one). *)
Theorem failover_follows_strikes v manager h tags i t idle ext limit g first rest es w :
  Start v manager h tags i t idle ext limit = Ok g -> 0 < limit ->
  findOutbounds manager 0 tags = Ok (first :: rest) -> plain v (first :: rest) ->
  watchRun limit (first :: rest) (mkWatch first 0 ∅) (flat_map verdict es) = Some w ->
  let g' := (fold_left (happens v) es (h, g)).2 in
  selectedOutboundTCP g' = Some (current w) /\ selectedOutboundUDP g' = Some (current w) /\ Now g' = Tag (current w)
  /\ strikesOf g' (Tag (current w)) = count w.
Proof.
  intros Hs Hl Hf Hp Hr. destruct (start_watching _ _ _ _ _ _ _ _ _ _ _ _ Hs Hl Hf Hp) as (W & Ho & Hck & Hn).
  rewrite <- Ho in Hp. pose proof (happens_run v es h g _ w Hp W Hck) as W'. rewrite Ho, Hn in W'. specialize (W' Hr).
  cbn. unfold Now. rewrite (w_tcp _ _ W'). split_and!; try done; apply W'.
Qed.

(** ** What is tested *)

(** The steps of a group with a round in progress or none.  Test results come in any
    order, with reports, dials and timers between them; the history changes at any
    time, other groups share it.  A round releases the group when it updates it. *)
Inductive step (v : View) : HistoryStorage * URLTestGroup * option Round -> HistoryStorage * URLTestGroup * option Round -> Prop :=
| step_begin h g ρ force now g' r :
    beginTest v h g force now = Some (g', r) -> step v (h, g, ρ) (h, g', Some r)
| step_result h g r now outcome test rest h' g' r' :
    tests r ≡ₚ test :: rest -> testResult (h, g, r) now test outcome = (h', g', r') ->
    step v (h, g, Some r) (h', g', Some {| r' with tests := rest |})
| step_finish h g r g' closes timer :
    tests r = [] -> finishTest v h g r = (g', closes, timer) -> step v (h, g, Some r) (h, endTest g', None)
| step_probe h g ρ realTag failed h' g' closes :
    onExternalProbe v h g realTag failed = (h', g', closes) -> step v (h, g, ρ) (h', g', ρ)
| step_dial h g ρ o h' g' timer : onDialFailure h g o = (h', g', timer) -> step v (h, g, ρ) (h', g', ρ)
| step_timer h g ρ contextDone g' timer round :
    timerFires g contextDone = (g', timer, round) -> step v (h, g, ρ) (h, g', ρ)
| step_history h g ρ h' : step v (h, g, ρ) (h', g, ρ).

(** Between rounds nothing that is selected is condemned; a network without a
    selection has no outbound. *)
Definition on_air (v : View) (g : URLTestGroup) (network : string) : Prop :=
  match selectedOf g network with
  | Some o => alive v g o = true
  | None => forall o, o ∈ outbounds g -> supports v network o = false
  end.

Definition chosen (v : View) (g : URLTestGroup) (network : string) : Prop :=
  selectedOf g network = None -> forall o, o ∈ outbounds g -> supports v network o = false.

Record tame (v : View) (s : HistoryStorage * URLTestGroup * option Round) : Prop := {
  t_limit : 0 < failoverStrikes s.1.2;
  t_checking : checking s.1.2 = bool_decide (is_Some s.2);
  t_tcp : chosen v s.1.2 NetworkTCP;
  t_udp : chosen v s.1.2 NetworkUDP;
  t_air : s.2 = None -> on_air v s.1.2 NetworkTCP /\ on_air v s.1.2 NetworkUDP;
}.

Lemma reset_alive v g o : 0 < failoverStrikes g -> alive v (resetStrikes g) o = true.
Proof.
  intros Hl. unfold alive, condemned, strikesOf. cbn [strikes resetStrikes failoverStrikes].
  rewrite lookup_empty, negb_true_iff. cbn. lia.
Qed.

Lemma alive_reset v g o : 0 < failoverStrikes g -> alive v g o = true -> alive v (resetStrikes g) o = true.
Proof. intros. by apply reset_alive. Qed.

(** The choice is alive, and the strikes are those before or none. *)
Lemma selectFailover_spec v g n :
  0 < failoverStrikes g ->
  exists o e g', selectFailover v g n = (o, e, g') /\ (g' = g \/ g' = resetStrikes g)
    /\ match o with
       | Some o => e = true /\ alive v g' o = true
       | None => g' = resetStrikes g /\ forall o, o ∈ outbounds g -> supports v n o = false
       end.
Proof.
  intros Hl. unfold selectFailover.
  set (walk := match List.find (fun o => supports v n o && alive v g o) (outbounds g) with Some _ => _ | None => _ end).
  assert (Hw : exists o e g', walk = (o, e, g') /\ (g' = g \/ g' = resetStrikes g)
    /\ match o with Some o => e = true /\ alive v g' o = true | None => g' = resetStrikes g /\ forall o, o ∈ outbounds g -> supports v n o = false end).
  { unfold walk. destruct (List.find (fun o => _ && _) (outbounds g)) as [o|] eqn:E.
    - apply find_in in E as [_ [_ Ha]%andb_true_iff]. eexists _, _, _. split; [done|]. auto.
    - destruct (List.find (supports v n) (outbounds g)) as [o|] eqn:E2; eexists _, _, _; (split; [done|]); (split; [auto|]).
      + split; [done|]. by apply reset_alive.
      + split; [done|]. intros o Ho. eapply List.find_none in E2; [done|]. by apply list_elem_of_In. }
  destruct (selectedOf g n) as [c|]; [|done]. destruct (alive v g c) eqn:Ea; [|done].
  eexists _, _, _. split; [done|]. auto.
Qed.

Lemma adopt_air v g n o e g' :
  0 < failoverStrikes g -> selectFailover v g n = (o, e, g') ->
  match (adopt (selectedOf g n) o e).1 with
  | Some x => alive v g' x = true
  | None => forall o, o ∈ outbounds g -> supports v n o = false
  end /\ (g' = g \/ g' = resetStrikes g).
Proof.
  intros Hl E. destruct (selectFailover_spec v g n Hl) as (o1 & e1 & g1 & E1 & Hg & Ho). rewrite E in E1. injection E1 as <- <- <-. split; [|done].
  destruct o as [x|]; cbn.
  - destruct Ho as [-> Ha]. destruct (selectedOf g n) as [c|]; cbn; [|done]. case_bool_decide; subst; done.
  - destruct Ho as [-> Hn]. destruct (selectedOf g n); [by apply reset_alive|done].
Qed.

Lemma on_air_some v g n sel :
  selectedOf g n = sel ->
  match sel with Some x => alive v g x = true | None => forall o, o ∈ outbounds g -> supports v n o = false end -> on_air v g n.
Proof. intros <-. done. Qed.

Lemma update_on_air v h g g' closes :
  0 < failoverStrikes g -> performUpdateCheck v h g = (g', closes) ->
  on_air v g' NetworkTCP /\ on_air v g' NetworkUDP /\ same_setup g g'.
Proof.
  intros Hl. unfold performUpdateCheck, Select. rewrite (proj2 (Z.ltb_lt _ _) Hl).
  destruct (selectFailover v g NetworkTCP) as [[o1 e1] g1] eqn:E1. apply adopt_air in E1 as [A1 Hg1]; [|done].
  assert (selectedOutboundTCP g1 = selectedOf g NetworkTCP /\ failoverStrikes g1 = failoverStrikes g
    /\ outbounds g1 = outbounds g /\ checking g1 = checking g) as (Hs1 & Hf1 & Ho1 & Hc1) by (by destruct Hg1 as [-> | ->]).
  rewrite Hs1. destruct (adopt (selectedOf g NetworkTCP) o1 e1) as [s1 u1]. cbn [fst] in A1.
  set (g2 := {| g1 with selectedOutboundTCP := s1 |}). cbn [failoverStrikes g2].
  rewrite (proj2 (Z.ltb_lt _ _) (eq_ind_r (fun z => 0 < z) Hl Hf1)).
  destruct (selectFailover v g2 NetworkUDP) as [[o2 e2] g3] eqn:E2.
  apply adopt_air in E2 as [A2 Hg3]; [|cbn; lia].
  assert (Hs3 : selectedOutboundUDP g3 = selectedOf g2 NetworkUDP) by (by destruct Hg3 as [-> | ->]).
  rewrite Hs3. destruct (adopt (selectedOf g2 NetworkUDP) o2 e2) as [s2 u2]. cbn [fst] in A2.
  assert (A1' : match s1 with Some x => alive v g3 x = true | None => forall o, o ∈ outbounds g3 -> supports v NetworkTCP o = false end).
  { destruct s1 as [x|].
    - destruct Hg3 as [-> | ->]; [done|]. apply reset_alive. cbn. lia.
    - intros o Ho. apply A1. destruct Hg3 as [-> | ->]; cbn in Ho; congruence. }
  assert (A2' : match s2 with Some x => alive v g3 x = true | None => forall o, o ∈ outbounds g3 -> supports v NetworkUDP o = false end).
  { destruct s2 as [x|]; [done|]. by destruct Hg3 as [-> | ->]. }
  assert (Hsame : same_setup g g3) by (unfold same_setup; destruct Hg3 as [-> | ->]; cbn; rewrite Ho1, Hf1, Hc1; done).
  assert (HsT : selectedOutboundTCP g3 = s1) by (by destruct Hg3 as [-> | ->]).
  destruct (u1 || u2); intros [= <- <-]; (split_and!; [apply (on_air_some _ _ _ s1); done|apply (on_air_some _ _ _ s2); done|done]).
Qed.

Lemma on_air_reset v g n : 0 < failoverStrikes g -> on_air v g n -> on_air v (resetStrikes g) n.
Proof.
  intros Hl Ha. apply (on_air_some _ _ _ (selectedOf g n)); [done|]. unfold on_air in Ha.
  destruct (selectedOf g n); [by apply reset_alive|done].
Qed.

Lemma selectFailover_air v g n :
  0 < failoverStrikes g -> on_air v g n ->
  exists e g', selectFailover v g n = (selectedOf g n, e, g') /\ (g' = g \/ g' = resetStrikes g).
Proof.
  intros Hl Ha. unfold on_air in Ha. destruct (selectedOf g n) as [c|] eqn:Es.
  - rewrite (selectFailover_kept v g n c) by done. eauto.
  - destruct (selectFailover_spec v g n Hl) as (o & e & g' & E & Hg & Ho). rewrite E. destruct o as [o|]; [|eauto].
    unfold selectFailover in E. rewrite Es in E. destruct (List.find (fun o => _ && _) (outbounds g)) as [x|] eqn:Ef.
    + apply find_in in Ef as [Hin [Hs _]%andb_true_iff]. rewrite Ha in Hs by done. done.
    + destruct (List.find (supports v n) (outbounds g)) as [x|] eqn:Ef2; [|done].
      apply find_in in Ef2 as [Hin Hs]. rewrite Ha in Hs by done. done.
Qed.

Lemma targets_selected v g targets g' :
  0 < failoverStrikes g -> on_air v g NetworkTCP -> on_air v g NetworkUDP ->
  failoverCheckTargets v g = (targets, g') ->
  (g' = g \/ g' = resetStrikes g)
  /\ forall o, o ∈ targets -> selectedOutboundTCP g = Some o \/ selectedOutboundUDP g = Some o.
Proof.
  intros Hl HT HU. unfold failoverCheckTargets. cbn [fold_left].
  destruct (selectFailover_air v g NetworkTCP Hl HT) as (e1 & g1 & -> & Hg1).
  assert (HU1 : on_air v g1 NetworkUDP) by (destruct Hg1 as [-> | ->]; auto using on_air_reset).
  assert (Hl1 : 0 < failoverStrikes g1) by (by destruct Hg1 as [-> | ->]).
  destruct (selectFailover_air v g1 NetworkUDP Hl1 HU1) as (e2 & g2 & E2 & Hg2).
  assert (Es : selectedOf g1 NetworkUDP = selectedOutboundUDP g) by (by destruct Hg1 as [-> | ->]).
  rewrite Es in E2. rewrite selectedOf_tcp.
  assert (Hg : g2 = g \/ g2 = resetStrikes g) by (destruct Hg1 as [-> | ->], Hg2 as [-> | ->]; auto).
  destruct (selectedOutboundTCP g) as [a|]; [rewrite bool_decide_false by set_solver|]; rewrite E2;
    destruct (selectedOutboundUDP g) as [b|]; try case_bool_decide; intros [= <- <-]; (split; [done|]); set_solver.
Qed.

Section Tame.
Context (v : View).

Lemma strike_air g g1 k t n :
  addStrike g t = (k, g1) -> k < failoverStrikes g -> on_air v g n -> on_air v g1 n.
Proof.
  unfold addStrike. intros [= <- <-] Hk Ha. apply (on_air_some _ _ _ (selectedOf g n)); [done|]. unfold on_air in Ha.
  destruct (selectedOf g n) as [c|]; [|done]. unfold alive, condemned, strikesOf in *. cbn.
  destruct (decide (t = RealTag v c)) as [->|].
  - rewrite lookup_insert_eq, negb_true_iff. cbn. lia.
  - by rewrite lookup_insert_ne.
Qed.

Lemma clear_air g t n : 0 < failoverStrikes g -> on_air v g n -> on_air v (clearStrikes g t) n.
Proof.
  intros Hl Ha. apply (on_air_some _ _ _ (selectedOf g n)); [done|]. unfold on_air in Ha.
  destruct (selectedOf g n) as [c|]; [|done]. unfold alive, condemned, strikesOf in *. cbn.
  destruct (decide (t = RealTag v c)) as [->|].
  - rewrite lookup_delete_eq, negb_true_iff. cbn. lia.
  - by rewrite lookup_delete_ne.
Qed.

Lemma on_air_chosen g n : on_air v g n -> chosen v g n.
Proof. unfold on_air, chosen. intros Ha E. by rewrite E in Ha. Qed.

Lemma tame_idle h g :
  0 < failoverStrikes g -> checking g = false -> on_air v g NetworkTCP -> on_air v g NetworkUDP -> tame v (h, g, None).
Proof. intros. constructor; cbn; auto using on_air_chosen. Qed.

Lemma tame_busy h g r h' g' r' :
  tame v (h, g, Some r) ->
  (exists st b, g' = {| g with strikes := st; recheckPending := b |}) -> tame v (h', g', Some r').
Proof. intros [Hl Hc Ht Hu _] (st & b & ->). constructor; cbn in *; auto; done. Qed.

Lemma tame_pending h g ρ h' b : tame v (h, g, ρ) -> tame v (h', {| g with recheckPending := b |}, ρ).
Proof. intros [Hl Hc Ht Hu Ha]. by constructor. Qed.

Lemma begin_tests h g ρ force now g' r :
  tame v (h, g, ρ) -> beginTest v h g force now = Some (g', r) ->
  ρ = None /\ (exists st, g' = {| g with checking := true; strikes := st |})
  /\ forall t, t ∈ tests r -> selectedOutboundTCP g = Some t.1 \/ selectedOutboundUDP g = Some t.1.
Proof.
  intros [Hl Hc _ _ Ha] Hb. cbn in *. unfold beginTest in Hb. destruct (checking g) eqn:Ec; [done|]. cbn [failoverStrikes] in Hb.
  symmetry in Hc. apply bool_decide_eq_false in Hc. assert (Hρ : ρ = None) by (destruct ρ; [by destruct Hc|done]).
  destruct (Ha Hρ) as [HT HU]. rewrite (proj2 (Z.ltb_lt _ _) Hl) in Hb.
  set (g0 := {| g with checking := true |}) in *.
  destruct (failoverCheckTargets v g0) as [targets g1] eqn:Et.
  destruct (targets_selected v g0 targets g1 Hl HT HU Et) as [Hg Hin]. injection Hb as <- <-.
  split_and!; [done| |].
  - destruct Hg as [-> | ->]; [exists (strikes g)|exists ∅]; done.
  - cbn [tests]. intros t Hi. apply roundTests_spec in Hi as (Hi & _). by apply Hin.
Qed.

Lemma tame_probe h g ρ t failed h' g' closes :
  tame v (h, g, ρ) -> onExternalProbe v h g t failed = (h', g', closes) -> tame v (h', g', ρ).
Proof.
  intros T Hp. pose proof (t_limit _ _ T) as Hl. pose proof (t_checking _ _ T) as Hc. cbn in Hl, Hc. unfold onExternalProbe in Hp.
  destruct (negb failed).
  { injection Hp as <- <- <-. destruct ρ as [r|].
    - apply (tame_busy h g r); [done|]. by exists (delete t (strikes g)), (recheckPending g); destruct g.
    - destruct (t_air _ _ T eq_refl). apply tame_idle; cbn; auto using clear_air. }
  destruct (addStrike g t) as [k g1] eqn:Es.
  assert (Hg1 : exists st b, g1 = {| g with strikes := st; recheckPending := b |})
    by (injection Es as <- <-; by eexists _, (recheckPending g)).
  assert (Hf1 : failoverStrikes g1 = failoverStrikes g /\ checking g1 = checking g) by (by destruct Hg1 as (? & ? & ->)).
  destruct Hf1 as [Hf1 Hc1]. rewrite Hf1 in Hp. destruct (Z.ltb_spec k (failoverStrikes g)) as [Hk|Hk].
  { injection Hp as <- <- <-. destruct ρ as [r|]; [by apply (tame_busy h g r)|].
    destruct (t_air _ _ T eq_refl). apply tame_idle; eauto using strike_air; cbn in *; congruence. }
  rewrite Hc1 in Hp. destruct ρ as [r|]; rewrite Hc in Hp; cbn in Hp.
  { injection Hp as <- <- <-. by apply (tame_busy h g r). }
  destruct (performUpdateCheck v (DeleteURLTestHistory h t) g1) as [g2 cl] eqn:Eu. injection Hp as <- <- <-.
  apply update_on_air in Eu as (HT & HU & _ & Ef & Ec); [|congruence]. cbn in Hc.
  apply tame_idle; try done; congruence.
Qed.

Lemma tame_step s s' : step v s s' -> tame v s -> tame v s'.
Proof.
  intros [h g ρ force now g' r Hb | h g r now outcome test rest h' g' r' Hp Ht | h g r g' closes timer Hd Hf
    | h g ρ t failed h' g' closes Hp | h g ρ o h' g' timer Hd | h g ρ d g' timer round Hd | h g ρ h'] T.
  - destruct (begin_tests _ _ _ _ _ _ _ T Hb) as (-> & (st & ->) & _).
    destruct T as [Hl Hc Ht Hu _]. constructor; cbn in *; done.
  - apply (tame_busy h g r); [done|]. unfold testResult, addStrike, clearStrikes in Ht. destruct test as [o t].
    destruct outcome as [x|]; repeat case_match; simplify_eq;
      first [by exists (strikes g'), (recheckPending g'); destruct g' | by eexists _, (recheckPending g)].
  - pose proof (t_limit _ _ T) as Hl. cbn in Hl. unfold finishTest, scheduleCheck in Hf.
    destruct (performUpdateCheck v h g) as [g1 cl] eqn:Eu. apply update_on_air in Eu as (HT & HU & _ & Ef & Ec); [|done].
    assert (exists b, g' = {| g1 with recheckPending := b |}) as (b & ->).
    { repeat case_match; simplify_eq; first [by exists (recheckPending g'); destruct g' | by eexists]. }
    apply tame_idle; cbn; try done; congruence.
  - by eapply tame_probe.
  - pose proof (t_limit _ _ T) as Hl. cbn in Hl. unfold onDialFailure in Hd. rewrite (proj2 (Z.eqb_neq _ _)) in Hd by lia.
    unfold scheduleCheck in Hd. destruct (recheckPending g); simplify_eq; [done|by eapply tame_pending].
  - assert (exists b, g' = {| g with recheckPending := b |}) as (b & ->); [|by apply (tame_pending h)].
    unfold timerFires, scheduleCheck in Hd. cbn in Hd. repeat case_match; simplify_eq; by eexists.
  - destruct T. by constructor.
Qed.
End Tame.

(** A group with failover strikes runs one round at a time, and a round tests
    only outbounds the group has selected when it begins: those on standby are not
    contacted, whatever rounds, results, reports, failed dials and timers came before
    (reports that come while the group is updated at the end of a round apart). *)
Theorem failover_tests_only_selected v manager h tags i t idle ext limit g h1 g1 ρ force now g2 r :
  Start v manager h tags i t idle ext limit = Ok g -> 0 < limit ->
  rtc (step v) (h, g, None) (h1, g1, ρ) ->
  beginTest v h1 g1 force now = Some (g2, r) ->
  ρ = None /\ forall test, test ∈ tests r -> selectedOutboundTCP g1 = Some test.1 \/ selectedOutboundUDP g1 = Some test.1.
Proof.
  intros Hs Hl Hr Hb. assert (T : tame v (h, g, None)).
  { unfold Start in Hs. apply bind_Ok_inv in Hs as (outs & _ & Hs). apply bind_Ok_inv in Hs as (g0 & Hg & Hs).
    rewrite (proj2 (Z.ltb_lt _ _) Hl) in Hs. injection Hs as Hs.
    destruct (performUpdateCheck v h _) as [g3 cl] eqn:Eu in Hs. cbn in Hs. subst g3.
    apply update_on_air in Eu as (HT & HU & _ & Ef & Ec); [|done]. cbn in Ef, Ec. apply tame_idle; auto; [congruence|].
    rewrite Ec. unfold NewURLTestGroup in Hg. destruct (_ <? _) in Hg; [done|]. by injection Hg as <-. }
  assert (T1 : tame v (h1, g1, ρ)).
  { clear Hb. revert T Hr. generalize (h, g, @None Round), (h1, g1, ρ). intros s s' T Hr.
    induction Hr; eauto using tame_step. }
  destruct (begin_tests _ _ _ _ _ _ _ _ T1 Hb) as (? & _ & ?). done.
Qed.
