(* ===== verification/HealthCheck.v ===== *)
(** * A URL test group in front of a failover group

    A group that tests members by delay (the health check of the application) has a
    failover group as a member: each of its rounds tests what the member has
    selected and reports the result to it, so that the member fails over at once. *)

From S2P Require Import Prelude Route URLTest URLTestTheorems.
From stdpp Require Import list.
Import URLTest.

Open Scope Z_scope.

(** The world of a checking group [p] and its first member [m], a failover group in the
    state [wt] of the reference machine; other members are no groups. *)
Record checked (others : View) (p : nat) (m : Outbound) (w : World) (wt : Watch) : Prop := {
  c_check : exists g rest, groups w !! p = Some g /\ failoverStrikes g = 0 /\ checking g = false
    /\ outbounds g = m :: rest /\ forall o, o ∈ rest -> groups w !! ptr o = None;
  c_member : exists c, groups w !! ptr m = Some c /\ watching c wt /\ checking c = false
    /\ plain others (outbounds c) /\ forall o, o ∈ outbounds c -> groups w !! ptr o = None;
  c_apart : ptr m <> p;
}.

(** The outcomes of a round: that of the member, and any for the others. *)
Definition outcomes (m : Outbound) (out : option Z) (other : Outbound * string -> option Z) (t : Outbound * string) : option Z :=
  if bool_decide (t.1 = m) then out else other t.

Section HealthCheck.
Context (others : View) (p : nat) (m : Outbound).

Lemma plain_view w outs : plain others outs -> (forall o, o ∈ outs -> groups w !! ptr o = None) -> plain (viewOf others w) outs.
Proof. intros Hp Hn o Ho. unfold supports. cbn. rewrite Hn by done. exact (Hp o Ho). Qed.

(** Tests of outbounds that are no groups leave the groups alone. *)
Lemma complete_rest now outcome l : forall w r g,
  (forall t, t ∈ l -> groups w !! ptr t.1 = None) -> groups w !! p = Some g -> failoverStrikes g = 0 ->
  groups (fold_left (fun s t => completeTest others p s now t (outcome t)) l (w, r)).1 = groups w.
Proof.
  induction l as [|t l IH]; intros w r g Hl Hp Hn; cbn [fold_left]; [done|].
  assert (exists h' r', completeTest others p (w, r) now t (outcome t) = (mkWorld (groups w) h', r')) as (h' & r' & ->).
  { unfold completeTest. rewrite Hl by set_solver. rewrite Hp. unfold testResult. rewrite Hn. destruct t as [o tag].
    destruct (outcome (o, tag)); cbn; rewrite insert_id by done; eauto. }
  rewrite (IH _ _ g); cbn; auto. set_solver.
Qed.

Lemma update_setup v h g : failoverStrikes g = 0 -> same_setup g (performUpdateCheck v h g).1.
Proof.
  intros Hn. unfold performUpdateCheck, Select. rewrite Hn. cbn [Z.ltb Z.compare failoverStrikes].
  destruct (selectFastest v h g NetworkTCP) as [o1 e1]. destruct (adopt _ o1 e1) as [s1 u1]. cbn [failoverStrikes].
  rewrite Hn. cbn [Z.ltb Z.compare]. destruct (selectFastest v h _ NetworkUDP) as [o2 e2]. destruct (adopt _ o2 e2) as [s2 u2].
  by destruct (u1 || u2).
Qed.

Lemma finish_setup v h g r g' closes timer :
  failoverStrikes g = 0 -> finishTest v h g r = (g', closes, timer) -> same_setup g g'.
Proof.
  intros Hn Hf. pose proof (update_setup v h g Hn) as S. unfold finishTest, scheduleCheck in Hf.
  destruct (performUpdateCheck v h g) as [g1 cl]. cbn in S. repeat case_match; simplify_eq; done.
Qed.

(** A forced round tests first what the member has selected. *)
Lemma begin_check w g rest wt now :
  failoverStrikes g = 0 -> checking g = false -> outbounds g = m :: rest ->
  RealTag (viewOf others w) m = Tag (current wt) -> Known others (Tag (current wt)) = true ->
  exists l, beginTest (viewOf others w) (storage w) g true now
    = Some ({| g with checking := true |}, mkRound ((m, Tag (current wt)) :: l) false ∅)
    /\ forall t, t ∈ l -> t.1 ∈ rest.
Proof.
  intros Hn Hck Ho Hr Hk. exists (roundTests (viewOf others w) (storage w) (interval g) true now {[Tag (current wt)]} rest).
  split; [|intros t Ht; apply roundTests_spec in Ht; tauto].
  unfold beginTest. rewrite Hck. cbn [failoverStrikes]. rewrite (proj2 (Z.ltb_ge _ _)) by lia. cbn [outbounds interval].
  do 3 f_equal. rewrite Ho. cbn [roundTests]. rewrite Hr, bool_decide_false by set_solver. cbn [negb andb Known viewOf].
  by rewrite Hk, (right_id_L ∅ (∪)).
Qed.

Lemma check_round w wt now out other wt' c :
  checked others p m w wt -> groups w !! ptr m = Some c ->
  watchStep (failoverStrikes c) (outbounds c) wt (bool_decide (is_Some out)) = Some wt' ->
  exists c', let w' := CheckOutbounds others p w true now (outcomes m out other) in
  checked others p m w' wt' /\ groups w' !! ptr m = Some c' /\ same_setup c c'.
Proof.
  intros [(g & rest & Hp & Hn & Hck & Ho & Hr) (c0 & Hc & W & Hcc & Hpl & Hcn) Hap] Hm Hw.
  rewrite Hm in Hc. injection Hc as <-. unfold CheckOutbounds. rewrite Hp.
  destruct (begin_check w g rest wt now) as (l & -> & Hl); try done.
  { cbn. rewrite Hm. unfold Now. by rewrite (w_tcp _ _ W). }
  { apply (Hpl _ (w_member _ _ W)). }
  cbn [tests fold_left].
  set (g0 := {| g with checking := true |}). set (w0 := mkWorld (<[p:=g0]> (groups w)) (storage w)).
  assert (Hp0 : groups w0 !! p = Some g0) by apply lookup_insert_eq.
  assert (Hm0 : groups w0 !! ptr m = Some c) by (unfold w0; cbn; by rewrite lookup_insert_ne).
  assert (Hnone : forall o, groups w !! ptr o = None -> groups w0 !! ptr o = None).
  { intros o E. unfold w0; cbn. rewrite lookup_insert_ne; [done|]. congruence. }
  assert (Hpv : plain (viewOf others w0) (outbounds c)) by (apply plain_view; auto).
  destruct (probe_step (viewOf others w0) (storage w0) c wt (bool_decide (out = None)) wt' Hpv W Hcc) as (h1 & c1 & cl & Ep & W1 & S1).
  { rewrite <- Hw. f_equal. destruct out; done. }
  set (r0 := mkRound _ false ∅).
  assert (exists h2 r2, completeTest others p (w0, r0) now (m, Tag (current wt)) (outcomes m out other (m, Tag (current wt)))
    = (mkWorld (<[ptr m := c1]> (groups w0)) h2, r2)) as (h2 & r2 & ->).
  { unfold completeTest, outcomes. cbn [fst snd]. rewrite Hm0, (proj2 (Z.ltb_lt _ _) (w_limit _ _ W)), (bool_decide_true (m = m)) by done.
    rewrite Ep. cbn [groups storage]. rewrite lookup_insert_ne, Hp0 by done. unfold testResult. rewrite (Hn : failoverStrikes g0 = 0).
    destruct out; cbn [Z.ltb Z.compare]; rewrite (insert_id (<[ptr m := c1]> (groups w0)) p g0) by (rewrite lookup_insert_ne by done; exact Hp0); eauto. }
  set (w2 := mkWorld _ h2). assert (Hp2 : groups w2 !! p = Some g0) by (cbn; rewrite lookup_insert_ne by done; exact Hp0).
  assert (Hl2 : forall t, t ∈ l -> groups w2 !! ptr t.1 = None).
  { intros t Ht. assert (groups w !! ptr t.1 = None) as E by auto. cbn. rewrite lookup_insert_ne by congruence. by apply Hnone. }
  pose proof (complete_rest now (outcomes m out other) l w2 r2 g0 Hl2 Hp2 Hn) as Hg3.
  destruct (fold_left _ l (w2, r2)) as [w3 r3]. cbn [fst] in Hg3. rewrite Hg3, Hp2.
  destruct (finishTest (viewOf others w3) (storage w3) g0 r3) as [[g4 cl4] tm4] eqn:Ef.
  assert (S4 : same_setup g0 g4) by (by eapply finish_setup). destruct S4 as (So & Sf & _).
  exists c1. cbn [groups]. destruct S1 as (Eo & El & Ec).
  split; [|split; [|done]].
  2: { rewrite lookup_insert_ne by done. apply lookup_insert_eq. }
  assert (Hstill : forall o, groups w !! ptr o = None -> <[p:=endTest g4]> (groups w2) !! ptr o = None).
  { intros o E. rewrite lookup_insert_ne by congruence. cbn. rewrite lookup_insert_ne by congruence. by apply Hnone. }
  constructor; [|exists c1|done]; cbn [groups].
  - exists (endTest g4), rest. rewrite lookup_insert_eq. split_and!; [done|cbn; rewrite Sf; exact Hn|done|cbn; rewrite So; exact Ho|auto].
  - rewrite lookup_insert_ne by done. split_and!; auto; [apply lookup_insert_eq|congruence|by rewrite Eo|]. rewrite Eo. auto.
Qed.
End HealthCheck.

(** Rounds of the checking group: the time and the outcome for the member. *)
Definition rounds (others : View) (p : nat) (m : Outbound) (other : Outbound * string -> option Z)
    (l : list (Z * option Z)) (w : World) : World :=
  fold_left (fun w e => CheckOutbounds others p w true e.1 (outcomes m e.2 other)) l w.

(** C39: a health check group whose first member is a failover group moves that member like
    rounds of its own would: after any sequence of checks the member is, for both
    networks, on the outbound the reference machine is on after the same outcomes,
    and the next check tests that outbound. *)
Theorem health_check_fails_over others p m other w wt c l wt' now :
  checked others p m w wt -> groups w !! ptr m = Some c ->
  watchRun (failoverStrikes c) (outbounds c) wt ((fun e => bool_decide (is_Some e.2)) <$> l) = Some wt' ->
  let w' := rounds others p m other l w in
  exists g' c' g2 tests', groups w' !! p = Some g' /\ groups w' !! ptr m = Some c'
    /\ selectedOutboundTCP c' = Some (current wt') /\ selectedOutboundUDP c' = Some (current wt')
    /\ beginTest (viewOf others w') (storage w') g' true now
       = Some (g2, mkRound ((m, Tag (current wt')) :: tests') false ∅).
Proof.
  revert w wt c. induction l as [|[t out] l IH]; intros w wt c C Hc Hr; cbn [fmap list_fmap watchRun] in Hr.
  - injection Hr as <-. cbn [rounds fold_left].
    destruct C as [(g & rest & Hp & Hn & Hck & Ho & _) (c0 & Hc0 & W & _ & Hpl & _) _].
    rewrite Hc in Hc0. injection Hc0 as <-.
    destruct (begin_check others m w g rest wt now) as (tl & Hb & _); try done.
    { cbn. rewrite Hc. unfold Now. by rewrite (w_tcp _ _ W). }
    { apply (Hpl _ (w_member _ _ W)). }
    exists g, c. eexists _, tl. split_and!; try done; apply W.
  - apply bind_Some in Hr as (w1 & Hw & Hr).
    destruct (check_round others p m w wt t out other w1 c C Hc Hw) as (c1 & C1 & Hc1 & So & Sf & _).
    apply (IH _ w1 c1); [done|done|]. by rewrite So, Sf.
Qed.

(** ** Samples *)

Definition nodeA : Outbound := mkOutbound 1 "a".
Definition nodeB : Outbound := mkOutbound 2 "b".
Definition nodeC : Outbound := mkOutbound 3 "c".

Definition sampleView : View := mkView Tag (fun _ => [NetworkTCP; NetworkUDP]) (fun _ => true).

Definition sampleManager (tag : string) : option Outbound :=
  List.find (fun o => bool_decide (Tag o = tag)) [nodeA; nodeB; nodeC].

Definition sampleGroup (tags : list string) (limit : Z) : URLTestGroup :=
  match Start sampleView sampleManager ∅ tags 10 0 20 false limit with
  | Ok g => g
  | _ => mkGroup [] 0 0 0 false None None [] false None false false 0 0 ∅ false
  end.

Lemma sampleView_plain outs : plain sampleView outs.
Proof. intros o _. done. Qed.

Lemma failover_follows_strikes_witness :
  selectedOutboundUDP (fold_left (happens sampleView)
    [Checked 1 None; TimerFired false; Probed true] (∅, sampleGroup ["a"; "b"] 2)).2 = Some nodeB.
Proof.
  exact (proj1 (proj2 (failover_follows_strikes sampleView sampleManager ∅ ["a"; "b"] 10 0 20 false 2 (sampleGroup ["a"; "b"] 2)
    nodeA [nodeB] [Checked 1 None; TimerFired false; Probed true] (mkWatch nodeB 0 {["a"]})
    eq_refl eq_refl eq_refl (sampleView_plain _) eq_refl))).
Defined.

Lemma failover_tests_only_selected_witness :
  selectedOutboundTCP (sampleGroup ["a"; "b"] 2) = Some nodeA \/ selectedOutboundUDP (sampleGroup ["a"; "b"] 2) = Some nodeA.
Proof.
  refine (proj2 (failover_tests_only_selected sampleView sampleManager ∅ ["a"; "b"] 10 0 20 false 2 (sampleGroup ["a"; "b"] 2)
    ∅ (sampleGroup ["a"; "b"] 2) None false 1 _ (mkRound [(nodeA, "a")] false ∅) eq_refl eq_refl (rtc_refl _ _) eq_refl)
    (nodeA, "a") _).
  by apply list_elem_of_singleton.
Defined.

Definition sampleHistory : HistoryStorage := {["a" := mkHistory 0 100; "b" := mkHistory 0 40]}.
Definition fastGroup : URLTestGroup :=
  let g := sampleGroup ["a"; "b"] 0 in {| g with selectedOutboundTCP := Some nodeA |}.

Lemma urltest_selects_fastest_witness :
  exists o d, Select sampleView sampleHistory fastGroup NetworkTCP = (Some o, true, fastGroup) /\ tested sampleView sampleHistory o d
    /\ Delay d <= 90.
Proof.
  destruct (urltest_selects_fastest sampleView sampleHistory fastGroup NetworkTCP nodeB (mkHistory 0 40)) as (o & d & E & Ht & _ & Ha & _);
    try done.
  - intros o d Ho Ht. apply elem_of_cons in Ho as [->|Ho]; [|apply list_elem_of_singleton in Ho as ->];
      injection Ht as <-; split; reflexivity.
  - intros c d [= <-] [= <-]. reflexivity.
  - right. left.
  - exists o, d. split; [done|]. split; [done|]. exact (Ha nodeB (mkHistory 0 40) ltac:(right; left) eq_refl eq_refl).
Defined.

Lemma results_in_any_order_witness :
  fold_left (fun s t => testResult s 5 t (Some 7)) [(nodeB, "b"); (nodeA, "a")]
    (∅, {| fastGroup with checking := true |}, mkRound [(nodeA, "a"); (nodeB, "b")] false ∅)
  = fold_left (fun s t => testResult s 5 t (Some 7)) [(nodeA, "a"); (nodeB, "b")]
    (∅, {| fastGroup with checking := true |}, mkRound [(nodeA, "a"); (nodeB, "b")] false ∅).
Proof.
  apply (results_in_any_order sampleView ∅ fastGroup true 5 _ (mkRound [(nodeA, "a"); (nodeB, "b")] false ∅)
    (fun _ => Some 7) [(nodeB, "b"); (nodeA, "a")] eq_refl).
  - intros t1 t2 H1 H2. apply elem_of_cons in H1 as [->|H1]; [|apply list_elem_of_singleton in H1 as ->];
      (apply elem_of_cons in H2 as [->|H2]; [|apply list_elem_of_singleton in H2 as ->]); cbn; intros E; done || discriminate E.
  - constructor.
Defined.

(** A health check group in front of a failover group of two nodes. *)
Definition sampleMember : Outbound := mkOutbound 8 "g".
Definition checkGroup : URLTestGroup :=
  let g := sampleGroup [] 0 in {| g with outbounds := [sampleMember; nodeC] |}.
Definition sampleWorld : World := mkWorld {[8%nat := sampleGroup ["a"; "b"] 2; 9%nat := checkGroup]} ∅.

Lemma sampleWorld_checked : checked sampleView 9 sampleMember sampleWorld (mkWatch nodeA 0 ∅).
Proof.
  constructor; [exists checkGroup, [nodeC]|exists (sampleGroup ["a"; "b"] 2)|done].
  - split_and!; try done. intros o Ho. apply list_elem_of_singleton in Ho as ->. done.
  - split_and!; try done.
    + apply (start_watching sampleView sampleManager ∅ ["a"; "b"] 10 0 20 false 2 _ nodeA [nodeB]); done.
    + intros o Ho. apply elem_of_cons in Ho as [->|Ho]; [done|]. apply list_elem_of_singleton in Ho as ->. done.
Qed.

Lemma health_check_fails_over_witness :
  exists g' c' g2 tests', let w' := rounds sampleView 9 sampleMember (fun _ => Some 1) [(1, None); (2, None)] sampleWorld in
    groups w' !! 9%nat = Some g' /\ groups w' !! 8%nat = Some c'
    /\ selectedOutboundTCP c' = Some nodeB /\ selectedOutboundUDP c' = Some nodeB
    /\ beginTest (viewOf sampleView w') (storage w') g' true 3 = Some (g2, mkRound ((sampleMember, "b") :: tests') false ∅).
Proof.
  exact (health_check_fails_over sampleView 9 sampleMember (fun _ => Some 1) sampleWorld (mkWatch nodeA 0 ∅) (sampleGroup ["a"; "b"] 2)
    [(1, None); (2, None)] (mkWatch nodeB 0 {["a"]}) 3 sampleWorld_checked eq_refl eq_refl).
Defined.

(** ** What the modelling shows of the code *)

(** When the last outbound that was not given up fails too, the strikes are cleared
    while the network [tcp] is updated, and the network [udp] keeps the outbound that
    failed, instead of both going back to the first. *)
Theorem failover_networks_diverge :
  let g := (fold_left (happens sampleView)
    [Checked 1 None; Checked 2 None; Checked 3 None; Checked 4 None] (∅, sampleGroup ["a"; "b"] 2)).2 in
  selectedOutboundTCP g = Some nodeA /\ selectedOutboundUDP g = Some nodeB.
Proof. split; reflexivity. Qed.

(** A round of a group whose current outbound passes the test, and a report of its
    failure after the update at the end of the round, before the group is released. *)
Definition lateReport (g : URLTestGroup) : option URLTestGroup :=
  '(g, r) ← beginTest sampleView ∅ g true 1;
  let '(h, g, r) := testResult (∅, g, r) 1 (nodeA, "a") (Some 5) in
  let '(g, _, _) := finishTest sampleView h g r in
  let '(h, g, _) := onExternalProbe sampleView h g "a" true in
  Some (endTest g).

(** Such a report condemns the current outbound, and nothing moves the group. *)
Theorem external_probe_missed :
  exists g, lateReport (sampleGroup ["a"; "b"] 1) = Some g
    /\ checking g = false /\ selectedOutboundTCP g = Some nodeA /\ condemned g "a" = true.
Proof. eexists. split; [vm_compute; reflexivity|]. split; [|split]; reflexivity. Qed.

(** A tested delay of 0 ms counts as no delay: a slower outbound replaces it. *)
Theorem zero_delay_is_replaced :
  Select sampleView {["a" := mkHistory 0 0; "b" := mkHistory 0 900]} fastGroup NetworkTCP = (Some nodeB, true, fastGroup).
Proof. reflexivity. Qed.

(** The sum of delay and tolerance wraps around at 16 bits: a slower outbound
    replaces the current one. *)
Theorem tolerance_overflows :
  let g := {| fastGroup with tolerance := 65000 |} in
  Select sampleView {["a" := mkHistory 0 100; "b" := mkHistory 0 600]} g NetworkTCP = (Some nodeB, true, g).
Proof. reflexivity. Qed.
