(* ===== verification/DnsMessage.v ===== *)
(** * DNS messages (src/dns/client.go, src/dns/extension_edns0_subnet.go)

    Time to live, fixed responses and the options of [OPT] records.  Messages are
    values: the sources copy a message before they change one that is shared. *)

From S2P Require Import Prelude GoStd Metadata Binary.
From stdpp Require Import list.
From Stdlib Require Import Strings.Byte.
Import netip.

Open Scope N_scope.

Module DnsMessage.

Definition TypeA : N := 1.
Definition TypeCNAME : N := 5.
Definition TypeAAAA : N := 28.
Definition TypeOPT : N := 41.
Definition TypeHTTPS : N := 65.
Definition ClassINET : N := 1.

Definition RcodeFormatError : Z := 1.
Definition RcodeNameError : Z := 3.
Definition RcodeRefused : Z := 5.

Definition DomainStrategyAsIS : N := 0.
Definition DomainStrategyPreferIPv4 : N := 1.
Definition DomainStrategyPreferIPv6 : N := 2.
Definition DomainStrategyIPv4Only : N := 3.
Definition DomainStrategyIPv6Only : N := 4.

Definition isOPT (r : RR) : bool := rr_Rrtype r =? TypeOPT.

(** All records of a message, in the order the sources walk them. *)
Definition records (m : Msg) : list RR := Answer m ++ Ns m ++ Extra m.

(** ** Time to live *)

Fixpoint negativeTTL (l : list RR) : option N :=
  match l with
  | [] => None
  | record :: l =>
      match rr_data record with
      | RR_SOA soaMinimum _ => Some (if rr_Ttl record <? soaMinimum then rr_Ttl record else soaMinimum)
      | _ => negativeTTL l
      end
  end.

Definition extractNegativeTTL (response : Msg) : option N := negativeTTL (Ns response).

Definition ttlStep (timeToLive : N) (record : RR) : N :=
  if isOPT record then timeToLive
  else if (timeToLive =? 0) || ((0 <? rr_Ttl record) && (rr_Ttl record <? timeToLive))
  then rr_Ttl record else timeToLive.

Definition computeTimeToLive (response : Msg) : N :=
  match (if (length (Answer response) =? 0)%nat then extractNegativeTTL response else None) with
  | Some soaTTL => soaTTL
  | None => fold_left ttlStep (records response) 0
  end.

Definition withTTL (timeToLive : N) (r : RR) : RR := if isOPT r then r else {| r with rr_Ttl := timeToLive |}.

Definition normalizeTTL (response : Msg) (timeToLive : N) : Msg :=
  {| response with Answer := withTTL timeToLive <$> Answer response;
                   Ns := withTTL timeToLive <$> Ns response;
                   Extra := withTTL timeToLive <$> Extra response |}.

(** ** Fixed responses *)

Definition FixedResponseStatus (message : Msg) (rcode : Z) : Msg :=
  mkMsg (Id message) true true true true rcode (Questions message) [] [] [].

Definition fixedAnswer (question : Question) (timeToLive : N) (address : Addr) : list RR :=
  if Is4 address && (q_Qtype question =? TypeA)
  then [mkRR (q_Name question) TypeA ClassINET timeToLive (RR_A (AsSlice address))]
  else if Is6 address && (q_Qtype question =? TypeAAAA)
  then [mkRR (q_Name question) TypeAAAA ClassINET timeToLive (RR_AAAA (AsSlice address))]
  else [].

Definition FixedResponse (id : N) (question : Question) (addresses : list Addr) (timeToLive : N) : Msg :=
  mkMsg id true true true true RcodeSuccess [question]
    (flat_map (fixedAnswer question timeToLive) addresses) [] [].

Definition FixedResponseCNAME (id : N) (question : Question) (record : string) (timeToLive : N) : Msg :=
  mkMsg id true true true true RcodeSuccess [question]
    [mkRR (q_Name question) TypeCNAME ClassINET timeToLive (RR_CNAME record)] [] [].

Definition FixedResponseTXT (id : N) (question : Question) (txt : list string) (timeToLive : N) : Msg :=
  mkMsg id true true true true RcodeSuccess [question]
    [mkRR (q_Name question) TypeA ClassINET timeToLive (RR_TXT txt)] [] [].

Definition FixedResponseMX (id : N) (question : Question) (mx : list (N * string)) (timeToLive : N) : Msg :=
  mkMsg id true true true true RcodeSuccess [question]
    ((fun r => mkRR (q_Name question) TypeA ClassINET timeToLive (RR_MX r.1 r.2)) <$> mx) [] [].

(** ** Options *)

Definition isSubnet (o : EDNS0) : bool := match o with EDNS0_SUBNET _ _ _ _ => true | _ => false end.
Definition isPadding (o : EDNS0) : bool := match o with EDNS0_PADDING _ => true | _ => false end.

(** The loop of [setClientSubnet] over the additional records: the index of the
    record [optRecord] points to when it ends, and whether it holds a subnet option.
    A record that is no [OPT] makes the pointer nil again. *)
Fixpoint findSubnet (extra : list RR) (index : nat) (optRecord : option nat) : option nat * bool :=
  match extra with
  | [] => (optRecord, false)
  | record :: extra =>
      match rr_data record with
      | RR_OPT options => if existsb isSubnet options then (Some index, true) else findSubnet extra (S index) (Some index)
      | _ => findSubnet extra (S index) None
      end
  end.

Definition subnetFields (clientSubnet : Prefix) (scope : N) : EDNS0 :=
  EDNS0_SUBNET (if Is4 (ip clientSubnet) then 1 else 2) (Z.to_N (Bits clientSubnet mod 256)) scope (AsSlice (ip clientSubnet)).

Fixpoint updateSubnet (clientSubnet : Prefix) (options : list EDNS0) : list EDNS0 :=
  match options with
  | [] => []
  | EDNS0_SUBNET _ _ scope _ :: options => subnetFields clientSubnet scope :: options
  | o :: options => o :: updateSubnet clientSubnet options
  end.

Definition setSubnet (clientSubnet : Prefix) (found : bool) (record : RR) : RR :=
  match rr_data record with
  | RR_OPT options =>
      {| record with rr_data := RR_OPT (if found then updateSubnet clientSubnet options
                                        else options ++ [subnetFields clientSubnet 0]) |}
  | _ => record
  end.

Definition SetClientSubnet (message : Msg) (clientSubnet : Prefix) : Msg :=
  match findSubnet (Extra message) 0 None with
  | (None, _) =>
      {| message with Extra := Extra message ++
           [mkRR "." TypeOPT 0 0 (RR_OPT [subnetFields clientSubnet 0])] |}
  | (Some index, found) =>
      {| message with Extra := alter (setSubnet clientSubnet found) index (Extra message) |}
  end.

Definition stripOptions (record : RR) : RR :=
  match rr_data record with
  | RR_OPT options => {| record with rr_data := RR_OPT (List.filter (fun o => negb (isPadding o)) options) |}
  | _ => record
  end.

Definition stripDNSPadding (response : Msg) : Msg :=
  {| response with Extra := stripOptions <$> Extra response |}.

End DnsMessage.
