(* ===== verification/DnsClient.v ===== *)
(** * The DNS client (src/dns/client.go)

    A query is answered from the cache, refused, or sent through a transport and its
    answer checked and cached.  The memory cache (freelru), the stores of the cache
    file and the message codec are classes; what a transport answers is an argument
    of the call. *)

From S2P Require Import Prelude GoStd Metadata Binary Managers DnsMessage.
From stdpp Require Import list.
From Stdlib Require Import Strings.Byte.
Import netip Managers DnsMessage.

Open Scope N_scope.

Module DnsClient.

Definition ErrNotCached : error := E_New ["not cached"].
Definition ErrResponseRejected : error := E_New ["response rejected"].
Definition ErrResponseRejectedCached : error := E_Extend ErrResponseRejected "cached".

(** [dnsCacheKey]: a question and the tag of a transport. *)
Definition dnsCacheKey : Type := Question * string.

#[export] Instance Question_countable : Countable Question :=
  inj_countable' (fun q => (q_Name q, q_Qtype q, q_Qclass q)) (fun t => mkQuestion t.1.1 t.1.2 t.2) ltac:(by intros []).

Record DNSQueryOptions : Type := mkOptions {
  Transport : option Item;
  Strategy : N;
  LookupStrategy : N;
  DisableCache : bool;
  DisableOptimisticCache : bool;
  RewriteTTL : option N;
  Timeout : Z;
  ClientSubnet : Prefix;
}.

(** ** What the client uses *)

(** github.com/miekg/dns. *)
Class DnsLib : Type := {
  Pack : Msg -> option (list byte);
  Unpack : list byte -> option Msg;
  IsEdns0 : Msg -> option RR;
  opt_Version : RR -> N;
  opt_UDPSize : RR -> N;
  opt_Do : RR -> bool;
  SetEdns0 : Msg -> N -> bool -> Msg;
  dns_Fqdn : string -> string;
  dns_IsFqdn : string -> bool;
}.

(** sing/contrab/freelru with messages as values; times are in nanoseconds. *)
Class FreeLRU (L : Type) : Type := {
  lru_New : L;
  lru_Get : L -> Z -> dnsCacheKey -> option Msg * L;
  lru_GetWithLifetimeNoExpire : L -> dnsCacheKey -> option (Msg * Z) * L;
  lru_Add : L -> dnsCacheKey -> Msg -> L;
  lru_AddWithLifetime : L -> Z -> dnsCacheKey -> Msg -> Z -> L;
  lru_Remove : L -> dnsCacheKey -> L;
  lru_Purge : L -> L;
}.

(** [adapter.RDRCStore] and [adapter.DNSCacheStore]: transport, name and type. *)
Class RDRCStore (R : Type) : Type := {
  LoadRDRC : R -> Z -> string -> string -> N -> bool * R;
  SaveRDRCAsync : R -> Z -> string -> string -> N -> R;
}.
Class DNSCacheStore (D : Type) : Type := {
  LoadDNSCache : D -> string -> string -> N -> option (list byte * Z);
  SaveDNSCacheAsync : D -> string -> string -> N -> list byte -> Z -> D;
  ClearDNSCache : D -> D;
}.

Section Client.
Context `{E : Externals} `{DnsLib} {L R D : Type} `{FreeLRU L} `{RDRCStore R} `{DNSCacheStore D}.

(** [backgroundRefresh] holds the keys with a refresh in flight. *)
Record Client : Type := mkClient {
  timeout : Z;
  disableCache : bool;
  disableExpire : bool;
  optimisticTimeout : Z;
  clientSubnet : Prefix;
  rdrc : option R;
  dnsCache : option D;
  cache : option L;
  backgroundRefresh : gset dnsCacheKey;
}.

Definition DNSTimeout : Z := (10 * 10 ^ 9)%Z.

Definition initializeMemoryCache (c : Client) : Client :=
  match cache c with
  | Some _ => c
  | None => if disableCache c then c else {| c with cache := Some lru_New |}
  end.

(** [NewClient]; [hasDNSCache] tells whether an init function for the DNS cache is
    given. *)
Definition NewClient (timeout : Z) (disableCache disableExpire : bool) (optimisticTimeout : Z) (clientSubnet : Prefix)
    (hasDNSCache : bool) : Client :=
  let timeout := if (timeout =? 0)%Z then DNSTimeout else timeout in
  let client := mkClient timeout disableCache disableExpire optimisticTimeout clientSubnet None None None ∅ in
  if negb disableCache && negb hasDNSCache then initializeMemoryCache client else client.

(** The results of the init functions; without a DNS cache there is a memory cache. *)
Definition Start (c : Client) (initRDRC : option R) (initDNSCache : option D) : Client :=
  let c := {| c with rdrc := initRDRC; dnsCache := initDNSCache |} in
  match dnsCache c with None => initializeMemoryCache c | Some _ => c end.

Definition prepareExchangeMessage (c : Client) (message : Msg) (options : DNSQueryOptions) : Msg :=
  let subnet := if prefix_IsValid (ClientSubnet options) then ClientSubnet options else clientSubnet c in
  if prefix_IsValid subnet then SetClientSubnet message subnet else message.

(** *** Cache *)

Definition second : Z := (10 ^ 9)%Z.

(** The remaining time in whole seconds. *)
Definition remainingTTL (expireAt now : Z) : N := Z.to_N (Z.max ((expireAt - now) / second) 0).

(** What a cache holds for a response that expires at [expireAt]: the response with
    its time to live, and whether it is stale. *)
Definition atTime (c : Client) (now : Z) (response : Msg) (expireAt : Z) : option (Msg * bool) :=
  if (expireAt <? now)%Z then
    if ((0 <? optimisticTimeout c) && (now <? expireAt + optimisticTimeout c))%Z
    then Some (normalizeTTL response 1, true) else None
  else Some (normalizeTTL response (remainingTTL expireAt now), false).

Definition loadPersistentResponse (c : Client) (d : D) (now : Z) (question : Question) (tag : string)
    : option (Msg * bool) :=
  match LoadDNSCache d tag (q_Name question) (q_Qtype question) with
  | None => None
  | Some (rawMessage, expireAt) =>
      match Unpack rawMessage with
      | None => None
      | Some response => if disableExpire c then Some (response, false) else atTime c now response expireAt
      end
  end.

Definition loadResponse (c : Client) (now : Z) (question : Question) (tag : string) : option (Msg * bool) * Client :=
  match dnsCache c with
  | Some d => (loadPersistentResponse c d now question tag, c)
  | None =>
      match cache c with
      | None => (None, c)
      | Some l =>
          let key := (question, tag) in
          if disableExpire c then
            let '(response, l) := lru_Get l now key in
            ((fun r => (r, false)) <$> response, {| c with cache := Some l |})
          else
            let '(loaded, l) := lru_GetWithLifetimeNoExpire l key in
            match loaded with
            | None => (None, {| c with cache := Some l |})
            | Some (response, expireAt) =>
                match atTime c now response expireAt with
                | Some r => (Some r, {| c with cache := Some l |})
                | None => (None, {| c with cache := Some (lru_Remove l key) |})
                end
            end
      end
  end.

Definition storeCache (c : Client) (now : Z) (tag : string) (question : Question) (message : Msg) (timeToLive : N) : Client :=
  if timeToLive =? 0 then c
  else
    match dnsCache c with
    | Some d =>
        match Pack message with
        | Some packed =>
            {| c with dnsCache := Some (SaveDNSCacheAsync d tag (q_Name question) (q_Qtype question) packed
                                          (now + second * Z.of_N timeToLive)%Z) |}
        | None => c
        end
    | None =>
        match cache c with
        | None => c
        | Some l =>
            let key := (question, tag) in
            if disableExpire c then {| c with cache := Some (lru_Add l key message) |}
            else {| c with cache := Some (lru_AddWithLifetime l now key message (second * Z.of_N timeToLive)%Z) |}
        end
    end.

Definition ClearCache (c : Client) : Client :=
  {| c with cache := lru_Purge <$> cache c; dnsCache := ClearDNSCache <$> dnsCache c |}.

(** *** Queries *)

(** [SVCB] hints of the family the strategy excludes are dropped. *)
Definition filterHints (strategy : N) (record : RR) : RR :=
  match rr_data record with
  | RR_HTTPS values =>
      {| record with rr_data := RR_HTTPS (List.filter (fun v =>
           match v with
           | SVCBIPv6Hint _ => negb (strategy =? DomainStrategyIPv4Only)
           | SVCBIPv4Hint _ => strategy =? DomainStrategyIPv4Only
           | SVCBOther => true
           end) values) |}
  | _ => record
  end.

Definition applyResponseOptions (question : Question) (response : Msg) (options : DNSQueryOptions) : Msg * N :=
  let response :=
    if (q_Qtype question =? TypeHTTPS) && ((Strategy options =? DomainStrategyIPv4Only) || (Strategy options =? DomainStrategyIPv6Only))
    then {| response with Answer := filterHints (Strategy options) <$> Answer response |}
    else response in
  let timeToLive := match RewriteTTL options with Some ttl => ttl | None => computeTimeToLive response end in
  (normalizeTTL response timeToLive, timeToLive).

(** The transport answers [query]; an error that carries a response code is a
    response. *)
Definition exchangeToTransport (query : Msg -> result Msg) (message : Msg) : result Msg :=
  match query message with
  | Ok response => Ok (stripDNSPadding response)
  | Err err =>
      match errors.AsRcode err with
      | Some rcode => Ok (FixedResponseStatus message rcode)
      | None => Err err
      end
  | Panic msg => Panic msg
  end.

Definition cacheable (response : Msg) : bool := ((Rcode response =? RcodeSuccess) || (Rcode response =? RcodeNameError))%Z.

(** Whether a response is refused by the check of the caller. *)
Definition rejects (checker : option (Msg -> bool)) (response : Msg) : bool :=
  match checker with
  | None => false
  | Some check => if cacheable response then negb (check response) else true
  end.

(** The background refresh: [None] when one is in flight for the key. *)
Definition backgroundRefreshDNS (c : Client) (key : dnsCacheKey) : option Client :=
  if bool_decide (key ∈ backgroundRefresh c) then None
  else Some {| c with backgroundRefresh := {[key]} ∪ backgroundRefresh c |}.

(** Its goroutine. *)
Definition refresh (c : Client) (now : Z) (key : dnsCacheKey) (message : Msg) (options : DNSQueryOptions)
    (checker : option (Msg -> bool)) (query : Msg -> result Msg) : Client :=
  let '(question, tag) := key in
  let done c := {| c with backgroundRefresh := backgroundRefresh c ∖ {[key]} |} in
  match exchangeToTransport query message with
  | Ok response =>
      if rejects checker response then
        done {| c with rdrc := (fun r => SaveRDRCAsync r now tag (q_Name question) (q_Qtype question)) <$> rdrc c |}
      else if negb (cacheable response) then done c
      else
        let '(response, timeToLive) := applyResponseOptions question response options in
        done (storeCache c now tag question response timeToLive)
  | _ => done c
  end.

Definition isSimpleRequest (message : Msg) (options : DNSQueryOptions) : bool :=
  (length (Questions message) =? 1)%nat
  && (length (Ns message) =? 0)%nat
  && match Extra message with
     | [] => true
     | [record] =>
         isOPT record && (0 <? rr_Class record) && (rr_Ttl record =? 0)
         && match rr_data record with RR_OPT [] => true | _ => false end
     | _ => false
     end
  && negb (prefix_IsValid (ClientSubnet options)).

(** The [OPT] record of the response follows that of the request. *)
Definition matchEdns0 (message response : Msg) : Msg :=
  match IsEdns0 response with
  | None => response
  | Some responseOpt =>
      match IsEdns0 message with
      | None => {| response with Extra := List.filter (fun r => negb (isOPT r)) (Extra response) |}
      | Some requestOpt =>
          if opt_Version requestOpt <? opt_Version responseOpt then
            SetEdns0 {| response with Extra := List.filter (fun r => negb (isOPT r)) (Extra response) |}
              (opt_UDPSize responseOpt) (opt_Do responseOpt)
          else response
      end
  end.

(** The message a background refresh sends, when an exchange starts one. *)
Definition Refresh : Type := option (dnsCacheKey * Msg).

(** The rest of [Exchange] when the cache did not answer; [answeredAt] is the time when the transport has answered. *)
Definition exchangeUncached (c : Client) (now answeredAt : Z) (contextTransport : option string) (tag : string) (question : Question)
    (message : Msg) (options : DNSQueryOptions) (checker : option (Msg -> bool)) (noCache : bool)
    (query : Msg -> result Msg) : result Msg * Client :=
  if bool_decide (contextTransport = Some tag)
  then (Err (E_New ["DNS query loopback in transport["; tag; "]"]), c)
  else
    let '(rejected, c) :=
      match rdrc c with
      | Some r =>
          if negb noCache && match checker with Some _ => true | None => false end then
            let '(rejected, r) := LoadRDRC r now tag (q_Name question) (q_Qtype question) in
            (rejected, {| c with rdrc := Some r |})
          else (false, c)
      | None => (false, c)
      end in
    if rejected then (Err ErrResponseRejectedCached, c)
    else
      match exchangeToTransport query message with
      | Err err => (Err err, c)
      | Panic msg => (Panic msg, c)
      | Ok response =>
          let noCache := noCache || negb (cacheable response) in
          if rejects checker response then
            (Err ErrResponseRejected,
             if negb noCache
             then {| c with rdrc := (fun r => SaveRDRCAsync r answeredAt tag (q_Name question) (q_Qtype question)) <$> rdrc c |}
             else c)
          else
            let '(response, timeToLive) := applyResponseOptions question response options in
            let c := if negb noCache then storeCache c answeredAt tag question response timeToLive else c in
            (Ok (matchEdns0 message {| response with Id := Id message |}), c)
      end.

(** The strategy excludes the family of the question. *)
Definition excluded (question : Question) (options : DNSQueryOptions) : bool :=
  ((q_Qtype question =? TypeA) && (Strategy options =? DomainStrategyIPv6Only))
  || ((q_Qtype question =? TypeAAAA) && (Strategy options =? DomainStrategyIPv4Only)).

Definition Exchange (c : Client) (now answeredAt : Z) (contextTransport : option string) (transport : Item) (message : Msg)
    (options : DNSQueryOptions) (checker : option (Msg -> bool)) (query : Msg -> result Msg)
    : result Msg * Client * Refresh :=
  match Questions message with
  | [] => (Ok (FixedResponseStatus message RcodeFormatError), c, None)
  | question :: _ =>
      let tag := it_Tag transport in
      if excluded question options then (Ok (FixedResponseStatus message RcodeSuccess), c, None)
      else
        let message := prepareExchangeMessage c message options in
        let noCache := negb (isSimpleRequest message options) || disableCache c || DisableCache options in
        let uncached c := (exchangeUncached c now answeredAt contextTransport tag question message options checker noCache query, None) in
        if noCache then uncached c
        else
          let '(loaded, c) := loadResponse c now question tag in
          match loaded with
          | Some (response, false) => (Ok {| response with Id := Id message |}, c, None)
          | Some (response, true) =>
              if DisableOptimisticCache options then uncached c
              else
                match backgroundRefreshDNS c (question, tag) with
                | Some c => (Ok {| response with Id := Id message |}, c, Some ((question, tag), message))
                | None => (Ok {| response with Id := Id message |}, c, None)
                end
          | None => uncached c
          end
  end.

(** *** Lookups *)

Definition MessageToAddresses (response : Msg) : list Addr := DNSResponseAddresses (Some response).

Definition FqdnToDomain (fqdn : string) : string :=
  if dns_IsFqdn fqdn then String.substring 0 (String.length fqdn - 1) fqdn else fqdn.

Definition sortAddresses (response4 response6 : list Addr) (strategy : N) : list Addr :=
  if strategy =? DomainStrategyPreferIPv6 then response6 ++ response4 else response4 ++ response6.

Definition addressesOf (response : Msg) : result (list Addr) :=
  if negb (Rcode response =? RcodeSuccess)%Z then Err (RcodeError (Rcode response))
  else Ok (MessageToAddresses response).

Definition lookupMessage (name : string) (qType : N) : Msg :=
  mkMsg 0 false false true false 0 [mkQuestion name qType ClassINET] [] [] [].

(** [None] is [ErrNotCached]. *)
Definition questionCache (c : Client) (now : Z) (tag : string) (message : Msg) (options : DNSQueryOptions)
    : option (result (list Addr)) * Client * Refresh :=
  match Questions message with
  | [] => (Some (Panic "index out of range"), c, None)
  | question :: _ =>
      let '(loaded, c) := loadResponse c now question tag in
      match loaded with
      | None => (None, c, None)
      | Some (response, false) => (Some (addressesOf response), c, None)
      | Some (response, true) =>
          if DisableOptimisticCache options then (None, c, None)
          else
            match backgroundRefreshDNS c (question, tag) with
            | Some c => (Some (addressesOf response), c, Some ((question, tag), prepareExchangeMessage c message options))
            | None => (Some (addressesOf response), c, None)
            end
      end
  end.

Definition lookupToExchange (c : Client) (now answeredAt : Z) (contextTransport : option string) (transport : Item) (name : string) (qType : N)
    (options : DNSQueryOptions) (checker : option (Msg -> bool)) (query : Msg -> result Msg)
    : result (list Addr) * Client * list (dnsCacheKey * Msg) :=
  let message := lookupMessage name qType in
  let '(cached, c, refresh1) :=
    if disableCache c || DisableCache options then (None, c, None)
    else questionCache c now (it_Tag transport) message options in
  match cached with
  | Some r => (r, c, option_list refresh1)
  | None =>
      let '(response, c, refresh2) := Exchange c now answeredAt contextTransport transport message options checker query in
      (response ← response; addressesOf response, c, option_list refresh1 ++ option_list refresh2)
  end.

(** The strategy of a lookup and the options of its queries. *)
Definition lookupPlan (options : DNSQueryOptions) : N * DNSQueryOptions :=
  if negb (LookupStrategy options =? DomainStrategyAsIS)
  then (LookupStrategy options, {| options with Strategy := LookupStrategy options |})
  else (Strategy options, options).

(** The two queries of a lookup run in parallel in a [task.Group], which gives its
    error; both orders of their effects on the client are runs of it.  [answeredAt] by the type of the query. *)
Definition Lookup (groupError : error -> option error -> error) (c : Client) (now : Z) (answeredAt : N -> Z) (contextTransport : option string)
    (transport : Item) (domain : string) (options : DNSQueryOptions) (checker : option (Msg -> bool))
    (query : Msg -> result Msg) (ipv6First : bool) : result (list Addr) * Client :=
  let dnsName := dns_Fqdn (FqdnToDomain domain) in
  let '(strategy, options) := lookupPlan options in
  let ask c qType := lookupToExchange c now (answeredAt qType) contextTransport transport dnsName qType options checker query in
  if strategy =? DomainStrategyIPv4Only then (ask c TypeA).1
  else if strategy =? DomainStrategyIPv6Only then (ask c TypeAAAA).1
  else
    let '(first, c, _) := ask c (if ipv6First then TypeAAAA else TypeA) in
    let '(last, c, _) := ask c (if ipv6First then TypeA else TypeAAAA) in
    let '(r4, r6) := if ipv6First then (last, first) else (first, last) in
    let addrs r := match r with Ok l => l | _ => [] end in
    let err :=
      match r4, r6 with
      | Panic msg, _ | _, Panic msg => Panic msg
      | Err e4, Err e6 => Err (groupError e4 (Some e6))
      | Err e, _ | _, Err e => Err (groupError e None)
      | Ok _, Ok _ => Ok []
      end in
    (match addrs r4, addrs r6 with
     | [], [] => err
     | a4, a6 => Ok (sortAddresses a4 a6 strategy)
     end, c).

End Client.
End DnsClient.
