(* ===== verification/DnsClientTheorems.v ===== *)
(** * Theorems on the DNS client

    Every answer has a source: the transport, or a response the same transport gave to
    the same question not longer ago than its time to live. *)

From S2P Require Import Prelude GoStd Metadata Binary Managers DnsMessage DnsClient.
From stdpp Require Import list.
From Stdlib Require Import Strings.Byte.
Import netip Managers DnsMessage DnsClient.

Open Scope N_scope.

#[local] Arguments applyResponseOptions : simpl never.

(** ** Time to live *)

Lemma ttlStep_spec l t :
  (t = 0 -> fold_left ttlStep l t = 0 -> forall r, r ∈ l -> isOPT r = false -> rr_Ttl r = 0)
  /\ (0 < t -> 0 < fold_left ttlStep l t <= t)
  /\ (forall r, r ∈ l -> isOPT r = false -> 0 < rr_Ttl r -> 0 < fold_left ttlStep l t <= rr_Ttl r).
Proof.
  revert t. induction l as [|x l IH]; intros t; cbn [fold_left].
  { split_and!; [intros _ _ r Hr; by apply not_elem_of_nil in Hr|lia|intros r Hr; by apply not_elem_of_nil in Hr]. }
  destruct (IH (ttlStep t x)) as (IH1 & IH2 & IH3). unfold ttlStep in *. destruct (isOPT x) eqn:Ex.
  { split_and!; [..|].
    - intros Ht Hf r [->|Hr]%elem_of_cons Ho; [congruence|]. by apply IH1.
    - done.
    - intros r [->|Hr]%elem_of_cons Ho; [congruence|]. by apply IH3. }
  destruct (N.eqb_spec t 0) as [->|Hne]; cbn in *.
  - split_and!; [..|lia|].
    + intros _ Hf r [->|Hr]%elem_of_cons Ho; [destruct (N.eq_dec (rr_Ttl x) 0); [done|]; lia|].
      destruct (N.eq_dec (rr_Ttl x) 0) as [E|]; [by apply IH1|lia].
    + intros r [->|Hr]%elem_of_cons Ho Hp; [by apply IH2|by apply IH3].
  - split_and!; [lia|..].
    + intros Ht. destruct (N.ltb_spec 0 (rr_Ttl x)); cbn in *; [|by apply IH2].
      destruct (N.ltb_spec (rr_Ttl x) t); [|by apply IH2]. lia.
    + intros r [->|Hr]%elem_of_cons Ho Hp; [|by apply IH3]. rewrite (proj2 (N.ltb_lt _ _) Hp) in *. cbn in *.
      destruct (N.ltb_spec (rr_Ttl x) t); [by apply IH2|]. assert (0 < t) as Ht by lia. specialize (IH2 Ht). lia.
Qed.

(** The time to live of a response with an answer is the least positive one of its
    records. *)
Lemma computeTimeToLive_least response r :
  Answer response <> [] -> r ∈ records response -> isOPT r = false -> 0 < rr_Ttl r ->
  0 < computeTimeToLive response <= rr_Ttl r.
Proof.
  intros Ha. unfold computeTimeToLive. destruct (Answer response) eqn:E; [done|]. cbn [length Nat.eqb].
  by apply (ttlStep_spec (records response) 0).
Qed.

(** ** What the libraries promise *)

(** The memory cache forgets, but what it returns was added under that key, with at
    most the lifetime it was given. *)
Class FreeLRULaws (L : Type) `{FreeLRU L} : Type := {
  entry : L -> dnsCacheKey -> option (Msg * option Z);
  entry_New k : entry lru_New k = None;
  entry_Get l now k m l' : lru_Get l now k = (m, l') ->
    (forall x, m = Some x -> exists e, entry l k = Some (x, e)) /\ (forall k' x, entry l' k' = Some x -> entry l k' = Some x);
  entry_GetWithLifetime l k m l' : lru_GetWithLifetimeNoExpire l k = (m, l') ->
    (forall x e, m = Some (x, e) -> entry l k = Some (x, Some e)) /\ (forall k' x, entry l' k' = Some x -> entry l k' = Some x);
  entry_Add l k m k' x : entry (lru_Add l k m) k' = Some x -> (k' = k /\ x = (m, None)) \/ entry l k' = Some x;
  entry_AddWithLifetime l now k m life k' x : entry (lru_AddWithLifetime l now k m life) k' = Some x ->
    (k' = k /\ exists e, x = (m, Some e) /\ (e <= now + life)%Z) \/ entry l k' = Some x;
  entry_Remove l k k' x : entry (lru_Remove l k) k' = Some x -> entry l k' = Some x;
  entry_Purge l k : entry (lru_Purge l) k = None;
}.

(** [SetEdns0] adds an option record. *)
Class DnsLibLaws `{DnsLib} : Prop := {
  SetEdns0_Id m size do_ : Id (SetEdns0 m size do_) = Id m;
}.

Section Client.
Context `{E : Externals} `{DnsLibLaws} {L R D : Type} `{FreeLRULaws L} `{RDRCStore R} `{DNSCacheStore D}.
#[local] Abbreviation client := (@Client L R D).
Implicit Types (c : client).

(** A response a transport gave: the key, the time, the response, and the options of
    the query. *)
Record Fact : Type := mkFact { f_key : dnsCacheKey; f_time : Z; f_raw : Msg; f_options : DNSQueryOptions }.

Definition f_message (f : Fact) : Msg := (applyResponseOptions (f_key f).1 (f_raw f) (f_options f)).1.
Definition f_ttl (f : Fact) : N := (applyResponseOptions (f_key f).1 (f_raw f) (f_options f)).2.
Definition f_expires (f : Fact) : Z := (f_time f + second * Z.of_N (f_ttl f))%Z.

(** What happens to a client.  [Asked] is a whole exchange; [Loaded] and [Completed] are the two halves of one, with
    other events between its look into the cache and the answer of its transport. *)
Inductive event : Type :=
| Asked (now answeredAt : Z) (contextTransport : option string) (transport : Item) (message : Msg) (options : DNSQueryOptions)
    (checker : option (Msg -> bool)) (query : Msg -> result Msg)
| Loaded (now : Z) (key : dnsCacheKey)
| Completed (now answeredAt : Z) (contextTransport : option string) (key : dnsCacheKey) (message : Msg) (options : DNSQueryOptions)
    (checker : option (Msg -> bool)) (noCache : bool) (query : Msg -> result Msg)
| Refreshed (now : Z) (key : dnsCacheKey) (message : Msg) (options : DNSQueryOptions)
    (checker : option (Msg -> bool)) (query : Msg -> result Msg)
| Cleared.

Definition happen c (e : event) : client :=
  match e with
  | Asked now answeredAt ctx transport message options checker query => (Exchange c now answeredAt ctx transport message options checker query).1.2
  | Loaded now key => (loadResponse c now key.1 key.2).2
  | Completed now answeredAt ctx key message options checker noCache query =>
      (exchangeUncached c now answeredAt ctx key.2 key.1 message options checker noCache query).2
  | Refreshed now key message options checker query => refresh c now key message options checker query
  | Cleared => ClearCache c
  end.

(** Whether a query reaches its transport: whether a transport that panics makes it panic. *)
Definition isPanic {A} (r : result A) : bool := match r with Panic _ => true | _ => false end.
Definition probe : Msg -> result Msg := fun _ => Panic "asked".
Definition reaches c (e : event) : bool :=
  match e with
  | Asked now answeredAt ctx transport message options checker _ => isPanic (Exchange c now answeredAt ctx transport message options checker probe).1.1
  | Completed now answeredAt ctx key message options checker noCache _ =>
      isPanic (exchangeUncached c now answeredAt ctx key.2 key.1 message options checker noCache probe).1
  | Refreshed _ _ _ _ _ _ => true
  | Loaded _ _ | Cleared => false
  end.

(** The response that came from a transport and that the caller accepts. *)
Definition accepted (key : dnsCacheKey) (now : Z) (message : Msg) (options : DNSQueryOptions) (checker : option (Msg -> bool))
    (query : Msg -> result Msg) : list Fact :=
  match exchangeToTransport query message with
  | Ok response => if rejects checker response then [] else [mkFact key now response options]
  | _ => []
  end.
Definition facts c (e : event) : list Fact :=
  if reaches c e then
    match e with
    | Asked _ answeredAt _ transport message options checker query =>
        match Questions message with
        | question :: _ => accepted (question, it_Tag transport) answeredAt (prepareExchangeMessage c message options) options checker query
        | [] => []
        end
    | Completed _ answeredAt _ key message options checker _ query => accepted key answeredAt message options checker query
    | Refreshed now key message options checker query => accepted key now message options checker query
    | Loaded _ _ | Cleared => []
    end
  else [].

Lemma accepted_Ok key now message options checker query response : exchangeToTransport query message = Ok response -> rejects checker response = false ->
  mkFact key now response options ∈ accepted key now message options checker query.
Proof. intros Er Hr. unfold accepted. rewrite Er, Hr. by apply list_elem_of_singleton. Qed.

Fixpoint happenings c (known : list Fact) (es : list event) : client * list Fact :=
  match es with
  | [] => (c, known)
  | e :: es => happenings (happen c e) (facts c e ++ known) es
  end.

(** What the memory cache holds comes from transports. *)
Definition sourced c (known : list Fact) : Prop :=
  dnsCache c = None /\
  forall l, cache c = Some l -> forall key m e, entry l key = Some (m, e) ->
    exists f, f ∈ known /\ f_key f = key /\ m = f_message f /\ 0 < f_ttl f
      /\ match e with Some e => (e <= f_expires f)%Z | None => disableExpire c = true end.

Lemma sourced_mono c known known' : (forall f, f ∈ known -> f ∈ known') -> sourced c known -> sourced c known'.
Proof.
  intros Hs [Hd Hc]. split; [done|]. intros l El key m e He.
  destruct (Hc l El key m e He) as (f & Hf & ?). exists f. auto.
Qed.

(** A smaller cache is sourced. *)
Lemma sourced_shrinks c c' l l' known :
  sourced c known -> cache c = Some l -> cache c' = Some l' -> dnsCache c' = dnsCache c -> disableExpire c' = disableExpire c ->
  (forall k x, entry l' k = Some x -> entry l k = Some x) -> sourced c' known.
Proof.
  intros [Hd Hc] El El' Ed Ee Hsub. split; [congruence|]. intros l1 El1 key m e He. rewrite El' in El1. injection El1 as <-.
  destruct (Hc l El key m e (Hsub _ _ He)) as (f & ? & ? & ? & ? & Hf). exists f. rewrite Ee. auto.
Qed.

Lemma sourced_store c now tag question f known :
  sourced c known -> f ∈ known -> f_key f = (question, tag) -> f_time f = now ->
  sourced (storeCache c now tag question (f_message f) (f_ttl f)) known.
Proof.
  intros Hs Hf Hk <-. pose proof Hs as [Hd Hc]. unfold storeCache. destruct (N.eqb_spec (f_ttl f) 0) as [|Hne]; [done|].
  rewrite Hd. destruct (cache c) as [l|] eqn:El; [|done]. destruct (disableExpire c) eqn:Ee.
  - split; [done|]. cbn [cache disableExpire]. intros l' [= <-] key m e He. apply entry_Add in He as [[-> [= -> ->]]|He].
    + exists f. split_and!; auto; lia.
    + by apply (Hc l).
  - split; [done|]. cbn [cache disableExpire]. intros l' [= <-] key m e He.
    apply entry_AddWithLifetime in He as [(-> & e' & [= -> ->] & Hle)|He].
    + exists f. unfold f_expires. split_and!; auto; lia.
    + by apply (Hc l).
Qed.

Lemma sourced_same_cache c c' known :
  sourced c known -> cache c' = cache c -> dnsCache c' = dnsCache c -> disableExpire c' = disableExpire c -> sourced c' known.
Proof. intros [Hd Hc] El Ed Ee. split; [congruence|]. rewrite El, Ee. done. Qed.

(** What a cached response is: the message of a fact with a time to live that ends
    when the fact expires, or the stale one. *)
Definition cached_from c (now : Z) (key : dnsCacheKey) (known : list Fact) (response : Msg) (stale : bool) : Prop :=
  exists f, f ∈ known /\ f_key f = key /\ 0 < f_ttl f /\
    if disableExpire c then response = f_message f /\ stale = false
    else if stale then response = normalizeTTL (f_message f) 1 /\ (now < f_expires f + optimisticTimeout c)%Z
    else exists ttl, response = normalizeTTL (f_message f) ttl /\ (now + second * Z.of_N ttl <= f_expires f)%Z.

Lemma atTime_from c now response expireAt r stale :
  atTime c now response expireAt = Some (r, stale) ->
  if stale then r = normalizeTTL response 1 /\ (now < expireAt + optimisticTimeout c)%Z
  else exists ttl, r = normalizeTTL response ttl /\ (now + second * Z.of_N ttl <= expireAt)%Z.
Proof.
  unfold atTime, remainingTTL, second. destruct (Z.ltb_spec expireAt now).
  - destruct (Z.ltb_spec 0 (optimisticTimeout c)); cbn; [|done]. destruct (Z.ltb_spec now (expireAt + optimisticTimeout c)); [|done].
    intros [= <- <-]. done.
  - intros [= <- <-]. eexists. split; [done|]. rewrite Z2N.id by lia.
    pose proof (Z.mul_div_le (expireAt - now) (10 ^ 9) ltac:(lia)). lia.
Qed.

Lemma loadResponse_sourced c now question tag loaded c' known :
  sourced c known -> loadResponse c now question tag = (loaded, c') ->
  sourced c' known /\ disableExpire c' = disableExpire c /\ optimisticTimeout c' = optimisticTimeout c
  /\ disableCache c' = disableCache c /\ clientSubnet c' = clientSubnet c
  /\ forall response stale, loaded = Some (response, stale) -> cached_from c now (question, tag) known response stale.
Proof.
  intros Hs Hl. pose proof Hs as [Hd Hc]. unfold loadResponse in Hl. rewrite Hd in Hl.
  destruct (cache c) as [l|] eqn:El; [|by injection Hl as <- <-].
  destruct (disableExpire c) eqn:Ee.
  - destruct (lru_Get l now (question, tag)) as [m l'] eqn:Eg. apply entry_Get in Eg as [Hm Hsub]. injection Hl as <- <-.
    split_and!; try done; [by apply (sourced_shrinks c _ l l')|].
    intros response stale Hr. destruct m as [m|]; [|done]. injection Hr as <- <-. destruct (Hm m eq_refl) as [e He].
    destruct (Hc l eq_refl _ _ _ He) as (f & Hf & Hk & -> & Hp & _). exists f. rewrite Ee. done.
  - destruct (lru_GetWithLifetimeNoExpire l (question, tag)) as [m l'] eqn:Eg. apply entry_GetWithLifetime in Eg as [Hm Hsub].
    destruct m as [[m e]|]; [|injection Hl as <- <-; split_and!; try done; by apply (sourced_shrinks c _ l l')].
    destruct (atTime c now m e) as [[r st]|] eqn:Ea; injection Hl as <- <-.
    + split_and!; try done; [by apply (sourced_shrinks c _ l l')|]. intros response stale [= <- <-].
      destruct (Hc l eq_refl _ _ _ (Hm m e eq_refl)) as (f & Hf & Hk & -> & Hp & He). exists f. rewrite Ee. split_and!; auto.
      apply atTime_from in Ea. destruct st; [destruct Ea; split; [done|lia]|]. destruct Ea as (ttl & -> & Hle).
      exists ttl. split; [done|lia].
    + split_and!; try done. apply (sourced_shrinks c _ l (lru_Remove l' (question, tag))); try done.
      intros k x Hx. apply entry_Remove in Hx. by apply Hsub.
Qed.

(** The response a transport's answer becomes. *)
Definition answered (message : Msg) (question : Question) (options : DNSQueryOptions) (response : Msg) : Msg :=
  let applied := (applyResponseOptions question response options).1 in
  matchEdns0 message {| applied with Id := Id message |}.

Lemma exchangeUncached_source c now answeredAt ctx tag question message options checker noCache query r c' known :
  sourced c known ->
  (isPanic (exchangeUncached c now answeredAt ctx tag question message options checker noCache probe).1 = true ->
   forall response, exchangeToTransport query message = Ok response -> rejects checker response = false ->
     mkFact (question, tag) answeredAt response options ∈ known) ->
  exchangeUncached c now answeredAt ctx tag question message options checker noCache query = (r, c') ->
  sourced c' known
  /\ forall answer, r = Ok answer -> exists response, exchangeToTransport query message = Ok response
       /\ rejects checker response = false /\ answer = answered message question options response.
Proof.
  intros Hs Hfact. unfold exchangeUncached in *. case_bool_decide; [by intros [= <- <-]|].
  match goal with |- context [let '(_, _) := ?x in _] => assert (Hx : exists b c1, x = (b, c1) /\ sourced c1 known) end.
  { destruct (rdrc c) as [r0|]; [|eauto]. destruct (negb noCache && _); [|eauto].
    destruct (LoadRDRC r0 now tag _ _) as [b r1]. eexists _, _. split; [done|]. by apply (sourced_same_cache c). }
  destruct Hx as (b & c1 & -> & Hs1) in Hfact |- *. destruct b; [by intros [= <- <-]|]. specialize (Hfact eq_refl).
  destruct (exchangeToTransport query message) as [response|err|msg] eqn:Eq; [|by intros [= <- <-]..].
  destruct (rejects checker response) eqn:Er.
  { intros [= <- <-]. split; [|done]. case_match; [|done]. by apply (sourced_same_cache c1). }
  set (f := mkFact (question, tag) answeredAt response options).
  destruct (applyResponseOptions question response options) as [applied ttl] eqn:Ea.
  intros [= <- <-]. split.
  - case_match; [|done]. assert (applied = f_message f) as -> by (unfold f_message; cbn; by rewrite Ea).
    assert (ttl = f_ttl f) as -> by (unfold f_ttl; cbn; by rewrite Ea). apply sourced_store; auto. by apply Hfact.
  - intros answer [= <-]. exists response. unfold answered. rewrite Ea. done.
Qed.

Lemma refresh_sourced c now key message options checker query known :
  sourced c known ->
  (forall response, exchangeToTransport query message = Ok response -> rejects checker response = false ->
     mkFact key now response options ∈ known) ->
  sourced (refresh c now key message options checker query) known.
Proof.
  intros Hs Hfact. unfold refresh. destruct key as [question tag].
  destruct (exchangeToTransport query message) as [response|err|msg] eqn:Eq; [|by apply (sourced_same_cache c)..].
  destruct (rejects checker response) eqn:Er; [by apply (sourced_same_cache c)|].
  destruct (negb (cacheable response)); [by apply (sourced_same_cache c)|].
  set (f := mkFact (question, tag) now response options).
  destruct (applyResponseOptions question response options) as [applied ttl] eqn:Ea.
  assert (applied = f_message f) as -> by (unfold f_message; cbn; by rewrite Ea).
  assert (ttl = f_ttl f) as -> by (unfold f_ttl; cbn; by rewrite Ea).
  apply (sourced_same_cache (storeCache c now tag question (f_message f) (f_ttl f))); try done.
  apply sourced_store; auto. by apply Hfact.
Qed.

(** Where an answer comes from. *)
Inductive source c (now : Z) (transport : Item) (message : Msg) (options : DNSQueryOptions)
    (checker : option (Msg -> bool)) (query : Msg -> result Msg) (known : list Fact) (answer : Msg) : Prop :=
| from_client rcode : answer = FixedResponseStatus message rcode -> source c now transport message options checker query known answer
| from_cache question response stale :
    head (Questions message) = Some question ->
    cached_from c now (question, it_Tag transport) known response stale ->
    answer = {| response with Id := Id message |} -> source c now transport message options checker query known answer
| from_transport question response :
    head (Questions message) = Some question ->
    exchangeToTransport query (prepareExchangeMessage c message options) = Ok response -> rejects checker response = false ->
    answer = answered (prepareExchangeMessage c message options) question options response ->
    source c now transport message options checker query known answer.

Lemma prepare_Id c message options : Id (prepareExchangeMessage c message options) = Id message.
Proof. unfold prepareExchangeMessage, SetClientSubnet. repeat case_match; done. Qed.

Lemma exchange_source c now answeredAt ctx transport message options checker query r c' rf known known' :
  sourced c known -> (forall f, f ∈ known -> f ∈ known') ->
  (forall f, f ∈ facts c (Asked now answeredAt ctx transport message options checker query) -> f ∈ known') ->
  Exchange c now answeredAt ctx transport message options checker query = (r, c', rf) ->
  sourced c' known' /\ forall answer, r = Ok answer -> source c now transport message options checker query known answer.
Proof.
  intros Hs Hsub Hfact. pose proof (sourced_mono _ _ _ Hsub Hs) as Hs'. unfold facts, reaches, Exchange in *. destruct (Questions message) as [|question rest] eqn:Eq.
  { intros [= <- <- <-]. split; [done|]. intros answer [= <-]. by eapply from_client. }
  destruct (excluded question options); [intros [= <- <- <-]; split; [done|]; intros answer [= <-]; by eapply from_client|].
  set (message' := prepareExchangeMessage c message options) in *. set (tag := it_Tag transport) in *.
  assert (Hhead : head (Questions message) = Some question) by by rewrite Eq.
  assert (Hun : forall c1 noCache r c' rf, sourced c1 known' ->
    (isPanic (exchangeUncached c1 now answeredAt ctx tag question message' options checker noCache probe).1 = true ->
     forall f, f ∈ accepted (question, tag) answeredAt message' options checker query -> f ∈ known') ->
    (exchangeUncached c1 now answeredAt ctx tag question message' options checker noCache query, None : Refresh) = (r, c', rf) ->
    sourced c' known' /\ forall answer, r = Ok answer -> source c now transport message options checker query known answer).
  { intros c1 noCache r1 c2 rf1 Hs1 Hacc E1. apply (f_equal fst) in E1. cbn [fst] in E1.
    destruct (exchangeUncached_source c1 now answeredAt ctx tag question message' options checker noCache query r1 c2 known') as [Hs2 Ha]; auto.
    - intros Hp response Er Hr. apply (Hacc Hp). by apply accepted_Ok.
    - split; [done|]. intros answer ->. destruct (Ha answer eq_refl) as (response & ? & ? & ?). by eapply from_transport. }
  assert (Hprobe : forall c1 noCache, (forall f, f ∈ (if isPanic (exchangeUncached c1 now answeredAt ctx tag question message' options checker noCache probe, None : Refresh).1.1
      then accepted (question, tag) answeredAt message' options checker query else []) -> f ∈ known') ->
    isPanic (exchangeUncached c1 now answeredAt ctx tag question message' options checker noCache probe).1 = true ->
    forall f, f ∈ accepted (question, tag) answeredAt message' options checker query -> f ∈ known').
  { intros c1 noCache Hf Hp. cbn [fst] in Hf. by rewrite Hp in Hf. }
  destruct (negb _ || _ || _); [by apply Hun; [|apply Hprobe]|].
  destruct (loadResponse c now question tag) as [loaded c1] eqn:El.
  destruct (loadResponse_sourced c now question tag loaded c1 known Hs El) as (Hs1 & _ & _ & _ & _ & Hload).
  apply (sourced_mono _ _ _ Hsub) in Hs1.
  destruct loaded as [[response [|]]|]; [|..|by apply Hun; [|apply Hprobe]].
  - destruct (DisableOptimisticCache options); [by apply Hun; [|apply Hprobe]|]. unfold backgroundRefreshDNS.
    case_bool_decide; intros [= <- <- <-]; (split; [first [done|by apply (sourced_same_cache c1)]|]); intros answer [= <-];
      (eapply (from_cache _ _ _ _ _ _ _ _ _ question response true); [done|by apply Hload|unfold message'; by rewrite prepare_Id]).
  - intros [= <- <- <-]. split; [done|]. intros answer [= <-].
    eapply (from_cache _ _ _ _ _ _ _ _ _ question response false); [done|by apply Hload|unfold message'; by rewrite prepare_Id].
Qed.

Lemma happen_sourced c e known : sourced c known -> sourced (happen c e) (facts c e ++ known).
Proof.
  intros Hs. assert (Hsub : forall f, f ∈ known -> f ∈ facts c e ++ known) by (intros; apply elem_of_app; auto).
  pose proof (sourced_mono _ _ _ Hsub Hs) as Hs'. assert (Hnew : forall f, f ∈ facts c e -> f ∈ facts c e ++ known) by (intros; apply elem_of_app; auto).
  destruct e as [now answeredAt ctx transport message options checker query|now key|now answeredAt ctx [question tag] message options checker noCache query
    |now key message options checker query|]; cbn [happen].
  - destruct (Exchange c now answeredAt ctx transport message options checker query) as [[r c'] rf] eqn:Ee.
    by eapply (exchange_source c now answeredAt ctx transport message options checker query r c' rf known).
  - destruct (loadResponse c now key.1 key.2) as [loaded c1] eqn:El. by apply (loadResponse_sourced c now key.1 key.2 loaded c1 known) in El as [? _].
  - cbn [fst snd]. destruct (exchangeUncached c now answeredAt ctx tag question message options checker noCache query) as [r c'] eqn:Ee.
    eapply exchangeUncached_source in Ee as [? _]; [done|done|]. intros Hp response Er Hr. apply Hnew. unfold facts, reaches. cbn [fst snd]. rewrite Hp. by apply accepted_Ok.
  - apply refresh_sourced; [done|]. intros response Er Hr. apply Hnew. by apply accepted_Ok.
  - destruct Hs as [Hd _]. split; [cbn; by rewrite Hd|]. cbn. destruct (cache c) as [l|]; [|done].
    intros l' [= <-] key m e He. by rewrite entry_Purge in He.
Qed.

(** A query that does not reach its transport does not depend on it. *)
Lemma unreached_Exchange c now answeredAt ctx transport message options checker query query' :
  reaches c (Asked now answeredAt ctx transport message options checker query) = false ->
  Exchange c now answeredAt ctx transport message options checker query = Exchange c now answeredAt ctx transport message options checker query'.
Proof.
  assert (Hun : forall c1 tag question message' noCache, isPanic (exchangeUncached c1 now answeredAt ctx tag question message' options checker noCache probe).1 = false ->
    exchangeUncached c1 now answeredAt ctx tag question message' options checker noCache query = exchangeUncached c1 now answeredAt ctx tag question message' options checker noCache query').
  { intros c1 tag question message' noCache. unfold exchangeUncached. case_bool_decide; [done|].
    match goal with |- context [let '(_, _) := ?x in _] => destruct x as [[|] c2] end; done. }
  unfold reaches, Exchange. destruct (Questions message) as [|question rest]; [done|]. destruct (excluded question options); [done|].
  destruct (negb _ || _ || _); [cbn [fst]; intros Hp; by rewrite (Hun _ _ _ _ _ Hp)|].
  destruct (loadResponse c now question (it_Tag transport)) as [[[response [|]]|] c1]; [|done|cbn [fst]; intros Hp; by rewrite (Hun _ _ _ _ _ Hp)].
  destruct (DisableOptimisticCache options); [cbn [fst]; intros Hp; by rewrite (Hun _ _ _ _ _ Hp)|]. by destruct (backgroundRefreshDNS c1 _).
Qed.

Lemma happenings_sourced es : forall c known, sourced c known ->
  sourced (happenings c known es).1 (happenings c known es).2.
Proof. induction es as [|e es IH]; intros c known Hs; cbn [happenings]; [done|]. by apply IH, happen_sourced. Qed.

Lemma start_sourced timeout dc de optimistic subnet b initRDRC : sourced (Start (NewClient timeout dc de optimistic subnet b) initRDRC None) [].
Proof.
  unfold Start, NewClient, initializeMemoryCache.
  destruct dc, b; (split; [done|]); cbn; intros l; try done; intros [= <-] key m e He; by rewrite entry_New in He.
Qed.

Lemma answered_Id message question options response : Id (answered message question options response) = Id message.
Proof.
  unfold answered, matchEdns0. destruct (applyResponseOptions question response options) as [m ttl]. cbn [fst].
  repeat case_match; try done. by rewrite SetEdns0_Id.
Qed.

(** C35: every answer of the client has a source.  After any history of queries, of queries that wait for their transport
    while others go on, of refreshes and purges of a client with a memory cache, an answer carries the identifier of the
    query and is a fixed response of the client, or the transport's answer to it that the caller accepts, or the response
    to this question of a transport with this tag that was really asked before.  Such a response is served with a time to
    live that ends no later than it expires, or with one second when it is stale, within the optimistic timeout; a client
    that was told not to expire its cache serves it unchanged and without a limit. *)
Theorem dns_answers_have_a_source timeout dc de optimistic subnet b initRDRC es now answeredAt ctx transport message options checker query answer c' rf :
  let '(c, known) := happenings (Start (NewClient timeout dc de optimistic subnet b) initRDRC None) [] es in
  Exchange c now answeredAt ctx transport message options checker query = (Ok answer, c', rf) ->
  Id answer = Id message /\ source c now transport message options checker query known answer.
Proof.
  pose proof (happenings_sourced es _ [] (start_sourced timeout dc de optimistic subnet b initRDRC)) as Hs.
  destruct (happenings _ [] es) as [c known]. cbn [fst snd] in Hs. intros Ex.
  destruct (exchange_source c now answeredAt ctx transport message options checker query (Ok answer) c' rf known
    (facts c (Asked now answeredAt ctx transport message options checker query) ++ known)) as [_ Ha]; try done.
  { intros; apply elem_of_app; auto. } { intros; apply elem_of_app; auto. }
  specialize (Ha answer eq_refl). split; [|done]. destruct Ha as [rcode ->|question response stale _ _ ->|question response _ _ _ ->]; try done.
  by rewrite answered_Id, prepare_Id.
Qed.
End Client.

(** ** Samples *)

#[export] Instance sampleDnsLib : DnsLib := {|
  Pack m := None;
  Unpack _ := None;
  IsEdns0 m := List.find isOPT (Extra m);
  opt_Version _ := 0;
  opt_UDPSize r := rr_Class r;
  opt_Do _ := false;
  SetEdns0 m size _ := {| m with Extra := Extra m ++ [mkRR "." TypeOPT size 0 (RR_OPT [])] |};
  dns_Fqdn s := s;
  dns_IsFqdn _ := false;
|}.

#[export] Instance sampleDnsLibLaws : DnsLibLaws.
Proof. by constructor. Qed.

Definition mapLRU : Type := gmap dnsCacheKey (Msg * option Z).

#[export] Instance mapLRU_ops : FreeLRU mapLRU := {|
  lru_New := ∅;
  lru_Get l now k := (match l !! k with
    | Some (m, Some e) => if (now <=? e)%Z then Some m else None
    | Some (m, None) => Some m
    | None => None
    end, l);
  lru_GetWithLifetimeNoExpire l k := (match l !! k with Some (m, Some e) => Some (m, e) | _ => None end, l);
  lru_Add l k m := <[k := (m, None)]> l;
  lru_AddWithLifetime l now k m life := <[k := (m, Some (now + life)%Z)]> l;
  lru_Remove l k := delete k l;
  lru_Purge _ := ∅;
|}.

#[export] Instance mapLRU_laws : FreeLRULaws mapLRU.
Proof.
  refine {| entry := fun (l : mapLRU) k => l !! k |}.
  - intros k. apply lookup_empty.
  - intros l now k m l'. cbn. intros [= <- <-]. split; [|done]. intros x. destruct (l !! k) as [[y [e|]]|]; [case_match| |]; intros [= <-]; eauto.
  - intros l k m l'. cbn. intros [= <- <-]. split; [|done]. intros x e. destruct (l !! k) as [[y [e'|]]|]; intros [= <- <-]; eauto.
  - intros l k m k' x. cbn. intros [[<- <-]|[_ ?]]%lookup_insert_Some; auto.
  - intros l now k m life k' x. cbn. intros [[<- <-]|[_ ?]]%lookup_insert_Some; [|auto]. left. split; [done|]. eexists. split; [done|]. lia.
  - intros l k k' x. cbn. intros [_ ?]%lookup_delete_Some. done.
  - intros l k. apply lookup_empty.
Defined.

#[export] Instance noRDRC : RDRCStore unit := {| LoadRDRC r _ _ _ _ := (false, r); SaveRDRCAsync r _ _ _ _ := r |}.
#[export] Instance noDNSCache : DNSCacheStore unit :=
  {| LoadDNSCache _ _ _ _ := None; SaveDNSCacheAsync d _ _ _ _ _ := d; ClearDNSCache d := d |}.

Definition sampleServer : Item := mkItem 1 "udp" "s" [].
Definition sampleAsk (id : N) : Msg := mkMsg id false false true false 0 [mkQuestion "a" TypeA ClassINET] [] [] [].
Definition sampleAnswer (ttl : N) : Msg :=
  mkMsg 0 true false true true 0 [mkQuestion "a" TypeA ClassINET] [mkRR "a" TypeA ClassINET ttl (RR_A [x01; x02; x03; x04])] [] [].
Definition plainOptions : DNSQueryOptions := mkOptions None 0 0 false false None 0 PrefixZero.
Definition sampleClient : @Client mapLRU unit unit := Start (NewClient 0 false false 0 PrefixZero false) None None.
Definition sampleAsked : event := Asked 0 second None sampleServer (sampleAsk 1) plainOptions None (fun _ => Ok (sampleAnswer 60)).

(** Ten seconds later the answer comes from the cache, and the transport is not asked. *)
Lemma dns_answers_have_a_source_witness :
  source (happen sampleClient sampleAsked) (10 * second) sampleServer (sampleAsk 7) plainOptions None (fun _ => Err ErrEOF)
    (facts sampleClient sampleAsked) (let m := sampleAnswer 51 in {| m with Id := 7 |}).
Proof.
  exact (proj2 (dns_answers_have_a_source 0 false false 0 PrefixZero false None [sampleAsked] (10 * second) (10 * second) None sampleServer
    (sampleAsk 7) plainOptions None (fun _ => Err ErrEOF) (let m := sampleAnswer 51 in {| m with Id := 7 |}) _ None eq_refl)).
Defined.

(** A response that was cached without a check is served to a caller whose check would
    refuse it. *)
Theorem cached_response_skips_check :
  let c := happen sampleClient sampleAsked in
  (Exchange c (10 * second) (10 * second) None sampleServer (sampleAsk 7) plainOptions (Some (fun _ => false)) (fun _ => Err ErrEOF)).1.1
  = Ok (let m := sampleAnswer 51 in {| m with Id := 7 |}).
Proof. reflexivity. Qed.

(** A client that does not expire its cache serves the answer of a minute a year later. *)
Example cached_response_never_expires :
  let c : @Client mapLRU unit unit := happen (Start (NewClient 0 false true 0 PrefixZero false) None None) sampleAsked in
  (Exchange c (365 * 86400 * second) 0 None sampleServer (sampleAsk 7) plainOptions None (fun _ => Err ErrEOF)).1.1
  = Ok (let m := sampleAnswer 60 in {| m with Id := 7 |}).
Proof. reflexivity. Qed.
