(* ===== verification/DnsActions.v ===== *)
(** * DNS rule actions (src/route/rule/rule_action.go, src/option/rule_action.go,
    src/option/dns_record.go)

    What a matching DNS rule does, and the construction of the actions from the
    options. *)

From S2P Require Import Prelude GoStd Metadata RuleItems HeadlessOptions RuleActions DnsMessage.
From Stdlib Require Import Strings.Ascii.
Import netip RuleItems RuleActions DnsMessage.

Open Scope N_scope.

Module DnsActions.

(** ** Actions *)

Definition RuleActionTypeEvaluate : string := "evaluate".
Definition RuleActionTypeRespond : string := "respond".
Definition RuleActionTypePredefined : string := "predefined".

Record RuleActionDNSRouteOptions : Type := mkDNSRouteOptions {
  a_Strategy : N;
  a_Timeout : Z;
  a_DisableCache : bool;
  a_DisableOptimisticCache : bool;
  a_RewriteTTL : option N;
  a_ClientSubnet : Prefix;
}.

(** The records are interface values, which can be nil. *)
Record RuleActionPredefined : Type := mkPredefined {
  p_Rcode : Z;
  p_Answer : list (option RR);
  p_Ns : list (option RR);
  p_Extra : list (option RR);
}.

Inductive DNSAction : Type :=
| ActionDNSRoute (server : string) (options : RuleActionDNSRouteOptions)
| ActionEvaluate (server : string) (options : RuleActionDNSRouteOptions)
| ActionRespond
| ActionDNSRouteOptions (options : RuleActionDNSRouteOptions)
| ActionDNSReject (action : RuleActionReject)
| ActionPredefined (action : RuleActionPredefined).

Definition dnsAction_Type (action : DNSAction) : string :=
  match action with
  | ActionDNSRoute _ _ => RuleActionTypeRoute
  | ActionEvaluate _ _ => RuleActionTypeEvaluate
  | ActionRespond => RuleActionTypeRespond
  | ActionDNSRouteOptions _ => RuleActionTypeRouteOptions
  | ActionDNSReject _ => RuleActionTypeReject
  | ActionPredefined _ => RuleActionTypePredefined
  end.

(** ** Predefined responses *)

(** A record whose owner is a wildcard that covers the question takes its name. *)
Definition rewriteRecord (question : Question) (it : option RR) : result RR :=
  match it with
  | None => Panic "invalid memory address or nil pointer dereference"
  | Some rr =>
      Ok match rr_Name rr with
         | String "*"%char suffix =>
             if strings.HasSuffix (q_Name question) suffix then {| rr with rr_Name := q_Name question |} else rr
         | _ => rr
         end
  end.
Fixpoint rewriteRecords (records : list (option RR)) (question : Question) : result (list RR) :=
  match records with
  | [] => Ok []
  | it :: records =>
      it ← rewriteRecord question it;
      records ← rewriteRecords records question;
      Ok (it :: records)
  end.

Definition predefined_Response (r : RuleActionPredefined) (request : Msg) : result Msg :=
  match Questions request with
  | [] => Panic "index out of range"
  | question :: _ =>
      answer ← rewriteRecords (p_Answer r) question;
      ns ← rewriteRecords (p_Ns r) question;
      extra ← rewriteRecords (p_Extra r) question;
      Ok (mkMsg (Id request) true true true true (p_Rcode r) (Questions request) answer ns extra)
  end.

(** ** Options *)

Record DNSRouteOptionsActionOptions : Type := mkDNSRouteOptionsOptions {
  ao_Strategy : N;
  ao_Timeout : Z;
  ao_DisableCache : bool;
  ao_DisableOptimisticCache : bool;
  ao_RewriteTTL : option N;
  ao_ClientSubnet : option Prefix;
}.

Record DNSRouteActionPredefined : Type := mkPredefinedOptions {
  po_Rcode : option Z;
  po_Answer : slice DNSRecordOptions;
  po_Ns : slice DNSRecordOptions;
  po_Extra : slice DNSRecordOptions;
}.

(** [option.DNSRuleAction]; [RouteOptions] is the server and the options of a route. *)
Record DNSRuleAction : Type := mkDNSRuleAction {
  d_Action : string;
  d_RouteOptions : string * DNSRouteOptionsActionOptions;
  d_RouteOptionsOptions : DNSRouteOptionsActionOptions;
  d_RejectOptions : RuleActionReject;
  d_PredefinedOptions : DNSRouteActionPredefined;
}.

Definition routeOptions_isZero (o : DNSRouteOptionsActionOptions) : bool :=
  (ao_Strategy o =? 0) && (ao_Timeout o =? 0)%Z && negb (ao_DisableCache o) && negb (ao_DisableOptimisticCache o)
  && isNil (ao_RewriteTTL o) && isNil (ao_ClientSubnet o).

(** [reflect.DeepEqual] of an action with the zero value. *)
Definition dnsAction_isZero (a : DNSRuleAction) : bool :=
  bool_decide (d_Action a = "")
  && bool_decide ((d_RouteOptions a).1 = "") && routeOptions_isZero (d_RouteOptions a).2
  && routeOptions_isZero (d_RouteOptionsOptions a)
  && bool_decide (Method (d_RejectOptions a) = "") && negb (NoDrop (d_RejectOptions a))
  && isNil (po_Rcode (d_PredefinedOptions a)) && isNil (po_Answer (d_PredefinedOptions a))
  && isNil (po_Ns (d_PredefinedOptions a)) && isNil (po_Extra (d_PredefinedOptions a)).

(** [netip.Prefix(common.PtrValueOrDefault(...))] *)
Definition newDNSRouteOptions (o : DNSRouteOptionsActionOptions) : RuleActionDNSRouteOptions :=
  mkDNSRouteOptions (ao_Strategy o) (ao_Timeout o) (ao_DisableCache o) (ao_DisableOptimisticCache o)
    (ao_RewriteTTL o) (default PrefixZero (ao_ClientSubnet o)).

Definition RCode_Build (r : option Z) : Z := default RcodeSuccess r.

Definition NewDNSRuleAction (a : DNSRuleAction) : result (option DNSAction) :=
  if bool_decide (d_Action a = "") then Ok None
  else if bool_decide (d_Action a = RuleActionTypeRoute) then
    Ok (Some (ActionDNSRoute (d_RouteOptions a).1 (newDNSRouteOptions (d_RouteOptions a).2)))
  else if bool_decide (d_Action a = RuleActionTypeEvaluate) then
    Ok (Some (ActionEvaluate (d_RouteOptions a).1 (newDNSRouteOptions (d_RouteOptions a).2)))
  else if bool_decide (d_Action a = RuleActionTypeRespond) then Ok (Some ActionRespond)
  else if bool_decide (d_Action a = RuleActionTypeRouteOptions) then
    Ok (Some (ActionDNSRouteOptions (newDNSRouteOptions (d_RouteOptionsOptions a))))
  else if bool_decide (d_Action a = RuleActionTypeReject) then Ok (Some (ActionDNSReject (d_RejectOptions a)))
  else if bool_decide (d_Action a = RuleActionTypePredefined) then
    Ok (Some (ActionPredefined
      (mkPredefined (RCode_Build (po_Rcode (d_PredefinedOptions a))) (elems (po_Answer (d_PredefinedOptions a)))
         (elems (po_Ns (d_PredefinedOptions a))) (elems (po_Extra (d_PredefinedOptions a))))))
  else Panic ("unknown rule action: " +:+ d_Action a).

End DnsActions.
