(* ===== verification/DnsBuild.v ===== *)
(** * Building DNS rules (src/route/rule/rule_dns.go, rule_nested_action.go,
    rule_abstract.go, src/option/rule_dns.go)

    [NewDNSRule] checks the options of a DNS rule and turns each configured field
    into an item of its group; starting a rule starts its items, which take
    references to rule-sets.  A rule-set is known by its tag. *)

From S2P Require Import Prelude GoStd Metadata RuleItems Rules HeadlessOptions HeadlessBuild RuleActions.
From S2P Require Import RuleBuild DnsRules DnsActions RuleSetRefs.
Import netip RuleItems Rules RuleActions DnsRules DnsActions.

Open Scope N_scope.

Module DnsBuild.

(** ** Deprecated options (src/experimental/deprecated/constants.go) *)

Record Note : Type := mkNote {
  Description : string;
  DeprecatedVersion : string;
  ScheduledVersion : string;
  MigrationLink : string;
}.

Definition MessageWithLink `{E : Externals} (n : Note) : string :=
  if negb (bool_decide (MigrationLink n = "")) then
    F_ToString [Description n; " is deprecated in sing-box "; DeprecatedVersion n;
      " and will be removed in sing-box "; ScheduledVersion n; ", checkout documentation for migration: ";
      MigrationLink n]
  else
    F_ToString [Description n; " is deprecated in sing-box "; DeprecatedVersion n;
      " and will be removed in sing-box "; ScheduledVersion n; "."].

Definition OptionRuleSetIPCIDRAcceptEmpty : Note :=
  mkNote "Legacy `rule_set_ip_cidr_accept_empty` DNS rule item" "1.14.0" "1.16.0"
    "https://sing-box.sagernet.org/migration/#migrate-address-filter-fields-to-response-matching".
Definition OptionLegacyDNSAddressFilter : Note :=
  mkNote "Legacy Address Filter Fields in DNS rules" "1.14.0" "1.16.0"
    "https://sing-box.sagernet.org/migration/#migrate-address-filter-fields-to-response-matching".
Definition OptionLegacyDNSRuleStrategy : Note :=
  mkNote "Legacy `strategy` DNS rule action option" "1.14.0" "1.16.0"
    "https://sing-box.sagernet.org/migration/#migrate-dns-rule-action-strategy-to-rule-items".

(** ** Options *)

Record RawDefaultDNSRule : Type := mkRawDNS {
  d_Inbound : slice string;
  d_IPVersion : Z;
  d_QueryType : slice N;
  d_Network : slice string;
  d_AuthUser : slice string;
  d_Protocol : slice string;
  d_Domain : slice string;
  d_DomainSuffix : slice string;
  d_DomainKeyword : slice string;
  d_DomainRegex : slice string;
  d_SourceIPCIDR : slice string;
  d_SourceIPIsPrivate : bool;
  d_SourcePort : slice N;
  d_SourcePortRange : slice string;
  d_Port : slice N;
  d_PortRange : slice string;
  d_ProcessName : slice string;
  d_ProcessPath : slice string;
  d_ProcessPathRegex : slice string;
  d_PackageName : slice string;
  d_PackageNameRegex : slice string;
  d_User : slice string;
  d_UserID : slice Z;
  d_Outbound : slice string;
  d_ClashMode : string;
  d_NetworkType : slice InterfaceType;
  d_NetworkIsExpensive : bool;
  d_NetworkIsConstrained : bool;
  d_WIFISSID : slice string;
  d_WIFIBSSID : slice string;
  d_InterfaceAddress : option (list (string * slice (option Prefix)));
  d_NetworkInterfaceAddress : option (list (InterfaceType * slice (option Prefix)));
  d_DefaultInterfaceAddress : slice (option Prefix);
  d_SourceMACAddress : slice string;
  d_SourceHostname : slice string;
  d_PreferredBy : slice string;
  d_RuleSet : slice string;
  d_RuleSetIPCIDRMatchSource : bool;
  d_MatchResponse : bool;
  d_IPCIDR : slice string;
  d_IPIsPrivate : bool;
  d_IPAcceptAny : bool;
  d_ResponseRcode : option Z;
  d_ResponseAnswer : slice DNSRecordOptions;
  d_ResponseNs : slice DNSRecordOptions;
  d_ResponseExtra : slice DNSRecordOptions;
  d_Invert : bool;
  d_Geosite : slice string;
  d_SourceGeoIP : slice string;
  d_GeoIP : slice string;
  d_RuleSetIPCIDRAcceptEmpty : bool;
  d_Deprecated_RulesetIPCIDRMatchSource : bool;
}.

Definition RawDefaultDNSRuleZero : RawDefaultDNSRule :=
  mkRawDNS None 0%Z None None None None None None None None None false None None None None None None None
    None None None None None "" None false false None None None None None None None None None false
    false None false false None None None None false None None None false false.

(** Every field other than [Invert] has its zero value. *)
Definition rawDNS_isZero (r : RawDefaultDNSRule) : bool :=
  isNil (d_Inbound r) && (d_IPVersion r =? 0)%Z && isNil (d_QueryType r) && isNil (d_Network r)
  && isNil (d_AuthUser r) && isNil (d_Protocol r) && isNil (d_Domain r) && isNil (d_DomainSuffix r)
  && isNil (d_DomainKeyword r) && isNil (d_DomainRegex r) && isNil (d_SourceIPCIDR r)
  && negb (d_SourceIPIsPrivate r) && isNil (d_SourcePort r) && isNil (d_SourcePortRange r)
  && isNil (d_Port r) && isNil (d_PortRange r) && isNil (d_ProcessName r) && isNil (d_ProcessPath r)
  && isNil (d_ProcessPathRegex r) && isNil (d_PackageName r) && isNil (d_PackageNameRegex r)
  && isNil (d_User r) && isNil (d_UserID r) && isNil (d_Outbound r)
  && bool_decide (d_ClashMode r = "") && isNil (d_NetworkType r) && negb (d_NetworkIsExpensive r)
  && negb (d_NetworkIsConstrained r) && isNil (d_WIFISSID r) && isNil (d_WIFIBSSID r)
  && isNil (d_InterfaceAddress r) && isNil (d_NetworkInterfaceAddress r)
  && isNil (d_DefaultInterfaceAddress r) && isNil (d_SourceMACAddress r)
  && isNil (d_SourceHostname r) && isNil (d_PreferredBy r) && isNil (d_RuleSet r)
  && negb (d_RuleSetIPCIDRMatchSource r) && negb (d_MatchResponse r) && isNil (d_IPCIDR r)
  && negb (d_IPIsPrivate r) && negb (d_IPAcceptAny r) && isNil (d_ResponseRcode r)
  && isNil (d_ResponseAnswer r) && isNil (d_ResponseNs r) && isNil (d_ResponseExtra r)
  && isNil (d_Geosite r) && isNil (d_SourceGeoIP r) && isNil (d_GeoIP r)
  && negb (d_RuleSetIPCIDRAcceptEmpty r) && negb (d_Deprecated_RulesetIPCIDRMatchSource r).

(** [option.DNSRule]: its type, the options and action of a default rule, and the
    fields and action of a logical rule. *)
Inductive DNSRuleOptions : Type :=
| mkDNSRule (Type_ : string) (DefaultOptions : RawDefaultDNSRule) (DefaultAction : DNSRuleAction)
    (Mode : string) (Rules : list DNSRuleOptions) (Invert : bool) (LogicalAction : DNSRuleAction).

Definition defaultDNSRule_IsValid (o : RawDefaultDNSRule) (a : DNSRuleAction) : bool :=
  negb (rawDNS_isZero o && dnsAction_isZero a).

(** [DNSRule.IsValid], with [LogicalDNSRule.IsValid] inlined at the recursion. *)
Fixpoint dns_IsValid (r : DNSRuleOptions) : result bool :=
  match r with
  | mkDNSRule type_ o a _ rules _ _ =>
      if bool_decide (type_ = RuleTypeDefault) then Ok (defaultDNSRule_IsValid o a)
      else if bool_decide (type_ = RuleTypeLogical)
      then if (0 <? length rules)%nat then all_valid dns_IsValid rules else Ok false
      else Panic ("unknown DNS rule type: " +:+ type_)
  end.
Definition dns_logical_IsValid (rules : list DNSRuleOptions) : result bool :=
  if (0 <? length rules)%nat then all_valid dns_IsValid rules else Ok false.

Definition dnsRuleHasConfiguredAction (r : DNSRuleOptions) : bool :=
  match r with
  | mkDNSRule type_ _ a _ _ _ la =>
      if bool_decide (type_ = "") || bool_decide (type_ = RuleTypeDefault) then negb (dnsAction_isZero a)
      else if bool_decide (type_ = RuleTypeLogical) then negb (dnsAction_isZero la)
      else false
  end.

(** [option.DNSRuleActionNestedUnsupportedMessage] *)
Definition DNSRuleActionNestedUnsupportedMessage : string :=
  "DNS rule action is not supported in nested rules".

Fixpoint validateNoNestedDNSRuleActions (r : DNSRuleOptions) (nested : bool) : result unit :=
  if nested && dnsRuleHasConfiguredAction r then Err (E_New [DNSRuleActionNestedUnsupportedMessage])
  else
    match r with
    | mkDNSRule type_ _ _ _ rules _ _ =>
        if negb (bool_decide (type_ = RuleTypeLogical)) then Ok tt
        else _ ← build_all (fun sub => validateNoNestedDNSRuleActions sub true) 0 rules; Ok tt
    end.
Definition ValidateNoNestedDNSRuleActions (r : DNSRuleOptions) : result unit :=
  validateNoNestedDNSRuleActions r false.

Definition validateDNSRuleAction (a : DNSRuleAction) : result unit :=
  if bool_decide (d_Action a = RuleActionTypeReject)
     && bool_decide (Method (d_RejectOptions a) = RuleActionRejectMethodReply)
  then Err (E_New ["reject method `reply` is not supported for DNS rules"])
  else Ok tt.

Section Build.
Context `{E : Externals} {S : Type}.
#[local] Abbreviation rule_t := (abstractDefaultRule DNSAction S).

(** ** Default rules *)

(** The conditions on the query. *)
Definition dns_queryItems (o : RawDefaultDNSRule) (rule : rule_t) : result rule_t :=
  let rule := addIf (nonempty (elems (d_Inbound o))) addItem (NewInboundRule (elems (d_Inbound o))) rule in
  rule ← (if (0 <? d_IPVersion o)%Z then
            if (d_IPVersion o =? 4)%Z || (d_IPVersion o =? 6)%Z
            then Ok (addItem rule (NewIPVersionItem (d_IPVersion o =? 6)%Z))
            else Err (E_New ["invalid ip version: "; F_int (d_IPVersion o)])
          else Ok rule);
  let rule := addIf (nonempty (elems (d_QueryType o))) addItem (NewQueryTypeItem (elems (d_QueryType o))) rule in
  let rule := addIf (nonempty (elems (d_Network o))) addItem (NewNetworkItem (elems (d_Network o))) rule in
  let rule := addIf (nonempty (elems (d_AuthUser o))) addItem (NewAuthUserItem (elems (d_AuthUser o))) rule in
  Ok (addIf (nonempty (elems (d_Protocol o))) addItem (NewProtocolItem (elems (d_Protocol o))) rule).

(** Domains and addresses. *)
Definition dns_addressItems (o : RawDefaultDNSRule) (rule : rule_t) : result rule_t :=
  rule ← addIfOk (nonempty (elems (d_Domain o)) || nonempty (elems (d_DomainSuffix o))) id
           addDestinationAddress (NewDomainItem (elems (d_Domain o)) (elems (d_DomainSuffix o))) rule;
  let rule := addIf (nonempty (elems (d_DomainKeyword o))) addDestinationAddress
                (NewDomainKeywordItem (elems (d_DomainKeyword o))) rule in
  rule ← addIfOk (nonempty (elems (d_DomainRegex o))) (causedBy "domain_regex") addDestinationAddress
           (NewDomainRegexItem (elems (d_DomainRegex o))) rule;
  if nonempty (elems (d_Geosite o)) then
    Err (E_New ["geosite database is deprecated in sing-box 1.8.0 and removed in sing-box 1.12.0"])
  else if nonempty (elems (d_SourceGeoIP o)) then
    Err (E_New ["geoip database is deprecated in sing-box 1.8.0 and removed in sing-box 1.12.0"])
  else if nonempty (elems (d_GeoIP o)) then
    Err (E_New ["geoip database is deprecated in sing-box 1.8.0 and removed in sing-box 1.12.0"])
  else
    rule ← addIfOk (nonempty (elems (d_SourceIPCIDR o))) (causedBy "source_ip_cidr") addSourceAddress
             (NewIPCIDRItem true (elems (d_SourceIPCIDR o))) rule;
    rule ← addIfOk (nonempty (elems (d_IPCIDR o))) (causedBy "ip_cidr") addDestinationIPCIDR
             (NewIPCIDRItem false (elems (d_IPCIDR o))) rule;
    let rule := addIf (d_SourceIPIsPrivate o) addSourceAddress (NewIPIsPrivateItem true) rule in
    let rule := addIf (d_IPIsPrivate o) addDestinationIPCIDR (NewIPIsPrivateItem false) rule in
    Ok (addIf (d_IPAcceptAny o) addDestinationIPCIDR NewIPAcceptAnyItem rule).

(** The conditions on the response. *)
Definition dns_responseItems (o : RawDefaultDNSRule) (rule : rule_t) : rule_t :=
  let rule := match d_ResponseRcode o with
              | Some rcode => addItem rule (NewDNSResponseRCodeItem rcode)
              | None => rule
              end in
  let rule := addIf (nonempty (elems (d_ResponseAnswer o))) addItem
                (NewDNSResponseRecordItem "response_answer" (elems (d_ResponseAnswer o)) dnsResponseAnswers) rule in
  let rule := addIf (nonempty (elems (d_ResponseNs o))) addItem
                (NewDNSResponseRecordItem "response_ns" (elems (d_ResponseNs o)) dnsResponseNS) rule in
  addIf (nonempty (elems (d_ResponseExtra o))) addItem
    (NewDNSResponseRecordItem "response_extra" (elems (d_ResponseExtra o)) dnsResponseExtra) rule.

Definition dns_portItems (o : RawDefaultDNSRule) (rule : rule_t) : result rule_t :=
  let rule := addIf (nonempty (elems (d_SourcePort o))) addSourcePort
                (NewPortItem true (elems (d_SourcePort o))) rule in
  rule ← addIfOk (nonempty (elems (d_SourcePortRange o))) (causedBy "source_port_range")
           addSourcePort (NewPortRangeItem true (elems (d_SourcePortRange o))) rule;
  let rule := addIf (nonempty (elems (d_Port o))) addDestinationPort
                (NewPortItem false (elems (d_Port o))) rule in
  addIfOk (nonempty (elems (d_PortRange o))) (causedBy "port_range")
    addDestinationPort (NewPortRangeItem false (elems (d_PortRange o))) rule.

(** Processes, packages, users, outbounds and the Clash mode. *)
Definition dns_processItems (o : RawDefaultDNSRule) (rule : rule_t) : result rule_t :=
  let rule := addIf (nonempty (elems (d_ProcessName o))) addItem
                (NewProcessItem (elems (d_ProcessName o))) rule in
  let rule := addIf (nonempty (elems (d_ProcessPath o))) addItem
                (NewProcessPathItem (elems (d_ProcessPath o))) rule in
  rule ← addIfOk (nonempty (elems (d_ProcessPathRegex o))) (causedBy "process_path_regex")
           addItem (NewProcessPathRegexItem (elems (d_ProcessPathRegex o))) rule;
  let rule := addIf (nonempty (elems (d_PackageName o))) addItem
                (NewPackageNameItem (elems (d_PackageName o))) rule in
  rule ← addIfOk (nonempty (elems (d_PackageNameRegex o))) (causedBy "package_name_regex")
           addItem (NewPackageNameRegexItem (elems (d_PackageNameRegex o))) rule;
  let rule := addIf (nonempty (elems (d_User o))) addItem (NewUserItem (elems (d_User o))) rule in
  let rule := addIf (nonempty (elems (d_UserID o))) addItem (NewUserIDItem (elems (d_UserID o))) rule in
  let rule := addIf (nonempty (elems (d_Outbound o))) addItem (NewOutboundRule (elems (d_Outbound o))) rule in
  Ok (addIf (negb (bool_decide (d_ClashMode o = ""))) addItem (NewClashModeItem (d_ClashMode o)) rule).

(** The state of the network and the neighbours. *)
Definition dns_networkItems (o : RawDefaultDNSRule) (rule : rule_t) : rule_t :=
  let rule := addIf (nonempty (elems (d_NetworkType o))) addItem
                (NewNetworkTypeItem (elems (d_NetworkType o))) rule in
  let rule := addIf (d_NetworkIsExpensive o) addItem NewNetworkIsExpensiveItem rule in
  let rule := addIf (d_NetworkIsConstrained o) addItem NewNetworkIsConstrainedItem rule in
  let rule := addIf (nonempty (elems (d_WIFISSID o))) addItem
                (NewWIFISSIDItem (elems (d_WIFISSID o))) rule in
  let rule := addIf (nonempty (elems (d_WIFIBSSID o))) addItem
                (NewWIFIBSSIDItem (elems (d_WIFIBSSID o))) rule in
  let rule := addIf (nonempty (default [] (d_InterfaceAddress o))) addItem
                (NewInterfaceAddressItem (RuleBuild.interfaceEntries (d_InterfaceAddress o))) rule in
  let rule := addIf (nonempty (default [] (d_NetworkInterfaceAddress o))) addItem
                (NewNetworkInterfaceAddressItem (RuleBuild.interfaceEntries (d_NetworkInterfaceAddress o))) rule in
  let rule := addIf (nonempty (elems (d_DefaultInterfaceAddress o))) addItem
                (NewDefaultInterfaceAddressItem (elems (d_DefaultInterfaceAddress o))) rule in
  let rule := addIf (nonempty (elems (d_SourceMACAddress o))) addItem
                (NewSourceMACAddressItem (elems (d_SourceMACAddress o))) rule in
  let rule := addIf (nonempty (elems (d_SourceHostname o))) addItem
                (NewSourceHostnameItem (elems (d_SourceHostname o))) rule in
  addIf (nonempty (elems (d_PreferredBy o))) addItem (NewPreferredByDNSItem (elems (d_PreferredBy o))) rule.

(** The report of a deprecated option in the legacy mode is a log line. *)
Definition dns_ruleSetItem (o : RawDefaultDNSRule) (legacyDNSMode : bool) (rule : rule_t) : result rule_t :=
  if d_RuleSetIPCIDRAcceptEmpty o && negb legacyDNSMode
  then Err (E_New [MessageWithLink OptionRuleSetIPCIDRAcceptEmpty])
  else if nonempty (elems (d_RuleSet o)) then
    if d_Deprecated_RulesetIPCIDRMatchSource o then
      Err (E_New ["rule_set_ipcidr_match_source is deprecated in sing-box 1.10.0 and removed in sing-box 1.11.0"])
    else
      let item := mkRuleSetItem (elems (d_RuleSet o)) [] (d_RuleSetIPCIDRMatchSource o)
                    (d_RuleSetIPCIDRAcceptEmpty o) in
      Ok {| rule with ruleSetItem := Some item; allItems := allItems rule ++ [OfRuleSet item] |}
  else Ok rule.

Definition NewDefaultDNSRule (o : RawDefaultDNSRule) (a : DNSRuleAction) (legacyDNSMode : bool)
    : result (DNSRule DNSAction S) :=
  act ← NewDNSRuleAction a;
  rule ← dns_queryItems o (newRule (d_Invert o) act);
  rule ← dns_addressItems o rule;
  rule ← dns_portItems o (dns_responseItems o rule);
  rule ← dns_processItems o rule;
  rule ← dns_ruleSetItem o legacyDNSMode (dns_networkItems o rule);
  Ok (DefaultDNSRule rule (d_MatchResponse o)).

(** ** Rules *)

Definition missingServer (a : DNSRuleAction) (checkServer : bool) : bool :=
  (bool_decide (d_Action a = "") || bool_decide (d_Action a = RuleActionTypeRoute)
   || bool_decide (d_Action a = RuleActionTypeEvaluate))
  && bool_decide ((d_RouteOptions a).1 = "") && checkServer.

(** The checks of the action that both kinds of rule share. *)
Definition checkDNSAction (a : DNSRuleAction) (checkServer : bool) : result unit :=
  if negb checkServer && bool_decide (d_Action a = RuleActionTypeEvaluate)
  then Err (E_New [d_Action a; " is only allowed on top-level DNS rules"])
  else
    _ ← validateDNSRuleAction a;
    if missingServer a checkServer then Err (E_New ["missing server field"]) else Ok tt.

(** [NewLogicalDNSRule]; [newSub] builds a sub rule, which is checked for actions
    first. *)
Definition NewLogicalDNSRule (newSub : DNSRuleOptions -> result (DNSRule DNSAction S)) (mode : string)
    (rules : list DNSRuleOptions) (inverted : bool) (la : DNSRuleAction) : result (DNSRule DNSAction S) :=
  act ← NewDNSRuleAction la;
  if bool_decide (mode = LogicalTypeAnd) || bool_decide (mode = LogicalTypeOr) then
    rules ← build_all (fun sub => _ ← validateNoNestedDNSRuleActions sub true; newSub sub) 0 rules;
    Ok (LogicalDNSRule rules mode inverted act)
  else Err (E_New ["unknown logical mode: "; mode]).

Fixpoint NewDNSRule (legacyDNSMode : bool) (r : DNSRuleOptions) (checkServer : bool)
    : result (DNSRule DNSAction S) :=
  match r with
  | mkDNSRule type_ o a mode rules inverted la =>
      if bool_decide (type_ = "") || bool_decide (type_ = RuleTypeDefault) then
        if negb (defaultDNSRule_IsValid o a) then Err (E_New ["missing conditions"])
        else _ ← checkDNSAction a checkServer; NewDefaultDNSRule o a legacyDNSMode
      else if bool_decide (type_ = RuleTypeLogical) then
        valid ← dns_logical_IsValid rules;
        if negb valid then Err (E_New ["missing conditions"])
        else
          _ ← checkDNSAction la checkServer;
          NewLogicalDNSRule (fun sub => NewDNSRule legacyDNSMode sub false) mode rules inverted la
      else Err (E_New ["unknown rule type: "; type_])
  end.

End Build.

(** ** Starting and closing *)

Section Start.
Context `{E : Externals}.
Variable svc : Services.
#[local] Abbreviation table := RuleSetRefs.table.

(** The loop of [abstractDefaultRule.Start] over [allItems]: the items afterwards,
    the counters of the rule-sets, and the error. *)
Fixpoint startItems (l : list (AnyItem string)) (sets : table)
    : result (list (AnyItem string) * table * option error) :=
  match l with
  | [] => Ok ([], sets, None)
  | Plain item :: l =>
      match item_Start svc item with
      | (item, Some err) => Ok (Plain item :: l, sets, Some err)
      | (item, None) =>
          r ← startItems l sets;
          let '(l, sets, err) := r in Ok (Plain item :: l, sets, err)
      end
  | OfRuleSet item :: l =>
      r ← RuleSetRefs.item_Start (tagList item) (setList item) sets;
      let '(held, sets, err) := r in
      let item := {| item with setList := held |} in
      match err with
      | Some err => Ok (OfRuleSet item :: l, sets, Some err)
      | None =>
          r ← startItems l sets;
          let '(l, sets, err) := r in Ok (OfRuleSet item :: l, sets, err)
      end
  end.

Fixpoint closeItems (l : list (AnyItem string)) (sets : table) : result table :=
  match l with
  | [] => Ok sets
  | Plain _ :: l => closeItems l sets
  | OfRuleSet item :: l => sets ← RuleSetRefs.item_Close (setList item) sets; closeItems l sets
  end.

Definition ruleSetItemOf (l : list (AnyItem string)) : option (RuleSetItem string) :=
  head (omap (fun it => match it with OfRuleSet item => Some item | Plain _ => None end) l).

(** The groups share their items with [allItems]. *)
Definition startedItems (l : list RuleItem) : list RuleItem := (fun item => (item_Start svc item).1) <$> l.

Definition default_Start (r : abstractDefaultRule DNSAction string) (sets : table)
    : result (abstractDefaultRule DNSAction string * table * option error) :=
  x ← startItems (allItems r) sets;
  let '(l, sets, err) := x in
  Ok (mkDefault (startedItems (items r)) (startedItems (sourceAddressItems r)) (startedItems (sourcePortItems r))
        (startedItems (destinationAddressItems r)) (startedItems (destinationIPCIDRItems r))
        (startedItems (destinationPortItems r)) l (ruleSetItemOf l) (invert r) (action r), sets, err).

Definition startRules (start : DNSRule DNSAction string -> table
      -> result (DNSRule DNSAction string * table * option error))
    : list (DNSRule DNSAction string) -> table -> result (list (DNSRule DNSAction string) * table * option error) :=
  fix go rules sets :=
    match rules with
    | [] => Ok ([], sets, None)
    | rule :: rules =>
        x ← start rule sets;
        let '(rule, sets, err) := x in
        match err with
        | Some err => Ok (rule :: rules, sets, Some err)
        | None => x ← go rules sets; let '(rules, sets, err) := x in Ok (rule :: rules, sets, err)
        end
    end.

Fixpoint rule_Start (rule : DNSRule DNSAction string) (sets : table)
    : result (DNSRule DNSAction string * table * option error) :=
  match rule with
  | DefaultDNSRule r matchResponse =>
      x ← default_Start r sets;
      let '(r, sets, err) := x in Ok (DefaultDNSRule r matchResponse, sets, err)
  | LogicalDNSRule rules mode inverted act =>
      x ← startRules rule_Start rules sets;
      let '(rules, sets, err) := x in Ok (LogicalDNSRule rules mode inverted act, sets, err)
  end.

(** Closing a rule never fails; what is closed is dropped by the caller. *)
Definition closeRules (close : DNSRule DNSAction string -> table -> result table)
    : list (DNSRule DNSAction string) -> table -> result table :=
  fix go rules sets :=
    match rules with
    | [] => Ok sets
    | rule :: rules => sets ← close rule sets; go rules sets
    end.
Fixpoint rule_Close (rule : DNSRule DNSAction string) (sets : table) : result table :=
  match rule with
  | DefaultDNSRule r _ => closeItems (allItems r) sets
  | LogicalDNSRule rules _ _ _ => closeRules rule_Close rules sets
  end.

End Start.

End DnsBuild.
