(* ===== verification/DnsMode.v ===== *)
(** * The mode of the DNS rules (src/dns/router.go)

    DNS rules run in the legacy mode, where a rule can accept or refuse the
    addresses of a response, or in the new mode, where rules evaluate a server and
    match its response.  [resolveLegacyDNSMode] chooses the mode from the options
    of the rules and the metadata of their rule-sets; the validations refuse
    options the mode cannot honour. *)

From S2P Require Import Prelude GoStd Metadata HeadlessOptions HeadlessBuild Rules RuleActions RuleSet.
From S2P Require Import DnsMessage DnsActions DnsBuild Managers TransportManager.
Import Rules RuleSet DnsMessage RuleActions DnsActions DnsBuild Managers.

Open Scope N_scope.

Module DnsMode.

(** ** One rule *)

Definition defaultRuleNeedsLegacyDNSModeFromAddressFilter (o : RawDefaultDNSRule) : bool :=
  if d_RuleSetIPCIDRAcceptEmpty o then true
  else negb (d_MatchResponse o) && (d_IPAcceptAny o || nonempty (elems (d_IPCIDR o)) || d_IPIsPrivate o).

Definition hasResponseMatchFields (o : RawDefaultDNSRule) : bool :=
  negb (isNil (d_ResponseRcode o)) || nonempty (elems (d_ResponseAnswer o))
  || nonempty (elems (d_ResponseNs o)) || nonempty (elems (d_ResponseExtra o)).

Definition defaultRuleDisablesLegacyDNSMode (o : RawDefaultDNSRule) (a : DNSRuleAction) : bool :=
  d_MatchResponse o || hasResponseMatchFields o
  || bool_decide (d_Action a = RuleActionTypeEvaluate) || bool_decide (d_Action a = RuleActionTypeRespond)
  || (0 <? d_IPVersion o)%Z || nonempty (elems (d_QueryType o)).

(** The options of a route, of an evaluation or of route options. *)
Definition actionOptions (a : DNSRuleAction) : option DNSRouteOptionsActionOptions :=
  if bool_decide (d_Action a = "") || bool_decide (d_Action a = RuleActionTypeRoute)
     || bool_decide (d_Action a = RuleActionTypeEvaluate)
  then Some (d_RouteOptions a).2
  else if bool_decide (d_Action a = RuleActionTypeRouteOptions) then Some (d_RouteOptionsOptions a)
  else None.
Definition dnsRuleActionDisablesLegacyDNSMode (a : DNSRuleAction) : bool :=
  match actionOptions a with Some o => ao_DisableOptimisticCache o | None => false end.
Definition dnsRuleActionHasStrategy (a : DNSRuleAction) : bool :=
  match actionOptions a with Some o => negb (ao_Strategy o =? DomainStrategyAsIS) | None => false end.

Definition actionTypeOf (a : DNSRuleAction) : string :=
  if bool_decide (d_Action a = "") then RuleActionTypeRoute else d_Action a.
Definition dnsRuleActionType (r : DNSRuleOptions) : string :=
  match r with
  | mkDNSRule type_ _ a _ _ _ la =>
      if bool_decide (type_ = "") || bool_decide (type_ = RuleTypeDefault) then actionTypeOf a
      else if bool_decide (type_ = RuleTypeLogical) then actionTypeOf la
      else ""
  end.
Definition dnsRuleActionServer (r : DNSRuleOptions) : string :=
  match r with
  | mkDNSRule type_ _ a _ _ _ la =>
      if bool_decide (type_ = "") || bool_decide (type_ = RuleTypeDefault) then (d_RouteOptions a).1
      else if bool_decide (type_ = RuleTypeLogical) then (d_RouteOptions la).1
      else ""
  end.

(** ** The mode *)

Record dnsRuleModeFlags : Type := mkFlags { disabled : bool; needed : bool; neededFromStrategy : bool }.

Definition flags_merge (f other : dnsRuleModeFlags) : dnsRuleModeFlags :=
  mkFlags (disabled f || disabled other) (needed f || needed other)
    (neededFromStrategy f || neededFromStrategy other).

Section Mode.
Context `{E : Externals}.

(** [adapter.Router]: the metadata of its rule-sets, when the service exists. *)
Variable router : option (string -> option RuleSetMetadata).
Variable metadataOverrides : gmap string RuleSetMetadata.

Definition lookupDNSRuleSetMetadata (tag : string) : result RuleSetMetadata :=
  match metadataOverrides !! tag with
  | Some metadata => Ok metadata
  | None =>
      match router with
      | None => Panic "invalid memory address or nil pointer dereference"
      | Some ruleSet =>
          match ruleSet tag with
          | Some metadata => Ok metadata
          | None => Err (E_New ["rule-set not found: "; tag])
          end
      end
  end.

Fixpoint ruleSetRequirements (matchSource : bool) (tags : list string) (flags : dnsRuleModeFlags)
    : result dnsRuleModeFlags :=
  match tags with
  | [] => Ok flags
  | tag :: tags =>
      metadata ← lookupDNSRuleSetMetadata tag;
      ruleSetRequirements matchSource tags
        (mkFlags (disabled flags || ContainsDNSQueryTypeRule metadata)
           (needed flags || (negb matchSource && ContainsIPCIDRRule metadata)) (neededFromStrategy flags))
  end.

Definition dnsRuleModeRequirementsInDefaultRule (o : RawDefaultDNSRule) (a : DNSRuleAction)
    : result dnsRuleModeFlags :=
  let strategy := dnsRuleActionHasStrategy a in
  let flags := mkFlags (defaultRuleDisablesLegacyDNSMode o a || dnsRuleActionDisablesLegacyDNSMode a)
                 (defaultRuleNeedsLegacyDNSModeFromAddressFilter o || strategy) strategy in
  if negb (nonempty (elems (d_RuleSet o))) then Ok flags
  else if isNil router then Err (E_New ["router service not found"])
  else ruleSetRequirements (d_RuleSetIPCIDRMatchSource o) (elems (d_RuleSet o)) flags.

(** A loop over rules that merges their flags; [cause] is the text of an error. *)
Definition mergeRules (of_rule : DNSRuleOptions -> result dnsRuleModeFlags) (cause : nat -> list string)
    : nat -> list DNSRuleOptions -> dnsRuleModeFlags -> result dnsRuleModeFlags :=
  fix go i rules flags :=
    match rules with
    | [] => Ok flags
    | rule :: rules =>
        ruleFlags ← map_err (fun e => E_Cause e (cause i)) (of_rule rule);
        go (S i) rules (flags_merge flags ruleFlags)
    end.

Fixpoint dnsRuleModeRequirementsInRule (r : DNSRuleOptions) : result dnsRuleModeFlags :=
  match r with
  | mkDNSRule type_ o a _ rules _ la =>
      if bool_decide (type_ = "") || bool_decide (type_ = RuleTypeDefault)
      then dnsRuleModeRequirementsInDefaultRule o a
      else if bool_decide (type_ = RuleTypeLogical) then
        let strategy := dnsRuleActionHasStrategy la in
        let flags :=
          mkFlags (bool_decide (dnsRuleActionType r = RuleActionTypeEvaluate)
                   || bool_decide (dnsRuleActionType r = RuleActionTypeRespond)
                   || dnsRuleActionDisablesLegacyDNSMode la) strategy strategy in
        mergeRules dnsRuleModeRequirementsInRule (fun i => ["sub rule["; pretty i; "]"]) 0 rules flags
      else Ok (mkFlags false false false)
  end.

Definition dnsRuleModeRequirements (rules : list DNSRuleOptions) : result dnsRuleModeFlags :=
  mergeRules dnsRuleModeRequirementsInRule (fun i => ["dns rule["; pretty i; "]"]) 0 rules
    (mkFlags false false false).

Definition resolveLegacyDNSMode (rules : list DNSRuleOptions) : result (bool * dnsRuleModeFlags) :=
  flags ← dnsRuleModeRequirements rules;
  if disabled flags && neededFromStrategy flags
  then Err (E_New [MessageWithLink OptionLegacyDNSRuleStrategy])
  else Ok (if disabled flags then (false, flags) else (needed flags, flags)).

(** ** Validations *)

(** A rule-set that only has addresses cannot match before a response. *)
Fixpoint validateRuleSets (tags : list string) : result unit :=
  match tags with
  | [] => Ok tt
  | tag :: tags =>
      metadata ← lookupDNSRuleSetMetadata tag;
      if ContainsIPCIDRRule metadata && negb (ContainsNonIPCIDRRule metadata)
      then Err (E_New [MessageWithLink OptionLegacyDNSAddressFilter])
      else validateRuleSets tags
  end.

Definition validateLegacyDNSModeDisabledDefaultRule (o : RawDefaultDNSRule) (a : DNSRuleAction) : result bool :=
  if (hasResponseMatchFields o || nonempty (elems (d_IPCIDR o)) || d_IPIsPrivate o || d_IPAcceptAny o)
     && negb (d_MatchResponse o)
  then Err (E_New ["Response Match Fields (ip_cidr, ip_is_private, ip_accept_any, response_rcode, response_answer, response_ns, response_extra) require match_response to be enabled"])
  else
    _ ← (if negb (d_MatchResponse o) && nonempty (elems (d_RuleSet o))
         then validateRuleSets (elems (d_RuleSet o)) else Ok tt);
    if d_RuleSetIPCIDRAcceptEmpty o then Err (E_New [MessageWithLink OptionRuleSetIPCIDRAcceptEmpty])
    else Ok (d_MatchResponse o || bool_decide (d_Action a = RuleActionTypeRespond)).

Definition validateSubRules (validate : DNSRuleOptions -> result bool)
    : nat -> list DNSRuleOptions -> bool -> result bool :=
  fix go i rules requiresPriorEvaluate :=
    match rules with
    | [] => Ok requiresPriorEvaluate
    | rule :: rules =>
        sub ← map_err (fun e => E_Cause e ["sub rule["; pretty i; "]"]) (validate rule);
        go (S i) rules (requiresPriorEvaluate || sub)
    end.

(** Whether the rule needs a response evaluated before it. *)
Fixpoint validateLegacyDNSModeDisabledRuleTree (r : DNSRuleOptions) : result bool :=
  match r with
  | mkDNSRule type_ o a _ rules _ la =>
      if bool_decide (type_ = "") || bool_decide (type_ = RuleTypeDefault)
      then validateLegacyDNSModeDisabledDefaultRule o a
      else if bool_decide (type_ = RuleTypeLogical)
      then validateSubRules validateLegacyDNSModeDisabledRuleTree 0 rules
             (bool_decide (dnsRuleActionType r = RuleActionTypeRespond))
      else Ok false
  end.

Fixpoint validateLoop (i : nat) (rules : list DNSRuleOptions) (seenEvaluate : bool) : result unit :=
  match rules with
  | [] => Ok tt
  | rule :: rules =>
      requiresPriorEvaluate ← map_err (fun e => E_Cause e ["validate dns rule["; pretty i; "]"])
                                (validateLegacyDNSModeDisabledRuleTree rule);
      if requiresPriorEvaluate && negb seenEvaluate
      then Err (E_New ["dns rule["; pretty i; "]: response-based matching requires a preceding evaluate action"])
      else validateLoop (S i) rules
             (if bool_decide (dnsRuleActionType rule = RuleActionTypeEvaluate) then true else seenEvaluate)
  end.
Definition validateLegacyDNSModeDisabledRules (rules : list DNSRuleOptions) : result unit :=
  validateLoop 0 rules false.

(** [transport] is [DNSTransportManager.Transport], when the service exists. *)
Definition evaluatesFakeIP (transport : string -> option Item) (rule : DNSRuleOptions) : bool :=
  bool_decide (dnsRuleActionType rule = RuleActionTypeEvaluate)
  && negb (bool_decide (dnsRuleActionServer rule = ""))
  && match transport (dnsRuleActionServer rule) with
     | Some it => bool_decide (it_Type it = TransportManager.DNSTypeFakeIP)
     | None => false
     end.
Fixpoint validateEvaluateLoop (transport : string -> option Item) (i : nat) (rules : list DNSRuleOptions)
    : result unit :=
  match rules with
  | [] => Ok tt
  | rule :: rules =>
      if evaluatesFakeIP transport rule
      then Err (E_New ["dns rule["; pretty i; "]: evaluate action cannot use fakeip server: "; dnsRuleActionServer rule])
      else validateEvaluateLoop transport (S i) rules
  end.
Definition validateEvaluateFakeIPRules (rules : list DNSRuleOptions) (transport : option (string -> option Item))
    : result unit :=
  match transport with
  | None => Ok tt
  | Some transport => validateEvaluateLoop transport 0 rules
  end.

End Mode.

End DnsMode.
