(* ===== verification/DnsBuildFacts.v ===== *)
(** * What the construction of DNS rules guarantees

    [NewDNSRule] follows the action and the fields of its options: which groups can
    read a response, and that a new rule holds no rule-set. *)

From S2P Require Import Prelude GoStd Metadata RuleItems Rules HeadlessOptions HeadlessBuild RuleActions.
From S2P Require Import RuleBuild RuleBuildTheorems DnsRules DnsActions DnsBuild DnsMode.
From stdpp Require Import list.
Import RuleItems Rules RuleActions DnsRules DnsActions DnsBuild DnsMode.

Open Scope N_scope.

(** A property of the default rules of a tree. *)
Fixpoint allDefaults `{E : Externals} {A S} (P : abstractDefaultRule A S -> bool -> Prop) (rule : DNSRule A S) : Prop :=
  match rule with
  | DefaultDNSRule r matchResponse => P r matchResponse
  | LogicalDNSRule rules _ _ _ => foldr (fun rule Q => allDefaults P rule /\ Q) True rules
  end.

Section Facts.
Context `{E : Externals} {S : Type}.
#[local] Abbreviation rule_t := (abstractDefaultRule DNSAction S).

Lemma addIf_pres {A} (P : abstractDefaultRule A S -> Prop) b add it r :
  P r -> (b = true -> P r -> P (add r it)) -> P (addIf b add it r).
Proof. unfold addIf. destruct b; auto. Qed.

Lemma addIfOk_pres {A} (P : abstractDefaultRule A S -> Prop) b wrap add it r r' :
  addIfOk b wrap add it r = Ok r' -> P r ->
  (forall x, b = true -> it = Ok x -> P r -> P (add r x)) -> P r'.
Proof.
  unfold addIfOk. destruct b; [|by intros [= <-]].
  intros H Hr Hadd. apply bind_Ok_inv in H as (x & Hx%map_err_Ok_inv & [= <-]). auto.
Qed.

(** The rule-set item of a rule. *)
Definition setItem (it : AnyItem S) : option (RuleSetItem S) :=
  match it with OfRuleSet item => Some item | Plain _ => None end.

(** No address of a response is a condition. *)
Definition noAddressFields (o : RawDefaultDNSRule) : bool :=
  negb (nonempty (elems (d_IPCIDR o))) && negb (d_IPIsPrivate o) && negb (d_IPAcceptAny o).

Record built (o : RawDefaultDNSRule) (act : option DNSAction) (r : rule_t) : Prop := {
  built_action : action r = act;
  built_items : hasResponseMatchFields o = false -> Forall (fun it => readsResponse it = false) (items r);
  built_addresses : noAddressFields o = true -> destinationIPCIDRItems r = [];
  built_item : ruleSetItem r = None;
  built_sets : omap setItem (allItems r) = [];
}.

(** A rule built from the options [o], with its rule-set item. *)
Record finished (o : RawDefaultDNSRule) (act : option DNSAction) (r : rule_t) : Prop := {
  fin_action : action r = act;
  fin_items : hasResponseMatchFields o = false -> Forall (fun it => readsResponse it = false) (items r);
  fin_addresses : noAddressFields o = true -> destinationIPCIDRItems r = [];
  fin_item : ruleSetItem r = head (omap setItem (allItems r));
  fin_sets : omap setItem (allItems r) =
    if nonempty (elems (d_RuleSet o))
    then [mkRuleSetItem (elems (d_RuleSet o)) [] (d_RuleSetIPCIDRMatchSource o) (d_RuleSetIPCIDRAcceptEmpty o)] else [];
}.

Variables (o : RawDefaultDNSRule) (act : option DNSAction).
#[local] Abbreviation ok := (built o act).

Lemma built_plain (l : list (AnyItem S)) it : omap setItem (l ++ [Plain it]) = omap setItem l.
Proof. by rewrite omap_app, app_nil_r. Qed.

Lemma built_newRule inverted : ok (newRule inverted act).
Proof. by split. Qed.

Lemma built_addItem r it : ok r -> (hasResponseMatchFields o = false -> readsResponse it = false) -> ok (addItem r it).
Proof.
  intros [] Hit. split; simpl; rewrite ?built_plain; auto. intros Ho.
  apply Forall_app. split; [auto|]. repeat constructor; auto.
Qed.
Lemma built_addDestinationIPCIDR r it : ok r -> noAddressFields o = false -> ok (addDestinationIPCIDR r it).
Proof. intros [] Hit. split; simpl; rewrite ?built_plain; auto. congruence. Qed.
Lemma built_addSourceAddress r it : ok r -> ok (addSourceAddress r it).
Proof. intros []. split; simpl; rewrite ?built_plain; auto. Qed.
Lemma built_addDestinationAddress r it : ok r -> ok (addDestinationAddress r it).
Proof. intros []. split; simpl; rewrite ?built_plain; auto. Qed.
Lemma built_addSourcePort r it : ok r -> ok (addSourcePort r it).
Proof. intros []. split; simpl; rewrite ?built_plain; auto. Qed.
Lemma built_addDestinationPort r it : ok r -> ok (addDestinationPort r it).
Proof. intros []. split; simpl; rewrite ?built_plain; auto. Qed.

Lemma built_finished legacyDNSMode r r' : dns_ruleSetItem o legacyDNSMode r = Ok r' -> ok r -> finished o act r'.
Proof.
  unfold dns_ruleSetItem. intros H []. destruct (_ && _); [done|]. destruct (nonempty (elems (d_RuleSet o))) eqn:Hn.
  - destruct (d_Deprecated_RulesetIPCIDRMatchSource o); [done|]. apply Ok_inj in H as <-.
    split; simpl; auto; rewrite omap_app, built_sets0; [done|]. by rewrite Hn.
  - apply Ok_inj in H as <-. split; auto; rewrite built_sets0; [done|]. by rewrite Hn.
Qed.

End Facts.

(** Walks over a stage of the construction. *)
Ltac build_step :=
  match goal with
  | H : _ ≫= _ = Ok _ |- _ => let r := fresh "r" in let Hr := fresh "Hr" in apply bind_Ok_inv in H as (r & Hr & H)
  | H : Ok _ = Ok _ |- _ => apply Ok_inj in H; subst
  | H : (if ?b then _ else _) = Ok _ |- _ => destruct b; try discriminate H
  | |- built _ _ (addIf _ _ _ _) => apply addIf_pres; [|intros ? ?]
  | H : addIfOk _ _ _ _ _ = Ok ?r |- built _ _ ?r => eapply addIfOk_pres; [exact H|clear H|intros ? ? ? ?]
  | |- built _ _ (addItem _ _) => apply built_addItem; [|intros ?]
  | |- built _ _ (addSourceAddress _ _) => apply built_addSourceAddress
  | |- built _ _ (addDestinationAddress _ _) => apply built_addDestinationAddress
  | |- built _ _ (addSourcePort _ _) => apply built_addSourcePort
  | |- built _ _ (addDestinationPort _ _) => apply built_addDestinationPort
  | |- built _ _ (addDestinationIPCIDR _ _) => apply built_addDestinationIPCIDR
  | |- readsResponse _ = false => reflexivity
  | _ => assumption
  end.

Section Stages.
Context `{E : Externals} {S : Type}.
#[local] Abbreviation rule_t := (abstractDefaultRule DNSAction S).
Variables (o : RawDefaultDNSRule) (act : option DNSAction).
#[local] Abbreviation ok := (built (S := S) o act).

Lemma built_queryItems r r' : dns_queryItems o r = Ok r' -> ok r -> ok r'.
Proof. unfold dns_queryItems. intros H Hr. repeat build_step. Qed.

Lemma built_addressItems r r' : dns_addressItems o r = Ok r' -> ok r -> ok r'.
Proof.
  unfold dns_addressItems. intros H Hr.
  assert (noAddressFields o = false \/ (nonempty (elems (d_IPCIDR o)) = false /\ d_IPIsPrivate o = false /\ d_IPAcceptAny o = false))
    as Hf.
  { unfold noAddressFields. clear. destruct (nonempty (elems (d_IPCIDR o))), (d_IPIsPrivate o), (d_IPAcceptAny o); simpl; auto. }
  repeat build_step; destruct Hf as [|(? & ? & ?)]; congruence.
Qed.

Lemma built_responseItems r : ok r -> ok (dns_responseItems o r).
Proof.
  unfold dns_responseItems. intros Hr. cbv zeta.
  assert (hasResponseMatchFields o = true \/ (d_ResponseRcode o = None /\ nonempty (elems (d_ResponseAnswer o)) = false
    /\ nonempty (elems (d_ResponseNs o)) = false /\ nonempty (elems (d_ResponseExtra o)) = false)) as Hf.
  { unfold hasResponseMatchFields. destruct (d_ResponseRcode o), (nonempty (elems (d_ResponseAnswer o))),
      (nonempty (elems (d_ResponseNs o))), (nonempty (elems (d_ResponseExtra o))); simpl; auto. }
  assert (ok match d_ResponseRcode o with
             | Some rcode => addItem r (NewDNSResponseRCodeItem rcode) | None => r end) as Hc.
  { destruct (d_ResponseRcode o); repeat build_step. destruct Hf as [|(? & ? & ? & ?)]; congruence. }
  repeat build_step; destruct Hf as [|(? & ? & ? & ?)]; congruence.
Qed.

Lemma built_portItems r r' : dns_portItems o r = Ok r' -> ok r -> ok r'.
Proof. unfold dns_portItems. intros H Hr. repeat build_step. Qed.

Lemma built_processItems r r' : dns_processItems o r = Ok r' -> ok r -> ok r'.
Proof.
  unfold dns_processItems. intros H Hr. unfold NewProcessPathRegexItem, NewPackageNameRegexItem in H.
  repeat build_step; by inv_ok; subst.
Qed.

Lemma built_networkItems r : ok r -> ok (dns_networkItems o r).
Proof. unfold dns_networkItems. intros Hr. cbv zeta. repeat build_step. Qed.

Lemma NewDefaultDNSRule_finished a legacyDNSMode rule :
  NewDefaultDNSRule (S := S) o a legacyDNSMode = Ok rule -> NewDNSRuleAction a = Ok act ->
  exists r, rule = DefaultDNSRule r (d_MatchResponse o) /\ finished o act r.
Proof.
  unfold NewDefaultDNSRule. intros H Ha. rewrite Ha in H. cbn in H. inv_ok. exists x3. split; [done|].
  eapply built_finished; [done|]. apply built_networkItems. eapply built_processItems; [done|].
  eapply built_portItems; [done|]. apply built_responseItems. eapply built_addressItems; [done|].
  eapply built_queryItems; [done|]. apply built_newRule.
Qed.
End Stages.

(** ** Actions *)

(** The actions by their names. *)
Inductive actionCase (a : DNSRuleAction) : option DNSAction -> Prop :=
| case_none : d_Action a = "" -> actionCase a None
| case_route : d_Action a = RuleActionTypeRoute ->
    actionCase a (Some (ActionDNSRoute (d_RouteOptions a).1 (newDNSRouteOptions (d_RouteOptions a).2)))
| case_evaluate : d_Action a = RuleActionTypeEvaluate ->
    actionCase a (Some (ActionEvaluate (d_RouteOptions a).1 (newDNSRouteOptions (d_RouteOptions a).2)))
| case_respond : d_Action a = RuleActionTypeRespond -> actionCase a (Some ActionRespond)
| case_options : d_Action a = RuleActionTypeRouteOptions ->
    actionCase a (Some (ActionDNSRouteOptions (newDNSRouteOptions (d_RouteOptionsOptions a))))
| case_reject r : d_Action a = RuleActionTypeReject -> actionCase a (Some (ActionDNSReject r))
| case_predefined p : d_Action a = RuleActionTypePredefined -> actionCase a (Some (ActionPredefined p)).

Lemma NewDNSRuleAction_case a act : NewDNSRuleAction a = Ok act -> actionCase a act.
Proof.
  unfold NewDNSRuleAction. repeat (case_bool_decide; [by intros [= <-]; constructor|]). done.
Qed.

(** ** Rules *)

(** The action of a rule by its type. *)
Definition ruleAction (r : DNSRuleOptions) : DNSRuleAction :=
  match r with
  | mkDNSRule type_ _ a _ _ _ la =>
      if bool_decide (type_ = "") || bool_decide (type_ = RuleTypeDefault) then a else la
  end.

Section Rules.
Context `{E : Externals} {S : Type}.

(** A rule built from its options. *)
Inductive builtFrom : DNSRuleOptions -> DNSRule DNSAction S -> Prop :=
| from_default type_ o a mode subs inverted la act r :
    bool_decide (type_ = "") || bool_decide (type_ = RuleTypeDefault) = true ->
    NewDNSRuleAction a = Ok act -> finished o act r ->
    builtFrom (mkDNSRule type_ o a mode subs inverted la) (DefaultDNSRule r (d_MatchResponse o))
| from_logical o a mode subs inverted la act rules :
    NewDNSRuleAction la = Ok act -> Forall2 builtFrom subs rules ->
    builtFrom (mkDNSRule RuleTypeLogical o a mode subs inverted la) (LogicalDNSRule rules mode inverted act).

Lemma NewDNSRule_from legacyDNSMode r checkServer rule :
  NewDNSRule legacyDNSMode r checkServer = Ok rule ->
  builtFrom r rule /\ checkDNSAction (ruleAction r) checkServer = Ok tt.
Proof.
  revert checkServer rule. induction r as [type_ o a mode rules IH inverted la]; intros checkServer rule.
  apply list_all_Forall in IH. cbn [NewDNSRule ruleAction].
  destruct (bool_decide (type_ = "") || bool_decide (type_ = RuleTypeDefault)) eqn:Ht.
  - case_bool; [done|]. intros H. apply bind_Ok_inv in H as ([] & Hc & H). split; [|done].
    assert (exists act, NewDNSRuleAction a = Ok act) as [act Ha].
    { unfold NewDefaultDNSRule in H. apply bind_Ok_inv in H as (act & Ha & _). eauto. }
    destruct (NewDefaultDNSRule_finished o act a legacyDNSMode rule H Ha) as (r & -> & Hr).
    econstructor; eauto.
  - destruct (bool_decide (type_ = RuleTypeLogical)) eqn:Hl; [|done]. apply bool_decide_eq_true in Hl as ->.
    intros H. apply bind_Ok_inv in H as (valid & _ & H). destruct (negb valid); [done|]. apply bind_Ok_inv in H as ([] & Hc & H). split; [|done].
    unfold NewLogicalDNSRule in H. apply bind_Ok_inv in H as (act & Ha & H). destruct (bool_decide (mode = LogicalTypeAnd) || _); [|done].
    apply bind_Ok_inv in H as (out & Ho & [= <-]). constructor; [done|].
    eapply (build_all_Forall _ builtFrom); [|exact Ho]. eapply Forall_impl; [exact IH|].
    intros x Hx y H. cbv beta in H. apply bind_Ok_inv in H as ([] & _ & H). by destruct (Hx false y H).
Qed.

Lemma builtFrom_action r rule : builtFrom r rule -> NewDNSRuleAction (ruleAction r) = Ok (dns_Action rule).
Proof.
  destruct 1 as [type_ o a mode subs inverted la act r Ht Ha Hf|]; cbn [ruleAction dns_Action].
  - rewrite Ht, Ha. by rewrite (fin_action _ _ _ Hf).
  - done.
Qed.
End Rules.
