(* ===== verification/DnsRouter.v ===== *)
(** * The DNS router (src/dns/router.go)

    The router matches the rules of a query and asks the DNS client for the
    answers.  Its methods are programs over the interfaces it calls: [Ask] is one
    call of the client, of the rejecting action of a rule, of the reverse mapping,
    of a server or of the platform, and the rest of the program depends on the
    answer.  The programs are finite trees, so every run ends; [exec] runs one with
    a handler for the calls, and [par] runs two in an arbitrary interleaving of
    their calls. *)

From S2P Require Import Prelude GoStd Metadata MatchState RuleItems Rules HeadlessOptions HeadlessBuild.
From S2P Require Import RuleActions RuleSet RuleSetRefs DnsRules DnsMessage DnsActions DnsBuild DnsMode.
From S2P Require Import Managers TransportManager DnsClient.
Import netip MatchState RuleItems Rules RuleSet RuleActions DnsRules DnsMessage DnsActions DnsBuild DnsMode Managers DnsClient.

Open Scope N_scope.

Module DnsRouter.

(** ** Programs *)

Inductive request : Type :=
| ReqExchange (transport : option Item) (message : Msg) (options : DNSQueryOptions) (check : option (Msg -> bool))
| ReqLookup (transport : option Item) (domain : string) (options : DNSQueryOptions) (check : option (Msg -> bool))
(** [RuleActionReject.Error] of a rule, by its index. *)
| ReqReject (index : nat) (action : RuleActionReject)
(** The reverse mapping: [AddWithLifetime], [Get] and [Purge]. *)
| ReqRemember (address : Addr) (domain : string) (lifetime : Z)
| ReqReverse (address : Addr)
| ReqPurge
| ReqClearCache
| ReqPlatformClear
| ReqReset (transport : Item).

Definition answer (q : request) : Type :=
  match q with
  | ReqExchange _ _ _ _ => result Msg
  | ReqLookup _ _ _ _ => result (list Addr)
  | ReqReject _ _ => result (option error)
  | ReqReverse _ => option string
  | _ => unit
  end.

Inductive prog (A : Type) : Type :=
| Ret (a : A)
| Ask (q : request) (k : answer q -> prog A).
Arguments Ret {A} _.
Arguments Ask {A} _ _.

Fixpoint pbind {A B} (p : prog A) (f : A -> prog B) : prog B :=
  match p with
  | Ret a => f a
  | Ask q k => Ask q (fun x => pbind (k x) f)
  end.
Definition pmap {A B} (f : A -> B) (p : prog A) : prog B := pbind p (fun a => Ret (f a)).

(** Two programs whose calls are interleaved as [sched] tells: [true] takes the next
    call of the first. *)
Fixpoint par {A B} (p : prog A) : prog B -> list bool -> prog (A * B) :=
  match p with
  | Ret a => fun q _ => pmap (fun b => (a, b)) q
  | Ask r k =>
      fix go q sched :=
        match q with
        | Ret b => Ask r (fun x => pmap (fun a => (a, b)) (k x))
        | Ask r' k' =>
            match sched with
            | false :: sched => Ask r' (fun x => go (k' x) sched)
            | true :: sched => Ask r (fun x => par (k x) q sched)
            | [] => Ask r (fun x => par (k x) q [])
            end
        end
  end.

Fixpoint exec {A St} (h : forall q, St -> answer q * St) (p : prog A) (s : St) : A * St :=
  match p with
  | Ret a => (a, s)
  | Ask q k => let '(x, s) := h q s in exec h (k x) s
  end.

(** ** The router *)

Record Router `{E : Externals} : Type := mkRouter {
  rawRules : list DNSRuleOptions;
  rules : list (DNSRule DNSAction string);
  defaultDomainStrategy : N;
  dnsReverseMapping : bool;
  platformInterface : bool;
  legacyDNSMode : bool;
  started : bool;
  closing : bool;
}.

Arguments Router {E}.
Arguments mkRouter {E} _ _ _ _ _ _ _ _.

(** [option.DNSOptions], as far as [NewRouter] reads them. *)
Record DNSOptions : Type := mkDNSOptions {
  do_Strategy : N;
  do_ReverseMapping : bool;
  do_Timeout : Z;
  do_DisableCache : bool;
  do_DisableExpire : bool;
  do_Optimistic : option (bool * Z);
  do_ClientSubnet : option Prefix;
}.

(** [3 * 24 * time.Hour] *)
Definition defaultOptimisticTimeout : Z := 3 * 24 * 3600 * second.

Definition optimisticTimeoutOf (options : DNSOptions) : result Z :=
  let '(enabled, timeout) := default (false, 0%Z) (do_Optimistic options) in
  if enabled then
    if do_DisableCache options then Err (E_New ["`optimistic` is conflict with `disable_cache`"])
    else if do_DisableExpire options then Err (E_New ["`optimistic` is conflict with `disable_expire`"])
    else Ok (if (timeout =? 0)%Z then defaultOptimisticTimeout else timeout)
  else Ok 0%Z.

Definition NewRouter `{E : Externals} {L R D} `{FreeLRU L} (options : DNSOptions) : result (Router * Client (L := L) (R := R) (D := D)) :=
  optimisticTimeout ← optimisticTimeoutOf options;
  let client := NewClient (do_Timeout options) (do_DisableCache options) (do_DisableExpire options)
                  optimisticTimeout (default PrefixZero (do_ClientSubnet options)) true in
  Ok (mkRouter [] [] (do_Strategy options) (do_ReverseMapping options) false false false false, client).

(** ** Rules *)

Section Rules.
Context `{E : Externals}.
Variable svc : Services.
Variable transport : option (string -> option Item).
Variable router : option (string -> option RuleSetMetadata).
#[local] Abbreviation table := RuleSetRefs.table.
#[local] Abbreviation rule_t := (DNSRule DNSAction string).

Fixpoint validateNested (i : nat) (l : list DNSRuleOptions) : result unit :=
  match l with
  | [] => Ok tt
  | r :: l =>
      _ ← map_err (fun e => E_Cause e ["parse dns rule["; pretty i; "]"]) (ValidateNoNestedDNSRuleActions r);
      validateNested (S i) l
  end.

(** New rules hold no rule-set, so closing those built before an error does
    nothing. *)
Fixpoint newRules (legacyDNSMode : bool) (i : nat) (l : list DNSRuleOptions) : result (list rule_t) :=
  match l with
  | [] => Ok []
  | r :: l =>
      rule ← map_err (fun e => E_Cause e ["parse dns rule["; pretty i; "]"]) (NewDNSRule legacyDNSMode r true);
      rules ← newRules legacyDNSMode (S i) l;
      Ok (rule :: rules)
  end.

Definition checkRules (l : list DNSRuleOptions) : result (list rule_t * bool * dnsRuleModeFlags) :=
  _ ← validateNested 0 l;
  mode ← resolveLegacyDNSMode router ∅ l;
  let '(legacyDNSMode, modeFlags) := mode in
  _ ← (if negb legacyDNSMode then validateLegacyDNSModeDisabledRules router ∅ l else Ok tt);
  _ ← validateEvaluateFakeIPRules l transport;
  rules ← newRules legacyDNSMode 0 l;
  Ok (rules, legacyDNSMode, modeFlags).

(** The start of the rules; on an error all of them are closed. *)
Fixpoint startAll (i : nat) (l : list rule_t) (sets : table) : result (list rule_t * table * option error) :=
  match l with
  | [] => Ok ([], sets, None)
  | rule :: l =>
      x ← rule_Start svc rule sets;
      let '(rule, sets, err) := x in
      match err with
      | Some err => Ok (rule :: l, sets, Some (E_Cause err ["initialize DNS rule["; pretty i; "]"]))
      | None => x ← startAll (S i) l sets; let '(l, sets, err) := x in Ok (rule :: l, sets, err)
      end
  end.

(** The counters afterwards come with an error as well. *)
Definition buildRules (l : list DNSRuleOptions) (start : bool) (sets : table)
    : result (list rule_t * bool * dnsRuleModeFlags) * table :=
  match checkRules l with
  | Ok (rules, legacyDNSMode, modeFlags) =>
      if start then
        match startAll 0 rules sets with
        | Ok (rules, sets, None) => (Ok (rules, legacyDNSMode, modeFlags), sets)
        | Ok (rules, sets, Some err) =>
            match closeRules rule_Close rules sets with
            | Ok sets => (Err err, sets)
            | Err e => (Err e, sets)
            | Panic msg => (Panic msg, sets)
            end
        | Err e => (Err e, sets)
        | Panic msg => (Panic msg, sets)
        end
      else (Ok (rules, legacyDNSMode, modeFlags), sets)
  | Err e => (Err e, sets)
  | Panic msg => (Panic msg, sets)
  end.

Definition Initialize (r : Router) (l : list DNSRuleOptions) (sets : table) : result unit * Router * table :=
  let r := {| r with rawRules := l |} in
  let '(built, sets) := buildRules l false sets in
  match built with
  | Ok (newRules, _, _) =>
      match closeRules rule_Close newRules sets with
      | Ok sets => (Ok tt, r, sets)
      | Err e => (Err e, r, sets)
      | Panic msg => (Panic msg, r, sets)
      end
  | Err e => (Err e, r, sets)
  | Panic msg => (Panic msg, r, sets)
  end.

(** The critical section of [initializeRules], which can come after a [Close]. *)
Definition publish (r : Router) (newRules : list rule_t) (legacyDNSMode : bool) (sets : table)
    : result unit * Router * table :=
  if closing r then
    match closeRules rule_Close newRules sets with
    | Ok sets => (Ok tt, r, sets)
    | Err e => (Err e, r, sets)
    | Panic msg => (Panic msg, r, sets)
    end
  else (Ok tt, {| r with rules := newRules; legacyDNSMode := legacyDNSMode; started := true |}, sets).

Definition initializeRules (r : Router) (sets : table) : result unit * Router * table :=
  let '(built, sets) := buildRules (rawRules r) true sets in
  match built with
  | Ok (newRules, legacyDNSMode, _) => publish r newRules legacyDNSMode sets
  | Err e => (Err e, r, sets)
  | Panic msg => (Panic msg, r, sets)
  end.

(** The stage that starts the client and then the rules; the other stages do nothing. *)
Definition Start {C} (client_Start : C -> C) (r : Router) (stage : StartStage) (client : C) (sets : table)
    : result unit * Router * C * table :=
  if bool_decide (stage = StartStateStart) then
    let client := client_Start client in
    let '(out, r, sets) := initializeRules r sets in
    (out, r, client, sets)
  else (Ok tt, r, client, sets).

Definition Close (r : Router) (sets : table) : result unit * Router * table :=
  if closing r then (Ok tt, r, sets)
  else
    let runtimeRules := rules r in
    let r := {| r with closing := true; rules := [] |} in
    match closeRules rule_Close runtimeRules sets with
    | Ok sets => (Ok tt, r, sets)
    | Err e => (Err e, r, sets)
    | Panic msg => (Panic msg, r, sets)
    end.

(** The check of a new content of a rule-set. *)
Definition ValidateRuleSetMetadataUpdate (r : Router) (tag : string) (metadata : RuleSetMetadata) : result unit :=
  let overrides := {[tag := metadata]} in
  if (length (rawRules r) =? 0)%nat then Ok tt
  else if isNil router then Err (E_New ["router service not found"])
  else if closing r then Ok tt
  else
    mode ← resolveLegacyDNSMode router overrides (rawRules r);
    let '(candidateLegacyDNSMode, flags) := mode in
    if negb (started r) then
      if negb candidateLegacyDNSMode then validateLegacyDNSModeDisabledRules router overrides (rawRules r) else Ok tt
    else if legacyDNSMode r then
      if negb candidateLegacyDNSMode && disabled flags then
        _ ← validateLegacyDNSModeDisabledRules router overrides (rawRules r);
        Err (E_New [MessageWithLink OptionLegacyDNSAddressFilter])
      else Ok tt
    else if candidateLegacyDNSMode then Err (E_New [MessageWithLink OptionLegacyDNSAddressFilter])
    else validateLegacyDNSModeDisabledRules router overrides (rawRules r).

End Rules.

(** ** Queries *)

Section Query.
Context `{E : Externals} `{DnsLib}.
Variable net : Network.
Variable ruleSet_matchStatesWithBase : string -> InboundContext -> ruleMatchState -> ruleMatchStateSet.
Variable containsIPCIDRRule : string -> bool.
Variable manager : TransportManager.TransportManager.
#[local] Abbreviation rule_t := (DNSRule DNSAction string).
#[local] Abbreviation Match := (dns_Match net ruleSet_matchStatesWithBase).
#[local] Abbreviation PreMatch := (LegacyPreMatch net ruleSet_matchStatesWithBase).

Definition isFakeIP (it : Item) : bool := bool_decide (it_Type it = TransportManager.DNSTypeFakeIP).
Definition withAddressLimit (rule : rule_t) : bool := WithAddressLimit containsIPCIDRRule rule.

(** *** Matching in the legacy mode *)

(** The options of a route action in [matchDNS]. *)
Definition legacyRouteOptions (a : RuleActionDNSRouteOptions) (fakeIP : bool) (o : DNSQueryOptions) : DNSQueryOptions :=
  mkOptions (Transport o)
    (if negb (a_Strategy a =? DomainStrategyAsIS) then a_Strategy a else Strategy o)
    (LookupStrategy o)
    (if fakeIP || a_DisableCache a then true else DisableCache o)
    (DisableOptimisticCache o)
    (if isNil (a_RewriteTTL a) then RewriteTTL o else a_RewriteTTL a)
    (if (0 <? a_Timeout a)%Z then a_Timeout a else Timeout o)
    (if prefix_IsValid (a_ClientSubnet a) then a_ClientSubnet a else ClientSubnet o).

(** What [matchDNS] found: the server, the rule with its index, and the options and
    metadata it changed through its pointers. *)
Record matched : Type := mkMatched {
  m_transport : option Item;
  m_rule : option (nat * rule_t);
  m_options : DNSQueryOptions;
  m_metadata : InboundContext;
}.

Fixpoint matchLoop (l : list rule_t) (index : nat) (allowFakeIP isAddressQuery : bool)
    (metadata : InboundContext) (options : DNSQueryOptions) : matched :=
  match l with
  | [] => mkMatched (TransportManager.defaultTransport manager) None options metadata
  | rule :: l =>
      if withAddressLimit rule && negb isAddressQuery
      then matchLoop l (S index) allowFakeIP isAddressQuery metadata options
      else
        let metadata := ResetRuleCache metadata in
        let metadata := {| metadata with DestinationAddressMatchFromResponse := false |} in
        let '(ok, metadata) := PreMatch rule metadata in
        let next := matchLoop l (S index) allowFakeIP isAddressQuery metadata in
        if negb ok then next options
        else
          match dns_Action rule with
          | Some (ActionDNSRoute server a) =>
              match TransportManager.Transport manager server with
              | None => next options
              | Some transport =>
                  if isFakeIP transport && negb allowFakeIP then next options
                  else mkMatched (Some transport) (Some (index, rule))
                         (legacyRouteOptions a (isFakeIP transport) options) metadata
              end
          | Some (ActionDNSRouteOptions a) => next (legacyRouteOptions a false options)
          | Some (ActionDNSReject _) | Some (ActionPredefined _) =>
              mkMatched None (Some (index, rule)) options metadata
          | _ => next options
          end
  end.

(** [ruleIndex] is the rule matched before; [None] is [-1]. *)
Definition matchDNS (l : list rule_t) (allowFakeIP : bool) (ruleIndex : option nat) (isAddressQuery : bool)
    (metadata : InboundContext) (options : DNSQueryOptions) : matched :=
  let currentRuleIndex := match ruleIndex with Some i => S i | None => O end in
  matchLoop (drop currentRuleIndex l) currentRuleIndex allowFakeIP isAddressQuery metadata options.

Definition isAddressQuery (message : Msg) : bool :=
  existsb (fun q => (q_Qtype q =? TypeA) || (q_Qtype q =? TypeAAAA) || (q_Qtype q =? TypeHTTPS)) (Questions message).

Definition addressLimitResponseCheck (rule : option rule_t) (metadata : InboundContext) : option (Msg -> bool) :=
  match rule with
  | Some rule =>
      if withAddressLimit rule
      then Some (fun response => MatchAddressLimit net ruleSet_matchStatesWithBase rule metadata (Some response))
      else None
  | None => None
  end.

(** *** Matching in the new mode *)

Definition applyDNSRouteOptions (o : DNSQueryOptions) (a : RuleActionDNSRouteOptions) : DNSQueryOptions :=
  mkOptions (Transport o) (Strategy o) (LookupStrategy o)
    (if a_DisableCache a then true else DisableCache o)
    (if a_DisableOptimisticCache a then true else DisableOptimisticCache o)
    (if isNil (a_RewriteTTL a) then RewriteTTL o else a_RewriteTTL a)
    (if (0 <? a_Timeout a)%Z then a_Timeout a else Timeout o)
    (if prefix_IsValid (a_ClientSubnet a) then a_ClientSubnet a else ClientSubnet o).

Inductive dnsRouteStatus : Type :=
| dnsRouteStatusMissing
| dnsRouteStatusSkipped
| dnsRouteStatusResolved (transport : Item) (options : DNSQueryOptions).

Definition resolveDNSRoute (server : string) (a : RuleActionDNSRouteOptions) (allowFakeIP : bool)
    (options : DNSQueryOptions) : dnsRouteStatus :=
  match TransportManager.Transport manager server with
  | None => dnsRouteStatusMissing
  | Some transport =>
      if isFakeIP transport && negb allowFakeIP then dnsRouteStatusSkipped
      else
        let options := applyDNSRouteOptions options a in
        dnsRouteStatusResolved transport
          (if isFakeIP transport then {| options with DisableCache := true |} else options)
  end.

Variable defaultStrategy : N.

Definition withDefaultStrategy (o : DNSQueryOptions) : DNSQueryOptions :=
  if Strategy o =? DomainStrategyAsIS then {| o with Strategy := defaultStrategy |} else o.

(** The response, or the error; the server that gave it; the rejecting rule. *)
Record exchangeWithRulesResult : Type := mkResult {
  er_response : result Msg;
  er_transport : option Item;
  er_rejectAction : option (nat * RuleActionReject);
}.

Definition dnsRespondMissingResponseMessage : string :=
  "respond action requires an evaluated response from a preceding evaluate action".

(** The answer of a rule that rejects. *)
Definition refused (message : Msg) : result Msg :=
  match Questions message with
  | question :: _ => Ok (mkMsg (Id message) true false false false RcodeRefused [question] [] [] [])
  | [] => Panic "index out of range"
  end.

Definition exchangeVia (transport : option Item) (message : Msg) (options : DNSQueryOptions) : prog exchangeWithRulesResult :=
  Ask (ReqExchange transport message (withDefaultStrategy options) None)
    (fun r : result Msg => Ret (mkResult r transport None)).

(** The loop; [evaluated] is the evaluated response with its server. *)
Fixpoint exchangeRules (l : list rule_t) (index : nat) (message : Msg) (allowFakeIP : bool)
    (metadata : InboundContext) (effectiveOptions : DNSQueryOptions) (evaluated : option (Msg * Item))
    : prog exchangeWithRulesResult :=
  match l with
  | [] => exchangeVia (TransportManager.defaultTransport manager) message effectiveOptions
  | rule :: l =>
      let metadata := ResetRuleCache metadata in
      let metadata := {| metadata with DNSResponse := fst <$> evaluated; DestinationAddressMatchFromResponse := false |} in
      let next := exchangeRules l (S index) message allowFakeIP metadata in
      if negb (Match rule metadata) then next effectiveOptions evaluated
      else
        match dns_Action rule with
        | Some (ActionDNSRouteOptions a) => next (applyDNSRouteOptions effectiveOptions a) evaluated
        | Some (ActionEvaluate server a) =>
            match TransportManager.Transport manager server with
            | None => next effectiveOptions None
            | Some transport =>
                let options := withDefaultStrategy (applyDNSRouteOptions effectiveOptions a) in
                Ask (ReqExchange (Some transport) message options None)
                  (fun r : result Msg =>
                     match r with
                     | Ok response => next effectiveOptions (Some (response, transport))
                     | Err _ => next effectiveOptions None
                     | Panic msg => Ret (mkResult (Panic msg) None None)
                     end)
            end
        | Some ActionRespond =>
            match evaluated with
            | None => Ret (mkResult (Err (E_New [dnsRespondMissingResponseMessage])) None None)
            | Some (response, transport) => Ret (mkResult (Ok response) (Some transport) None)
            end
        | Some (ActionDNSRoute server a) =>
            match resolveDNSRoute server a allowFakeIP effectiveOptions with
            | dnsRouteStatusMissing | dnsRouteStatusSkipped => next effectiveOptions evaluated
            | dnsRouteStatusResolved transport options => exchangeVia (Some transport) message options
            end
        | Some (ActionDNSReject a) =>
            if bool_decide (Method a = RuleActionRejectMethodDefault)
            then Ret (mkResult (refused message) None (Some (index, a)))
            else if bool_decide (Method a = RuleActionRejectMethodDrop)
            then Ret (mkResult (Err ErrDrop) None (Some (index, a)))
            else next effectiveOptions evaluated
        | Some (ActionPredefined a) => Ret (mkResult (predefined_Response a message) None None)
        | None => next effectiveOptions evaluated
        end
  end.
Definition exchangeWithRules (l : list rule_t) (message : Msg) (metadata : InboundContext) (options : DNSQueryOptions)
    (allowFakeIP : bool) : prog exchangeWithRulesResult :=
  exchangeRules l 0 message allowFakeIP metadata options None.

(** *** Exchange *)

(** How an exchange ended: [Returned] skips the reverse mapping. *)
Inductive exchanged : Type :=
| Returned (r : result Msg)
| Done (r : result Msg) (transport : option Item).

Definition isRejection (err : error) : bool :=
  errors.Is err ErrResponseRejectedCached || errors.Is err ErrResponseRejected.

(** What the legacy loop does with the rule before it asks the client. *)
Definition legacyVerdict (rule : option (nat * rule_t)) (message : Msg) : option exchanged :=
  match rule with
  | Some (_, rule) =>
      match dns_Action rule with
      | Some (ActionDNSReject a) =>
          if bool_decide (Method a = RuleActionRejectMethodDefault) then Some (Returned (refused message))
          else if bool_decide (Method a = RuleActionRejectMethodDrop) then Some (Returned (Err ErrDrop))
          else None
      | Some (ActionPredefined a) => Some (Done (predefined_Response a message) None)
      | _ => None
      end
  | None => None
  end.

(** The loop over the rules of the legacy mode; [None] means that the fuel ran out. *)
Fixpoint exchangeLoop (fuel : nat) (l : list rule_t) (message : Msg) (options : DNSQueryOptions)
    (metadata : InboundContext) (ruleIndex : option nat) : prog (option exchanged) :=
  match fuel with
  | O => Ret None
  | S fuel =>
      let m := matchDNS l true ruleIndex (isAddressQuery message) metadata options in
      match legacyVerdict (m_rule m) message with
      | Some e => Ret (Some e)
      | None =>
          let responseCheck := addressLimitResponseCheck (snd <$> m_rule m) (m_metadata m) in
          Ask (ReqExchange (m_transport m) message (withDefaultStrategy (m_options m)) responseCheck)
            (fun r : result Msg =>
               if negb (isNil responseCheck) && match r with Err err => isRejection err | _ => false end
               then exchangeLoop fuel l message options (m_metadata m) (fst <$> m_rule m)
               else Ret (Some (Done r (m_transport m))))
      end
  end.

(** The metadata of a query. *)
Definition queryMetadata (metadata : InboundContext) (question : Question) : InboundContext :=
  {| metadata with
     Destination := SocksaddrZero;
     QueryType := q_Qtype question;
     DNSResponse := None;
     DestinationAddressMatchFromResponse := false;
     IPVersion := if q_Qtype question =? TypeA then 4
                  else if q_Qtype question =? TypeAAAA then 6 else IPVersion metadata;
     Domain := FqdnToDomain (q_Name question) |}.

(** The addresses an answer adds to the reverse mapping. *)
Definition reverseMapping (rr : RR) : option (Addr * string * Z) :=
  match rr_data rr with
  | RR_A a => Some (M_AddrFromIP a, FqdnToDomain (rr_Name rr), Z.of_N (rr_Ttl rr) * second)%Z
  | RR_AAAA a => Some (M_AddrFromIP a, FqdnToDomain (rr_Name rr), Z.of_N (rr_Ttl rr) * second)%Z
  | _ => None
  end.
Fixpoint remember (l : list (Addr * string * Z)) (response : Msg) : prog (result Msg) :=
  match l with
  | [] => Ret (Ok response)
  | (address, domain, lifetime) :: l =>
      Ask (ReqRemember address domain lifetime) (fun _ => remember l response)
  end.

Definition finish (mapping : bool) (e : exchanged) : prog (result Msg) :=
  match e with
  | Returned r => Ret r
  | Done (Ok response) transport =>
      if mapping && match transport with Some it => negb (isFakeIP it) | None => true end
      then remember (omap reverseMapping (Answer response)) response
      else Ret (Ok response)
  | Done r _ => Ret r
  end.

Definition legacyFuel (l : list rule_t) : nat := S (length l).
Definition outOfFuel : exchanged := Returned (Panic "out of fuel").

Definition Exchange (r : Router) (metadata : InboundContext) (message : Msg) (options : DNSQueryOptions)
    : prog (result Msg) :=
  match Questions message with
  | [question] =>
      if closing r then Ret (Err (E_New ["dns router closed"]))
      else
        let metadata := queryMetadata metadata question in
        pbind
          (match Transport options with
           | Some transport =>
               Ask (ReqExchange (Some transport) message (withDefaultStrategy options) None)
                 (fun x : result Msg => Ret (Done x (Some transport)))
           | None =>
               if negb (legacyDNSMode r)
               then pmap (fun x => Done (er_response x) (er_transport x))
                      (exchangeWithRules (rules r) message metadata options true)
               else pmap (default outOfFuel)
                      (exchangeLoop (legacyFuel (rules r)) (rules r) message options metadata None)
           end)
          (finish (dnsReverseMapping r))
  | questions =>
      Ret (Ok (mkMsg (Id message) true false false false RcodeFormatError questions [] [] []))
  end.

(** *** Lookup *)

Variable groupError : error -> option error -> error.

Definition resolveLookupStrategy (options : DNSQueryOptions) : N :=
  if negb (LookupStrategy options =? DomainStrategyAsIS) then LookupStrategy options
  else if negb (Strategy options =? DomainStrategyAsIS) then Strategy options
  else defaultStrategy.

Definition withLookupQueryMetadata (metadata : InboundContext) (qType : N) : InboundContext :=
  {| metadata with
     QueryType := qType;
     IPVersion := if qType =? TypeA then 4 else if qType =? TypeAAAA then 6 else 0 |}.

Definition filterAddressesByQueryType (addresses : list Addr) (qType : N) : list Addr :=
  if qType =? TypeA then List.filter Is4 addresses
  else if qType =? TypeAAAA then List.filter Is6 addresses
  else addresses.

Definition lookupWithRulesType (l : list rule_t) (metadata : InboundContext) (domain : string) (qType : N)
    (options : DNSQueryOptions) : prog (result (list Addr)) :=
  let request := lookupMessage (dns_Fqdn domain) qType in
  pbind (exchangeWithRules l request (withLookupQueryMetadata metadata qType) options false)
    (fun x =>
       match er_rejectAction x with
       | Some (index, a) =>
           Ask (ReqReject index a)
             (fun err : result (option error) =>
                Ret (err ← err; match err with Some e => Err e | None => Ok [] end))
       | None =>
           Ret (response ← er_response x;
                if negb (Rcode response =? RcodeSuccess)%Z then Err (RcodeError (Rcode response))
                else Ok (filterAddressesByQueryType (MessageToAddresses response) qType))
       end).

(** The result of the two queries of a lookup. *)
Definition joinLookups (strategy : N) (r4 r6 : result (list Addr)) : result (list Addr) :=
  let addrs r := match r with Ok l => l | _ => [] end in
  match r4, r6 with
  | Panic msg, _ | _, Panic msg => Panic msg
  | _, _ =>
      match addrs r4, addrs r6 with
      | [], [] =>
          match r4, r6 with
          | Err e4, Err e6 => Err (groupError e4 (Some e6))
          | Err e, _ | _, Err e => Err (groupError e None)
          | _, _ => Ok []
          end
      | a4, a6 => Ok (sortAddresses a4 a6 strategy)
      end
  end.

(** [sched] interleaves the calls of the two queries, which run in parallel. *)
Definition lookupWithRules (sched : list bool) (l : list rule_t) (metadata : InboundContext) (domain : string)
    (options : DNSQueryOptions) : prog (result (list Addr)) :=
  let strategy := resolveLookupStrategy options in
  let lookupOptions :=
    if negb (strategy =? DomainStrategyAsIS) then {| options with Strategy := strategy |} else options in
  if strategy =? DomainStrategyIPv4Only then lookupWithRulesType l metadata domain TypeA lookupOptions
  else if strategy =? DomainStrategyIPv6Only then lookupWithRulesType l metadata domain TypeAAAA lookupOptions
  else
    pmap (fun '(r4, r6) => joinLookups strategy r4 r6)
      (par (lookupWithRulesType l metadata domain TypeA lookupOptions)
           (lookupWithRulesType l metadata domain TypeAAAA lookupOptions) sched).

(** How a lookup ended: [LReturned] skips the check of an empty result. *)
Inductive looked : Type :=
| LReturned (r : result (list Addr))
| LDone (r : result (list Addr)).

(** The addresses of a predefined answer. *)
Definition predefinedAddresses (a : RuleActionPredefined) : result (list Addr) :=
  if negb (p_Rcode a =? RcodeSuccess)%Z then Err (RcodeError (p_Rcode a))
  else Ok (omap (fun it : option RR =>
                   rr ← it;
                   match rr_data rr with RR_A ip | RR_AAAA ip => Some (M_AddrFromIP ip) | _ => None end)
             (p_Answer a))%stdpp.

(** A nil error as the cause of an error. *)
Definition nilCause : error := ErrExternal "nil".

Fixpoint lookupLoop (fuel : nat) (l : list rule_t) (domain : string) (options : DNSQueryOptions)
    (metadata : InboundContext) (ruleIndex : option nat) : prog (option looked) :=
  match fuel with
  | O => Ret None
  | S fuel =>
      let m := matchDNS l false ruleIndex true metadata options in
      let ask :=
        let responseCheck := addressLimitResponseCheck (snd <$> m_rule m) (m_metadata m) in
        Ask (ReqLookup (m_transport m) domain (withDefaultStrategy (m_options m)) responseCheck)
          (fun r : result (list Addr) =>
             if negb (isNil responseCheck) && match r with Err _ => true | _ => false end
             then lookupLoop fuel l domain options (m_metadata m) (fst <$> m_rule m)
             else Ret (Some (LDone r))) in
      match m_rule m with
      | Some (index, rule) =>
          match dns_Action rule with
          | Some (ActionDNSReject a) =>
              Ask (ReqReject index a)
                (fun err : result (option error) =>
                   Ret (Some (LReturned (err ← err; Err (RejectedError (default nilCause err))))))
          | Some (ActionPredefined a) => Ret (Some (LDone (predefinedAddresses a)))
          | _ => ask
          end
      | None => ask
      end
  end.

(** [printResult], without its log lines. *)
Definition lookupResult (domain : string) (r : result (list Addr)) : result (list Addr) :=
  match r with
  | Ok [] => Err (E_Cause (E_New ["empty result"]) ["lookup "; domain])
  | Err err => Err (E_Cause err ["lookup "; domain])
  | r => r
  end.
Definition lookupFinish (domain : string) (e : looked) : result (list Addr) :=
  match e with
  | LReturned r => r
  | LDone r => lookupResult domain r
  end.

Definition lookupOutOfFuel : looked := LReturned (Panic "out of fuel").

Definition Lookup (sched : list bool) (r : Router) (metadata : InboundContext) (domain : string)
    (options : DNSQueryOptions) : prog (result (list Addr)) :=
  if closing r then Ret (Err (E_New ["dns router closed"]))
  else
    let metadata := {| metadata with
                       Destination := SocksaddrZero;
                       Domain := FqdnToDomain domain;
                       DNSResponse := None;
                       DestinationAddressMatchFromResponse := false |} in
    pmap (lookupFinish domain)
      (match Transport options with
       | Some transport =>
           Ask (ReqLookup (Some transport) domain (withDefaultStrategy options) None)
             (fun x : result (list Addr) => Ret (LDone x))
       | None =>
           if negb (legacyDNSMode r) then pmap LDone (lookupWithRules sched (rules r) metadata domain options)
           else pmap (default lookupOutOfFuel)
                  (lookupLoop (legacyFuel (rules r)) (rules r) domain options metadata None)
       end).

End Query.

(** ** Caches and networks *)

Section Reset.
Context `{E : Externals}.

Definition ClearCache (r : Router) : prog unit :=
  Ask ReqClearCache (fun _ =>
    pbind (if platformInterface r then Ask ReqPlatformClear (fun _ => Ret tt) else Ret tt) (fun _ =>
      if dnsReverseMapping r then Ask ReqPurge (fun _ => Ret tt) else Ret tt)).

Definition LookupReverseMapping (r : Router) (ip : Addr) : prog (option string) :=
  if negb (dnsReverseMapping r) then Ret None
  else Ask (ReqReverse ip) (fun domain : option string => Ret domain).

Fixpoint resetTransports (l : list Item) : prog unit :=
  match l with
  | [] => Ret tt
  | it :: l => Ask (ReqReset it) (fun _ => resetTransports l)
  end.
Definition ResetNetwork (r : Router) (manager : TransportManager.TransportManager) : prog unit :=
  pbind (ClearCache r) (fun _ => resetTransports (TransportManager.transports manager)).

End Reset.

End DnsRouter.
