(* ===== verification/DnsRouterTheorems.v ===== *)
(** * The DNS router keeps to its configuration

    First, what its programs ask and return: [asks] and [leaves] hold of every call a
    program can make and of every result it can give, whatever the answers are.  Then
    which servers the router asks, that its loops end, which configurations its
    two modes accept, and that it gives rule-sets back. *)

From S2P Require Import Prelude GoStd Metadata MatchState RuleItems Rules RuleActions RuleSet.
From S2P Require Import RuleSetRefs HeadlessOptions DnsRules DnsMessage DnsActions DnsBuild DnsMode DnsBuildFacts.
From S2P Require Import Managers TransportManager DnsClient DnsRouter.
From stdpp Require Import list.
Import MatchState RuleItems Rules RuleActions RuleSet DnsRules DnsMessage DnsActions DnsBuild DnsMode Managers DnsClient DnsRouter.

Open Scope N_scope.

Section Progs.
Context {A B : Type}.

Fixpoint asks {A} (P : request -> Prop) (p : prog A) : Prop :=
  match p with
  | Ret _ => True
  | Ask q k => P q /\ forall x, asks P (k x)
  end.

Fixpoint leaves {A} (Q : A -> Prop) (p : prog A) : Prop :=
  match p with
  | Ret a => Q a
  | Ask q k => forall x, leaves Q (k x)
  end.

Lemma leaves_True (p : prog A) : leaves (fun _ => True) p.
Proof. by induction p. Qed.

Lemma leaves_impl (Q Q' : A -> Prop) (p : prog A) : (forall a, Q a -> Q' a) -> leaves Q p -> leaves Q' p.
Proof. intros HQ. induction p; simpl; auto. Qed.

Lemma asks_pbind_leaves P (Q : A -> Prop) (p : prog A) (f : A -> prog B) :
  asks P p -> leaves Q p -> (forall a, Q a -> asks P (f a)) -> asks P (pbind p f).
Proof. induction p; simpl; [auto|]. intros [] ? ?. split; auto. Qed.

Lemma asks_pbind P (p : prog A) (f : A -> prog B) :
  asks P p -> (forall a, asks P (f a)) -> asks P (pbind p f).
Proof. intros. eapply asks_pbind_leaves; [done|apply leaves_True|auto]. Qed.

Lemma asks_pmap P (p : prog A) (f : A -> B) : asks P p -> asks P (pmap f p).
Proof. intros. by apply asks_pbind. Qed.

Lemma leaves_pbind (Q : A -> Prop) (R : B -> Prop) (p : prog A) (f : A -> prog B) :
  leaves Q p -> (forall a, Q a -> leaves R (f a)) -> leaves R (pbind p f).
Proof. induction p; simpl; auto. Qed.

Lemma leaves_pmap (Q : A -> Prop) (R : B -> Prop) (p : prog A) (f : A -> B) :
  leaves Q p -> (forall a, Q a -> R (f a)) -> leaves R (pmap f p).
Proof. intros. by eapply leaves_pbind. Qed.

(** The result of a run is a leaf. *)
Lemma exec_leaves {St} (h : forall q, St -> answer q * St) (Q : A -> Prop) (p : prog A) s :
  leaves Q p -> Q (exec h p s).1.
Proof. revert s. induction p as [a|q k IH]; simpl; intros s Hp; [done|]. destruct (h q s) as [x s']. auto. Qed.

Lemma exec_pbind {St} (h : forall q, St -> answer q * St) (p : prog A) (f : A -> prog B) s :
  exec h (pbind p f) s = let '(a, s) := exec h p s in exec h (f a) s.
Proof. revert s. induction p as [a|q k IH]; simpl; intros s; [done|]. destruct (h q s). auto. Qed.
End Progs.

(** An interleaving asks what the two programs ask. *)
Lemma asks_par {A B} P (p : prog A) (q : prog B) sched : asks P p -> asks P q -> asks P (par p q sched).
Proof.
  revert q sched. induction p as [a|r k IHp]; intros q sched Hp Hq; [by apply asks_pmap|].
  destruct Hp as [Hr Hk]. revert sched. induction q as [b|r' k' IHq]; intros sched.
  - split; [done|]. intros x. apply asks_pmap. auto.
  - destruct Hq as [Hr' Hk']. destruct sched as [|[] sched]; (split; [done|]); intros x.
    + apply IHp; [auto|split; auto].
    + apply IHp; [auto|split; auto].
    + apply IHq; auto.
Qed.


(** ** Building and starting the rules *)

Section Start.
Context `{E : Externals}.
Variable svc : Services.
Variable transport : option (string -> option Item).
Variable router : option (string -> option RuleSetMetadata).
#[local] Abbreviation table := RuleSetRefs.table.
#[local] Abbreviation rule_t := (DNSRule DNSAction string).

Lemma newRules_Forall2 legacy i l out :
  newRules legacy i l = Ok out -> Forall2 (fun r rule => NewDNSRule legacy r true = Ok rule) l out.
Proof.
  revert i out. induction l as [|r l IH]; simpl; intros i out; [by intros [= <-]|].
  intros H. apply bind_Ok_inv in H as (rule & Hr%map_err_Ok_inv & H).
  apply bind_Ok_inv in H as (rules & Hrs & [= <-]). constructor; eauto.
Qed.

Lemma checkRules_inv l rules legacy flags :
  checkRules transport router l = Ok (rules, legacy, flags) ->
  resolveLegacyDNSMode router ∅ l = Ok (legacy, flags) /\
  (legacy = false -> validateLegacyDNSModeDisabledRules router ∅ l = Ok tt) /\
  validateEvaluateFakeIPRules l transport = Ok tt /\
  Forall2 (fun r rule => NewDNSRule legacy r true = Ok rule) l rules.
Proof.
  unfold checkRules. intros H. apply bind_Ok_inv in H as ([] & _ & H).
  apply bind_Ok_inv in H as ([legacy' flags'] & Hm & H). apply bind_Ok_inv in H as ([] & Hv & H).
  apply bind_Ok_inv in H as ([] & He & H). apply bind_Ok_inv in H as (rs & Hrs%newRules_Forall2 & [= <- <- <-]).
  repeat split; [done| |done|done]. by intros ->.
Qed.

(** Starting keeps the actions. *)
Lemma rule_Start_action rule sets rule' sets' err :
  rule_Start svc rule sets = Ok (rule', sets', err) -> dns_Action rule' = dns_Action rule.
Proof.
  destruct rule; cbn [rule_Start]; intros H; apply bind_Ok_inv in H as ([[x s] e] & Hx & [= <- <- <-]); [|done].
  unfold default_Start in Hx. by apply bind_Ok_inv in Hx as ([[y t] f] & Hy & [= <- <- <-]).
Qed.

Lemma startAll_action i (l : list rule_t) sets l' sets' err :
  startAll svc i l sets = Ok (l', sets', err) -> Forall2 (fun rule rule' => dns_Action rule' = dns_Action rule) l l'.
Proof.
  revert i sets l'. induction l as [|rule l IH]; intros i sets l'; simpl; [by intros [= <- _ _]|].
  intros H. apply bind_Ok_inv in H as ([[rule1 s] e] & Hr%rule_Start_action & H). destruct e as [e|].
  - injection H as <- _ _. constructor; [done|]. apply Forall_Forall2_diag. by apply Forall_true.
  - apply bind_Ok_inv in H as ([[l1 s1] e1] & Hl & [= <- <- <-]). constructor; eauto.
Qed.
End Start.

(** What a start that succeeds leaves. *)
Lemma Start_inv `{E : Externals} {C} svc transport router (client_Start : C -> C) r0 client sets r client' sets' :
  Start svc transport router client_Start r0 StartStateStart client sets = (Ok tt, r, client', sets') ->
  closing r = true \/
  exists built flags, checkRules transport router (rawRules r0) = Ok (built, legacyDNSMode r, flags) /\
    startAll svc 0 built sets = Ok (rules r, sets', None) /\ rawRules r = rawRules r0 /\ started r = true.
Proof.
  unfold Start. rewrite bool_decide_true by done. unfold initializeRules, buildRules.
  destruct (checkRules _ _ _) as [[[built legacy] flags]| |]; [|done|done].
  destruct (startAll _ _ _ _) as [[[l s] [e|]]| |] eqn:Hs; [by destruct (closeRules _ _ _)| |done|done].
  unfold publish. destruct (closing r0) eqn:Hc.
  - destruct (closeRules _ _ _); [|done|done]. intros [= <- _ <-]. by left.
  - intros [= <- _ <-]. right. exists built, flags. by repeat split.
Qed.

(** ** Servers *)

(** A property of the server a request names. *)
Definition usesServer (P : Item -> Prop) (q : request) : Prop :=
  match q with
  | ReqExchange (Some it) _ _ _ | ReqLookup (Some it) _ _ _ => P it
  | _ => True
  end.

Lemma asks_mono {A} (P Q : request -> Prop) (p : prog A) : (forall q, P q -> Q q) -> asks P p -> asks Q p.
Proof. intros HPQ. induction p as [a|q k IH]; [done|]. intros [Hq Hk]. split; auto. Qed.

Section Servers.
Context `{E : Externals} `{DnsLib}.
Variable net : Network.
Variable sets : string -> InboundContext -> ruleMatchState -> ruleMatchStateSet.
Variable cidr : string -> bool.
Variable manager : TransportManager.TransportManager.
Variable strategy : N.
Variable groupError : error -> option error -> error.
#[local] Abbreviation rule_t := (DNSRule DNSAction string).
#[local] Abbreviation real := (usesServer (fun it => isFakeIP it = false)).

(** The default server and the evaluated servers are no FakeIP servers. *)
Hypothesis default_real : forall it, TransportManager.defaultTransport manager = Some it -> isFakeIP it = false.
Definition evaluatesReal (rule : rule_t) : Prop :=
  forall server a it, dns_Action rule = Some (ActionEvaluate server a) ->
    TransportManager.Transport manager server = Some it -> isFakeIP it = false.

Lemma matchLoop_real l index addressQuery md o it :
  m_transport (matchLoop net sets cidr manager l index false addressQuery md o) = Some it -> isFakeIP it = false.
Proof.
  revert index md o. induction l as [|rule l IH]; intros index md o; simpl; [apply default_real|].
  destruct (_ && _); [apply IH|]. destruct (LegacyPreMatch _ _ _ _) as [ok md']. destruct ok; simpl; [|apply IH].
  destruct (dns_Action rule) as [[server a| | | | |]|]; try apply IH; try done.
  destruct (TransportManager.Transport manager server) as [t|]; [|apply IH].
  destruct (isFakeIP t) eqn:Hf; simpl; [apply IH|]. by intros [= <-].
Qed.

Lemma lookupLoop_real fuel l domain o md index :
  asks real (lookupLoop net sets cidr manager strategy fuel l domain o md index).
Proof.
  revert md index. induction fuel as [|fuel IH]; intros md index; [done|]. cbn [lookupLoop].
  set (m := matchDNS _ _ _ _ _ _ _ _ _ _).
  assert (real (ReqLookup (m_transport m) domain (withDefaultStrategy strategy (m_options m))
    (addressLimitResponseCheck net sets cidr (snd <$> m_rule m) (m_metadata m)))) as Hm.
  { simpl. destruct (m_transport m) as [it|] eqn:Hit; [|done]. by eapply matchLoop_real. }
  destruct (m_rule m) as [[i rule]|]; [destruct (dns_Action rule) as [[]|]|]; try done;
    try (split; [exact Hm|]; intros r; by destruct (_ && _)).
Qed.

Lemma exchangeRules_real l index message md o evaluated :
  Forall evaluatesReal l ->
  asks real (exchangeRules net sets manager strategy l index message false md o evaluated).
Proof.
  intros Hl. revert index md o evaluated. induction Hl as [|rule l Hr _ IH]; intros index md o evaluated.
  - split; [|done]. simpl. destruct (TransportManager.defaultTransport manager) eqn:Hd; [auto|done].
  - cbn [exchangeRules]. destruct (negb _); [apply IH|].
    destruct (dns_Action rule) as [[server a|server a| |a|a|a]|] eqn:Ha; try apply IH; try done.
    + unfold resolveDNSRoute. destruct (TransportManager.Transport manager server) as [it|]; [|apply IH].
      destruct (isFakeIP it) eqn:Hf; simpl; [apply IH|]. by split.
    + destruct (TransportManager.Transport manager server) as [it|] eqn:Hit; [|apply IH].
      split; [by eapply Hr|]. intros [response|e|msg]; [apply IH|apply IH|done].
    + by destruct evaluated as [[]|].
    + destruct (bool_decide _); [done|]. destruct (bool_decide _); [done|apply IH].
Qed.

Lemma lookupWithRulesType_real l md domain qType o :
  Forall evaluatesReal l -> asks real (lookupWithRulesType net sets manager strategy l md domain qType o).
Proof.
  intros Hl. apply asks_pbind; [by apply exchangeRules_real|]. intros x. by destruct (er_rejectAction x) as [[]|].
Qed.

Lemma Lookup_real sched r md domain o :
  Forall evaluatesReal (rules r) -> Transport o = None ->
  asks real (Lookup net sets cidr manager strategy groupError sched r md domain o).
Proof.
  intros Hl Ho. unfold Lookup. rewrite Ho. destruct (closing r); [done|]. apply asks_pmap.
  destruct (legacyDNSMode r); cbn [negb]; apply asks_pmap; [apply lookupLoop_real|].
  unfold lookupWithRules. destruct (_ =? _); [by apply lookupWithRulesType_real|].
  destruct (_ =? _); [by apply lookupWithRulesType_real|].
  apply asks_pmap, asks_par; by apply lookupWithRulesType_real.
Qed.

End Servers.

Lemma NewDNSRuleAction_evaluate a server o :
  NewDNSRuleAction a = Ok (Some (ActionEvaluate server o)) -> d_Action a = RuleActionTypeEvaluate /\ server = (d_RouteOptions a).1.
Proof. intros H%NewDNSRuleAction_case. by inversion H. Qed.

Section FakeIP.
Context `{E : Externals} `{DnsLib}.
Variable transport : string -> option Item.

Lemma validateEvaluateLoop_Forall i l :
  validateEvaluateLoop transport i l = Ok tt -> Forall (fun r => evaluatesFakeIP transport r = false) l.
Proof.
  revert i. induction l as [|r l IH]; intros i; simpl; [by constructor|].
  destruct (evaluatesFakeIP transport r) eqn:Hr; [done|]. intros Hl. constructor; eauto.
Qed.

(** A rule that was built and validated evaluates no FakeIP server. *)
Lemma built_evaluates legacy r (rule : DNSRule DNSAction string) server a it :
  NewDNSRule legacy r true = Ok rule -> evaluatesFakeIP transport r = false ->
  dns_Action rule = Some (ActionEvaluate server a) -> transport server = Some it -> isFakeIP it = false.
Proof.
  intros [Hb Hc]%NewDNSRule_from Hf Ha Hit. pose proof (builtFrom_action _ _ Hb) as Hact. rewrite Ha in Hact.
  apply NewDNSRuleAction_evaluate in Hact as [Hact ->].
  assert (dnsRuleActionType r = RuleActionTypeEvaluate /\ dnsRuleActionServer r = (d_RouteOptions (ruleAction r)).1) as [Ht Hs].
  { unfold dnsRuleActionType, dnsRuleActionServer, actionTypeOf. clear Hf Hc Ha Hit.
    destruct Hb as [type_ o b mode subs inverted la act r' Ht|o b mode subs inverted la act rs]; cbn [ruleAction] in *.
    - rewrite Ht in *. by rewrite Hact.
    - change (d_Action la = RuleActionTypeEvaluate) in Hact. simpl. by rewrite Hact. }
  unfold evaluatesFakeIP in Hf. rewrite Ht, Hs in Hf. rewrite bool_decide_true in Hf by done. simpl in Hf.
  destruct (bool_decide ((d_RouteOptions (ruleAction r)).1 = "")) eqn:He; simpl in Hf.
  - exfalso. revert Hc. unfold checkDNSAction, validateDNSRuleAction, missingServer. rewrite Hact, He. done.
  - by rewrite Hit in Hf.
Qed.
End FakeIP.

(** C30: lookups of the program itself never get fake addresses, unless their caller names a FakeIP server.  After a
    start that succeeded, as long as the servers are those of the start and the default is no FakeIP server, every
    server a lookup can ask - whatever the answers, in either mode, under every interleaving of its two queries - is
    no FakeIP server or the server that the options of the lookup name, which is asked without a check. *)
Theorem dns_lookup_avoids_fakeip `{E : Externals} `{DnsLib} {C} svc router manager (client_Start : C -> C) r0
    client tables r client' tables'
    net sets cidr strategy groupError sched md domain o :
  Start svc (Some (TransportManager.Transport manager)) router client_Start r0
    StartStateStart client tables = (Ok tt, r, client', tables') ->
  (forall it, TransportManager.defaultTransport manager = Some it -> isFakeIP it = false) ->
  asks (usesServer (fun it => isFakeIP it = false \/ Transport o = Some it))
    (Lookup net sets cidr manager strategy groupError sched r md domain o).
Proof.
  intros Hs Hd. destruct (Transport o) as [named|] eqn:Ho.
  { unfold Lookup. rewrite Ho. destruct (closing r); [done|]. apply asks_pmap. cbn. auto. }
  apply (asks_mono (usesServer (fun it => isFakeIP it = false))).
  { intros q Hq. destruct q as [[it|] ? ? ?|[it|] ? ? ?| | | | | | |]; try done; by left. }
  destruct (Start_inv _ _ _ _ _ _ _ _ _ _ Hs) as [Hc|(built & flags & Hb & Ha & _)].
  { unfold Lookup. by rewrite Hc. }
  apply Lookup_real; [done| |done]. apply startAll_action in Ha.
  apply checkRules_inv in Hb as (_ & _ & He%validateEvaluateLoop_Forall & Hn).
  apply Forall_lookup_2. intros i rule Hi. destruct (Forall2_lookup_r _ _ _ _ _ Ha Hi) as (rule0 & Hi0 & Hact).
  destruct (Forall2_lookup_r _ _ _ _ _ Hn Hi0) as (raw & Hraw & Hnew).
  intros server a it Haction Hit. rewrite Hact in Haction.
  eapply (built_evaluates (TransportManager.Transport manager)); [exact Hnew| |exact Haction|exact Hit].
  exact (Forall_lookup_1 _ _ _ _ He Hraw).
Qed.

(** ** The loops of the legacy mode *)

(** At most [n] calls on every path. *)
Fixpoint atMost {A} (n : nat) (p : prog A) : Prop :=
  match p, n with
  | Ret _, _ => True
  | Ask _ _, O => False
  | Ask _ k, S n => forall x, atMost n (k x)
  end.

#[local] Ltac leaf := solve [ by simpl | match goal with |- atMost ?n _ => by destruct n end ].

Section Loops.
Context `{E : Externals} `{DnsLib}.
Variable net : Network.
Variable sets : string -> InboundContext -> ruleMatchState -> ruleMatchStateSet.
Variable cidr : string -> bool.
Variable manager : TransportManager.TransportManager.
Variable strategy : N.
#[local] Abbreviation rule_t := (DNSRule DNSAction string).

(** The rules that can refuse a response, from an index on. *)
Definition limits (l : list rule_t) (start : nat) : nat :=
  length (List.filter (withAddressLimit cidr) (drop start l)).

Lemma limits_le l start : (limits l start <= length l)%nat.
Proof.
  unfold limits. pose proof (List.filter_length_le (withAddressLimit cidr) (drop start l)) as Hf.
  rewrite length_drop in Hf. lia.
Qed.

Lemma limits_next l start i rule :
  (start <= i)%nat -> l !! i = Some rule -> withAddressLimit cidr rule = true -> (limits l (S i) < limits l start)%nat.
Proof.
  intros Hi Hl Hw. unfold limits.
  assert (drop start l = take (i - start) (drop start l) ++ rule :: drop (S i) l) as ->.
  { rewrite <- (take_drop (i - start) (drop start l)) at 1. f_equal. rewrite drop_drop.
    replace (start + (i - start))%nat with i by lia. by apply drop_S. }
  rewrite List.filter_app, length_app. simpl. rewrite Hw. simpl. lia.
Qed.

Lemma matchLoop_rule l index allow query md o i rule :
  m_rule (matchLoop net sets cidr manager l index allow query md o) = Some (i, rule) ->
  (index <= i)%nat /\ l !! (i - index)%nat = Some rule.
Proof.
  revert index md o. induction l as [|r l IH]; intros index md o; [done|]. cbn [matchLoop].
  assert (forall index' md o, index' = S index ->
    m_rule (matchLoop net sets cidr manager l index' allow query md o) = Some (i, rule) ->
    (index <= i)%nat /\ (r :: l) !! (i - index)%nat = Some rule) as Hnext.
  { intros index' md' o' -> [? Hl]%IH. split; [lia|]. by replace (i - index)%nat with (S (i - S index)) by lia. }
  assert (forall t o md, m_rule (mkMatched t (Some (index, r)) o md) = Some (i, rule) ->
    (index <= i)%nat /\ (r :: l) !! (i - index)%nat = Some rule) as Hhere.
  { intros t o' md' [= <- <-]. split; [lia|]. by rewrite Nat.sub_diag. }
  destruct (_ && _); [by apply Hnext|]. destruct (LegacyPreMatch _ _ _ _) as [ok md']. destruct ok; simpl; [|by apply Hnext].
  destruct (dns_Action r) as [[server a| | | | |]|]; try (by apply Hnext); try apply Hhere.
  destruct (TransportManager.Transport manager server) as [t|]; [|by apply Hnext].
  destruct (_ && _); [by apply Hnext|apply Hhere].
Qed.

Lemma matchDNS_rule l allow ruleIndex query md o i rule :
  m_rule (matchDNS net sets cidr manager l allow ruleIndex query md o) = Some (i, rule) ->
  (match ruleIndex with Some j => S j | None => O end <= i)%nat /\ l !! i = Some rule.
Proof.
  intros [Hi Hl]%matchLoop_rule. split; [done|]. rewrite lookup_drop in Hl. by rewrite <- Hl; f_equal; lia.
Qed.

(** A refusal moves on: fewer rules can refuse the next response. *)
Lemma limits_check l allow ruleIndex query md o m :
  m = matchDNS net sets cidr manager l allow ruleIndex query md o ->
  isNil (addressLimitResponseCheck net sets cidr (snd <$> m_rule m) (m_metadata m)) = false ->
  (limits l (match fst <$> m_rule m with Some j => S j | None => O end)
   < limits l (match ruleIndex with Some j => S j | None => O end))%nat.
Proof.
  intros -> Hc. destruct (m_rule _) as [[i rule]|] eqn:Hm; simpl in *; [|done].
  apply matchDNS_rule in Hm as [Hi Hl]. destruct (withAddressLimit cidr rule) eqn:Hw; [|done].
  by eapply limits_next.
Qed.

#[local] Abbreviation start ruleIndex := (match ruleIndex with Some j => S j | None => O end) (only parsing).

Lemma exchangeLoop_bounded fuel n l message o md ruleIndex :
  (limits l (start ruleIndex) < fuel)%nat -> (limits l (start ruleIndex) < n)%nat ->
  let p := exchangeLoop net sets cidr manager strategy fuel l message o md ruleIndex in
  leaves (fun r => r <> None) p /\ atMost n p.
Proof.
  revert n md ruleIndex. induction fuel as [|fuel IH]; intros n md ruleIndex Hf Hn; [lia|]. cbv zeta. cbn [exchangeLoop].
  set (m := matchDNS _ _ _ _ _ _ _ _ _ _). destruct (legacyVerdict _ _); [split; leaf|].
  destruct n as [|n]; [lia|]. set (check := addressLimitResponseCheck _ _ _ _ _).
  assert (isNil check = false -> (limits l (start (fst <$> m_rule m)) < limits l (start ruleIndex))%nat) as Hc.
  { by apply (limits_check l true ruleIndex (isAddressQuery message) md o). }
  split; intros x; destruct (isNil check); cbn [negb andb]; try leaf;
    (destruct x as [?|err|?]; [leaf| |leaf]; destruct (isRejection err); [|leaf]);
    first [eapply (fun a b => proj1 (IH n _ _ a b)) | eapply (fun a b => proj2 (IH n _ _ a b))]; lia.
Qed.

Lemma lookupLoop_bounded fuel n l domain o md ruleIndex :
  (limits l (start ruleIndex) < fuel)%nat -> (limits l (start ruleIndex) < n)%nat ->
  let p := lookupLoop net sets cidr manager strategy fuel l domain o md ruleIndex in
  leaves (fun r => r <> None) p /\ atMost n p.
Proof.
  revert n md ruleIndex. induction fuel as [|fuel IH]; intros n md ruleIndex Hf Hn; [lia|]. cbv zeta. cbn [lookupLoop].
  set (m := matchDNS _ _ _ _ _ _ _ _ _ _). set (check := addressLimitResponseCheck _ _ _ _ _).
  destruct n as [|n]; [lia|].
  assert (isNil check = false -> (limits l (start (fst <$> m_rule m)) < limits l (start ruleIndex))%nat) as Hc.
  { by apply (limits_check l false ruleIndex true md o). }
  set (ask := Ask _ _).
  assert (leaves (fun r => r <> None) ask /\ atMost (S n) ask) as Hask.
  { split; intros x; cbn beta; destruct (isNil check); cbn [negb andb]; try leaf;
      (destruct x as [?|err|?]; [leaf| |leaf]);
      first [eapply (fun a b => proj1 (IH n _ _ a b)) | eapply (fun a b => proj2 (IH n _ _ a b))]; lia. }
  destruct (m_rule m) as [[i rule]|]; [|done]. destruct (dns_Action rule) as [[]|]; try done; split; try intros x; leaf.
Qed.

(** The legacy mode answers.  Its loops over the rules end for every sequence of
    answers, after at most one question per rule that can refuse a response and one
    more. *)
Theorem legacy_queries_end l message domain o md :
  let exchange := exchangeLoop net sets cidr manager strategy (legacyFuel l) l message o md None in
  let lookup := lookupLoop net sets cidr manager strategy (legacyFuel l) l domain o md None in
  (leaves (fun r => r <> None) exchange /\ atMost (S (limits l 0)) exchange) /\
  (leaves (fun r => r <> None) lookup /\ atMost (S (limits l 0)) lookup).
Proof.
  pose proof (limits_le l 0). split.
  - apply exchangeLoop_bounded; unfold legacyFuel; lia.
  - apply lookupLoop_bounded; unfold legacyFuel; lia.
Qed.

End Loops.
