(* ===== verification/DnsModeTheorems.v ===== *)
(** * The mode of the DNS rules fits the rules

    Rules accepted for the legacy mode use nothing that only the new mode honours,
    and conversely; accepted updates of rule-sets keep it so. *)

From S2P Require Import Prelude GoStd Metadata RuleItems Rules HeadlessOptions RuleActions RuleSet.
From S2P Require Import RuleSetRefs DnsRules DnsMessage DnsActions DnsBuild DnsMode DnsBuildFacts Managers.
From S2P Require Import TransportManager DnsClient DnsRouter DnsRouterTheorems.
From stdpp Require Import list.
Import RuleItems RuleActions RuleSet DnsRules DnsMessage DnsActions DnsBuild DnsMode DnsRouter Rules.

Open Scope N_scope.

(** [g] has the flags of [f]. *)
Record flags_le (f g : dnsRuleModeFlags) : Prop := {
  le_disabled : disabled g = false -> disabled f = false;
  le_needed : needed g = false -> needed f = false;
  le_strategy : neededFromStrategy g = false -> neededFromStrategy f = false;
}.

#[export] Instance flags_le_preorder : PreOrder flags_le.
Proof. split; [by intros f; split|]. intros f g h [] []. split; auto. Qed.

Lemma flags_le_merge f g : flags_le f (flags_merge f g) /\ flags_le g (flags_merge f g).
Proof. split; split; simpl; intros ?%orb_false_iff; tauto. Qed.

(** ** What a rule does with its options *)

(** The items outside the address group look at no response. *)
Definition readsNothing `{E : Externals} {S} (r : abstractDefaultRule DNSAction S) : Prop :=
  Forall (fun it => readsResponse it = false) (items r).

(** The legacy mode honours the action. *)
Definition legacyAction (act : option DNSAction) : Prop :=
  match act with
  | Some (ActionEvaluate _ _) | Some ActionRespond => False
  | Some (ActionDNSRoute _ a) | Some (ActionDNSRouteOptions a) => a_DisableOptimisticCache a = false
  | _ => True
  end.

(** The new mode honours the action. *)
Definition newAction (act : option DNSAction) : Prop :=
  match act with
  | Some (ActionDNSRoute _ a) | Some (ActionEvaluate _ a) | Some (ActionDNSRouteOptions a) =>
      a_Strategy a = DomainStrategyAsIS
  | _ => True
  end.

(** The rule matches or returns a response evaluated before. *)
Fixpoint matchesResponse `{E : Externals} {A S} (rule : DNSRule A S) : bool :=
  match rule with
  | DefaultDNSRule _ matchResponse => matchResponse
  | LogicalDNSRule rules _ _ _ => existsb matchesResponse rules
  end.
Definition needsResponse `{E : Externals} {S} (rule : DNSRule DNSAction S) : bool :=
  matchesResponse rule || match dns_Action rule with Some ActionRespond => true | _ => false end.

Lemma legacyAction_intro a act :
  NewDNSRuleAction a = Ok act -> d_Action a <> RuleActionTypeEvaluate -> d_Action a <> RuleActionTypeRespond ->
  dnsRuleActionDisablesLegacyDNSMode a = false -> legacyAction act.
Proof.
  intros H%NewDNSRuleAction_case ? ?. unfold dnsRuleActionDisablesLegacyDNSMode, actionOptions.
  by destruct H as [H|H|H|H|H|r H|p H]; rewrite H.
Qed.

Lemma newAction_intro a act : NewDNSRuleAction a = Ok act -> dnsRuleActionHasStrategy a = false -> newAction act.
Proof.
  intros H%NewDNSRuleAction_case. unfold dnsRuleActionHasStrategy, actionOptions.
  destruct H as [H|H|H|H|H|r H|p H]; rewrite H; try done; simpl; by intros ?%negb_false_iff%N.eqb_eq.
Qed.

Lemma respond_intro a : NewDNSRuleAction a = Ok (Some ActionRespond) -> d_Action a = RuleActionTypeRespond.
Proof. intros H%NewDNSRuleAction_case. by inversion H. Qed.

Lemma evaluate_intro a act :
  NewDNSRuleAction a = Ok act -> d_Action a = RuleActionTypeEvaluate -> exists server o, act = Some (ActionEvaluate server o).
Proof. intros H Ha. unfold NewDNSRuleAction in H. rewrite Ha in H. simpl in H. injection H as <-. eauto. Qed.

(** ** The flags of a rule *)

Section Flags.
Context `{E : Externals}.
Variable router : option (string -> option RuleSetMetadata).
Variable overrides : gmap string RuleSetMetadata.
#[local] Abbreviation require := (dnsRuleModeRequirementsInRule router overrides).
#[local] Abbreviation rule_t := (DNSRule DNSAction string).

Lemma mergeRules_le (of_rule : DNSRuleOptions -> result dnsRuleModeFlags) cause i l flags F :
  mergeRules of_rule cause i l flags = Ok F ->
  flags_le flags F /\ Forall (fun r => exists f, of_rule r = Ok f /\ flags_le f F) l.
Proof.
  revert i flags. induction l as [|r l IH]; intros i flags; cbn [mergeRules]; [by intros [= <-]|].
  intros H. apply bind_Ok_inv in H as (f & Hf%map_err_Ok_inv & H). apply IH in H as [Hle Hl].
  destruct (flags_le_merge flags f). split; [by etrans|]. constructor; [|done]. exists f. split; [done|by etrans].
Qed.

Lemma ruleSetRequirements_le matchSource tags flags F :
  ruleSetRequirements router overrides matchSource tags flags = Ok F -> flags_le flags F.
Proof.
  revert flags. induction tags as [|tag tags IH]; intros flags; cbn [ruleSetRequirements]; [by intros [= <-]|].
  intros H. apply bind_Ok_inv in H as (m & _ & H). apply IH in H as []. split; simpl in *; intros Hg.
  - apply le_disabled0, orb_false_iff in Hg. tauto.
  - apply le_needed0, orb_false_iff in Hg. tauto.
  - auto.
Qed.

Lemma requireDefault_le o a F :
  dnsRuleModeRequirementsInDefaultRule router overrides o a = Ok F ->
  flags_le (mkFlags (defaultRuleDisablesLegacyDNSMode o a || dnsRuleActionDisablesLegacyDNSMode a)
    (defaultRuleNeedsLegacyDNSModeFromAddressFilter o || dnsRuleActionHasStrategy a) (dnsRuleActionHasStrategy a)) F.
Proof.
  unfold dnsRuleModeRequirementsInDefaultRule. case_bool; [by intros [= <-]|]. case_bool; [done|].
  apply ruleSetRequirements_le.
Qed.

(** Nothing of a rule without the flag needs the new mode. *)
Lemma require_legacy r (rule : rule_t) F :
  require r = Ok F -> disabled F = false -> builtFrom r rule ->
  allDefaults (fun d matchResponse => matchResponse = false /\ readsNothing d) rule /\ legacyAction (dns_Action rule).
Proof.
  revert rule F. induction r as [type_ o a mode subs IH inverted la]; intros rule F HF Hd Hb. apply list_all_Forall in IH.
  cbn [dnsRuleModeRequirementsInRule] in HF. inversion Hb as [? ? ? ? ? ? ? act d Ht Ha Hf|? ? ? ? ? ? act rules Ha Hs]; subst.
  - rewrite Ht in HF. apply requireDefault_le in HF as [Hdis _ _]. specialize (Hdis Hd). simpl in Hdis.
    apply orb_false_iff in Hdis as [Hdis Hact]. unfold defaultRuleDisablesLegacyDNSMode in Hdis.
    rewrite !orb_false_iff, !bool_decide_eq_false in Hdis. destruct Hdis as (((((Hm & Hr) & He) & Hre) & _) & _). simpl.
    split; [split; [done|by apply (fin_items _ _ _ Hf)]|]. rewrite (fin_action _ _ _ Hf). by eapply legacyAction_intro.
  - simpl in HF. apply mergeRules_le in HF as [[Hdis _ _] Hsubs]. specialize (Hdis Hd). simpl in Hdis.
    rewrite !orb_false_iff, !bool_decide_eq_false in Hdis. destruct Hdis as ((He & Hre) & Hact). split.
    + cbn [allDefaults]. apply foldr_Forall. clear Hb Ha. revert IH Hsubs.
      induction Hs as [|r rule subs rules Hr _ IHs]; intros IH Hsubs; [done|].
      inversion_clear IH as [|? ? IHr IH']. inversion_clear Hsubs as [|? ? (f & Hf & [Hle _ _]) Hsubs'].
      constructor; [|by apply IHs]. by apply (IHr rule f Hf (Hle Hd) Hr).
    + cbn [dns_Action]. eapply legacyAction_intro; [done| | |done]; unfold actionTypeOf in *; intros Hn; rewrite Hn in *; done.
Qed.

(** The action of a rule has no strategy, when the flag is not set or nothing needs
    the legacy mode. *)
Lemma require_new r (rule : rule_t) F :
  require r = Ok F -> neededFromStrategy F = false \/ needed F = false -> builtFrom r rule -> newAction (dns_Action rule).
Proof.
  intros HF Hn Hb. apply (newAction_intro (ruleAction r)); [by apply builtFrom_action|].
  destruct Hb as [type_ o a mode subs inverted la act d Ht|o a mode subs inverted la act rules];
    cbn [dnsRuleModeRequirementsInRule ruleAction] in *.
  - rewrite Ht in *. apply requireDefault_le in HF as [_ Hneed Hstr]. simpl in *.
    destruct Hn as [Hn|Hn]; [auto|]. apply Hneed, orb_false_iff in Hn. tauto.
  - simpl in *. apply mergeRules_le in HF as [[_ Hneed Hstr] _]. simpl in *. destruct Hn; auto.
Qed.

(** ** Validated rules *)

#[local] Abbreviation validate := (validateLegacyDNSModeDisabledRuleTree router overrides).

Lemma validateSubRules_Forall (f : DNSRuleOptions -> result bool) i l b b' :
  validateSubRules f i l b = Ok b' ->
  (b' = false -> b = false) /\ Forall (fun r => exists c, f r = Ok c /\ (b' = false -> c = false)) l.
Proof.
  revert i b. induction l as [|r l IH]; intros i b; cbn [validateSubRules]; [by intros [= <-]|].
  intros H. apply bind_Ok_inv in H as (c & Hc%map_err_Ok_inv & H). apply IH in H as [Hb Hl].
  split; [|constructor; [exists c; split; [done|]|done]]; intros Hf; apply Hb, orb_false_iff in Hf; tauto.
Qed.

Lemma validate_default o a b :
  validateLegacyDNSModeDisabledDefaultRule router overrides o a = Ok b ->
  (d_MatchResponse o = true \/ hasResponseMatchFields o = false /\ noAddressFields o = true) /\
  b = d_MatchResponse o || bool_decide (d_Action a = RuleActionTypeRespond).
Proof.
  unfold validateLegacyDNSModeDisabledDefaultRule, noAddressFields. destruct (_ && _) eqn:Hc; [done|].
  intros H. apply bind_Ok_inv in H as ([] & _ & H). destruct (d_RuleSetIPCIDRAcceptEmpty o); [done|].
  injection H as <-. split; [|done]. destruct (d_MatchResponse o); [by left|right]. rewrite andb_true_r in Hc.
  rewrite !orb_false_iff in Hc. destruct Hc as (((-> & ->) & ->) & ->). done.
Qed.

(** A validated rule reads a response only where it asks for one, and is flagged when
    it needs one. *)
Lemma validate_tree r (rule : rule_t) b :
  validate r = Ok b -> builtFrom r rule ->
  allDefaults (fun d matchResponse => matchResponse = true \/ readsNothing d /\ destinationIPCIDRItems d = []) rule /\
  (b = false -> needsResponse rule = false).
Proof.
  revert rule b. induction r as [type_ o a mode subs IH inverted la]; intros rule b Hv Hb. apply list_all_Forall in IH.
  unfold needsResponse.
  cbn [validateLegacyDNSModeDisabledRuleTree] in Hv. inversion Hb as [? ? ? ? ? ? ? act d Ht Ha Hf|? ? ? ? ? ? act rules Ha Hs]; subst.
  - rewrite Ht in Hv. apply validate_default in Hv as [Hor ->]. simpl. split.
    + destruct Hor as [|[Hh Hn]]; [by left|right]. split; [by apply (fin_items _ _ _ Hf)|by apply (fin_addresses _ _ _ Hf)].
    + intros [-> Hres]%orb_false_iff. rewrite bool_decide_eq_false in Hres. rewrite (fin_action _ _ _ Hf). simpl.
      destruct act as [[]|]; try done. by apply respond_intro in Ha.
  - simpl in Hv. apply validateSubRules_Forall in Hv as [Hb0 Hsubs].
    assert (allDefaults (fun d matchResponse => matchResponse = true \/ readsNothing d /\ destinationIPCIDRItems d = [])
              (LogicalDNSRule rules mode inverted act) /\ (b = false -> existsb matchesResponse rules = false)) as [Hall Hm].
    { cbn [allDefaults]. rewrite foldr_Forall. clear Hb Ha. revert IH Hsubs.
      induction Hs as [|r rule subs rules Hr _ IHs]; intros IH Hsubs; [done|].
      inversion_clear IH as [|? ? IHr IH']. inversion_clear Hsubs as [|? ? (c & Hc & Hbc) Hsubs'].
      destruct (IHr rule c Hc Hr) as [Hd Hn]. destruct (IHs IH' Hsubs') as [Hd' Hn'].
      split; [by constructor|]. intros Hf. simpl. unfold needsResponse in Hn. apply orb_false_iff.
      split; [|auto]. specialize (Hn (Hbc Hf)). by apply orb_false_iff in Hn as [? _]. }
    split; [done|]. intros Hf. cbn [matchesResponse dns_Action]. rewrite (Hm Hf). simpl.
    specialize (Hb0 Hf). rewrite bool_decide_eq_false in Hb0. destruct act as [[]|]; try done.
    apply respond_intro in Ha. unfold actionTypeOf in Hb0. by rewrite Ha in Hb0.
Qed.

Lemma actionType_evaluate r (rule : rule_t) :
  builtFrom r rule -> dnsRuleActionType r = RuleActionTypeEvaluate -> exists server o, dns_Action rule = Some (ActionEvaluate server o).
Proof.
  intros Hb Ht. eapply (evaluate_intro (ruleAction r)); [by apply builtFrom_action|].
  destruct Hb as [type_ o a mode subs inverted la act d Hd|o a mode subs inverted la act rules];
    cbn [dnsRuleActionType ruleAction] in *.
  - rewrite Hd in *. unfold actionTypeOf in Ht. by case_bool_decide.
  - simpl in *. unfold actionTypeOf in Ht. by case_bool_decide.
Qed.

(** A rule that needs a response comes after an evaluation, counted from the rules seen. *)
Lemma validateLoop_after i l (rules : list rule_t) seen :
  validateLoop router overrides i l seen = Ok tt -> Forall2 builtFrom l rules ->
  Forall (allDefaults (fun d matchResponse => matchResponse = true \/ readsNothing d /\ destinationIPCIDRItems d = [])) rules /\
  forall k rule, rules !! k = Some rule -> needsResponse rule = true ->
    seen = true \/ exists j rule' server o, (j < k)%nat /\ rules !! j = Some rule' /\ dns_Action rule' = Some (ActionEvaluate server o).
Proof.
  intros Hv Hb. revert i seen Hv. induction Hb as [|r rule l rules Hr _ IH]; intros i seen; cbn [validateLoop]; [done|].
  intros H. apply bind_Ok_inv in H as (b & Hb%map_err_Ok_inv & H). destruct (b && negb seen) eqn:Hbs; [done|].
  destruct (validate_tree r rule b Hb Hr) as [Hd Hn]. apply IH in H as [Hall Hk]. split; [by constructor|].
  intros [|k] rule0; simpl.
  - intros [= <-] Hneed. left. destruct seen; [done|]. rewrite andb_true_r in Hbs. rewrite (Hn Hbs) in Hneed. done.
  - intros Hl Hneed. destruct (Hk k rule0 Hl Hneed) as [Hs|(j & rule' & server & o & Hj & Hl' & Ha)].
    + case_bool_decide as He; [|by left]. right. destruct (actionType_evaluate _ _ Hr He) as (server & o & Ha).
      exists O, rule, server, o. repeat split; [lia|done].
    + right. exists (S j), rule', server, o. repeat split; [lia|done|done].
Qed.
End Flags.

(** C32: the two modes honour what their rules ask for.  In a configuration the router
    accepts, rules of the legacy mode neither match responses by their items nor
    evaluate, respond or disable the optimistic cache; rules of the new mode read a
    response only where they ask to match one, set no strategy, and need a response
    only after a rule that evaluates one. *)
Theorem dns_modes_honour_rules `{E : Externals} transport router l rules legacy flags :
  checkRules transport router l = Ok (rules, legacy, flags) ->
  if legacy then
    Forall (fun rule =>
      allDefaults (fun d matchResponse => matchResponse = false /\ readsNothing d) rule /\
      legacyAction (dns_Action rule)) rules
  else
    Forall (fun rule =>
      allDefaults (fun d matchResponse => matchResponse = true \/ readsNothing d /\ destinationIPCIDRItems d = []) rule /\
      newAction (dns_Action rule)) rules /\
    forall k rule, rules !! k = Some rule -> needsResponse rule = true ->
      exists j rule' server o, (j < k)%nat /\ rules !! j = Some rule' /\ dns_Action rule' = Some (ActionEvaluate server o).
Proof.
  intros (Hm & Hv & _ & Hn)%checkRules_inv.
  assert (Forall2 builtFrom l rules) as Hb.
  { eapply Forall2_impl; [exact Hn|]. intros r rule H. by apply NewDNSRule_from in H as [? _]. }
  unfold resolveLegacyDNSMode in Hm. apply bind_Ok_inv in Hm as (F & HF & Hm).
  destruct (disabled F && neededFromStrategy F) eqn:Hds; [done|]. apply mergeRules_le in HF as [_ HF].
  injection Hm as Hleg. destruct legacy.
  - assert (disabled F = false) as Hd by by destruct (disabled F). clear Hn Hv Hleg.
    induction Hb as [|r rule l rules Hr _ IH]; [done|]. inversion_clear HF as [|? ? (f & Hf & [Hle _ _]) HF'].
    constructor; [|by apply IH]. exact (require_legacy _ _ _ _ _ Hf (Hle Hd) Hr).
  - destruct (validateLoop_after router ∅ 0 l rules false (Hv eq_refl) Hb) as [Hall Hk]. split.
    + assert (neededFromStrategy F = false \/ needed F = false) as Hor.
      { destruct (disabled F); [left|right]; [by destruct (neededFromStrategy F)|congruence]. }
      clear Hn Hv Hk. induction Hb as [|r rule l rules Hr _ IH]; [done|].
      inversion_clear HF as [|? ? (f & Hf & [_ Hle1 Hle2]) HF']. inversion_clear Hall.
      constructor; [split; [done|]|by apply IH]. eapply require_new; [exact Hf| |exact Hr]. tauto.
    + intros k rule Hk1 Hk2. by destruct (Hk k rule Hk1 Hk2).
Qed.

(** ** Updates of rule-sets *)

(** The mode depends on the metadata of the rule-sets only. *)
Section Congruence.
Context `{E : Externals}.
Variables router1 router2 : option (string -> option RuleSetMetadata).
Variables overrides1 overrides2 : gmap string RuleSetMetadata.
Hypothesis same_service : isNil router1 = isNil router2.
Hypothesis same_metadata : forall tag,
  lookupDNSRuleSetMetadata router1 overrides1 tag = lookupDNSRuleSetMetadata router2 overrides2 tag.

Lemma mergeRules_ext (f g : DNSRuleOptions -> result dnsRuleModeFlags) cause i l flags :
  Forall (fun r => f r = g r) l -> mergeRules f cause i l flags = mergeRules g cause i l flags.
Proof.
  intros Hl. revert i flags. induction Hl as [|r l Hr _ IH]; intros i flags; [done|]. cbn [mergeRules]. rewrite Hr.
  by destruct (g r); simpl; rewrite ?IH.
Qed.

Lemma require_ext r : dnsRuleModeRequirementsInRule router1 overrides1 r = dnsRuleModeRequirementsInRule router2 overrides2 r.
Proof.
  induction r as [type_ o a mode subs IH inverted la]. apply list_all_Forall in IH. cbn [dnsRuleModeRequirementsInRule].
  destruct (_ || _).
  - unfold dnsRuleModeRequirementsInDefaultRule. rewrite same_service. destruct (negb _); [done|]. destruct (isNil router2); [done|].
    generalize (mkFlags (defaultRuleDisablesLegacyDNSMode o a || dnsRuleActionDisablesLegacyDNSMode a)
      (defaultRuleNeedsLegacyDNSModeFromAddressFilter o || dnsRuleActionHasStrategy a) (dnsRuleActionHasStrategy a)) as flags.
    induction (elems (d_RuleSet o)) as [|tag tags IHt]; intros flags; [done|]. cbn [ruleSetRequirements].
    rewrite same_metadata. destruct (lookupDNSRuleSetMetadata _ _ _); simpl; auto.
  - destruct (bool_decide _); [|done]. by apply mergeRules_ext.
Qed.

Lemma resolve_ext l : resolveLegacyDNSMode router1 overrides1 l = resolveLegacyDNSMode router2 overrides2 l.
Proof.
  unfold resolveLegacyDNSMode, dnsRuleModeRequirements. rewrite (mergeRules_ext _ (dnsRuleModeRequirementsInRule router2 overrides2)); [done|].
  apply Forall_true. intros r. apply require_ext.
Qed.

Lemma validateRuleSets_ext tags : validateRuleSets router1 overrides1 tags = validateRuleSets router2 overrides2 tags.
Proof.
  induction tags as [|tag tags IH]; [done|]. cbn [validateRuleSets]. rewrite same_metadata.
  destruct (lookupDNSRuleSetMetadata _ _ _) as [m| |]; simpl; [|done|done]. by destruct (_ && _).
Qed.

Lemma validateTree_ext r :
  validateLegacyDNSModeDisabledRuleTree router1 overrides1 r = validateLegacyDNSModeDisabledRuleTree router2 overrides2 r.
Proof.
  induction r as [type_ o a mode subs IH inverted la]. apply list_all_Forall in IH.
  cbn [validateLegacyDNSModeDisabledRuleTree]. destruct (_ || _).
  - unfold validateLegacyDNSModeDisabledDefaultRule. by rewrite validateRuleSets_ext.
  - destruct (bool_decide _); [|done]. generalize 0%nat as i. generalize (bool_decide (dnsRuleActionType
      (mkDNSRule type_ o a mode subs inverted la) = RuleActionTypeRespond)) as b.
    induction IH as [|r subs Hr _ IHs]; intros b i; [done|]. cbn [validateSubRules]. rewrite Hr.
    destruct (validateLegacyDNSModeDisabledRuleTree router2 overrides2 r); simpl; auto.
Qed.

Lemma validateRules_ext l :
  validateLegacyDNSModeDisabledRules router1 overrides1 l = validateLegacyDNSModeDisabledRules router2 overrides2 l.
Proof.
  unfold validateLegacyDNSModeDisabledRules. generalize 0%nat as i. generalize false as seen.
  induction l as [|r l IH]; intros seen i; [done|]. cbn [validateLoop]. rewrite validateTree_ext.
  destruct (validateLegacyDNSModeDisabledRuleTree router2 overrides2 r) as [b| |]; simpl; [|done|done].
  by destruct (b && negb seen).
Qed.
End Congruence.

Section Updates.
Context `{E : Externals}.

(** The rule-sets after one got new metadata. *)
Definition setMetadata (md : string -> option RuleSetMetadata) (tag : string) (m : RuleSetMetadata)
    : string -> option RuleSetMetadata :=
  fun t => if decide (t = tag) then Some m else md t.

(** Updates, one after the other; a refused one leaves the rule-set as it is. *)
Fixpoint applyUpdates (r : Router) (md : string -> option RuleSetMetadata) (l : list (string * RuleSetMetadata))
    : string -> option RuleSetMetadata :=
  match l with
  | [] => md
  | (tag, m) :: l =>
      match ValidateRuleSetMetadataUpdate (Some md) r tag m with
      | Ok _ => applyUpdates r (setMetadata md tag m) l
      | _ => applyUpdates r md l
      end
  end.

Lemma lookup_setMetadata md tag m t :
  lookupDNSRuleSetMetadata (Some md) {[tag := m]} t = lookupDNSRuleSetMetadata (Some (setMetadata md tag m)) ∅ t.
Proof.
  unfold lookupDNSRuleSetMetadata, setMetadata. rewrite lookup_empty. destruct (decide (t = tag)) as [->|Hne].
  - by rewrite lookup_singleton_eq.
  - by rewrite lookup_singleton_ne.
Qed.

(** The mode of the running router fits the metadata. *)
Definition modeFits (transport : option (string -> option Managers.Item)) (r : Router) (md : string -> option RuleSetMetadata)
    : Prop :=
  if legacyDNSMode r then exists needed flags, resolveLegacyDNSMode (Some md) ∅ (rawRules r) = Ok (needed, flags) /\ disabled flags = false
  else exists built flags, checkRules transport (Some md) (rawRules r) = Ok (built, false, flags).

Lemma resolve_modes router overrides l legacy flags :
  resolveLegacyDNSMode router overrides l = Ok (legacy, flags) -> legacy = true -> disabled flags = false.
Proof.
  unfold resolveLegacyDNSMode. intros H ->. apply bind_Ok_inv in H as (F & _ & H). destruct (_ && _); [done|].
  destruct (disabled F) eqn:Hd; [done|]. by injection H as _ <-.
Qed.

Lemma checkRules_again transport router router' l built flags flags' :
  checkRules transport router l = Ok (built, false, flags) ->
  resolveLegacyDNSMode router' ∅ l = Ok (false, flags') -> validateLegacyDNSModeDisabledRules router' ∅ l = Ok tt ->
  checkRules transport router' l = Ok (built, false, flags').
Proof.
  unfold checkRules. intros H Hr Hv. apply bind_Ok_inv in H as ([] & -> & H).
  apply bind_Ok_inv in H as ([legacy f] & _ & H). apply bind_Ok_inv in H as ([] & _ & H).
  apply bind_Ok_inv in H as ([] & He & H). apply bind_Ok_inv in H as (rs & Hrs & [= <- -> _]).
  simpl. rewrite Hr. simpl. rewrite Hv. simpl. rewrite He. simpl. by rewrite Hrs.
Qed.

Lemma modeFits_update transport r md tag m :
  started r = true -> closing r = false -> modeFits transport r md ->
  ValidateRuleSetMetadataUpdate (Some md) r tag m = Ok tt -> modeFits transport r (setMetadata md tag m).
Proof.
  intros Hs Hc Hf. unfold ValidateRuleSetMetadataUpdate. rewrite Hs, Hc. destruct (_ =? 0)%nat eqn:Hl.
  - apply Nat.eqb_eq in Hl. apply nil_length_inv in Hl. revert Hf. unfold modeFits. by rewrite Hl.
  - cbn [isNil negb]. rewrite (resolve_ext (Some md) (Some (setMetadata md tag m)) {[tag := m]} ∅ eq_refl (lookup_setMetadata md tag m)).
    rewrite (validateRules_ext (Some md) (Some (setMetadata md tag m)) {[tag := m]} ∅ (lookup_setMetadata md tag m)).
    intros H. apply bind_Ok_inv in H as ([legacy flags] & Hr & H). revert Hf. unfold modeFits. destruct (legacyDNSMode r).
    + intros _. exists legacy, flags. split; [done|]. destruct legacy; [by eapply resolve_modes|].
      destruct (disabled flags); [|done]. simpl in H. by apply bind_Ok_inv in H as ([] & _ & H).
    + intros (built & F & Hb). destruct legacy; [done|]. exists built, flags. by eapply checkRules_again.
Qed.

(** C33: updates of rule-sets keep the mode of the DNS rules.  However often the
    rule-sets of a running router are updated, one after the other, the accepted
    contents leave it in a mode that fits: in the new mode a restart would build the
    same kind of rules from them, and in the legacy mode nothing needs the new one. *)
Theorem rule_set_updates_keep_mode {C} svc transport md (client_Start : C -> C) r0 client sets r client' sets' updates :
  Start svc transport (Some md) client_Start r0 Managers.StartStateStart client sets = (Ok tt, r, client', sets') -> closing r = false ->
  modeFits transport r (applyUpdates r md updates).
Proof.
  intros Hs Hc. destruct (Start_inv _ _ _ _ _ _ _ _ _ _ Hs) as [Hcl|(built & flags & Hb & _ & Hraw & Hst)]; [congruence|].
  assert (modeFits transport r md) as Hf.
  { unfold modeFits. rewrite Hraw. pose proof (checkRules_inv _ _ _ _ _ _ Hb) as (Hm & _).
    destruct (legacyDNSMode r); [|by eauto]. exists true, flags. split; [done|]. by eapply resolve_modes. }
  clear Hs Hb Hraw. revert md Hf. induction updates as [|[tag m] updates IH]; intros md Hf; [done|]. cbn [applyUpdates].
  destruct (ValidateRuleSetMetadataUpdate (Some md) r tag m) as [[]| |] eqn:Hv; apply IH; [|done|done].
  by eapply modeFits_update.
Qed.
End Updates.
