(* ===== verification/DnsRouterRefs.v ===== *)
(** * The DNS router gives rule-sets back

    Starting the rules takes references to rule-sets; a failed start and a close
    leave the counters as they were. *)

From S2P Require Import Prelude GoStd Metadata RuleItems Rules RuleSet RuleSetRefs DnsRules.
From S2P Require Import DnsActions DnsBuild DnsMode DnsBuildFacts Managers TransportManager DnsClient DnsRouter.
From S2P Require Import DnsRouterTheorems.
From stdpp Require Import list.
Import RuleItems Rules RuleSet DnsRules DnsActions DnsBuild DnsMode DnsRouter.

Open Scope Z_scope.

#[local] Abbreviation table := RuleSetRefs.table.
#[local] Abbreviation occ := RuleSetRefs.occ.
#[local] Abbreviation item_Close := RuleSetRefs.item_Close.

(** ** Counters *)

(** Every counter is raised by its occurrences in [l]. *)
Definition raised (sets sets' : table) (l : list string) : Prop :=
  forall tag, sets' !! tag = (fun z => z + occ tag l) <$> sets !! tag.

(** There is room for [n] more references. *)
Definition room (sets : table) (n : nat) : Prop :=
  forall tag z, sets !! tag = Some z -> 0 <= z /\ z + Z.of_nat n < 2 ^ 31.

Definition known (sets : table) (l : list string) : Prop := Forall (fun tag => is_Some (sets !! tag)) l.

Lemma raised_nil sets : raised sets sets [].
Proof. intros tag. destruct (sets !! tag); simpl; [f_equal; change (occ tag []) with 0; lia|done]. Qed.

Lemma raised_app sets sets1 sets2 l1 l2 : raised sets sets1 l1 -> raised sets1 sets2 l2 -> raised sets sets2 (l1 ++ l2).
Proof.
  intros H1 H2 tag. rewrite H2, H1, RuleSetRefs.occ_app. destruct (sets !! tag); simpl; [f_equal; lia|done].
Qed.

Lemma raised_room sets sets' l m n : raised sets sets' l -> (length l <= m)%nat -> room sets (m + n) -> room sets' n.
Proof.
  intros Hr Hl Hroom tag z. rewrite Hr. destruct (sets !! tag) as [w|] eqn:Hw; [|done]. simpl. intros [= <-].
  destruct (Hroom tag w Hw). pose proof (RuleSetRefs.occ_le_length tag l). pose proof (RuleSetRefs.occ_nonneg tag l). lia.
Qed.

Lemma raised_known sets sets' l k : raised sets sets' l -> known sets k <-> known sets' k.
Proof.
  intros Hr. unfold known. apply Forall_iff. intros tag. rewrite Hr. by rewrite fmap_is_Some.
Qed.

(** Giving back what was taken restores the counters. *)
Lemma raised_close sets sets' l :
  raised sets sets' l -> room sets (length l) -> known sets l -> item_Close l sets' = Ok sets.
Proof.
  intros Hr Hroom Hk. destruct (RuleSetRefs.item_Close_spec l sets') as (sets'' & -> & Hs).
  - by apply (raised_known _ _ _ _ Hr).
  - intros tag z. rewrite Hr. destruct (sets !! tag) as [w|] eqn:Hw; [|done]. simpl. intros [= <-].
    destruct (Hroom tag w Hw). pose proof (RuleSetRefs.occ_le_length tag l). lia.
  - f_equal. apply map_eq. intros tag. rewrite Hs, Hr. destruct (sets !! tag); simpl; [f_equal; lia|done].
Qed.

Lemma item_Close_app l1 l2 sets : item_Close (l1 ++ l2) sets = (sets ← item_Close l1 sets; item_Close l2 sets).
Proof.
  revert sets. induction l1 as [|tag l1 IH]; intros sets; [done|]. simpl.
  destruct (RuleSetRefs.DecRef tag sets); simpl; [apply IH|done|done].
Qed.

Lemma item_Start_raised tags sets :
  room sets (length tags) ->
  exists held sets' err, RuleSetRefs.item_Start tags [] sets = Ok (held, sets', err) /\
    raised sets sets' held /\ known sets held /\ (length held <= length tags)%nat.
Proof.
  intros Hroom. destruct (RuleSetRefs.startLoop_spec tags [] sets) as (l & sets' & err & H & Hl & Hs & Hk).
  - done.
  - intros tag z Hz. destruct (Hroom tag z Hz). change (occ tag []) with 0. done.
  - exists l, sets', err. split; [done|]. split; [|split; [done|]].
    + intros tag. rewrite Hs. destruct (sets !! tag); simpl; [f_equal; change (occ tag []) with 0; lia|done].
    + subst l. destruct err; simpl; lia.
Qed.

(** ** Rules *)

Section Rules.
Context `{E : Externals}.
Variable svc : Services.
#[local] Abbreviation rule_t := (DNSRule DNSAction string).

Definition heldItems (l : list (AnyItem string)) : list string := concat (map setList (omap setItem l)).
Fixpoint heldRule (rule : rule_t) : list string :=
  match rule with
  | DefaultDNSRule r _ => heldItems (allItems r)
  | LogicalDNSRule rules _ _ _ => concat (map heldRule rules)
  end.
Definition heldRules (l : list rule_t) : list string := concat (map heldRule l).

(** The references rules can take. *)
Definition tagsItems (l : list (AnyItem string)) : nat := length (concat (map tagList (omap setItem l))).
Fixpoint tagsRule (rule : rule_t) : nat :=
  match rule with
  | DefaultDNSRule r _ => tagsItems (allItems r)
  | LogicalDNSRule rules _ _ _ => sum_list (map tagsRule rules)
  end.
Definition tagsRules (l : list rule_t) : nat := sum_list (map tagsRule l).

(** A start takes the references the started object holds, and at most [n]. *)
Definition takes {X} (start : table -> result (X * table * option error)) (held : X -> list string) (n : nat) : Prop :=
  forall sets, room sets n ->
  exists x sets' err, start sets = Ok (x, sets', err) /\
    raised sets sets' (held x) /\ known sets (held x) /\ (length (held x) <= n)%nat.

Lemma startItems_takes l : heldItems l = [] -> takes (startItems svc l) heldItems (tagsItems l).
Proof.
  unfold heldItems, tagsItems. induction l as [|it l IH]; intros Hh sets Hroom; cbn [startItems].
  { exists [], sets, None. repeat split; [apply raised_nil|constructor|simpl; lia]. }
  destruct it as [item|item]; simpl in Hh, Hroom |- *.
  - destruct (item_Start svc item) as [item' [err|]].
    + exists (Plain item' :: l), sets, (Some err). simpl. rewrite Hh. repeat split; [apply raised_nil|constructor|simpl; lia].
    + destruct (IH Hh sets Hroom) as (l' & sets' & err & -> & Hrest). by exists (Plain item' :: l'), sets', err.
  - apply app_eq_nil in Hh as [Hi Hh]. rewrite length_app in Hroom. rewrite Hi, length_app.
    destruct (item_Start_raised (tagList item) sets) as (held & sets1 & err & -> & Hr & Hk & Hn).
    { intros tag z Hz. destruct (Hroom tag z Hz). lia. }
    simpl. destruct err as [err|].
    + eexists _, sets1, (Some err). split; [done|]. simpl. rewrite Hh, app_nil_r. repeat split; [done|done|lia].
    + destruct (IH Hh sets1) as (l' & sets2 & err & -> & Hr2 & Hk2 & Hn2); [by eapply raised_room|].
      simpl. eexists _, sets2, err. split; [done|]. simpl. split; [by eapply raised_app|].
      split; [|rewrite length_app; unfold omap in *; lia]. apply Forall_app. split; [done|]. by apply (raised_known _ _ _ _ Hr).
Qed.

Lemma startRules_takes start (l : list rule_t) :
  Forall (fun rule => heldRule rule = [] /\ takes (start rule) heldRule (tagsRule rule)) l ->
  takes (startRules start l) heldRules (tagsRules l).
Proof.
  unfold heldRules, tagsRules. induction 1 as [|rule l [Hh Hr] Hl IH]; intros sets Hroom; cbn [startRules].
  { exists [], sets, None. repeat split; [apply raised_nil|constructor|simpl; lia]. }
  simpl in Hroom. assert (concat (map heldRule l) = []) as Hrest.
  { clear -Hl. induction Hl as [|rule l [Hh _] _ IH]; [done|]. simpl. by rewrite Hh, IH. }
  destruct (Hr sets) as (rule' & sets1 & err & -> & Hr1 & Hk1 & Hn1).
  { intros tag z Hz. destruct (Hroom tag z Hz). lia. }
  simpl. destruct err as [err|].
  - eexists _, sets1, (Some err). split; [done|]. simpl. rewrite Hrest, app_nil_r. repeat split; [done|done|lia].
  - destruct (IH sets1) as (l' & sets2 & err & -> & Hr2 & Hk2 & Hn2); [by eapply raised_room|].
    simpl. eexists _, sets2, err. split; [done|]. simpl. split; [by eapply raised_app|].
    split; [|rewrite length_app; lia]. apply Forall_app. split; [done|]. by apply (raised_known _ _ _ _ Hr1).
Qed.

Lemma rule_Start_takes rule : heldRule rule = [] -> takes (rule_Start svc rule) heldRule (tagsRule rule).
Proof.
  induction rule as [r matchResponse|rules IH mode inverted act]; intros Hh sets Hroom; cbn [rule_Start].
  - unfold default_Start. destruct (startItems_takes (allItems r) Hh sets Hroom) as (l & sets' & err & -> & Hl).
    simpl. eexists _, sets', err. split; [done|]. done.
  - apply list_all_Forall in IH. destruct (startRules_takes (rule_Start svc) rules) with (sets := sets)
      as (rules' & sets' & err & -> & Hl).
    + simpl in Hh. clear Hroom. revert Hh. induction IH as [|rule rules Hr _ IHr]; intros Hh; [done|]. simpl in Hh.
      apply app_eq_nil in Hh as [H1 H2]. constructor; [by split; [|apply Hr]|by apply IHr].
    + done.
    + simpl. eexists _, sets', err. split; [done|]. done.
Qed.

(** The loop of the router is that of a logical rule, with other errors. *)
Lemma startAll_startRules i (l l' : list rule_t) sets sets' err :
  startRules (rule_Start svc) l sets = Ok (l', sets', err) ->
  exists err', startAll svc i l sets = Ok (l', sets', err').
Proof.
  revert i sets l'. induction l as [|rule l IH]; intros i sets l'; cbn [startRules startAll]; [by intros [= <- <- <-]; eauto|].
  destruct (rule_Start svc rule sets) as [[[rule' s] [e|]]| |]; simpl; [by intros [= <- <- <-]; eauto| |done|done].
  intros H. apply bind_Ok_inv in H as ([[l1 s1] e1] & Hl & [= <- <- <-]). destruct (IH (S i) _ _ Hl) as [err' ->].
  simpl. eauto.
Qed.

Lemma closeItems_held l sets : closeItems l sets = item_Close (heldItems l) sets.
Proof.
  unfold heldItems. revert sets. induction l as [|[item|item] l IH]; intros sets; [done|apply IH|]. simpl.
  rewrite item_Close_app. destruct (item_Close (setList item) sets); simpl; [apply IH|done|done].
Qed.

Lemma rule_Close_held (rule : rule_t) sets : rule_Close rule sets = item_Close (heldRule rule) sets.
Proof.
  revert sets. induction rule as [r matchResponse|rules IH mode inverted act]; intros sets; cbn [rule_Close heldRule].
  - apply closeItems_held.
  - apply list_all_Forall in IH. revert sets. induction IH as [|rule rules Hr _ IHr]; intros sets; [done|]. simpl.
    rewrite item_Close_app, Hr. destruct (item_Close (heldRule rule) sets); simpl; [apply IHr|done|done].
Qed.

Lemma closeRules_held (l : list rule_t) sets : closeRules rule_Close l sets = item_Close (heldRules l) sets.
Proof.
  unfold heldRules. revert sets. induction l as [|rule l IH]; intros sets; [done|]. simpl.
  rewrite item_Close_app, rule_Close_held. destruct (item_Close (heldRule rule) sets); simpl; [apply IH|done|done].
Qed.

(** New rules hold nothing, and can take the references their options name. *)
Fixpoint rawTags (r : DNSRuleOptions) : nat :=
  match r with
  | mkDNSRule _ o _ _ subs _ _ => length (HeadlessOptions.elems (d_RuleSet o)) + sum_list (map rawTags subs)
  end.

Lemma builtFrom_fresh r (rule : rule_t) : builtFrom r rule -> heldRule rule = [] /\ (tagsRule rule <= rawTags r)%nat.
Proof.
  revert rule. induction r as [type_ o a mode subs IH inverted la]; intros rule Hb. apply list_all_Forall in IH.
  inversion Hb as [? ? ? ? ? ? ? act d Ht Ha Hf|? ? ? ? ? ? act rules Ha Hs]; subst; cbn [heldRule tagsRule rawTags].
  - unfold heldItems, tagsItems. rewrite (fin_sets _ _ _ Hf). destruct (nonempty _); simpl; [|split; [done|lia]].
    rewrite app_nil_r. split; [done|lia].
  - clear Hb Ha. assert (concat (map heldRule rules) = [] /\ (sum_list (map tagsRule rules) <= sum_list (map rawTags subs))%nat) as [? ?].
    { revert IH. induction Hs as [|r rule subs rules Hr _ IHs]; intros IH; [done|]. inversion_clear IH as [|? ? IHr IH']. simpl.
      destruct (IHr rule Hr) as [-> ?]. destruct (IHs IH') as [-> ?]. split; [done|lia]. }
    split; [done|lia].
Qed.
End Rules.

(** ** The router *)

Lemma room_le sets m n : (m <= n)%nat -> room sets n -> room sets m.
Proof. intros Hmn Hroom tag z Hz. destruct (Hroom tag z Hz). lia. Qed.

(** What building the rules takes, and that a failure takes nothing. *)
Lemma buildRules_takes `{E : Externals} svc transport router l sets :
  room sets (sum_list (map rawTags l)) ->
  match buildRules svc transport router l true sets with
  | (Ok (rules, _, _), sets') => raised sets sets' (heldRules rules) /\ known sets (heldRules rules) /\ room sets (length (heldRules rules))
  | (_, sets') => sets' = sets
  end.
Proof.
  intros Hroom. unfold buildRules. destruct (checkRules transport router l) as [[[built legacy] flags]| |] eqn:Hb; [|done|done].
  apply checkRules_inv in Hb as (_ & _ & _ & Hn).
  assert (Forall (fun rule => heldRule rule = [] /\ takes (rule_Start svc rule) heldRule (tagsRule rule)) built /\
          (tagsRules built <= sum_list (map rawTags l))%nat) as [Hfresh Htags].
  { unfold tagsRules. induction Hn as [|r rule l built Hr _ IH]; [done|]. apply NewDNSRule_from in Hr as [Hr _].
    apply builtFrom_fresh in Hr as [Hh Ht]. destruct IH as [IH1 IH2].
    { eapply room_le; [|exact Hroom]. simpl. lia. }
    split; [|simpl; lia]. constructor; [|done]. split; [done|]. by apply rule_Start_takes. }
  destruct (startRules_takes _ _ Hfresh sets (room_le _ _ _ Htags Hroom)) as (rules & sets' & err & Hs & Hr & Hk & Hlen).
  destruct (startAll_startRules svc 0 _ _ _ _ _ Hs) as [[e|] ->].
  - rewrite closeRules_held. rewrite (raised_close sets sets'); [done|done| |done]. eapply room_le; [|exact Hroom]. lia.
  - split; [done|split; [done|]]. eapply room_le; [|exact Hroom]. lia.
Qed.

(** C34: the DNS router gives rule-sets back.  A start that fails, or that ends after
    the router was closed, leaves every counter of the rule-sets as it was; after a
    start that succeeds, closing the router restores them, and closing it again
    changes nothing. *)
Theorem dns_router_releases_rule_sets `{E : Externals} {C} svc transport router (client_Start : C -> C) r client sets :
  room sets (sum_list (map rawTags (rawRules r))) -> rules r = [] ->
  let '(out, r', _, sets') := Start svc transport router client_Start r Managers.StartStateStart client sets in
  (closing r = true \/ out <> Ok tt -> sets' = sets) /\
  (exists r'', Close r' sets' = (Ok tt, r'', sets) /\ rules r'' = [] /\ closing r'' = true /\
     forall sets2, Close r'' sets2 = (Ok tt, r'', sets2)).
Proof.
  intros Hroom Hrules. pose proof (buildRules_takes svc transport router (rawRules r) sets Hroom) as Hb.
  assert (forall r' sets, rules r' = [] -> exists r'', Close r' sets = (Ok tt, r'', sets) /\ rules r'' = [] /\ closing r'' = true /\
     forall sets2, Close r'' sets2 = (Ok tt, r'', sets2)) as Hempty.
  { intros r' s Hr'. unfold Close. destruct (closing r') eqn:Hc.
    - exists r'. by rewrite Hc.
    - rewrite Hr'. eexists. split; [done|]. done. }
  unfold Start, initializeRules. rewrite bool_decide_true by done.
  destruct (buildRules svc transport router (rawRules r) true sets) as [[[[built legacy] flags]|e|msg] sets'];
    [|subst sets'; split; [done|by apply Hempty]|subst sets'; split; [done|by apply Hempty]].
  destruct Hb as (Hr & Hk & Hroom'). pose proof (raised_close _ _ _ Hr Hroom' Hk) as Hclose.
  unfold publish. destruct (closing r) eqn:Hc.
  - rewrite closeRules_held, Hclose. split; [done|by apply Hempty].
  - split; [by intros [?|?]|]. unfold Close. cbn [closing rules]. rewrite closeRules_held, Hclose. eexists. split; [done|]. done.
Qed.
