(* ===== verification/DnsSystem.v ===== *)
(** * The DNS router with its client

    [serve] answers the calls of the router by the client, which asks servers that
    answer anything at any time; the other calls are answered by an arbitrary
    handler.  With the cache disabled, what the legacy mode answers from a rule with
    an address limit has passed it. *)

From S2P Require Import Prelude GoStd Metadata MatchState RuleItems Rules RuleFacts RuleActions.
From S2P Require Import DnsRules DnsMessage DnsActions DnsBuild Managers TransportManager DnsClient DnsClientTheorems.
From S2P Require Import DnsRouter DnsRouterTheorems.
From stdpp Require Import list.
Import MatchState RuleItems Rules RuleActions DnsRules DnsMessage DnsActions DnsBuild Managers DnsClient DnsRouter.

Open Scope N_scope.

Section System.
Context `{E : Externals} `{DnsLib} {L R D : Type} `{FreeLRU L} `{RDRCStore R} `{DNSCacheStore D} {W : Type}.

(** The client, the number of calls made so far, and the state of the rest. *)
Record World : Type := mkWorld { w_client : Client (L := L) (R := R) (D := D); w_tick : nat; w_other : W }.

(** The time of a call, what a server answers then, the server in whose context the
    query runs, and the error of a group of queries. *)
Variable clock : nat -> Z.
Variable server : Item -> nat -> Msg -> result Msg.
Variable contextTransport : option string.
Variable groupError : error -> option error -> error.
Variable ipv6First : bool.
Variable other : forall q, W -> answer q * W.

Definition nilTransport : string := "invalid memory address or nil pointer dereference".

(** An exchange without a server gets as far as its first use. *)
Definition exchangeNil (message : Msg) (options : DNSQueryOptions) : result Msg :=
  match Questions message with
  | [] => Ok (FixedResponseStatus message RcodeFormatError)
  | question :: _ => if excluded question options then Ok (FixedResponseStatus message RcodeSuccess) else Panic nilTransport
  end.

(** A background refresh that an exchange starts is not part of the answer. *)
Definition serve (q : request) : World -> answer q * World :=
  match q return World -> answer q * World with
  | ReqExchange transport message options check => fun w =>
      match transport with
      | Some it =>
          let '(r, c, _) := DnsClient.Exchange (w_client w) (clock (w_tick w)) (clock (S (w_tick w))) contextTransport it message options check
                              (server it (w_tick w)) in
          (r, mkWorld c (S (w_tick w)) (w_other w))
      | None => (exchangeNil message options, mkWorld (w_client w) (S (w_tick w)) (w_other w))
      end
  | ReqLookup transport domain options check => fun w =>
      match transport with
      | Some it =>
          let '(r, c) := DnsClient.Lookup groupError (w_client w) (clock (w_tick w)) (fun _ => clock (S (w_tick w))) contextTransport it domain options check
                           (server it (w_tick w)) ipv6First in
          (r, mkWorld c (S (w_tick w)) (w_other w))
      | None => (Panic nilTransport, mkWorld (w_client w) (S (w_tick w)) (w_other w))
      end
  | ReqClearCache => fun w => (tt, mkWorld (DnsClient.ClearCache (w_client w)) (S (w_tick w)) (w_other w))
  | q => fun w => let '(x, o) := other q (w_other w) in (x, mkWorld (w_client w) (S (w_tick w)) o)
  end.

(** ** The client without its cache *)

Lemma Exchange_uncached (c c' : Client (L := L) (R := R) (D := D)) now later it message question rest options check query r refresh :
  disableCache c = true -> Questions message = question :: rest ->
  DnsClient.Exchange c now later contextTransport it message options check query = (r, c', refresh) ->
  disableCache c' = true /\ clientSubnet c' = clientSubnet c /\
  forall response, r = Ok response ->
    response = FixedResponseStatus message RcodeSuccess \/
    exists raw, exchangeToTransport query (prepareExchangeMessage c message options) = Ok raw /\
      rejects check raw = false /\ response = answered (prepareExchangeMessage c message options) question options raw.
Proof.
  intros Hd Hq. unfold DnsClient.Exchange. rewrite Hq. destruct (excluded question options).
  { intros [= <- <- _]. repeat split; [done|]. intros response [= <-]. by left. }
  set (message' := prepareExchangeMessage c message options). rewrite Hd, orb_true_r, orb_true_l. cbv iota zeta beta.
  unfold exchangeUncached. case_bool_decide; [by intros [= <- <- _]|].
  replace (match rdrc c with Some r => _ | None => _ end) with (false, c) by (by destruct (rdrc c)). cbv iota beta.
  destruct (exchangeToTransport query message') as [raw| |] eqn:Hraw; [|by intros [= <- <- _]|by intros [= <- <- _]].
  rewrite orb_true_l. cbv iota zeta beta. cbn [negb]. destruct (rejects check raw) eqn:Hr; [by intros [= <- <- _]|].
  destruct (applyResponseOptions question raw options) as [response ttl] eqn:Ha. intros [= <- <- _].
  repeat split; [done|]. intros response' [= <-]. right. exists raw. split; [done|]. split; [done|].
  unfold answered. by rewrite Ha.
Qed.
End System.

(** ** The metadata a rule is checked with *)

(** The metadata of a query without what the evaluation of rules leaves in it. *)
Definition queryView (md : InboundContext) : InboundContext :=
  let md := ResetRuleCache md in
  {| md with DestinationAddressMatchFromResponse := false; IgnoreDestinationIPCIDRMatch := false |}.

Section Metadata.
Context `{E : Externals}.
Variable net : Network.
Variable sets : string -> InboundContext -> ruleMatchState -> ruleMatchStateSet.
Variable cidr : string -> bool.
Variable manager : TransportManager.TransportManager.
#[local] Abbreviation rule_t := (DNSRule DNSAction string).

Lemma default_matchStates_metadata (r : abstractDefaultRule DNSAction string) md base :
  exists b, (default_matchStatesWithBase net sets r md base).2 = setDidMatchIf b md.
Proof.
  unfold default_matchStatesWithBase. destruct (_ =? 0)%nat; [exists false; by rewrite setDidMatchIf_false|]. cbv iota zeta.
  rewrite matchGroup_eq. change ruleMatchSourceAddress with (2 ^ 0). rewrite matchIPCIDRGroup_eq.
  rewrite matchGroup_eq, matchGroup_eq. change ruleMatchDestinationAddress with (2 ^ 2). rewrite matchIPCIDRGroup_eq.
  rewrite matchGroup_eq, matchItems_eq. cbn [fst snd]. rewrite !setDidMatchIf_twice.
  destruct (negb _); [eexists; done|]. destruct (ruleSetItem r); rewrite ?setDidMatch_If;
    (destruct (isEmpty _); [eexists; done|]); (destruct (invert r); [|eexists; done]); by destruct (_ && _); eexists.
Qed.

(** Matching leaves the metadata of the query behind. *)
Lemma PreMatch_metadata (rule : rule_t) md m ok md' :
  m = (let m := ResetRuleCache md in {| m with DestinationAddressMatchFromResponse := false |}) ->
  LegacyPreMatch net sets rule m = (ok, md') ->
  queryView md' = queryView md /\ (ok = true -> exists b, md' = setDidMatchIf b (queryView md)).
Proof.
  intros Hm. destruct rule as [r [|]|rules mode inverted act]; cbn [LegacyPreMatch].
  - intros [= <- <-]. split; [by rewrite Hm|done].
  - set (m1 := {| m with IgnoreDestinationIPCIDRMatch := true |}).
    destruct (default_matchStates_metadata r m1 0) as [b Hb].
    destruct (default_matchStatesWithBase net sets r m1 0) as [s m2]. cbn [snd] in Hb. subst m2.
    intros [= _ <-]. split; [by rewrite Hm|]. exists b. by rewrite Hm.
  - intros [= _ <-]. split; [by rewrite Hm|]. exists false. by rewrite Hm, setDidMatchIf_false.
Qed.

Lemma logical_ResetRuleCache {B} (nested : B -> InboundContext -> ruleMatchState -> ruleMatchStateSet) rules mode inverted md md' base :
  ResetRuleCache md = ResetRuleCache md' ->
  logical_matchStatesWithBase nested rules mode inverted md base = logical_matchStatesWithBase nested rules mode inverted md' base.
Proof.
  intros Hmd. unfold logical_matchStatesWithBase, logicalOr. rewrite Hmd. case_bool_decide; [|done].
  assert (forall base s, logicalAnd nested rules md base s = logicalAnd nested rules md' base s) as ->; [|done].
  intros b. induction rules as [|rule rules IH]; intros s; simpl; [done|]. rewrite Hmd. by destruct (isEmpty _).
Qed.

Lemma reached_DidMatch (r : abstractDefaultRule DNSAction string) b md base :
  reached net sets r (setDidMatchIf b md) base = reached net sets r md base.
Proof.
  unfold reached, baseState. rewrite !matchAnyItem_DidMatch, matchesSource_DidMatch, matchesDestination_DidMatch, forallb_DidMatch.
  by destruct (ruleSetItem r); rewrite ?ruleSetItem_DidMatch, allowed_DidMatch.
Qed.

(** The check of a rule does not depend on what its evaluation left. *)
Lemma MatchAddressLimit_DidMatch (rule : rule_t) b md response :
  MatchAddressLimit net sets rule (setDidMatchIf b (queryView md)) response
  = MatchAddressLimit net sets rule (queryView md) response.
Proof.
  unfold MatchAddressLimit. f_equal. f_equal.
  destruct rule as [r mr|rules mode inverted act]; cbn [erase]; unfold matchStates; cbn [matchStatesWithBase].
  - change (responseMetadata (setDidMatchIf b (queryView md)) response) with (setDidMatchIf b (responseMetadata (queryView md) response)).
    destruct (decide (allItems r = [])) as [Hn|Hn].
    + unfold default_matchStatesWithBase. by rewrite Hn.
    + rewrite !default_matchStates_eq by done. unfold deferred. by rewrite !reached_DidMatch.
  - by apply logical_ResetRuleCache.
Qed.

Lemma queryView_again b md : queryView (setDidMatchIf b (queryView md)) = queryView md.
Proof. done. Qed.

(** What [matchDNS] returns for a rule that names a server. *)
Lemma matchLoop_matched l index allow query md o i rule :
  let m := matchLoop net sets cidr manager l index allow query md o in
  m_rule m = Some (i, rule) ->
  (exists b, m_metadata m = setDidMatchIf b (queryView md)) /\
  forall it, m_transport m = Some it ->
    exists server a, dns_Action rule = Some (ActionDNSRoute server a) /\ TransportManager.Transport manager server = Some it.
Proof.
  cbv zeta. revert index md o. induction l as [|r l IH]; intros index md o; [done|]. cbn [matchLoop].
  destruct (_ && _); [apply IH|]. destruct (LegacyPreMatch _ _ _ _) as [ok md'] eqn:Hp.
  destruct (PreMatch_metadata r md _ ok md' eq_refl Hp) as [Hview Hmd]. rewrite <- Hview. destruct ok; simpl; [|apply IH].
  assert (forall t o, m_rule (mkMatched t (Some (index, r)) o md') = Some (i, rule) ->
    exists b, m_metadata (mkMatched t (Some (index, r)) o md') = setDidMatchIf b (queryView md')) as Hhere.
  { intros t o' _. destruct (Hmd eq_refl) as [b Hb]. exists b. simpl. by rewrite Hview. }
  destruct (dns_Action r) as [[server a| | | | |]|] eqn:Ha; try apply IH; try (intros Hr; split; [by eapply Hhere|done]).
  destruct (TransportManager.Transport manager server) as [t|] eqn:Ht; [|apply IH].
  destruct (_ && _); [apply IH|]. intros Hr. split; [by eapply Hhere|]. injection Hr as <- <-. simpl. intros it [= <-]. eauto.
Qed.

Lemma matchDNS_matched l allow ruleIndex query md o i rule :
  let m := matchDNS net sets cidr manager l allow ruleIndex query md o in
  m_rule m = Some (i, rule) ->
  l !! i = Some rule /\ (exists b, m_metadata m = setDidMatchIf b (queryView md)) /\
  forall it, m_transport m = Some it ->
    exists server a, dns_Action rule = Some (ActionDNSRoute server a) /\ TransportManager.Transport manager server = Some it.
Proof.
  cbv zeta. intros Hm. pose proof (matchDNS_rule _ _ _ _ _ _ _ _ _ _ _ _ Hm) as [_ Hl]. split; [done|].
  exact (matchLoop_matched _ _ _ _ _ _ i rule Hm).
Qed.

Lemma matchLoop_default l index allow query md o :
  let m := matchLoop net sets cidr manager l index allow query md o in
  m_rule m = None -> m_transport m = TransportManager.defaultTransport manager.
Proof.
  cbv zeta. revert index md o. induction l as [|r l IH]; intros index md o; [done|]. cbn [matchLoop].
  destruct (_ && _); [apply IH|]. destruct (LegacyPreMatch _ _ _ _) as [[|] md']; simpl; [|apply IH].
  destruct (dns_Action r) as [[server a| | | | |]|]; try apply IH; try done.
  destruct (TransportManager.Transport manager server); [|apply IH]. by destruct (_ && _); [apply IH|].
Qed.
End Metadata.

(** ** Answers of the legacy mode *)

Section Limit.
Context `{E : Externals} `{DnsLib} {L R D : Type} `{FreeLRU L} `{RDRCStore R} `{DNSCacheStore D} {W : Type}.
Variable clock : nat -> Z.
Variable server : Item -> nat -> Msg -> result Msg.
Variable contextTransport : option string.
Variable groupError : error -> option error -> error.
Variable ipv6First : bool.
Variable other : forall q, W -> answer q * W.
#[local] Abbreviation run := (serve (L := L) (R := R) (D := D) clock server contextTransport groupError ipv6First other).
Variable net : Network.
Variable sets : string -> InboundContext -> ruleMatchState -> ruleMatchStateSet.
Variable cidr : string -> bool.
Variable manager : TransportManager.TransportManager.
Variable strategy : N.
#[local] Abbreviation rule_t := (DNSRule DNSAction string).
#[local] Abbreviation client_t := (Client (L := L) (R := R) (D := D)).

(** A rule answers by itself. *)
Definition byRule (l : list rule_t) (message response : Msg) : Prop :=
  exists i rule, l !! i = Some rule /\
    match dns_Action rule with
    | Some (ActionDNSReject _) => refused message = Ok response
    | Some (ActionPredefined a) => predefined_Response a message = Ok response
    | _ => False
    end.

(** The answer is made of the response of the server of a rule, which passed the
    address limit of the rule, or of the default server. *)
Definition byServer (l : list rule_t) (c : client_t) (md : InboundContext) (message : Msg) (question : Question) (response : Msg)
    : Prop :=
  exists it tick options raw,
    exchangeToTransport (server it tick) (prepareExchangeMessage c message options) = Ok raw /\
    response = answered (prepareExchangeMessage c message options) question options raw /\
    (TransportManager.defaultTransport manager = Some it \/
     exists i rule name a, l !! i = Some rule /\ dns_Action rule = Some (ActionDNSRoute name a) /\
       TransportManager.Transport manager name = Some it /\
       (withAddressLimit cidr rule = true -> MatchAddressLimit net sets rule (queryView md) (Some raw) = true)).

Definition explained l c md message question response : Prop :=
  byRule l message response \/ response = FixedResponseStatus message RcodeSuccess \/ byServer l c md message question response.

Definition exchangedOk (e : option exchanged) (response : Msg) : Prop :=
  match e with
  | Some (Returned r) | Some (Done r _) => r = Ok response
  | None => False
  end.

Lemma prepare_subnet (c c' : client_t) message options :
  clientSubnet c' = clientSubnet c -> prepareExchangeMessage c' message options = prepareExchangeMessage c message options.
Proof. unfold prepareExchangeMessage. by intros ->. Qed.

Lemma byServer_subnet l c c' md message question response :
  clientSubnet c' = clientSubnet c -> byServer l c' md message question response -> byServer l c md message question response.
Proof.
  intros Hc (it & tick & options & raw & Hraw & -> & Hor). exists it, tick, options, raw.
  rewrite (prepare_subnet c c') in Hraw |- * by done. done.
Qed.

Lemma exchangeLoop_explained fuel l message question o md idx w out w' response :
  Questions message = [question] -> disableCache (w_client w) = true ->
  exec run (exchangeLoop net sets cidr manager strategy fuel l message o md idx) w = (out, w') -> exchangedOk out response ->
  explained l (w_client w) md message question response.
Proof.
  intros Hq. revert md idx w. induction fuel as [|fuel IH]; intros md idx w Hd; [by intros [= <- <-]|]. cbn [exchangeLoop].
  set (m := matchDNS _ _ _ _ _ _ _ _ _ _). destruct (legacyVerdict (m_rule m) message) as [e|] eqn:Hv.
  { intros [= <- <-] Hok. left. destruct (m_rule m) as [[i rule]|] eqn:Hr; [|done].
    apply matchDNS_matched in Hr as [Hl _]. exists i, rule. split; [done|]. simpl in Hv.
    destruct (dns_Action rule) as [[]|]; try done.
    - destruct (bool_decide _); [injection Hv as <-; done|]. destruct (bool_decide _); [injection Hv as <-; done|done].
    - by injection Hv as <-. }
  set (check := addressLimitResponseCheck _ _ _ _ _). cbn [exec serve]. destruct (m_transport m) as [it|] eqn:Ht.
  - destruct (DnsClient.Exchange _ _ _ _ _ _ _ _ _) as [[r c'] refresh] eqn:Hx.
    apply (Exchange_uncached _ _ _ _ _ _ _ question []) in Hx as (Hd' & Hsub & Hresp); [|done|done].
    destruct (_ && _) eqn:Hcont.
    + intros Hrun Hok. apply IH in Hrun; [|done|done]. simpl in Hrun. apply andb_true_iff in Hcont as [Hc _].
      destruct (m_rule m) as [[i rule]|] eqn:Hr; [|done]. apply matchDNS_matched in Hr as (_ & (b & Hb) & _). fold m in Hb.
      destruct Hrun as [?|[?|Hs]]; [by left|by right; left|right; right]. apply (byServer_subnet _ _ c'); [done|].
      revert Hs. unfold byServer. by rewrite Hb, queryView_again.
    + cbn [exec]. intros [= <- <-] Hok. simpl in Hok. destruct (Hresp _ Hok) as [->|(raw & Hraw & Hrej & ->)]; [by right; left|].
      right; right. exists it, (w_tick w), (withDefaultStrategy strategy (m_options m)), raw. split; [done|]. split; [done|].
      destruct (m_rule m) as [[i rule]|] eqn:Hr; [right|left; rewrite <- Ht; symmetry; by apply matchLoop_default].
      apply matchDNS_matched in Hr as (Hl & (b & Hb) & Hroute). fold m in Hb, Hroute.
      destruct (Hroute it Ht) as (name & a & Ha & Hn). exists i, rule, name, a. repeat split; [done|done|done|]. intros Hw.
      unfold check in Hrej. simpl in Hrej. rewrite Hw in Hrej. simpl in Hrej. destruct (cacheable raw); [|done].
      apply negb_false_iff in Hrej. by rewrite Hb, MatchAddressLimit_DidMatch in Hrej.
  - unfold exchangeNil. rewrite Hq. destruct (excluded _ _); rewrite andb_false_r; cbn [exec]; intros [= <- <-]; [|done].
    intros [= <-]. by right; left.
Qed.

Lemma finish_response mapping e : leaves (fun r => r = match e with Returned r | Done r _ => r end) (finish mapping e).
Proof.
  destruct e as [r|[response|err|msg] transport]; simpl; try done. destruct (_ && _); [|done].
  induction (omap reverseMapping (Answer response)) as [|[[address domain] lifetime] l IH]; simpl; [done|by intros _].
Qed.

End Limit.
