(* ===== verification/DnsRouterSamples.v ===== *)
(** * The DNS router on concrete configurations

    Witnesses of the theorems on the router, and configurations on which it does
    something else than its documentation or comments say. *)

From S2P Require Import Prelude GoStd Metadata Instances MatchState RuleItems Rules HeadlessOptions.
From S2P Require Import RuleActions RuleSet RuleSetRefs DnsRules DnsMessage DnsActions DnsBuild DnsMode.
From S2P Require Import DnsBuildFacts Managers TransportManager DnsClient DnsClientTheorems DnsRouter DnsRouterTheorems.
From S2P Require Import DnsModeTheorems DnsRouterRefs DnsSystem.
From stdpp Require Import list.
From Stdlib Require Import Strings.Byte.
Import netip MatchState RuleItems RuleActions RuleSet DnsRules DnsMessage DnsActions DnsBuild DnsMode Managers DnsClient DnsRouter Rules.

Open Scope N_scope.

#[local] Existing Instance sampleExternals.

(** ** Configurations *)

Definition noOptions : DNSRouteOptionsActionOptions := mkDNSRouteOptionsOptions 0 0 false false None None.
Definition sampleDNSAction (type_ server : string) (o : DNSRouteOptionsActionOptions) : DNSRuleAction :=
  mkDNSRuleAction type_ (server, noOptions) o (mkReject "" false) (mkPredefinedOptions None None None None).
Definition noAction : DNSRuleAction := sampleDNSAction "" "" noOptions.
Definition sampleRule (o : RawDefaultDNSRule) (a : DNSRuleAction) : DNSRuleOptions :=
  mkDNSRule RuleTypeDefault o a "" [] false noAction.

(** Any query; queries with a private address; queries of a rule-set. *)
Definition onNetwork : RawDefaultDNSRule := let o := RawDefaultDNSRuleZero in {| o with d_Network := Some ["udp"] |}.
Definition onPrivate : RawDefaultDNSRule := let o := RawDefaultDNSRuleZero in {| o with d_IPIsPrivate := true |}.
Definition onRuleSet (tag : string) (matchSource : bool) : RawDefaultDNSRule :=
  let o := RawDefaultDNSRuleZero in {| o with d_RuleSet := Some [tag]; d_RuleSetIPCIDRMatchSource := matchSource |}.
Definition onResponse : RawDefaultDNSRule :=
  let o := RawDefaultDNSRuleZero in {| o with d_IPIsPrivate := true; d_MatchResponse := true |}.

Definition serverA : Item := mkItem 1 "udp" "a" [].
Definition serverB : Item := mkItem 2 "udp" "b" [].
Definition serverF : Item := mkItem 3 "fakeip" "f" [].
Definition sampleManager : TransportManager.TransportManager :=
  TransportManager.mkTransportManager "" true StartStatePostStart [serverA; serverB; serverF]
    {["a" := serverA; "b" := serverB; "f" := serverF]} ∅ (Some serverB) (Some serverF).
Definition sampleServices : Services := mkServices false (fun _ => None) (fun _ => None).

(** The rule-set [s] has domains. *)
Definition domains : RuleSetMetadata := mkRuleSetMetadata false false false false true.
Definition addresses : RuleSetMetadata := mkRuleSetMetadata false false true false false.
Definition mixed : RuleSetMetadata := mkRuleSetMetadata false false true false true.
Definition queryTypes : RuleSetMetadata := mkRuleSetMetadata false false false true true.
Definition sampleSets (m : RuleSetMetadata) : string -> option RuleSetMetadata :=
  fun tag => if decide (tag = "s") then Some m else None.

Abbreviation sampleClient := (Client (L := mapLRU) (R := unit) (D := unit)).
Definition uncachedClient : sampleClient := NewClient 0 true false 0 PrefixZero true.
Definition startClient (c : sampleClient) : sampleClient := DnsClient.Start c None None.

Definition sampleRouter (l : list DNSRuleOptions) : Router := mkRouter l [] 0 false false false false false.
Definition startSample (m : RuleSetMetadata) (l : list DNSRuleOptions) (sets : RuleSetRefs.table)
    : result unit * Router * sampleClient * RuleSetRefs.table :=
  Start sampleServices (Some (TransportManager.Transport sampleManager)) (Some (sampleSets m)) startClient (sampleRouter l)
    StartStateStart uncachedClient sets.

(** The legacy mode: private addresses come from [a]. *)
Definition legacyRules : list DNSRuleOptions := [sampleRule onPrivate (sampleDNSAction "route" "a" noOptions)].
(** The new mode: [a] is evaluated, and its private addresses are the answer. *)
Definition newModeRules : list DNSRuleOptions :=
  [sampleRule (onRuleSet "s" false) (sampleDNSAction "evaluate" "a" noOptions);
   sampleRule onResponse (sampleDNSAction "respond" "" noOptions)].

(** A start that succeeds. *)
Definition startedTable : RuleSetRefs.table := {["s" := 0%Z]}.
Definition startNew : result unit * Router * sampleClient * RuleSetRefs.table := startSample domains newModeRules startedTable.
Definition routerNew : Router := startNew.1.1.2.
Lemma start_eq (p : result unit * Router * sampleClient * RuleSetRefs.table) : p.1.1.1 = Ok tt -> p = (Ok tt, p.1.1.2, p.1.2, p.2).
Proof. by destruct p as [[[out r] c] sets]; simpl; intros ->. Qed.
Lemma startNew_ok : startNew.1.1.1 = Ok tt.
Proof. vm_compute. reflexivity. Qed.

(** ** Witnesses *)

Lemma dns_lookup_avoids_fakeip_witness :
  asks (usesServer (fun it => isFakeIP it = false \/ None = Some it))
    (Lookup sampleNetwork (fun _ _ _ => 1) (fun _ => false) sampleManager 0 (fun e _ => e) [false]
       routerNew InboundContextZero "a" plainOptions).
Proof.
  refine (dns_lookup_avoids_fakeip sampleServices (Some (sampleSets domains)) sampleManager startClient
    (sampleRouter newModeRules) uncachedClient startedTable routerNew startNew.1.2 startNew.2 sampleNetwork (fun _ _ _ => 1) (fun _ => false) 0 (fun e _ => e) [false] InboundContextZero
    "a" plainOptions _ _).
  - exact (start_eq startNew startNew_ok).
  - intros it [= <-]. reflexivity.
Defined.

Definition checkedNew : result (list (DNSRule DNSAction string) * bool * dnsRuleModeFlags) :=
  checkRules (Some (TransportManager.Transport sampleManager)) (Some (sampleSets domains)) newModeRules.
Definition okOr {A} (a : A) (r : result A) : A := match r with Ok x => x | _ => a end.
Definition noRules : list (DNSRule DNSAction string) * bool * dnsRuleModeFlags := ([], true, mkFlags false false false).
Lemma checked_eq r : (okOr noRules r).1.2 = false -> r = Ok ((okOr noRules r).1.1, false, (okOr noRules r).2).
Proof. destruct r as [[[l legacy] flags]| |]; simpl; [by intros ->|done|done]. Qed.
Lemma checkedNew_mode : (okOr noRules checkedNew).1.2 = false.
Proof. vm_compute. reflexivity. Qed.

Lemma dns_modes_honour_rules_witness :
  Forall (fun rule =>
    allDefaults (fun d matchResponse => matchResponse = true \/ readsNothing d /\ destinationIPCIDRItems d = []) rule /\
    newAction (dns_Action rule)) (okOr noRules checkedNew).1.1.
Proof.
  exact (proj1 (dns_modes_honour_rules (Some (TransportManager.Transport sampleManager)) (Some (sampleSets domains)) newModeRules
    (okOr noRules checkedNew).1.1 false (okOr noRules checkedNew).2 (checked_eq checkedNew checkedNew_mode))).
Defined.

(** An update of [s] to addresses only is refused, one to a mixed content accepted. *)
Lemma rule_set_updates_keep_mode_witness :
  applyUpdates routerNew (sampleSets domains) [("s", addresses); ("s", mixed)] "s" = Some mixed /\
  modeFits (Some (TransportManager.Transport sampleManager)) routerNew
    (applyUpdates routerNew (sampleSets domains) [("s", addresses); ("s", mixed)]).
Proof.
  split; [vm_compute; reflexivity|].
  refine (rule_set_updates_keep_mode sampleServices (Some (TransportManager.Transport sampleManager)) (sampleSets domains)
    startClient (sampleRouter newModeRules) uncachedClient startedTable routerNew startNew.1.2 startNew.2 [("s", addresses); ("s", mixed)] _ _).
  - exact (start_eq startNew startNew_ok).
  - vm_compute. reflexivity.
Defined.

Lemma dns_router_releases_rule_sets_witness :
  exists r, Close routerNew startNew.2 = (Ok tt, r, startedTable) /\ rules r = [].
Proof.
  assert (room startedTable (sum_list (map rawTags newModeRules))) as Hroom.
  { intros tag z Hz. unfold startedTable in Hz. apply lookup_singleton_Some in Hz as [<- <-]. vm_compute. done. }
  pose proof (dns_router_releases_rule_sets sampleServices (Some (TransportManager.Transport sampleManager))
    (Some (sampleSets domains)) startClient (sampleRouter newModeRules) uncachedClient startedTable Hroom eq_refl) as H.
  change (Start _ _ _ _ _ _ _ _) with startNew in H. rewrite (start_eq startNew startNew_ok) in H.
  destruct H as [_ (r & Hclose & Hrules & _)]. exists r. exact (conj Hclose Hrules).
Defined.

(** ** The legacy mode at work *)

Definition startLegacy : result unit * Router * sampleClient * RuleSetRefs.table := startSample domains legacyRules startedTable.
Definition routerLegacy : Router := startLegacy.1.1.2.
Definition question : Question := mkQuestion "a" TypeA ClassINET.

(** The server [a] gives a private address. *)
Definition privateAnswer (id : N) : Msg :=
  mkMsg id true false true true 0 [question] [mkRR "a" TypeA ClassINET 60 (RR_A [x0a; x00; x00; x01])] [] [].
Definition ignore (q : request) (s : unit) : answer q * unit :=
  match q return answer q * unit with
  | ReqExchange _ _ _ _ => (Err ErrEOF, s)
  | ReqLookup _ _ _ _ => (Err ErrEOF, s)
  | ReqReject _ _ => (Ok None, s)
  | ReqReverse _ => (None, s)
  | _ => (tt, s)
  end.
#[local] Abbreviation legacyRun :=
  (exec (serve (fun _ => 0%Z) (fun _ _ m => Ok (privateAnswer (Id m))) None (fun e _ => e) false ignore)
    (Exchange sampleNetwork (fun _ _ _ => 0) (fun _ => false) sampleManager 0 routerLegacy InboundContextZero (sampleAsk 7) plainOptions)
    (mkWorld uncachedClient 0 tt)).

Lemma run_eq {A B} (p : A * B) a : p.1 = a -> p = (a, p.2).
Proof. by destruct p; simpl; intros ->. Qed.

Lemma legacyRun_ok : legacyRun.1 = Ok (privateAnswer 7).
Proof. vm_compute. reflexivity. Qed.


(** ** What differs from the documentation *)

(** A DNS rule with an [ip_version] is documented for A and AAAA queries; a query of any
    other type matches it by the address family of the connection that carries it. *)
Theorem ip_version_matches_other_queries net md (q : Question) :
  IPVersion md = 4 -> q_Qtype q <> TypeA -> q_Qtype q <> TypeAAAA ->
  item_Match net (NewIPVersionItem false) (queryMetadata md q) = true.
Proof.
  intros Hv Ha Haaaa. unfold queryMetadata. rewrite (proj2 (N.eqb_neq _ _) Ha), (proj2 (N.eqb_neq _ _) Haaaa). simpl.
  unfold IPVersionItem_Match. cbn [IPVersion]. by rewrite Hv.
Qed.

(** The servers a run asks, and whether the cache is disabled for them; responses are
    refused. *)
Definition traceRefused (q : request) (s : list (option string * bool)) : answer q * list (option string * bool) :=
  match q return answer q * list (option string * bool) with
  | ReqExchange it _ o _ => (Err ErrResponseRejected, s ++ [(it_Tag <$> it, DisableCache o)])
  | ReqLookup it _ o _ => (Err ErrResponseRejected, s ++ [(it_Tag <$> it, DisableCache o)])
  | ReqReject _ _ => (Ok None, s)
  | ReqReverse _ => (None, s)
  | _ => (tt, s)
  end.
Definition optionRules : list DNSRuleOptions :=
  sampleRule onNetwork (sampleDNSAction "route-options" "" {| noOptions with ao_DisableCache := true |}) :: legacyRules.

(** The options of a [route-options] rule apply to the next server only: after a refused
    response the query goes on without them. *)
Theorem route_options_lost_after_refusal :
  let r := (startSample domains optionRules startedTable).1.1.2 in
  let md := {| InboundContextZero with Network_ := "udp" |} in
  legacyDNSMode r = true /\
  (exec traceRefused (Exchange sampleNetwork (fun _ _ _ => 0) (fun _ => false) sampleManager 0 r md (sampleAsk 7) plainOptions) []).2
  = [(Some "a", true); (Some "b", false)].
Proof. vm_compute. split; reflexivity. Qed.

(** Two rule-sets that are updated at the same time are each checked against the old
    content of the other: both updates are accepted, and leave the router in the new
    mode with rules that need the legacy one. *)
Definition twoSets (q s : RuleSetMetadata) : string -> option RuleSetMetadata :=
  fun tag => if decide (tag = "q") then Some q else if decide (tag = "s") then Some s else None.
Definition twoSetRules : list DNSRuleOptions :=
  [sampleRule (onRuleSet "q" false) (sampleDNSAction "route" "a" noOptions);
   sampleRule (onRuleSet "s" false) (sampleDNSAction "route" "a" noOptions)].
Theorem concurrent_updates_break_mode :
  let r := mkRouter twoSetRules [] 0 false false false true false in
  let md := twoSets queryTypes domains in
  resolveLegacyDNSMode (Some md) ∅ twoSetRules = Ok (false, mkFlags true false false) /\
  ValidateRuleSetMetadataUpdate (Some md) r "q" domains = Ok tt /\
  ValidateRuleSetMetadataUpdate (Some md) r "s" mixed = Ok tt /\
  resolveLegacyDNSMode (Some (twoSets domains mixed)) ∅ twoSetRules = Ok (true, mkFlags false true false).
Proof. vm_compute. repeat split; reflexivity. Qed.

(** A rule-set of addresses that a rule matches against the source is refused as a filter
    of response addresses, although it needs no response. *)
Theorem source_rule_set_refused :
  let l := [sampleRule (onRuleSet "s" true) (sampleDNSAction "route" "a" noOptions)] in
  resolveLegacyDNSMode (Some (sampleSets addresses)) ∅ l = Ok (false, mkFlags false false false) /\
  checkRules (Some (TransportManager.Transport sampleManager)) (Some (sampleSets addresses)) l
  = Err (E_Cause (E_New [MessageWithLink OptionLegacyDNSAddressFilter]) ["validate dns rule["; "0"; "]"]).
Proof. split; reflexivity. Qed.

(** One rule-set of addresses among others is enough to refuse a rule, where the comment
    says that all of them must be. *)
Theorem one_address_set_refused :
  let o := let o := RawDefaultDNSRuleZero in {| o with d_RuleSet := Some ["q"; "s"] |} in
  validateLegacyDNSModeDisabledDefaultRule (Some (twoSets domains addresses)) ∅ o (sampleDNSAction "route" "a" noOptions)
  = Err (E_New [MessageWithLink OptionLegacyDNSAddressFilter]).
Proof. vm_compute. reflexivity. Qed.
