(* ===== verification/ConnPool.v ===== *)
(** * The connection pool of DNS transports (src/dns/transport/conn_pool.go)

    A pool hands out one shared connection ([ConnPoolSingle]) or a connection per user
    ([ConnPoolOrdered]).  Calls run at the same time: every section under the lock and every
    call that may block is a step of its own, and a call is a [thread] between two of them.
    Connections, states and attempts are numbered in the order of their creation; what the
    network and the clock do is the [input] of a step. *)

From S2P Require Import Prelude GoStd.
From stdpp Require Import list.

Open Scope nat_scope.

Module ConnPool.

Definition ErrClosed : error := ErrExternal "use of closed network connection".

Inductive ConnPoolMode : Type := ConnPoolSingle | ConnPoolOrdered.
#[export] Instance ConnPoolMode_eq_dec : EqDecision ConnPoolMode.
Proof. solve_decision. Defined.

(** [st_cause]: why the context of the state was cancelled, if it was.  [idle] and
    [idleElements] hold the same connections.  [shared] with [hasShared]; the context of the
    shared connection is numbered like the connection. *)
Record connPoolState : Type := mkConnPoolState {
  st_cause : option error;
  all : gset nat;
  idle : list nat;
  idleElements : gset nat;
  shared : option nat;
  sharedClaimed : bool;
  connecting : option nat;
}.

Record connPoolConnect : Type := mkConnPoolConnect { cn_done : bool; cn_err : option error }.

(** [free]: the slots of the semaphore that are free, [None] without a semaphore.
    [sharedCause]: the contexts of shared connections that were cancelled.  [closes]: the
    calls of [options.Close].  [handed]: the connections that some caller got; [claims]:
    those a caller got with the mark that they are new, in shared mode. *)
Record pool : Type := mkPool {
  closed : bool;
  state : option nat;
  states : gmap nat connPoolState;
  connects : gmap nat connPoolConnect;
  sharedCause : gmap nat error;
  free : option nat;
  closes : list nat;
  handed : gset nat;
  claims : list nat;
  nextState : nat;
  nextConnect : nat;
  nextConn : nat;
}.

Definition newConnPoolState : connPoolState := mkConnPoolState None ∅ [] ∅ None false None.

Definition setState (st : nat) (s : connPoolState) (p : pool) : pool := {| p with states := <[st := s]> (states p) |}.
Definition setConnect (k : nat) (c : connPoolConnect) (p : pool) : pool := {| p with connects := <[k := c]> (connects p) |}.

(** ** Threads *)

Inductive thread : Type :=
| Ordered
| ClosingIdle (c : nat)
| AwaitSlot (st : nat)
| DialOrdered (st : nat)
| CloseDialed (c : nat) (err : error)
| Install (st c : nat)
| ReleaseSlot (r : error + nat)
| Shared
| ClosingShared (c : nat)
| AwaitConnect (st k : nat) (startDial : bool)
| Collect (st k : nat) (startDial : bool)
| ConnectSingle (st k : nat)
| CloseConnected (st k c : nat) (err : error)
| Publish (st k : nat) (r : error + nat)
| PublishClose (k c : nat)
| SignalDone (k : nat)
| Holding (c : nat) (created : bool)
| CloseConn (c : nat)
| CancelState (st : nat) (conns : list nat)
| CloseAll (conns : list nat)
| Done (err : option error).

(** What a step depends on.  [Section alive]: the lock is taken or a connection closed,
    [alive] is what [IsAlive] says.  [DialReturns]: how the dial ended, whether the context
    of the caller was done, and whether the cancellation of the state reached the dial first. *)
Inductive input : Type :=
| Section (alive : bool)
| TakeSlot
| SlotError (ctxErr : option error)
| DialReturns (dialed : option error) (ctxErr : option error) (stateFirst : bool)
| ConnectDone
| CtxDone (err : error)
| StateDone
| Release (reuse alive : bool)
| Forget.

(** A step: the pool, the thread, and a goroutine that was started. *)
Abbreviation next := (option (result (pool * thread * option thread))).
Definition goto (p : pool) (t : thread) : next := Some (Ok (p, t, None)).
Definition nilState : next := Some (Panic "invalid memory address or nil pointer dereference").

(** ** Helpers *)

Definition closeConn (c : nat) (p : pool) : pool := {| p with closes := closes p ++ [c] |}.
Definition hand (c : nat) (p : pool) : pool := {| p with handed := {[c]} ∪ handed p |}.

Section Pool.
Context (Mode : ConnPoolMode).

(** [removeConn] on the state [st] with the contents [s]. *)
Definition removeConn (st : nat) (s : connPoolState) (c : nat) (cause : error) (p : pool) : pool :=
  match Mode with
  | ConnPoolSingle =>
      if bool_decide (shared s = Some c)
      then {| (setState st {| s with all := all s ∖ {[c]}; shared := None; sharedClaimed := false |} p) with
              sharedCause := <[c := cause]> (sharedCause p) |}
      else setState st {| s with all := all s ∖ {[c]} |} p
  | ConnPoolOrdered =>
      if bool_decide (c ∈ idleElements s)
      then setState st {| s with all := all s ∖ {[c]}; idle := filter (fun d => d <> c) (idle s);
                                 idleElements := idleElements s ∖ {[c]} |} p
      else setState st {| s with all := all s ∖ {[c]} |} p
  end.

(** [context.Cause(dialCtx)], or the cause of the state when its cancellation has begun. *)
Definition dialErr (st : nat) (ctxErr : option error) (stateFirst : bool) (p : pool) : option error :=
  let cause := states p !! st ≫= st_cause in
  match ctxErr, cause with
  | Some err, Some cause => Some (if stateFirst then cause else err)
  | Some err, None => Some err
  | None, cause => cause
  end.

(** The connection that a dial returned. *)
Definition newConn (p : pool) : nat * pool := (nextConn p, {| p with nextConn := S (nextConn p) |}).

(** A caller gets the shared connection. *)
Definition claim (st : nat) (s : connPoolState) (c : nat) (p : pool) : next :=
  let created := negb (sharedClaimed s) in
  let p := hand c (setState st {| s with sharedClaimed := true |} p) in
  goto (if created then {| p with claims := claims p ++ [c] |} else p) (Holding c created).

(** ** Sections under the lock *)

Definition acquireOrdered (alive : bool) (p : pool) : next :=
  if closed p then goto p (Done (Some ErrClosed))
  else
    match state p with
    | None => nilState
    | Some st =>
        match states p !! st with
        | None => nilState
        | Some s =>
            match idle s with
            | c :: rest =>
                let s := {| s with idle := rest; idleElements := idleElements s ∖ {[c]} |} in
                if alive then goto (hand c (setState st s p)) (Holding c false)
                else goto (setState st {| s with all := all s ∖ {[c]} |} p) (ClosingIdle c)
            | [] => goto p (match free p with Some _ => AwaitSlot st | None => DialOrdered st end)
            end
        end
    end.

(** The end of [dialAndInstall]. *)
Definition install (st c : nat) (p : pool) : next :=
  if closed p then goto p (CloseDialed c ErrClosed)
  else if bool_decide (state p = Some st) then
    match states p !! st with
    | None => nilState
    | Some s => goto (setState st {| s with all := {[c]} ∪ all s |} p) (ReleaseSlot (inr c))
    end
  else goto p (CloseDialed c ErrClosed).

(** [releaseSlot], and the return of [dialAndInstall]. *)
Definition releaseSlot (max : nat) (r : error + nat) (p : pool) : next :=
  let return_ p := match r with inl err => goto p (Done (Some err)) | inr c => goto (hand c p) (Holding c true) end in
  match free p with
  | None => return_ p
  | Some n => if n <? max then return_ {| p with free := Some (S n) |} else Some (Panic "semaphore: released more than held")
  end.

Definition acquireShared (alive : bool) (p : pool) : next :=
  if closed p then goto p (Done (Some ErrClosed))
  else
    match state p with
    | None => nilState
    | Some st =>
        match states p !! st with
        | None => nilState
        | Some s =>
            match shared s with
            | Some c => if alive then claim st s c p else goto (removeConn st s c ErrClosed p) (ClosingShared c)
            | None =>
                match connecting s with
                | Some k => goto p (AwaitConnect st k false)
                | None =>
                    let k := nextConnect p in
                    let p := {| (setConnect k (mkConnPoolConnect false None) (setState st {| s with connecting := Some k |} p)) with
                                nextConnect := S k |} in
                    Some (Ok (p, AwaitConnect st k true, Some (ConnectSingle st k)))
                end
            end
        end
    end.

(** The section of [connectSingle]. *)
Definition publish (st k : nat) (r : error + nat) (p : pool) : next :=
  match states p !! st with
  | None => nilState
  | Some s =>
      let s := {| s with connecting := None |} in
      let fail err p := setConnect k (mkConnPoolConnect false (Some err)) (setState st s p) in
      match r with
      | inl err => goto (fail err p) (SignalDone k)
      | inr c =>
          if closed p || negb (bool_decide (state p = Some st)) then goto (fail ErrClosed p) (PublishClose k c)
          else goto (setState st {| s with shared := Some c; all := {[c]} ∪ all s |} p) (SignalDone k)
      end
  end.

(** [close(state.done)] *)
Definition signalDone (k : nat) (p : pool) : next :=
  match connects p !! k with
  | Some c => if cn_done c then Some (Panic "close of closed channel") else goto (setConnect k {| c with cn_done := true |} p) (Done None)
  | None => nilState
  end.

Definition collectShared (st k : nat) (startDial alive : bool) (p : pool) : next :=
  match connects p !! k ≫= cn_err with
  | Some err => if startDial then goto p (Done (Some err)) else goto p Shared
  | None =>
      if closed p then goto p (Done (Some ErrClosed))
      else if negb (bool_decide (state p = Some st)) then goto p (Done (Some ErrClosed))
      else
        match states p !! st with
        | None => nilState
        | Some s =>
            match shared s with
            | None => goto p Shared
            | Some c => if alive then claim st s c p else goto (removeConn st s c ErrClosed p) (ClosingShared c)
            end
        end
  end.

Definition release (c : nat) (reuse alive : bool) (p : pool) : next :=
  if closed p then goto p (CloseConn c)
  else
    match state p with
    | None => nilState
    | Some st =>
        match states p !! st with
        | None => nilState
        | Some s =>
            if negb (bool_decide (c ∈ all s)) then goto p (CloseConn c)
            else if negb reuse || negb alive then goto (removeConn st s c ErrClosed p) (CloseConn c)
            else
              match Mode with
              | ConnPoolOrdered =>
                  if bool_decide (c ∈ idleElements s) then goto p (Done None)
                  else goto (setState st {| s with idle := idle s ++ [c]; idleElements := {[c]} ∪ idleElements s |} p) (Done None)
              | ConnPoolSingle => goto p (Done None)
              end
        end
    end.

Definition invalidate (c : nat) (cause : error) (p : pool) : next :=
  if closed p then goto p (CloseConn c)
  else
    match state p with
    | None => nilState
    | Some st =>
        match states p !! st with
        | None => nilState
        | Some s => if bool_decide (c ∈ all s) then goto (removeConn st s c cause p) (CloseConn c) else goto p (Done None)
        end
    end.

(** The old state belongs to nobody else, so its connections are known from here on. *)
Definition reset (p : pool) : next :=
  if closed p then goto p (Done None)
  else
    match state p with
    | None => nilState
    | Some old =>
        match states p !! old with
        | None => nilState
        | Some s =>
            let st := nextState p in
            goto {| (setState st newConnPoolState p) with state := Some st; nextState := S st |} (CancelState old (elements (all s)))
        end
    end.

Definition close (p : pool) : next :=
  if closed p then goto p (Done None)
  else
    match state p with
    | None => nilState
    | Some old =>
        match states p !! old with
        | None => nilState
        | Some s => goto {| p with closed := true; state := None |} (CancelState old (elements (all s)))
        end
    end.

(** ** Between the sections *)

Definition acquireSlot (st : nat) (i : input) (p : pool) : next :=
  match i with
  | TakeSlot =>
      match free p with
      | Some (S n) => goto {| p with free := Some n |} (DialOrdered st)
      | _ => None
      end
  | SlotError ctxErr =>
      match ctxErr, states p !! st ≫= st_cause with
      | Some err, _ => goto p (Done (Some err))
      | None, Some cause => goto p (Done (Some cause))
      | None, None => None
      end
  | _ => None
  end.

Definition dialAndInstall (st : nat) (dialed cause : option error) (p : pool) : next :=
  match dialed with
  | Some err => goto p (ReleaseSlot (inl (default err cause)))
  | None =>
      let '(c, p) := newConn p in
      goto p (match cause with Some err => CloseDialed c err | None => Install st c end)
  end.

(** The [select] of [acquireShared]. *)
Definition awaitShared (st k : nat) (startDial : bool) (i : input) (p : pool) : next :=
  match i with
  | ConnectDone =>
      match connects p !! k with
      | Some c => if cn_done c then goto p (Collect st k startDial) else None
      | None => None
      end
  | CtxDone err => goto p (Done (Some err))
  | StateDone =>
      match states p !! st ≫= st_cause with
      | Some _ => goto p (if closed p then Done (Some ErrClosed) else Shared)
      | None => None
      end
  | _ => None
  end.

Definition connectSingle (st k : nat) (dialed cause : option error) (p : pool) : next :=
  match dialed, cause with
  | Some err, cause => goto p (Publish st k (inl (default err cause)))
  | None, Some err => let '(c, p) := newConn p in goto p (CloseConnected st k c err)
  | None, None => let '(c, p) := newConn p in goto p (Publish st k (inr c))
  end.

(** The cancellation of [closeState]; the connections follow one by one. *)
Definition closeState (st : nat) (conns : list nat) (p : pool) : next :=
  match states p !! st with
  | Some s => goto (setState st {| s with st_cause := Some ErrClosed |} p) (CloseAll conns)
  | None => nilState
  end.

(** ** Steps *)

Definition resume (max : nat) (i : input) (t : thread) (p : pool) : next :=
  match t, i with
  | Ordered, Section alive => acquireOrdered alive p
  | ClosingIdle c, Section _ => goto (closeConn c p) Ordered
  | AwaitSlot st, i => acquireSlot st i p
  | DialOrdered st, DialReturns dialed ctxErr stateFirst => dialAndInstall st dialed (dialErr st ctxErr stateFirst p) p
  | CloseDialed c err, Section _ => goto (closeConn c p) (ReleaseSlot (inl err))
  | Install st c, Section _ => install st c p
  | ReleaseSlot r, Section _ => releaseSlot max r p
  | Shared, Section alive => acquireShared alive p
  | ClosingShared c, Section _ => goto (closeConn c p) Shared
  | AwaitConnect st k startDial, i => awaitShared st k startDial i p
  | Collect st k startDial, Section alive => collectShared st k startDial alive p
  | ConnectSingle st k, DialReturns dialed ctxErr stateFirst => connectSingle st k dialed (dialErr st ctxErr stateFirst p) p
  | CloseConnected st k c err, Section _ => goto (closeConn c p) (Publish st k (inl err))
  | Publish st k r, Section _ => publish st k r p
  | PublishClose k c, Section _ => goto (closeConn c p) (SignalDone k)
  | SignalDone k, Section _ => signalDone k p
  | Holding c _, Release reuse alive => release c reuse alive p
  | Holding _ _, Forget => goto p (Done None)
  | CloseConn c, Section _ => goto (closeConn c p) (Done None)
  | CancelState st conns, Section _ => closeState st conns p
  | CloseAll (c :: conns), Section _ => goto (closeConn c p) (CloseAll conns)
  | CloseAll [], Section _ => goto p (Done None)
  | _, _ => None
  end.

Record world : Type := mkWorld { pool_ : pool; threads : gmap nat thread }.

(** Calls start threads of their own; a caller that invalidates a connection has got it
    before.  A goroutine gets the number [spawn]. *)
Inductive action : Type :=
| Acquire (tid : nat)
| Invalidate (tid c : nat) (cause : error)
| Reset (tid : nat)
| Close (tid : nat)
| Run (tid spawn : nat) (i : input).

Definition continue (tid spawn : nat) (n : next) (w : world) : option (result world) :=
  match n with
  | Some (Ok (p, t, None)) => Some (Ok (mkWorld p (<[tid := t]> (threads w))))
  | Some (Ok (p, t, Some g)) =>
      if bool_decide (spawn = tid \/ is_Some (threads w !! spawn)) then None
      else Some (Ok (mkWorld p (<[spawn := g]> (<[tid := t]> (threads w)))))
  | Some (Err err) => Some (Err err)
  | Some (Panic msg) => Some (Panic msg)
  | None => None
  end.

Definition step (max : nat) (a : action) (w : world) : option (result world) :=
  let start tid n := if bool_decide (is_Some (threads w !! tid)) then None else continue tid tid n w in
  match a with
  | Acquire tid => start tid (goto (pool_ w) (match Mode with ConnPoolSingle => Shared | ConnPoolOrdered => Ordered end))
  | Invalidate tid c cause => if bool_decide (c ∈ handed (pool_ w)) then start tid (invalidate c cause (pool_ w)) else None
  | Reset tid => start tid (reset (pool_ w))
  | Close tid => start tid (close (pool_ w))
  | Run tid spawn i =>
      match threads w !! tid with
      | Some t => continue tid spawn (resume max i t (pool_ w)) w
      | None => None
      end
  end.

Definition NewConnPool (max : nat) : pool :=
  mkPool false (Some 0) {[0 := newConnPoolState]} ∅ ∅
    (match Mode with ConnPoolOrdered => if 0 <? max then Some max else None | ConnPoolSingle => None end) [] ∅ [] 1 0 0.

(** A run; [None] when an action is not possible. *)
Fixpoint run (max : nat) (actions : list action) (w : world) : option (result world) :=
  match actions with
  | [] => Some (Ok w)
  | a :: actions =>
      match step max a w with
      | Some (Ok w) => run max actions w
      | out => out
      end
  end.
Definition newWorld (max : nat) : world := mkWorld (NewConnPool max) ∅.

End Pool.

End ConnPool.
