(* ===== verification/ConnPoolInv.v ===== *)
(** * The invariant of the connection pool (ConnPool), and what a step of one call means for the others *)

From S2P Require Import Prelude GoStd ConnPool.
From stdpp Require Import list.
Import ConnPool.

Open Scope nat_scope.

(** ** What threads have in their hands *)

(** The connection that a dial of the thread returned and that nobody else knows. *)
Definition newborn (t : thread) : option nat :=
  match t with
  | Install _ c | CloseDialed c _ | CloseConnected _ _ c _ | Publish _ _ (inr c) | PublishClose _ c => Some c
  | _ => None
  end.
(** The connections that the thread is going to close, or to put into the pool. *)
Definition due (t : thread) : list nat :=
  match t with
  | ClosingIdle c | ClosingShared c | CloseConn c => [c]
  | CancelState _ conns | CloseAll conns => conns
  | _ => option_list (newborn t)
  end.
(** The connection that the thread uses. *)
Definition holds (t : thread) : option nat :=
  match t with Holding c _ | ReleaseSlot (inr c) => Some c | _ => None end.
Definition mentions (t : thread) (c : nat) : Prop := c ∈ due t \/ holds t = Some c.
(** The attempt whose end the thread announces; [dials]: and its state, before it is published. *)
Definition signals (t : thread) : option nat :=
  match t with ConnectSingle _ k | CloseConnected _ k _ _ | Publish _ k _ | PublishClose k _ | SignalDone k => Some k | _ => None end.
Definition dials (t : thread) : option (nat * nat) :=
  match t with ConnectSingle st k | CloseConnected st k _ _ | Publish st k _ => Some (st, k) | _ => None end.
(** The state that the thread knows. *)
Definition knows (t : thread) : option nat :=
  match t with
  | AwaitSlot st | DialOrdered st | Install st _ | AwaitConnect st _ _ | Collect st _ _ | ConnectSingle st _ | CloseConnected st _ _ _
  | Publish st _ _ | CancelState st _ => Some st
  | _ => None
  end.
(** The attempt whose end the thread awaits. *)
Definition waits (t : thread) : option nat :=
  match t with AwaitConnect _ k _ | Collect _ k _ => Some k | _ => None end.
Definition slotted (t : thread) : bool :=
  match t with DialOrdered _ | CloseDialed _ _ | Install _ _ | ReleaseSlot _ => true | _ => false end.
Definition kind (t : thread) : option ConnPoolMode :=
  match t with
  | Ordered | ClosingIdle _ | AwaitSlot _ | DialOrdered _ | CloseDialed _ _ | Install _ _ | ReleaseSlot _ => Some ConnPoolOrdered
  | Shared | ClosingShared _ | AwaitConnect _ _ _ | Collect _ _ _ | ConnectSingle _ _ | CloseConnected _ _ _ _ | Publish _ _ _
  | PublishClose _ _ | SignalDone _ => Some ConnPoolSingle
  | _ => None
  end.

Definition current (p : pool) : option connPoolState := st ← state p; states p !! st.

Section Theorems.
Context (Mode : ConnPoolMode) (max : nat).

(** ** The invariant *)

(** A state of the pool that is in use. *)
Record SOK (p : pool) (s : connPoolState) : Prop := mkSOK {
  so_idle : NoDup (idle s);
  so_elements : idleElements s = list_to_set (idle s);
  so_sub : list_to_set (idle s) ⊆ all s;
  so_open : forall c, c ∈ all s -> c ∉ closes p;
  so_shared : forall c, shared s = Some c -> c ∈ all s;
  so_claimed : sharedClaimed s = true <-> exists c, shared s = Some c /\ c ∈ claims p;
  so_connecting : is_Some (connecting s) -> shared s = None;
  so_mode : match Mode with ConnPoolOrdered => shared s = None | ConnPoolSingle => idle s = [] end;
}.

Record POK (p : pool) : Prop := mkPOK {
  po_closed : closed p = bool_decide (state p = None);
  po_state : forall st, state p = Some st -> is_Some (states p !! st);
  po_states : forall st s, states p !! st = Some s -> st < nextState p;
  po_connects : forall k c, connects p !! k = Some c -> k < nextConnect p;
  po_connecting : forall st s k, states p !! st = Some s -> connecting s = Some k -> is_Some (connects p !! k);
  po_all : forall st s c, states p !! st = Some s -> c ∈ all s -> c < nextConn p;
  po_closes : forall c, c ∈ closes p -> c < nextConn p;
  po_handed : forall c, c ∈ handed p -> c < nextConn p;
  po_claims : NoDup (claims p) /\ list_to_set (claims p) ⊆ handed p;
  po_current : forall s, current p = Some s -> SOK p s;
}.

Record TOK (p : pool) (t : thread) : Prop := mkTOK {
  to_bound : forall c, mentions t c -> c < nextConn p;
  to_newborn : forall c, newborn t = Some c -> (c ∉ closes p) /\ (c ∉ handed p) /\ (forall st s, states p !! st = Some s -> c ∉ all s);
  to_due : forall c s, c ∈ due t -> current p = Some s -> c ∉ all s;
  to_holds : forall c s, holds t = Some c -> current p = Some s -> c ∉ idle s;
  to_handed : forall c b, t = Holding c b -> c ∈ handed p;
  to_dials : forall st k, dials t = Some (st, k) -> exists s, states p !! st = Some s /\ connecting s = Some k;
  to_signals : forall k, signals t = Some k -> exists c, connects p !! k = Some c /\ cn_done c = false;
  to_knows : forall st, knows t = Some st -> is_Some (states p !! st);
  to_waits : forall k, waits t = Some k -> is_Some (connects p !! k);
  to_kind : forall m, kind t = Some m -> m = Mode;
}.

(** Two threads. *)
Record T2 (t u : thread) : Prop := mkT2 {
  t2_newborn : forall c, newborn t = Some c -> ~ mentions u c;
  t2_newborn' : forall c, newborn u = Some c -> ~ mentions t c;
  t2_holds : Mode = ConnPoolOrdered -> forall c, holds t = Some c -> holds u <> Some c;
  t2_signals : forall k, signals t = Some k -> signals u <> Some k;
}.

Lemma T2_sym t u : T2 t u -> T2 u t.
Proof. intros [H1 H2 H3 H4]. split; naive_solver. Qed.

(** ** Changes of the pool that other threads do not notice *)

Record evolves (xc xh xa xi : nat -> Prop) (y : nat -> Prop) (p p' : pool) : Prop := mkEvolves {
  ev_next : nextConn p <= nextConn p';
  ev_closes : forall c, c ∈ closes p' -> c ∈ closes p \/ xc c;
  ev_handed : forall c, c ∈ handed p' -> c ∈ handed p \/ xh c;
  ev_handed' : handed p ⊆ handed p';
  ev_all : forall st s' c, states p' !! st = Some s' -> c ∈ all s' -> (exists s, states p !! st = Some s /\ c ∈ all s) \/ xa c;
  ev_current : forall s' c, current p' = Some s' -> c ∈ all s' -> (exists s, current p = Some s /\ c ∈ all s) \/ xa c;
  ev_idle : forall s' c, current p' = Some s' -> c ∈ idle s' -> (exists s, current p = Some s /\ c ∈ idle s) \/ xi c;
  ev_states : forall st, is_Some (states p !! st) -> is_Some (states p' !! st);
  ev_connecting : forall st s k, states p !! st = Some s -> connecting s = Some k ->
    (exists s', states p' !! st = Some s' /\ connecting s' = Some k) \/ y k;
  ev_connects : forall k c, connects p !! k = Some c -> cn_done c = false ->
    (exists c', connects p' !! k = Some c' /\ cn_done c' = false) \/ y k;
  ev_attempts : forall k, is_Some (connects p !! k) -> is_Some (connects p' !! k);
}.

Lemma dials_signals t st k : dials t = Some (st, k) -> signals t = Some k.
Proof. destruct t; cbn; congruence. Qed.
Lemma newborn_due t c : newborn t = Some c -> c ∈ due t.
Proof. destruct t as [| | | | | | | | | | | | |? ? []| | | | | | |]; cbn; intros [= <-]; apply list_elem_of_singleton; done. Qed.

Lemma TOK_evolves xc xh xa xi y p p' u : evolves xc xh xa xi y p p' -> TOK p u ->
  (forall c, newborn u = Some c -> ~ xc c /\ ~ xh c) -> (forall c, c ∈ due u -> ~ xa c) -> (forall c, holds u = Some c -> ~ xi c) ->
  (forall k, y k -> signals u <> Some k) -> TOK p' u.
Proof.
  intros E H Hn Hd Hh Hy. split.
  - intros c Hc. apply (to_bound _ _ H) in Hc. pose proof (ev_next _ _ _ _ _ _ _ E). lia.
  - intros c Hc. destruct (to_newborn _ _ H c Hc) as (H1 & H2 & H3). destruct (Hn c Hc) as [Hxc Hxh]. split_and!.
    + intros [?|?]%(ev_closes _ _ _ _ _ _ _ E); done.
    + intros [?|?]%(ev_handed _ _ _ _ _ _ _ E); done.
    + intros st s' Hs Hin. destruct (ev_all _ _ _ _ _ _ _ E st s' c Hs Hin) as [(s & Hs0 & Hin0)|Hx]; [by apply (H3 st s)|].
      by apply (Hd c (newborn_due u c Hc)).
  - intros c s' Hc Hs Hin. destruct (ev_current _ _ _ _ _ _ _ E s' c Hs Hin) as [(s & Hs0 & Hin0)|Hx]; [|by apply (Hd c)].
    by apply (to_due _ _ H c s).
  - intros c s' Hc Hs Hin. destruct (ev_idle _ _ _ _ _ _ _ E s' c Hs Hin) as [(s & Hs0 & Hin0)|Hx]; [|by apply (Hh c)].
    by apply (to_holds _ _ H c s).
  - intros c b Hc. apply (ev_handed' _ _ _ _ _ _ _ E). by eapply to_handed.
  - intros st k Hk. destruct (to_dials _ _ H st k Hk) as (s & Hs & Hc). destruct (ev_connecting _ _ _ _ _ _ _ E st s k Hs Hc) as [?|Hyk]; [done|].
    by destruct (Hy k Hyk (dials_signals u st k Hk)).
  - intros k Hk. destruct (to_signals _ _ H k Hk) as (c & Hc & Hd0). destruct (ev_connects _ _ _ _ _ _ _ E k c Hc Hd0) as [?|Hyk]; [done|].
    by destruct (Hy k Hyk).
  - intros st Hst. apply (ev_states _ _ _ _ _ _ _ E). by eapply to_knows.
  - intros k Hk. apply (ev_attempts _ _ _ _ _ _ _ E). by eapply to_waits.
  - apply (to_kind _ _ H).
Qed.

(** ** The operations on the pool, for other threads *)

Lemma current_setState st s s' p : states p !! st = Some s ->
  current (setState st s' p) = if decide (state p = Some st) then Some s' else current p.
Proof.
  intros Hs. unfold current. cbn [setState state states]. destruct (decide (state p = Some st)) as [->|Hne]; cbn; [by rewrite lookup_insert_eq|].
  destruct (state p) as [st'|]; [|done]. cbn. rewrite lookup_insert_ne; [done|]. congruence.
Qed.

Lemma current_states p s : current p = Some s -> exists st, state p = Some st /\ states p !! st = Some s.
Proof. unfold current. destruct (state p) as [st|]; [|done]. cbn. eauto. Qed.
Lemma current_Some p st s : state p = Some st -> states p !! st = Some s -> current p = Some s.
Proof. unfold current. intros ->. done. Qed.

Lemma TOK_ext p p' u : nextConn p' = nextConn p -> closes p' = closes p -> handed p' = handed p -> states p' = states p ->
  state p' = state p -> connects p' = connects p -> TOK p u -> TOK p' u.
Proof.
  intros H1 H2 H3 H4 H5 H6 H. assert (Hc : current p' = current p) by (unfold current; by rewrite H4, H5).
  destruct H. split; rewrite ?H1, ?H2, ?H3, ?H4, ?H6, ?Hc; done.
Qed.

Lemma TOK_closeConn p u c : TOK p u -> newborn u <> Some c -> TOK (closeConn c p) u.
Proof.
  intros H Hn. eapply (TOK_evolves (fun d => d = c) (fun _ => False) (fun _ => False) (fun _ => False) (fun _ => False)); [|done|naive_solver..].
  split; cbn; eauto. intros d [?| ->%list_elem_of_singleton]%elem_of_app; auto.
Qed.

Lemma TOK_hand p u c : TOK p u -> newborn u <> Some c -> TOK (hand c p) u.
Proof.
  intros H Hn. eapply (TOK_evolves (fun _ => False) (fun d => d = c) (fun _ => False) (fun _ => False) (fun _ => False)); [|done|naive_solver..].
  split; cbn; eauto; set_solver.
Qed.

Lemma TOK_newConn p u : TOK p u -> TOK (newConn p).2 u.
Proof.
  intros H. eapply (TOK_evolves (fun _ => False) (fun _ => False) (fun _ => False) (fun _ => False) (fun _ => False)); [|done|naive_solver..].
  split; cbn; eauto.
Qed.

Lemma TOK_setConnect p u k c : TOK p u -> (signals u = Some k -> cn_done c = false) -> TOK (setConnect k c p) u.
Proof.
  intros H Hk. destruct H. split; try done; intros k' Hk'; cbn [setConnect connects].
  - destruct (decide (k' = k)) as [->|Hne]; [exists c; rewrite lookup_insert_eq; auto|rewrite lookup_insert_ne by done; auto].
  - apply lookup_insert_is_Some'. right. auto.
Qed.

Lemma TOK_update p u st s s' : TOK p u -> states p !! st = Some s ->
  (forall c, c ∈ due u -> c ∈ all s' -> c ∈ all s) -> (state p = Some st -> forall c, holds u = Some c -> c ∈ idle s' -> c ∈ idle s) ->
  (forall k, dials u = Some (st, k) -> connecting s = Some k -> connecting s' = Some k) -> TOK (setState st s' p) u.
Proof.
  intros H Hs Ha Hi Hk. pose proof (current_setState st s s' p Hs) as Hcur.
  assert (Hst : forall st1 s1, states (setState st s' p) !! st1 = Some s1 -> st1 = st /\ s1 = s' \/ st1 <> st /\ states p !! st1 = Some s1).
  { intros st1 s1. cbn. rewrite lookup_insert_Some. intros [[<- <-]|[? ?]]; auto. }
  split; cbn [setState nextConn closes handed connects]; try apply H.
  - intros c Hc. destruct (to_newborn _ _ H c Hc) as (H1 & H2 & H3). split_and!; [done..|].
    intros st1 s1 [[-> ->]|[_ Hs1]]%Hst; [|by eapply H3]. intros Hin. eapply H3; [exact Hs|]. apply Ha; [by apply newborn_due|done].
  - intros c s1 Hc. rewrite Hcur. destruct (decide _) as [Hst1|]; [intros [= <-] Hin|by apply (to_due _ _ H)].
    eapply (to_due _ _ H c s Hc); [by eapply current_Some|by apply Ha].
  - intros c s1 Hc. rewrite Hcur. destruct (decide _) as [Hst1|]; [intros [= <-] Hin|by apply (to_holds _ _ H)].
    eapply (to_holds _ _ H c s Hc); [by eapply current_Some|by apply Hi].
  - intros st1 k Hd. destruct (to_dials _ _ H st1 k Hd) as (s1 & Hs1 & Hc1). cbn [setState states]. destruct (decide (st1 = st)) as [->|Hne].
    + rewrite lookup_insert_eq. exists s'. split; [done|]. apply Hk; [done|]. congruence.
    + rewrite lookup_insert_ne by done. eauto.
  - intros st1 Hst1. cbn [setState states]. destruct (decide (st1 = st)) as [->|Hne]; [rewrite lookup_insert_eq; eauto|].
    rewrite lookup_insert_ne by done. by eapply to_knows.
Qed.

(** ** The operations on the pool, for the pool *)

Lemma SOK_ext p p' s : closes p' = closes p -> claims p' = claims p -> SOK p s -> SOK p' s.
Proof. intros H1 H2 []. split; rewrite ?H1, ?H2; done. Qed.

Lemma POK_ext p p' : closed p' = closed p -> nextConn p' = nextConn p -> closes p' = closes p -> handed p' = handed p -> states p' = states p ->
  state p' = state p -> connects p' = connects p -> claims p' = claims p -> nextState p' = nextState p -> nextConnect p' = nextConnect p ->
  POK p -> POK p'.
Proof.
  intros H0 H1 H2 H3 H4 H5 H6 H7 H8 H9 H. assert (Hc : current p' = current p) by (unfold current; by rewrite H4, H5).
  destruct H. split; rewrite ?H0, ?H1, ?H2, ?H3, ?H4, ?H5, ?H6, ?H7, ?H8, ?H9, ?Hc; try done. intros s Hs. eapply SOK_ext; [..|by apply po_current0]; done.
Qed.

Lemma POK_closeConn p c : POK p -> c < nextConn p -> (forall s, current p = Some s -> c ∉ all s) -> POK (closeConn c p).
Proof.
  intros H Hc Ha. destruct H. split; try done; cbn [closeConn closes nextConn].
  - intros d [?| ->%list_elem_of_singleton]%elem_of_app; auto.
  - intros s Hs. specialize (Ha s Hs). destruct (po_current0 s Hs). split; try done. cbn [closeConn closes].
    intros d Hd [?| ->%list_elem_of_singleton]%elem_of_app; [by eapply so_open0|done].
Qed.

Lemma POK_hand p c : POK p -> c < nextConn p -> POK (hand c p).
Proof.
  intros H Hc. destruct H. split; try done; cbn [hand handed nextConn claims].
  - intros d. set_unfold. intros [->|?]; auto.
  - split; [apply po_claims0|]. set_solver.
  - intros s Hs. eapply SOK_ext; [..|by apply po_current0]; done.
Qed.

Lemma POK_newConn p : POK p -> POK (newConn p).2.
Proof.
  intros []. split; cbn; try done; intros; try (apply Nat.lt_lt_succ_r; by eauto).
  eapply SOK_ext; [..|by apply po_current0]; done.
Qed.

Lemma POK_setConnect p k c : POK p -> k < nextConnect p -> POK (setConnect k c p).
Proof.
  intros [] Hk. split; try done; cbn [setConnect connects nextConnect].
  - intros k' c'. rewrite lookup_insert_Some. intros [[<- <-]|[_ ?]]; eauto.
  - intros st s k' Hs Hk'. apply lookup_insert_is_Some'. eauto.
  - intros s Hs. eapply SOK_ext; [..|by apply po_current0]; done.
Qed.

Lemma POK_update p st s s' : POK p -> states p !! st = Some s -> (state p = Some st -> SOK p s') ->
  (forall c, c ∈ all s' -> c < nextConn p) -> (forall k, connecting s' = Some k -> is_Some (connects p !! k)) -> POK (setState st s' p).
Proof.
  intros H Hs Hok Ha Hk. pose proof (current_setState st s s' p Hs) as Hcur.
  assert (Hst : forall st1 s1, states (setState st s' p) !! st1 = Some s1 -> st1 = st /\ s1 = s' \/ st1 <> st /\ states p !! st1 = Some s1).
  { intros st1 s1. cbn. rewrite lookup_insert_Some. intros [[<- <-]|[? ?]]; auto. }
  split; cbn [setState closed state nextState nextConn nextConnect closes handed claims connects]; try apply H.
  - intros st1 Hst1. cbn [setState states]. destruct (decide (st1 = st)) as [->|]; [rewrite lookup_insert_eq; eauto|rewrite lookup_insert_ne by done; by apply H].
  - intros st1 s1 [[-> ->]|[_ ?]]%Hst; by eapply po_states.
  - intros st1 s1 k [[-> ->]|[_ ?]]%Hst ?; [auto|by eapply po_connecting].
  - intros st1 s1 c [[-> ->]|[_ ?]]%Hst ?; [auto|by eapply po_all].
  - intros s1. rewrite Hcur. destruct (decide _); [intros [= <-]; eapply SOK_ext; [..|by apply Hok]; done|].
    intros Hc. eapply SOK_ext; [..|by apply H]; done.
Qed.

(** ** Local steps *)

Definition secured (p : pool) (c : nat) : Prop := c ∈ closes p \/ exists s, current p = Some s /\ c ∈ all s.
Definition slots (p : pool) (t : thread) : option nat := (fun n => n + Nat.b2n (slotted t)) <$> free p.

(** What a step of the thread [t] to [t'] means for the pool and all threads. *)
Record good (t : thread) (p p' : pool) (t' : thread) (g : option thread) : Prop := mkGood {
  g_pool : POK p';
  g_thread : TOK p' t';
  g_others : forall u, TOK p u -> T2 t u -> TOK p' u /\ T2 t' u;
  g_spawn : forall v, g = Some v -> TOK p' v /\ T2 t' v /\ due v = [] /\ slotted v = false /\ forall u, TOK p u -> T2 v u;
  g_next : nextConn p <= nextConn p';
  g_secured : forall c, c < nextConn p' -> secured p c \/ c ∈ due t \/ nextConn p <= c -> secured p' c \/ c ∈ due t';
  g_slots : slots p' t' = slots p t;
  g_attempts : forall k c', connects p' !! k = Some c' -> cn_done c' = false -> signals t' = Some k \/
    (exists v, g = Some v /\ signals v = Some k) \/ signals t <> Some k /\ exists c, connects p !! k = Some c /\ cn_done c = false;
  g_connecting : forall st s' k, states p' !! st = Some s' -> connecting s' = Some k -> dials t' = Some (st, k) \/
    (exists v, g = Some v /\ dials v = Some (st, k)) \/ dials t <> Some (st, k) /\ exists s, states p !! st = Some s /\ connecting s = Some k;
}.

Lemma T2_step t t' u : T2 t u -> (forall c, newborn t' = Some c -> newborn t = Some c \/ ~ mentions u c) ->
  (forall c, mentions t' c -> mentions t c \/ newborn u <> Some c) ->
  (Mode = ConnPoolOrdered -> forall c, holds t' = Some c -> holds t = Some c \/ holds u <> Some c) ->
  (forall k, signals t' = Some k -> signals t = Some k \/ signals u <> Some k) -> T2 t' u.
Proof.
  intros [H1 H2 H3 H4] Hn Hm Hh Hs. split.
  - intros c [?|?]%Hn; auto.
  - intros c Hc [?|?]%Hm; [by apply (H2 c)|done].
  - intros Ho c [?|?]%(Hh Ho); auto.
  - intros k [?|?]%Hs; auto.
Qed.

(** A thread that drops what it had, or keeps a part of it. *)
Lemma T2_less t t' u : T2 t u -> (forall c, newborn t' = Some c -> newborn t = Some c) -> (forall c, mentions t' c -> mentions t c) ->
  (forall c, holds t' = Some c -> holds t = Some c) -> (forall k, signals t' = Some k -> signals t = Some k) -> T2 t' u.
Proof. intros H H1 H2 H3 H4. eapply T2_step; eauto. Qed.

(** Attempts that go on as before. *)
Lemma attempts_same (t t' : thread) (g : option thread) (p p' : pool) : connects p' = connects p -> signals t' = signals t ->
  forall k c', connects p' !! k = Some c' -> cn_done c' = false -> signals t' = Some k \/
    (exists v, g = Some v /\ signals v = Some k) \/ signals t <> Some k /\ exists c, connects p !! k = Some c /\ cn_done c = false.
Proof. intros -> -> k c' Hc Hd. destruct (decide (signals t = Some k)); eauto 8. Qed.
Lemma connecting_same (t t' : thread) (g : option thread) (p p' : pool) :
  (forall st s' k, states p' !! st = Some s' -> connecting s' = Some k -> exists s, states p !! st = Some s /\ connecting s = Some k) -> dials t' = dials t ->
  forall st s' k, states p' !! st = Some s' -> connecting s' = Some k -> dials t' = Some (st, k) \/
    (exists v, g = Some v /\ dials v = Some (st, k)) \/ dials t <> Some (st, k) /\ exists s, states p !! st = Some s /\ connecting s = Some k.
Proof. intros H -> st s' k Hs Hk. destruct (decide (dials t = Some (st, k))); eauto 8. Qed.
Lemma connecting_setState p st s s' : states p !! st = Some s -> connecting s' = connecting s ->
  forall st1 s1 k, states (setState st s' p) !! st1 = Some s1 -> connecting s1 = Some k -> exists s2, states p !! st1 = Some s2 /\ connecting s2 = Some k.
Proof.
  intros Hs Hk st1 s1 k. cbn. rewrite lookup_insert_Some. intros [[<- <-]|[_ ?]]; [|eauto]. rewrite Hk. eauto.
Qed.

(** A step that does not change the pool. *)
Lemma good_same t p t' : POK p -> TOK p t' -> (forall u, TOK p u -> T2 t u -> T2 t' u) -> due t ⊆ due t' -> slots p t' = slots p t ->
  signals t' = signals t -> dials t' = dials t -> good t p p t' None.
Proof.
  intros HP HT Ho Hd Hs Hsig Hdi. split; try done; [eauto| |by apply attempts_same|by apply connecting_same; eauto].
  intros c Hc [?|[?|?]]; [by left|right; by apply Hd|lia].
Qed.

(** A step that closes a connection it had to close. *)
Lemma good_close t p c t' : POK p -> TOK p t -> c ∈ due t -> (forall d, d ∈ due t -> d = c \/ d ∈ due t') ->
  (forall d, d ∈ due t' -> d ∈ due t) -> newborn t' = None -> holds t' = None ->
  signals t' = signals t -> dials t' = dials t ->
  (forall st, knows t' = Some st -> knows t = Some st) -> waits t' = None -> (forall m, kind t' = Some m -> kind t = Some m) ->
  slotted t' = slotted t -> good t p (closeConn c p) t' None.
Proof.
  intros HP HT Hc Hd Hd' Hn Hh Hsig Hdial Hk Hw Hkind Hsl. split.
  - apply POK_closeConn; [done|apply (to_bound _ _ HT); by left|]. intros s. by apply (to_due _ _ HT).
  - destruct HT. split; cbn [closeConn nextConn closes handed states connects]; eauto; rewrite ?Hn, ?Hh, ?Hsig, ?Hdial, ?Hw; try done.
    + intros d [Hin|Hin]; [apply to_bound0; left; by apply Hd'|congruence].
    + intros d b ->. done.
  - intros u Hu H2. split.
    + apply TOK_closeConn; [done|]. intros Hnu. apply (t2_newborn' _ _ H2 c Hnu). by left.
    + eapply T2_less; [done|congruence| |congruence|congruence]. intros d [?|?]; [left; auto|congruence].
  - done.
  - done.
  - intros d Hlt [[Hcl|Ha]|[Hin|?]]; [left; left; set_solver|left; by right| |cbn in *; lia].
    destruct (Hd d Hin) as [->|?]; [left; left; set_solver|by right].
  - unfold slots. cbn. by rewrite Hsl.
  - by apply attempts_same.
  - by apply connecting_same; eauto.
Qed.

(** A step that changes a state [s] to [s'], and has the connections it removes. *)
Lemma good_update t p st s s' t' : POK p -> states p !! st = Some s -> (state p = Some st -> SOK p s') ->
  (forall k, connecting s' = Some k -> is_Some (connects p !! k)) -> (forall c, c ∈ all s' -> c ∈ all s \/ newborn t = Some c) ->
  (forall c, c ∈ all s -> c ∈ all s' \/ c ∈ due t') -> (forall c, c ∈ due t -> secured (setState st s' p) c \/ c ∈ due t') ->
  TOK p t -> TOK (setState st s' p) t' ->
  (forall u, TOK p u -> T2 t u -> T2 t' u) ->
  (forall u c, T2 t u -> holds u = Some c -> c ∈ idle s' -> c ∈ idle s) ->
  (forall u k, T2 t u -> dials u = Some (st, k) -> connecting s = Some k -> connecting s' = Some k) ->
  slotted t' = slotted t -> signals t' = signals t ->
  (connecting s' = None /\ (forall st1 k, dials t = Some (st1, k) -> st1 = st) \/ connecting s' = connecting s /\ dials t' = dials t) ->
  good t p (setState st s' p) t' None.
Proof.
  intros HP Hs Hok Hk Ha Ha' Hd HT HT' H2 Hi Hdi Hsl Hsi Hcon. pose proof (current_setState st s s' p Hs) as Hcur. split.
  - eapply POK_update; [done..| |done]. intros c [?|?]%Ha; [by eapply po_all|]. apply (to_bound _ _ HT). left. by apply newborn_due.
  - done.
  - intros u Hu Hu2. split; [|by apply H2]. eapply TOK_update; [done..| | |].
    + intros c Hc [?|Hn]%Ha; [done|]. exfalso. apply (t2_newborn _ _ Hu2 c Hn). by left.
    + intros _ c. by apply Hi.
    + intros k. by apply Hdi.
  - done.
  - done.
  - intros c Hc [[Hcl|(s0 & Hs0 & Hin)]|[Hin|?]]; [left; by left| |by apply Hd|cbn in *; lia].
    unfold secured. rewrite Hcur. destruct (decide (state p = Some st)) as [Hst|]; [|left; right; eauto].
    assert (s0 = s) as -> by (pose proof (current_Some p st s Hst Hs); congruence).
    destruct (Ha' c Hin) as [?|?]; [left; right; eauto|by right].
  - unfold slots. cbn. by rewrite Hsl.
  - by apply attempts_same.
  - destruct Hcon as [[Hc Hd0]|[Hc Hd0]]; [|apply connecting_same; [by eapply connecting_setState|done]].
    intros st1 s1 k. cbn. rewrite lookup_insert_Some. intros [[<- <-]|[Hne ?]] ?; [congruence|]. right; right. split; [|eauto]. intros E%Hd0. done.
Qed.

Lemma good_ext t p p1 p2 t' g : good t p p1 t' g -> closed p2 = closed p1 -> nextConn p2 = nextConn p1 -> closes p2 = closes p1 -> handed p2 = handed p1 ->
  states p2 = states p1 -> state p2 = state p1 -> connects p2 = connects p1 -> claims p2 = claims p1 -> nextState p2 = nextState p1 ->
  nextConnect p2 = nextConnect p1 -> free p2 = free p1 -> good t p p2 t' g.
Proof.
  intros [G1 G2 G3 G4 G5 G6 G7 G8 G9] H0 H1 H2 H3 H4 H5 H6 H7 H8 H9 H10.
  assert (HT : forall u, TOK p1 u -> TOK p2 u) by (intros u; by apply TOK_ext).
  assert (Hs : forall c, secured p1 c -> secured p2 c) by (intros c; unfold secured, current; by rewrite H2, H4, H5). split.
  - by eapply POK_ext.
  - auto.
  - intros u Hu Hu2. destruct (G3 u Hu Hu2). auto.
  - intros v Hv. destruct (G4 v Hv) as (? & ? & ?). auto.
  - lia.
  - rewrite H1. intros c Hc Hsec. destruct (G6 c Hc Hsec); auto.
  - unfold slots in *. by rewrite H10.
  - by rewrite H6.
  - by rewrite H4.
Qed.

(** ** Removing a connection *)

Lemma removeConn_spec p st s c cause : SOK p s ->
  exists s' m, removeConn Mode st s c cause p = {| (setState st s' p) with sharedCause := m |} /\ SOK p s' /\ all s' = all s ∖ {[c]} /\
    idle s' ⊆ idle s /\ connecting s' = connecting s.
Proof.
  intros [H1 H2 H3 H4 H5 H6 H8 H7]. assert (Ho : forall d, d ∈ all s ∖ {[c]} -> d ∉ closes p) by (intros d [? _]%elem_of_difference; auto).
  unfold removeConn. destruct Mode eqn:EM; case_bool_decide as Hc.
  - rewrite H7 in H2. eexists _, _. split; [done|]. split; [|done]. split; cbn; rewrite ?H7, ?EM; try done; [apply NoDup_nil_2|]. by split; [|intros (? & ? & _)].
  - rewrite H7 in H2. eexists {| s with all := all s ∖ {[c]} |}, (sharedCause p). split; [by destruct p|]. split; [|done].
    split; cbn; rewrite ?H7, ?EM; try done; [apply NoDup_nil_2|].
    intros d Hd. apply elem_of_difference. split; [auto|]. rewrite elem_of_singleton. by intros ->.
  - eexists _, (sharedCause p). split; [by destruct p|]. split; [|by repeat split; try done; intros ? [_ ?]%list_elem_of_filter].
    assert (Hset : idleElements s ∖ {[c]} = list_to_set (filter (fun d => d <> c) (idle s))).
    { rewrite H2. apply set_eq. intros d. rewrite elem_of_difference, !elem_of_list_to_set, list_elem_of_filter, elem_of_singleton. naive_solver. }
    split; cbn; rewrite <- ?Hset, ?EM; try done; [by apply NoDup_filter|rewrite H2; by apply difference_mono_r|congruence].
  - eexists {| s with all := all s ∖ {[c]} |}, (sharedCause p). split; [by destruct p|]. split; [|done]. split; cbn; rewrite ?EM; try done; [|congruence].
    rewrite <- H2. intros d Hd. apply elem_of_difference. split; [apply H3; by rewrite <- H2|]. rewrite elem_of_singleton. by intros ->.
Qed.

(** A thread without connections that removes one and is going to close it. *)
Lemma good_remove t p st s c cause t' : POK p -> TOK p t -> state p = Some st -> states p !! st = Some s -> c ∈ all s ->
  due t = [] -> due t' = [c] -> newborn t' = None -> holds t' = None -> signals t' = None -> dials t' = None -> knows t' = None -> waits t' = None ->
  signals t = None -> dials t = None ->
  (forall m, kind t' = Some m -> m = Mode) -> slotted t' = slotted t -> good t p (removeConn Mode st s c cause p) t' None.
Proof.
  intros HP HT Hst Hs Hc Hd Hd' Hn Hh Hsi Hdi Hk Hw Hsi0 Hdi0 Hki Hsl. assert (Hcur : current p = Some s) by (by eapply current_Some).
  destruct (removeConn_spec p st s c cause (po_current _ HP s Hcur)) as (s' & m & -> & Hok & Ha & Hi & Hcon).
  assert (Hcur' := current_setState st s s' p Hs). rewrite decide_True in Hcur' by done.
  eapply (good_ext t p (setState st s' p)); try done. eapply good_update; try done.
  - intros k. rewrite Hcon. by eapply po_connecting.
  - rewrite Ha. set_solver.
  - rewrite Ha, Hd'. intros d Hin. destruct (decide (d = c)); set_solver.
  - rewrite Hd. set_solver.
  - split; rewrite ?Hn, ?Hh, ?Hsi, ?Hdi, ?Hk, ?Hw; try done.
    + intros d [Hin|?]; [|congruence]. rewrite Hd' in Hin. apply list_elem_of_singleton in Hin as ->. by eapply (po_all _ HP).
    + intros d s0 Hin Hs0. rewrite Hd' in Hin. apply list_elem_of_singleton in Hin as ->. rewrite Hcur' in Hs0. injection Hs0 as <-. rewrite Ha. set_solver.
    + intros d b ->. done.
  - intros u Hu Hu2. eapply T2_step; [done|congruence| |congruence|congruence]. intros d [Hin|?]; [|congruence]. right. rewrite Hd' in Hin.
    apply list_elem_of_singleton in Hin as ->. intros Hnu. destruct (to_newborn _ _ Hu c Hnu) as (_ & _ & H). by apply (H st s).
  - intros u d _ _. apply Hi.
  - intros u k _ _. by rewrite Hcon.
  - congruence.
  - right. by rewrite Hdi, Hdi0.
Qed.

(** ** Handing out *)

(** A caller gets the connection [c] of the pool [p1]. *)
Lemma good_hand t p p1 c b cl : POK {| (hand c p1) with claims := cl |} -> c < nextConn p1 -> (forall s, current p1 = Some s -> c ∉ idle s) -> due t = [] ->
  (forall u, TOK p u -> T2 t u -> TOK p1 u /\ newborn u <> Some c /\ (Mode = ConnPoolOrdered -> holds u <> Some c)) ->
  (forall d, secured p d -> secured p1 d) -> nextConn p1 = nextConn p -> slots p1 (Holding c b) = slots p t -> connects p1 = connects p ->
  (forall st s' k, states p1 !! st = Some s' -> connecting s' = Some k -> exists s, states p !! st = Some s /\ connecting s = Some k) ->
  signals t = None -> dials t = None ->
  good t p {| (hand c p1) with claims := cl |} (Holding c b) None.
Proof.
  intros HP Hc Hi Hd Ho Hs Hn Hsl Hcon Hcs Hsi Hdi. split; [done|..|done|by cbn; lia| |done|by apply attempts_same|by apply connecting_same].
  - split; cbn; try done.
    + intros d [Hin|[= <-]]; [set_solver|done].
    + intros d s Hin. set_solver.
    + intros d s [= <-]. apply Hi.
    + intros d b' [= <- _]. set_solver.
  - intros u Hu Hu2. destruct (Ho u Hu Hu2) as (H1 & H2 & H3). split; [by eapply TOK_ext, TOK_hand|]. eapply T2_step; [done|done| | |done].
    + intros d [Hin|[= <-]]; [cbn in Hin; set_solver|by right].
    + intros Hm d [= <-]. right. by apply H3.
  - cbn [hand nextConn]. intros d Hd' [?|[?|?]]; [|rewrite Hd in *; set_solver|lia]. left. by apply Hs.
Qed.

End Theorems.
