(* ===== verification/ConnPoolSteps.v ===== *)
(** * The steps of the connection pool keep its invariant *)

From S2P Require Import Prelude GoStd ConnPool ConnPoolInv.
From stdpp Require Import list.
Import ConnPool.

Open Scope nat_scope.

Section Steps.
Context (Mode : ConnPoolMode).

(** The outcome of a step of [t]: it does not panic, and keeps the invariant. *)
Definition fine (t : thread) (p : pool) (n : next) : Prop :=
  match n with
  | None => True
  | Some (Ok (p', t', g)) => good Mode t p p' t' g
  | Some (Err _) | Some (Panic _) => False
  end.

(** ** Threads without anything in their hands *)

Definition quiet (t : thread) : Prop := due t = [] /\ holds t = None /\ signals t = None.

Lemma quiet_newborn t : quiet t -> newborn t = None.
Proof. intros (H & _). destruct (newborn t) as [c|] eqn:E; [|done]. apply newborn_due in E. rewrite H in E. by apply elem_of_nil in E. Qed.
Lemma quiet_mentions t c : quiet t -> ~ mentions t c.
Proof. intros (H1 & H2 & _) [H|H]; [rewrite H1 in H; by apply elem_of_nil in H|congruence]. Qed.
Lemma signals_dials t : signals t = None -> dials t = None.
Proof. destruct t; done. Qed.

Lemma T2_quiet t u : quiet t -> T2 Mode t u.
Proof.
  intros Hq. pose proof (quiet_newborn t Hq) as Hn. split; try (destruct Hq as (? & ? & ?); congruence). intros c _. by apply quiet_mentions.
Qed.

Lemma TOK_quiet p t : quiet t -> (forall st, knows t = Some st -> is_Some (states p !! st)) -> (forall k, waits t = Some k -> is_Some (connects p !! k)) ->
  (forall m, kind t = Some m -> m = Mode) -> TOK Mode p t.
Proof.
  intros Hq Hk Hw Hkind. pose proof (quiet_newborn t Hq) as Hn. destruct Hq as (H1 & H2 & H3).
  split; rewrite ?H1, ?H2, ?H3, ?Hn, ?(signals_dials _ H3); try done.
  - intros c [Hin|?]; [rewrite H1 in Hin; by apply elem_of_nil in Hin|congruence].
  - intros c s Hin. by apply elem_of_nil in Hin.
  - intros c b ->. done.
Qed.

(** A thread that had no connection to close and has nothing any more. *)
Lemma good_quiet t p t' : POK Mode p -> due t = [] -> signals t = None -> quiet t' -> (forall st, knows t' = Some st -> is_Some (states p !! st)) ->
  (forall k, waits t' = Some k -> is_Some (connects p !! k)) -> (forall m, kind t' = Some m -> m = Mode) ->
  slots p t' = slots p t -> good Mode t p p t' None.
Proof.
  intros HP Hd Hs Hq Hk Hw Hkind Hsl. pose proof Hq as (Hq1 & Hq2 & Hq3). apply good_same; [done|by apply TOK_quiet|intros; by apply T2_quiet| |done|congruence|].
  - rewrite Hd. set_solver.
  - by rewrite !signals_dials.
Qed.

Lemma good_done t p e : POK Mode p -> due t = [] -> signals t = None -> slotted t = false -> good Mode t p p (Done e) None.
Proof. intros. apply good_quiet; try done. unfold slots. by rewrite H2. Qed.

(** The current state. *)
Lemma open_state p : POK Mode p -> closed p = false -> exists st s, state p = Some st /\ states p !! st = Some s /\ current p = Some s.
Proof.
  intros HP Hc. rewrite (po_closed _ _ HP) in Hc. apply bool_decide_eq_false in Hc. destruct (state p) as [st|] eqn:E; [|done].
  destruct (po_state _ _ HP st E) as [s Hs]. exists st, s. split_and!; [done..|by eapply current_Some].
Qed.

(** ** Acquire, in ordered mode *)

(** Taking a connection out of the idle ones. *)
Lemma pop_SOK p s c rest : SOK Mode p s -> idle s = c :: rest -> SOK Mode p {| s with idle := rest; idleElements := idleElements s ∖ {[c]} |}.
Proof.
  intros [H1 H2 H3 H4 H5 H6 H8 H7] E. rewrite E in *. apply NoDup_cons in H1 as [Hc Hn]. split; cbn; try done.
  - rewrite H2. cbn. apply set_eq. intros d. rewrite elem_of_difference, elem_of_union, !elem_of_list_to_set, elem_of_singleton. set_solver.
  - set_solver.
  - destruct Mode; [done|auto].
Qed.

Lemma pop_dead p st s c rest cause : SOK Mode p s -> idle s = c :: rest -> Mode = ConnPoolOrdered ->
  setState st {| s with all := all s ∖ {[c]}; idle := rest; idleElements := idleElements s ∖ {[c]} |} p = removeConn Mode st s c cause p.
Proof.
  intros [H1 H2 H3 H4 H5 H6 H8 H7] E ->. unfold removeConn. rewrite E in *. apply NoDup_cons in H1 as [Hc Hn].
  rewrite bool_decide_eq_true_2 by (rewrite H2; set_solver). f_equal. f_equal.
  rewrite filter_cons_False by (intros H; by apply H). symmetry. clear -Hc. induction rest as [|d rest IH]; [done|].
  rewrite filter_cons_True by set_solver. rewrite IH by set_solver. done.
Qed.

Lemma claims_same p : {| p with claims := claims p |} = p.
Proof. by destruct p. Qed.

(** The two cases of [acquireOrdered] with an idle connection. *)
Lemma pop_alive p st s c rest : Mode = ConnPoolOrdered -> POK Mode p -> state p = Some st -> states p !! st = Some s -> idle s = c :: rest ->
  good Mode Ordered p (hand c (setState st {| s with idle := rest; idleElements := idleElements s ∖ {[c]} |} p)) (Holding c false) None.
Proof.
  intros Hm HP Hst Hs E. set (s' := {| s with idle := rest; idleElements := _ |}). assert (Hcur : current p = Some s) by by eapply current_Some.
  pose proof (po_current _ _ HP s Hcur) as Hok. assert (Hin : c ∈ all s) by (apply (so_sub _ _ _ Hok); rewrite E; set_solver).
  pose proof (current_setState st s s' p Hs) as Hcur'. rewrite decide_True in Hcur' by done.
  assert (HP' : POK Mode (setState st s' p)).
  { eapply POK_update; [done..|intros _; by apply pop_SOK| |]; cbn; intros; [by eapply po_all|by eapply po_connecting]. }
  rewrite <- (claims_same (hand c _)). apply good_hand; try done.
  - rewrite claims_same. apply POK_hand; [done|]. by eapply (po_all _ _ HP).
  - by eapply (po_all _ _ HP).
  - rewrite Hcur'. intros s0 [= <-]. cbn. pose proof (so_idle _ _ _ Hok) as Hn. rewrite E in Hn. by apply NoDup_cons in Hn as [? _].
  - intros u Hu _. split_and!.
    + eapply TOK_update; try done. cbn. rewrite E. intros. by apply list_elem_of_further.
    + intros Hn. destruct (to_newborn _ _ _ Hu c Hn) as (_ & _ & H). by apply (H st s).
    + intros _ Hh. apply (to_holds _ _ _ Hu c s Hh Hcur). rewrite E. apply list_elem_of_here.
  - intros d [?|(s0 & Hs0 & Hd)]; [by left|]. right. exists s'. split; [done|]. rewrite Hcur in Hs0. by injection Hs0 as <-.
  - by apply connecting_setState with s.
Qed.

Lemma acquireOrdered_fine p alive : POK Mode p -> TOK Mode p Ordered -> fine Ordered p (acquireOrdered alive p).
Proof.
  intros HP HT. assert (Hm : Mode = ConnPoolOrdered) by (symmetry; by apply (to_kind _ _ _ HT)). unfold acquireOrdered.
  destruct (closed p) eqn:Ec; [by apply good_done|]. destruct (open_state p HP Ec) as (st & s & Hst & Hs & Hcur). rewrite Hst, Hs.
  pose proof (po_current _ _ HP s Hcur) as Hok. destruct (idle s) as [|c rest] eqn:Ei.
  - assert (Hq : forall st1, Some st = Some st1 -> is_Some (states p !! st1)) by (intros ? [= <-]; eauto).
    destruct (free p) as [n|] eqn:Ef; apply good_quiet; try done; cbn; try congruence; unfold slots; by rewrite Ef.
  - destruct alive; cbn; [by apply pop_alive|]. rewrite (pop_dead p st s c rest ErrClosed) by done.
    apply good_remove; try done; cbn; try congruence. apply (so_sub _ _ _ Hok). rewrite Ei. set_solver.
Qed.

(** ** Slots and dials *)

(** A step that only changes the number of free slots. *)
Lemma good_free t p t' f : POK Mode p -> due t = [] -> signals t = None -> quiet t' -> (forall st, knows t' = Some st -> is_Some (states p !! st)) ->
  waits t' = None -> (forall m, kind t' = Some m -> m = Mode) -> slots {| p with free := f |} t' = slots p t -> good Mode t p {| p with free := f |} t' None.
Proof.
  intros HP Hd Hsi Hq Hk Hw Hki Hsl. assert (HP' : POK Mode {| p with free := f |}) by (eapply POK_ext; [..|done]; done).
  assert (Hsi' : signals t' = signals t) by (destruct Hq as (_ & _ & ->); done).
  split; [done|apply TOK_quiet; [done|done|by rewrite Hw|done]| |done|done| |done|by apply attempts_same|].
  - intros u Hu _. split; [by apply (TOK_ext Mode p)|by apply T2_quiet].
  - intros c Hc [?|[?|?]]; [left; done|rewrite Hd in *; set_solver|cbn in *; lia].
  - apply connecting_same; [eauto|]. rewrite !signals_dials; congruence.
Qed.

(** A dial that returned a connection. *)
Lemma good_dial t p t' : POK Mode p -> TOK Mode p t -> due t = [] -> newborn t' = Some (nextConn p) -> due t' = [nextConn p] -> holds t' = None ->
  signals t' = signals t -> dials t' = dials t -> (forall st, knows t' = Some st -> knows t = Some st) -> waits t' = None ->
  (forall m, kind t' = Some m -> kind t = Some m) -> slotted t' = slotted t -> good Mode t p (newConn p).2 t' None.
Proof.
  intros HP HT Hd Hn Hd' Hh Hsi Hdi Hk Hw Hki Hsl. split; [by apply POK_newConn| | |done|by cbn; lia| | |by apply attempts_same|by apply connecting_same; eauto].
  - pose proof HT as []. split; rewrite ?Hn, ?Hd', ?Hh, ?Hsi, ?Hdi, ?Hw; try done; cbn; eauto.
    + intros c [Hin|?]; [|congruence]. rewrite Hd' in Hin. apply list_elem_of_singleton in Hin as ->. lia.
    + intros c [= <-]. split_and!; [intros ?%(po_closes _ _ HP)|intros ?%(po_handed _ _ HP)|intros st s ? ?%(po_all _ _ HP st s)]; try done; lia.
    + intros c s ->%list_elem_of_singleton Hs Hin. apply current_states in Hs as (st & _ & Hs). apply (po_all _ _ HP st s) in Hin; [lia|done].
    + intros c b ->. done.
  - intros u Hu H2. split; [by apply TOK_newConn|]. eapply T2_step; [done|..]; try congruence.
    + intros c. rewrite Hn. intros [= <-]. right. intros ?%(to_bound _ _ _ Hu). lia.
    + intros c [Hin|?]; [|congruence]. rewrite Hd' in Hin. apply list_elem_of_singleton in Hin as ->. right.
      intros Hnb%newborn_due. assert (nextConn p < nextConn p) by (apply (to_bound _ _ _ Hu); by left). lia.
    + rewrite Hsi. auto.
  - cbn. intros c Hc [?|[?|?]]; [by left|rewrite Hd in *; set_solver|]. right. rewrite Hd'. apply list_elem_of_singleton. lia.
  - unfold slots. cbn. by rewrite Hsl.
Qed.

(** A connection that is not in the state it is added to. *)
Lemma add_SOK p s c : SOK Mode p s -> c ∉ closes p -> SOK Mode p {| s with all := {[c]} ∪ all s |}.
Proof.
  intros [H1 H2 H3 H4 H5 H6 H8 H7] Hc. split; cbn; try done; [|intros d [->%elem_of_singleton|?]%elem_of_union|]; auto; set_solver.
Qed.

Lemma install_fine p st c : POK Mode p -> TOK Mode p (Install st c) -> fine (Install st c) p (install st c p).
Proof.
  intros HP HT. assert (Hfail : good Mode (Install st c) p p (CloseDialed c ErrClosed) None).
  { apply good_same; try done; [|intros u _ H2; by eapply T2_less]. pose proof HT as []. split; try done; cbn in *; eauto. }
  unfold install. destruct (closed p) eqn:Ec; [done|]. case_bool_decide as Hst; [|done].
  destruct (po_state _ _ HP st Hst) as [s Hs]. rewrite Hs. assert (Hcur : current p = Some s) by by eapply current_Some.
  destruct (to_newborn _ _ _ HT c eq_refl) as (Hn1 & Hn2 & Hn3). pose proof (po_current _ _ HP s Hcur) as Hok.
  assert (Hi : c ∉ idle s) by (intros ?; apply (Hn3 st s Hs), (so_sub _ _ _ Hok); by apply elem_of_list_to_set).
  set (s' := {| s with all := _ |}). pose proof (current_setState st s s' p Hs) as Hcur'. rewrite decide_True in Hcur' by done.
  apply (good_update Mode (Install st c) p st s s'); try done; cbn.
  - intros _. by apply add_SOK.
  - intros k. by eapply po_connecting.
  - intros d [->%elem_of_singleton|?]%elem_of_union; auto.
  - intros d Hd. left. set_solver.
  - intros d ->%list_elem_of_singleton. left. right. exists s'. split; [done|]. cbn. set_solver.
  - pose proof HT as []. split; try done; cbn; eauto.
    + intros d [Hin|[= <-]]; [cbn in Hin; set_solver|]. apply to_bound. left. cbn. set_solver.
    + intros d s0 Hin. set_solver.
    + intros d s0 [= <-] Hs0. change (current (setState st s' p) = Some s0) in Hs0. rewrite Hcur' in Hs0. by injection Hs0 as <-.
  - intros u Hu H2. eapply T2_step; [done|done| |  |done].
    + intros d [Hin|[= <-]]; [cbn in Hin; set_solver|]. left. left. cbn. set_solver.
    + intros _ d [= <-]. right. intros Hh. apply (t2_newborn _ _ _ H2 c eq_refl). by right.
  - by right.
Qed.

Lemma releaseSlot_fine p max r : POK Mode p -> TOK Mode p (ReleaseSlot r) -> (forall n, free p = Some n -> n < max) ->
  fine (ReleaseSlot r) p (releaseSlot max r p).
Proof.
  intros HP HT Hslot. unfold releaseSlot. set (return_ := fun p => match r with inl err => goto p (Done (Some err)) | inr c => goto (hand c p) (Holding c true) end).
  assert (Hf : forall f, slots {| p with free := f |} (Done None) = slots p (ReleaseSlot r) -> fine (ReleaseSlot r) p (return_ {| p with free := f |})).
  { intros f Hf. unfold return_. destruct r as [err|c]; cbn [fine goto]; [by apply good_free|].
    assert (Hm : Mode = ConnPoolOrdered) by (symmetry; by apply (to_kind _ _ _ HT)). set (p1 := {| p with free := f |}).
    assert (HP' : POK Mode p1) by (eapply POK_ext; [..|done]; done). assert (c < nextConn p) by (apply (to_bound _ _ _ HT); by right).
    rewrite <- (claims_same (hand c p1)). apply good_hand; try done; [rewrite claims_same; by apply POK_hand|intros s; by apply (to_holds _ _ _ HT)| |eauto].
    intros u Hu H2. split_and!.
    - by apply (TOK_ext Mode p).
    - intros Hn. apply (t2_newborn' _ _ _ H2 c Hn). by right.
    - intros _. by apply (t2_holds _ _ _ H2). }
  destruct (free p) as [n|] eqn:Ef.
  - assert (n < max) as ->%Nat.ltb_lt by auto. apply Hf. unfold slots. rewrite Ef. cbn. f_equal. lia.
  - assert (E : p = {| p with free := None |}) by (rewrite <- Ef; by destruct p). change (fine (ReleaseSlot r) p (return_ p)).
    rewrite E at 2. apply Hf. unfold slots. by rewrite Ef.
Qed.

(** ** Acquire, in shared mode *)

Lemma POK_claim p st s c cl : POK Mode p -> state p = Some st -> states p !! st = Some s -> shared s = Some c ->
  cl = (if negb (sharedClaimed s) then claims p ++ [c] else claims p) ->
  POK Mode {| (hand c (setState st {| s with sharedClaimed := true |} p)) with claims := cl |}.
Proof.
  intros HP Hst Hs Hsh Hcl. set (s' := {| s with sharedClaimed := _ |}). assert (Hcur : current p = Some s) by by eapply current_Some.
  pose proof (po_current _ _ HP s Hcur) as Hok. destruct (po_claims _ _ HP) as [Hnd Hsub].
  assert (Hc : c < nextConn p) by (eapply (po_all _ _ HP); [done|by apply (so_shared _ _ _ Hok)]).
  assert (Hst' : forall st1 s1, <[st := s']> (states p) !! st1 = Some s1 -> exists s0, states p !! st1 = Some s0 /\ all s1 = all s0 /\ connecting s1 = connecting s0).
  { intros st1 s1. rewrite lookup_insert_Some. intros [[<- <-]|[_ ?]]; eauto. }
  assert (Hcl' : NoDup cl /\ c ∈ cl /\ list_to_set cl ⊆@{gset nat} {[c]} ∪ handed p).
  { pose proof (so_claimed _ _ _ Hok) as Hclaim. destruct (sharedClaimed s); rewrite Hcl; cbn [negb].
    - destruct Hclaim as [(c' & Hc' & Hin) _]; [done|]. rewrite Hsh in Hc'. injection Hc' as <-. split_and!; [done..|set_solver].
    - split_and!; [|set_solver..]. apply NoDup_app. split_and!; [done| |apply NoDup_singleton]. intros d Hd ->%list_elem_of_singleton.
      assert (false = true) by (apply Hclaim; eauto). done. }
  destruct Hcl' as (Hc1 & Hc2 & Hc3). clear Hcl. split; cbn; try apply HP.
  - intros st1 Hst1. rewrite lookup_insert_is_Some'. right. by apply HP.
  - intros st1 s1 (s0 & ? & _)%Hst'. by eapply po_states.
  - intros st1 s1 k (s0 & ? & _ & ->)%Hst'. by eapply po_connecting.
  - intros st1 s1 d (s0 & ? & -> & _)%Hst'. by eapply po_all.
  - intros d [->%elem_of_singleton|?]%elem_of_union; [done|by apply (po_handed _ _ HP)].
  - done.
  - unfold current. cbn. rewrite Hst. cbn. rewrite lookup_insert_eq. intros s0 [= <-]. destruct Hok. split; try done; cbn. split; [eauto|done].
Qed.

Lemma claim_fine t p st s c : Mode = ConnPoolSingle -> POK Mode p -> state p = Some st -> states p !! st = Some s -> shared s = Some c ->
  due t = [] -> signals t = None -> slotted t = false -> fine t p (claim st s c p).
Proof.
  intros Hm HP Hst Hs Hsh Hd Hsi Hsl. pose proof (POK_claim p st s c _ HP Hst Hs Hsh eq_refl) as HP'.
  unfold claim. set (s' := {| s with sharedClaimed := true |}) in *. set (p1 := setState st s' p) in *.
  assert (Hcur : current p = Some s) by by eapply current_Some. pose proof (po_current _ _ HP s Hcur) as Hok.
  pose proof (current_setState st s s' p Hs) as Hcur'. rewrite decide_True in Hcur' by done. pose proof (so_shared _ _ _ Hok c Hsh) as Hin.
  assert (E : (if negb (sharedClaimed s) then {| (hand c p1) with claims := claims (hand c p1) ++ [c] |} else hand c p1) =
    {| (hand c p1) with claims := if negb (sharedClaimed s) then claims p ++ [c] else claims p |}) by by destruct (negb _).
  cbn [fine goto]. rewrite E. apply good_hand; try done.
  - by eapply (po_all _ _ HP).
  - change p1 with (setState st s' p). rewrite Hcur'. intros s0 [= <-]. cbn. pose proof (so_mode _ _ _ Hok) as Hmode. rewrite Hm in Hmode. rewrite Hmode. set_solver.
  - intros u Hu _. split_and!; [by eapply TOK_update| |by rewrite Hm].
    intros Hn. destruct (to_newborn _ _ _ Hu c Hn) as (_ & _ & H). by apply (H st s).
  - intros d [?|(s0 & Hs0 & Hd0)]; [by left|]. right. exists s'. split; [done|]. rewrite Hcur in Hs0. by injection Hs0 as <-.
  - unfold slots. by rewrite Hsl.
  - by apply connecting_setState with s.
  - by apply signals_dials.
Qed.

Lemma remove_fine t p st s c cause t' : POK Mode p -> TOK Mode p t -> state p = Some st -> states p !! st = Some s -> c ∈ all s ->
  due t = [] -> signals t = None -> slotted t = false ->
  (t' = CloseConn c \/ t' = ClosingShared c /\ Mode = ConnPoolSingle) -> fine t p (goto (removeConn Mode st s c cause p) t').
Proof. intros ? ? ? ? ? ? ? ? [->|[-> Hm]]; cbn [fine goto]; apply good_remove; try done; try by apply signals_dials. intros m [= <-]. done. Qed.

Lemma start_fine p st s : Mode = ConnPoolSingle -> POK Mode p -> state p = Some st -> states p !! st = Some s -> shared s = None -> connecting s = None ->
  let k := nextConnect p in
  good Mode Shared p {| (setConnect k (mkConnPoolConnect false None) (setState st {| s with connecting := Some k |} p)) with nextConnect := S k |}
    (AwaitConnect st k true) (Some (ConnectSingle st k)).
Proof.
  intros Hm HP Hst Hs Hsh Hco k. set (s' := {| s with connecting := Some k |}). set (c := mkConnPoolConnect false None).
  assert (Hcur : current p = Some s) by by eapply current_Some. pose proof (po_current _ _ HP s Hcur) as Hok.
  pose proof (current_setState st s s' p Hs) as Hcur'. rewrite decide_True in Hcur' by done.
  set (p' := {| (setConnect k c _) with nextConnect := S k |}).
  assert (Hss : forall st1 s1, states p' !! st1 = Some s1 -> st1 = st /\ s1 = s' \/ st1 <> st /\ states p !! st1 = Some s1).
  { intros st1 s1. cbn. rewrite lookup_insert_Some. intros [[<- <-]|[? ?]]; auto. }
  assert (Hk : connects p' !! k = Some c) by (cbn; by rewrite lookup_insert_eq).
  assert (Hst' : states p' !! st = Some s') by (cbn; by rewrite lookup_insert_eq).
  assert (HT : forall u, TOK Mode p u -> TOK Mode p' u).
  { intros u Hu. apply (TOK_ext Mode (setConnect k c (setState st s' p))); try done. apply TOK_setConnect; [|done]. eapply TOK_update; try done. congruence. }
  assert (Hnew : forall u, TOK Mode p u -> signals u <> Some k).
  { intros u Hu Hsig. destruct (to_signals _ _ _ Hu k Hsig) as (c0 & Hc0 & _). apply (po_connects _ _ HP) in Hc0. unfold k in Hc0. lia. }
  split.
  - pose proof HP as []. split; cbn; try done.
    + intros st1 Hst1. rewrite lookup_insert_is_Some'. right. auto.
    + intros st1 s1 [[-> ->]|[_ ?]]%Hss; eauto.
    + intros k1 c1. rewrite lookup_insert_Some. intros [[<- _]|[_ ?%po_connects]]; unfold k in *; lia.
    + intros st1 s1 k1 [[-> ->]|[_ ?]]%Hss; [intros [= <-]; eauto|]. intros Hk1. apply lookup_insert_is_Some'. eauto.
    + intros st1 s1 d [[-> ->]|[_ ?]]%Hss; eauto.
    + intros s1 Hs1. change (current (setState st s' p) = Some s1) in Hs1. rewrite Hcur' in Hs1. injection Hs1 as <-. by destruct Hok.
  - apply TOK_quiet; try done; cbn -[p']; [intros ? [= <-]|intros ? [= <-]|intros ? [= <-]]; eauto.
  - intros u Hu H2. split; [auto|by apply T2_quiet].
  - intros v [= <-]. split_and!; [|by apply T2_quiet|done..|].
    + split; cbn -[p']; try done; try (by intros ? ? ?%elem_of_nil); try (by intros ? [= <-]; eauto); try (by intros ? ? [= <- <-]; eauto).
      intros d [Hin|?]; [cbn in Hin; set_solver|done].
    + intros u Hu. split; cbn; try done; [intros d Hd [Hin|?]; [cbn in Hin; set_solver|done]|]. intros ? [= <-]. auto.
  - done.
  - intros d Hd [[?|(s0 & Hs0 & Hin)]|[Hin|?]]; [left; by left| |cbn in Hin; set_solver|cbn in *; lia].
    left. right. exists s'. split; [done|]. rewrite Hcur in Hs0. by injection Hs0 as <-.
  - done.
  - intros k1 c1. cbn. rewrite lookup_insert_Some. intros [[<- <-]|[_ ?]] ?; right; [left; eauto|right; eauto].
  - intros st1 s1 k1 [[-> ->]|[_ ?]]%Hss; [intros [= <-]; right; left; eauto|]. intros Hk1. right; right. split; [done|eauto].
Qed.

Lemma acquireShared_fine p alive : POK Mode p -> TOK Mode p Shared -> fine Shared p (acquireShared Mode alive p).
Proof.
  intros HP HT. assert (Hm : Mode = ConnPoolSingle) by (symmetry; by apply (to_kind _ _ _ HT)). unfold acquireShared.
  destruct (closed p) eqn:Ec; [by apply good_done|]. destruct (open_state p HP Ec) as (st & s & Hst & Hs & Hcur). rewrite Hst, Hs.
  pose proof (po_current _ _ HP s Hcur) as Hok. destruct (shared s) as [c|] eqn:Esh.
  - destruct alive; [by apply claim_fine|]. apply remove_fine; auto. by apply (so_shared _ _ _ Hok).
  - destruct (connecting s) as [k|] eqn:Eco; [apply good_quiet; try done; cbn|].
    + intros ? [= <-]. eauto.
    + intros ? [= <-]. by eapply (po_connecting _ _ HP).
    + congruence.
    + pose proof (start_fine p st s Hm HP Hst Hs Esh Eco) as Hstart. cbn zeta in Hstart. by rewrite Esh in Hstart.
Qed.

Lemma collectShared_fine p st k b alive : POK Mode p -> TOK Mode p (Collect st k b) -> fine (Collect st k b) p (collectShared Mode st k b alive p).
Proof.
  intros HP HT. assert (Hm : Mode = ConnPoolSingle) by (symmetry; by apply (to_kind _ _ _ HT)).
  assert (Hagain : good Mode (Collect st k b) p p Shared None) by (apply good_quiet; try done; cbn; congruence).
  unfold collectShared. destruct (connects p !! k ≫= cn_err) as [err|]; [destruct b; [by apply good_done|done]|].
  destruct (closed p) eqn:Ec; [by apply good_done|]. case_bool_decide as Hst; [|by apply good_done]. cbn [negb].
  destruct (po_state _ _ HP st Hst) as [s Hs]. rewrite Hs. assert (Hcur : current p = Some s) by by eapply current_Some.
  destruct (shared s) as [c|] eqn:Esh; [|done]. destruct alive; [by apply claim_fine|]. apply remove_fine; auto. by apply (so_shared _ _ _ (po_current _ _ HP s Hcur)).
Qed.

(** ** The attempt *)

Lemma POK_connect p k c : POK Mode p -> is_Some (connects p !! k) -> POK Mode (setConnect k c p).
Proof. intros HP [c0 H]. apply POK_setConnect; [done|]. by eapply po_connects. Qed.

(** Writing the error of an attempt that is under way, or announcing its end. *)
Lemma good_setConnect t p p1 t' k c : good Mode t p p1 t' None -> signals t = Some k -> (signals t' = Some k -> cn_done c = false) ->
  (cn_done c = false -> signals t' = Some k) -> connects p1 = connects p -> TOK Mode p t -> good Mode t p (setConnect k c p1) t' None.
Proof.
  intros [G1 G2 G3 G4 G5 G6 G7 G8 G9] Hk Hc Hc' Hcon HT. destruct (to_signals _ _ _ HT k Hk) as (c0 & Hc0 & _). split; try done.
  - apply POK_connect; [done|]. rewrite Hcon. eauto.
  - by apply TOK_setConnect.
  - intros u Hu H2. destruct (G3 u Hu H2). split; [|done]. apply TOK_setConnect; [done|]. intros Hsu. by destruct (t2_signals _ _ _ H2 k Hk).
  - intros k1 c1. cbn. rewrite lookup_insert_Some. intros [[<- <-]|[Hne ?]] ?; [left; auto|by eapply G8].
Qed.

(** The end of an attempt: the state [s'] is not connecting any more. *)
Lemma publish_good p st k r s s' t' : POK Mode p -> TOK Mode p (Publish st k r) -> states p !! st = Some s -> connecting s = Some k ->
  connecting s' = None -> (state p = Some st -> SOK Mode p s') -> (forall c, c ∈ all s' -> c ∈ all s \/ newborn (Publish st k r) = Some c) ->
  all s ⊆ all s' -> idle s' = idle s -> (forall c, c ∈ due (Publish st k r) -> secured (setState st s' p) c \/ c ∈ due t') ->
  (t' = SignalDone k \/ exists c, t' = PublishClose k c /\ r = inr c /\ s' = {| s with connecting := None |}) ->
  good Mode (Publish st k r) p (setState st s' p) t' None.
Proof.
  intros HP HT Hs Hco Hco' Hok Ha Hsub Hi Hd Ht'. apply (good_update Mode _ p st s s'); try done.
  - congruence.
  - intros c Hc. left. by apply Hsub.
  - pose proof HT as []. destruct Ht' as [->|(c & -> & -> & ->)].
    + split; try done; cbn; [intros c [Hin%elem_of_nil|?]|intros c s0 Hin%elem_of_nil]; done.
    + split; try done; cbn -[setState].
      * intros c1 Hc1. destruct (to_newborn c1 Hc1) as (? & ? & Hn). split_and!; [done..|]. intros st1 s1. cbn. rewrite lookup_insert_Some.
        intros [[<- <-]|[_ ?]]; [by apply (Hn st s)|eauto].
      * intros c1 s1 Hc1. rewrite (current_setState st s) by done. destruct (decide _) as [Hst|]; [|by apply to_due].
        intros [= <-]. apply (to_due c1 s Hc1). by eapply current_Some.
  - intros u _ H2. destruct Ht' as [->|(c & -> & -> & _)].
    + eapply T2_less; [done|..]; try done. by intros c [Hin%elem_of_nil|?].
    + by eapply T2_less.
  - intros u c _ _. by rewrite Hi.
  - intros u k1 H2 Hu. rewrite Hco. intros [= <-]. exfalso. apply (t2_signals _ _ _ H2 k eq_refl). by eapply dials_signals.
  - by destruct Ht' as [->|(? & -> & _)].
  - by destruct Ht' as [->|(? & -> & _)].
  - left. split; [done|]. cbn. congruence.
Qed.

Lemma idle_SOK p s : SOK Mode p s -> SOK Mode p {| s with connecting := None |}.
Proof. intros []. split; try done. by intros [? ?]. Qed.

Lemma publish_SOK p st k s c : Mode = ConnPoolSingle -> POK Mode p -> SOK Mode p s -> connecting s = Some k -> TOK Mode p (Publish st k (inr c)) ->
  SOK Mode p {| s with shared := Some c; all := {[c]} ∪ all s; connecting := None |}.
Proof.
  intros Hm HP [H1 H2 H3 H4 H5 H6 H8 H7] Hco HT. destruct (to_newborn _ _ _ HT c eq_refl) as (Hn1 & Hn2 & _). destruct (po_claims _ _ HP) as [_ Hsub].
  rewrite Hm in H7. split; cbn; try done.
  - set_solver.
  - intros d [->%elem_of_singleton|?]%elem_of_union; auto.
  - intros d [= <-]. set_solver.
  - rewrite H6, H8 by eauto. split; [by intros (? & ? & _)|]. intros (d & [= <-] & Hd). destruct Hn2. apply Hsub. by apply elem_of_list_to_set.
  - by rewrite Hm.
Qed.

Lemma publish_fine p st k r : POK Mode p -> TOK Mode p (Publish st k r) -> fine (Publish st k r) p (publish st k r p).
Proof.
  intros HP HT. assert (Hm : Mode = ConnPoolSingle) by (symmetry; by apply (to_kind _ _ _ HT)).
  destruct (to_dials _ _ _ HT st k eq_refl) as (s & Hs & Hco). unfold publish. rewrite Hs.
  assert (Hok : state p = Some st -> SOK Mode p s) by (intros Hst; apply (po_current _ _ HP); by eapply current_Some).
  assert (Hidle : state p = Some st -> SOK Mode p {| s with connecting := None |}) by (intros Hst; by apply idle_SOK, Hok).
  destruct r as [err|c].
  - apply good_setConnect; try done. eapply publish_good; try done; auto.
  - destruct (closed p || _) eqn:Ecl; cbn [fine goto].
    + apply good_setConnect; try done. eapply publish_good; try done; eauto 6.
    + apply orb_false_iff in Ecl as [_ Hst%negb_false_iff%bool_decide_eq_true]. eapply publish_good; try done; eauto; cbn.
      * intros _. apply (publish_SOK p st k); auto.
      * intros d [->%elem_of_singleton|?]%elem_of_union; auto.
      * set_solver.
      * intros d ->%list_elem_of_singleton. left. right. eexists. split; [unfold current; cbn; rewrite Hst; cbn; by rewrite lookup_insert_eq|]. cbn. set_solver.
Qed.

Lemma signalDone_fine p k : POK Mode p -> TOK Mode p (SignalDone k) -> fine (SignalDone k) p (signalDone k p).
Proof.
  intros HP HT. destruct (to_signals _ _ _ HT k eq_refl) as (c & Hc & Hd). unfold signalDone. rewrite Hc, Hd.
  assert (HT2 : forall u, T2 Mode (Done None) u) by (intros; by apply T2_quiet).
  split; try done.
  - apply POK_connect; eauto.
  - by apply TOK_quiet.
  - intros u Hu H2. split; [|done]. apply TOK_setConnect; [done|]. intros Hsu. by destruct (t2_signals _ _ _ H2 k eq_refl).
  - intros d Hlt [?|[Hin%elem_of_nil|?]]; [by left|done|cbn in *; lia].
  - intros k1 c1. cbn. rewrite lookup_insert_Some. intros [[<- <-]|[Hne ?]] ?; [done|]. right; right. split; [congruence|eauto].
  - intros st s k1 Hs Hk. right; right. split; [done|eauto].
Qed.

(** ** Release and Invalidate *)

(** A connection that is not in the pool is closed. *)
Lemma close_untracked t p c : POK Mode p -> c < nextConn p -> (forall s, current p = Some s -> c ∉ all s) -> due t = [] -> signals t = None -> slotted t = false ->
  (forall u, TOK Mode p u -> T2 Mode t u -> newborn u <> Some c) -> good Mode t p p (CloseConn c) None.
Proof.
  intros HP Hc Ha Hd Hsi Hsl Hn. apply good_same; try done.
  - split; cbn; try done.
    + intros d [->%list_elem_of_singleton|?]; done.
    + intros d s ->%list_elem_of_singleton. auto.
  - intros u Hu H2. eapply T2_step; [done|..]; try done. intros d [->%list_elem_of_singleton|?]; [|done]. right. auto.
  - rewrite Hd. set_solver.
  - unfold slots. by rewrite Hsl.
  - by rewrite (signals_dials t).
Qed.

Lemma push_SOK p s c : Mode = ConnPoolOrdered -> SOK Mode p s -> c ∈ all s -> c ∉ idle s ->
  SOK Mode p {| s with idle := idle s ++ [c]; idleElements := {[c]} ∪ idleElements s |}.
Proof.
  intros Hm [H1 H2 H3 H4 H5 H6 H8 H7] Hc Hn. rewrite Hm in H7. split; cbn; try done.
  - apply NoDup_app. split_and!; [done| |apply NoDup_singleton]. by intros d Hd ->%list_elem_of_singleton.
  - rewrite H2, list_to_set_app_L. cbn. rewrite union_empty_r_L. apply union_comm_L.
  - rewrite list_to_set_app_L. cbn. set_solver.
  - by rewrite Hm.
Qed.

Lemma release_fine p c b reuse alive : POK Mode p -> TOK Mode p (Holding c b) -> fine (Holding c b) p (release Mode c reuse alive p).
Proof.
  intros HP HT. assert (Hbound : c < nextConn p) by (apply (to_bound _ _ _ HT); by right).
  assert (Hclose : (forall s, current p = Some s -> c ∉ all s) -> good Mode (Holding c b) p p (CloseConn c) None).
  { intros Ha. apply close_untracked; try done. intros u Hu H2 Hn. apply (t2_newborn' _ _ _ H2 c Hn). by right. }
  unfold release. destruct (closed p) eqn:Ec.
  { apply Hclose. rewrite (po_closed _ _ HP) in Ec. apply bool_decide_eq_true in Ec. unfold current. by rewrite Ec. }
  destruct (open_state p HP Ec) as (st & s & Hst & Hs & Hcur). rewrite Hst, Hs. pose proof (po_current _ _ HP s Hcur) as Hok.
  case_bool_decide as Hin; cbn [negb]; [|apply Hclose; intros s0; rewrite Hcur; by intros [= <-]].
  destruct (negb reuse || negb alive); [by apply remove_fine; auto|]. assert (Hm : Mode = ConnPoolSingle \/ Mode = ConnPoolOrdered) by (destruct Mode; auto).
  destruct Hm as [Hm|Hm]; rewrite Hm; [by apply good_done|].
  assert (Hi : c ∉ idle s) by (by eapply (to_holds _ _ _ HT)). case_bool_decide as He; [by apply good_done|].
  eapply (good_update Mode (Holding c b) p st s); try done; cbn; eauto; try (by intros ? ?%elem_of_nil).
  - intros _. by apply push_SOK.
  - intros k. by eapply po_connecting.
  - by apply TOK_quiet.
  - intros u _ _. by apply T2_quiet.
  - intros u d H2 Hu [?| ->%list_elem_of_singleton]%elem_of_app; [done|]. by destruct (t2_holds _ _ _ H2 Hm c eq_refl).
Qed.

Lemma invalidate_fine p c cause : POK Mode p -> c ∈ handed p -> fine (Done None) p (invalidate Mode c cause p).
Proof.
  intros HP Hh. assert (HT : TOK Mode p (Done None)) by by apply TOK_quiet. unfold invalidate. destruct (closed p) eqn:Ec.
  - apply close_untracked; try done; [by apply (po_handed _ _ HP)| |].
    + rewrite (po_closed _ _ HP) in Ec. apply bool_decide_eq_true in Ec. unfold current. by rewrite Ec.
    + intros u Hu _ Hn. by destruct (to_newborn _ _ _ Hu c Hn) as (_ & ? & _).
  - destruct (open_state p HP Ec) as (st & s & Hst & Hs & Hcur). rewrite Hst, Hs.
    case_bool_decide as Hin; [by apply remove_fine; auto|by apply good_done].
Qed.

(** ** Reset and Close *)

(** The state is not the current one any more. *)
Lemma retire_good p p' old s : POK Mode p -> state p = Some old -> states p !! old = Some s -> POK Mode p' ->
  (forall s', current p' = Some s' -> s' = newConnPoolState) -> (forall st s0, states p !! st = Some s0 -> states p' !! st = Some s0) ->
  (forall st s', states p' !! st = Some s' -> states p !! st = Some s' \/ s' = newConnPoolState) ->
  nextConn p' = nextConn p -> closes p' = closes p -> handed p' = handed p -> connects p' = connects p -> free p' = free p ->
  good Mode (Done None) p p' (CancelState old (elements (all s))) None.
Proof.
  intros HP Hst Hs HP' Hcur Hkeep Hnew Hnc Hcl Hha Hco Hfr. assert (Hcurp : current p = Some s) by by eapply current_Some.
  assert (HT : forall u, TOK Mode p u -> TOK Mode p' u).
  { intros u Hu. eapply (TOK_evolves Mode (fun _ => False) (fun _ => False) (fun _ => False) (fun _ => False) (fun _ => False)); [|done|naive_solver..].
    split; rewrite ?Hnc, ?Hcl, ?Hha, ?Hco; eauto.
    - intros st s' c Hs' Hin. destruct (Hnew st s' Hs') as [?| ->]; [eauto|]. by apply elem_of_empty in Hin.
    - intros s' c ->%Hcur Hin. by apply elem_of_empty in Hin.
    - intros s' c ->%Hcur Hin. by apply elem_of_nil in Hin.
    - intros st [s0 ?]. eauto. }
  split; try done.
  - split; cbn; try done.
    + intros c [Hin|?]; [|done]. cbn in Hin. apply elem_of_elements in Hin. rewrite Hnc. by eapply (po_all _ _ HP).
    + intros c s' _ ->%Hcur. apply not_elem_of_empty.
    + intros st [= <-]. eauto.
  - intros u Hu H2. split; [auto|]. eapply T2_step; [done|..]; try done. intros c [Hin|?]; [|done]. cbn in Hin. apply elem_of_elements in Hin. right. intros Hn.
    destruct (to_newborn _ _ _ Hu c Hn) as (_ & _ & H). by apply (H old s).
  - lia.
  - intros c Hc [[?|(s0 & Hs0 & Hin)]|[Hin%elem_of_nil|?]]; [left; left; by rewrite Hcl| |done|lia].
    right. cbn. apply elem_of_elements. rewrite Hcurp in Hs0. by injection Hs0 as <-.
  - unfold slots. by rewrite Hfr.
  - by apply attempts_same.
  - apply connecting_same; [|done]. intros st s' k Hs' Hk. destruct (Hnew st s' Hs') as [?| ->]; [eauto|done].
Qed.

Lemma newState_SOK p : SOK Mode p newConnPoolState.
Proof. split; cbn; try done; [apply NoDup_nil_2| |by destruct Mode]. split; [done|]. by intros (? & ? & _). Qed.

Lemma reset_fine p : POK Mode p -> fine (Done None) p (reset p).
Proof.
  intros HP. unfold reset. destruct (closed p) eqn:Ec; [by apply good_done|]. destruct (open_state p HP Ec) as (st & s & Hst & Hs & Hcur). rewrite Hst, Hs.
  assert (Hfresh : states p !! nextState p = None).
  { destruct (states p !! nextState p) eqn:E; [|done]. apply (po_states _ _ HP) in E. lia. }
  set (p' := {| (setState _ _ p) with state := _; nextState := _ |}). cbn [fine goto].
  assert (Hnew : forall st1 s1, states p' !! st1 = Some s1 -> st1 = nextState p /\ s1 = newConnPoolState \/ states p !! st1 = Some s1).
  { intros st1 s1. cbn. rewrite lookup_insert_Some. intros [[<- <-]|[_ ?]]; auto. }
  assert (Hkeep : forall st1 s1, states p !! st1 = Some s1 -> states p' !! st1 = Some s1).
  { intros st1 s1 H. cbn. rewrite lookup_insert_ne by congruence. done. }
  assert (Hcur' : forall s', current p' = Some s' -> s' = newConnPoolState).
  { intros s'. unfold current. cbn. rewrite lookup_insert_eq. by intros [= <-]. }
  eapply retire_good; try done.
  - pose proof HP as []. split; try done.
    + intros st1 [= <-]. cbn. rewrite lookup_insert_eq. eauto.
    + intros st1 s1 [[-> ->]|?]%Hnew; cbn; [lia|]. apply Nat.lt_lt_succ_r. eauto.
    + intros st1 s1 k [[-> ->]|?]%Hnew; [done|]. eauto.
    + intros st1 s1 c [[-> ->]|?]%Hnew; [intros Hin; by apply elem_of_empty in Hin|]. eauto.
    + intros s1 ->%Hcur'. apply newState_SOK.
  - intros st1 s1 [[_ ->]|?]%Hnew; auto.
Qed.

Lemma close_fine p : POK Mode p -> fine (Done None) p (close p).
Proof.
  intros HP. unfold close. destruct (closed p) eqn:Ec; [by apply good_done|]. destruct (open_state p HP Ec) as (st & s & Hst & Hs & Hcur). rewrite Hst, Hs.
  eapply retire_good; try done; auto. pose proof HP as []. by split.
Qed.

(** ** All steps *)

Lemma close_due t p c t' : POK Mode p -> TOK Mode p t -> due t = c :: due t' -> newborn t' = None -> holds t' = None ->
  signals t' = signals t -> dials t' = dials t -> (forall st, knows t' = Some st -> knows t = Some st) -> waits t' = None ->
  (forall m, kind t' = Some m -> kind t = Some m) -> slotted t' = slotted t -> fine t p (goto (closeConn c p) t').
Proof.
  intros HP HT Hd **. apply good_close; try done; rewrite Hd; [apply list_elem_of_here| |]; intros d; [intros ?%elem_of_cons; naive_solver|].
  intros. by apply list_elem_of_further.
Qed.

Lemma cancel_fine p st conns : POK Mode p -> TOK Mode p (CancelState st conns) -> fine (CancelState st conns) p (closeState st conns p).
Proof.
  intros HP HT. destruct (to_knows _ _ _ HT st eq_refl) as [s Hs]. unfold closeState. rewrite Hs. set (s' := {| s with st_cause := _ |}).
  eapply (good_update Mode _ p st s s'); try done; auto.
  - intros Hst. assert (Hok : SOK Mode p s) by (apply (po_current _ _ HP); by eapply current_Some). by destruct Hok.
  - intros k Hk. by apply (po_connecting _ _ HP st s k).
  - eapply TOK_update; try done. pose proof HT as []. by split.
  - intros u _ H2. by eapply T2_less.
Qed.

Lemma dialAndInstall_fine p st dialed cause : POK Mode p -> TOK Mode p (DialOrdered st) -> fine (DialOrdered st) p (dialAndInstall st dialed cause p).
Proof.
  intros HP HT. unfold dialAndInstall. destruct dialed as [err|]; [apply good_quiet; try done; apply HT|]. cbn [newConn]. destruct cause; by apply (good_dial (DialOrdered st) p).
Qed.

Lemma connectSingle_fine p st k dialed cause : POK Mode p -> TOK Mode p (ConnectSingle st k) -> fine (ConnectSingle st k) p (connectSingle st k dialed cause p).
Proof.
  intros HP HT. unfold connectSingle. destruct dialed as [err|].
  - apply good_same; try done; [|intros u _ H2; by eapply T2_less]. pose proof HT as []. by split.
  - cbn [newConn]. destruct cause; by apply (good_dial (ConnectSingle st k) p).
Qed.

Lemma resume_fine p max i t : POK Mode p -> TOK Mode p t -> (forall n, free p = Some n -> slotted t = true -> n < max) ->
  fine t p (resume Mode max i t p).
Proof.
  intros HP HT Hsl. pose proof (to_kind _ _ _ HT) as Hki. pose proof (to_knows _ _ _ HT) as Hkn. pose proof (to_waits _ _ _ HT) as Hwa.
  destruct t, i; cbn [resume acquireSlot awaitShared]; try done; try (by apply close_due); try (by apply good_done); try by destruct conns.
  - by apply acquireOrdered_fine.
  - destruct (free p) as [[|n]|] eqn:Ef; try done. apply good_free; try done. unfold slots. rewrite Ef. cbn. f_equal. lia.
  - destruct ctxErr, (states p !! st ≫= st_cause); by try apply good_done.
  - by apply dialAndInstall_fine.
  - by apply install_fine.
  - apply releaseSlot_fine; auto.
  - by apply acquireShared_fine.
  - destruct (connects p !! k) as [c|] eqn:Ek; [|done]. destruct (cn_done c); [|done]. apply good_quiet; try done; cbn; auto.
  - destruct (states p !! st ≫= st_cause); [|done]. destruct (closed p); [by apply good_done|]. by apply good_quiet.
  - by apply collectShared_fine.
  - by apply connectSingle_fine.
  - by apply publish_fine.
  - by apply signalDone_fine.
  - by apply release_fine.
  - by apply cancel_fine.
  - destruct conns; [by apply good_done|by apply close_due].
Qed.

End Steps.
