(* ===== verification/ConnPoolTheorems.v ===== *)
(** * Properties of the connection pool under any interleaving of its calls *)

From S2P Require Import Prelude GoStd ConnPool ConnPoolInv ConnPoolSteps.
From stdpp Require Import list.
Import ConnPool.

Open Scope nat_scope.

(** The calls that have a slot of the semaphore. *)
Definition dialing (m : gmap nat thread) : nat := size (filter (fun kt => slotted kt.2 = true) m).

(** The thread with the number; a thread that does not exist is like one that is done. *)
Definition get (w : world) (tid : nat) : thread := default (Done None) (threads w !! tid).

Lemma dialing_insert m tid t : dialing (<[tid := t]> m) + Nat.b2n (slotted (default (Done None) (m !! tid))) = dialing m + Nat.b2n (slotted t).
Proof.
  unfold dialing. rewrite <- insert_delete_eq. set (m0 := delete tid m). assert (Hm0 : m0 !! tid = None) by apply lookup_delete_eq.
  assert (Hadd : forall u, size (filter (fun kt => slotted kt.2 = true) (<[tid := u]> m0)) = size (filter (fun kt => slotted kt.2 = true) m0) + Nat.b2n (slotted u)).
  { intros u. destruct (slotted u) eqn:E.
    - rewrite map_filter_insert_True by done. rewrite map_size_insert_None; [cbn; lia|]. by apply map_lookup_filter_None; left.
    - rewrite map_filter_insert_not'; [cbn; lia|cbn; congruence|intros y; by rewrite Hm0]. }
  rewrite Hadd. destruct (m !! tid) as [u|] eqn:E; cbn.
  - rewrite <- (insert_id m tid u E). rewrite <- insert_delete_eq. rewrite Hadd. lia.
  - unfold m0. rewrite delete_id by done. lia.
Qed.

Lemma acquire_fine M p : POK M p -> fine M (Done None) p (goto p (match M with ConnPoolSingle => Shared | ConnPoolOrdered => Ordered end)).
Proof. intros HP. destruct M; apply good_quiet; try done; cbn; congruence. Qed.

Section Pool.
Context (Mode : ConnPoolMode) (max : nat).

Record WOK (w : world) : Prop := mkWOK {
  wo_pool : POK Mode (pool_ w);
  wo_threads : forall tid, TOK Mode (pool_ w) (get w tid);
  wo_pairs : forall tid tid', tid <> tid' -> T2 Mode (get w tid) (get w tid');
  wo_secured : forall c, c < nextConn (pool_ w) -> secured (pool_ w) c \/ exists tid, c ∈ due (get w tid);
  wo_slots : forall n, free (pool_ w) = Some n -> n + dialing (threads w) = max;
  wo_semaphore : Mode = ConnPoolOrdered -> 0 < max -> is_Some (free (pool_ w));
  wo_attempts : forall k c, connects (pool_ w) !! k = Some c -> cn_done c = false -> exists tid, signals (get w tid) = Some k;
  wo_connecting : forall st s k, states (pool_ w) !! st = Some s -> connecting s = Some k -> exists tid, dials (get w tid) = Some (st, k);
}.

(** ** Worlds after a step *)

(** The threads after a step of [tid] that may start [g]. *)
Definition put (tid spawn : nat) (t : thread) (g : option thread) (m : gmap nat thread) : gmap nat thread :=
  match g with Some v => <[spawn := v]> (<[tid := t]> m) | None => <[tid := t]> m end.

Section Put.
Context (w : world) (tid spawn : nat) (p' : pool) (t' : thread) (g : option thread).
Hypothesis Hspawn : is_Some g -> spawn <> tid /\ threads w !! spawn = None.
Let w' := mkWorld p' (put tid spawn t' g (threads w)).

Lemma get_tid : get w' tid = t'.
Proof.
  unfold w', get, put. cbn. destruct g as [v|]; [|by rewrite lookup_insert_eq]. destruct Hspawn; [eauto|].
  rewrite lookup_insert_ne by done. by rewrite lookup_insert_eq.
Qed.
Lemma get_spawn v : g = Some v -> get w' spawn = v.
Proof. intros ->. unfold w', get, put. cbn. by rewrite lookup_insert_eq. Qed.
Lemma get_other x : x <> tid -> (is_Some g -> x <> spawn) -> get w' x = get w x.
Proof.
  intros Hx Hs. unfold w', get, put. cbn. destruct g as [v|]; rewrite !lookup_insert_ne; try done. intros ->. by apply Hs.
Qed.
(** A thread that had something before the step was not started by it. *)
Lemma get_busy x : get w x <> Done None -> x <> tid -> get w' x = get w x.
Proof.
  intros Hb Hx. apply get_other; [done|]. intros Hg ->. destruct (Hspawn Hg) as [_ E]. unfold get in Hb. by rewrite E in Hb.
Qed.
Lemma get_cases x : x = tid /\ get w' x = t' \/ (exists v, g = Some v /\ x = spawn /\ x <> tid /\ get w' x = v) \/ x <> tid /\ get w' x = get w x.
Proof.
  destruct (decide (x = tid)) as [->|Hx]; [left; split; [done|apply get_tid]|]. right. destruct (decide (is_Some g)) as [[v E]|E].
  - destruct (decide (x = spawn)) as [->|Hs]; [left; exists v; split_and!; try done; by apply get_spawn|]. right. split; [done|]. by apply get_other.
  - right. split; [done|]. by apply get_other.
Qed.

Lemma dialing_put : (forall v, g = Some v -> slotted v = false) ->
  dialing (threads w') + Nat.b2n (slotted (get w tid)) = dialing (threads w) + Nat.b2n (slotted t').
Proof.
  intros Hv. unfold w', put, get. cbn. pose proof (dialing_insert (threads w) tid t') as H. destruct g as [v|]; [|done].
  pose proof (dialing_insert (<[tid := t']> (threads w)) spawn v) as H'. destruct Hspawn as [Hne Hs]; [eauto|].
  rewrite lookup_insert_ne in H' by done. rewrite Hs in H'. rewrite (Hv v eq_refl) in H'. cbn in *. lia.
Qed.

Lemma WOK_put : WOK w -> good Mode (get w tid) (pool_ w) p' t' g -> WOK w'.
Proof.
  intros W [G1 G2 G3 G4 G5 G6 G7 G8 G9]. assert (Hoth : forall x, x <> tid -> TOK Mode p' (get w x) /\ T2 Mode t' (get w x)).
  { intros x Hx. apply G3; [apply W|]. by apply (wo_pairs _ W). }
  split; cbn [w' pool_].
  - done.
  - intros x. destruct (get_cases x) as [[-> ->]|[(v & Hv & -> & _ & ->)|[Hx ->]]]; [done|by apply G4|by apply Hoth].
  - intros x y Hxy. destruct (get_cases x) as [[Hx ->]|[(v & Hv & Hx & Hx' & ->)|[Hx ->]]], (get_cases y) as [[Hy ->]|[(v' & Hv' & Hy & Hy' & ->)|[Hy ->]]];
      try congruence; try (by apply Hoth); try (apply T2_sym; by apply Hoth); try (by apply (wo_pairs _ W)).
    + by destruct (G4 v' Hv') as (_ & ? & _).
    + apply T2_sym. by destruct (G4 v Hv) as (_ & ? & _).
    + destruct (G4 v Hv) as (_ & _ & _ & _ & H). apply H, W.
    + apply T2_sym. destruct (G4 v' Hv') as (_ & _ & _ & _ & H). apply H, W.
  - intros c Hc. assert (H : secured p' c \/ c ∈ due t' \/ exists x, x <> tid /\ c ∈ due (get w x)).
    { destruct (decide (nextConn (pool_ w) <= c)) as [Hle|Hlt]; [destruct (G6 c Hc); auto|].
      destruct (wo_secured _ W c ltac:(lia)) as [Hs|(x & Hx)]; [destruct (G6 c Hc); auto|].
      destruct (decide (x = tid)) as [->|]; [destruct (G6 c Hc); auto|eauto]. }
    destruct H as [?|[?|(x & Hx & Hd)]]; [by left|right; exists tid; by rewrite get_tid|].
    right. exists x. rewrite get_busy; [done| |done]. intros E. rewrite E in Hd. by apply elem_of_nil in Hd.
  - intros n Hn. unfold slots in G7. cbn in Hn. rewrite Hn in G7. destruct (free (pool_ w)) as [n0|] eqn:E; [|done]. injection G7 as G7.
    pose proof (wo_slots _ W n0 E). assert (Hv : forall v, g = Some v -> slotted v = false) by (intros v Hv; by apply G4). pose proof (dialing_put Hv). lia.
  - intros Hm Hpos. destruct (wo_semaphore _ W Hm Hpos) as [n Hn]. unfold slots in G7. cbn. rewrite Hn in G7. by destruct (free p').
  - intros k c Hk Hd. destruct (G8 k c Hk Hd) as [?|[(v & Hv & ?)|(Hne & c0 & Hc0 & Hd0)]]; [exists tid; by rewrite get_tid|exists spawn; by rewrite (get_spawn v)|].
    destruct (wo_attempts _ W k c0 Hc0 Hd0) as (x & Hx). exists x. rewrite get_busy; [done| |congruence]. intros E. by rewrite E in Hx.
  - intros st s k Hs Hk. destruct (G9 st s k Hs Hk) as [?|[(v & Hv & ?)|(Hne & s0 & Hs0 & Hk0)]]; [exists tid; by rewrite get_tid|exists spawn; by rewrite (get_spawn v)|].
    destruct (wo_connecting _ W st s0 k Hs0 Hk0) as (x & Hx). exists x. rewrite get_busy; [done| |congruence]. intros E. by rewrite E in Hx.
Qed.

End Put.

Lemma continue_put tid spawn p t g w : continue tid spawn (Some (Ok (p, t, g))) w =
  if bool_decide (is_Some g /\ (spawn = tid \/ is_Some (threads w !! spawn))) then None else Some (Ok (mkWorld p (put tid spawn t g (threads w)))).
Proof.
  destruct g as [v|]; cbn [continue put].
  - case_bool_decide as H; [by rewrite bool_decide_eq_true_2 by eauto|]. rewrite bool_decide_eq_false_2; [done|]. by intros [_ ?].
  - rewrite bool_decide_eq_false_2; [done|]. by intros [[? ?] _].
Qed.

Lemma continue_WOK tid spawn n w out : WOK w -> fine Mode (get w tid) (pool_ w) n -> continue tid spawn n w = Some out -> exists w', out = Ok w' /\ WOK w'.
Proof.
  intros W F. destruct n as [[[[p' t'] g]|err|msg]|]; [|done..]. rewrite continue_put. case_bool_decide as Hs; [done|].
  intros [= <-]. eexists. split; [done|]. apply WOK_put; [|done..]. intros Hg. split; [naive_solver|]. apply eq_None_not_Some. naive_solver.
Qed.

Lemma get_Some w tid t : threads w !! tid = Some t -> get w tid = t.
Proof. intros H. unfold get. by rewrite H. Qed.

Lemma slotted_dialing w tid : slotted (get w tid) = true -> 0 < dialing (threads w).
Proof. intros H. pose proof (dialing_insert (threads w) tid (Done None)) as E. fold (get w tid) in E. rewrite H in E. cbn in E. lia. Qed.

Lemma step_WOK a w out : WOK w -> step Mode max a w = Some out -> exists w', out = Ok w' /\ WOK w'.
Proof.
  intros W. pose proof (wo_pool _ W) as HP.
  assert (Hstart : forall tid n, fine Mode (Done None) (pool_ w) n ->
    (if bool_decide (is_Some (threads w !! tid)) then None else continue tid tid n w) = Some out -> exists w', out = Ok w' /\ WOK w').
  { intros tid n Hn. case_bool_decide as E; [done|]. apply continue_WOK; [done|]. unfold get. by rewrite (proj2 (eq_None_not_Some _) E). }
  destruct a as [tid|tid c cause|tid|tid|tid spawn i]; cbn [step].
  - apply Hstart. by apply acquire_fine.
  - case_bool_decide; [|done]. apply Hstart. by apply invalidate_fine.
  - apply Hstart. by apply reset_fine.
  - apply Hstart. by apply close_fine.
  - destruct (threads w !! tid) as [t|] eqn:Et; [|done]. pose proof (get_Some w tid t Et) as E. apply continue_WOK; [done|]. rewrite E. apply resume_fine; [done|rewrite <- E; apply W|].
    intros n Hn Hsl. pose proof (wo_slots _ W n Hn). rewrite <- E in Hsl. apply slotted_dialing in Hsl. lia.
Qed.

Lemma run_WOK actions w out : WOK w -> run Mode max actions w = Some out -> exists w', out = Ok w' /\ WOK w'.
Proof.
  revert w. induction actions as [|a actions IH]; cbn; intros w W; [intros [= <-]; eauto|].
  destruct (step Mode max a w) as [out'|] eqn:E; [|done]. destruct (step_WOK a w out' W E) as (w1 & -> & W1). by apply IH.
Qed.

Lemma newWorld_WOK : WOK (newWorld Mode max).
Proof.
  assert (Hs : forall st s, ({[0 := newConnPoolState]} : gmap nat connPoolState) !! st = Some s -> st = 0 /\ s = newConnPoolState).
  { intros st s. rewrite lookup_singleton_Some. by intros [<- <-]. }
  split; cbn; try done.
  - split; cbn; try done.
    + intros st [= <-]. rewrite lookup_singleton_eq. eauto.
    + intros st s [-> _]%Hs. lia.
    + by intros st s k [-> ->]%Hs.
    + intros st s c [-> ->]%Hs Hin. by apply elem_of_empty in Hin.
    + intros c Hin. by apply elem_of_nil in Hin.
    + split; [apply NoDup_nil_2|done].
    + intros s. unfold current. cbn. rewrite lookup_singleton_eq. intros [= <-]. apply newState_SOK.
  - intros tid. by apply TOK_quiet.
  - intros c. lia.
  - intros n. destruct Mode; [done|]. destruct max; [done|]. intros [= <-]. unfold dialing. rewrite map_filter_empty, map_size_empty. lia.
  - intros -> Hpos. destruct max; [lia|]. by eexists.
  - intros st s k [-> ->]%Hs. done.
Qed.

(** ** What holds in every run *)

Lemma reachable actions out : run Mode max actions (newWorld Mode max) = Some out -> exists w, out = Ok w /\ WOK w.
Proof. apply run_WOK, newWorld_WOK. Qed.

(** C18: in every interleaving of calls of the pool: no panic; a connection that is handed out in ordered mode
    has one user and is not idle; the connections of the pool are open; a shared connection is marked as
    new for one caller; the semaphore bounds the dials; a state of the pool has at most one attempt
    to connect under way. *)
Theorem conn_pool_sound actions out : run Mode max actions (newWorld Mode max) = Some out -> exists w, out = Ok w /\
  (Mode = ConnPoolOrdered -> forall tid c b, threads w !! tid = Some (Holding c b) ->
     (forall tid' b', threads w !! tid' = Some (Holding c b') -> tid' = tid) /\ forall s, current (pool_ w) = Some s -> c ∉ idle s) /\
  (forall s c, current (pool_ w) = Some s -> c ∈ all s -> c ∉ closes (pool_ w)) /\
  NoDup (claims (pool_ w)) /\
  (Mode = ConnPoolOrdered -> 0 < max -> dialing (threads w) <= max) /\
  forall tid tid' t t' st k k', threads w !! tid = Some t -> threads w !! tid' = Some t' -> dials t = Some (st, k) -> dials t' = Some (st, k') -> tid = tid'.
Proof.
  intros (w & -> & W)%reachable. exists w. split; [done|]. split_and!.
  - intros Hm tid c b E%get_Some. split.
    + intros tid' b' E'%get_Some. destruct (decide (tid' = tid)) as [|Hne]; [done|]. pose proof (t2_holds _ _ _ (wo_pairs _ W tid' tid Hne) Hm c) as H.
      rewrite E, E' in H. by destruct H.
    + intros s Hs. apply (to_holds _ _ _ (wo_threads _ W tid)); [by rewrite E|done].
  - intros s c Hs. apply (so_open _ _ _ (po_current _ _ (wo_pool _ W) s Hs)).
  - apply (po_claims _ _ (wo_pool _ W)).
  - intros Hm Hpos. destruct (wo_semaphore _ W Hm Hpos) as [n Hn]. pose proof (wo_slots _ W n Hn). lia.
  - intros tid tid' t t' st k k' <-%get_Some <-%get_Some H H'. destruct (decide (tid = tid')) as [|Hne]; [done|].
    destruct (to_dials _ _ _ (wo_threads _ W tid) st k H) as (s & Hs & Hk). destruct (to_dials _ _ _ (wo_threads _ W tid') st k' H') as (s' & Hs' & Hk').
    assert (k' = k) as -> by congruence. by destruct (t2_signals _ _ _ (wo_pairs _ W tid tid' Hne) k (dials_signals _ _ _ H) (dials_signals _ _ _ H')).
Qed.

(** C19: no connection is lost: when no call is about to close or to keep one, every connection that was dialed is closed
    or belongs to the pool, and all are closed once the pool is. *)
Theorem conn_pool_leaks_nothing actions w : run Mode max actions (newWorld Mode max) = Some (Ok w) ->
  (forall tid t, threads w !! tid = Some t -> due t = []) -> forall c, c < nextConn (pool_ w) ->
  c ∈ closes (pool_ w) \/ closed (pool_ w) = false /\ exists s, current (pool_ w) = Some s /\ c ∈ all s.
Proof.
  intros (w0 & [= <-] & W)%reachable Hd c Hc. destruct (wo_secured _ W c Hc) as [[?|(s & Hs & Hin)]|(tid & Hin)]; [by left| |].
  - right. split; [|eauto]. rewrite (po_closed _ _ (wo_pool _ W)). apply bool_decide_eq_false. apply current_states in Hs as (st & -> & _). done.
  - exfalso. unfold get in Hin. destruct (threads w !! tid) as [t|] eqn:E; cbn in Hin; [rewrite (Hd tid t E) in Hin|]; by apply elem_of_nil in Hin.
Qed.

(** ** Attempts end *)

Definition rank (t : thread) : nat :=
  match t with ConnectSingle _ _ => 4 | CloseConnected _ _ _ _ => 3 | Publish _ _ _ => 2 | PublishClose _ _ => 1 | _ => 0 end.
Definition ended (w : world) (k : nat) : Prop := exists c, connects (pool_ w) !! k = Some c /\ cn_done c = true.

Lemma step_goto w tid t i p' t' : threads w !! tid = Some t -> resume Mode max i t (pool_ w) = goto p' t' ->
  step Mode max (Run tid tid i) w = Some (Ok (mkWorld p' (<[tid := t']> (threads w)))).
Proof. intros Ht Hr. cbn. by rewrite Ht, Hr. Qed.

(** One step of the goroutine of the attempt [k], with [d] what its dial does. *)
Lemma attempt_step w tid t k d : WOK w -> threads w !! tid = Some t -> signals t = Some k -> (exists e x f, d = DialReturns e x f) ->
  exists i p' t', (i = Section true \/ i = d) /\ resume Mode max i t (pool_ w) = goto p' t' /\
    ((exists c, connects p' !! k = Some c /\ cn_done c = true) \/ signals t' = Some k /\ rank t' < rank t).
Proof.
  intros W Ht Hk (dialed & ctxErr & stateFirst & ->). pose proof (wo_threads _ W tid) as HT. rewrite (get_Some w tid t Ht) in HT.
  destruct t; cbn in Hk; simplify_eq.
  - exists (DialReturns dialed ctxErr stateFirst). destruct dialed as [err|]; [|destruct (dialErr st ctxErr stateFirst (pool_ w)) as [err|] eqn:E];
      cbn; rewrite ?E; eexists _, _; (split_and!; [by right|done|]); right; cbn; (split; [done|lia]).
  - exists (Section true). eexists _, _. split_and!; [by left|done|]. right. cbn. split; [done|lia].
  - exists (Section true). destruct (to_dials _ _ _ HT st k eq_refl) as (s & Hs & _). cbn. unfold publish. rewrite Hs.
    destruct r as [err|c]; [|destruct (closed (pool_ w) || _)]; (eexists _, _; split_and!; [by left|done|]; right; cbn; split; [done|lia]).
  - exists (Section true). eexists _, _. split_and!; [by left|done|]. right. cbn. split; [done|lia].
  - exists (Section true). destruct (to_signals _ _ _ HT k eq_refl) as (c & Hc & Hd). cbn. unfold signalDone. rewrite Hc, Hd.
    eexists _, _. split_and!; [by left|done|]. left. cbn. rewrite lookup_insert_eq. eauto.
Qed.

Lemma attempt_ends w tid t k d : WOK w -> threads w !! tid = Some t -> signals t = Some k -> (exists e x f, d = DialReturns e x f) ->
  exists inputs w', Forall (fun i => i = Section true \/ i = d) inputs /\ length inputs <= S (rank t) /\ run Mode max (Run tid tid <$> inputs) w = Some (Ok w') /\
    (forall x, x <> tid -> threads w' !! x = threads w !! x) /\ ended w' k.
Proof.
  remember (rank t) as n eqn:En. revert w t En. induction (lt_wf n) as [n _ IH]. intros w t -> W Ht Hk Hd.
  destruct (attempt_step w tid t k d W Ht Hk Hd) as (i & p' & t' & Hi & Hr & Hnext). pose proof (step_goto w tid t i p' t' Ht Hr) as Hstep.
  destruct Hnext as [He|[Hk' Hrank]].
  - exists [i], (mkWorld p' (<[tid := t']> (threads w))). split_and!; [by apply Forall_singleton|cbn; lia| | |done].
    + cbn [fmap list_fmap run]. by rewrite Hstep.
    + intros x Hx. cbn. by rewrite lookup_insert_ne.
  - destruct (step_WOK _ _ _ W Hstep) as (w1 & [= <-] & W1). set (w1 := mkWorld _ _) in *.
    destruct (IH (rank t') Hrank w1 t' eq_refl W1) as (inputs & w' & H1 & H2 & H3 & H4 & H5); [by apply lookup_insert_eq|done..|].
    exists (i :: inputs), w'. split_and!; [by constructor|cbn; lia| | |done].
    + cbn [fmap list_fmap run]. by rewrite Hstep.
    + intros x Hx. rewrite H4 by done. cbn. by rewrite lookup_insert_ne.
Qed.

(** C20: a caller that waits for an attempt to connect can be woken up: the attempt is over, or somebody makes it and, whatever
    its dial does, at most five steps of that goroutine later the caller can go on. *)
Theorem conn_pool_waiters_wake actions w tid st k b d : run Mode max actions (newWorld Mode max) = Some (Ok w) ->
  threads w !! tid = Some (AwaitConnect st k b) -> (exists e x f, d = DialReturns e x f) ->
  exists tid' inputs w', Forall (fun i => i = Section true \/ i = d) inputs /\ length inputs <= 5 /\ run Mode max (Run tid' tid' <$> inputs) w = Some (Ok w') /\
    threads w' !! tid = Some (AwaitConnect st k b) /\ is_Some (step Mode max (Run tid tid ConnectDone) w').
Proof.
  intros (w0 & [= <-] & W)%reachable Ht Hd. assert (Hwake : forall w', ended w' k -> threads w' !! tid = Some (AwaitConnect st k b) ->
    is_Some (step Mode max (Run tid tid ConnectDone) w')) by (intros w' (c & Hc & Hdone) Ht'; cbn; rewrite Ht'; cbn; rewrite Hc, Hdone; eauto).
  pose proof (to_waits _ _ _ (wo_threads _ W tid) k) as Hw. rewrite (get_Some w tid _ Ht) in Hw. destruct (Hw eq_refl) as [c Hc].
  destruct (cn_done c) eqn:Ed.
  - exists tid, [], w. split_and!; [done|cbn; lia|done..|]. apply Hwake; [exists c|]; done.
  - destruct (wo_attempts _ W k c Hc Ed) as (tid' & Hs). unfold get in Hs. destruct (threads w !! tid') as [t|] eqn:Et; [|done].
    destruct (attempt_ends w tid' t k d W Et Hs Hd) as (inputs & w' & H1 & H2 & H3 & H4 & H5). assert (Hne : tid <> tid') by (intros ->; rewrite Et in Ht; by simplify_eq).
    exists tid', inputs, w'. split_and!; [done| |done|by rewrite H4|]; [destruct t; cbn in H2; lia|]. apply Hwake; [done|by rewrite H4].
Qed.

End Pool.

(** ** Runs *)

Definition dialed : input := DialReturns None None false.
Definition result_of (Mode : ConnPoolMode) (max : nat) (actions : list action) : world :=
  match run Mode max actions (newWorld Mode max) with Some (Ok w) => w | _ => newWorld Mode max end.

(** Two callers of a pool with one slot: the first dials and gives its connection back, the
    second waited for the slot and dials another one, a third gets the idle connection. *)
Definition ordered_calls : list action :=
  let go tid i := Run tid tid i in
  [Acquire 0; go 0 (Section true); go 0 TakeSlot; Acquire 1; go 1 (Section true); go 0 dialed; go 0 (Section true); go 0 (Section true);
   go 0 (Release true true); go 1 TakeSlot; go 1 dialed; go 1 (Section true); go 1 (Section true); Acquire 2; go 2 (Section true)].
Definition ordered_world : world := result_of ConnPoolOrdered 1 ordered_calls.

Lemma ordered_run : run ConnPoolOrdered 1 ordered_calls (newWorld ConnPoolOrdered 1) = Some (Ok ordered_world).
Proof. vm_compute. reflexivity. Qed.

Lemma conn_pool_sound_witness : threads ordered_world !! 1 = Some (Holding 1 true) /\ threads ordered_world !! 2 = Some (Holding 0 false) /\
  (forall tid b, threads ordered_world !! tid = Some (Holding 0 b) -> tid = 2) /\ dialing (threads ordered_world) <= 1.
Proof.
  split; [vm_compute; reflexivity|]. split; [vm_compute; reflexivity|].
  destruct (conn_pool_sound ConnPoolOrdered 1 ordered_calls _ ordered_run) as (w & <-%Ok_inj & Huser & _ & _ & Hslots & _). split.
  - apply (Huser eq_refl 2 0 false). vm_compute. reflexivity.
  - apply Hslots; [reflexivity|lia].
Defined.

(** Two callers of a shared pool that is closed while they use the connection. *)
Definition shared_calls : list action :=
  [Acquire 0; Run 0 9 (Section true); Acquire 1; Run 1 1 (Section true); Run 9 9 dialed; Run 9 9 (Section true); Run 9 9 (Section true);
   Run 0 0 ConnectDone; Run 1 1 ConnectDone; Run 1 1 (Section true); Run 0 0 (Section true); Close 2; Run 2 2 (Section true); Run 2 2 (Section true)].
Definition shared_world : world := result_of ConnPoolSingle 0 shared_calls.

Lemma shared_run : run ConnPoolSingle 0 shared_calls (newWorld ConnPoolSingle 0) = Some (Ok shared_world).
Proof. vm_compute. reflexivity. Qed.
Lemma shared_idle : forall tid t, threads shared_world !! tid = Some t -> due t = [].
Proof.
  intros tid t H. assert (Hall : map_Forall (fun _ t => due t = []) (threads shared_world)) by (apply (bool_decide_unpack _); vm_compute; exact I).
  by apply (Hall tid).
Qed.

Lemma conn_pool_leaks_nothing_witness : closed (pool_ shared_world) = true /\ threads shared_world !! 0 = Some (Holding 0 false) /\
  threads shared_world !! 1 = Some (Holding 0 true) /\ 0 ∈ closes (pool_ shared_world).
Proof.
  split; [vm_compute; reflexivity|]. split; [vm_compute; reflexivity|]. split; [vm_compute; reflexivity|].
  destruct (conn_pool_leaks_nothing ConnPoolSingle 0 shared_calls shared_world shared_run shared_idle 0) as [H|[H _]].
  - vm_compute. lia.
  - exact H.
  - vm_compute in H. discriminate.
Defined.

(** A caller that waits for the attempt of another. *)
Definition waiting_calls : list action := [Acquire 0; Run 0 9 (Section true); Acquire 1; Run 1 1 (Section true); Reset 2; Run 2 2 (Section true)].
Definition waiting_world : world := result_of ConnPoolSingle 0 waiting_calls.
Lemma waiting_run : run ConnPoolSingle 0 waiting_calls (newWorld ConnPoolSingle 0) = Some (Ok waiting_world).
Proof. vm_compute. reflexivity. Qed.

Lemma conn_pool_waiters_wake_witness : exists tid inputs w, length inputs <= 5 /\
  run ConnPoolSingle 0 (Run tid tid <$> inputs) waiting_world = Some (Ok w) /\ is_Some (step ConnPoolSingle 0 (Run 1 1 ConnectDone) w).
Proof.
  destruct (conn_pool_waiters_wake ConnPoolSingle 0 waiting_calls waiting_world 1 0 0 false dialed waiting_run) as (tid & inputs & w & _ & Hlen & Hrun & _ & Hwake).
  - vm_compute. reflexivity.
  - exists None, None, false. reflexivity.
  - exists tid, inputs, w. split; [exact Hlen|]. split; [exact Hrun|exact Hwake].
Defined.
