(* ===== verification/Datagram.v ===== *)
(** * What the datagram formats share

    [netip.AddrPort], slices of bytes with their bounds checks, and the exclusive
    or of bytes. *)

From S2P Require Import Prelude GoStd Binary.
From Stdlib Require Import Strings.Byte.
Import netip.

Open Scope N_scope.

(** ** net/netip.AddrPort *)

Record AddrPort : Type := AddrPortFrom { ap_Addr : Addr; ap_Port : N }.

#[export] Instance AddrPort_eq_dec : EqDecision AddrPort.
Proof. solve_decision. Defined.
#[export] Program Instance AddrPort_countable : Countable AddrPort :=
  inj_countable' (fun p => (ap_Addr p, ap_Port p)) (fun p => AddrPortFrom p.1 p.2) _.
Next Obligation. by intros []. Qed.

Definition AddrPortZero : AddrPort := AddrPortFrom AddrZero 0.
Definition ap_IsValid (p : AddrPort) : bool := IsValid (ap_Addr p).
(** [M.SocksaddrFromNet(addr).Unwrap().AddrPort()] of a UDP address. *)
Definition unmapPort (p : AddrPort) : AddrPort := AddrPortFrom (Unmap (ap_Addr p)) (ap_Port p).

#[export] Instance byte_countable : Countable byte := inj_countable Byte.to_N Byte.of_N Byte.of_to_N.

(** ** Slices *)

(** [l[lo:hi]] *)
Definition sub_slice {A} (lo hi : nat) (l : list A) : result (list A) :=
  if ((lo <=? hi) && (hi <=? length l))%nat then Ok (take (hi - lo) (drop lo l))
  else Panic "slice bounds out of range".
(** [l[i]] *)
Definition index {A} (i : nat) (l : list A) : result A :=
  match l !! i with Some x => Ok x | None => Panic "index out of range" end.

Lemma sub_slice_Ok {A} lo hi (l : list A) :
  (lo <= hi)%nat -> (hi <= length l)%nat -> sub_slice lo hi l = Ok (take (hi - lo) (drop lo l)).
Proof.
  intros Hl Hh. unfold sub_slice. apply Nat.leb_le in Hl, Hh. by rewrite Hl, Hh.
Qed.

Lemma sub_slice_app {A} (a b c : list A) lo hi :
  lo = length a -> hi = (length a + length b)%nat -> sub_slice lo hi (a ++ b ++ c) = Ok b.
Proof.
  intros -> ->. rewrite sub_slice_Ok; [|lia|rewrite !length_app; lia].
  by rewrite drop_app_length, Nat.add_comm, Nat.add_sub, take_app_length.
Qed.

Lemma sub_slice_prefix {A} (b c : list A) hi : hi = length b -> sub_slice 0 hi (b ++ c) = Ok b.
Proof. intros ->. apply (sub_slice_app [] b c); done. Qed.

Lemma sub_slice_suffix {A} (a b : list A) lo hi :
  lo = length a -> hi = (length a + length b)%nat -> sub_slice lo hi (a ++ b) = Ok b.
Proof. intros -> ->. rewrite <- (app_nil_r b) at 2. by apply sub_slice_app. Qed.

(** ** Exclusive or *)

Definition byte_xor (a b : byte) : byte := byte_of_N (N.lxor (Byte.to_N a) (Byte.to_N b)).

Lemma byte_of_to_N (b : byte) : byte_of_N (Byte.to_N b) = b.
Proof.
  unfold byte_of_N. rewrite N.mod_small by apply to_N_lt. by rewrite Byte.of_to_N.
Qed.

Lemma lxor_lt (k a b : N) : a < 2 ^ k -> b < 2 ^ k -> N.lxor a b < 2 ^ k.
Proof.
  intros Ha Hb. destruct (decide (N.lxor a b = 0)) as [->|Hn]; [lia|].
  apply N.log2_lt_pow2; [lia|]. eapply N.le_lt_trans; [apply N.log2_lxor|].
  destruct (decide (k = 0)) as [->|Hk]; [change (2 ^ 0) with 1 in *; destruct a, b; done || lia|].
  apply N.max_lub_lt.
  - destruct (decide (a = 0)) as [->|]; [simpl; lia|]. apply N.log2_lt_pow2; lia.
  - destruct (decide (b = 0)) as [->|]; [simpl; lia|]. apply N.log2_lt_pow2; lia.
Qed.

Lemma byte_xor_twice (a k : byte) : byte_xor (byte_xor a k) k = a.
Proof.
  unfold byte_xor. rewrite to_N_byte_of_N.
  rewrite (N.mod_small (N.lxor _ _)); [by rewrite N.lxor_assoc, N.lxor_nilpotent, N.lxor_0_r, byte_of_to_N|].
  apply (lxor_lt 8); apply to_N_lt.
Qed.
