(* ===== verification/RealmPacket.v ===== *)
(** * Punch packets (src/third_party/sing-quic/hysteria2/realm/punch.go) and the first packet of
    a relayed connection (src/transport/realm/relay.go)

    [crypto/sha256] is a parameter, and random bytes are arguments. *)

From S2P Require Import Prelude GoStd Metadata Binary Datagram.
From Stdlib Require Import Strings.Byte.
Import netip.

Open Scope N_scope.

Module RealmPacket.

Section Punch.
Context `{E : Externals}.
(** [sha256.Sum256] *)
Variable Sum256 : list byte -> list byte.

(** The arrays have 16 and 32 bytes. *)
Record PunchMetadata : Type := mkPunchMetadata {
  Nonce : list byte;
  ObfuscationKey : list byte;
}.
Definition wf_metadata (m : PunchMetadata) : Prop :=
  length (Nonce m) = 16%nat /\ length (ObfuscationKey m) = 32%nat.

(** The two reads of [crypto/rand]. *)
Definition GeneratePunchMetadata (nonce key : result (list byte)) : result PunchMetadata :=
  nonce ← map_err (fun err => E_Cause err ["generate nonce"]) nonce;
  key ← map_err (fun err => E_Cause err ["generate obfuscation key"]) key;
  Ok (mkPunchMetadata nonce key).

Definition PunchHello : byte := x01.
Definition PunchAck : byte := x02.

Definition saltLength : nat := 8.
Definition magicLength : nat := 8.
Definition nonceLength : nat := 16.
Definition minBodySize : nat := magicLength + 1 + nonceLength.
Definition maxPadding : nat := 1024.
Definition minPacketLen : nat := saltLength + minBodySize.

(** [HYRLMv1] and a zero *)
Definition punchMagic : list byte := [x48; x59; x52; x4c; x4d; x76; x31; x00].

(** The result has the length of [body]: the Go function overwrites it in place. *)
Definition xorObfuscate (obfuscationKey salt body : list byte) : list byte :=
  let key := Sum256 (obfuscationKey ++ salt) in
  imap (fun i b => byte_xor b (nth (i mod 32) key x00)) body.

(** [randomBuffer]: the salt, two bytes for the length of the padding, and the padding. *)
Definition EncodePunchPacket (randomBuffer : result (list byte)) (packetType : byte) (metadata : PunchMetadata)
    : result (list byte) :=
  randomBuffer ← map_err (fun err => E_Cause err ["generate punch random bytes"]) randomBuffer;
  let salt := take saltLength randomBuffer in
  hi ← index saltLength randomBuffer;
  lo ← index (saltLength + 1) randomBuffer;
  let paddingLength := (N.to_nat (N.lor (N.shiftl (Byte.to_N hi) 8) (Byte.to_N lo)) mod (maxPadding + 1))%nat in
  let padding := take paddingLength (drop (saltLength + 2) randomBuffer) in
  let body := punchMagic ++ [packetType] ++ Nonce metadata ++ padding in
  Ok (salt ++ xorObfuscate (ObfuscationKey metadata) salt body).

Definition DecodePunchPacket (data : list byte) (metadata : PunchMetadata) : result byte :=
  if (length data <? minPacketLen)%nat then Err (E_New ["packet too short"])
  else if (saltLength + minBodySize + maxPadding <? length data)%nat then Err (E_New ["packet too long"])
  else
    let body := xorObfuscate (ObfuscationKey metadata) (take saltLength data) (drop saltLength data) in
    magic ← sub_slice 0 magicLength body;
    if negb (bool_decide (magic = punchMagic)) then Err (E_New ["magic mismatch"])
    else
      packetType ← index magicLength body;
      if negb (bool_decide (packetType = PunchHello)) && negb (bool_decide (packetType = PunchAck))
      then Err (E_New ["unknown punch type: "; F_int (Z.of_N (Byte.to_N packetType))])
      else
        nonce ← sub_slice (magicLength + 1) (magicLength + 1 + nonceLength) body;
        if negb (bool_decide (nonce = Nonce metadata)) then Err (E_New ["nonce mismatch"])
        else Ok packetType.

(** ** Round trip *)

Lemma length_xorObfuscate key salt body : length (xorObfuscate key salt body) = length body.
Proof. apply length_imap. Qed.

Lemma xorObfuscate_twice key salt body : xorObfuscate key salt (xorObfuscate key salt body) = body.
Proof.
  unfold xorObfuscate. apply list_eq. intros i. rewrite !list_lookup_imap.
  destruct (body !! i) as [b|]; simpl; [|done]. by rewrite byte_xor_twice.
Qed.

(** A packet of the format, with its salt and its padding. *)
Definition punchPacket (salt padding : list byte) (packetType : byte) (metadata : PunchMetadata) : list byte :=
  salt ++ xorObfuscate (ObfuscationKey metadata) salt (punchMagic ++ [packetType] ++ Nonce metadata ++ padding).

Lemma Encode_packet random packetType metadata :
  length random = (saltLength + 2 + maxPadding)%nat ->
  exists padding, (length padding <= maxPadding)%nat /\
    EncodePunchPacket (Ok random) packetType metadata = Ok (punchPacket (take saltLength random) padding packetType metadata).
Proof.
  intros Hr. unfold saltLength, maxPadding in Hr. unfold EncodePunchPacket. cbn [map_err mbind result_bind]. unfold index.
  destruct (lookup_lt_is_Some_2 random saltLength) as [hi ->]; [rewrite Hr; unfold saltLength; lia|].
  destruct (lookup_lt_is_Some_2 random (saltLength + 1)) as [lo ->]; [rewrite Hr; unfold saltLength; lia|].
  cbn [mbind result_bind]. eexists. split; [|done]. rewrite length_take.
  pose proof (Nat.mod_upper_bound (N.to_nat (N.lor (N.shiftl (to_N hi) 8) (to_N lo))) (maxPadding + 1)). unfold maxPadding in *. lia.
Qed.

Lemma Decode_packet salt padding packetType metadata :
  length salt = saltLength -> (length padding <= maxPadding)%nat -> length (Nonce metadata) = nonceLength ->
  packetType = PunchHello \/ packetType = PunchAck ->
  DecodePunchPacket (punchPacket salt padding packetType metadata) metadata = Ok packetType.
Proof.
  intros Hs Hp Hn Ht. unfold DecodePunchPacket, punchPacket.
  assert (length (punchMagic ++ [packetType] ++ Nonce metadata ++ padding) = 25 + length padding)%nat as Hb.
  { rewrite !length_app, Hn. unfold punchMagic, nonceLength. simpl. lia. }
  rewrite length_app, length_xorObfuscate, Hb, Hs. unfold minPacketLen, minBodySize, saltLength, magicLength, nonceLength in *.
  case_bool; [apply Nat.ltb_lt in Heqb; lia|]. case_bool; [apply Nat.ltb_lt in Heqb0; lia|].
  rewrite (take_app_length' salt), (drop_app_length' salt) by done. rewrite xorObfuscate_twice.
  rewrite (sub_slice_prefix punchMagic) by done. cbn [mbind result_bind]. rewrite bool_decide_true by done. cbn [negb].
  change (index 8 _) with (Ok packetType). cbn [mbind result_bind].
  replace (negb _ && negb _) with false by (destruct Ht as [-> | ->]; done).
  rewrite (app_assoc punchMagic), (sub_slice_app _ (Nonce metadata)); [|done|rewrite Hn; done].
  cbn [mbind result_bind]. by rewrite bool_decide_true.
Qed.

Lemma Decode_inv data metadata packetType :
  DecodePunchPacket data metadata = Ok packetType ->
  (packetType = PunchHello \/ packetType = PunchAck) /\
  exists salt padding, length salt = saltLength /\ (length padding <= maxPadding)%nat /\
    data = punchPacket salt padding packetType metadata.
Proof.
  unfold DecodePunchPacket, minPacketLen, minBodySize, saltLength, magicLength, nonceLength, maxPadding.
  destruct (length data <? _)%nat eqn:H1; [done|]. destruct (_ <? length data)%nat eqn:H2; [done|]. apply Nat.ltb_ge in H1, H2.
  set (body := xorObfuscate _ _ _). assert (length body = length data - 8)%nat as Hb.
  { unfold body. by rewrite length_xorObfuscate, length_drop. }
  rewrite (sub_slice_Ok 0 8 body) by lia. cbn [mbind result_bind]. case_bool_decide as Hm; cbn [negb]; [|done].
  unfold index. destruct (body !! 8%nat) as [t|] eqn:H8; cbn [mbind result_bind]; [|done].
  destruct (_ && _) eqn:Ht; [done|].
  assert (t = PunchHello \/ t = PunchAck) as Htype.
  { apply andb_false_iff in Ht as [Ht|Ht]; apply negb_false_iff, bool_decide_eq_true in Ht; auto. }
  clear Ht. rewrite sub_slice_Ok by lia. cbn [mbind result_bind].
  case_bool_decide as Hn; cbn [negb]; [|done]. intros [= <-]. split; [done|].
  exists (take 8 data), (drop 25 body). split; [rewrite length_take; lia|]. split; [rewrite length_drop; lia|].
  unfold punchPacket, saltLength. rewrite <- Hn, <- Hm. rewrite drop_0. change (8 - 0)%nat with 8%nat.
  change (8 + 1 + 16 - (8 + 1))%nat with 16%nat. change (8 + 1)%nat with 9%nat.
  assert (take 8 body ++ [t] ++ take 16 (drop 9 body) ++ drop 25 body = body) as ->.
  { rewrite <- (take_drop 8 body) at 4. f_equal. rewrite (drop_S _ _ _ H8). simpl. f_equal.
    rewrite <- (take_drop 16 (drop 9 body)) at 2. by rewrite drop_drop. }
  unfold body. by rewrite xorObfuscate_twice, take_drop.
Qed.

Lemma two_bytes n : n < 2 ^ 16 -> N.lor (N.shiftl (to_N (byte_of_N (n / 256))) 8) (to_N (byte_of_N n)) = n.
Proof.
  intros Hn. rewrite !to_N_byte_of_N, N.lor_comm, <- add_shiftl by (apply N.mod_lt; lia).
  rewrite N.shiftl_mul_pow2, (N.mod_small (n / 256)); [|apply N.Div0.div_lt_upper_bound; lia].
  pose proof (N.div_mod n 256). lia.
Qed.

Lemma Encode_every metadata packetType salt padding :
  length salt = saltLength -> (length padding <= maxPadding)%nat ->
  exists random, length random = (saltLength + 2 + maxPadding)%nat /\
    EncodePunchPacket (Ok random) packetType metadata = Ok (punchPacket salt padding packetType metadata).
Proof.
  unfold saltLength, maxPadding. intros Hs Hp. set (n := N.of_nat (length padding)).
  exists (salt ++ [byte_of_N (n / 256); byte_of_N n] ++ padding ++ repeat x00 (1024 - length padding)).
  split; [rewrite !length_app, repeat_length; simpl; lia|].
  unfold EncodePunchPacket, index, saltLength, maxPadding. cbn [map_err mbind result_bind].
  assert (forall i b l, l !! i = Some b -> (salt ++ l) !! (8 + i)%nat = Some b) as Hi.
  { intros i b l Hl. rewrite lookup_app_r, Hs by lia. by rewrite Nat.add_comm, Nat.add_sub. }
  rewrite (Hi 0%nat (byte_of_N (n / 256))), (Hi 1%nat (byte_of_N n)), take_app_length' by done.
  cbn [mbind result_bind].
  rewrite two_bytes by (unfold n; lia). unfold n. rewrite Nat2N.id, Nat.mod_small by lia.
  rewrite drop_app_ge by lia. rewrite Hs. change (8 + 2 - 8)%nat with 2%nat. cbn [drop app].
  by rewrite drop_0, take_app_length.
Qed.

Lemma Decode_Encode metadata random packetType data :
  length (Nonce metadata) = nonceLength -> packetType = PunchHello \/ packetType = PunchAck ->
  length random = (saltLength + 2 + maxPadding)%nat -> EncodePunchPacket (Ok random) packetType metadata = Ok data ->
  DecodePunchPacket data metadata = Ok packetType.
Proof.
  intros Hn Ht Hr He. destruct (Encode_packet random packetType metadata Hr) as (padding & Hp & He').
  rewrite He in He'. injection He' as ->. apply Decode_packet; [|done..]. rewrite length_take, Hr. done.
Qed.

(** C29: exactly the packets of the encoder are accepted.  For metadata of the right
    lengths, a datagram decodes to a type if and only if it is an encoding of that type
    under the same nonce and key, whatever the random bytes of the sender are. *)
Theorem punch_packets_decode metadata data packetType :
  length (Nonce metadata) = nonceLength ->
  DecodePunchPacket data metadata = Ok packetType <->
  (packetType = PunchHello \/ packetType = PunchAck) /\
  exists random, length random = (saltLength + 2 + maxPadding)%nat /\
    EncodePunchPacket (Ok random) packetType metadata = Ok data.
Proof.
  intros Hn. split.
  - intros Hd. destruct (Decode_inv _ _ _ Hd) as (Ht & salt & padding & Hs & Hp & ->). split; [done|].
    by apply Encode_every.
  - intros (Ht & random & Hr & He). by eapply Decode_Encode.
Qed.

End Punch.

(** ** The packet that joins a relay *)

(** [OTRL] *)
Definition relayMagic : list byte := [x4f; x54; x52; x4c].
Definition relayNonceLen : nat := 16.
Definition relayJoinLen : nat := 4 + relayNonceLen.

Definition encodeRelayJoin (nonce : list byte) : list byte := relayMagic ++ nonce.

Definition isRelayJoinAck (payload nonce : list byte) : bool :=
  if negb (length payload =? relayJoinLen)%nat then false
  else if negb (bool_decide (take 4 payload = relayMagic)) then false
  else bool_decide (drop 4 payload = nonce).

End RealmPacket.
