(* ===== verification/RealmStun.v ===== *)
(** * STUN messages (src/third_party/sing-quic/hysteria2/internal/stun/stun.go)

    The parser of binding responses is total: it neither panics nor runs forever, and
    it finds the address in every response that is encoded as RFC 5389 says. *)

From S2P Require Import Prelude GoStd Metadata Binary Instances Datagram.
From Stdlib Require Import Strings.Byte.
Import netip.

Open Scope N_scope.

Module Stun.

Definition TransactionIDSize : nat := 12.
Definition HeaderSize : nat := 20.
Definition magicCookie : N := 0x2112A442.
Definition bindingRequestType : N := 1.
Definition attrXORMappedAddr : N := 0x20.
Definition xorMappedFamilyIPv4 : N := 1.
Definition xorMappedFamilyIPv6 : N := 2.

Record Message : Type := mkMessage { Raw : list byte; TransactionID : list byte }.

Definition IsMessage (b : list byte) : bool :=
  (HeaderSize <=? length b)%nat && (be_decode (take 4 (drop 4 b)) =? magicCookie).

Section Stun.
Context `{E : Externals}.

(** [random]: the read of the transaction identifier. *)
Definition NewBindingRequest (random : result (list byte)) : result Message :=
  transactionID ← map_err (fun err => E_Cause err ["generate STUN transaction ID"]) random;
  Ok (mkMessage (be_encode 2 bindingRequestType ++ be_encode 2 0 ++ be_encode 4 magicCookie ++ transactionID) transactionID).

Definition Decode (data : list byte) : result Message :=
  if (length data <? HeaderSize)%nat
  then Err (E_New ["STUN message too short: "; F_int (Z.of_nat (length data))])
  else
    cookie ← sub_slice 4 8 data;
    if negb (be_decode cookie =? magicCookie) then Err (E_New ["invalid STUN magic cookie"])
    else
      attrBytes ← sub_slice 2 4 data;
      let attrLen := N.to_nat (be_decode attrBytes) in
      if (length data <? HeaderSize + attrLen)%nat then Err (E_New ["truncated STUN message"])
      else
        raw ← sub_slice 0 (HeaderSize + attrLen) data;
        transactionID ← sub_slice 8 HeaderSize raw;
        Ok (mkMessage raw transactionID).

(** The address in the value of the attribute. *)
Definition mappedAddress (transactionID value : list byte) : result AddrPort :=
  if (length value <? 4)%nat
  then Err (E_New ["XOR-MAPPED-ADDRESS too short: "; F_int (Z.of_nat (length value))])
  else
    familyByte ← index 1 value;
    portBytes ← sub_slice 2 4 value;
    let family := Byte.to_N familyByte in
    let port := N.lxor (be_decode portBytes) (N.shiftr magicCookie 16) in
    ipLen ← (if family =? xorMappedFamilyIPv4 then Ok 4%nat
             else if family =? xorMappedFamilyIPv6 then Ok 16%nat
             else Err (E_New ["unknown XOR-MAPPED-ADDRESS family: "; F_int (Z.of_N family)]));
    if negb (length value =? 4 + ipLen)%nat
    then Err (E_New ["XOR-MAPPED-ADDRESS length mismatch: "; F_int (Z.of_nat (length value))])
    else
      let key := be_encode 4 magicCookie ++ transactionID in
      let ip := zip_with byte_xor (drop 4 value) key in
      let address := AddrFromSlice ip in
      if negb (IsValid address) then Err (E_New ["invalid IP in XOR-MAPPED-ADDRESS"])
      else Ok (AddrPortFrom address port).

(** The walk over the attributes; [None] when [fuel] does not suffice. *)
Fixpoint attributes (fuel : nat) (transactionID body : list byte) : option (result AddrPort) :=
  if (length body <? 4)%nat then Some (Err (E_New ["XOR-MAPPED-ADDRESS not found"]))
  else
    match fuel with
    | O => None
    | S fuel =>
        match typeBytes ← sub_slice 0 2 body; lenBytes ← sub_slice 2 4 body; Ok (typeBytes, lenBytes) with
        | Err e => Some (Err e)
        | Panic msg => Some (Panic msg)
        | Ok (typeBytes, lenBytes) =>
            let attrType := be_decode typeBytes in
            let valueLen := N.to_nat (be_decode lenBytes) in
            let paddedLen := N.to_nat (N.ldiff (be_decode lenBytes + 3) 3) in
            if (length body <? 4 + paddedLen)%nat then Some (Err (E_New ["truncated STUN attribute"]))
            else
              match value ← sub_slice 4 (4 + valueLen) body; rest ← sub_slice (4 + paddedLen) (length body) body; Ok (value, rest) with
              | Err e => Some (Err e)
              | Panic msg => Some (Panic msg)
              | Ok (value, rest) =>
                  if negb (attrType =? attrXORMappedAddr) then attributes fuel transactionID rest
                  else Some (mappedAddress transactionID value)
              end
        end
    end.

Definition XORMappedAddress (m : Message) : option (result AddrPort) :=
  match attrBytes ← sub_slice 2 4 (Raw m); sub_slice HeaderSize (HeaderSize + N.to_nat (be_decode attrBytes)) (Raw m) with
  | Err e => Some (Err e)
  | Panic msg => Some (Panic msg)
  | Ok body => attributes (length body) (TransactionID m) body
  end.

(** ** The parser returns *)

Lemma sub_slice_length {A} lo hi (l l' : list A) : sub_slice lo hi l = Ok l' -> length l' = (hi - lo)%nat.
Proof.
  unfold sub_slice. destruct (_ && _)%nat eqn:Hb; [|done]. intros [= <-].
  apply andb_prop in Hb as [H1%Nat.leb_le H2%Nat.leb_le]. rewrite length_take, length_drop. lia.
Qed.

Lemma padded_ge v : v <= N.ldiff (v + 3) 3.
Proof.
  change 3 with (N.ones 2) at 2. rewrite N.ldiff_ones_r, N.shiftl_mul_pow2, N.shiftr_div_pow2.
  change (2 ^ 2) with 4. pose proof (N.div_mod (v + 3) 4). pose proof (N.mod_lt (v + 3) 4). lia.
Qed.

Lemma Decode_total data : not_panic (Decode data).
Proof.
  unfold Decode, HeaderSize. destruct (length data <? 20)%nat eqn:Hl; [done|]. apply Nat.ltb_ge in Hl.
  rewrite (sub_slice_Ok 4 8) by lia. simpl. case_bool; [done|]. rewrite (sub_slice_Ok 2 4) by lia. simpl.
  destruct (length data <? _)%nat eqn:Ha; [done|]. apply Nat.ltb_ge in Ha.
  rewrite (sub_slice_Ok 0) by (simpl; lia). simpl. rewrite (sub_slice_Ok 8); [done|lia|]. rewrite length_take, drop_0. lia.
Qed.

Lemma mappedAddress_total transactionID value : not_panic (mappedAddress transactionID value).
Proof.
  unfold mappedAddress. destruct (length value <? 4)%nat eqn:Hl; [done|]. apply Nat.ltb_ge in Hl.
  unfold index. destruct (lookup_lt_is_Some_2 value 1 ltac:(lia)) as [b ->]. simpl.
  rewrite sub_slice_Ok by lia. simpl. intros msg. by repeat (case_bool; simpl).
Qed.

Lemma attributes_total transactionID fuel body :
  (length body <= fuel)%nat -> exists r, attributes fuel transactionID body = Some r /\ not_panic r.
Proof.
  revert body. induction fuel as [|fuel IH]; intros body Hf; simpl;
    (destruct (length body <? 4)%nat eqn:Hl; [by eexists|apply Nat.ltb_ge in Hl]); [lia|].
  rewrite (sub_slice_Ok 0 2), (sub_slice_Ok 2 4) by lia. simpl.
  set (v := be_decode (take 2 (drop 2 body))). pose proof (padded_ge v).
  destruct (length body <? _)%nat eqn:Hp; [by eexists|]. apply Nat.ltb_ge in Hp.
  rewrite (sub_slice_Ok 4), sub_slice_Ok by lia. simpl. case_bool.
  - apply IH. rewrite length_take, length_drop. lia.
  - eexists. split; [done|]. apply mappedAddress_total.
Qed.

Lemma Decode_Raw data m : Decode data = Ok m ->
  exists body, Raw m = take 20 (Raw m) ++ body /\ length (take 20 (Raw m)) = 20%nat /\
    sub_slice 2 4 (Raw m) = sub_slice 2 4 data /\ length body = N.to_nat (be_decode (take 2 (drop 2 data))).
Proof.
  unfold Decode, HeaderSize. destruct (length data <? 20)%nat eqn:Hl; [done|]. apply Nat.ltb_ge in Hl.
  rewrite (sub_slice_Ok 4 8) by lia. simpl. case_bool; [done|]. rewrite (sub_slice_Ok 2 4) by lia. simpl.
  set (a := be_decode (take 2 (drop 2 data))). destruct (length data <? _)%nat eqn:Ha; [done|]. apply Nat.ltb_ge in Ha.
  rewrite (sub_slice_Ok 0) by (simpl; lia). simpl. rewrite drop_0, (sub_slice_Ok 8); [|lia|rewrite length_take; lia].
  intros [= <-]. cbn [Raw]. set (raw := take _ data). exists (drop 20 raw).
  assert (length raw = (20 + N.to_nat a)%nat) as Hraw by (unfold raw; rewrite length_take; lia).
  split; [by rewrite take_drop|]. split; [rewrite length_take; lia|]. split; [|rewrite length_drop; lia].
  rewrite sub_slice_Ok by lia. f_equal. unfold raw. rewrite skipn_firstn_comm. by rewrite take_take, Nat.min_l by lia.
Qed.

(** [XORMappedAddress] of a decoded message returns an address or an error. *)
Lemma XORMappedAddress_total data m :
  Decode data = Ok m -> exists r, XORMappedAddress m = Some r /\ not_panic r.
Proof.
  intros Hd. destruct (Decode_Raw data m Hd) as (body & Hraw & H20 & Hlen & Hbody). unfold XORMappedAddress.
  rewrite Hlen. assert (20 <= length data)%nat.
  { revert Hd. unfold Decode, HeaderSize. destruct (length data <? 20)%nat eqn:Hl; [done|]. by apply Nat.ltb_ge in Hl. }
  rewrite sub_slice_Ok by lia. simpl. rewrite Hraw.
  rewrite (sub_slice_suffix (take 20 (Raw m)) body); [|done|rewrite H20, Hbody; done]. by apply attributes_total.
Qed.

(** ** The address in a response

    A response of RFC 5389: header, attributes padded to words, and among them the
    mapped address, hidden by the cookie and the transaction identifier. *)

Definition attribute (attrType : N) (value : list byte) : list byte :=
  be_encode 2 attrType ++ be_encode 2 (N.of_nat (length value)) ++ value
  ++ repeat x00 (N.to_nat (N.ldiff (N.of_nat (length value) + 3) 3) - length value).
Definition mappedValue (transactionID : list byte) (a : AddrPort) : list byte :=
  [x00; if Is4 (ap_Addr a) then x01 else x02] ++ be_encode 2 (N.lxor (ap_Port a) (N.shiftr magicCookie 16))
  ++ zip_with byte_xor (AsSlice (ap_Addr a)) (be_encode 4 magicCookie ++ transactionID).
Definition response (messageType : N) (transactionID body : list byte) : list byte :=
  be_encode 2 messageType ++ be_encode 2 (N.of_nat (length body)) ++ be_encode 4 magicCookie ++ transactionID ++ body.

Lemma zip_xor_twice (l key : list byte) :
  (length l <= length key)%nat -> zip_with byte_xor (zip_with byte_xor l key) key = l.
Proof.
  revert key. induction l as [|b l IH]; intros [|k key]; simpl; intros H; [done|done|lia|].
  by rewrite byte_xor_twice, IH by lia.
Qed.

Lemma attributes_step transactionID fuel attrType value rest :
  attrType < 2 ^ 16 -> N.of_nat (length value) < 2 ^ 16 ->
  attributes (S fuel) transactionID (attribute attrType value ++ rest)
  = if negb (attrType =? attrXORMappedAddr) then attributes fuel transactionID rest
    else Some (mappedAddress transactionID value).
Proof.
  intros Ht Hv. unfold attribute. set (pad := repeat x00 _). rewrite <- !app_assoc. cbn [attributes].
  pose proof (padded_ge (N.of_nat (length value))) as Hp.
  assert (length pad = (N.to_nat (N.ldiff (N.of_nat (length value) + 3) 3) - length value)%nat) as Hpad by apply repeat_length.
  assert (length (be_encode 2 attrType ++ be_encode 2 (N.of_nat (length value)) ++ value ++ pad ++ rest)
          = (4 + N.to_nat (N.ldiff (N.of_nat (length value) + 3) 3) + length rest)%nat) as Hlen.
  { rewrite !length_app, !length_be_encode. lia. }
  rewrite Hlen. case_bool; [apply Nat.ltb_lt in Heqb; lia|].
  rewrite (sub_slice_prefix (be_encode 2 attrType)), (sub_slice_app (be_encode 2 attrType) (be_encode 2 _)) by (by rewrite ?length_be_encode).
  cbn [mbind result_bind]. rewrite !be_decode_encode, Nat2N.id by done. case_bool; [apply Nat.ltb_lt in Heqb0; lia|].
  rewrite (app_assoc (be_encode 2 attrType)), (sub_slice_app _ value _ 4 (4 + length value)) by (rewrite ?length_app, ?length_be_encode; lia).
  cbn [mbind result_bind]. rewrite (app_assoc value), (app_assoc (_ ++ _)).
  rewrite (sub_slice_suffix _ rest) by (rewrite ?length_app, ?length_be_encode; lia). done.
Qed.

Lemma mappedAddress_value transactionID a :
  length transactionID = 12%nat -> wf_addr (ap_Addr a) -> IsValid (ap_Addr a) = true -> ap_Port a < 2 ^ 16 ->
  mappedAddress transactionID (mappedValue transactionID a) = Ok (AddrPortFrom (withoutZone (ap_Addr a)) (ap_Port a)).
Proof.
  destruct a as [addr port]. cbn [ap_Addr ap_Port]. intros Htid Hwf Hvalid Hport. unfold mappedValue. cbn [ap_Addr ap_Port].
  set (key := be_encode 4 magicCookie ++ transactionID). set (p := be_encode 2 (N.lxor port (N.shiftr magicCookie 16))).
  assert (length key = 16%nat) as Hkey by (unfold key; rewrite length_app, length_be_encode, Htid; done).
  assert (length (AsSlice addr) = if Is4 addr then 4 else 16)%nat as Hs.
  { destruct addr; [done| |]; cbn [AsSlice Is4]; by rewrite length_be_encode. }
  assert (length p = 2%nat) as Hp by apply length_be_encode.
  set (z := zip_with byte_xor (AsSlice addr) key).
  assert (length z = if Is4 addr then 4 else 16)%nat as Hz.
  { unfold z. rewrite length_zip_with, Hs, Hkey. by destruct (Is4 addr). }
  unfold mappedAddress. rewrite !length_app, Hp, Hz. fold key.
  case_bool; [apply Nat.ltb_lt in Heqb; simpl in Heqb; destruct (Is4 addr); lia|].
  rewrite (sub_slice_app [x00; if Is4 addr then x01 else x02] p z) by (by rewrite ?Hp).
  cbn [index lookup app list_lookup]. simpl. unfold p. rewrite be_decode_encode.
  2:{ apply (lxor_lt 16); [done|]. done. }
  rewrite N.lxor_assoc, N.lxor_nilpotent, N.lxor_0_r.
  rewrite drop_0. unfold z. rewrite zip_xor_twice by (rewrite Hs, Hkey; destruct (Is4 addr); lia).
  rewrite AddrFromSlice_AsSlice by done.
  assert (IsValid (withoutZone addr) = true) as -> by (by destruct addr). by destruct (Is4 addr).
Qed.

Lemma attributes_found transactionID a before after fuel :
  length transactionID = 12%nat -> wf_addr (ap_Addr a) -> IsValid (ap_Addr a) = true -> ap_Port a < 2 ^ 16 ->
  Forall (fun '(t, v) => t < 2 ^ 16 /\ t <> attrXORMappedAddr /\ N.of_nat (length v) < 2 ^ 16) before ->
  (length before < fuel)%nat ->
  attributes fuel transactionID
    (concat (map (fun '(t, v) => attribute t v) before) ++ attribute attrXORMappedAddr (mappedValue transactionID a) ++ after)
  = Some (Ok (AddrPortFrom (withoutZone (ap_Addr a)) (ap_Port a))).
Proof.
  intros Htid Hwf Hv Hp Hb. revert fuel. induction Hb as [|[t v] before (Ht & Hn & Hl) _ IH]; intros [|fuel] Hf; simpl in Hf; try lia.
  - cbn [map concat app]. rewrite attributes_step; [by rewrite mappedAddress_value|done|].
    unfold mappedValue. rewrite !length_app, length_be_encode, length_zip_with, length_app, length_be_encode, Htid.
    destruct (ap_Addr a); cbn [AsSlice]; rewrite ?length_be_encode; simpl; lia.
  - cbn [map concat]. rewrite <- app_assoc, attributes_step by done.
    rewrite (proj2 (N.eqb_neq _ _) Hn). simpl. apply IH. lia.
Qed.

Lemma attribute_length t v : (4 <= length (attribute t v))%nat.
Proof. unfold attribute. rewrite !length_app, !length_be_encode. lia. Qed.

Lemma attributes_length (before : list (N * list byte)) rest :
  (length before <= length (concat (map (fun '(t, v) => attribute t v) before) ++ rest))%nat.
Proof.
  induction before as [|[t v] before IH]; cbn [map concat length]; [lia|]. rewrite <- app_assoc, length_app.
  pose proof (attribute_length t v). lia.
Qed.

(** The reflexive address is found.  In every response to a binding request that is
    encoded as RFC 5389 says - the mapped address after any other attributes, anything
    behind it - the parser finds the address and port the server has seen. *)
Theorem stun_finds_address messageType transactionID a before after trailing :
  let body := concat (map (fun '(t, v) => attribute t v) before)
              ++ attribute attrXORMappedAddr (mappedValue transactionID a) ++ after in
  length transactionID = 12%nat -> wf_addr (ap_Addr a) -> IsValid (ap_Addr a) = true -> ap_Port a < 2 ^ 16 ->
  Forall (fun '(t, v) => t < 2 ^ 16 /\ t <> attrXORMappedAddr /\ N.of_nat (length v) < 2 ^ 16) before ->
  N.of_nat (length body) < 2 ^ 16 ->
  exists m, Decode (response messageType transactionID body ++ trailing) = Ok m /\ TransactionID m = transactionID /\
    XORMappedAddress m = Some (Ok (AddrPortFrom (withoutZone (ap_Addr a)) (ap_Port a))).
Proof.
  intros body Htid Hwf Hv Hp Hb Hbody.
  exists (mkMessage (response messageType transactionID body) transactionID). split; [|split; [done|]].
  - unfold Decode, response. rewrite <- !app_assoc.
    set (data := be_encode 2 messageType ++ _).
    assert (length data = 20 + length body + length trailing)%nat as Hlen.
    { unfold data. rewrite !length_app, !length_be_encode, Htid. lia. }
    rewrite Hlen. unfold HeaderSize. case_bool; [apply Nat.ltb_lt in Heqb; lia|].
    assert (sub_slice 4 8 data = Ok (be_encode 4 magicCookie)) as ->.
    { unfold data. rewrite app_assoc. by apply sub_slice_app; rewrite length_app, !length_be_encode. }
    cbn [mbind result_bind]. rewrite be_decode_encode, N.eqb_refl by done. cbn [negb].
    assert (sub_slice 2 4 data = Ok (be_encode 2 (N.of_nat (length body)))) as ->.
    { by apply sub_slice_app; rewrite !length_be_encode. }
    cbn [mbind result_bind]. rewrite be_decode_encode, Nat2N.id by done.
    case_bool; [apply Nat.ltb_lt in Heqb0; lia|].
    assert (data = response messageType transactionID body ++ trailing) as -> by (unfold data, response; by rewrite <- !app_assoc).
    rewrite sub_slice_prefix.
    2:{ unfold response. rewrite !length_app, !length_be_encode, Htid. lia. }
    cbn [mbind result_bind]. unfold response. rewrite 2!app_assoc.
    rewrite sub_slice_app; [done| |]; by rewrite !length_app, !length_be_encode, ?Htid.
  - unfold XORMappedAddress. cbn [Raw TransactionID].
    assert (sub_slice 2 4 (response messageType transactionID body) = Ok (be_encode 2 (N.of_nat (length body)))) as ->.
    { unfold response. by apply sub_slice_app; rewrite !length_be_encode. }
    cbn [mbind result_bind]. rewrite be_decode_encode, Nat2N.id by done. unfold response, HeaderSize.
    rewrite !app_assoc, sub_slice_suffix; [|rewrite !length_app, !length_be_encode, Htid; done..].
    apply attributes_found; [done..|]. unfold body. rewrite length_app. apply (Nat.le_lt_trans _ _ _ (attributes_length before [])).
    rewrite app_nil_r, length_app. pose proof (attribute_length attrXORMappedAddr (mappedValue transactionID a)). lia.
Qed.

End Stun.

End Stun.

(** A response with a software attribute in front of the address. *)
Lemma stun_finds_address_witness :
  exists m, Stun.Decode (E := sampleExternals)
      (Stun.response 0x0101 (repeat x07 12)
        (Stun.attribute 0x8022 [x41; x42; x43]
         ++ Stun.attribute Stun.attrXORMappedAddr (Stun.mappedValue (repeat x07 12) (AddrPortFrom (Addr4 0xC0000201) 4000)) ++ [])
       ++ [x00]) = Ok m /\ Stun.TransactionID m = repeat x07 12 /\
    Stun.XORMappedAddress (E := sampleExternals) m = Some (Ok (AddrPortFrom (Addr4 0xC0000201) 4000)).
Proof.
  refine (Stun.stun_finds_address (E := sampleExternals) 0x0101 (repeat x07 12) (AddrPortFrom (Addr4 0xC0000201) 4000)
    [(0x8022, [x41; x42; x43])] [] [x00] eq_refl _ eq_refl _ _ _); [done|done| |done].
  constructor; [by repeat split|constructor].
Defined.
