(* ===== verification/Sniff.v ===== *)
(** * Protocol sniffers (src/common/sniff)

    The sniffers for streams and packets, except the one for QUIC (QuicSniff.v).  A sniffer
    returns the metadata with the protocol it recognised, or an error and leaves the metadata as
    it was.  The loops that run them are [PeekStream] and [PeekPacket] of RuleActions.v.
    Behind the definitions, their properties. *)

From S2P Require Import Prelude GoStd Metadata Binary RuleActions Datagram RealmStun.
From Stdlib Require Import Strings.Byte.
From stdpp Require Import list.
Import RuleActions.

Open Scope N_scope.

(** ** Readers *)

(** [io.MultiReader] over [bytes.Reader]s: what is left of each. *)
Definition reader : Type := list (list byte).

(** One [Read] into a buffer of [n] bytes, [n] positive. *)
Fixpoint io_Read (n : nat) (r : reader) : list byte * option error * reader :=
  match r with
  | [] => ([], Some ErrEOF, [])
  | [] :: r => io_Read n r
  | bytes :: r => (take n bytes, None, drop n bytes :: r)
  end.

(** The loop of [io.ReadFull]: the bytes read, and what is left. *)
Fixpoint readFull_loop (n : nat) (r : reader) : list byte * reader :=
  match n, r with
  | O, _ => ([], r)
  | _, [] => ([], [])
  | _, bytes :: rest =>
      if (n <=? length bytes)%nat then (take n bytes, drop n bytes :: rest)
      else let '(more, rest) := readFull_loop (n - length bytes) rest in (bytes ++ more, rest)
  end.
Definition io_ReadFull (n : nat) (r : reader) : result (list byte * reader) :=
  let '(bytes, r) := readFull_loop n r in
  if (length bytes <? n)%nat then Err (if (0 <? length bytes)%nat then ErrUnexpectedEOF else ErrEOF) else Ok (bytes, r).
(** [binary.Read] of an unsigned integer of [n] bytes. *)
Definition binary_Read (n : nat) (r : reader) : result (N * reader) := '(bytes, r) ← io_ReadFull n r; Ok (be_decode bytes, r).

(** [binary.BigEndian.Uint16], [Uint32] and [Uint64] of a part of a packet. *)
Definition uint_at (lo hi : nat) (packet : list byte) : result N := bytes ← sub_slice lo hi packet; Ok (be_decode bytes).
Definition byte_at (i : nat) (packet : list byte) : result N := b ← index i packet; Ok (Byte.to_N b).

Lemma byte_at_lookup i (packet : list byte) b : packet !! i = Some b -> byte_at i packet = Ok (Byte.to_N b).
Proof. intros Hb. unfold byte_at, index. by rewrite Hb. Qed.
Lemma byte_at_total i packet : (i < length packet)%nat -> not_panic (byte_at i packet).
Proof. intros [b Hb]%lookup_lt_is_Some_2. by rewrite (byte_at_lookup i packet b Hb). Qed.

(** ** Third-party code

    sing/common/exceptions, sing/common/buf, sing/common/rw, sing/protocol/http,
    sing/common/metadata, crypto/tls and miekg/dns.  [tls_Handshake] is the name in the hello
    that the handshake got to, and the error it ended with. *)
Class SniffLib : Type := {
  E_Cause1 : error -> error -> error;
  buf_ReadFullFrom : reader -> nat -> list byte * option error;
  rw_SkipN : reader -> nat -> result reader;
  http_ReadRequest : reader -> result string;
  ParseSocksaddr_AddrString : string -> string;
  tls_Handshake : reader -> option string * option error;
  msg_Unpack : list byte -> result Msg;
}.

Module Sniff.

Definition ProtocolTLS : string := "tls".
Definition ProtocolHTTP : string := "http".
Definition ProtocolQUIC : string := "quic".
Definition ProtocolDNS : string := "dns".
Definition ProtocolSTUN : string := "stun".
Definition ProtocolBitTorrent : string := "bittorrent".
Definition ProtocolDTLS : string := "dtls".
Definition ProtocolSSH : string := "ssh".
Definition ProtocolRDP : string := "rdp".
Definition ProtocolNTP : string := "ntp".

Definition found (protocol : string) (md : InboundContext) : InboundContext := {| md with Protocol := protocol |}.
(** [return os.ErrInvalid] unless the condition holds. *)
Definition require (b : bool) : result unit := if b then Ok tt else Err ErrInvalid.

Section Sniffers.
Context `{SniffLib}.

Definition needMore {A} (m : result A) : result A := map_err (E_Cause1 ErrNeedMoreData) m.

(** ** Streams *)

Definition btHeader : list byte := bytes_of_string "BitTorrent protocol".

Definition BitTorrent (md : InboundContext) (r : reader) : result InboundContext :=
  '(first, r) ← needMore (binary_Read 1 r);
  _ ← require (first =? 19);
  let '(protocol, err, _) := io_Read 19 r in
  _ ← require (bool_decide (protocol = take (length protocol) btHeader));
  match err with
  | Some err => Err (E_Cause1 ErrNeedMoreData err)
  | None => if (length protocol <? 19)%nat then Err ErrNeedMoreData else Ok (found ProtocolBitTorrent md)
  end.

Definition DomainNameQuery (md : InboundContext) (packet : list byte) : result InboundContext :=
  match msg_Unpack packet with
  | Err err => Err err
  | Panic msg => Panic msg
  | Ok msg =>
      if Response msg || (length (Questions msg) =? 0)%nat || (0 <? length (Answer msg))%nat || (0 <? length (Ns msg))%nat
      then Ok md else Ok (found ProtocolDNS md)
  end.

(** [n > i && packet[i] != 0] *)
Definition nonzero_at (i : nat) (packet : list byte) : result bool :=
  if (i <? length packet)%nat then b ← byte_at i packet; Ok (negb (b =? 0)) else Ok false.

Fixpoint allZero (indices : list nat) (packet : list byte) : result unit :=
  match indices with
  | [] => Ok tt
  | i :: indices => b ← nonzero_at i packet; _ ← require (negb b); allZero indices packet
  end.

(** What the header of a query must not have, as far as it was read: QR, no question, answers. *)
Definition queryHeader (packet : list byte) : result unit :=
  let n := length packet in
  _ ← (if (2 <? n)%nat then b ← byte_at 2 packet; require (N.land b 0x80 =? 0) else Ok tt);
  _ ← (if (5 <? n)%nat then a ← byte_at 4 packet; b ← byte_at 5 packet; require (negb ((a =? 0) && (b =? 0))) else Ok tt);
  allZero (seq 6 4) packet.

Definition StreamDomainNameQuery (md : InboundContext) (r : reader) : result InboundContext :=
  '(length_, r) ← needMore (binary_Read 2 r);
  _ ← require (12 <=? length_);
  let '(packet, err) := buf_ReadFullFrom r (N.to_nat length_) in
  _ ← queryHeader packet;
  match err with
  | Some err => Err (E_Cause1 ErrNeedMoreData err)
  | None => DomainNameQuery md packet
  end.

Definition RDP (md : InboundContext) (r : reader) : result InboundContext :=
  '(tpktVersion, r) ← needMore (binary_Read 1 r);
  _ ← require (tpktVersion =? 3);
  '(tpktReserved, r) ← needMore (binary_Read 1 r);
  _ ← require (tpktReserved =? 0);
  '(tpktLength, r) ← needMore (binary_Read 2 r);
  _ ← require (tpktLength =? 19);
  '(cotpLength, r) ← needMore (binary_Read 1 r);
  _ ← require (cotpLength =? 14);
  '(cotpTpduType, r) ← needMore (binary_Read 1 r);
  _ ← require (cotpTpduType =? 0xE0);
  r ← needMore (rw_SkipN r 5);
  '(rdpType, r) ← needMore (binary_Read 1 r);
  _ ← require (rdpType =? 1);
  '(_, r) ← needMore (binary_Read 1 r);
  '(rdpLength, r) ← needMore (binary_Read 1 r);
  _ ← require (rdpLength =? 8);
  Ok (found ProtocolRDP md).

Definition sshPrefix : list byte := bytes_of_string "SSH-2.0-".

(** [ReadLine] of a [bufio.Reader] with its buffer of 4096 bytes, nothing of which was consumed. *)
Definition bufio_ReadLine (data : list byte) : result (list byte) :=
  let buffer := take 4096 data in
  match list_find (fun b => b = x0a) buffer with
  | Some (i, _) =>
      let line := take i buffer in
      Ok (if bool_decide (last line = Some x0d) then take (i - 1) line else line)
  | None =>
      if (length buffer =? 4096)%nat then Ok (if bool_decide (last buffer = Some x0d) then take 4095 buffer else buffer)
      else if (0 <? length buffer)%nat then Ok buffer else Err ErrEOF
  end.

Definition SSH (md : InboundContext) (r : reader) : result InboundContext :=
  let data := concat r in
  let prefix := take 8 data in
  _ ← require (bool_decide (prefix = take (length prefix) sshPrefix));
  if (length prefix <? 8)%nat then Err (E_Cause1 ErrNeedMoreData ErrEOF)
  else
    firstLine ← bufio_ReadLine data;
    client ← sub_slice 8 (length firstLine) firstLine;
    Ok {| md with Protocol := ProtocolSSH; Client := string_of_bytes client |}.

Definition HTTPHost (md : InboundContext) (r : reader) : result InboundContext :=
  match http_ReadRequest r with
  | Err err => Err (if errors.Is err ErrUnexpectedEOF then E_Cause1 ErrNeedMoreData err else err)
  | Panic msg => Panic msg
  | Ok host => Ok {| md with Protocol := ProtocolHTTP; Domain := ParseSocksaddr_AddrString host |}
  end.

(** A handshake that ended without an error and a hello returns no error. *)
Definition TLSClientHello (md : InboundContext) (r : reader) : result InboundContext :=
  match tls_Handshake r with
  | (Some serverName, _) => Ok {| md with Protocol := ProtocolTLS; Domain := serverName |}
  | (None, Some err) => Err (if errors.Is err ErrUnexpectedEOF then E_Cause1 ErrNeedMoreData err else err)
  | (None, None) => Ok md
  end.

(** ** Packets *)

(** The loop over the extensions of a uTP header; [None] when the fuel is used up. *)
Fixpoint utpExtensions (fuel : nat) (extension : N) (rest : list byte) : option (result unit) :=
  if extension =? 0 then Some (Ok tt)
  else
    match fuel with
    | O => None
    | S fuel =>
        match rest with
        | [] => Some (Err ErrEOF)
        | next :: rest =>
            if 4 <? Byte.to_N next then Some (Err ErrInvalid)
            else
              match rest with
              | [] => Some (Err ErrEOF)
              | length_ :: rest => utpExtensions fuel (Byte.to_N next) (drop (N.to_nat (Byte.to_N length_)) rest)
              end
        end
    end.

Definition UTP (md : InboundContext) (packet : list byte) : option (result InboundContext) :=
  if (length packet <? 20)%nat then Some (Err ErrInvalid)
  else
    match byte_at 0 packet, byte_at 1 packet with
    | Ok first, Ok extension =>
        let version := N.land first 0x0F in
        let ty := N.shiftr first 4 in
        if negb (version =? 1) || (4 <? ty) then Some (Err ErrInvalid)
        else
          match sub_slice 20 (length packet) packet with
          | Ok rest => option_map (fun r => _ ← r; Ok (found ProtocolBitTorrent md)) (utpExtensions (S (length rest)) extension rest)
          | _ => Some (Panic "slice bounds out of range")
          end
    | _, _ => Some (Panic "index out of range")
    end.

Definition trackerProtocolID : N := 0x41727101980.

Definition UDPTracker (md : InboundContext) (packet : list byte) : result InboundContext :=
  _ ← require (16 <=? length packet)%nat;
  id ← uint_at 0 8 packet;
  _ ← require (id =? trackerProtocolID);
  flag ← uint_at 8 12 packet;
  _ ← require (flag =? 0);
  Ok (found ProtocolBitTorrent md).

Definition STUNMessage (md : InboundContext) (packet : list byte) : result InboundContext :=
  _ ← require (20 <=? length packet)%nat;
  cookie ← uint_at 4 8 packet;
  _ ← require (cookie =? 0x2112A442);
  length_ ← uint_at 2 4 packet;
  _ ← require (20 + N.to_nat length_ <=? length packet)%nat;
  Ok (found ProtocolSTUN md).

Definition DTLSRecord (md : InboundContext) (packet : list byte) : result InboundContext :=
  _ ← require (13 <=? length packet)%nat;
  contentType ← byte_at 0 packet;
  _ ← require (existsb (N.eqb contentType) [20; 21; 22; 23; 25]);
  versionMajor ← byte_at 1 packet;
  _ ← require (versionMajor =? 0xfe);
  versionMinor ← byte_at 2 packet;
  _ ← require ((versionMinor =? 0xff) || (versionMinor =? 0xfd));
  Ok (found ProtocolDTLS md).

(** The quotients of 32-bit numbers by 65536 are exact in [float64]. *)
Definition NTP (md : InboundContext) (packet : list byte) : result InboundContext :=
  _ ← require (48 <=? length packet)%nat;
  firstByte ← byte_at 0 packet;
  let li := N.land (N.shiftr firstByte 6) 3 in
  let vn := N.land (N.shiftr firstByte 3) 7 in
  let mode := N.land firstByte 7 in
  _ ← require (li <=? 3);
  _ ← require ((vn =? 3) || (vn =? 4));
  _ ← require (mode =? 3);
  rootDelay ← uint_at 4 8 packet;
  rootDispersion ← uint_at 8 12 packet;
  _ ← require (rootDelay <=? 16 * 65536);
  _ ← require (rootDispersion <=? 16 * 65536);
  Ok (found ProtocolNTP md).

(** ** As function values of the actions *)

Definition as_sniffer {A} (F : InboundContext -> A -> result InboundContext) (md : InboundContext) (payload : A) : result (InboundContext * option error) :=
  match F md payload with
  | Ok md => Ok (md, None)
  | Err err => Ok (md, Some err)
  | Panic msg => Panic msg
  end.

End Sniffers.

End Sniff.

(** ** Properties of readers *)

Lemma readFull_loop_spec n r : (readFull_loop n r).1 = take n (concat r) /\ concat (readFull_loop n r).2 = drop n (concat r).
Proof.
  revert n. induction r as [|b r IH]; intros [|n]; cbn [readFull_loop concat]; try done.
  destruct (Nat.leb_spec (S n) (length b)) as [Hle|Hlt]; cbn [fst snd concat].
  - rewrite take_app_le, drop_app_le by lia. done.
  - destruct (IH (S n - length b)%nat) as [H1 H2]. destruct (readFull_loop _ r) as [more rest]. cbn [fst snd] in *.
    rewrite H1, H2, take_app_ge, drop_app_ge by lia. done.
Qed.

Lemma io_ReadFull_Ok n r : (n <= length (concat r))%nat -> exists r', io_ReadFull n r = Ok (take n (concat r), r') /\ concat r' = drop n (concat r).
Proof.
  intros Hn. unfold io_ReadFull. destruct (readFull_loop_spec n r) as [H1 H2]. destruct (readFull_loop n r) as [bytes r']. cbn in H1, H2.
  exists r'. rewrite H1, length_take_le by done. by rewrite (proj2 (Nat.ltb_ge _ _)).
Qed.
Lemma io_ReadFull_Err n r : (length (concat r) < n)%nat -> exists e, io_ReadFull n r = Err e.
Proof.
  intros Hn. unfold io_ReadFull. destruct (readFull_loop_spec n r) as [H1 _]. destruct (readFull_loop n r) as [bytes r']. cbn in H1.
  rewrite H1, length_take_ge by lia. rewrite (proj2 (Nat.ltb_lt _ _)) by done. eauto.
Qed.

Lemma binary_Read_Ok n r : (n <= length (concat r))%nat ->
  exists r', binary_Read n r = Ok (be_decode (take n (concat r)), r') /\ concat r' = drop n (concat r).
Proof. intros (r' & H & Hr)%io_ReadFull_Ok. exists r'. unfold binary_Read. by rewrite H. Qed.
Lemma binary_Read_Err n r : (length (concat r) < n)%nat -> exists e, binary_Read n r = Err e.
Proof. intros (e & H)%io_ReadFull_Err. exists e. unfold binary_Read. by rewrite H. Qed.

(** ** Third-party code *)

(** [E.Cause1] and [E.Errors] wrap all the errors they are given; [ReadFullFrom] and [SkipN] read
    as [io.ReadFull] does. *)
Class SniffLaws `{SniffLib} `{RouteExternals} : Prop := {
  Cause1_Is e c : errors.Is (E_Cause1 e c) ErrNeedMoreData = errors.Is e ErrNeedMoreData || errors.Is c ErrNeedMoreData;
  Errors_Is l : errors.opt_Is (E_Errors l) ErrNeedMoreData = existsb (fun e => errors.opt_Is e ErrNeedMoreData) l;
  Errors_nil l : E_Errors l = None <-> Forall (fun e => e = None) l;
  ReadFullFrom_spec r n : buf_ReadFullFrom r n =
    (take n (concat r), match io_ReadFull n r with Ok _ => None | Err e => Some e | Panic _ => None end);
  SkipN_Ok r n : (n <= length (concat r))%nat -> exists r', rw_SkipN r n = Ok r' /\ concat r' = drop n (concat r);
  SkipN_Err r n : (length (concat r) < n)%nat -> exists e, rw_SkipN r n = Err e;
  Unpack_total packet : not_panic (msg_Unpack packet);
}.

Import Sniff.

(** ** More data *)

Definition wantsMore (e : error) : bool := errors.Is e ErrNeedMoreData.

Section Settles.
Context `{SniffLaws}.

(** What a sniffer says without asking for more data it also says when there is more. *)
Definition settles {A} (F : reader -> result A) : Prop := forall r r2 more, concat r2 = concat r ++ more ->
  (forall a, F r = Ok a -> F r2 = Ok a) /\ (forall e, F r = Err e -> wantsMore e = false -> F r2 = Err e) /\ not_panic (F r).
(** The same for a stream in one buffer. *)
Definition settles1 {A} (F : reader -> result A) : Prop := forall b more,
  (forall a, F [b] = Ok a -> F [b ++ more] = Ok a) /\ (forall e, F [b] = Err e -> wantsMore e = false -> F [b ++ more] = Err e) /\ not_panic (F [b]).

Lemma settles_one {A} (F : reader -> result A) : settles F -> settles1 F.
Proof. intros HF b more. apply (HF [b] [b ++ more] more). cbn. by rewrite !app_nil_r. Qed.

Lemma wantsMore_Cause1 e : wantsMore (E_Cause1 ErrNeedMoreData e) = true.
Proof. unfold wantsMore. by rewrite Cause1_Is. Qed.

Lemma settles_read {A} n (G : N -> reader -> result A) : (forall v, settles (G v)) ->
  settles (fun r => '(v, r) ← needMore (binary_Read n r); G v r).
Proof.
  intros HG r r2 more Hr. destruct (decide (n <= length (concat r))%nat) as [Hn|Hn].
  - destruct (binary_Read_Ok n r Hn) as (r' & -> & Hr'). destruct (binary_Read_Ok n r2) as (r2' & -> & Hr2'); [rewrite Hr, length_app; lia|].
    cbn. rewrite Hr, take_app_le by done. apply (HG _ r' r2' more). rewrite Hr', Hr2', Hr. by rewrite drop_app_le.
  - destruct (binary_Read_Err n r) as (e & ->); [lia|]. cbn. split; [done|]. split; [|done]. intros ? [= <-]. by rewrite wantsMore_Cause1.
Qed.

Lemma settles_skip {A} n (G : reader -> result A) : settles G -> settles (fun r => r ← needMore (rw_SkipN r n); G r).
Proof.
  intros HG r r2 more Hr. destruct (decide (n <= length (concat r))%nat) as [Hn|Hn].
  - destruct (SkipN_Ok r n Hn) as (r' & -> & Hr'). destruct (SkipN_Ok r2 n) as (r2' & -> & Hr2'); [rewrite Hr, length_app; lia|].
    cbn. apply (HG r' r2' more). rewrite Hr', Hr2', Hr. by rewrite drop_app_le.
  - destruct (SkipN_Err r n) as (e & ->); [lia|]. cbn. split; [done|]. split; [|done]. intros ? [= <-]. by rewrite wantsMore_Cause1.
Qed.

Lemma settles_require {A} b (G : reader -> result A) : settles G -> settles (fun r => _ ← require b; G r).
Proof. intros HG. destruct b; cbn; [done|]. intros r r2 more _. by repeat split. Qed.
Lemma settles_ret {A} (a : A) : settles (fun _ => Ok a).
Proof. intros r r2 more _. by repeat split. Qed.

Lemma RDP_settles md : settles (RDP md).
Proof. unfold RDP. repeat first [apply settles_read; intros ?|apply settles_require|apply settles_skip|apply settles_ret]. Qed.

(** *** BitTorrent *)

Lemma be_decode_one b : be_decode [b] = Byte.to_N b.
Proof. unfold be_decode. cbn. lia. Qed.

(** The sniffer on one buffer. *)
Lemma BitTorrent_one md b : BitTorrent md [b] =
  match b with
  | [] => Err (E_Cause1 ErrNeedMoreData ErrEOF)
  | first :: rest =>
      if Byte.to_N first =? 19 then
        if bool_decide (take 19 rest = take (length (take 19 rest)) btHeader) then
          match rest with
          | [] => Err (E_Cause1 ErrNeedMoreData ErrEOF)
          | _ => if (length (take 19 rest) <? 19)%nat then Err ErrNeedMoreData else Ok (found ProtocolBitTorrent md)
          end
        else Err ErrInvalid
      else Err ErrInvalid
  end.
Proof.
  destruct b as [|first rest]; [done|].
  assert (E : binary_Read 1 [first :: rest] = Ok (Byte.to_N first, [rest])) by (rewrite <- be_decode_one; cbn; by rewrite ?take_0, ?drop_0).
  unfold BitTorrent. rewrite E. cbn [needMore map_err mbind result_bind]. destruct (Byte.to_N first =? 19); cbn [require]; [|done].
  destruct rest as [|x rest]; [done|]. set (l := x :: rest). change (io_Read 19 [l]) with (take 19 l, @None error, [drop 19 l]).
  cbn [require]. case_bool_decide; done.
Qed.

Lemma prefix_longer {A} n (l l2 m : list A) : take n l = take (length (take n l)) m -> (length (take n l) = n \/ l2 = []) -> take n (l ++ l2) = take n l.
Proof. intros _ [Hn| ->]; [|by rewrite app_nil_r]. rewrite length_take in Hn. by rewrite take_app_le by lia. Qed.

Lemma mismatch_longer {A} n (l l2 m : list A) : take n (l ++ l2) = take (length (take n (l ++ l2))) m -> take n l = take (length (take n l)) m.
Proof.
  intros Heq. assert (Hpre : take n l = take (length (take n l)) (take n (l ++ l2))).
  { rewrite take_take, length_take. rewrite Nat.min_l by lia. destruct (decide (n <= length l)%nat) as [Hn|Hn].
    - rewrite Nat.min_l by lia. by rewrite take_app_le.
    - rewrite Nat.min_r by lia. rewrite take_app_length. by rewrite take_ge by lia. }
  rewrite Hpre at 1. rewrite Heq, take_take. f_equal. rewrite !length_take, length_app. lia.
Qed.

Lemma BitTorrent_settles md : settles1 (BitTorrent md).
Proof.
  intros b more. rewrite !BitTorrent_one. destruct b as [|first rest]; cbn [app].
  { split; [done|]. split; [|done]. intros e [= <-]. by rewrite wantsMore_Cause1. }
  destruct (Byte.to_N first =? 19); [|by repeat split]. case_bool_decide as Hb.
  - destruct rest as [|x rest]; [split; [done|]; split; [|done]; intros e [= <-]; by rewrite wantsMore_Cause1|]. set (l := x :: rest) in *.
    destruct (Nat.ltb_spec (length (take 19 l)) 19) as [Hlt|Hge]; [split; [done|]; split; [|done]; by intros e [= <-]|].
    rewrite (prefix_longer 19 l more btHeader); [|done|left; rewrite length_take in *; lia]. rewrite bool_decide_eq_true_2 by done.
    cbn [app l]. rewrite (proj2 (Nat.ltb_ge _ _)) by done. by repeat split.
  - split; [done|]. split; [|done]. intros e [= <-] _. rewrite bool_decide_eq_false_2; [done|]. intros Heq. apply Hb. by eapply mismatch_longer.
Qed.

(** *** DNS *)

Definition badHeader (packet : list byte) : bool :=
  match packet !! 2%nat with Some b => negb (N.land (Byte.to_N b) 0x80 =? 0) | None => false end
  || match packet !! 4%nat, packet !! 5%nat with Some a, Some b => (Byte.to_N a =? 0) && (Byte.to_N b =? 0) | _, _ => false end
  || existsb (fun i => match packet !! i with Some b => negb (Byte.to_N b =? 0) | None => false end) (seq 6 4).

Lemma allZero_spec indices packet : allZero indices packet =
  if existsb (fun i => match packet !! i with Some b => negb (Byte.to_N b =? 0) | None => false end) indices then Err ErrInvalid else Ok tt.
Proof.
  induction indices as [|i indices IH]; [done|]. cbn [allZero existsb]. unfold nonzero_at. destruct (Nat.ltb_spec i (length packet)) as [Hi|Hi].
  - destruct (lookup_lt_is_Some_2 packet i Hi) as [b Hb]. rewrite (byte_at_lookup i packet b Hb), Hb. cbn. destruct (Byte.to_N b =? 0); cbn; [done|done].
  - rewrite (lookup_ge_None_2 packet i Hi). cbn. done.
Qed.

Lemma queryHeader_spec packet : queryHeader packet = if badHeader packet then Err ErrInvalid else Ok tt.
Proof.
  unfold queryHeader, badHeader. rewrite allZero_spec.
  destruct (Nat.ltb_spec 2 (length packet)) as [H2|H2]; [destruct (lookup_lt_is_Some_2 packet 2 H2) as [b2 E2]; rewrite (byte_at_lookup 2 packet b2 E2), E2|rewrite (lookup_ge_None_2 packet 2) by lia];
    (destruct (Nat.ltb_spec 5 (length packet)) as [H5|H5];
     [destruct (lookup_lt_is_Some_2 packet 4) as [b4 E4]; [lia|]; destruct (lookup_lt_is_Some_2 packet 5 H5) as [b5 E5]; rewrite (byte_at_lookup 4 packet b4 E4), (byte_at_lookup 5 packet b5 E5), E4, E5
     |rewrite (lookup_ge_None_2 packet 5) by lia; destruct (packet !! 4%nat)]); cbn;
    repeat match goal with |- context [N.land ?a ?b =? 0] => destruct (N.land a b =? 0) end; cbn;
    repeat match goal with |- context [Byte.to_N ?a =? 0] => destruct (Byte.to_N a =? 0) end; cbn; try done.
Qed.

Lemma badHeader_longer packet more : badHeader packet = true -> badHeader (packet ++ more) = true.
Proof.
  assert (Hl : forall i b, packet !! i = Some b -> (packet ++ more) !! i = Some b) by (intros; by apply lookup_app_l_Some).
  unfold badHeader. rewrite !orb_true_iff. intros [[Hx|Hx]|Hx]; [left; left|left; right|right].
  - destruct (packet !! 2%nat) as [b|] eqn:E; [|done]. by rewrite (Hl _ _ E).
  - destruct (packet !! 4%nat) as [a|] eqn:Ea; [|done]. destruct (packet !! 5%nat) as [b|] eqn:E; [|done]. by rewrite (Hl _ _ Ea), (Hl _ _ E).
  - apply existsb_exists in Hx as (i & Hi & Hb). apply existsb_exists. exists i. split; [done|]. destruct (packet !! i) as [b|] eqn:E; [|done]. by rewrite (Hl _ _ E).
Qed.

Lemma DomainNameQuery_total md packet : not_panic (DomainNameQuery md packet).
Proof. unfold DomainNameQuery. pose proof (Unpack_total packet) as Hu. destruct (msg_Unpack packet) as [msg|e|msg]; [by destruct (_ || _)|done|by destruct (Hu msg)]. Qed.

Lemma StreamDomainNameQuery_settles md : settles (StreamDomainNameQuery md).
Proof.
  unfold StreamDomainNameQuery. apply settles_read. intros v. apply settles_require. intros r r2 more Hr. rewrite !ReadFullFrom_spec.
  set (n := N.to_nat v). rewrite !queryHeader_spec. destruct (decide (n <= length (concat r))%nat) as [Hn|Hn].
  - destruct (io_ReadFull_Ok n r Hn) as (r' & -> & _). destruct (io_ReadFull_Ok n r2) as (r2' & -> & _); [rewrite Hr, length_app; lia|].
    rewrite Hr, take_app_le by done. destruct (badHeader _); cbn; [by repeat split|]. split; [done|]. split; [done|]. apply DomainNameQuery_total.
  - destruct (io_ReadFull_Err n r) as (e & ->); [lia|]. rewrite Hr, take_app_ge by lia. rewrite take_ge by lia. destruct (badHeader (concat r)) eqn:Eb; cbn.
    + rewrite badHeader_longer by done. by repeat split.
    + split; [done|]. split; [|done]. intros ? [= <-]. by rewrite wantsMore_Cause1.
Qed.

(** *** At most one of them recognises a stream *)

Inductive steady : Type := Dns | Bt | Rdp.
Definition sniffer (n : steady) : InboundContext -> reader -> result InboundContext :=
  match n with Dns => StreamDomainNameQuery | Bt => BitTorrent | Rdp => RDP end.

Lemma steady_settles n md : settles1 (sniffer n md).
Proof. destruct n; [apply settles_one, StreamDomainNameQuery_settles|apply BitTorrent_settles|apply settles_one, RDP_settles]. Qed.

Lemma read_inv {A} n r (G : N * reader -> result A) a : needMore (binary_Read n r) ≫= G = Ok a ->
  (n <= length (concat r))%nat /\ exists r', concat r' = drop n (concat r) /\ G (be_decode (take n (concat r)), r') = Ok a.
Proof.
  destruct (decide (n <= length (concat r))%nat) as [Hn|Hn]; intros E; (split; [try done|]).
  - destruct (binary_Read_Ok n r Hn) as (r' & Hb & Hr). rewrite Hb in E. eauto.
  - destruct (binary_Read_Err n r) as (e & Hb); [lia|]. by rewrite Hb in E.
  - destruct (binary_Read_Err n r) as (e & Hb); [lia|]. by rewrite Hb in E.
Qed.
Lemma skip_inv {A} n r (G : reader -> result A) a : needMore (rw_SkipN r n) ≫= G = Ok a -> exists r', concat r' = drop n (concat r) /\ G r' = Ok a.
Proof.
  destruct (decide (n <= length (concat r))%nat) as [Hn|Hn]; intros E.
  - destruct (SkipN_Ok r n Hn) as (r' & Hb & Hr). rewrite Hb in E. eauto.
  - destruct (SkipN_Err r n) as (e & Hb); [lia|]. by rewrite Hb in E.
Qed.
Lemma require_inv {A} b (G : unit -> result A) a : require b ≫= G = Ok a -> b = true /\ G tt = Ok a.
Proof. by destruct b. Qed.

Lemma take_one {A} i (l : list A) : (1 <= length (drop i l))%nat -> exists x, l !! i = Some x /\ take 1 (drop i l) = [x].
Proof.
  intros Hl. rewrite length_drop in Hl. destruct (lookup_lt_is_Some_2 l i) as [x Hx]; [lia|]. exists x. split; [done|]. by rewrite (drop_S l x i Hx).
Qed.

(** What the first bytes of a recognised stream are. *)
Definition at_ (S : list byte) (i : nat) (v : N) : Prop := exists b, S !! i = Some b /\ Byte.to_N b = v.

Lemma at_take S i v : (1 <= length (drop i S))%nat -> be_decode (take 1 (drop i S)) = v -> at_ S i v.
Proof. intros (x & Hx & ->)%take_one. rewrite be_decode_one. intros <-. by exists x. Qed.

Lemma RDP_Ok md S md' : RDP md [S] = Ok md' -> at_ S 0 3 /\ at_ S 11 1.
Proof.
  unfold RDP. intros E. apply read_inv in E as (L1 & r1 & R1 & E). cbn in L1, R1. rewrite app_nil_r in L1, R1. apply require_inv in E as [V1%N.eqb_eq E].
  cbn in V1. rewrite app_nil_r in V1.
  apply read_inv in E as (_ & r2 & R2 & E). apply require_inv in E as [_ E]. apply read_inv in E as (_ & r3 & R3 & E). apply require_inv in E as [_ E].
  apply read_inv in E as (_ & r4 & R4 & E). apply require_inv in E as [_ E]. apply read_inv in E as (_ & r5 & R5 & E). apply require_inv in E as [_ E].
  apply skip_inv in E as (r6 & R6 & E). apply read_inv in E as (L7 & r7 & _ & E). apply require_inv in E as [V7%N.eqb_eq _].
  rewrite R6, R5, R4, R3, R2, R1, !drop_drop in L7, V7. cbn in L7, V7. split; apply at_take; done.
Qed.

Lemma BitTorrent_Ok md S md' : BitTorrent md [S] = Ok md' -> at_ S 0 19 /\ at_ S 8 (Byte.to_N "e").
Proof.
  rewrite BitTorrent_one. destruct S as [|first rest]; [done|]. destruct (Byte.to_N first =? 19) eqn:Ef; [|done]. apply N.eqb_eq in Ef.
  case_bool_decide as Hb; [|done]. destruct rest as [|x rest]; [done|]. set (l := x :: rest) in *.
  destruct (Nat.ltb_spec (length (take 19 l)) 19) as [|Hge]; [done|]. intros _. split; [by exists first|]. exists "e"%byte. split; [|done].
  cbn [lookup list_lookup]. change (l !! 7%nat = Some "e"%byte). assert (Hl : take 19 l = btHeader) by (rewrite Hb; apply take_ge; done).
  rewrite <- (lookup_take_lt l 19 7) by lia. by rewrite Hl.
Qed.

Lemma StreamDomainNameQuery_Ok md S md' : StreamDomainNameQuery md [S] = Ok md' -> at_ S 8 0 /\ at_ S 11 0.
Proof.
  unfold StreamDomainNameQuery. intros E. apply read_inv in E as (L1 & r1 & R1 & E). cbn in L1, R1. rewrite app_nil_r in L1, R1. set (v := be_decode _) in E.
  apply require_inv in E as [V1%N.leb_le E]. rewrite ReadFullFrom_spec, queryHeader_spec in E. destruct (badHeader _) eqn:Eb; [done|]. cbn [mbind result_bind] in E.
  destruct (decide (N.to_nat v <= length (concat r1))%nat) as [Hn|Hn].
  - assert (Hz : forall i, (6 <= i < 10)%nat -> at_ S (2 + i) 0); [|split; apply (Hz 6%nat) || apply (Hz 9%nat); lia].
    intros i Hi. unfold badHeader in Eb. apply orb_false_iff in Eb as [_ Eb]. apply existsb_false_iff in Eb. rewrite Forall_forall in Eb.
    specialize (Eb i). rewrite list_elem_of_In, in_seq in Eb. specialize (Eb ltac:(lia)). cbv beta in Eb. rewrite R1 in Hn, Eb.
    rewrite lookup_take_lt, lookup_drop in Eb by lia. rewrite length_drop in Hn. destruct (lookup_lt_is_Some_2 S (2 + i)) as [b Hb]; [lia|].
    rewrite Hb in Eb. exists b. split; [done|]. apply negb_false_iff, N.eqb_eq in Eb. done.
  - destruct (io_ReadFull_Err (N.to_nat v) r1) as (e & He); [lia|]. by rewrite He in E.
Qed.

Lemma at_fun S i v w : at_ S i v -> at_ S i w -> v = w.
Proof. intros (b & Hb & <-) (c & Hc & <-). congruence. Qed.

Lemma steady_exclusive n m md md' S a b : sniffer n md [S] = Ok a -> sniffer m md' [S] = Ok b -> n = m.
Proof.
  destruct n, m; cbn [sniffer]; intros Hn Hm; try done; exfalso;
    repeat match goal with
    | E : RDP _ _ = Ok _ |- _ => apply RDP_Ok in E as [? ?]
    | E : BitTorrent _ _ = Ok _ |- _ => apply BitTorrent_Ok in E as [? ?]
    | E : StreamDomainNameQuery _ _ = Ok _ |- _ => apply StreamDomainNameQuery_Ok in E as [? ?]
    end;
    match goal with X : at_ S ?i ?v, Y : at_ S ?i ?w |- _ => by pose proof (at_fun S i v w X Y) end.
Qed.

Lemma as_sniffer_Ok {A} (F : InboundContext -> A -> result InboundContext) md p md' : F md p = Ok md' -> as_sniffer F md p = Ok (md', None).
Proof. intros E. unfold as_sniffer. by rewrite E. Qed.

Lemma as_sniffer_Err {A} (F : InboundContext -> A -> result InboundContext) md p e : F md p = Err e -> as_sniffer F md p = Ok (md, Some e).
Proof. intros E. unfold as_sniffer. by rewrite E. Qed.

(** *** Segments *)

Definition streamSniffers (ns : list steady) : list StreamSniffer := (fun n => as_sniffer (sniffer n)) <$> ns.
Definition asks (md : InboundContext) (b : list byte) (n : steady) : bool :=
  match sniffer n md [b] with Err e => wantsMore e | _ => false end.

Lemma peek_sniffers ns md b e0 :
  (exists n md', n ∈ ns /\ sniffer n md [b] = Ok md' /\ peekStream_sniffers (streamSniffers ns) md [b] e0 = Ok (md', None)) \/
  ((forall n, n ∈ ns -> exists e, sniffer n md [b] = Err e) /\ exists e1, peekStream_sniffers (streamSniffers ns) md [b] e0 = Ok (md, Some e1) /\
     (ns <> [] \/ e0 <> None -> e1 <> None) /\ errors.opt_Is e1 ErrNeedMoreData = errors.opt_Is e0 ErrNeedMoreData || existsb (asks md b) ns).
Proof.
  revert e0. induction ns as [|n ns IH]; intros e0.
  { right. split; [by intros n ?%elem_of_nil|]. exists e0. split; [done|]. split; [by intros [?|?]|]. by rewrite orb_false_r. }
  unfold streamSniffers. cbn [fmap list_fmap peekStream_sniffers existsb]. change ((fun n => as_sniffer (sniffer n)) <$> ns) with (streamSniffers ns).
  pose proof (steady_settles n md b []) as (_ & _ & Htotal). destruct (sniffer n md [b]) as [md'|e|msg] eqn:E; [|destruct (IH (E_Errors [e0; Some e])) as [Hs|[Hs Hn]]|by destruct (Htotal msg)].
  - left. exists n, md'. split; [apply list_elem_of_here|]. split; [done|]. by erewrite as_sniffer_Ok by exact E.
  - erewrite as_sniffer_Err by exact E. cbn [mbind result_bind]. left. destruct Hs as (n' & md' & Hin & Hok & Hp). exists n', md'. split; [by apply list_elem_of_further|]. done.
  - erewrite as_sniffer_Err by exact E. cbn [mbind result_bind]. right. split.
    + intros n' [->|Hin]%elem_of_cons; [by exists e|auto].
    + destruct Hn as (e1 & Hp & Hne & His). exists e1. split; [done|]. split.
      * intros _. apply Hne. right. rewrite Errors_nil. intros Hall. by apply Forall_cons_1 in Hall as [_ [? _]%Forall_cons_1].
      * rewrite His, Errors_Is. unfold asks at 2. rewrite E. cbn [existsb errors.opt_Is]. rewrite orb_false_r. by rewrite orb_assoc.
Qed.

(** What a stream in segments comes to. *)
Definition recognises (ns : list steady) (md : InboundContext) (S : list byte) (md1 : InboundContext) (e1 : option error) : Prop :=
  (e1 = None /\ exists n, n ∈ ns /\ sniffer n md [S] = Ok md1) \/
  (e1 <> None /\ md1 = md /\ forall n a, n ∈ ns -> sniffer n md [S] <> Ok a).

Lemma peek_segments ns md segs first buffer e0 : ns <> [] ->
  (first = true -> segs <> []) -> (first = false -> e0 <> None /\ forall n, n ∈ ns -> exists e, sniffer n md [buffer] = Err e) ->
  exists md1 b1 ev1 e1, peekStream_loop (ReadBytes <$> segs) first md [] buffer (streamSniffers ns) e0 = Ok (md1, b1, ev1, e1) /\
    recognises ns md (buffer ++ concat segs) md1 e1.
Proof.
  intros Hns. revert first buffer e0. induction segs as [|seg segs IH]; intros first buffer e0 Hfirst Hrest; cbn [fmap list_fmap peekStream_loop].
  { destruct first; [by destruct Hfirst|]. destruct (Hrest eq_refl) as [He Hall]. eexists _, _, _, _. split; [done|]. right. split; [done|]. split; [done|]. intros n a Hin. cbn. rewrite app_nil_r.
    destruct (Hall n Hin) as [e ->]. done. }
  cbn [concat]. rewrite app_assoc. set (b := buffer ++ seg). cbn [app].
  destruct (peek_sniffers ns md b None) as [(n & md' & Hin & Hok & ->)|(Hall & e1 & -> & Hne & His)].
  - eexists _, _, _, _. split; [done|]. left. split; [done|]. exists n. split; [done|]. by apply (steady_settles n md b (concat segs)).
  - cbn [mbind result_bind]. destruct (errors.opt_Is e1 ErrNeedMoreData) eqn:Em; cbn [negb]; [apply IH; [done|]; intros _; split; [auto|done]|].
    eexists _, _, _, _. split; [done|]. right. split; [auto|]. split; [done|]. intros n a Hin. destruct (Hall n Hin) as [e He]. apply orb_false_iff in His as [_ His] || (symmetry in His; apply orb_false_iff in His as [_ His]).
    apply existsb_false_iff in His. rewrite Forall_forall in His. specialize (His n Hin). unfold asks in His. rewrite He in His.
    destruct (steady_settles n md b (concat segs)) as (_ & Hs & _). rewrite (Hs e He His). done.
Qed.

(** C25: the sniffers for DNS, BitTorrent and RDP, in any order, come to the same on a stream however it is cut into segments. *)
Theorem sniff_ignores_segmentation ns md segs segs' : ns <> [] -> segs <> [] -> segs' <> [] -> concat segs = concat segs' ->
  exists md' b1 ev1 e1 b2 ev2 e2, PeekStream md (ReadBytes <$> segs) [] (streamSniffers ns) = Ok (md', b1, ev1, e1) /\
    PeekStream md (ReadBytes <$> segs') [] (streamSniffers ns) = Ok (md', b2, ev2, e2) /\ (e1 = None <-> e2 = None).
Proof.
  intros Hns H1' H2' Heq. unfold PeekStream.
  destruct (peek_segments ns md segs true [] None Hns (fun _ => H1') ltac:(done)) as (md1 & b1 & ev1 & e1 & -> & P1).
  destruct (peek_segments ns md segs' true [] None Hns (fun _ => H2') ltac:(done)) as (md2 & b2 & ev2 & e2 & -> & P2).
  cbn [app] in P1, P2. rewrite Heq in P1. enough (H12 : md1 = md2 /\ (e1 = None <-> e2 = None)) by (destruct H12 as [-> H12]; exists md2, b1, ev1, e1, b2, ev2, e2; done).
  destruct P1 as [[-> (n & Hn & Hok)]|(He1 & -> & Hno)], P2 as [[-> (n' & Hn' & Hok')]|(He2 & -> & Hno')].
  - pose proof (steady_exclusive _ _ _ _ _ _ _ Hok Hok') as ->. split; [congruence|done].
  - by destruct (Hno' n md1 Hn).
  - by destruct (Hno n' md2 Hn').
  - done.
Qed.

End Settles.

(** ** Packets *)

Lemma le_decode_snoc l b : le_decode (l ++ [b]) = le_decode l + 256 ^ N.of_nat (length l) * Byte.to_N b.
Proof. induction l as [|a l IH]; cbn [app le_decode length]; [cbn; lia|]. rewrite IH, Nat2N.inj_succ, N.pow_succ_r'. lia. Qed.
Lemma be_decode_high b l : be_decode (b :: l) = 256 ^ N.of_nat (length l) * Byte.to_N b + be_decode l.
Proof. unfold be_decode. cbn [rev]. rewrite le_decode_snoc, length_rev. lia. Qed.

Section Packets.
Context `{SniffLaws}.

Lemma utpExtensions_total fuel extension rest : (length rest < fuel)%nat -> exists r, utpExtensions fuel extension rest = Some r /\ not_panic r.
Proof.
  revert extension rest. induction fuel as [|fuel IH]; intros extension rest Hf; [lia|]. cbn. destruct (extension =? 0); [by eexists|].
  destruct rest as [|next rest]; [by eexists|]. destruct (4 <? Byte.to_N next); [by eexists|]. destruct rest as [|n rest]; [by eexists|].
  apply IH. rewrite length_drop. cbn in Hf. lia.
Qed.

Lemma UTP_total md packet : exists r, UTP md packet = Some r /\ not_panic r.
Proof.
  unfold UTP. destruct (Nat.ltb_spec (length packet) 20) as [|Hl]; [by eexists|].
  destruct (lookup_lt_is_Some_2 packet 0) as [b0 E0]; [lia|]. destruct (lookup_lt_is_Some_2 packet 1) as [b1 E1]; [lia|].
  rewrite (byte_at_lookup 0 packet b0 E0), (byte_at_lookup 1 packet b1 E1). destruct (_ || _); [by eexists|]. rewrite sub_slice_Ok by lia.
  destruct (utpExtensions_total (S (length (take (length packet - 20) (drop 20 packet)))) (Byte.to_N b1) (take (length packet - 20) (drop 20 packet))) as (r & -> & Hr); [lia|].
  cbn. eexists. split; [done|]. by apply not_panic_bind.
Qed.
Definition utp (md : InboundContext) (packet : list byte) : result InboundContext := default (Panic "out of fuel") (UTP md packet).

(** The sniffers of packets with fixed headers. *)
Inductive fixed : Type := Utp | Tracker | Dtls | Ntp.
Definition fixedSniffer (n : fixed) : InboundContext -> list byte -> result InboundContext :=
  match n with Utp => utp | Tracker => UDPTracker | Dtls => DTLSRecord | Ntp => NTP end.

Lemma require_total b : not_panic (require b).
Proof. by destruct b. Qed.
Lemma uint_at_total lo hi packet : (lo <= hi)%nat -> (hi <= length packet)%nat -> not_panic (uint_at lo hi packet).
Proof. intros. unfold uint_at. by rewrite sub_slice_Ok. Qed.

Ltac total := repeat first [done | apply require_total | apply byte_at_total; lia | apply uint_at_total; lia | apply not_panic_bind; [|intros ? ?]].
Ltac inv_require :=
  repeat match goal with E : require ?b = Ok _ |- _ =>
    let H := fresh "Hb" in assert (H : b = true) by (by destruct b); clear E; rewrite ?Nat.leb_le in H end.

Lemma fixed_total n md packet : not_panic (fixedSniffer n md packet).
Proof.
  destruct n; cbn [fixedSniffer].
  - unfold utp. destruct (UTP_total md packet) as (r & -> & Hr). done.
  - unfold UDPTracker. apply not_panic_bind; [apply require_total|]. intros ? ?. inv_require. total.
  - unfold DTLSRecord. apply not_panic_bind; [apply require_total|]. intros ? ?. inv_require. total.
  - unfold NTP. apply not_panic_bind; [apply require_total|]. intros ? ?. inv_require. total.
Qed.

(** The first byte of a packet they recognise. *)
Definition firstByte (n : fixed) (b : N) : bool :=
  match n with
  | Utp => N.land b 15 =? 1
  | Tracker => b =? 0
  | Dtls => existsb (N.eqb b) [20; 21; 22; 23; 25]
  | Ntp => N.land b 7 =? 3
  end.

Lemma byte_at_Ok i packet v : byte_at i packet = Ok v -> exists b, packet !! i = Some b /\ Byte.to_N b = v.
Proof. unfold byte_at, index. destruct (packet !! i) as [b|]; [|done]. cbn. intros [= <-]. eauto. Qed.

Lemma fixed_first n md packet md' : fixedSniffer n md packet = Ok md' -> exists b, packet !! 0%nat = Some b /\ firstByte n (Byte.to_N b) = true.
Proof.
  destruct n; cbn [fixedSniffer firstByte].
  - unfold utp, UTP. destruct (Nat.ltb_spec (length packet) 20) as [|Hl]; [done|]. destruct (lookup_lt_is_Some_2 packet 0) as [b0 E0]; [lia|].
    rewrite (byte_at_lookup 0 packet b0 E0). destruct (byte_at 1 packet); [|done..]. destruct (_ || _) eqn:Eo; [done|]. intros _. exists b0. split; [done|].
    apply orb_false_iff in Eo as [Eo _]. by apply negb_false_iff.
  - unfold UDPTracker. intros (? & E1 & E)%bind_Ok_inv. inv_require. apply bind_Ok_inv in E as (id & Eid & E). apply require_inv in E as [Hid%N.eqb_eq _].
    unfold uint_at in Eid. rewrite sub_slice_Ok in Eid by lia. destruct packet as [|b packet]; [cbn in *; lia|]. exists b. split; [done|].
    apply Ok_inj in Eid. rewrite Hid in Eid. cbn [Nat.sub drop take] in Eid. rewrite be_decode_high, length_take in Eid. cbn [length] in Hb.
    rewrite Nat.min_l in Eid by lia. change (256 ^ N.of_nat 7) with 72057594037927936 in Eid. unfold trackerProtocolID in Eid. apply N.eqb_eq. lia.
  - unfold DTLSRecord. intros (? & E1 & E)%bind_Ok_inv. apply bind_Ok_inv in E as (b & (b0 & Hb & <-)%byte_at_Ok & E). apply require_inv in E as [Hc _]. eauto.
  - unfold NTP. intros (? & E1 & E)%bind_Ok_inv. apply bind_Ok_inv in E as (b & (b0 & Hb & <-)%byte_at_Ok & E). cbn zeta in E.
    apply require_inv in E as [_ E]. apply require_inv in E as [_ E]. apply require_inv in E as [Hc _]. eauto.
Qed.

Lemma firstByte_exclusive n m (b : byte) : firstByte n (Byte.to_N b) = true -> firstByte m (Byte.to_N b) = true -> n = m.
Proof. by destruct n, m, b. Qed.

Lemma fixed_exclusive n m md md' packet a b : fixedSniffer n md packet = Ok a -> fixedSniffer m md' packet = Ok b -> n = m.
Proof.
  intros (x & Hx & Hn)%fixed_first (y & Hy & Hm)%fixed_first. rewrite Hx in Hy. injection Hy as <-. by eapply firstByte_exclusive.
Qed.

Definition packetSniffers (ns : list fixed) : list PacketSniffer := (fun n => as_sniffer (fixedSniffer n)) <$> ns.

Lemma peekPacket_spec ns md packet errs : exists md1 e1, peekPacket_loop (packetSniffers ns) md packet errs = Ok (md1, e1) /\
  ((e1 = None /\ exists n, n ∈ ns /\ fixedSniffer n md packet = Ok md1) \/
  (md1 = md /\ (ns <> [] \/ Exists (fun e => e <> None) errs -> e1 <> None) /\ forall n a, n ∈ ns -> fixedSniffer n md packet <> Ok a)).
Proof.
  revert errs. induction ns as [|n ns IH]; intros errs; cbn [packetSniffers fmap list_fmap peekPacket_loop].
  { eexists _, _. split; [done|]. right. split; [done|]. split; [|by intros n a ?%elem_of_nil]. intros [?|Hex]; [done|]. rewrite Errors_nil. intros Hall.
    apply Exists_exists in Hex as (e & Hin & He). rewrite Forall_forall in Hall. auto. }
  pose proof (fixed_total n md packet) as Ht. destruct (fixedSniffer n md packet) as [md'|e|msg] eqn:E; [|specialize (IH (errs ++ [Some e]))|by destruct (Ht msg)].
  - erewrite as_sniffer_Ok by exact E. eexists _, _. split; [done|]. left. split; [done|]. exists n. split; [apply list_elem_of_here|done].
  - erewrite as_sniffer_Err by exact E. destruct IH as (md1 & e1 & Hp & IH). exists md1, e1. split; [done|]. destruct IH as [(-> & n' & Hin & Hok)|(-> & Hne & Hno)].
    + left. split; [done|]. exists n'. split; [by apply list_elem_of_further|done].
    + right. split; [done|]. split; [|intros n' a [->|?]%elem_of_cons; [congruence|auto]]. intros _. apply Hne. right. apply Exists_app. right. by apply Exists_cons_hd.
Qed.

(** Which of the sniffers for uTP, trackers, DTLS and NTP runs first does not matter. *)
Theorem packet_sniffers_commute ns ns' md packet : ns <> [] -> (forall n, n ∈ ns <-> n ∈ ns') ->
  exists md' e1 e2, PeekPacket md packet (packetSniffers ns) = Ok (md', e1) /\
    PeekPacket md packet (packetSniffers ns') = Ok (md', e2) /\ (e1 = None <-> e2 = None).
Proof.
  intros Hns Hsame. assert (Hns' : ns' <> []).
  { intros ->. destruct ns as [|n ns]; [done|]. by assert (n ∈ []) as ?%elem_of_nil by (apply Hsame, list_elem_of_here). }
  unfold PeekPacket. destruct (peekPacket_spec ns md packet []) as (md1 & e1 & -> & P1). destruct (peekPacket_spec ns' md packet []) as (md2 & e2 & -> & P2).
  enough (H12 : md1 = md2 /\ (e1 = None <-> e2 = None)) by (destruct H12 as [-> H12]; by exists md2, e1, e2).
  destruct P1 as [(-> & n & Hn & Hok)|(-> & Hne & Hno)], P2 as [(-> & n' & Hn' & Hok')|(-> & Hne' & Hno')].
  - pose proof (fixed_exclusive _ _ _ _ _ _ _ Hok Hok') as ->. split; [congruence|done].
  - by destruct (Hno' n md1); [apply Hsame|].
  - by destruct (Hno n' md2); [apply Hsame|].
  - split; [done|]. split; intros ?; exfalso; [apply Hne|apply Hne']; auto.
Qed.

(** Packets that unpack as a DNS message but are no query end the search: the sniffers behind the one for DNS do not run. *)
Theorem dns_sniffer_hides_others md packet msg rest : msg_Unpack packet = Ok msg -> Response msg = true \/ Questions msg = [] ->
  PeekPacket md packet (as_sniffer DomainNameQuery :: rest) = Ok (md, None).
Proof.
  intros Hu Hm. unfold PeekPacket. cbn [peekPacket_loop]. unfold as_sniffer at 1, DomainNameQuery. rewrite Hu.
  destruct Hm as [->| ->]; cbn; [done|]. by rewrite orb_true_r.
Qed.

(** The sniffer recognises exactly the packets that the STUN client of the realms decodes. *)
Theorem stun_sniffer_agrees `{Externals} md packet : is_ok (STUNMessage md packet) = is_ok (Stun.Decode packet).
Proof.
  unfold STUNMessage, Stun.Decode, Stun.HeaderSize, Stun.magicCookie, uint_at. rewrite Nat.leb_antisym.
  destruct (length packet <? 20)%nat eqn:Hl; [done|]. apply Nat.ltb_ge in Hl. cbn [negb require mbind result_bind].
  rewrite (sub_slice_Ok 4 8), (sub_slice_Ok 2 4) by lia. cbn [mbind result_bind]. set (cookie := be_decode (take (8 - 4) _)). set (n := N.to_nat (be_decode _)).
  destruct (cookie =? 0x2112A442); [|done]. cbn [negb require mbind result_bind]. rewrite Nat.leb_antisym.
  destruct (length packet <? 20 + n)%nat eqn:Hn; [done|]. apply Nat.ltb_ge in Hn. cbn [negb require mbind result_bind].
  rewrite (sub_slice_Ok 0 (20 + n)) by lia. cbn [mbind result_bind]. rewrite sub_slice_Ok; [done|lia|]. rewrite length_take, drop_0. lia.
Qed.

End Packets.

(** ** Samples *)

(** A DNS library that knows messages without sections. *)
#[local] Instance sampleSniffLib : SniffLib := {
  E_Cause1 := E_Join;
  buf_ReadFullFrom r n := (take n (concat r), match io_ReadFull n r with Ok _ => None | Err e => Some e | Panic _ => None end);
  rw_SkipN r n := if (length (concat r) <? n)%nat then Err ErrEOF else Ok [drop n (concat r)];
  http_ReadRequest r := Err ErrUnexpectedEOF;
  ParseSocksaddr_AddrString host := host;
  tls_Handshake r := (None, Some ErrUnexpectedEOF);
  msg_Unpack packet :=
    if (length packet <? 12)%nat then Err (E_New ["overflow unpacking uint16"])
    else if forallb (fun b => Byte.to_N b =? 0) (take 8 (drop 4 packet))
    then Ok (mkMsg (be_decode (take 2 packet)) (N.testbit (Byte.to_N (default x00 (packet !! 2%nat))) 7) false false false 0 [] [] [] [])
    else Err (E_New ["bad rdata"]);
}.

Fixpoint joinErrors (l : list (option error)) : option error :=
  match l with
  | [] => None
  | None :: l => joinErrors l
  | Some e :: l => match joinErrors l with Some acc => Some (E_Join e acc) | None => Some e end
  end.

#[local] Instance sampleRoute : RouteExternals := {
  Socksaddr_IsValid _ := true;
  Socksaddr_IsDomain _ := false;
  Socksaddr_IsIPv4 _ := true;
  M_IsDomainName _ := false;
  M_ParseSocksaddrHostPort _ _ := SocksaddrZero;
  E_Errors := joinErrors;
}.

#[local] Instance sampleSniffLaws : SniffLaws.
Proof.
  split; try done.
  - intros l. cbn. induction l as [|[e|] l IH]; cbn; [done| |done]. destruct (joinErrors l) as [acc|]; cbn in *; rewrite <- IH; [done|]. by rewrite orb_false_r.
  - intros l. cbn. induction l as [|[e|] l IH]; cbn.
    + split; [by constructor|done].
    + split; [by destruct (joinErrors l)|]. intros Hall. by apply Forall_cons_1 in Hall as [? _].
    + rewrite IH. split; [by constructor|]. by intros [_ ?]%Forall_cons_1.
  - intros r n Hn. cbn [rw_SkipN sampleSniffLib]. rewrite (proj2 (Nat.ltb_ge _ _)) by done. eexists. split; [done|]. cbn. by rewrite app_nil_r.
  - intros r n Hn. cbn [rw_SkipN sampleSniffLib]. rewrite (proj2 (Nat.ltb_lt _ _)) by done. eauto.
  - intros packet. cbn [msg_Unpack sampleSniffLib]. destruct (length packet <? 12)%nat; [done|]. by destruct (forallb _ _).
Qed.

Definition rdpRequest : list byte := byte_of_N <$> [3; 0; 0; 19; 14; 0xE0; 0; 0; 0; 0; 0; 1; 0; 8; 0; 3; 0; 0; 0].

(** An RDP request byte by byte. *)
Lemma sniff_ignores_segmentation_witness :
  exists md' b1 ev1 e1 b2 ev2 e2, PeekStream InboundContextZero (ReadBytes <$> ((fun b => [b]) <$> rdpRequest)) [] (streamSniffers [Dns; Bt; Rdp]) = Ok (md', b1, ev1, e1) /\
    PeekStream InboundContextZero (ReadBytes <$> [rdpRequest]) [] (streamSniffers [Dns; Bt; Rdp]) = Ok (md', b2, ev2, e2) /\
    Protocol md' = "rdp" /\ (e1 = None <-> e2 = None).
Proof.
  destruct (sniff_ignores_segmentation [Dns; Bt; Rdp] InboundContextZero ((fun b => [b]) <$> rdpRequest) [rdpRequest])
    as (md' & b1 & ev1 & e1 & b2 & ev2 & e2 & T1 & T2 & T); [discriminate|discriminate|discriminate|reflexivity|].
  exists md', b1, ev1, e1, b2, ev2, e2. split; [exact T1|]. split; [exact T2|]. split; [|exact T]. vm_compute in T1. by injection T1 as <- _ _ _.
Defined.

Definition ntpRequest : list byte := byte_of_N 0x23 :: replicate 47 x00.

Lemma packet_sniffers_commute_witness :
  exists md' e1 e2, PeekPacket InboundContextZero ntpRequest (packetSniffers [Utp; Tracker; Dtls; Ntp]) = Ok (md', e1) /\
    PeekPacket InboundContextZero ntpRequest (packetSniffers [Ntp; Dtls; Tracker; Utp]) = Ok (md', e2) /\
    Protocol md' = "ntp" /\ (e1 = None <-> e2 = None).
Proof.
  destruct (packet_sniffers_commute [Utp; Tracker; Dtls; Ntp] [Ntp; Dtls; Tracker; Utp] InboundContextZero ntpRequest) as (md' & e1 & e2 & T1 & T2 & T);
    [discriminate|intros n; split; intros _; destruct n; repeat constructor|].
  exists md', e1, e2. split; [exact T1|]. split; [exact T2|]. split; [|exact T]. vm_compute in T1. by injection T1 as <- _.
Defined.

(** The usual request of an NTP client unpacks as a DNS message without a question, so that it is not recognised in the default order. *)
Example ntp_request_hidden : PeekPacket InboundContextZero ntpRequest (as_sniffer DomainNameQuery :: packetSniffers [Utp; Tracker; Dtls; Ntp]) = Ok (InboundContextZero, None).
Proof. by eapply dns_sniffer_hides_others; [vm_compute; reflexivity|right]. Qed.

(** The first record of a DTLS handshake as well. *)
Definition dtlsHello : list byte := (byte_of_N <$> [22; 0xfe; 0xfd]) ++ replicate 8 x00 ++ (byte_of_N <$> [0; 100]) ++ replicate 100 x01.
Example dtls_hello_hidden : PeekPacket InboundContextZero dtlsHello (packetSniffers [Dtls]) = Ok (found ProtocolDTLS InboundContextZero, None) /\
  PeekPacket InboundContextZero dtlsHello (as_sniffer DomainNameQuery :: packetSniffers [Dtls]) = Ok (InboundContextZero, None).
Proof. split; [vm_compute; reflexivity|]. by eapply dns_sniffer_hides_others; [vm_compute; reflexivity|left]. Qed.

(** The name of an SSH client depends on how its first line arrives. *)
Example ssh_client_depends_on_segments :
  let sniffed segs := '(md, _, _, _) ← PeekStream InboundContextZero (ReadBytes <$> segs) [] [as_sniffer SSH]; Ok (Client md) in
  sniffed [bytes_of_string "SSH-2.0-Open"; bytes_of_string "SSH_9.6" ++ [x0d; x0a]] = Ok "Open" /\
  sniffed [bytes_of_string "SSH-2.0-OpenSSH_9.6" ++ [x0d; x0a]] = Ok "OpenSSH_9.6".
Proof. split; vm_compute; reflexivity. Qed.

(** A BitTorrent handshake whose first bytes were read by an earlier sniff action is never recognised. *)
Example bittorrent_lost_after_sniff :
  let handshake := x13 :: bytes_of_string "BitTorrent protocol" in
  let protocol buffers events := '(md, _, _, e) ← PeekStream InboundContextZero events buffers [as_sniffer BitTorrent]; Ok (Protocol md, e) in
  protocol [] [ReadBytes handshake] = Ok ("bittorrent", None) /\
  protocol [take 4 handshake] [ReadBytes (drop 4 handshake)] = Ok ("", Some ErrNeedMoreData).
Proof. split; vm_compute; reflexivity. Qed.
