(* ===== verification/Ja3.v ===== *)
(** * TLS client hellos (src/common/ja3)

    The parser of a TLS record with a client hello, which the QUIC sniffer runs on what it has put
    together.  Every index and slice of the source is checked as in Go. *)

From S2P Require Import Prelude GoStd Metadata Binary Datagram Sniff.
From Stdlib Require Import Strings.Byte.
From stdpp Require Import list sorting.

Open Scope N_scope.

Module Ja3.

Definition contentType : N := 22.
Definition handshakeType : N := 1.
Definition sniExtensionType : N := 0.
Definition sniNameDNSHostnameType : N := 0.
Definition ecExtensionType : N := 10.
Definition ecpfExtensionType : N := 11.
Definition signatureAlgorithmsExtensionType : N := 13.
Definition versionExtensionType : N := 43.
Definition tlsVersionBitmask : N := 0xFFFC.
Definition tls13 : N := 0x0304.
Definition GreaseBitmask : N := 0x0F0F.

(** ** Errors *)

Definition LengthErr (check : nat) : error := E_New ["length check "; pretty check; " failed"].
Definition VersionErr (check : nat) : error := E_New ["version check "; pretty check; " failed"].
Definition ContentTypeErr : error := E_New ["content type not matching"].
Definition HandshakeTypeErr : error := E_New ["handshake type not matching"].
Definition SNITypeErr : error := E_New ["SNI type not supported"].

Record ClientHello : Type := mkClientHello {
  Version : N;
  CipherSuites : list N;
  Extensions : list N;
  EllipticCurves : list N;
  EllipticCurvePF : list N;
  Versions : list N;
  SignatureAlgorithms : list N;
  ServerName : string;
}.
Definition ClientHelloZero : ClientHello := mkClientHello 0 [] [] [] [] [] [] "".

(** ** Bytes *)

(** [if len(l) < n { return LengthErr }] *)
Definition atLeast (n : nat) (l : list byte) (check : nat) : result unit := if (length l <? n)%nat then Err (LengthErr check) else Ok tt.
(** [uint16(l[i])<<8 | uint16(l[i+1])] *)
Definition uint16_at (i : nat) (l : list byte) : result N := a ← byte_at i l; b ← byte_at (S i) l; Ok (a * 256 + b).
(** [l[i:]] *)
Definition suffix (i : nat) (l : list byte) : result (list byte) := sub_slice i (length l) l.
(** [binary.BigEndian.Uint16(l[i:])] *)
Definition Uint16_from (i : nat) (l : list byte) : result N := s ← suffix i l; uint16_at 0 s.

Fixpoint traverse {A} (f : nat -> result A) (indices : list nat) : result (list A) :=
  match indices with
  | [] => Ok []
  | i :: indices => a ← f i; l ← traverse f indices; Ok (a :: l)
  end.

(** The offsets [0, 2, ...] below [n]. *)
Definition evens (n : nat) : list nat := (fun i => 2 * i)%nat <$> seq 0 ((n + 1) / 2).

(** ** Extensions *)

(** The variables of the loop. *)
Record found : Type := mkFound {
  sni : list byte;
  extensions : list N;
  ellipticCurves : list N;
  ellipticCurvePF : list N;
  versions : list N;
  signatureAlgorithms : list N;
}.

Definition parseSNI (sex : list byte) (f : found) : result found :=
  _ ← atLeast 5 sex 13;
  sniType ← byte_at 2 sex;
  sniLen ← uint16_at 3 sex;
  sex ← suffix 5 sex;
  if negb (length sex =? N.to_nat sniLen)%nat then Err (LengthErr 14)
  else if sniType =? sniNameDNSHostnameType then Ok {| f with sni := sex |} else Err SNITypeErr.

Definition parseCurves (sex : list byte) (f : found) : result found :=
  _ ← atLeast 2 sex 15;
  ecsLen ← uint16_at 0 sex;
  let numCurves := (N.to_nat ecsLen / 2)%nat in
  sex ← suffix 2 sex;
  if negb (length sex =? N.to_nat ecsLen)%nat then Err (LengthErr 16)
  else l ← traverse (fun i => uint16_at (i * 2) sex) (seq 0 numCurves); Ok {| f with ellipticCurves := l |}.

Definition parsePointFormats (sex : list byte) (f : found) : result found :=
  _ ← atLeast 1 sex 17;
  ecpfsLen ← byte_at 0 sex;
  let numPF := N.to_nat ecpfsLen in
  sex ← suffix 1 sex;
  if negb (length sex =? numPF)%nat then Err (LengthErr 18)
  else l ← traverse (fun i => byte_at i sex) (seq 0 numPF); Ok {| f with ellipticCurvePF := l |}.

Definition parseVersions (sex : list byte) (f : found) : result found :=
  _ ← atLeast 1 sex 19;
  versionsLen ← byte_at 0 sex;
  l ← traverse (fun i => s ← suffix 1 sex; Uint16_from i s) (evens (N.to_nat versionsLen));
  Ok {| f with versions := versions f ++ l |}.

Definition parseSignatureAlgorithms (sex : list byte) (f : found) : result found :=
  _ ← atLeast 2 sex 20;
  ssaLen ← uint16_at 0 sex;
  l ← traverse (fun i => s ← suffix 2 sex; Uint16_from i s) (evens (N.to_nat ssaLen));
  Ok {| f with signatureAlgorithms := signatureAlgorithms f ++ l |}.

Definition parseExtension (exType : N) (sex : list byte) (f : found) : result found :=
  if exType =? sniExtensionType then parseSNI sex f
  else if exType =? ecExtensionType then parseCurves sex f
  else if exType =? ecpfExtensionType then parsePointFormats sex f
  else if exType =? versionExtensionType then parseVersions sex f
  else if exType =? signatureAlgorithmsExtensionType then parseSignatureAlgorithms sex f
  else Ok f.

(** The loop over the extensions; [None] when the fuel is used up.  [4+exLen] has 16 bits. *)
Fixpoint extensionLoop (fuel : nat) (exs : list byte) (f : found) : option (result found) :=
  match exs, fuel with
  | [], _ => Some (Ok f)
  | _, O => None
  | _, S fuel =>
      let extension :=
        _ ← atLeast 4 exs 11;
        exType ← uint16_at 0 exs;
        exLen ← uint16_at 2 exs;
        let f := {| f with extensions := extensions f ++ [exType] |} in
        _ ← atLeast (4 + N.to_nat exLen) exs 12;
        sex ← sub_slice 4 (4 + N.to_nat exLen) exs;
        f ← parseExtension exType sex f;
        exs ← suffix (N.to_nat ((4 + exLen) mod 2 ^ 16)) exs;
        Ok (exs, f) in
      match extension with
      | Ok (exs, f) => extensionLoop fuel exs f
      | Err err => Some (Err err)
      | Panic msg => Some (Panic msg)
      end
  end.

Definition parseExtensions (exs : list byte) (j : ClientHello) : option (result ClientHello) :=
  if (length exs =? 0)%nat then Some (Ok j)
  else
    let body :=
      _ ← atLeast 2 exs 9;
      exsLen ← uint16_at 0 exs;
      exs ← suffix 2 exs;
      _ ← atLeast (N.to_nat exsLen) exs 10;
      Ok exs in
    match body with
    | Err err => Some (Err err)
    | Panic msg => Some (Panic msg)
    | Ok exs =>
        option_map (fun r => f ← r;
          Ok {| j with ServerName := string_of_bytes (sni f); Extensions := extensions f; EllipticCurves := ellipticCurves f;
                       EllipticCurvePF := ellipticCurvePF f; Versions := versions f; SignatureAlgorithms := signatureAlgorithms f |})
          (extensionLoop (length exs) exs (mkFound [] [] [] [] [] []))
    end.

(** ** Handshake and record *)

Definition supported (version : N) : bool := (N.land version tlsVersionBitmask =? 0x0300) || (version =? tls13).

(** The cipher suites, and what follows the compression methods. *)
Definition parseSuites (cs : list byte) : result (list N * list byte) :=
  _ ← atLeast 2 cs 6;
  csLen ← uint16_at 0 cs;
  let numCiphers := N.to_nat (csLen / 2) in
  let n := N.to_nat csLen in
  _ ← atLeast (2 + n + 1) cs 7;
  cipherSuites ← traverse (fun i => a ← byte_at (2 + 2 * i) cs; b ← byte_at (3 + 2 * i) cs; Ok (a * 256 + b)) (seq 0 numCiphers);
  compressMethodLen ← byte_at (2 + n) cs;
  _ ← atLeast (2 + n + 1 + N.to_nat compressMethodLen) cs 8;
  exs ← suffix (2 + n + 1 + N.to_nat compressMethodLen) cs;
  Ok (cipherSuites, exs).

(** The version, the cipher suites and what follows the compression methods. *)
Definition parseHello (hs : list byte) : result (ClientHello * list byte) :=
  _ ← atLeast 39 hs 3;
  handshType ← byte_at 0 hs;
  if negb (handshType =? handshakeType) then Err HandshakeTypeErr
  else
    h1 ← byte_at 1 hs; h2 ← byte_at 2 hs; h3 ← byte_at 3 hs;
    let handshakeLen := h1 * 65536 + h2 * 256 + h3 in
    rest ← suffix 4 hs;
    if negb (length rest =? N.to_nat handshakeLen)%nat then Err (LengthErr 4)
    else
      tlsVersion ← uint16_at 4 hs;
      if negb (supported tlsVersion) then Err (VersionErr 2)
      else
        sessionIDLen ← byte_at 38 hs;
        _ ← atLeast (39 + N.to_nat sessionIDLen) hs 5;
        cs ← suffix (39 + N.to_nat sessionIDLen) hs;
        '(cipherSuites, exs) ← parseSuites cs;
        Ok ({| ClientHelloZero with Version := tlsVersion; CipherSuites := cipherSuites |}, exs).

Definition parseHandshake (hs : list byte) : option (result ClientHello) :=
  match parseHello hs with
  | Ok (j, exs) => parseExtensions exs j
  | Err err => Some (Err err)
  | Panic msg => Some (Panic msg)
  end.

(** The handshake message of the record. *)
Definition parseRecord (segment : list byte) : result (list byte) :=
  _ ← atLeast 5 segment 1;
  contType ← byte_at 0 segment;
  if negb (contType =? contentType) then Err ContentTypeErr
  else
    tlsRecordVersion ← uint16_at 1 segment;
    if negb (supported tlsRecordVersion) then Err (VersionErr 1)
    else
      segmentLen ← uint16_at 3 segment;
      body ← suffix 5 segment;
      _ ← atLeast (N.to_nat segmentLen) body 2;
      sub_slice 5 (5 + N.to_nat segmentLen) segment.

Definition Compute (payload : list byte) : option (result ClientHello) :=
  match parseRecord payload with
  | Ok hs => parseHandshake hs
  | Err err => Some (Err err)
  | Panic msg => Some (Panic msg)
  end.

(** ** Comparison *)

Definition sortedExtensions (j : ClientHello) : list N := merge_sort N.le (Extensions j).

Definition Equals (j another : ClientHello) (ignoreExtensionsSequence : bool) : bool :=
  bool_decide (Version j = Version another) && bool_decide (CipherSuites j = CipherSuites another)
  && bool_decide (Extensions j = if ignoreExtensionsSequence then sortedExtensions another else Extensions another)
  && bool_decide (EllipticCurves j = EllipticCurves another) && bool_decide (EllipticCurvePF j = EllipticCurvePF another)
  && bool_decide (SignatureAlgorithms j = SignatureAlgorithms another).

(** ** The fingerprint *)

(** A list of numbers with a dash behind each, the last of which becomes a comma. *)
Definition marshalList (values : list N) (byteString : string) : string :=
  if (length values =? 0)%nat then byteString +:+ ","
  else
    let byteString := foldl (fun s val => if N.land val GreaseBitmask =? 0x0A0A then s +:+ pretty val +:+ "-" else s) byteString values in
    String.substring 0 (String.length byteString - 1) byteString +:+ ",".

Definition marshalJA3 (j : ClientHello) : string :=
  let byteString := marshalList (CipherSuites j) (pretty (Version j) +:+ ",") in
  let byteString := marshalList (Extensions j) byteString in
  let byteString := marshalList (EllipticCurves j) byteString in
  if (length (EllipticCurvePF j) =? 0)%nat then byteString
  else
    let byteString := foldl (fun s val => s +:+ pretty val +:+ "-") byteString (EllipticCurvePF j) in
    String.substring 0 (String.length byteString - 1) byteString.

(** Only one side of the comparison is sorted: a hello is equal to itself up to the order of its
    extensions only when they are in order. *)
Lemma equals_itself_when_sorted j : Equals j j true = true <-> Sorted N.le (Extensions j).
Proof.
  unfold Equals, sortedExtensions. rewrite !(bool_decide_true _ eq_refl), !andb_true_r. cbn [andb]. rewrite bool_decide_eq_true. split.
  - intros ->. apply Sorted_merge_sort. intros x y. lia.
  - intros Hs. apply (Sorted_unique N.le); [done|apply Sorted_merge_sort; intros x y; lia|by rewrite merge_sort_Permutation].
Qed.

(** ** Reading encoded fields *)

Lemma byte_at_app a b c i : i = length a -> byte_at i (a ++ b :: c) = Ok (Byte.to_N b).
Proof. intros ->. unfold byte_at, index. rewrite lookup_app_r by lia. by rewrite Nat.sub_diag. Qed.

Lemma suffix_app a b i : i = length a -> suffix i (a ++ b) = Ok b.
Proof. intros ->. unfold suffix. rewrite sub_slice_Ok; [|rewrite length_app; lia..]. rewrite drop_app_length, length_app. by rewrite take_ge by lia. Qed.

Lemma be_encode_2 v : v < 65536 -> exists a b, be_encode 2 v = [a; b] /\ Byte.to_N a * 256 + Byte.to_N b = v.
Proof.
  intros Hv. exists (byte_of_N (v / 256)), (byte_of_N v). split; [done|]. rewrite !to_N_byte_of_N.
  rewrite (N.mod_small (v / 256)) by (apply N.Div0.div_lt_upper_bound; lia). pose proof (N.div_mod v 256). lia.
Qed.

Lemma uint16_at_app a v c i : v < 65536 -> i = length a -> uint16_at i (a ++ be_encode 2 v ++ c) = Ok v.
Proof.
  intros Hv ->. destruct (be_encode_2 v Hv) as (x & y & -> & Hxy). unfold uint16_at. cbn [app]. rewrite (byte_at_app a x (y :: c) (length a) eq_refl). cbn [mbind result_bind].
  rewrite (app_assoc a [x] (y :: c) : a ++ x :: y :: c = _). rewrite (byte_at_app (a ++ [x]) y c) by (rewrite length_app; cbn; lia). cbn. by rewrite Hxy.
Qed.

Lemma uint16_at_0 v c : v < 65536 -> uint16_at 0 (be_encode 2 v ++ c) = Ok v.
Proof. intros Hv. by apply (uint16_at_app []). Qed.

Lemma atLeast_Ok n l check : (n <= length l)%nat -> atLeast n l check = Ok tt.
Proof. intros Hn. unfold atLeast. by rewrite (proj2 (Nat.ltb_ge _ _)). Qed.

Lemma atLeast_Err n l check : (length l < n)%nat -> atLeast n l check = Err (LengthErr check).
Proof. intros Hn. unfold atLeast. by rewrite (proj2 (Nat.ltb_lt _ _)). Qed.

Lemma traverse_map {A B} (f : nat -> result A) (g : B -> A) (l : list B) k :
  (forall i x, l !! i = Some x -> f (k + i)%nat = Ok (g x)) -> traverse f (seq k (length l)) = Ok (g <$> l).
Proof.
  revert k. induction l as [|x l IH]; intros k Hf; [done|]. cbn [length seq traverse fmap list_fmap].
  rewrite <- (Nat.add_0_r k) at 1. rewrite (Hf 0%nat x) by done. cbn [mbind result_bind]. rewrite IH; [done|].
  intros i y Hy. replace (S k + i)%nat with (k + S i)%nat by lia. by apply Hf.
Qed.

(** Lists of 16-bit numbers. *)
Definition numbers (l : list N) : list byte := encode_uint16s l.

Lemma length_numbers l : length (numbers l) = (2 * length l)%nat.
Proof. unfold numbers, encode_uint16s. induction l as [|v l IH]; [done|]. cbn [flat_map length]. rewrite length_app, IH, length_be_encode. lia. Qed.

Lemma numbers_split l i v : l !! i = Some v -> exists a c, numbers l = a ++ be_encode 2 v ++ c /\ length a = (2 * i)%nat.
Proof.
  intros Hv. pose proof (take_drop_middle l i v Hv) as E. exists (numbers (take i l)), (numbers (drop (S i) l)). split.
  - rewrite <- E at 1. unfold numbers, encode_uint16s. by rewrite flat_map_app.
  - rewrite length_numbers, length_take. apply lookup_lt_Some in Hv. lia.
Qed.

Lemma uint16_at_numbers l i v : Forall (fun v => v < 65536) l -> l !! i = Some v -> uint16_at (2 * i) (numbers l) = Ok v.
Proof.
  intros Hl Hv. rewrite Forall_lookup in Hl. destruct (numbers_split l i v Hv) as (a & c & -> & Ha). apply uint16_at_app; [by eapply Hl|done].
Qed.

Lemma evens_even n : evens (2 * n) = (fun i => 2 * i)%nat <$> seq 0 n.
Proof. unfold evens. do 2 f_equal. rewrite Nat.mul_comm, Nat.add_comm. rewrite Nat.div_add by done. done. Qed.

Lemma traverse_evens (f : nat -> result N) l : (forall i v, l !! i = Some v -> f (2 * i)%nat = Ok v) -> traverse f (evens (2 * length l)) = Ok l.
Proof.
  intros Hf. rewrite evens_even. assert (Hcomp : forall k, traverse f ((fun i => 2 * i)%nat <$> seq k (length l)) = traverse (fun i => f (2 * i)%nat) (seq k (length l))).
  { clear Hf. induction (length l) as [|n IH]; intros k; [done|]. cbn [seq fmap list_fmap traverse]. by rewrite IH. }
  rewrite Hcomp, (traverse_map _ id); [by rewrite list_fmap_id|]. intros i v Hv. by apply Hf.
Qed.

Lemma Uint16_from_numbers l i v : Forall (fun v => v < 65536) l -> l !! i = Some v -> Uint16_from (2 * i) (numbers l) = Ok v.
Proof.
  intros Hl Hv. rewrite Forall_lookup in Hl. destruct (numbers_split l i v Hv) as (a & c & -> & Ha). unfold Uint16_from. rewrite suffix_app by done. cbn [mbind result_bind].
  apply (uint16_at_app []); [by eapply Hl|done].
Qed.

(** ** Hellos as RFC 8446 encodes them *)

Inductive extension : Type :=
| ESni (name : list byte)
| ECurves (l : list N)
| EPointFormats (l : list byte)
| EVersions (l : list N)
| ESignatures (l : list N)
| EOther (type_ : N) (data : list byte).

Definition ext_type (e : extension) : N :=
  match e with
  | ESni _ => sniExtensionType | ECurves _ => ecExtensionType | EPointFormats _ => ecpfExtensionType
  | EVersions _ => versionExtensionType | ESignatures _ => signatureAlgorithmsExtensionType | EOther type_ _ => type_
  end.
Definition len2 (l : list byte) : list byte := be_encode 2 (N.of_nat (length l)) ++ l.
Definition len1 (l : list byte) : list byte := byte_of_N (N.of_nat (length l)) :: l.
Definition ext_body (e : extension) : list byte :=
  match e with
  | ESni name => len2 (x00 :: len2 name)
  | ECurves l | ESignatures l => len2 (numbers l)
  | EPointFormats l => len1 l
  | EVersions l => len1 (numbers l)
  | EOther _ data => data
  end.
Definition encode_ext (e : extension) : list byte := be_encode 2 (ext_type e) ++ len2 (ext_body e).

Definition ext_ok (e : extension) : Prop :=
  ext_type e < 65536 /\ N.of_nat (length (ext_body e)) < 65536 /\
  match e with
  | ESni _ => True
  | ECurves l | ESignatures l => Forall (fun v => v < 65536) l
  | EPointFormats l => (length l < 256)%nat
  | EVersions l => Forall (fun v => v < 65536) l /\ (length l < 128)%nat
  | EOther type_ _ => type_ ∉ [sniExtensionType; ecExtensionType; ecpfExtensionType; versionExtensionType; signatureAlgorithmsExtensionType]
  end.

(** What the parser notes of an extension. *)
Definition note (f : found) (e : extension) : found :=
  let f := {| f with extensions := extensions f ++ [ext_type e] |} in
  match e with
  | ESni name => {| f with sni := name |}
  | ECurves l => {| f with ellipticCurves := l |}
  | EPointFormats l => {| f with ellipticCurvePF := Byte.to_N <$> l |}
  | EVersions l => {| f with versions := versions f ++ l |}
  | ESignatures l => {| f with signatureAlgorithms := signatureAlgorithms f ++ l |}
  | EOther _ _ => f
  end.

Record hello : Type := mkHello {
  h_version : N; h_random : list byte; h_session : list byte; h_suites : list N; h_compression : list byte; h_extensions : list extension
}.
Definition hello_ok (h : hello) : Prop :=
  supported (h_version h) = true /\ h_version h < 65536 /\ length (h_random h) = 32%nat /\ (length (h_session h) < 256)%nat /\
  Forall (fun v => v < 65536) (h_suites h) /\ N.of_nat (length (h_suites h)) < 32768 /\ (length (h_compression h) < 256)%nat /\ Forall ext_ok (h_extensions h).

Definition hello_body (h : hello) : list byte :=
  be_encode 2 (h_version h) ++ h_random h ++ len1 (h_session h) ++ len2 (numbers (h_suites h)) ++ len1 (h_compression h)
  ++ len2 (flat_map encode_ext (h_extensions h)).
Definition handshake (h : hello) : list byte :=
  byte_of_N handshakeType :: be_encode 3 (N.of_nat (length (hello_body h))) ++ hello_body h.
(** A record of TLS 1.2 that claims to have [n] bytes. *)
Definition record (n : N) (body : list byte) : list byte := byte_of_N contentType :: be_encode 2 0x0303 ++ be_encode 2 n ++ body.

Definition fields (h : hello) : ClientHello :=
  let f := foldl note (mkFound [] [] [] [] [] []) (h_extensions h) in
  mkClientHello (h_version h) (h_suites h) (extensions f) (ellipticCurves f) (ellipticCurvePF f) (versions f) (signatureAlgorithms f) (string_of_bytes (sni f)).

(** *** Extensions are read back *)

Lemma len2_read a l c : N.of_nat (length l) < 65536 -> uint16_at (length a) (a ++ len2 l ++ c) = Ok (N.of_nat (length l)).
Proof. intros Hl. unfold len2. rewrite <- app_assoc. by apply uint16_at_app. Qed.
Lemma len2_suffix l : suffix 2 (len2 l) = Ok l.
Proof. unfold len2. apply suffix_app. by rewrite length_be_encode. Qed.
Lemma len1_suffix l : suffix 1 (len1 l) = Ok l.
Proof. unfold len1. apply (suffix_app [_]). done. Qed.
Lemma len1_read a l c : (length l < 256)%nat -> byte_at (length a) (a ++ len1 l ++ c) = Ok (N.of_nat (length l)).
Proof. intros Hl. unfold len1. cbn [app]. rewrite byte_at_app by done. rewrite to_N_byte_of_N. f_equal. apply N.mod_small. lia. Qed.
Lemma length_len2 l : length (len2 l) = (2 + length l)%nat.
Proof. unfold len2. by rewrite length_app, length_be_encode. Qed.

Lemma parseSNI_body name f : N.of_nat (length (ext_body (ESni name))) < 65536 -> parseSNI (ext_body (ESni name)) f = Ok {| f with sni := name |}.
Proof.
  intros Hb. cbn [ext_body] in *. rewrite length_len2 in Hb. cbn [length] in Hb. rewrite length_len2 in Hb. unfold parseSNI.
  rewrite atLeast_Ok by (rewrite length_len2; cbn [length]; rewrite length_len2; lia). cbn [mbind result_bind].
  set (n := N.of_nat (length (x00 :: len2 name))). assert (E : len2 (x00 :: len2 name) = be_encode 2 n ++ x00 :: be_encode 2 (N.of_nat (length name)) ++ name) by done.
  rewrite E. rewrite (byte_at_app (be_encode 2 n) x00) by (by rewrite length_be_encode). cbn [mbind result_bind].
  rewrite (cons_middle x00), (app_assoc (be_encode 2 n) [x00]). rewrite uint16_at_app; [|lia|by rewrite length_app, length_be_encode]. cbn [mbind result_bind].
  rewrite (app_assoc (be_encode 2 n ++ [x00])). rewrite suffix_app by (by rewrite !length_app, !length_be_encode). cbn [mbind result_bind].
  rewrite Nat2N.id, Nat.eqb_refl. done.
Qed.

Lemma len2_at0 l : N.of_nat (length l) < 65536 -> uint16_at 0 (len2 l) = Ok (N.of_nat (length l)).
Proof. intros Hl. pose proof (len2_read [] l [] Hl) as H. cbn [app length] in H. by rewrite app_nil_r in H. Qed.
Lemma len1_at0 l : (length l < 256)%nat -> byte_at 0 (len1 l) = Ok (N.of_nat (length l)).
Proof. intros Hl. pose proof (len1_read [] l [] Hl) as H. cbn [app length] in H. by rewrite app_nil_r in H. Qed.

Lemma parseCurves_body l f : N.of_nat (length (numbers l)) < 65536 -> Forall (fun v => v < 65536) l ->
  parseCurves (len2 (numbers l)) f = Ok {| f with ellipticCurves := l |}.
Proof.
  intros Hb Hl. unfold parseCurves. rewrite atLeast_Ok by (rewrite length_len2; lia). cbn [mbind result_bind].
  rewrite len2_at0, len2_suffix by done. cbn [mbind result_bind]. rewrite Nat2N.id, Nat.eqb_refl. cbn [negb].
  rewrite length_numbers, Nat.mul_comm, Nat.div_mul by done. rewrite (traverse_map _ id); [by rewrite list_fmap_id|].
  intros i v Hv. rewrite Nat.mul_comm. by apply uint16_at_numbers.
Qed.

Lemma parsePointFormats_body l f : (length l < 256)%nat -> parsePointFormats (len1 l) f = Ok {| f with ellipticCurvePF := Byte.to_N <$> l |}.
Proof.
  intros Hl. unfold parsePointFormats. rewrite atLeast_Ok by (cbn; lia). cbn [mbind result_bind]. rewrite len1_at0, len1_suffix by done. cbn [mbind result_bind].
  rewrite Nat2N.id, Nat.eqb_refl. cbn [negb]. rewrite (traverse_map _ Byte.to_N); [done|]. intros i b Hb. by apply byte_at_lookup.
Qed.

Lemma parseVersions_body l f : Forall (fun v => v < 65536) l -> (length l < 128)%nat -> parseVersions (len1 (numbers l)) f = Ok {| f with versions := versions f ++ l |}.
Proof.
  intros Hl Hn. unfold parseVersions. rewrite atLeast_Ok by (cbn; lia). cbn [mbind result_bind]. rewrite len1_at0 by (rewrite length_numbers; lia). cbn [mbind result_bind].
  rewrite Nat2N.id, length_numbers, traverse_evens; [done|]. intros i v Hv. rewrite len1_suffix. by apply Uint16_from_numbers.
Qed.

Lemma parseSignatureAlgorithms_body l f : Forall (fun v => v < 65536) l -> N.of_nat (length (numbers l)) < 65536 ->
  parseSignatureAlgorithms (len2 (numbers l)) f = Ok {| f with signatureAlgorithms := signatureAlgorithms f ++ l |}.
Proof.
  intros Hl Hn. unfold parseSignatureAlgorithms. rewrite atLeast_Ok by (rewrite length_len2; lia). cbn [mbind result_bind]. rewrite len2_at0 by done. cbn [mbind result_bind].
  rewrite Nat2N.id, length_numbers, traverse_evens; [done|]. intros i v Hv. rewrite len2_suffix. by apply Uint16_from_numbers.
Qed.

Lemma parse_body e f : ext_ok e ->
  parseExtension (ext_type e) (ext_body e) {| f with extensions := extensions f ++ [ext_type e] |} = Ok (note f e).
Proof.
  intros (Ht & Hb & He). set (f' := {| f with extensions := _ |}). unfold parseExtension. destruct e as [name|l|l|l|l|type_ data].
  - by apply (parseSNI_body name f').
  - apply (parseCurves_body l f'); [|done]. cbn [ext_body] in Hb. rewrite length_len2 in Hb. lia.
  - by apply (parsePointFormats_body l f').
  - destruct He. by apply (parseVersions_body l f').
  - apply (parseSignatureAlgorithms_body l f'); [done|]. cbn [ext_body] in Hb. rewrite length_len2 in Hb. lia.
  - cbn [ext_type ext_body]. rewrite !not_elem_of_cons in He. destruct He as (H1 & H2 & H3 & H4 & H5 & _).
    by rewrite !(proj2 (N.eqb_neq _ _)).
Qed.

Lemma extensionLoop_S fuel exs f : exs <> [] -> extensionLoop (S fuel) exs f =
  match (_ ← atLeast 4 exs 11; exType ← uint16_at 0 exs; exLen ← uint16_at 2 exs;
         _ ← atLeast (4 + N.to_nat exLen) exs 12; sex ← sub_slice 4 (4 + N.to_nat exLen) exs;
         f ← parseExtension exType sex {| f with extensions := extensions f ++ [exType] |};
         exs ← suffix (N.to_nat ((4 + exLen) mod 2 ^ 16)) exs; Ok (exs, f)) with
  | Ok (exs, f) => extensionLoop fuel exs f
  | Err err => Some (Err err)
  | Panic msg => Some (Panic msg)
  end.
Proof. by destruct exs. Qed.

Lemma extension_step fuel e rest f : ext_ok e -> N.of_nat (length (encode_ext e ++ rest)) < 65536 ->
  extensionLoop (S fuel) (encode_ext e ++ rest) f = extensionLoop fuel rest (note f e).
Proof.
  intros He Hlen. pose proof He as (Ht & Hb & _). set (n := length (ext_body e)).
  assert (E : encode_ext e ++ rest = be_encode 2 (ext_type e) ++ be_encode 2 (N.of_nat n) ++ ext_body e ++ rest) by (unfold encode_ext, len2; by rewrite <- !app_assoc).
  assert (Hl : length (encode_ext e ++ rest) = (4 + n + length rest)%nat) by (rewrite E, !length_app, !length_be_encode; unfold n; lia).
  rewrite extensionLoop_S by (intros H; by rewrite H in Hl). rewrite atLeast_Ok by lia. cbn [mbind result_bind]. rewrite E at 1. rewrite uint16_at_0 by done.
  cbn [mbind result_bind]. rewrite E at 1. rewrite uint16_at_app; [|done|by rewrite length_be_encode]. cbn [mbind result_bind]. rewrite Nat2N.id.
  rewrite atLeast_Ok by lia. cbn [mbind result_bind]. rewrite E at 1. rewrite (app_assoc (be_encode 2 (ext_type e))).
  rewrite sub_slice_app by (rewrite !length_app, !length_be_encode; unfold n; done). cbn [mbind result_bind]. rewrite parse_body by done. cbn [mbind result_bind].
  rewrite N.mod_small by (change (2 ^ 16) with 65536; lia). rewrite E, !app_assoc, suffix_app; [done|]. rewrite !length_app, !length_be_encode. unfold n. lia.
Qed.

Lemma extensions_read es f fuel : Forall ext_ok es -> N.of_nat (length (flat_map encode_ext es)) < 65536 -> (length es <= fuel)%nat ->
  extensionLoop fuel (flat_map encode_ext es) f = Some (Ok (foldl note f es)).
Proof.
  revert f fuel. induction es as [|e es IH]; intros f fuel Hok Hlen Hf; [by destruct fuel|]. apply Forall_cons_1 in Hok as [He Hes]. cbn [flat_map] in *.
  destruct fuel as [|fuel]; [cbn in Hf; lia|]. rewrite extension_step by done. apply IH; [done| |cbn in Hf; lia]. rewrite length_app in Hlen. lia.
Qed.

Lemma encode_ext_length e : (4 <= length (encode_ext e))%nat.
Proof. unfold encode_ext. rewrite length_app, length_len2, length_be_encode. lia. Qed.
Lemma extensions_length es : (length es <= length (flat_map encode_ext es))%nat.
Proof. induction es as [|e es IH]; [done|]. cbn [flat_map length]. rewrite length_app. pose proof (encode_ext_length e). lia. Qed.

Lemma parseExtensions_read es j : Forall ext_ok es -> N.of_nat (length (flat_map encode_ext es)) < 65536 ->
  parseExtensions (len2 (flat_map encode_ext es)) j =
  let f := foldl note (mkFound [] [] [] [] [] []) es in
  Some (Ok {| j with ServerName := string_of_bytes (sni f); Extensions := extensions f; EllipticCurves := ellipticCurves f;
                     EllipticCurvePF := ellipticCurvePF f; Versions := versions f; SignatureAlgorithms := signatureAlgorithms f |}).
Proof.
  intros Hok Hlen. unfold parseExtensions. rewrite length_len2. cbn [Nat.add Nat.eqb]. rewrite atLeast_Ok by (rewrite length_len2; lia). cbn [mbind result_bind].
  rewrite len2_at0, len2_suffix by done. cbn [mbind result_bind]. rewrite Nat2N.id, atLeast_Ok by done. cbn [mbind result_bind].
  rewrite extensions_read; [done|done|done|apply extensions_length].
Qed.

(** *** The hello is read back *)

Lemma be_encode_3_bytes v : v < 2 ^ 24 -> exists a b c, be_encode 3 v = [a; b; c] /\ Byte.to_N a * 65536 + Byte.to_N b * 256 + Byte.to_N c = v.
Proof.
  intros Hv. exists (byte_of_N (v / 256 / 256)), (byte_of_N (v / 256)), (byte_of_N v). split; [done|]. rewrite !to_N_byte_of_N.
  rewrite (N.mod_small (v / 256 / 256)) by (rewrite N.Div0.div_div; apply N.Div0.div_lt_upper_bound; change (2 ^ 24) with 16777216 in Hv; lia).
  pose proof (N.div_mod v 256). pose proof (N.div_mod (v / 256) 256). lia.
Qed.

Lemma suites_read l tail : Forall (fun v => v < 65536) l ->
  traverse (fun i => a ← byte_at (2 + 2 * i) (len2 (numbers l) ++ tail); b ← byte_at (3 + 2 * i) (len2 (numbers l) ++ tail); Ok (a * 256 + b)) (seq 0 (length l)) = Ok l.
Proof.
  intros Hl. rewrite (traverse_map _ id); [by rewrite list_fmap_id|]. intros i v Hv. change (uint16_at (2 + 2 * i) (len2 (numbers l) ++ tail) = Ok v).
  destruct (numbers_split l i v Hv) as (a & c & E & Ha). unfold len2. rewrite E at 2. rewrite <- !app_assoc, (app_assoc _ a). apply uint16_at_app.
  - rewrite Forall_lookup in Hl. by eapply Hl.
  - rewrite length_app, length_be_encode. lia.
Qed.

(** What follows the session identifier. *)
Definition suites_part (h : hello) : list byte := len2 (numbers (h_suites h)) ++ len1 (h_compression h) ++ len2 (flat_map encode_ext (h_extensions h)).

Lemma parseSuites_read h : hello_ok h -> parseSuites (suites_part h) = Ok (h_suites h, len2 (flat_map encode_ext (h_extensions h))).
Proof.
  intros (Hv & Hv' & Hr & Hs & Hcs & Hcl & Hcm & Hes). unfold parseSuites. set (cs := suites_part h). set (tail := len1 (h_compression h) ++ len2 (flat_map encode_ext (h_extensions h))).
  pose proof (length_numbers (h_suites h)) as Hn. set (nums := numbers (h_suites h)) in *.
  assert (Hl : length cs = (2 + length nums + (1 + length (h_compression h)) + length (len2 (flat_map encode_ext (h_extensions h))))%nat).
  { unfold cs, suites_part. rewrite !length_app, length_len2. cbn [len1 length]. fold nums. lia. }
  rewrite atLeast_Ok by lia. cbn [mbind result_bind]. replace (uint16_at 0 cs) with (@Ok N (N.of_nat (length nums))); [|symmetry; unfold cs, suites_part, len2; fold nums; rewrite <- app_assoc; apply uint16_at_0; lia].
  cbn [mbind result_bind]. rewrite Nat2N.id. rewrite atLeast_Ok by lia. cbn [mbind result_bind].
  replace (N.to_nat (N.of_nat (length nums) / 2)) with (length (h_suites h)) by (rewrite Hn, Nat2N.inj_mul; change (N.of_nat 2) with 2; rewrite N.mul_comm, N.div_mul by done; by rewrite Nat2N.id).
  pose proof (suites_read (h_suites h) tail Hcs) as Hsu. change (len2 (numbers (h_suites h)) ++ tail) with cs in Hsu. rewrite Hsu. cbn [mbind result_bind].
  replace (byte_at (2 + length nums) cs) with (@Ok N (N.of_nat (length (h_compression h)))); [|symmetry; unfold cs, suites_part; fold nums; rewrite <- (length_len2 nums); by apply len1_read].
  cbn [mbind result_bind]. rewrite Nat2N.id, atLeast_Ok by lia. cbn [mbind result_bind].
  replace (suffix _ cs) with (@Ok (list byte) (len2 (flat_map encode_ext (h_extensions h)))); [done|].
  symmetry. unfold cs, suites_part. rewrite app_assoc. apply suffix_app. rewrite length_app, length_len2. cbn [len1 length]. fold nums. lia.
Qed.

Lemma handshake_parts h : exists a b c, handshake h = [byte_of_N handshakeType; a; b; c] ++ hello_body h /\
  (N.of_nat (length (hello_body h)) < 2 ^ 24 -> Byte.to_N a * 65536 + Byte.to_N b * 256 + Byte.to_N c = N.of_nat (length (hello_body h))).
Proof.
  set (n := N.of_nat (length (hello_body h))). exists (byte_of_N (n / 256 / 256)), (byte_of_N (n / 256)), (byte_of_N n). split; [done|].
  intros Hn. destruct (be_encode_3_bytes n Hn) as (a & b & c & [= <- <- <-] & H). done.
Qed.

Lemma parseHello_read h : hello_ok h -> N.of_nat (length (handshake h)) < 65536 ->
  parseHello (handshake h) = Ok ({| ClientHelloZero with Version := h_version h; CipherSuites := h_suites h |}, len2 (flat_map encode_ext (h_extensions h))).
Proof.
  intros Hok Hlen. pose proof Hok as (Hv & Hv' & Hr & Hs & _). destruct (handshake_parts h) as (a & b & c & E & Hn). set (t := byte_of_N handshakeType) in *.
  assert (Ebody : hello_body h = be_encode 2 (h_version h) ++ h_random h ++ len1 (h_session h) ++ suites_part h) by done.
  assert (Hl : length (handshake h) = (4 + length (hello_body h))%nat) by (by rewrite E, length_app).
  assert (Hb : length (hello_body h) = (2 + 32 + (1 + length (h_session h)) + length (suites_part h))%nat).
  { rewrite Ebody, !length_app, length_be_encode, Hr. cbn [len1 length]. lia. }
  unfold parseHello. rewrite atLeast_Ok by lia. cbn [mbind result_bind]. rewrite E.
  change (byte_at 0 ([t; a; b; c] ++ hello_body h)) with (@Ok N 1). change (byte_at 1 ([t; a; b; c] ++ hello_body h)) with (Ok (Byte.to_N a)).
  change (byte_at 2 ([t; a; b; c] ++ hello_body h)) with (Ok (Byte.to_N b)). change (byte_at 3 ([t; a; b; c] ++ hello_body h)) with (Ok (Byte.to_N c)).
  cbn [mbind result_bind N.eqb Pos.eqb handshakeType negb]. rewrite suffix_app by done. cbn [mbind result_bind]. rewrite Hn by (change (2 ^ 24) with 16777216; lia).
  rewrite Nat2N.id, Nat.eqb_refl. cbn [negb]. rewrite Ebody at 1. rewrite uint16_at_app by done. cbn [mbind result_bind]. rewrite Hv. cbn [negb].
  set (pre := [t; a; b; c] ++ be_encode 2 (h_version h) ++ h_random h). assert (Hpre : length pre = 38%nat) by (unfold pre; rewrite !length_app, length_be_encode, Hr; done).
  replace ([t; a; b; c] ++ hello_body h) with (pre ++ len1 (h_session h) ++ suites_part h) by (rewrite Ebody; unfold pre; by rewrite <- !app_assoc).
  rewrite <- Hpre at 1. rewrite len1_read by done. cbn [mbind result_bind]. rewrite Nat2N.id, atLeast_Ok by (rewrite !length_app, Hpre; cbn [len1 length]; lia).
  cbn [mbind result_bind]. rewrite (app_assoc pre), suffix_app by (rewrite length_app, Hpre; cbn [len1 length]; lia). cbn [mbind result_bind].
  rewrite parseSuites_read by done. done.
Qed.

(** *** The record *)

Lemma parseRecord_read n body : n < 65536 ->
  parseRecord (record n body) = if (length body <? N.to_nat n)%nat then Err (LengthErr 2) else Ok (take (N.to_nat n) body).
Proof.
  intros Hn. set (pre := byte_of_N contentType :: be_encode 2 0x0303). assert (E : record n body = pre ++ be_encode 2 n ++ body) by done.
  assert (Hl : length (record n body) = (5 + length body)%nat) by (rewrite E, !length_app, length_be_encode; done).
  unfold parseRecord. rewrite atLeast_Ok by lia. change (byte_at 0 (record n body)) with (@Ok N 22). change (uint16_at 1 (record n body)) with (@Ok N 0x0303).
  cbn [mbind result_bind]. change (negb (22 =? contentType)) with false. change (negb (supported 0x0303)) with false. cbv iota.
  rewrite E. rewrite uint16_at_app by done. cbn [mbind result_bind]. rewrite app_assoc, suffix_app by (by rewrite length_app, length_be_encode). cbn [mbind result_bind].
  unfold atLeast. destruct (Nat.ltb_spec (length body) (N.to_nat n)) as [|Hge]; [done|]. cbn [mbind result_bind].
  rewrite sub_slice_Ok; [|lia|rewrite !length_app, length_be_encode; cbn; lia]. f_equal. rewrite drop_app_length' by (by rewrite length_app, length_be_encode).
  f_equal. lia.
Qed.

(** A client hello as TLS clients encode it is understood: version, cipher suites, extensions and the name of the server. *)
Theorem client_hello_read h : hello_ok h -> N.of_nat (length (handshake h)) < 65536 ->
  Compute (record (N.of_nat (length (handshake h))) (handshake h)) = Some (Ok (fields h)).
Proof.
  intros Hok Hlen. unfold Compute. rewrite parseRecord_read by done. rewrite Nat2N.id, Nat.ltb_irrefl, take_ge by done. unfold parseHandshake.
  rewrite parseHello_read by done. pose proof Hok as (_ & _ & _ & _ & _ & _ & _ & Hes). rewrite parseExtensions_read; [done|done|].
  destruct (handshake_parts h) as (a & b & c & E & _). rewrite E, length_app in Hlen. unfold hello_body in Hlen. rewrite !length_app, !length_len2 in Hlen. lia.
Qed.

(** A part of a hello is refused, whatever length the record claims. *)
Lemma hello_prefix_refused h n p q : handshake h = p ++ q -> q <> [] -> N.of_nat (length (handshake h)) < 65536 -> n < 65536 -> (length p <= N.to_nat n)%nat ->
  exists e, Compute (record n p) = Some (Err e).
Proof.
  intros E Hq Hlen Hn Hp. unfold Compute. rewrite parseRecord_read by done. destruct (Nat.ltb_spec (length p) (N.to_nat n)) as [|Hge]; [eauto|].
  rewrite take_ge by lia. unfold parseHandshake, parseHello. destruct (decide (length p < 39)%nat) as [Hlt|Hp39]; [rewrite atLeast_Err by done; cbn; eauto|].
  rewrite atLeast_Ok by lia. cbn [mbind result_bind].
  destruct (handshake_parts h) as (a & b & c & E' & Hnum). rewrite E' in E. set (t := byte_of_N handshakeType) in *.
  destruct p as [|t' [|a' [|b' [|c' p]]]]; try (cbn in Hp39; lia). cbn [app] in E. injection E as <- <- <- <- E.
  change (byte_at 0 (t :: a :: b :: c :: p)) with (@Ok N 1). change (byte_at 1 (t :: a :: b :: c :: p)) with (Ok (Byte.to_N a)).
  change (byte_at 2 (t :: a :: b :: c :: p)) with (Ok (Byte.to_N b)). change (byte_at 3 (t :: a :: b :: c :: p)) with (Ok (Byte.to_N c)).
  cbn [mbind result_bind N.eqb Pos.eqb handshakeType negb]. rewrite (suffix_app [t; a; b; c] p) by done. cbn [mbind result_bind].
  rewrite Hnum; [|rewrite E' in Hlen; rewrite length_app in Hlen; change (2 ^ 24) with 16777216; lia]. rewrite Nat2N.id, E, length_app.
  assert (length q <> 0)%nat by (by destruct q). rewrite (proj2 (Nat.eqb_neq _ _)) by lia. cbn [negb]. eauto.
Qed.

(** ** Panics *)

(** The lists whose length is not compared with the extension they are in. *)
Definition overrun (exType : N) (sex : list byte) : Prop :=
  (exType = versionExtensionType /\ exists n data, sex = n :: data /\ (length data < 2 * ((N.to_nat (Byte.to_N n) + 1) / 2))%nat) \/
  (exType = signatureAlgorithmsExtensionType /\ exists a b data, sex = a :: b :: data /\
     (length data < 2 * ((N.to_nat (Byte.to_N a * 256 + Byte.to_N b) + 1) / 2))%nat).

Lemma overrun_dec exType sex : overrun exType sex \/ ~ overrun exType sex.
Proof.
  unfold overrun. destruct (decide (exType = versionExtensionType)) as [->|Hv].
  - destruct sex as [|n data]; [right; intros [(_ & n & data & ? & _)|[? _]]; done|].
    destruct (decide (length data < 2 * ((N.to_nat (Byte.to_N n) + 1) / 2))%nat); [left; left; eauto|]. right. intros [(_ & n' & data' & [= <- <-] & ?)|[? _]]; done.
  - destruct (decide (exType = signatureAlgorithmsExtensionType)) as [->|Hs]; [|right; intros [[? _]|[? _]]; done].
    destruct sex as [|a [|b data]]; try (right; intros [[? _]|(_ & a' & b' & data' & ? & _)]; done).
    destruct (decide (length data < 2 * ((N.to_nat (Byte.to_N a * 256 + Byte.to_N b) + 1) / 2))%nat); [left; right; eauto 8|].
    right. intros [[? _]|(_ & a' & b' & data' & [= <- <- <-] & ?)]; done.
Qed.

Lemma uint16_at_total i l : (S i < length l)%nat -> not_panic (uint16_at i l).
Proof. intros Hi. unfold uint16_at. repeat (apply not_panic_bind; [apply byte_at_total; lia|intros ? _]). done. Qed.
Lemma suffix_Ok i l : (i <= length l)%nat -> suffix i l = Ok (drop i l).
Proof. intros Hi. unfold suffix. rewrite sub_slice_Ok by lia. by rewrite take_ge by (rewrite length_drop; lia). Qed.
Lemma traverse_total {A} (g : nat -> result A) indices : (forall i, i ∈ indices -> not_panic (g i)) -> not_panic (traverse g indices).
Proof.
  induction indices as [|i indices IH]; intros Hf; [done|]. cbn. apply not_panic_bind; [apply Hf, list_elem_of_here|]. intros a _.
  apply not_panic_bind; [|done]. apply IH. intros j Hj. by apply Hf, list_elem_of_further.
Qed.
Lemma atLeast_inv n l check u : atLeast n l check = Ok u -> (n <= length l)%nat.
Proof. unfold atLeast. by destruct (Nat.ltb_spec (length l) n). Qed.
Lemma atLeast_total n l check : not_panic (atLeast n l check).
Proof. unfold atLeast. by destruct (_ <? _)%nat. Qed.
Lemma elem_of_evens i n : i ∈ evens n -> exists k, i = (2 * k)%nat /\ (k < (n + 1) / 2)%nat.
Proof. unfold evens. intros (k & -> & Hk)%list_elem_of_fmap. exists k. split; [done|]. apply list_elem_of_In, in_seq in Hk. lia. Qed.
Lemma Uint16_from_total i l : (i + 2 <= length l)%nat -> not_panic (Uint16_from i l).
Proof. intros Hi. unfold Uint16_from. rewrite suffix_Ok by lia. apply uint16_at_total. rewrite length_drop. lia. Qed.

Ltac check_length := apply not_panic_bind; [apply atLeast_total|intros ? ?%atLeast_inv].

Lemma parseSNI_total sex f : not_panic (parseSNI sex f).
Proof.
  unfold parseSNI. check_length. apply not_panic_bind; [apply byte_at_total; lia|intros ty _]. apply not_panic_bind; [apply uint16_at_total; lia|intros n _].
  rewrite suffix_Ok by lia. cbn [mbind result_bind]. destruct (negb _); [done|]. by destruct (_ =? _).
Qed.
Lemma parseCurves_total sex f : not_panic (parseCurves sex f).
Proof.
  unfold parseCurves. check_length. apply not_panic_bind; [apply uint16_at_total; lia|intros n _]. rewrite suffix_Ok by lia. cbn [mbind result_bind].
  destruct (Nat.eqb_spec (length (drop 2 sex)) (N.to_nat n)) as [Hn|]; [|done]. cbn [negb]. apply not_panic_bind; [|done]. apply traverse_total. intros i Hi.
  apply list_elem_of_In, in_seq in Hi. apply uint16_at_total. rewrite Hn. pose proof (Nat.div_mod (N.to_nat n) 2). lia.
Qed.
Lemma parsePointFormats_total sex f : not_panic (parsePointFormats sex f).
Proof.
  unfold parsePointFormats. check_length. apply not_panic_bind; [apply byte_at_total; lia|intros n _]. rewrite suffix_Ok by lia. cbn [mbind result_bind].
  destruct (Nat.eqb_spec (length (drop 1 sex)) (N.to_nat n)) as [Hn|]; [|done]. cbn [negb]. apply not_panic_bind; [|done]. apply traverse_total. intros i Hi.
  apply list_elem_of_In, in_seq in Hi. apply byte_at_total. lia.
Qed.

Lemma parseVersions_total sex f : ~ overrun versionExtensionType sex -> not_panic (parseVersions sex f).
Proof.
  intros Hno. unfold parseVersions. check_length. destruct sex as [|n data]; [cbn in *; lia|]. change (byte_at 0 (n :: data)) with (Ok (Byte.to_N n)). cbn [mbind result_bind].
  assert (Hd : (2 * ((N.to_nat (Byte.to_N n) + 1) / 2) <= length data)%nat) by (apply Nat.nlt_ge; intros Hlt; apply Hno; left; eauto).
  apply not_panic_bind; [|done]. apply traverse_total. intros i (k & -> & Hk)%elem_of_evens. rewrite (suffix_app [n] data) by done. cbn [mbind result_bind].
  apply Uint16_from_total. lia.
Qed.
Lemma parseSignatureAlgorithms_total sex f : ~ overrun signatureAlgorithmsExtensionType sex -> not_panic (parseSignatureAlgorithms sex f).
Proof.
  intros Hno. unfold parseSignatureAlgorithms. check_length. destruct sex as [|x [|y data]]; try (cbn in *; lia).
  change (uint16_at 0 (x :: y :: data)) with (Ok (Byte.to_N x * 256 + Byte.to_N y)). cbn [mbind result_bind]. set (n := Byte.to_N x * 256 + Byte.to_N y).
  assert (Hd : (2 * ((N.to_nat n + 1) / 2) <= length data)%nat) by (apply Nat.nlt_ge; intros Hlt; apply Hno; right; eauto 6).
  apply not_panic_bind; [|done]. apply traverse_total. intros i (k & -> & Hk)%elem_of_evens. rewrite (suffix_app [x; y] data) by done. cbn [mbind result_bind].
  apply Uint16_from_total. lia.
Qed.

Lemma parseExtension_total exType sex f : ~ overrun exType sex -> not_panic (parseExtension exType sex f).
Proof.
  intros Hno. unfold parseExtension. destruct (exType =? sniExtensionType); [apply parseSNI_total|]. destruct (exType =? ecExtensionType); [apply parseCurves_total|].
  destruct (exType =? ecpfExtensionType); [apply parsePointFormats_total|]. destruct (N.eqb_spec exType versionExtensionType) as [->|]; [by apply parseVersions_total|].
  destruct (N.eqb_spec exType signatureAlgorithmsExtensionType) as [->|]; [by apply parseSignatureAlgorithms_total|done].
Qed.

(** *** The whole parser *)

Lemma be_encode_two x y : be_encode 2 (Byte.to_N x * 256 + Byte.to_N y) = [x; y].
Proof.
  pose proof (to_N_lt x). pose proof (to_N_lt y). unfold be_encode. cbn [le_encode rev app].
  rewrite N.div_add_l by done. rewrite (N.div_small (Byte.to_N y)) by done. rewrite N.add_0_r, byte_of_to_N. f_equal. f_equal.
  unfold byte_of_N. rewrite N.add_comm, N.Div0.mod_add, N.mod_small by done. by rewrite Byte.of_to_N.
Qed.

(** The extension in a part of the bytes. *)
Definition inside (exs : list byte) (exType : N) (sex : list byte) : Prop := exists pre post, exs = pre ++ be_encode 2 exType ++ len2 sex ++ post.

Lemma inside_app a b c exType sex : inside b exType sex -> inside (a ++ b ++ c) exType sex.
Proof. intros (pre & post & ->). exists (a ++ pre), (post ++ c). by rewrite <- !app_assoc. Qed.

Lemma extensionLoop_total fuel exs f : (length exs <= fuel)%nat -> N.of_nat (length exs) < 65536 ->
  exists r, extensionLoop fuel exs f = Some r /\ forall msg, r = Panic msg -> exists exType sex, inside exs exType sex /\ overrun exType sex.
Proof.
  revert exs f. induction fuel as [|fuel IH]; intros exs f Hf Hlen; [destruct exs; [by eexists|cbn in Hf; lia]|].
  destruct (decide (exs = [])) as [->|Hne]; [by eexists|]. rewrite extensionLoop_S by done.
  destruct (decide (4 <= length exs)%nat) as [H4|H4]; [rewrite atLeast_Ok by done|rewrite atLeast_Err by lia; by eexists]. cbn [mbind result_bind].
  destruct exs as [|x0 [|x1 [|y0 [|y1 rest]]]]; try (cbn in H4; lia). set (t := Byte.to_N x0 * 256 + Byte.to_N x1). set (n := Byte.to_N y0 * 256 + Byte.to_N y1).
  change (uint16_at 0 (x0 :: x1 :: y0 :: y1 :: rest)) with (Ok t). change (uint16_at 2 (x0 :: x1 :: y0 :: y1 :: rest)) with (Ok n). cbn [mbind result_bind].
  destruct (decide (4 + N.to_nat n <= length (x0 :: x1 :: y0 :: y1 :: rest))%nat) as [Hn|Hn]; [rewrite atLeast_Ok by done|rewrite atLeast_Err by lia; by eexists]. cbn [mbind result_bind].
  rewrite sub_slice_Ok by lia. cbn [mbind result_bind]. replace (take (4 + N.to_nat n - 4) (drop 4 _)) with (take (N.to_nat n) rest) by (cbn [drop]; f_equal; lia).
  set (sex := take (N.to_nat n) rest). assert (Hsex : length sex = N.to_nat n) by (unfold sex; rewrite length_take; cbn in Hn; lia).
  assert (E : x0 :: x1 :: y0 :: y1 :: rest = be_encode 2 t ++ len2 sex ++ drop (N.to_nat n) rest).
  { unfold len2. rewrite Hsex, N2Nat.id. unfold t, n. rewrite !be_encode_two. cbn [app]. by rewrite <- (take_drop (N.to_nat n) rest) at 1. }
  pose proof (parseExtension_total t sex {| f with extensions := extensions f ++ [t] |}) as Htotal.
  destruct (parseExtension t sex _) as [f'|e|msg]; cbn [mbind result_bind]; [|by eexists|].
  - rewrite N.mod_small by (change (2 ^ 16) with 65536; lia). rewrite suffix_Ok by lia. cbn [mbind result_bind].
    destruct (IH (drop (N.to_nat (4 + n)) (x0 :: x1 :: y0 :: y1 :: rest)) f') as (r & Hr & Hp); [rewrite length_drop; cbn in *; lia|rewrite length_drop; lia|].
    exists r. split; [done|]. intros msg ->. destruct (Hp msg eq_refl) as (t' & sex' & Hin & Ho). exists t', sex'. split; [|done].
    rewrite <- (take_drop (N.to_nat (4 + n)) (_ :: _)). rewrite <- (app_nil_r (drop _ _)). by apply inside_app.
  - eexists. split; [done|]. intros msg' [= <-]. exists t, sex. split; [by exists [], (drop (N.to_nat n) rest)|].
    destruct (overrun_dec t sex) as [|Hno]; [done|]. by destruct (Htotal Hno msg).
Qed.

Lemma suffix_inv i l l' : suffix i l = Ok l' -> exists a, l = a ++ l'.
Proof. unfold suffix, sub_slice. destruct (_ && _)%nat; [|done]. intros [= <-]. exists (take i l). rewrite (take_ge (drop i l)) by (rewrite length_drop; lia). by rewrite take_drop. Qed.

Lemma parseSuites_total cs : not_panic (parseSuites cs).
Proof.
  unfold parseSuites. check_length. apply not_panic_bind; [apply uint16_at_total; lia|intros csLen _]. cbn zeta. check_length.
  apply not_panic_bind.
  - apply traverse_total. intros i Hi. apply list_elem_of_In, in_seq in Hi. assert (2 * (N.to_nat (csLen / 2)) <= N.to_nat csLen)%nat.
    { rewrite N2Nat.inj_div. change (N.to_nat 2) with 2%nat. pose proof (Nat.div_mod (N.to_nat csLen) 2). lia. }
    apply not_panic_bind; [apply byte_at_total; lia|intros ? _]. apply not_panic_bind; [apply byte_at_total; lia|done].
  - intros suites _. apply not_panic_bind; [apply byte_at_total; lia|intros n _]. check_length. rewrite suffix_Ok by lia. done.
Qed.

Lemma parseHello_total hs : not_panic (parseHello hs).
Proof.
  unfold parseHello. check_length. apply not_panic_bind; [apply byte_at_total; lia|intros ty _]. destruct (negb _); [done|].
  do 3 (apply not_panic_bind; [apply byte_at_total; lia|intros ? _]). cbn zeta. rewrite suffix_Ok by lia. cbn [mbind result_bind]. destruct (negb _); [done|].
  apply not_panic_bind; [apply uint16_at_total; lia|intros v _]. destruct (negb _); [done|]. apply not_panic_bind; [apply byte_at_total; lia|intros n _]. check_length.
  rewrite suffix_Ok by lia. cbn [mbind result_bind]. apply not_panic_bind; [apply parseSuites_total|]. intros [suites exs] _. done.
Qed.

Lemma parseSuites_inv cs suites exs : parseSuites cs = Ok (suites, exs) -> exists a, cs = a ++ exs.
Proof.
  unfold parseSuites. intros (_ & _ & E)%bind_Ok_inv. apply bind_Ok_inv in E as (n & _ & E). cbn zeta in E. apply bind_Ok_inv in E as (_ & _ & E).
  apply bind_Ok_inv in E as (l & _ & E). apply bind_Ok_inv in E as (m & _ & E). apply bind_Ok_inv in E as (_ & _ & E). apply bind_Ok_inv in E as (e & He & [= _ <-]).
  by eapply suffix_inv.
Qed.

Lemma parseHello_inv hs j exs : parseHello hs = Ok (j, exs) -> exists a, hs = a ++ exs.
Proof.
  unfold parseHello. intros (_ & _ & E)%bind_Ok_inv. apply bind_Ok_inv in E as (ty & _ & E). destruct (negb _); [done|].
  do 3 (apply bind_Ok_inv in E as (? & _ & E)). cbn zeta in E. apply bind_Ok_inv in E as (rest & _ & E). destruct (negb _); [done|].
  apply bind_Ok_inv in E as (v & _ & E). destruct (negb _); [done|]. apply bind_Ok_inv in E as (n & _ & E). apply bind_Ok_inv in E as (_ & _ & E).
  apply bind_Ok_inv in E as (cs & (a & ->)%suffix_inv & E). apply bind_Ok_inv in E as ([suites e] & (b & ->)%parseSuites_inv & [= _ <-]). exists (a ++ b). by rewrite app_assoc.
Qed.

Lemma parseExtensions_total exs j : N.of_nat (length exs) < 65536 ->
  exists r, parseExtensions exs j = Some r /\ forall msg, r = Panic msg -> exists exType sex, inside exs exType sex /\ overrun exType sex.
Proof.
  intros Hlen. unfold parseExtensions. destruct (length exs =? 0)%nat; [by eexists|].
  destruct (decide (2 <= length exs)%nat) as [H2|H2]; [rewrite atLeast_Ok by done|rewrite atLeast_Err by lia; by eexists]. cbn [mbind result_bind].
  pose proof (uint16_at_total 0 exs ltac:(lia)) as Hu. destruct (uint16_at 0 exs) as [n|e|msg]; cbn [mbind result_bind]; [|by eexists|by destruct (Hu msg)].
  rewrite suffix_Ok by done. cbn [mbind result_bind]. pose proof (atLeast_total (N.to_nat n) (drop 2 exs) 10) as Ha.
  destruct (atLeast _ _ 10) as [u|e|msg]; cbn [mbind result_bind]; [|by eexists|by destruct (Ha msg)].
  destruct (extensionLoop_total (length (drop 2 exs)) (drop 2 exs) (mkFound [] [] [] [] [] [])) as (r & -> & Hr); [done|rewrite length_drop; lia|].
  cbn. eexists. split; [done|]. intros msg Hmsg. destruct r as [f|e|msg']; try done. destruct (Hr msg' eq_refl) as (t & sex & Hin & Ho). exists t, sex. split; [|done].
  rewrite <- (take_drop 2 exs), <- (app_nil_r (drop 2 exs)). by apply inside_app.
Qed.

Lemma parseRecord_total segment : not_panic (parseRecord segment).
Proof.
  unfold parseRecord. check_length. apply not_panic_bind; [apply byte_at_total; lia|intros ty _]. destruct (negb _); [done|].
  apply not_panic_bind; [apply uint16_at_total; lia|intros v _]. destruct (negb _); [done|]. apply not_panic_bind; [apply uint16_at_total; lia|intros n _].
  rewrite suffix_Ok by lia. cbn [mbind result_bind]. apply not_panic_bind; [apply atLeast_total|]. intros ? Hn%atLeast_inv. rewrite length_drop in Hn. rewrite sub_slice_Ok; [done|lia..].
Qed.

Lemma uint16_at_bound i l v : uint16_at i l = Ok v -> v < 65536.
Proof.
  unfold uint16_at. intros (a & Ha & E)%bind_Ok_inv. apply bind_Ok_inv in E as (b & Hb & [= <-]). unfold byte_at in Ha, Hb.
  apply bind_Ok_inv in Ha as (x & _ & [= <-]). apply bind_Ok_inv in Hb as (y & _ & [= <-]). pose proof (to_N_lt x). pose proof (to_N_lt y). lia.
Qed.

Lemma parseRecord_inv segment hs : parseRecord segment = Ok hs -> N.of_nat (length hs) < 65536 /\ exists a b, segment = a ++ hs ++ b.
Proof.
  unfold parseRecord. intros (_ & _ & E)%bind_Ok_inv. apply bind_Ok_inv in E as (ty & _ & E). destruct (negb _); [done|]. apply bind_Ok_inv in E as (v & _ & E). destruct (negb _); [done|].
  apply bind_Ok_inv in E as (n & Hn%uint16_at_bound & E). apply bind_Ok_inv in E as (body & _ & E). apply bind_Ok_inv in E as (_ & _ & E).
  unfold sub_slice in E. destruct (_ && _)%nat; [|done]. injection E as <-. rewrite length_take. split; [lia|].
  exists (take 5 segment), (drop (5 + N.to_nat n - 5) (drop 5 segment)). by rewrite take_drop, take_drop.
Qed.

(** The parser returns on every input, and panics only on a list of versions or signature algorithms that is longer than
    the extension that holds it. *)
Theorem ja3_panics_only_in_lists payload : exists r, Compute payload = Some r /\
  forall msg, r = Panic msg -> exists exType sex, inside payload exType sex /\ overrun exType sex.
Proof.
  unfold Compute. pose proof (parseRecord_total payload) as Hr. destruct (parseRecord payload) as [hs|e|msg] eqn:E; [|by eexists|by destruct (Hr msg)].
  apply parseRecord_inv in E as (Hlen & a & b & ->). unfold parseHandshake. pose proof (parseHello_total hs) as Hh. destruct (parseHello hs) as [[j exs]|e|msg] eqn:E; [|by eexists|by destruct (Hh msg)].
  apply parseHello_inv in E as (c & ->). rewrite length_app in Hlen. destruct (parseExtensions_total exs j) as (r & -> & Hp); [lia|]. exists r. split; [done|].
  intros msg Hmsg. destruct (Hp msg Hmsg) as (t & sex & Hin & Ho). exists t, sex. split; [|done]. rewrite <- app_assoc, (app_assoc a c). by apply inside_app.
Qed.

(** ** Samples *)

Definition sampleHello (es : list extension) : hello := mkHello 0x0303 (replicate 32 x00) [] [0x1301; 0x1302] [x00] es.
Definition sampleExtensions : list extension :=
  [EOther 0x0a0a []; ESni (bytes_of_string "example.org"); ECurves [0x1d; 0x17]; EPointFormats [x00]; ESignatures [0x0403]; EVersions [0x0304]].

Lemma sampleHello_ok : hello_ok (sampleHello sampleExtensions).
Proof.
  assert (Hnum : forall l, forallb (fun v => v <? 65536) l = true -> Forall (fun v => v < 65536) l).
  { intros l Hl. rewrite Forall_forall. intros v Hv. rewrite forallb_forall in Hl. apply N.ltb_lt, Hl. by apply list_elem_of_In. }
  unfold hello_ok. split_and!; [done|done|done|cbn; lia|by apply Hnum|done|cbn; lia|].
  repeat (apply Forall_cons; split; [|]); [..|apply Forall_nil; done]; (split; [done|]; split; [done|]); try done; try (by apply Hnum).
  - rewrite !not_elem_of_cons. split_and!; try done. apply not_elem_of_nil.
  - cbn. lia.
  - split; [by apply Hnum|cbn; lia].
Qed.

Lemma client_hello_read_witness : exists j,
  Compute (record (N.of_nat (length (handshake (sampleHello sampleExtensions)))) (handshake (sampleHello sampleExtensions))) = Some (Ok j) /\
  ServerName j = "example.org" /\ Extensions j = [0x0a0a; 0; 10; 11; 13; 43].
Proof.
  exists (fields (sampleHello sampleExtensions)). split; [|split; vm_compute; reflexivity].
  apply (client_hello_read (sampleHello sampleExtensions)); [exact sampleHello_ok|vm_compute; reflexivity].
Defined.

(** A list of versions that claims four bytes in an extension of three. *)
Definition shortVersions : list byte := handshake (sampleHello [EOther versionExtensionType [x04; x03; x04]]).
Example short_versions_panic : Compute (record (N.of_nat (length shortVersions)) shortVersions) = Some (Panic "index out of range").
Proof. vm_compute. reflexivity. Qed.

(** The fingerprint keeps the values that it should leave out, and leaves out all others. *)
Example fingerprint_without_values : marshalJA3 (fields (sampleHello sampleExtensions)) = "771,2570,0" /\
  marshalJA3 (fields (sampleHello [])) = "771,,,".
Proof. split; vm_compute; reflexivity. Qed.

End Ja3.
