(* ===== verification/TlsFragment.v ===== *)
(** * Client hellos in fragments (src/common/tlsfragment/index.go, conn.go)

    The first write of a connection is searched for the name in a client hello and sent in
    pieces that are cut inside the name: as packets, as TLS records, or both.  Names are bytes,
    as strings are in Go; random numbers and the list of public suffixes are parameters. *)

From S2P Require Import Prelude GoStd Metadata Binary Datagram RealmStun Sniff Ja3.
From Stdlib Require Import Strings.Byte.
From stdpp Require Import list.

Open Scope nat_scope.

Module TlsFragment.
Import Ja3.

(** ** The name in a hello *)

Record MyServerName : Type := mkServerName { Index : nat; Length : nat; ServerName : list byte; ExtensionsListLengthIndex : nat }.

(** [if ... { return nil }] *)
Definition ensure {A} (b : bool) (k : result (option A)) : result (option A) := if b then k else Ok None.

(** One extension: the name, or where the next extension starts.  [4+exLen] has 16 bits as the
    bound of the slice, and more in the index. *)
Definition indexExtension (currentIndex : nat) (exs : list byte) : result (option (MyServerName + nat * list byte)) :=
  ensure (4 <=? length exs) (
    exType ← uint16_at 0 exs;
    exLen ← uint16_at 2 exs;
    ensure (4 + N.to_nat exLen <=? length exs) (
      sex ← sub_slice 4 (4 + N.to_nat exLen) exs;
      if (exType =? sniExtensionType)%N then
        ensure (5 <=? length sex) (
          sniType ← byte_at 2 sex;
          ensure (sniType =? sniNameDNSHostnameType)%N (
            sniLen ← uint16_at 3 sex;
            name ← suffix 5 sex;
            Ok (Some (inl (mkServerName (currentIndex + 4 + 5) (N.to_nat sniLen) name 0)))))
      else
        exs ← suffix (N.to_nat ((4 + exLen) mod 2 ^ 16)) exs;
        Ok (Some (inr (currentIndex + (4 + N.to_nat exLen), exs))))).

(** The loop over the extensions; [None] when the fuel is used up. *)
Fixpoint indexLoop (fuel currentIndex : nat) (exs : list byte) : option (result (option MyServerName)) :=
  match exs, fuel with
  | [], _ => Some (Ok None)
  | _, O => None
  | _, S fuel =>
      match indexExtension currentIndex exs with
      | Ok (Some (inr (currentIndex, exs))) => indexLoop fuel currentIndex exs
      | Ok (Some (inl serverName)) => Some (Ok (Some serverName))
      | Ok None => Some (Ok None)
      | Err err => Some (Err err)
      | Panic msg => Some (Panic msg)
      end
  end.

Definition indexTLSServerNameFromExtensions (fuel : nat) (exs : list byte) : option (result (option MyServerName)) :=
  let body :=
    ensure (negb (length exs =? 0)) (
      ensure (2 <=? length exs) (
        exsLen ← uint16_at 0 exs;
        exs ← suffix 2 exs;
        ensure (N.to_nat exsLen <=? length exs) (Ok (Some exs)))) in
  match body with
  | Ok (Some exs) => indexLoop fuel 2 exs
  | Ok None => Some (Ok None)
  | Err err => Some (Err err)
  | Panic msg => Some (Panic msg)
  end.

(** Where the extensions of a handshake start. *)
Definition extensionsStart (handshake : list byte) : result (option nat) :=
  ensure (39 <=? length handshake) (
    type_ ← byte_at 0 handshake;
    ensure (type_ =? handshakeType)%N (
      h1 ← byte_at 1 handshake; h2 ← byte_at 2 handshake; h3 ← byte_at 3 handshake;
      rest ← suffix 4 handshake;
      ensure (length rest =? N.to_nat (h1 * 65536 + h2 * 256 + h3)) (
        tlsVersion ← uint16_at 4 handshake;
        ensure (supported tlsVersion) (
          sessionIDLen ← byte_at 38 handshake;
          let currentIndex := 39 + N.to_nat sessionIDLen in
          ensure (currentIndex <=? length handshake) (
            cipherSuites ← suffix currentIndex handshake;
            ensure (2 <=? length cipherSuites) (
              csLen ← uint16_at 0 cipherSuites;
              ensure (2 + N.to_nat csLen + 1 <=? length cipherSuites) (
                compressMethodLen ← byte_at (2 + N.to_nat csLen) cipherSuites;
                let currentIndex := currentIndex + (2 + N.to_nat csLen + 1 + N.to_nat compressMethodLen) in
                ensure (currentIndex <=? length handshake) (Ok (Some currentIndex))))))))).

Definition indexTLSServerNameFromHandshake (fuel : nat) (handshake : list byte) : option (result (option MyServerName)) :=
  match extensionsStart handshake with
  | Ok (Some currentIndex) =>
      match suffix currentIndex handshake with
      | Ok exs =>
          option_map (fun r => serverName ← r;
            Ok (option_map (fun n => {| n with Index := Index n + currentIndex; ExtensionsListLengthIndex := currentIndex |}) serverName))
            (indexTLSServerNameFromExtensions fuel exs)
      | Err err => Some (Err err)
      | Panic msg => Some (Panic msg)
      end
  | Ok None => Some (Ok None)
  | Err err => Some (Err err)
  | Panic msg => Some (Panic msg)
  end.

Definition IndexTLSServerName (fuel : nat) (payload : list byte) : option (result (option MyServerName)) :=
  let handshake :=
    ensure (5 <=? length payload) (
      type_ ← byte_at 0 payload;
      ensure (type_ =? contentType)%N (
        segmentLen ← uint16_at 3 payload;
        ensure (5 + N.to_nat segmentLen <=? length payload) (
          handshake ← suffix 5 payload;
          Ok (Some handshake)))) in
  match handshake with
  | Ok (Some handshake) =>
      option_map (fun r => serverName ← r;
        Ok (option_map (fun n => {| n with Index := Index n + 5; ExtensionsListLengthIndex := ExtensionsListLengthIndex n + 5 |}) serverName))
        (indexTLSServerNameFromHandshake fuel handshake)
  | Ok None => Some (Ok None)
  | Err err => Some (Err err)
  | Panic msg => Some (Panic msg)
  end.

(** ** The connection *)

Record Conn : Type := mkConn { tcpConn : bool; firstPacketWritten : bool; splitPacket : bool; splitRecord : bool }.

(** What is done to the socket; [writeAndWaitAck] writes and waits until the peer has the bytes. *)
Inductive op : Type :=
| SetNoDelay (noDelay : bool)
| WriteAndWaitAck (payload : list byte)
| ConnWrite (payload : list byte)
| Sleep.

(** What calls will return, and what was done. *)
Record world : Type := mkWorld { outcomes : list (nat * option error); log : list op }.

(** Programs over the socket; [Err] is the early return of an error. *)
Definition io (A : Type) : Type := world -> result A * world.
#[local] Instance io_ret : MRet io := fun A a w => (Ok a, w).
#[local] Instance io_bind : MBind io := fun A B f m w =>
  match m w with
  | (Ok a, w) => f a w
  | (Err err, w) => (Err err, w)
  | (Panic msg, w) => (Panic msg, w)
  end.
Definition lift {A} (r : result A) : io A := fun w => (r, w).

Definition perform (o : op) : io (nat * option error) := fun w =>
  match outcomes w with
  | [] => (Ok (0, None), mkWorld [] (log w ++ [o]))
  | r :: outcomes => (Ok r, mkWorld outcomes (log w ++ [o]))
  end.
(** [if err != nil { return }] *)
Definition attempt (o : op) : io unit := '(_, err) ← perform o; lift (match err with Some err => Err err | None => Ok tt end).
Definition sleep : io unit := fun w => (Ok tt, {| w with log := log w ++ [Sleep] |}).

(** [strings.Split(name, dot)] and [strings.Count(name, dot)]. *)
Fixpoint splitDots (name : list byte) : list (list byte) :=
  match name with
  | [] => [[]]
  | b :: name =>
      if bool_decide (b = x2e) then [] :: splitDots name
      else match splitDots name with [] => [[b]] | label :: labels => (b :: label) :: labels end
  end.
Definition countDots (name : list byte) : nat := length (filter (fun b => b = x2e) name).

Definition isNil {A} (l : list A) : bool := match l with [] => true | _ => false end.

Section Write.
(** [publicsuffix.List.PublicSuffix], and the draws of [rand.Intn]. *)
Context (PublicSuffix : list byte -> list byte) (Intn : nat -> nat -> nat).

(** The labels that are cut, and where the first one starts. *)
Definition splitsOf (serverName : MyServerName) : result (nat * list (list byte)) :=
  let splits := splitDots (ServerName serverName) in
  let currentIndex := Index serverName in
  splits ← (if negb (isNil (PublicSuffix (ServerName serverName)))
            then sub_slice 0 (length splits - countDots (ServerName serverName)) splits else Ok splits);
  match splits with
  | first :: rest =>
      if (1 <? length splits) && bool_decide (first = [x2e; x2e; x2e]) then Ok (currentIndex + length first + 1, rest) else Ok (currentIndex, splits)
  | [] => Ok (currentIndex, splits)
  end.

(** [i] counts the draws. *)
Fixpoint splitIndexes (i currentIndex : nat) (splits : list (list byte)) : result (list nat) :=
  match splits with
  | [] => Ok []
  | split :: rest =>
      if length split =? 0 then Panic "invalid argument to Intn"
      else
        indexes ← splitIndexes (S i) (currentIndex + length split + (if isNil rest then 0 else 1)) rest;
        Ok (currentIndex + Intn i (length split) :: indexes)
  end.

(** The bytes between two indexes; [rest] are the indexes that are left. *)
Definition piece (c : Conn) (b : list byte) (previous : option nat) (rest : list nat) : result (list byte) :=
  match previous, rest with
  | None, i :: _ => payload ← sub_slice 0 i b; if splitRecord c then suffix 5 payload else Ok payload
  | None, [] => Panic "index out of range"
  | Some p, [] => suffix p b
  | Some p, i :: _ => sub_slice p i b
  end.

(** A piece is written, or added to the buffer. *)
Definition sendPiece (c : Conn) (b payload : list byte) (last : bool) (buffer : list byte) : io (list byte) :=
  '(payload, buffer) ← (
    if splitRecord c then
      let buffer := if splitPacket c then [] else buffer in
      head ← lift (sub_slice 0 3 b);
      let buffer := buffer ++ head ++ be_encode 2 (N.of_nat (length payload)) ++ payload in
      mret (if splitPacket c then buffer else payload, buffer)
    else mret (payload, buffer));
  _ ← (if splitPacket c then
         if tcpConn c && negb last then attempt (WriteAndWaitAck payload)
         else _ ← attempt (ConnWrite payload); if negb last then sleep else mret tt
       else mret tt);
  mret buffer.

Fixpoint writeLoop (c : Conn) (b : list byte) (previous : option nat) (rest : list nat) (buffer : list byte) : io (list byte) :=
  payload ← lift (piece c b previous rest);
  buffer ← sendPiece c b payload (isNil rest) buffer;
  match rest with
  | [] => mret buffer
  | i :: rest => writeLoop c b (Some i) rest buffer
  end.

Definition writeHello (c : Conn) (b : list byte) (serverName : MyServerName) : io nat :=
  _ ← (if splitPacket c && tcpConn c then attempt (SetNoDelay true) else mret tt);
  '(currentIndex, splits) ← lift (splitsOf serverName);
  indexes ← lift (splitIndexes 0 currentIndex splits);
  buffer ← writeLoop c b None indexes [];
  _ ← (if splitRecord c && negb (splitPacket c) then attempt (ConnWrite buffer) else mret tt);
  _ ← (if tcpConn c then attempt (SetNoDelay false) else mret tt);
  mret (length b).

(** The count and the error; [None] when the search for the name does not end. *)
Definition Write (fuel : nat) (c : Conn) (b : list byte) (w : world) : option (result (nat * option error) * Conn * world) :=
  if firstPacketWritten c then let '(r, w) := perform (ConnWrite b) w in Some (r, c, w)
  else
    let c' := {| c with firstPacketWritten := true |} in
    match IndexTLSServerName fuel b with
    | None => None
    | Some (Panic msg) => Some (Panic msg, c', w)
    | Some (Err err) => Some (Err err, c', w)
    | Some (Ok None) => let '(r, w) := perform (ConnWrite b) w in Some (r, c', w)
    | Some (Ok (Some serverName)) =>
        let '(r, w) := writeHello c b serverName w in
        Some (match r with Ok n => Ok (n, None) | Err err => Ok (0, Some err) | Panic msg => Panic msg end, c', w)
    end.

End Write.

(** ** Where the name is *)

Lemma byte_at_ok i l : i < length l -> exists v, byte_at i l = Ok v.
Proof. intros [b Hb]%lookup_lt_is_Some_2. eexists. by apply byte_at_lookup. Qed.
Lemma uint16_at_ok i l : S i < length l -> exists v, uint16_at i l = Ok v /\ (v < 65536)%N.
Proof.
  intros Hi. destruct (byte_at_ok i l) as [a Ha]; [lia|]. destruct (byte_at_ok (S i) l) as [b Hb]; [lia|].
  assert (E : uint16_at i l = Ok (a * 256 + b)%N) by (unfold uint16_at; by rewrite Ha, Hb). rewrite E. eexists. split; [done|]. by apply uint16_at_bound in E.
Qed.

(** The next read of a byte or a number, which its guard makes safe; the next guard. *)
Ltac read_byte v := match goal with |- context [byte_at ?i ?l ≫= _] => let E := fresh in destruct (byte_at_ok i l) as [v E]; [lia|rewrite E; clear E; cbn [mbind result_bind]] end.
Ltac read_uint16 v H := match goal with |- context [uint16_at ?i ?l ≫= _] => let E := fresh in destruct (uint16_at_ok i l) as (v & E & H); [lia|rewrite E; clear E; cbn [mbind result_bind]] end.
Ltac guarded := match goal with |- context [ensure ?b _] => let E := fresh "G" in destruct b eqn:E; cbn [ensure]; [rewrite ?Nat.leb_le, ?Nat.eqb_eq, ?negb_true_iff, ?Nat.eqb_neq in E|by left] end.

Lemma indexExtension_spec cur exs : (N.of_nat (length exs) < 65536)%N ->
  indexExtension cur exs = Ok None \/
  (exists sn pre post, indexExtension cur exs = Ok (Some (inl sn)) /\ exs = pre ++ ServerName sn ++ post /\ Index sn = cur + length pre /\ length pre = 9) \/
  (exists pre exs', indexExtension cur exs = Ok (Some (inr (cur + length pre, exs'))) /\ exs = pre ++ exs' /\ 4 <= length pre).
Proof.
  intros Hlen. unfold indexExtension. guarded. read_uint16 ty Hty. read_uint16 n Hn. guarded. rewrite sub_slice_Ok by lia. cbn [mbind result_bind].
  replace (4 + N.to_nat n - 4) with (N.to_nat n) by lia. set (sex := take (N.to_nat n) (drop 4 exs)).
  assert (Hsex : length sex = N.to_nat n) by (unfold sex; rewrite length_take, length_drop; lia).
  assert (E : exs = take 4 exs ++ sex ++ drop (4 + N.to_nat n) exs) by (unfold sex; by rewrite <- drop_drop, take_drop, take_drop).
  destruct (ty =? sniExtensionType)%N.
  - guarded. read_byte t. guarded. read_uint16 m Hm. rewrite suffix_Ok by lia. cbn [mbind result_bind]. right. left.
    eexists _, (take 4 exs ++ take 5 sex), (drop (4 + N.to_nat n) exs). split; [done|]. cbn [ServerName Index]. rewrite length_app, !length_take. split_and!; [|lia|lia].
    rewrite E at 1. by rewrite <- !app_assoc, (app_assoc (take 5 sex)), take_drop.
  - rewrite N.mod_small by (change (2 ^ 16)%N with 65536%N; lia). rewrite suffix_Ok by lia. cbn [mbind result_bind]. right. right.
    exists (take (4 + N.to_nat n) exs), (drop (4 + N.to_nat n) exs). rewrite take_drop, length_take, Nat.min_l by lia.
    replace (N.to_nat (4 + n)) with (4 + N.to_nat n) by lia. split_and!; [done|done|lia].
Qed.

(** A name lies in the bytes where the index says. *)
Definition located (sn : MyServerName) (offset low : nat) (l : list byte) : Prop :=
  exists pre post, l = pre ++ ServerName sn ++ post /\ Index sn = offset + length pre /\ low <= length pre.

Lemma indexLoop_spec fuel cur exs : length exs <= fuel -> (N.of_nat (length exs) < 65536)%N ->
  indexLoop fuel cur exs = Some (Ok None) \/ exists sn, indexLoop fuel cur exs = Some (Ok (Some sn)) /\ located sn cur 9 exs.
Proof.
  revert cur exs. induction fuel as [|fuel IH]; intros cur exs Hf Hlen; (destruct exs as [|x exs]; [by left|]); [cbn in Hf; lia|].
  destruct (indexExtension_spec cur (x :: exs) Hlen) as [E|[(sn & pre & post & E & Hs & Hi & H9)|(pre & exs' & E & Hs & H4)]]; cbn [indexLoop]; rewrite E.
  - by left.
  - right. exists sn. split; [done|]. exists pre, post. split_and!; [done|done|lia].
  - rewrite Hs, length_app in Hf, Hlen. destruct (IH (cur + length pre) exs') as [->|(sn & -> & pre' & post & -> & Hi & H9)]; [lia|lia|by left|].
    right. exists sn. split; [done|]. exists (pre ++ pre'), post. rewrite Hs, length_app, <- !app_assoc. split_and!; [done|lia|lia].
Qed.

Lemma fromExtensions_spec fuel exs : length exs <= fuel -> (N.of_nat (length exs) < 65536)%N ->
  indexTLSServerNameFromExtensions fuel exs = Some (Ok None) \/ exists sn, indexTLSServerNameFromExtensions fuel exs = Some (Ok (Some sn)) /\ located sn 0 11 exs.
Proof.
  intros Hf Hlen. unfold indexTLSServerNameFromExtensions. guarded. guarded. read_uint16 n Hn. rewrite suffix_Ok by lia. cbn [mbind result_bind]. guarded.
  destruct (indexLoop_spec fuel 2 (drop 2 exs)) as [->|(sn & -> & pre & post & E & Hi & H9)]; rewrite ?length_drop; [lia|lia|by left|].
  right. exists sn. split; [done|]. exists (take 2 exs ++ pre), post. rewrite <- app_assoc, <- E, take_drop, length_app, length_take. split_and!; [done|lia|lia].
Qed.

Lemma extensionsStart_spec hs : extensionsStart hs = Ok None \/ exists i, extensionsStart hs = Ok (Some i) /\ i <= length hs.
Proof.
  unfold extensionsStart. guarded. read_byte t. guarded. read_byte h1. read_byte h2. read_byte h3. rewrite suffix_Ok by lia. cbn [mbind result_bind]. guarded.
  read_uint16 v Hv. guarded. read_byte n. cbn zeta. guarded. rewrite suffix_Ok by lia. cbn [mbind result_bind]. guarded. read_uint16 m Hm. guarded. read_byte k. guarded. eauto.
Qed.

Lemma fromHandshake_spec fuel hs : length hs <= fuel -> (N.of_nat (length hs) < 65536)%N ->
  indexTLSServerNameFromHandshake fuel hs = Some (Ok None) \/ exists sn, indexTLSServerNameFromHandshake fuel hs = Some (Ok (Some sn)) /\ located sn 0 11 hs.
Proof.
  intros Hf Hlen. unfold indexTLSServerNameFromHandshake. destruct (extensionsStart_spec hs) as [->|(i & -> & Hi)]; [by left|]. rewrite suffix_Ok by done.
  destruct (fromExtensions_spec fuel (drop i hs)) as [->|(sn & -> & pre & post & E & Hx & H9)]; rewrite ?length_drop; [lia|lia|by left|].
  right. eexists. split; [done|]. exists (take i hs ++ pre), post. cbn. rewrite <- app_assoc, <- E, take_drop, length_app, length_take. split_and!; [done|lia|lia].
Qed.

(** Up to 65535 bytes the search ends without a panic, and the index is the place of the name. *)
Lemma IndexTLSServerName_spec fuel payload : length payload <= fuel -> (N.of_nat (length payload) < 65536)%N ->
  IndexTLSServerName fuel payload = Some (Ok None) \/ exists sn, IndexTLSServerName fuel payload = Some (Ok (Some sn)) /\ located sn 0 16 payload.
Proof.
  intros Hf Hlen. unfold IndexTLSServerName. guarded. read_byte t. guarded. read_uint16 n Hn. guarded. rewrite suffix_Ok by lia. cbn [mbind result_bind].
  destruct (fromHandshake_spec fuel (drop 5 payload)) as [->|(sn & -> & pre & post & E & Hx & H9)]; rewrite ?length_drop; [lia|lia|by left|].
  right. eexists. split; [done|]. exists (take 5 payload ++ pre), post. cbn. rewrite <- app_assoc, <- E, take_drop, length_app, length_take. split_and!; [done|lia|lia].
Qed.

(** ** What programs send *)

Definition payload_of (o : op) : list byte := match o with WriteAndWaitAck payload | ConnWrite payload => payload | _ => [] end.
Definition sent (ops : list op) : list byte := flat_map payload_of ops.

Lemma sent_app a b : sent (a ++ b) = sent a ++ sent b.
Proof. apply flat_map_app. Qed.

(** A program that returns and has then done to the socket what [P] says, or stops at an error of the socket with a
    prefix of it. *)
Definition runs {A} (m : io A) (P : A -> list op -> Prop) : Prop := forall w, exists r ops outs,
  m w = (r, mkWorld outs (log w ++ ops)) /\ outs ⊆ outcomes w /\
  match r with
  | Ok a => P a ops
  | Err e => (exists a x, P a x /\ ops `prefix_of` x) /\ exists n, (n, Some e) ∈ outcomes w
  | Panic _ => False
  end.

(** Without errors of the socket it returns. *)
Lemma runs_exists {A} (m : io A) P : runs m P -> exists a x, P a x.
Proof.
  intros Hm. destruct (Hm (mkWorld [] [])) as (r & ops & outs & _ & _ & Hr). destruct r as [a|e|msg]; [eauto| |done].
  destruct Hr as (_ & n & Hn). by apply elem_of_nil in Hn.
Qed.

Lemma runs_bind {A B} (m : io A) (f : A -> io B) P Q :
  runs m P -> (forall a x, P a x -> runs (f a) (fun b y => Q b (x ++ y))) -> runs (m ≫= f) Q.
Proof.
  intros Hm Hf w. destruct (Hm w) as (r & ops & outs & E & Hsub & Hr). unfold mbind, io_bind. rewrite E. destruct r as [a|e|msg]; [| |done].
  - destruct (Hf a _ Hr (mkWorld outs (log w ++ ops))) as (r' & ops' & outs' & E' & Hsub' & Hr'). cbn in E', Hsub', Hr'.
    exists r', (ops ++ ops'), outs'. rewrite E', app_assoc. split; [done|]. split; [set_solver|]. destruct r' as [b|e|msg]; [done| |done].
    destruct Hr' as [(b & y & Hy & Hp) (n & Hn)]. split; [|set_solver]. exists b, (ops ++ y). split; [done|by apply prefix_app].
  - exists (Err e), ops, outs. split; [done|]. split; [done|]. destruct Hr as [(a & x & Hx & Hp) Hn]. split; [|done].
    destruct (runs_exists _ _ (Hf a x Hx)) as (b & y & Hy). exists b, (x ++ y). split; [done|]. by apply prefix_app_r.
Qed.

Lemma runs_weaken {A} (m : io A) (P Q : A -> list op -> Prop) : runs m P -> (forall a x, P a x -> Q a x) -> runs m Q.
Proof.
  intros Hm HPQ w. destruct (Hm w) as (r & ops & outs & E & Hsub & Hr). exists r, ops, outs. split; [done|]. split; [done|].
  destruct r as [a|e|msg]; [by apply HPQ| |done]. destruct Hr as [(a & x & Hx & Hp) Hn]. eauto 6.
Qed.
Lemma runs_ret {A} (a : A) (P : A -> list op -> Prop) : P a [] -> runs (mret a) P.
Proof. intros HP w. exists (Ok a), [], (outcomes w). rewrite app_nil_r. destruct w. done. Qed.
Lemma runs_lift {A} (a : A) (P : A -> list op -> Prop) : P a [] -> runs (lift (Ok a)) P.
Proof. apply (runs_ret a). Qed.
Lemma runs_sleep (P : unit -> list op -> Prop) : P tt [Sleep] -> runs sleep P.
Proof. intros HP w. by exists (Ok tt), [Sleep], (outcomes w). Qed.
Lemma runs_attempt o (P : unit -> list op -> Prop) : P tt [o] -> runs (attempt o) P.
Proof.
  intros HP w. unfold attempt, mbind, io_bind, perform, lift. destruct w as [[|[n [e|]] outs] l]; cbn.
  - by exists (Ok tt), [o], [].
  - exists (Err e), [o], outs. split; [done|]. split; [set_solver|]. split; [|exists n; set_solver]. by exists tt, [o].
  - exists (Ok tt), [o], outs. split; [done|]. split; [set_solver|done].
Qed.

(** ** Cuts *)

(** The bytes from [p] on, cut at the indexes. *)
Fixpoint pieces (b : list byte) (p : nat) (indexes : list nat) : list (list byte) :=
  match indexes with
  | [] => [drop p b]
  | i :: indexes => take (i - p) (drop p b) :: pieces b i indexes
  end.

(** Indexes that grow, from [low] on and below [high]. *)
Fixpoint within (low : nat) (indexes : list nat) (high : nat) : Prop :=
  match indexes with
  | [] => True
  | i :: indexes => low <= i < high /\ within (S i) indexes high
  end.

Lemma within_mono low low' indexes high high' : low' <= low -> high <= high' -> within low indexes high -> within low' indexes high'.
Proof. revert low low'. induction indexes as [|i indexes IH]; intros low low' Hl Hh; [done|]. cbn. intros [Hi Hr]. split; [lia|]. eapply IH; [..|done]; lia. Qed.

Lemma concat_pieces b p indexes : p <= length b -> within p indexes (length b) -> concat (pieces b p indexes) = drop p b.
Proof.
  revert p. induction indexes as [|i indexes IH]; intros p Hp; cbn; [by rewrite app_nil_r|]. intros [Hi Hr].
  rewrite IH; [|lia|by eapply within_mono; [..|done]; lia]. replace (drop i b) with (drop (i - p) (drop p b)) by (rewrite drop_drop; f_equal; lia). apply take_drop.
Qed.

Lemma pieces_nonempty b p indexes : p < length b -> within (S p) indexes (length b) -> Forall (fun q => q <> []) (pieces b p indexes).
Proof.
  revert p. induction indexes as [|i indexes IH]; intros p Hp; cbn.
  - intros _. constructor; [|done]. intros E%(f_equal length). rewrite length_drop in E. cbn in E. lia.
  - intros [Hi Hr]. constructor; [|apply IH; [lia|done]]. intros E%(f_equal length). rewrite length_take, length_drop in E. cbn in E. lia.
Qed.

(** ** The labels *)

Fixpoint width (labels : list (list byte)) : nat := match labels with [] => 0 | l :: labels => S (length l + width labels) end.

Lemma splitDots_width name : width (splitDots name) = S (length name) /\ length (splitDots name) = S (countDots name).
Proof.
  unfold countDots. induction name as [|b name [IHw IHl]]; [done|]. cbn [splitDots]. rewrite filter_cons. case_bool_decide as Hb.
  - rewrite decide_True by done. cbn in *. lia.
  - rewrite decide_False by done. destruct (splitDots name) as [|l labels]; [done|]. cbn in *. lia.
Qed.

Lemma width_take k labels : width (take k labels) <= width labels.
Proof. revert k. induction labels as [|l labels IH]; intros [|k]; cbn; [lia..|]. specialize (IH k). lia. Qed.

Section Sends.
Context (PublicSuffix : list byte -> list byte) (Intn : nat -> nat -> nat).
(** [rand.Intn] is below its bound. *)
Hypothesis Intn_lt : forall i n, 0 < n -> Intn i n < n.

Lemma splitsOf_spec sn : exists cur splits, splitsOf PublicSuffix sn = Ok (cur, splits) /\ splits <> [] /\ Index sn <= cur /\
  cur + width splits <= Index sn + S (length (ServerName sn)).
Proof.
  unfold splitsOf. destruct (splitDots_width (ServerName sn)) as [Hw Hl].
  assert (H : exists splits, (if negb (isNil (PublicSuffix (ServerName sn))) then sub_slice 0 (length (splitDots (ServerName sn)) - countDots (ServerName sn)) (splitDots (ServerName sn))
    else Ok (splitDots (ServerName sn))) = Ok splits /\ splits <> [] /\ width splits <= S (length (ServerName sn))).
  { destruct (negb _).
    - rewrite Hl. replace (S (countDots (ServerName sn)) - countDots (ServerName sn)) with 1 by lia. rewrite sub_slice_Ok by (rewrite ?Hl; lia). eexists. split; [done|].
      rewrite drop_0, <- Hw. split; [|apply width_take]. by destruct (splitDots (ServerName sn)).
    - eexists. split; [done|]. rewrite Hw. split; [by destruct (splitDots (ServerName sn))|done]. }
  destruct H as (splits & -> & Hne & Hle). cbn [mbind result_bind]. destruct splits as [|first rest]; [done|]. destruct (_ && _) eqn:E.
  - apply andb_true_iff in E as [Hlt%Nat.ltb_lt _]. eexists _, _. split; [done|]. split; [by destruct rest; cbn in Hlt; [lia|]|]. cbn in Hle. lia.
  - eexists _, _. split; [done|]. split; [done|]. lia.
Qed.

Lemma splitIndexes_spec splits : Forall (fun l => l <> []) splits -> forall i cur,
  exists indexes, splitIndexes Intn i cur splits = Ok indexes /\ within cur indexes (cur + width splits - 1) /\ length indexes = length splits.
Proof.
  induction 1 as [|l splits Hl Hall IH]; intros i cur; cbn; [by exists []|]. assert (0 < length l) by (destruct l; [done|cbn; lia]).
  rewrite (proj2 (Nat.eqb_neq _ _)) by lia. destruct (IH (S i) (cur + length l + (if isNil splits then 0 else 1))) as (indexes & -> & Hw & Hlen).
  cbn [mbind result_bind]. eexists. split; [done|]. split; [|cbn; by rewrite Hlen]. pose proof (Intn_lt i (length l) ltac:(lia)). cbn.
  destruct splits as [|l' splits]; [destruct indexes; [|done]; cbn; lia|]. split; [lia|]. eapply within_mono; [..|done]; cbn; lia.
Qed.

(** ** The first write *)

(** Where the first piece starts, and a piece as it is sent: as a record of its own, or as it is. *)
Definition start (c : Conn) : nat := if splitRecord c then 5 else 0.
Definition frame (c : Conn) (b p : list byte) : list byte := if splitRecord c then take 3 b ++ be_encode 2 (N.of_nat (length p)) ++ p else p.
Definition frames (c : Conn) (b : list byte) (ps : list (list byte)) : list byte := flat_map (frame c b) ps.

Lemma piece_spec c b previous rest : let p := default (start c) previous in 5 <= length b -> within (S p) rest (length b) -> p < length b ->
  (previous = None -> rest <> []) ->
  exists q qs, pieces b p rest = q :: qs /\ piece c b previous rest = Ok q /\ qs = match rest with [] => [] | i :: rest => pieces b i rest end.
Proof.
  intros p H5 Hw Hp Hn. destruct rest as [|i rest]; cbn [pieces]; eexists _, _; (split; [done|]; split; [|done]).
  - destruct previous as [q|]; [|by destruct Hn]. cbn [piece]. rewrite suffix_Ok by (cbn in p; lia). done.
  - destruct Hw as [Hi _]. destruct previous as [q|]; cbn in p; cbn [piece].
    + rewrite sub_slice_Ok by lia. done.
    + rewrite sub_slice_Ok by lia. cbn [mbind result_bind]. rewrite drop_0. unfold p, start in *. destruct (splitRecord c).
      * rewrite suffix_Ok by (rewrite length_take; lia). rewrite Nat.sub_0_r. by rewrite skipn_firstn_comm.
      * by rewrite !Nat.sub_0_r, drop_0.
Qed.

(** What is done to the socket for one frame, for all frames of a packet each, and for a hello. *)
Definition packet_ops (c : Conn) (last : bool) (f : list byte) : list op :=
  if last then [ConnWrite f] else if tcpConn c then [WriteAndWaitAck f] else [ConnWrite f; Sleep].
Fixpoint packets_ops (c : Conn) (fs : list (list byte)) : list op :=
  match fs with [] => [] | f :: fs => packet_ops c (isNil fs) f ++ packets_ops c fs end.
Definition hello_ops (c : Conn) (b : list byte) (ps : list (list byte)) : list op :=
  (if splitPacket c && tcpConn c then [SetNoDelay true] else [])
  ++ (if splitPacket c then packets_ops c (frame c b <$> ps) else [ConnWrite (frames c b ps)])
  ++ (if tcpConn c then [SetNoDelay false] else []).

Lemma sent_packets c fs : sent (packets_ops c fs) = concat fs.
Proof.
  induction fs as [|f fs IH]; [done|]. cbn [packets_ops concat]. rewrite sent_app, IH. f_equal. unfold packet_ops.
  destruct (isNil fs), (tcpConn c); apply app_nil_r.
Qed.
Lemma sent_hello c b ps : sent (hello_ops c b ps) = frames c b ps.
Proof.
  unfold hello_ops. rewrite !sent_app. replace (sent (if tcpConn c then _ else _)) with (@nil byte) by (by destruct (tcpConn c)).
  replace (sent (if splitPacket c && tcpConn c then _ else _)) with (@nil byte) by (by destruct (splitPacket c && tcpConn c)).
  rewrite app_nil_r. cbn [app]. destruct (splitPacket c); [|apply app_nil_r]. rewrite sent_packets. unfold frames. by rewrite flat_map_concat_map.
Qed.

Lemma sendPiece_runs c b q last buffer : 5 <= length b ->
  runs (sendPiece c b q last buffer) (fun buffer' x =>
    x = (if splitPacket c then packet_ops c last (frame c b q) else []) /\ (splitPacket c = false -> splitRecord c = true -> buffer' = buffer ++ frame c b q)).
Proof.
  intros H5. unfold sendPiece, frame.
  apply runs_bind with (P := fun r x => x = [] /\ r = if splitRecord c then
    let f := take 3 b ++ be_encode 2 (N.of_nat (length q)) ++ q in if splitPacket c then (f, f) else (q, buffer ++ f) else (q, buffer)).
  - destruct (splitRecord c); [|by apply runs_ret]. rewrite sub_slice_Ok by lia. apply runs_bind with (P := fun r x => x = [] /\ r = take 3 b).
    + by apply runs_lift.
    + intros head x [-> ->]. apply runs_ret. split; [done|]. by destruct (splitPacket c).
  - intros [payload buffer'] x [-> E]. cbn [app]. apply runs_bind with (P := fun _ x => x = if splitPacket c then packet_ops c last payload else []).
    + unfold packet_ops. destruct (splitPacket c); [|by apply runs_ret]. destruct (tcpConn c), last; cbn [andb negb]; try (by apply runs_attempt);
        (apply runs_bind with (P := fun _ x => x = [ConnWrite payload]); [by apply runs_attempt|]; intros [] x ->; by apply runs_sleep || by apply runs_ret).
    + intros [] x ->. apply runs_ret. rewrite app_nil_r. destruct (splitRecord c), (splitPacket c); by injection E as -> ->.
Qed.

Lemma writeLoop_runs c b rest : 5 <= length b -> forall previous buffer, let p := default (start c) previous in
  within (S p) rest (length b) -> p < length b -> (previous = None -> rest <> []) ->
  runs (writeLoop c b previous rest buffer) (fun buffer' x => let ps := pieces b p rest in
    x = (if splitPacket c then packets_ops c (frame c b <$> ps) else []) /\ (splitPacket c = false -> splitRecord c = true -> buffer' = buffer ++ frames c b ps)).
Proof.
  intros H5. induction rest as [|i rest IH]; intros previous buffer p Hw Hp Hn;
    destruct (piece_spec c b previous _ H5 Hw Hp Hn) as (q & qs & Eq & Epiece & Eqs); fold p in Eq; rewrite Eq; cbn [writeLoop]; rewrite Epiece;
    (eapply runs_bind; [apply (runs_lift q (fun a x => x = [] /\ a = q)); done|]; intros ? ? [-> ->]; cbn [app]);
    (eapply runs_bind; [by apply sendPiece_runs|]; intros buffer1 x [-> Hb]).
  - apply runs_ret. subst qs. unfold frames. cbn [flat_map fmap list_fmap packets_ops isNil]. rewrite !app_nil_r. done.
  - destruct Hw as [Hi Hr]. eapply runs_weaken; [apply (IH (Some i) buffer1); [done|cbn; lia|done]|]. cbn [default]. subst qs. unfold frames. cbn [flat_map fmap list_fmap packets_ops].
    intros buffer2 y [-> Hb2]. split; [|intros H1 H2; by rewrite Hb2, Hb, app_assoc]. destruct (splitPacket c); [|done].
    f_equal. cbn [isNil]. by destruct rest.
Qed.

Lemma writeHello_runs c b sn cur splits indexes : 5 <= length b -> splitsOf PublicSuffix sn = Ok (cur, splits) -> splitIndexes Intn 0 cur splits = Ok indexes ->
  indexes <> [] -> within (S (start c)) indexes (length b) -> start c < length b -> splitPacket c || splitRecord c = true ->
  runs (writeHello PublicSuffix Intn c b sn) (fun n x => n = length b /\ x = hello_ops c b (pieces b (start c) indexes)).
Proof.
  intros H5 Es Ei Hne Hw Hstart Hsplit. unfold writeHello, hello_ops.
  eapply runs_bind with (P := fun _ x => x = if splitPacket c && tcpConn c then [SetNoDelay true] else []); [destruct (_ && _); [by apply runs_attempt|by apply runs_ret]|]. intros [] x ->.
  rewrite Es. eapply runs_bind with (P := fun a x => x = [] /\ a = (cur, splits)); [by apply runs_lift|]. intros ? x [-> ->]. cbn [app].
  rewrite Ei. eapply runs_bind with (P := fun a x => x = [] /\ a = indexes); [by apply runs_lift|]. intros ? x [-> ->]. cbn [app].
  eapply runs_bind; [by apply (writeLoop_runs c b indexes H5 None [])|]. cbn [default]. intros buffer x [-> Hb].
  eapply runs_bind with (P := fun _ x => x = if splitPacket c then [] else [ConnWrite (frames c b (pieces b (start c) indexes))]).
  - destruct (splitPacket c); cbn in Hsplit; [rewrite andb_false_r; by apply runs_ret|]. rewrite Hsplit. cbn. apply runs_attempt. by rewrite Hb.
  - intros [] x ->. eapply runs_bind with (P := fun _ x => x = if tcpConn c then [SetNoDelay false] else []); [destruct (tcpConn c); [by apply runs_attempt|by apply runs_ret]|]. intros [] x ->.
    apply runs_ret. split; [done|]. by destruct (splitPacket c); rewrite ?app_nil_r.
Qed.

(** C24: the first write of a client hello sends its bytes unchanged, in nonempty pieces that are cut inside the name, one
    index in each label that is cut.  Each piece is a write of its own, the last one without waiting, when packets are
    split; as records each piece has the type and version of the hello, and when only records are split they go out in one
    write.  When the socket fails a prefix of this was done and its error is returned.  The labels must not be empty and
    the hello has less than 65536 bytes. *)
Theorem hello_fragments fuel c b w sn cur splits : length b <= fuel -> (N.of_nat (length b) < 65536)%N -> firstPacketWritten c = false ->
  splitPacket c || splitRecord c = true -> IndexTLSServerName fuel b = Some (Ok (Some sn)) ->
  splitsOf PublicSuffix sn = Ok (cur, splits) -> Forall (fun l => l <> []) splits ->
  exists r ops outs indexes, let ps := pieces b (start c) indexes in
    Write PublicSuffix Intn fuel c b w = Some (Ok r, {| c with firstPacketWritten := true |}, mkWorld outs (log w ++ ops)) /\
    within (Index sn) indexes (Index sn + length (ServerName sn)) /\ length indexes = length splits /\
    concat ps = drop (start c) b /\ Forall (fun p => p <> []) ps /\
    (r = (length b, None) /\ ops = hello_ops c b ps /\ sent ops = frames c b ps \/
     exists e n, r = (0, Some e) /\ (n, Some e) ∈ outcomes w /\ ops `prefix_of` hello_ops c b ps).
Proof.
  intros Hfuel Hlen Hfirst Hsplit Hsn Es Hall.
  destruct (IndexTLSServerName_spec fuel b Hfuel Hlen) as [E|(sn' & E & pre & post & Eb & Hi & H16)]; rewrite E in Hsn; [done|]. injection Hsn as ->. cbn in Hi.
  destruct (splitsOf_spec sn) as (cur' & splits' & Es' & Hne & Hcur & Hwidth). rewrite Es in Es'. injection Es' as <- <-.
  destruct (splitIndexes_spec splits Hall 0 cur) as (indexes & Ei & Hw & Hl).
  assert (Hin : within (Index sn) indexes (Index sn + length (ServerName sn))) by (eapply within_mono; [..|exact Hw]; lia).
  assert (Hb : length b = length pre + (length (ServerName sn) + length post)) by (rewrite Eb, !length_app; done).
  assert (Hstart : S (start c) <= Index sn) by (unfold start; destruct (splitRecord c); lia).
  assert (Hw' : within (S (start c)) indexes (length b)) by (eapply within_mono; [..|exact Hin]; lia).
  assert (Hnei : indexes <> []) by (destruct indexes, splits; done).
  destruct (writeHello_runs c b sn cur splits indexes ltac:(lia) Es Ei Hnei Hw' ltac:(lia) Hsplit w) as (r & ops & outs & Er & _ & Hr).
  unfold Write. rewrite Hfirst, E, Er. destruct r as [n|e|msg]; [| |done].
  - destruct Hr as [-> ->]. eexists (length b, None), _, outs, indexes. split_and!; try done; [|apply pieces_nonempty; [lia|done]|left; by rewrite sent_hello].
    apply concat_pieces; [lia|]. eapply within_mono; [..|exact Hw']; lia.
  - destruct Hr as [(n & x & [-> ->] & Hp) (k & Hk)]. exists (0, Some e), ops, outs, indexes. split_and!; try done; [|apply pieces_nonempty; [lia|done]|right; eauto].
    apply concat_pieces; [lia|]. eapply within_mono; [..|exact Hw']; lia.
Qed.

(** A name whose first label is empty stops the program. *)
Lemma empty_label_panics fuel c b w sn cur splits : firstPacketWritten c = false -> splitPacket c && tcpConn c = false ->
  IndexTLSServerName fuel b = Some (Ok (Some sn)) -> splitsOf PublicSuffix sn = Ok (cur, [] :: splits) ->
  Write PublicSuffix Intn fuel c b w = Some (Panic "invalid argument to Intn", {| c with firstPacketWritten := true |}, w).
Proof.
  intros Hfirst Hdelay E Es. unfold Write, writeHello. rewrite Hfirst, E, Hdelay. unfold mbind, io_bind, mret, io_ret, lift. by rewrite Es.
Qed.

End Sends.

(** ** The name of a hello *)

Lemma ensure_true {A} b (k : result (option A)) : b = true -> ensure b k = k.
Proof. by intros ->. Qed.

(** The two parsers agree on where the extensions start. *)
Lemma parseHello_start hs j exs : parseHello hs = Ok (j, exs) -> exists i, extensionsStart hs = Ok (Some i) /\ suffix i hs = Ok exs.
Proof.
  unfold parseHello. intros (_ & H39%atLeast_inv & E)%bind_Ok_inv. apply bind_Ok_inv in E as (t & Ht & E). destruct (t =? handshakeType)%N eqn:Et; [cbn [negb] in E|done].
  apply bind_Ok_inv in E as (h1 & H1 & E). apply bind_Ok_inv in E as (h2 & H2 & E). apply bind_Ok_inv in E as (h3 & H3 & E). apply bind_Ok_inv in E as (rest & Hrest & E).
  destruct (length rest =? _) eqn:Elen; [cbn [negb] in E|done]. apply bind_Ok_inv in E as (v & Hv & E). destruct (supported v) eqn:Ev; [cbn [negb] in E|done].
  apply bind_Ok_inv in E as (n & Hn & E). apply bind_Ok_inv in E as (_ & Hl%atLeast_inv & E). apply bind_Ok_inv in E as (cs & Hcs & E). apply bind_Ok_inv in E as ([suites exs'] & E & [= _ ->]).
  unfold parseSuites in E. apply bind_Ok_inv in E as (_ & Hc2%atLeast_inv & E). apply bind_Ok_inv in E as (m & Hm & E). apply bind_Ok_inv in E as (_ & Hc3%atLeast_inv & E).
  apply bind_Ok_inv in E as (l & _ & E). apply bind_Ok_inv in E as (k & Hk & E). apply bind_Ok_inv in E as (_ & Hc4%atLeast_inv & E). apply bind_Ok_inv in E as (exs'' & Hexs & [= _ ->]).
  assert (Hcsd : cs = drop (39 + N.to_nat n) hs) by (rewrite suffix_Ok in Hcs by done; by injection Hcs). pose proof (f_equal length Hcsd) as Hlcs. rewrite length_drop in Hlcs.
  unfold extensionsStart. rewrite ensure_true, Ht by (by apply Nat.leb_le). cbn [mbind result_bind]. rewrite ensure_true, H1, H2, H3, Hrest by done. cbn [mbind result_bind].
  rewrite ensure_true, Hv by done. cbn [mbind result_bind]. rewrite ensure_true, Hn by done. cbn [mbind result_bind]. rewrite ensure_true, Hcs by (by apply Nat.leb_le).
  cbn [mbind result_bind]. rewrite ensure_true, Hm by (by apply Nat.leb_le). cbn [mbind result_bind]. rewrite ensure_true, Hk by (by apply Nat.leb_le). cbn [mbind result_bind].
  rewrite ensure_true by (apply Nat.leb_le; lia). eexists. split; [done|]. rewrite suffix_Ok by lia. rewrite suffix_Ok in Hexs by done. injection Hexs as <-.
  rewrite Hcsd, drop_drop. done.
Qed.

Lemma indexExtension_read e rest cur : ext_ok e -> (N.of_nat (length (encode_ext e ++ rest)) < 65536)%N ->
  indexExtension cur (encode_ext e ++ rest) = match e with
    | ESni name => Ok (Some (inl (mkServerName (cur + 9) (length name) name 0)))
    | _ => Ok (Some (inr (cur + length (encode_ext e), rest)))
    end.
Proof.
  intros (Ht & Hb & Hk) Hlen. set (n := length (ext_body e)) in *.
  assert (E : encode_ext e ++ rest = be_encode 2 (ext_type e) ++ be_encode 2 (N.of_nat n) ++ ext_body e ++ rest) by (unfold encode_ext, len2; by rewrite <- !app_assoc).
  assert (Hle : length (encode_ext e) = 4 + n) by (unfold encode_ext; rewrite length_app, length_len2, length_be_encode; done).
  unfold indexExtension. rewrite ensure_true by (apply Nat.leb_le; rewrite length_app; lia). rewrite E at 1. rewrite uint16_at_0 by done. cbn [mbind result_bind].
  rewrite E at 1. rewrite uint16_at_app; [|done|by rewrite length_be_encode]. cbn [mbind result_bind]. rewrite Nat2N.id.
  rewrite ensure_true by (apply Nat.leb_le; rewrite length_app; lia). rewrite E at 1. rewrite (app_assoc (be_encode 2 (ext_type e))).
  rewrite sub_slice_app by (rewrite !length_app, !length_be_encode; done). cbn [mbind result_bind].
  assert (Hskip : suffix (N.to_nat ((4 + N.of_nat n) mod 2 ^ 16)) (encode_ext e ++ rest) = Ok rest).
  { rewrite length_app in Hlen. rewrite N.mod_small by (change (2 ^ 16)%N with 65536%N; lia). apply suffix_app. lia. }
  rewrite Hskip, Hle. cbn [mbind result_bind]. destruct e as [name| | | | |ty data]; cbn [ext_type]; try done.
  - cbn [ext_body] in *. change (sniExtensionType =? sniExtensionType)%N with true. cbv iota.
    assert (Hn : n = 5 + length name) by (unfold n; rewrite length_len2; cbn [length]; by rewrite length_len2).
    rewrite ensure_true by (apply Nat.leb_le; fold n; lia). set (a := be_encode 2 (N.of_nat (length (x00 :: len2 name)))).
    assert (Ea : len2 (x00 :: len2 name) = a ++ x00 :: be_encode 2 (N.of_nat (length name)) ++ name) by done. rewrite Ea.
    rewrite byte_at_app by (unfold a; by rewrite length_be_encode). cbn [mbind result_bind]. rewrite ensure_true by done.
    rewrite (cons_middle x00), (app_assoc a [x00]). rewrite uint16_at_app; [|lia|unfold a; by rewrite length_app, length_be_encode]. cbn [mbind result_bind].
    rewrite (app_assoc (a ++ [x00])). rewrite suffix_app by (unfold a; by rewrite !length_app, !length_be_encode). cbn [mbind result_bind]. rewrite Nat2N.id.
    replace (cur + 4 + 5) with (cur + 9) by lia. done.
  - rewrite (proj2 (N.eqb_neq _ _)); [done|]. intros ->. apply Hk. by apply elem_of_cons; left.
Qed.

Definition isSni (e : extension) : bool := match e with ESni _ => true | _ => false end.

Lemma indexLoop_read es name es' cur fuel : Forall ext_ok (es ++ ESni name :: es') -> forallb (fun e => negb (isSni e)) es = true ->
  (N.of_nat (length (flat_map encode_ext (es ++ ESni name :: es'))) < 65536)%N -> length es < fuel ->
  exists sn, indexLoop fuel cur (flat_map encode_ext (es ++ ESni name :: es')) = Some (Ok (Some sn)) /\ ServerName sn = name.
Proof.
  revert cur fuel. induction es as [|e es IH]; intros cur [|fuel] Hok Hes Hlen Hf; cbn [length] in Hf; try lia; cbn [app flat_map] in *; apply Forall_cons in Hok as [He Hok];
    (assert (Hstep : forall e l, indexLoop (S fuel) cur (encode_ext e ++ l) = match indexExtension cur (encode_ext e ++ l) with
       | Ok (Some (inr (cur, exs))) => indexLoop fuel cur exs | Ok (Some (inl sn)) => Some (Ok (Some sn)) | Ok None => Some (Ok None) | Err err => Some (Err err) | Panic msg => Some (Panic msg) end) by done);
    rewrite Hstep, indexExtension_read by done.
  - by eexists.
  - cbn in Hes. apply andb_true_iff in Hes as [Hne Hes]. rewrite length_app in Hlen. destruct e; try done; apply IH; (done || lia).
Qed.

(** The name that is found in a hello is the name of its first server name extension. *)
Lemma hello_name_found h es name es' fuel : hello_ok h -> (N.of_nat (length (handshake h)) < 65536)%N ->
  h_extensions h = es ++ ESni name :: es' -> forallb (fun e => negb (isSni e)) es = true -> length es < fuel ->
  exists sn, IndexTLSServerName fuel (record (N.of_nat (length (handshake h))) (handshake h)) = Some (Ok (Some sn)) /\ ServerName sn = name.
Proof.
  intros Hok Hlen Hes Hno Hf. set (n := N.of_nat (length (handshake h))) in *. set (pre := byte_of_N contentType :: be_encode 2 0x0303).
  assert (E : record n (handshake h) = pre ++ be_encode 2 n ++ handshake h) by done.
  assert (Hl : length (record n (handshake h)) = 5 + length (handshake h)) by (rewrite E, !length_app, length_be_encode; done).
  destruct (parseHello_start _ _ _ (parseHello_read h Hok Hlen)) as (i & Hi & Hsuf).
  assert (Hexs : (N.of_nat (length (flat_map encode_ext (h_extensions h))) < 65536)%N).
  { apply suffix_inv in Hsuf as [a Ha]. apply (f_equal length) in Ha. rewrite length_app, length_len2 in Ha. lia. }
  assert (Hfrom : exists sn, indexTLSServerNameFromExtensions fuel (len2 (flat_map encode_ext (h_extensions h))) = Some (Ok (Some sn)) /\ ServerName sn = name).
  { unfold indexTLSServerNameFromExtensions. rewrite length_len2, ensure_true by done. rewrite ensure_true, len2_at0, len2_suffix by done. cbn [mbind result_bind].
    rewrite ensure_true by (apply Nat.leb_le; lia). destruct Hok as (_ & _ & _ & _ & _ & _ & _ & Hall). rewrite Hes in *. by apply indexLoop_read. }
  destruct Hfrom as (sn & Hfrom & Hname). unfold IndexTLSServerName. rewrite ensure_true by (apply Nat.leb_le; lia).
  change (byte_at 0 (record n (handshake h))) with (Ok contentType). cbn [mbind result_bind]. rewrite ensure_true by done. rewrite E, uint16_at_app, <- E by done. cbn [mbind result_bind].
  rewrite ensure_true by (apply Nat.leb_le; lia). rewrite E, app_assoc, suffix_app by (by rewrite length_app, length_be_encode). cbn [mbind result_bind].
  unfold indexTLSServerNameFromHandshake. rewrite Hi, Hsuf, Hfrom. by eexists.
Qed.

(** Above 65535 bytes the loop can stand still: with an extension of 65532 bytes [4+exLen] is zero. *)
Lemma long_extension_hangs ty rest : (ty < 65536)%N -> ty <> sniExtensionType -> (65532 <= N.of_nat (length rest))%N ->
  forall fuel cur, indexLoop fuel cur (be_encode 2 ty ++ be_encode 2 65532 ++ rest) = None.
Proof.
  intros Hty Hne Hrest. set (exs := be_encode 2 ty ++ be_encode 2 65532 ++ rest).
  assert (Hl : length exs = 4 + length rest) by (unfold exs; rewrite !length_app, !length_be_encode; lia).
  assert (Hstep : forall cur, indexExtension cur exs = Ok (Some (inr (cur + (4 + N.to_nat 65532), exs)))).
  { assert (Ht : uint16_at 0 exs = Ok ty) by (by apply uint16_at_0). assert (Hn : uint16_at 2 exs = Ok 65532%N) by (apply uint16_at_app; [done|by rewrite length_be_encode]).
    intros cur. unfold indexExtension. rewrite ensure_true, Ht, Hn by (apply Nat.leb_le; lia). cbn [mbind result_bind]. rewrite ensure_true by (apply Nat.leb_le; lia).
    rewrite sub_slice_Ok by lia. cbn [mbind result_bind]. rewrite (proj2 (N.eqb_neq _ _)) by done. change (N.to_nat ((4 + 65532) mod 2 ^ 16)) with 0. rewrite suffix_Ok by lia. done. }
  induction fuel as [|fuel IH]; intros cur; destruct exs as [|x exs'] eqn:E; try (cbn in Hl; lia); [done|]. cbn [indexLoop]. rewrite Hstep. apply IH.
Qed.

(** ** Samples *)

Definition sampleBytes (name : string) : list byte :=
  let hs := handshake (sampleHello [EOther 0x0a0a []; ESni (bytes_of_string name)]) in record (N.of_nat (length hs)) hs.
Definition sampleSuffix (name : list byte) : list byte := if isNil name then [] else bytes_of_string "org".
Definition sampleConn : Conn := mkConn true false true true.

Lemma hello_fragments_witness : exists ops outs,
  Write sampleSuffix (fun _ n => Nat.div2 n) 100 sampleConn (sampleBytes "example.org") (mkWorld [] []) =
    Some (Ok (length (sampleBytes "example.org"), None), {| sampleConn with firstPacketWritten := true |}, mkWorld outs ops) /\
  length ops = 4.
Proof.
  assert (Hsn : exists sn, IndexTLSServerName 100 (sampleBytes "example.org") = Some (Ok (Some sn)) /\ splitsOf sampleSuffix sn = Ok (Index sn, [bytes_of_string "example"]))
    by (eexists; split; vm_compute; reflexivity).
  destruct Hsn as (sn & Hsn & Hsplits).
  destruct (hello_fragments sampleSuffix (fun _ n => Nat.div2 n) (fun _ n Hn => Nat.lt_div2 n Hn) 100 sampleConn (sampleBytes "example.org") (mkWorld [] []) sn (Index sn) [bytes_of_string "example"])
    as (r & ops & outs & indexes & E & _ & _ & _ & _ & Hr); [vm_compute; lia|reflexivity|reflexivity|reflexivity|exact Hsn|exact Hsplits|by repeat constructor|].
  exists ops, outs. destruct Hr as [[-> _]|(e & n & _ & Hn & _)]; [|by apply elem_of_nil in Hn]. split; [exact E|]. vm_compute in E. by injection E as _ <-.
Defined.

(** A hello without a name in its server name extension, or with a name that starts with a dot, stops the program. *)
Example empty_name_panics : let panics name := exists c w,
    Write sampleSuffix (fun _ n => Nat.div2 n) 100 (mkConn false false true false) (sampleBytes name) (mkWorld [] []) = Some (Panic "invalid argument to Intn", c, w) in
  panics "" /\ panics ".example.org".
Proof. split; eexists _, _; (eapply empty_label_panics; [done|done|vm_compute; reflexivity|vm_compute; reflexivity]). Qed.

End TlsFragment.
