(* ===== verification/RealmCandidates.v ===== *)
(** * Candidate addresses of a punch (src/third_party/sing-quic/hysteria2/realm/punch_engine.go)

    The addresses of the peer without duplicates, and further ports of hosts whose
    ports look like those of a symmetric NAT.  The iteration over the map of hosts
    has no fixed order: [order] is the one of a run. *)

From S2P Require Import Prelude GoStd Datagram.
From stdpp Require Import sorting list.
Import netip.

Open Scope N_scope.

Module RealmCandidates.

Definition symmetricNATPortGap : N := 4.
Definition symmetricNATExtraPorts : N := 4.
Definition symmetricNATMaxPortsPerHost : nat := 32.

(** [slices.Compact] *)
Fixpoint Compact (l : list N) : list N :=
  match l with
  | x :: ((y :: _) as l') => if x =? y then Compact l' else x :: Compact l'
  | l => l
  end.
Definition uniqueSortedPorts (ports : list N) : list N :=
  Compact (merge_sort N.le ports).

(** Differences of [uint16] wrap around. *)
Fixpoint portGaps (ports : list N) : bool :=
  match ports with
  | x :: ((y :: _) as ports') =>
      if symmetricNATPortGap <? (y + 2 ^ 16 - x) mod 2 ^ 16 then false else portGaps ports'
  | _ => true
  end.
Definition predictablePortGroup (ports : list N) : bool :=
  if (length ports <? 2)%nat then false else portGaps ports.

Definition portsByIP (candidates : list AddrPort) : gmap Addr (list N) :=
  foldl (fun m address =>
    if Is4 (ap_Addr address)
    then <[ap_Addr address := default [] (m !! ap_Addr address) ++ [ap_Port address]]> m
    else m) ∅ candidates.

(** The ports [port], [port + 1], ... of a host; [n] of them are left. *)
Fixpoint addPorts (n : nat) (ip : Addr) (port : N) (added : nat) (candidates : list AddrPort) (seen : gset AddrPort)
    : list AddrPort * gset AddrPort :=
  match n with
  | O => (candidates, seen)
  | S n =>
      if (added <? symmetricNATMaxPortsPerHost)%nat then
        let address := AddrPortFrom ip (port mod 2 ^ 16) in
        if decide (address ∈ seen) then addPorts n ip (port + 1) added candidates seen
        else addPorts n ip (port + 1) (S added) (candidates ++ [address]) ({[address]} ∪ seen)
      else (candidates, seen)
  end.

Definition expandHost (ip : Addr) (ports : list N) (candidates : list AddrPort) (seen : gset AddrPort)
    : list AddrPort * gset AddrPort :=
  let ports := uniqueSortedPorts ports in
  if negb (predictablePortGroup ports) then (candidates, seen)
  else
    let start := default 0 (head ports) in
    let end_ := default 0 (last ports) + symmetricNATExtraPorts in
    let end_ := if 65535 <? end_ then 65535 else end_ in
    addPorts (N.to_nat (end_ + 1 - start)) ip start 0 candidates seen.

Definition expandSymmetricNATCandidates (order : list Addr) (candidates : list AddrPort) (seen : gset AddrPort)
    : list AddrPort :=
  let hosts := portsByIP candidates in
  (foldl (fun '(candidates, seen) ip => expandHost ip (default [] (hosts !! ip)) candidates seen)
     (candidates, seen) order).1.

Fixpoint distinctAddrs (peerAddresses : list AddrPort) (candidates : list AddrPort) (seen : gset AddrPort)
    : list AddrPort * gset AddrPort :=
  match peerAddresses with
  | [] => (candidates, seen)
  | address :: peerAddresses =>
      if negb (ap_IsValid address) || (ap_Port address =? 0) then distinctAddrs peerAddresses candidates seen
      else if decide (address ∈ seen) then distinctAddrs peerAddresses candidates seen
      else distinctAddrs peerAddresses (candidates ++ [address]) ({[address]} ∪ seen)
  end.

Definition candidatePunchAddrs (order : list Addr) (peerAddresses : list AddrPort) : list AddrPort :=
  let '(candidates, seen) := distinctAddrs peerAddresses [] ∅ in
  expandSymmetricNATCandidates order candidates seen.

(** The orders in which Go can visit the hosts. *)
Definition visits (order : list Addr) (peerAddresses : list AddrPort) : Prop :=
  order ≡ₚ (map_to_list (portsByIP (distinctAddrs peerAddresses [] ∅).1)).*1.

(** ** Facts *)

Lemma elem_of_Compact l x : x ∈ Compact l <-> x ∈ l.
Proof.
  induction l as [|y [|z l] IH]; [done|done|]. cbn [Compact]. destruct (y =? z) eqn:Hyz.
  - apply N.eqb_eq in Hyz as ->. rewrite IH, !elem_of_cons. tauto.
  - rewrite elem_of_cons, IH, (elem_of_cons (z :: l)). done.
Qed.

Lemma Compact_sorted l : StronglySorted N.le l -> StronglySorted N.lt (Compact l).
Proof.
  induction 1 as [|y l Hl IH Hy]; [constructor|]. destruct l as [|z l]; [by repeat constructor|]. cbn [Compact].
  destruct (y =? z) eqn:Hyz; [done|]. apply N.eqb_neq in Hyz. constructor; [done|].
  inversion Hl as [|? ? _ Hz]; subst. inversion Hy as [|? ? Hyz' Hy']; subst.
  apply Forall_forall. intros x Hx. apply (proj1 (elem_of_Compact (z :: l) x)) in Hx. rewrite elem_of_cons in Hx.
  destruct Hx as [->|Hx]; [lia|]. rewrite Forall_forall in Hz. specialize (Hz x Hx). lia.
Qed.

Lemma uniqueSortedPorts_sorted ports : StronglySorted N.lt (uniqueSortedPorts ports).
Proof. apply Compact_sorted, StronglySorted_merge_sort; [intros a b c; lia|intros a b; lia]. Qed.

Lemma elem_of_uniqueSortedPorts ports x : x ∈ uniqueSortedPorts ports <-> x ∈ ports.
Proof. unfold uniqueSortedPorts. by rewrite elem_of_Compact, (merge_sort_Permutation N.le ports). Qed.

(** The first and the last port of a group of at least two. *)
Lemma group_ends ports :
  predictablePortGroup (uniqueSortedPorts ports) = true ->
  exists lo hi, head (uniqueSortedPorts ports) = Some lo /\ last (uniqueSortedPorts ports) = Some hi /\
    lo < hi /\ lo ∈ ports /\ hi ∈ ports.
Proof.
  pose proof (uniqueSortedPorts_sorted ports) as Hs. pose proof (elem_of_uniqueSortedPorts ports) as He.
  destruct (uniqueSortedPorts ports) as [|lo l]; [done|]. unfold predictablePortGroup.
  destruct l as [|y l]; [done|]. intros _. destruct (last_is_Some (y :: l)) as [_ Hlast].
  destruct Hlast as [hi Hhi]; [done|]. exists lo, hi. repeat split; [done| | |].
  - inversion Hs as [|? ? _ Hf]; subst. rewrite Forall_forall in Hf. apply Hf. by apply last_Some_elem_of.
  - apply He. by left.
  - apply He. right. by apply last_Some_elem_of.
Qed.

(** The list and the set of the loops agree. *)
Definition agree (candidates : list AddrPort) (seen : gset AddrPort) : Prop :=
  NoDup candidates /\ forall a, a ∈ seen <-> a ∈ candidates.

Lemma agree_snoc candidates seen a :
  agree candidates seen -> a ∉ seen -> agree (candidates ++ [a]) ({[a]} ∪ seen).
Proof.
  intros [Hn He] Ha. split; [|set_solver]. apply NoDup_app. split; [done|]. split; [|apply NoDup_singleton]. set_solver.
Qed.

Lemma distinctAddrs_spec peers candidates seen :
  agree candidates seen ->
  let '(candidates', seen') := distinctAddrs peers candidates seen in
  agree candidates' seen' /\
  forall a, a ∈ candidates' <-> a ∈ candidates \/ a ∈ peers /\ ap_IsValid a = true /\ ap_Port a <> 0.
Proof.
  revert candidates seen. induction peers as [|p peers IH]; intros candidates seen Ha; simpl; [set_solver|].
  destruct (negb (ap_IsValid p) || (ap_Port p =? 0)) eqn:Hp.
  - specialize (IH candidates seen Ha). destruct (distinctAddrs peers candidates seen). destruct IH as [? IH]. split; [done|].
    intros a. rewrite IH, elem_of_cons. apply orb_true_iff in Hp. rewrite negb_true_iff, N.eqb_eq in Hp.
    split; [tauto|]. intros [?|([->|?] & Hv & Hz)]; [auto| |auto]. destruct Hp; congruence.
  - apply orb_false_iff in Hp as [Hv%negb_false_iff Hz%N.eqb_neq]. destruct (decide (p ∈ seen)) as [Hin|Hin].
    + specialize (IH candidates seen Ha). destruct (distinctAddrs peers candidates seen). destruct IH as [? IH]. split; [done|].
      intros a. rewrite IH, elem_of_cons. destruct Ha as [_ Ha]. rewrite Ha in Hin. split; [tauto|].
      intros [?|([->|?] & ?)]; auto.
    + specialize (IH _ _ (agree_snoc _ _ _ Ha Hin)). destruct (distinctAddrs peers _ _). destruct IH as [? IH]. split; [done|].
      intros a. rewrite IH, elem_of_app, list_elem_of_singleton, elem_of_cons. split; [|tauto]. intros [[?| ->]|?]; tauto.
Qed.

(** What the loop over the ports of a host adds. *)
Record added (ip : Addr) (lo hi : N) (room : nat) (before after : list AddrPort) : Prop := {
  added_extra : exists extra, after = before ++ extra /\ (length extra <= room)%nat /\
    Forall (fun a => ap_Addr a = ip /\ lo <= ap_Port a < hi) extra;
  added_covers : forall p, lo <= p < hi -> p < lo + N.of_nat room -> AddrPortFrom ip p ∈ after;
}.

Lemma addPorts_spec n ip port k candidates seen :
  agree candidates seen -> port + N.of_nat n <= 2 ^ 16 ->
  let '(candidates', seen') := addPorts n ip port k candidates seen in
  agree candidates' seen' /\
  added ip port (port + N.of_nat n) (symmetricNATMaxPortsPerHost - k) candidates candidates'.
Proof.
  revert port k candidates seen. induction n as [|n IH]; intros port k candidates seen Ha Hr; cbn [addPorts].
  - split; [done|]. split; [exists []; rewrite app_nil_r; repeat split; [simpl; lia|constructor]|intros; lia].
  - destruct (k <? _)%nat eqn:Hd.
    2:{ apply Nat.ltb_ge in Hd. split; [trivial|]. split; [exists []; rewrite app_nil_r; repeat split; [simpl; lia|constructor]|intros; lia]. }
    apply Nat.ltb_lt in Hd. rewrite N.mod_small by lia. destruct (decide _) as [Hin|Hin].
    + specialize (IH (port + 1) k candidates seen Ha ltac:(lia)). destruct (addPorts n _ _ _ _ _) as [c' s'].
      destruct IH as [Ha' [(extra & -> & Hl & Hf) Hc]]. split; [done|]. split.
      * exists extra. repeat split; [done|]. eapply Forall_impl; [exact Hf|]. intros a (? & ?). split; [done|lia].
      * intros p Hp Hp'. destruct (decide (p = port)) as [->|]; [|apply Hc; lia].
        apply elem_of_app. left. by apply Ha.
    + specialize (IH (port + 1) (S k) _ _ (agree_snoc _ _ _ Ha Hin) ltac:(lia)). destruct (addPorts n _ _ _ _ _) as [c' s'].
      destruct IH as [Ha' [(extra & -> & Hl & Hf) Hc]]. split; [done|]. split.
      * exists (AddrPortFrom ip port :: extra). rewrite <- app_assoc. repeat split; [simpl; lia|]. constructor; [split; [done|simpl; lia]|].
        eapply Forall_impl; [exact Hf|]. intros a (? & ?). split; [done|lia].
      * intros p Hp Hp'. destruct (decide (p = port)) as [->|]; [set_solver|]. apply Hc; lia.
Qed.

Lemma portsByIP_snoc candidates a :
  portsByIP (candidates ++ [a]) =
  if Is4 (ap_Addr a)
  then <[ap_Addr a := default [] (portsByIP candidates !! ap_Addr a) ++ [ap_Port a]]> (portsByIP candidates)
  else portsByIP candidates.
Proof. unfold portsByIP. by rewrite foldl_snoc. Qed.

Lemma portsByIP_elem candidates ip p :
  p ∈ default [] (portsByIP candidates !! ip) <-> Is4 ip = true /\ AddrPortFrom ip p ∈ candidates.
Proof.
  induction candidates as [|[a q] candidates IH] using rev_ind; [set_solver|].
  rewrite portsByIP_snoc, elem_of_app, list_elem_of_singleton. cbn [ap_Addr ap_Port]. destruct (Is4 a) eqn:Ha.
  - destruct (decide (a = ip)) as [<-|Hn].
    + rewrite lookup_insert_eq. simpl. rewrite elem_of_app, list_elem_of_singleton, IH.
      split; [intros [[? ?]| ->]; auto|]. intros (? & [?|[= ->]]); auto.
    + rewrite lookup_insert_ne, IH by done. split; [tauto|]. intros (? & [?|[= -> ->]]); done.
  - rewrite IH. split; [tauto|]. intros (? & [?|[= -> ->]]); [done|congruence].
Qed.

(** A host whose ports are close to each other, with the first and the last one. *)
Definition group (candidates : list AddrPort) (ip : Addr) (lo top : N) : Prop :=
  let ports := uniqueSortedPorts (default [] (portsByIP candidates !! ip)) in
  predictablePortGroup ports = true /\ head ports = Some lo /\ last ports = Some top.
Definition lastPort (top : N) : N := N.min (top + symmetricNATExtraPorts) 65535.

Lemma group_facts candidates ip lo top :
  group candidates ip lo top ->
  Is4 ip = true /\ lo < top /\ AddrPortFrom ip lo ∈ candidates /\ AddrPortFrom ip top ∈ candidates.
Proof.
  intros (Hp & Hh & Ht). destruct (group_ends _ Hp) as (lo' & top' & Hh' & Ht' & Hlt & Hlo & Htop).
  apply portsByIP_elem in Hlo as [? ?], Htop as [_ ?]. rewrite Hh in Hh'. rewrite Ht in Ht'. by simplify_eq.
Qed.

Lemma expandHost_spec base ip candidates seen :
  agree candidates seen -> Forall (fun a => ap_Port a < 2 ^ 16) base ->
  let '(candidates', seen') := expandHost ip (default [] (portsByIP base !! ip)) candidates seen in
  agree candidates' seen' /\
  ((exists lo top, group base ip lo top /\ added ip lo (lastPort top + 1) symmetricNATMaxPortsPerHost candidates candidates') \/
   (forall lo top, ~ group base ip lo top) /\ candidates' = candidates).
Proof.
  intros Ha Hb. unfold expandHost, group. set (ports := uniqueSortedPorts _).
  destruct (predictablePortGroup ports) eqn:Hp; cbn [negb]; [|split; [done|right; naive_solver]].
  destruct (group_ends _ Hp) as (lo & top & Hh & Ht & Hlt & _ & Htop). fold ports in Hh, Ht.
  rewrite Hh, Ht. cbn [default from_option]. unfold id.
  apply portsByIP_elem in Htop as [_ Htop]. rewrite Forall_forall in Hb. pose proof (Hb _ Htop) as Hbound. simpl in Hbound.
  set (hi := if 65535 <? _ then _ else _). assert (hi = lastPort top) as Hhi.
  { unfold hi, lastPort. destruct (65535 <? _) eqn:He; [apply N.ltb_lt in He|apply N.ltb_ge in He]; lia. }
  rewrite Hhi. assert (lo <= lastPort top < 2 ^ 16) by (unfold lastPort; change (2 ^ 16) with 65536 in *; lia).
  pose proof (addPorts_spec (N.to_nat (lastPort top + 1 - lo)) ip lo 0 candidates seen Ha ltac:(lia)) as Hs.
  destruct (addPorts _ _ _ _ _ _) as [c' s']. destruct Hs as [Ha' Hadd]. split; [done|]. left. exists lo, top.
  split; [done|]. rewrite Nat.sub_0_r in Hadd.
  by replace (lastPort top + 1) with (lo + N.of_nat (N.to_nat (lastPort top + 1 - lo))) by lia.
Qed.

Lemma filter_none {A} (P : A -> Prop) `{!forall x, Decision (P x)} (l : list A) :
  (forall x, x ∈ l -> ~ P x) -> filter P l = [].
Proof.
  induction l as [|x l IH]; intros Hl; [done|]. rewrite filter_cons_False by (apply Hl; left). apply IH. intros y Hy. apply Hl. by right.
Qed.

Lemma expandHosts_spec base order candidates seen :
  agree candidates seen -> Forall (fun a => ap_Port a < 2 ^ 16) base -> NoDup order ->
  let '(candidates', seen') :=
    foldl (fun '(candidates, seen) ip => expandHost ip (default [] (portsByIP base !! ip)) candidates seen) (candidates, seen) order in
  agree candidates' seen' /\
  exists extra, candidates' = candidates ++ extra /\
    (forall a, a ∈ extra -> ap_Addr a ∈ order /\ exists lo top, group base (ap_Addr a) lo top /\ lo <= ap_Port a <= lastPort top) /\
    (forall ip, (length (filter (fun a => ap_Addr a = ip) extra) <= symmetricNATMaxPortsPerHost)%nat) /\
    (forall ip lo top p, ip ∈ order -> group base ip lo top -> lo <= p <= lastPort top ->
       p < lo + N.of_nat symmetricNATMaxPortsPerHost -> AddrPortFrom ip p ∈ candidates').
Proof.
  intros Ha Hb. revert candidates seen Ha. induction order as [|host order IH]; intros candidates seen Ha Hn; cbn [foldl].
  - split; [done|]. exists []. rewrite app_nil_r. repeat split; [set_solver..|simpl; lia|set_solver].
  - apply NoDup_cons in Hn as [Hh Hn]. pose proof (expandHost_spec base host candidates seen Ha Hb) as He.
    destruct (expandHost _ _ _ _) as [c1 s1]. destruct He as [Ha1 He]. specialize (IH c1 s1 Ha1 Hn).
    destruct (foldl _ _ order) as [c' s']. destruct IH as [Ha' (extra & -> & Hx & Hlen & Hcov)]. split; [done|].
    assert (forall ip, (length (filter (fun a => ap_Addr a = ip) extra) <= if decide (ip = host) then 0 else symmetricNATMaxPortsPerHost)%nat) as Hlen'.
    { intros ip. destruct (decide (ip = host)) as [->|]; [|apply Hlen].
      rewrite filter_none; [simpl; lia|]. by intros a [Ha2 _]%Hx <-. }
    destruct He as [(lo & top & Hg & [(new & -> & Hnew & Hf) Hc])|[Hng ->]].
    + exists (new ++ extra). rewrite app_assoc. split; [done|]. rewrite Forall_forall in Hf. split; [|split].
      * intros a [Hin|Hin]%elem_of_app.
        -- destruct (Hf a Hin) as [-> ?]. split; [by left|]. exists lo, top. split; [done|lia].
        -- destruct (Hx a Hin) as [? ?]. split; [by right|done].
      * intros ip. rewrite filter_app, length_app. specialize (Hlen' ip). destruct (decide (ip = host)) as [->|Hne].
        -- pose proof (length_filter (fun a => ap_Addr a = host) new). lia.
        -- rewrite (filter_none _ new); [simpl; lia|]. intros a [-> _]%Hf ?. congruence.
      * intros ip lo' top' p [->|Hin]%elem_of_cons Hg' Hp Hp'; [|by eapply Hcov].
        destruct Hg as (_ & E1 & E2), Hg' as (_ & E1' & E2'). rewrite E1 in E1'. rewrite E2 in E2'. simplify_eq.
        apply elem_of_app. left. apply Hc; lia.
    + exists extra. split; [done|]. split; [|split].
      * intros a Hin. destruct (Hx a Hin) as [? ?]. split; [by right|done].
      * done.
      * intros ip lo top p [->|Hin]%elem_of_cons Hg; [by destruct (Hng lo top)|by eapply Hcov].
Qed.

(** The candidates of a punch.  Whatever order the hosts are visited in, the
    candidates have no duplicates, start with the usable addresses of the peer, and
    add to them only ports of IPv4 hosts with a group of close ports: from its first
    port to four above its last, at most 32 per host, and all of the first 32. *)
Theorem punch_candidates order peers :
  Forall (fun a => ap_Port a < 2 ^ 16) peers -> visits order peers ->
  exists base extra, candidatePunchAddrs order peers = base ++ extra /\ NoDup (base ++ extra) /\
    (forall a, a ∈ base <-> a ∈ peers /\ ap_IsValid a = true /\ ap_Port a <> 0) /\
    (forall a, a ∈ extra -> exists lo top, group base (ap_Addr a) lo top /\ lo <= ap_Port a <= lastPort top) /\
    (forall ip, (length (filter (fun a => ap_Addr a = ip) extra) <= symmetricNATMaxPortsPerHost)%nat) /\
    (forall ip lo top p, group base ip lo top -> lo <= p <= lastPort top ->
       p < lo + N.of_nat symmetricNATMaxPortsPerHost -> AddrPortFrom ip p ∈ base ++ extra).
Proof.
  intros Hp Hv. unfold visits in Hv. unfold candidatePunchAddrs.
  pose proof (distinctAddrs_spec peers [] ∅) as Hd. destruct (distinctAddrs peers [] ∅) as [base seen]. cbn [fst] in Hv.
  destruct Hd as [Ha Hb]; [split; [constructor|set_solver]|].
  assert (Forall (fun a => ap_Port a < 2 ^ 16) base) as Hbase.
  { rewrite Forall_forall in *. intros a [?|(? & _)]%Hb; [set_solver|auto]. }
  assert (NoDup order) as Hn by (rewrite Hv; apply NoDup_fst_map_to_list).
  unfold expandSymmetricNATCandidates. pose proof (expandHosts_spec base order base seen Ha Hbase Hn) as He.
  destruct (foldl _ _ _) as [c s]. destruct He as [[Hc _] (extra & -> & Hx & Hl & Hcov)]. exists base, extra.
  split; [done|]. split; [done|]. split; [set_solver|]. split; [|split; [done|]].
  - intros a Hin. by destruct (Hx a Hin) as [_ ?].
  - intros ip lo top p Hg. apply Hcov; [|done]. rewrite Hv. destruct (group_facts _ _ _ _ Hg) as (H4 & _ & Hlo & _).
    assert (lo ∈ default [] (portsByIP base !! ip)) as Hin by (by apply portsByIP_elem).
    destruct (portsByIP base !! ip) as [ports|] eqn:Hports; [|set_solver].
    apply list_elem_of_fmap. exists (ip, ports). split; [done|]. by apply elem_of_map_to_list.
Qed.

End RealmCandidates.

(** Two ports of one host, and an IPv6 address. *)
Definition samplePeers : list AddrPort :=
  [AddrPortFrom (Addr4 1) 4000; AddrPortFrom (Addr6 1 "") 5000; AddrPortFrom (Addr4 1) 4002; AddrPortFrom (Addr4 1) 4000].
Lemma punch_candidates_witness :
  exists base extra, RealmCandidates.candidatePunchAddrs [Addr4 1] samplePeers = base ++ extra /\ NoDup (base ++ extra) /\
    (forall ip, (length (filter (fun a => ap_Addr a = ip) extra) <= 32)%nat).
Proof.
  destruct (RealmCandidates.punch_candidates [Addr4 1] samplePeers) as (base & extra & H1 & H2 & _ & _ & H3 & _).
  - by repeat constructor.
  - vm_compute. reflexivity.
  - exists base, extra. exact (conj H1 (conj H2 H3)).
Defined.
