(* ===== verification/RealmPunch.v ===== *)
(** * Punching a hole (src/third_party/sing-quic/hysteria2/realm/punch_engine.go and
    punch_conn.go)

    [Punch] is the loop of the client, one [clientTurn] per iteration: the clock, the
    context and what the socket returns are the inputs of a turn.  The node shares one
    socket between the QUIC server and all attempts: [demux] sorts a datagram,
    [dispatch] hands events to attempts, and [Respond] is a machine that moves with the
    cases of its [select] statements.  Times are in nanoseconds. *)

From S2P Require Import Prelude GoStd Metadata Binary Datagram RealmPacket RealmStun RealmCandidates.
From Stdlib Require Import Strings.Byte.
Import netip RealmPacket RealmCandidates.

Open Scope Z_scope.

Module RealmPunch.

Definition Millisecond : Z := 1000000.
Definition punchTimeout : Z := 10000 * Millisecond.
Definition punchInterval : Z := 100 * Millisecond.
Definition punchConfirmWindow : Z := 1500 * Millisecond.
Definition eventBufferSize : nat := 16.

Record PunchResult : Type := mkPunchResult { PeerAddr : AddrPort; Type_ : byte }.

Section Punch.
Context `{E : Externals}.
Variable Sum256 : list byte -> list byte.

(** A datagram and where it goes to or comes from. *)
Abbreviation datagram := (AddrPort * list byte)%type.

(** ** Sending

    [random i]: the random bytes of the [i]-th packet.  A packet that cannot be encoded
    or written is dropped. *)

Definition sendPunchPacket (random : result (list byte)) (address : AddrPort) (packetType : byte) (metadata : PunchMetadata)
    : list datagram :=
  match EncodePunchPacket Sum256 random packetType metadata with
  | Ok packet => [(address, packet)]
  | _ => []
  end.

Definition sendPunchPackets (random : nat -> result (list byte)) (addresses : list AddrPort) (packetType : byte)
    (metadata : PunchMetadata) : list datagram :=
  concat (imap (fun i address => sendPunchPacket (random i) address packetType metadata) addresses).

(** ** The client *)

Inductive ReadResult : Type :=
| ReadTimeout
| ReadError (err : error)
| ReadFrom (data : list byte) (addr : AddrPort).

(** [t_ctxErr]: the error of the context; [t_now], [t_after]: the clock before and after
    the read; [t_deadline]: the deadline of the context. *)
Record turn : Type := mkTurn {
  t_ctxErr : option error;
  t_now : Z;
  t_deadline : Z;
  t_random : nat -> result (list byte);
  t_read : ReadResult;
  t_after : Z;
}.

Record ClientState : Type := mkClientState {
  candidates : list AddrPort;
  nextSend : Z;
  confirmDeadline : option Z;
}.

(** The deadline of the read. *)
Definition readDeadline (st : ClientState) (ctxDeadline : Z) : Z :=
  let deadline := nextSend st in
  let deadline := match confirmDeadline st with Some d => if d <? deadline then d else deadline | None => deadline end in
  if ctxDeadline <? deadline then ctxDeadline else deadline.

Definition bufferSize : nat := saltLength + minBodySize + maxPadding.

(** What the client does with the result of a read. *)
Definition clientRead (metadata : PunchMetadata) (st : ClientState) (t : turn)
    : list datagram * (ClientState + result PunchResult) :=
  match t_read t with
  | ReadTimeout => ([], inl st)
  | ReadError err => ([], inr (Err (E_Cause err ["punch read"])))
  | ReadFrom data addr =>
      let peerAddr := unmapPort addr in
      if negb (ap_IsValid peerAddr) then ([], inl st)
      else
        match DecodePunchPacket Sum256 (take bufferSize data) metadata with
        | Ok packetType =>
            if bool_decide (packetType = PunchAck) then ([], inr (Ok (mkPunchResult peerAddr packetType)))
            else
              let st := if bool_decide (peerAddr ∈ candidates st) then st
                        else {| st with candidates := candidates st ++ [peerAddr] |} in
              let sent := sendPunchPacket (t_random t 0%nat) peerAddr PunchHello metadata
                          ++ sendPunchPacket (t_random t 1%nat) peerAddr PunchAck metadata in
              let st := match confirmDeadline st with
                        | None => {| st with confirmDeadline := Some (t_after t + punchConfirmWindow) |}
                        | Some _ => st
                        end in
              (sent, inl st)
        | _ => ([], inl st)
        end
  end.

Definition clientTurn (metadata : PunchMetadata) (st : ClientState) (t : turn)
    : list datagram * (ClientState + result PunchResult) :=
  match t_ctxErr t with
  | Some err => ([], inr (Err (E_Cause err ["punch timeout"])))
  | None =>
      if match confirmDeadline st with Some d => d <=? t_now t | None => false end
      then ([], inr (Err (E_New ["punch unconfirmed: received peer hello but no ack within "; "1.5s"])))
      else
        let '(sent, st) :=
          if nextSend st <=? t_now t
          then (sendPunchPackets (fun i => t_random t (2 + i)%nat) (candidates st) PunchHello metadata,
                {| st with nextSend := t_now t + punchInterval |})
          else ([], st) in
        let '(answers, next) := clientRead metadata st t in
        (sent ++ answers, next)
  end.

(** The state in which the loop starts. *)
Definition punchStart (order : list Addr) (peerAddresses : list AddrPort) (now : Z) : ClientState + result PunchResult :=
  let candidates := candidatePunchAddrs order peerAddresses in
  if (length candidates =? 0)%nat then inr (Err (E_New ["no compatible peer addresses"]))
  else inl (mkClientState candidates now None).

(** The loop over some turns: what was sent, and where it stands. *)
Fixpoint clientLoop (metadata : PunchMetadata) (st : ClientState) (turns : list turn)
    : list datagram * (ClientState + result PunchResult) :=
  match turns with
  | [] => ([], inl st)
  | t :: turns =>
      let '(sent, next) := clientTurn metadata st t in
      match next with
      | inl st => let '(more, next) := clientLoop metadata st turns in (sent ++ more, next)
      | inr out => (sent, inr out)
      end
  end.

Definition Punch (metadata : PunchMetadata) (order : list Addr) (peerAddresses : list AddrPort) (now : Z) (turns : list turn)
    : list datagram * (ClientState + result PunchResult) :=
  match punchStart order peerAddresses now with
  | inl st => clientLoop metadata st turns
  | inr out => ([], inr out)
  end.

(** ** The socket of the node *)

Record PunchPacketEvent : Type := mkPunchPacketEvent { AttemptID : string; From : AddrPort; ev_Type : byte }.

(** Channels of [watch] are numbered; [closed] are the closed ones. *)
Record PunchPacketConn : Type := mkPunchPacketConn {
  attempts : gmap string PunchMetadata;
  events : list PunchPacketEvent;
  stunEvents : list (Stun.Message * AddrPort);
  watch : gmap AddrPort nat;
  closed : gset nat;
  nextChannel : nat;
}.

(** [select { case ch <- x: default: }] on a channel with a buffer. *)
Definition offer {A} (x : A) (ch : list A) : list A :=
  if (length ch <? eventBufferSize)%nat then ch ++ [x] else ch.

Definition NewPunchPacketConn : PunchPacketConn := mkPunchPacketConn ∅ [] [] ∅ ∅ 0.

(** The new channel, and the connection. *)
Definition WatchPeerTraffic (c : PunchPacketConn) (peer : AddrPort) : nat * PunchPacketConn :=
  (nextChannel c, {| c with watch := <[peer := nextChannel c]> (watch c); nextChannel := S (nextChannel c) |}).
Definition UnwatchPeerTraffic (c : PunchPacketConn) (peer : AddrPort) : PunchPacketConn :=
  {| c with watch := delete peer (watch c) |}.
Definition notifyPeerTraffic (c : PunchPacketConn) (from : AddrPort) : PunchPacketConn :=
  match watch c !! from with
  | Some ch => {| c with watch := delete from (watch c); closed := {[ch]} ∪ closed c |}
  | None => c
  end.
Definition AddAttempt (c : PunchPacketConn) (id : string) (metadata : PunchMetadata) : PunchPacketConn :=
  {| c with attempts := <[id := metadata]> (attempts c) |}.
Definition RemoveAttempt (c : PunchPacketConn) (id : string) : PunchPacketConn :=
  {| c with attempts := delete id (attempts c) |}.

(** The first attempt, in the order of the iteration, that the packet belongs to. *)
Fixpoint matchAttempt (order : list string) (attempts : gmap string PunchMetadata) (data : list byte) : option (string * byte) :=
  match order with
  | [] => None
  | id :: order =>
      match attempts !! id with
      | Some metadata =>
          match DecodePunchPacket Sum256 data metadata with
          | Ok packetType => Some (id, packetType)
          | _ => matchAttempt order attempts data
          end
      | None => matchAttempt order attempts data
      end
  end.

(** An iteration of [ReadFrom] on a datagram: whether the reader gets it. *)
Definition demux (order : list string) (c : PunchPacketConn) (data : list byte) (addr : AddrPort) : bool * PunchPacketConn :=
  let from := unmapPort addr in
  if Stun.IsMessage data then
    match Stun.Decode data with
    | Ok message =>
        (false, if ap_IsValid from then {| c with stunEvents := offer (message, from) (stunEvents c) |} else c)
    | _ => (false, c)
    end
  else if decide (attempts c = ∅) then
    (true, if ap_IsValid from then notifyPeerTraffic c from else c)
  else
    match matchAttempt order (attempts c) data with
    | Some (id, packetType) =>
        (false, if ap_IsValid from then {| c with events := offer (mkPunchPacketEvent id from packetType) (events c) |} else c)
    | None => (true, if ap_IsValid from then notifyPeerTraffic c from else c)
    end.

(** ** The node *)

(** Where [Respond] waits: for an event, or in [confirmRoundTrip] for evidence. *)
Inductive phase : Type :=
| Waiting
| Confirming (peer : AddrPort) (packetType : byte) (trafficCh : nat).

Record attempt : Type := mkAttempt {
  a_metadata : PunchMetadata;
  a_candidates : list AddrPort;
  a_passiveOnly : bool;
  a_phase : phase;
}.

(** The socket, the channels of the attempts, the calls of [Respond] that run and the
    results of those that returned. *)
Record ServerPuncher : Type := mkServerPuncher {
  conn : PunchPacketConn;
  channels : gmap string (list PunchPacketEvent);
  running : gmap string attempt;
  returned : gmap string (result PunchResult);
}.

Definition NewServerPuncher : ServerPuncher := mkServerPuncher NewPunchPacketConn ∅ ∅ ∅.

(** [dispatch] on the next event. *)
Definition dispatch (p : ServerPuncher) : option ServerPuncher :=
  match events (conn p) with
  | [] => None
  | event :: rest =>
      let c := conn p in
      let p := {| p with conn := {| c with events := rest |} |} in
      match channels p !! AttemptID event with
      | Some ch => Some {| p with channels := <[AttemptID event := offer event ch]> (channels p) |}
      | None => Some p
      end
  end.

(** The hellos of an attempt that is not passive. *)
Definition hellos (random : nat -> result (list byte)) (a : attempt) : list datagram :=
  if a_passiveOnly a then [] else sendPunchPackets random (a_candidates a) PunchHello (a_metadata a).

(** The return of [Respond], with its deferred calls. *)
Definition return_ (p : ServerPuncher) (id : string) (out : result PunchResult) : ServerPuncher :=
  mkServerPuncher (RemoveAttempt (conn p) id) (delete id (channels p)) (delete id (running p)) (<[id := out]> (returned p)).

(** The start of a call of [Respond]. *)
Definition respondStart (p : ServerPuncher) (random : nat -> result (list byte)) (id : string) (order : list Addr)
    (peerAddresses : list AddrPort) (metadata : PunchMetadata) (passiveOnly : bool) : list datagram * ServerPuncher :=
  let candidates := candidatePunchAddrs order peerAddresses in
  if negb passiveOnly && (length candidates =? 0)%nat
  then ([], {| p with returned := <[id := Err (E_New ["no compatible peer addresses"])]> (returned p) |})
  else
    let a := mkAttempt metadata candidates passiveOnly Waiting in
    let c := AddAttempt (conn p) id metadata in
    (hellos random a, {| p with conn := c; channels := <[id := []]> (channels p); running := <[id := a]> (running p) |}).

(** [case event := <-eventCh] of [Respond] and of [confirmRoundTrip]. *)
Definition onEvent (p : ServerPuncher) (random : nat -> result (list byte)) (id : string) (a : attempt) (event : PunchPacketEvent)
    : list datagram * ServerPuncher :=
  match a_phase a with
  | Waiting =>
      if bool_decide (ev_Type event = PunchAck) then ([], return_ p id (Ok (mkPunchResult (From event) (ev_Type event))))
      else
        let '(trafficCh, c) := WatchPeerTraffic (conn p) (From event) in
        (sendPunchPacket (random 0%nat) (From event) PunchAck (a_metadata a),
         {| p with conn := c; running := <[id := {| a with a_phase := Confirming (From event) (ev_Type event) trafficCh |}]> (running p) |})
  | Confirming peer packetType _ =>
      if bool_decide (ev_Type event = PunchAck) then
        let c := UnwatchPeerTraffic (conn p) peer in
        ([], return_ {| p with conn := c |} id (Ok (mkPunchResult peer packetType)))
      else if bool_decide (ev_Type event = PunchHello) then
        (sendPunchPacket (random 0%nat) (From event) PunchAck (a_metadata a), p)
      else ([], p)
  end.

(** A confirmation that failed: back to the loop of [Respond]. *)
Definition unconfirmed (p : ServerPuncher) (id : string) (a : attempt) (peer : AddrPort) : ServerPuncher :=
  let c := UnwatchPeerTraffic (conn p) peer in
  {| p with conn := c; running := <[id := {| a with a_phase := Waiting |}]> (running p) |}.

Inductive move : Type :=
| Receive (order : list string) (data : list byte) (addr : AddrPort)
| Dispatch
| Start (id : string) (order : list Addr) (peerAddresses : list AddrPort) (metadata : PunchMetadata) (passiveOnly : bool)
| TakeEvent (id : string)
| Tick (id : string)
| Traffic (id : string)
| ConfirmTimeout (id : string)
| ContextDone (id : string) (err : error).

(** A step of the node: what it sends, what its QUIC server receives, and its state;
    [None] when the step is not possible.  The iteration over the attempts visits all
    of them, and attempts have identifiers of their own. *)
Definition step (random : nat -> result (list byte)) (p : ServerPuncher) (m : move)
    : option (list datagram * list datagram * ServerPuncher) :=
  match m with
  | Receive order data addr =>
      if decide (dom (attempts (conn p)) ⊆ list_to_set order) then
        let '(read, c) := demux order (conn p) data addr in
        Some ([], if read then [(addr, data)] else [], {| p with conn := c |})
      else None
  | Dispatch => p ← dispatch p; Some ([], [], p)
  | Start id order peerAddresses metadata passiveOnly =>
      if decide (is_Some (running p !! id) \/ is_Some (returned p !! id)) then None
      else
        let '(sent, p) := respondStart p random id order peerAddresses metadata passiveOnly in
        Some (sent, [], p)
  | TakeEvent id =>
      a ← running p !! id; ch ← channels p !! id;
      match ch with
      | [] => None
      | event :: rest =>
          let p := {| p with channels := <[id := rest]> (channels p) |} in
          let '(sent, p) := onEvent p random id a event in
          Some (sent, [], p)
      end
  | Tick id => a ← running p !! id; Some (hellos random a, [], p)
  | Traffic id =>
      a ← running p !! id;
      match a_phase a with
      | Confirming peer packetType ch =>
          if decide (ch ∈ closed (conn p)) then
            let c := UnwatchPeerTraffic (conn p) peer in
            Some ([], [], return_ {| p with conn := c |} id (Ok (mkPunchResult peer packetType)))
          else None
      | Waiting => None
      end
  | ConfirmTimeout id =>
      a ← running p !! id;
      match a_phase a with
      | Confirming peer _ _ => Some ([], [], unconfirmed p id a peer)
      | Waiting => None
      end
  | ContextDone id err =>
      a ← running p !! id;
      match a_phase a with
      | Confirming peer _ _ => Some ([], [], unconfirmed p id a peer)
      | Waiting => Some ([], [], return_ p id (Err (E_Cause err ["punch respond timeout"])))
      end
  end.

End Punch.

End RealmPunch.
