(* ===== verification/RealmPunchTheorems.v ===== *)
(** * No false success of a punch

    A client and a node that punch with the same metadata, over a network that drops,
    repeats and reorders datagrams, rewrites addresses and carries other traffic.  The
    client reports no success before datagrams have passed in both directions; the node
    reports none before that either, unless a datagram that is no packet of the attempt
    came to it from the very address it was confirming. *)

From S2P Require Import Prelude GoStd Metadata Binary Datagram RealmPacket RealmStun RealmCandidates RealmPunch.
From Stdlib Require Import Strings.Byte.
From stdpp Require Import list.
Import netip RealmPacket RealmCandidates RealmPunch.

Section System.
Context `{E : Externals}.
Variable Sum256 : list byte -> list byte.
(** The attempt, its metadata, and the addresses the client's datagrams reach the node
    from. *)
Variable id0 : string.
Variable md : PunchMetadata.
Variable clientAddrs : gset AddrPort.

#[local] Abbreviation Decode d := (DecodePunchPacket Sum256 d md).

(** Bytes that are no packet of this attempt. *)
Definition foreign (data : list byte) : Prop := forall packetType, Decode data <> Ok packetType.

Definition wf_random (random : nat -> result (list byte)) : Prop :=
  forall i r, random i = Ok r -> length r = (saltLength + 2 + maxPadding)%nat.

(** The node, the client, what each of them has sent for the attempt, what of it has
    reached the other, and the strays: datagrams that neither the client has sent nor are
    packets of the attempt, and that reached the node from the address it was confirming. *)
Record World : Type := mkWorld {
  node : ServerPuncher;
  client : ClientState + result PunchResult;
  nodeSent : list (list byte);
  clientSent : list (list byte);
  nodeGot : list (list byte);
  clientGot : list (list byte);
  strays : list (AddrPort * list byte);
}.

(** Whether the attempt waits for evidence from an address. *)
Definition confirms (p : ServerPuncher) (from : AddrPort) : bool :=
  match running p !! id0 with
  | Some a => match a_phase a with Confirming peer _ _ => bool_decide (peer = from) | Waiting => false end
  | None => false
  end.

Definition attemptOf (m : move) : option string :=
  match m with
  | Start id _ _ _ _ | TakeEvent id | Tick id | Traffic id | ConfirmTimeout id | ContextDone id _ => Some id
  | Receive _ _ _ | Dispatch => None
  end.

(** What the socket of the client can return: a datagram of the node or foreign bytes. *)
Inductive clientReads (w : World) : ReadResult -> list (list byte) -> Prop :=
| ReadsNode data addr : data ∈ nodeSent w -> clientReads w (ReadFrom data addr) [data]
| ReadsForeign data addr : foreign (take bufferSize data) -> clientReads w (ReadFrom data addr) []
| ReadsTimeout : clientReads w ReadTimeout []
| ReadsError err : clientReads w (ReadError err) [].

(** What can reach the node: a datagram of the client, from one of its addresses, or
    foreign bytes, from any address, those of the client included. *)
Inductive nodeReads (w : World) : move -> list (list byte) -> list (AddrPort * list byte) -> Prop :=
| ReceivesClient order data addr :
    data ∈ clientSent w -> unmapPort addr ∈ clientAddrs -> nodeReads w (Receive order data addr) [data] []
| ReceivesForeign order data addr :
    foreign data ->
    nodeReads w (Receive order data addr) [] (if confirms (node w) (unmapPort addr) then [(unmapPort addr, data)] else [])
| StartsAttempt order peers passiveOnly : nodeReads w (Start id0 order peers md passiveOnly) [] []
| StartsOther id order peers metadata passiveOnly : id <> id0 -> nodeReads w (Start id order peers metadata passiveOnly) [] []
| MovesOther m : match m with Receive _ _ _ | Start _ _ _ _ _ => False | _ => True end -> nodeReads w m [] [].

Inductive wstep : World -> World -> Prop :=
| ClientMoves w st t got sent next :
    client w = inl st -> clientReads w (t_read t) got -> wf_random (t_random t) ->
    clientTurn Sum256 md st t = (sent, next) ->
    wstep w (mkWorld (node w) next (nodeSent w) (clientSent w ++ sent.*2) (nodeGot w) (clientGot w ++ got) (strays w))
| ClientSends w r data :
    client w = inr (Ok r) -> foreign data ->
    wstep w (mkWorld (node w) (client w) (nodeSent w) (clientSent w ++ [data]) (nodeGot w) (clientGot w) (strays w))
| NodeMoves w m random got stray sent read node' :
    nodeReads w m got stray -> wf_random random ->
    step Sum256 random (node w) m = Some (sent, read, node') ->
    wstep w (mkWorld node' (client w) (nodeSent w ++ if decide (attemptOf m = Some id0) then sent.*2 else [])
               (clientSent w) (nodeGot w ++ got) (clientGot w) (strays w ++ stray)).

(** Both sides before the attempt: the node runs no attempt of this name. *)
Definition initial (w : World) : Prop :=
  (exists order peers now, client w = punchStart order peers now) /\
  node w = NewServerPuncher /\
  nodeSent w = [] /\ clientSent w = [] /\ nodeGot w = [] /\ clientGot w = [] /\ strays w = [].

Inductive reachable : World -> Prop :=
| ReachInitial w : initial w -> reachable w
| ReachStep w w' : reachable w -> wstep w w' -> reachable w'.

(** ** The invariant

    [ng] and [cg]: a packet has reached the node, and the client; [st]: a stray has come
    from an address. *)

Definition eventOk (ng cg : Prop) (event : PunchPacketEvent) : Prop :=
  AttemptID event = id0 -> ng /\ From event ∈ clientAddrs /\ (ev_Type event = PunchAck -> cg).

Definition phaseOk (ng cg : Prop) (st : AddrPort -> Prop) (c : PunchPacketConn) (ph : phase) : Prop :=
  match ph with
  | Waiting => True
  | Confirming peer _ ch =>
      ng /\ peer ∈ clientAddrs /\ (ch < nextChannel c)%nat /\
      (forall a, watch c !! a = Some ch -> a = peer) /\ (ch ∈ closed c -> cg \/ st peer)
  end.

Definition fresh (c : PunchPacketConn) : Prop :=
  (forall a ch, watch c !! a = Some ch -> (ch < nextChannel c)%nat) /\ (forall ch, ch ∈ closed c -> (ch < nextChannel c)%nat).

Record NodeInv (ng cg : Prop) (st : AddrPort -> Prop) (p : ServerPuncher) : Prop := {
  inv_events : forall event, event ∈ events (conn p) -> eventOk ng cg event;
  inv_channel : forall ch event, channels p !! id0 = Some ch -> event ∈ ch -> AttemptID event = id0 /\ eventOk ng cg event;
  inv_running : forall a, running p !! id0 = Some a ->
    a_metadata a = md /\ attempts (conn p) !! id0 = Some md /\ phaseOk ng cg st (conn p) (a_phase a);
  inv_attempts : forall m, attempts (conn p) !! id0 = Some m -> m = md;
  inv_returned : forall r, returned p !! id0 = Some (Ok r) -> ng /\ (cg \/ st (PeerAddr r)) /\ PeerAddr r ∈ clientAddrs;
  inv_fresh : fresh (conn p);
}.

Definition strayFrom (strays : list (AddrPort * list byte)) (from : AddrPort) : Prop := exists data, (from, data) ∈ strays.

Record Inv (w : World) : Prop := {
  inv_nodeSent : forall d, d ∈ nodeSent w -> Decode d = Ok PunchHello \/ Decode d = Ok PunchAck /\ nodeGot w <> [];
  inv_clientSent : forall d, d ∈ clientSent w ->
    Decode d = Ok PunchHello \/ (Decode d = Ok PunchAck \/ foreign d) /\ clientGot w <> [];
  inv_client : forall r, client w = inr (Ok r) -> nodeGot w <> [] /\ exists d, d ∈ clientGot w /\ Decode d = Ok PunchAck;
  inv_node : NodeInv (nodeGot w <> []) (clientGot w <> []) (strayFrom (strays w)) (node w);
}.

Lemma initial_Inv w : initial w -> Inv w.
Proof.
  intros ((order & peers & now & Hc) & Hn & Hns & Hcs & _). split; rewrite ?Hns, ?Hcs, ?Hn; simpl; try set_solver.
  - intros r. rewrite Hc. unfold punchStart. by destruct (_ =? 0)%nat.
  - split; simpl; try set_solver. split; set_solver.
Qed.

Lemma NodeInv_mono (ng cg ng' cg' : Prop) (st st' : AddrPort -> Prop) p :
  (ng -> ng') -> (cg -> cg') -> (forall a, st a -> st' a) -> NodeInv ng cg st p -> NodeInv ng' cg' st' p.
Proof.
  intros Hn Hc Hs [He Hch Hr Ha Hret Hf].
  assert (forall event, eventOk ng cg event -> eventOk ng' cg' event) as Hev.
  { intros event H Hid. destruct (H Hid) as (? & ? & ?). auto. }
  split; [auto| | |done| |done].
  - intros ch event H1 H2. destruct (Hch ch event H1 H2). split; [done|]. by apply Hev.
  - intros a Hrun. destruct (Hr a Hrun) as (? & ? & Hp). split; [done|]. split; [done|]. unfold phaseOk in *.
    destruct (a_phase a); [done|]. destruct Hp as (? & ? & ? & ? & Hcl). repeat split; auto. intros Hin. destruct (Hcl Hin); auto.
  - intros r H. destruct (Hret r H) as (? & [?|?] & ?); auto.
Qed.

(** ** Packets *)

Hypothesis nonce_length : length (Nonce md) = nonceLength.

Lemma sent_decodes random i address packetType d :
  wf_random random -> packetType = PunchHello \/ packetType = PunchAck ->
  d ∈ (sendPunchPacket Sum256 (random i) address packetType md).*2 -> Decode d = Ok packetType.
Proof.
  intros Hw Ht. unfold sendPunchPacket. destruct (EncodePunchPacket _ _ _ _) as [packet| |] eqn:He; [|set_solver|set_solver].
  intros Hd. assert (d = packet) as -> by set_solver.
  destruct (random i) as [r|e|msg] eqn:Hr; [|done|done]. eapply Decode_Encode; [done|done|by eapply Hw|done].
Qed.

Lemma hellos_decode random addresses d :
  wf_random random -> d ∈ (sendPunchPackets Sum256 random addresses PunchHello md).*2 -> Decode d = Ok PunchHello.
Proof.
  intros Hw. unfold sendPunchPackets. intros ([address d'] & -> & Hd)%list_elem_of_fmap.
  apply list_elem_of_In, in_concat in Hd as (l & Hl & Hd). apply list_elem_of_In, elem_of_lookup_imap in Hl as (i & a & -> & _).
  apply list_elem_of_In in Hd.
  eapply (sent_decodes random i a); [done|by left|]. apply list_elem_of_fmap. by exists (address, d').
Qed.

Lemma Decode_short d packetType : Decode d = Ok packetType -> take bufferSize d = d.
Proof.
  intros Hd. apply take_ge. revert Hd. unfold DecodePunchPacket, bufferSize. destruct (_ <? _)%nat; [done|].
  destruct (_ <? length d)%nat eqn:Hl; [done|]. intros _. by apply Nat.ltb_ge in Hl.
Qed.

Lemma Decode_types d packetType : Decode d = Ok packetType -> packetType = PunchHello \/ packetType = PunchAck.
Proof. intros Hd. by apply Decode_inv in Hd as [? _]. Qed.

(** What a turn of the client sends and returns. *)
Lemma clientTurn_spec st t sent next :
  wf_random (t_random t) -> clientTurn Sum256 md st t = (sent, next) ->
  (forall d, d ∈ sent.*2 -> Decode d = Ok PunchHello \/ Decode d = Ok PunchAck /\
     exists data addr packetType, t_read t = ReadFrom data addr /\ Decode (take bufferSize data) = Ok packetType) /\
  (forall r, next = inr (Ok r) -> exists data addr, t_read t = ReadFrom data addr /\ Decode (take bufferSize data) = Ok PunchAck).
Proof.
  intros Hw. unfold clientTurn. destruct (t_ctxErr t); [intros [= <- <-]; split; [set_solver|done]|].
  case_bool; [intros [= <- <-]; split; [set_solver|done]|].
  set (first := if (nextSend st <=? t_now t)%Z then _ else _).
  assert (forall d, d ∈ first.1.*2 -> Decode d = Ok PunchHello) as Hfirst.
  { unfold first. destruct (_ <=? _)%Z; [|set_solver]. intros d. apply hellos_decode. intros i. apply Hw. }
  destruct first as [hs st']. destruct (clientRead Sum256 md st' t) as [answers next'] eqn:Hr. intros [= <- <-]. simpl in Hfirst.
  enough ((forall d, d ∈ answers.*2 -> Decode d = Ok PunchHello \/ Decode d = Ok PunchAck /\
     exists data addr packetType, t_read t = ReadFrom data addr /\ Decode (take bufferSize data) = Ok packetType) /\
    (forall r, next' = inr (Ok r) -> exists data addr, t_read t = ReadFrom data addr /\ Decode (take bufferSize data) = Ok PunchAck))
    as [H1 H2].
  { split; [|done]. intros d. rewrite fmap_app, elem_of_app. intros [?|?]; auto. }
  revert Hr. unfold clientRead. destruct (t_read t) as [|err|data addr]; [by intros [= <- <-]; split; set_solver..|].
  destruct (negb _); [intros [= <- <-]; split; [set_solver|done]|].
  destruct (DecodePunchPacket _ _ _) as [packetType| |] eqn:Hd; [|intros [= <- <-]; split; [set_solver|done]..].
  case_bool_decide as Ha.
  { intros [= <- <-]. split; [set_solver|]. intros r _. exists data, addr. by rewrite <- Ha. }
  intros [= <- <-]. split; [|done]. intros d. rewrite fmap_app, elem_of_app. intros [Hin|Hin].
  - left. eapply sent_decodes; [done|by left|done].
  - right. split; [eapply sent_decodes; [done|by right|done]|]. by exists data, addr, packetType.
Qed.

Lemma snoc_nonempty {A} (l x : list A) : l <> [] -> l ++ x <> [].
Proof. by destruct l. Qed.

Lemma client_Inv w st t got sent next :
  Inv w -> client w = inl st -> clientReads w (t_read t) got -> wf_random (t_random t) ->
  clientTurn Sum256 md st t = (sent, next) ->
  Inv (mkWorld (node w) next (nodeSent w) (clientSent w ++ sent.*2) (nodeGot w) (clientGot w ++ got) (strays w)).
Proof.
  intros [Hns Hcs Hcl Hnode] Hst Hreads Hw Ht. destruct (clientTurn_spec _ _ _ _ Hw Ht) as [Hsent Hret].
  assert (forall data addr packetType, t_read t = ReadFrom data addr -> Decode (take bufferSize data) = Ok packetType ->
    data ∈ nodeSent w /\ got = [data] /\ Decode data = Ok packetType) as Hgot.
  { intros data addr packetType Hread Hd. rewrite Hread in Hreads. inversion Hreads as [? ? Hin|? ? Hf| |]; subst.
    - split; [done|split; [done|]]. destruct (Hns data Hin) as [Hx|[Hx _]]; by rewrite (Decode_short _ _ Hx) in Hd.
    - by destruct (Hf packetType). }
  split; simpl.
  - done.
  - intros d [Hd|Hd]%elem_of_app.
    + destruct (Hcs d Hd) as [?|[? ?]]; [by left|right]. split; [done|by apply snoc_nonempty].
    + destruct (Hsent d Hd) as [?|[? (data & addr & ty & Hread & Hdec)]]; [by left|right]. split; [by left|].
      destruct (Hgot _ _ _ Hread Hdec) as (_ & -> & _). by destruct (clientGot w).
  - intros r Hr. destruct (Hret r Hr) as (data & addr & Hread & Hdec). destruct (Hgot _ _ _ Hread Hdec) as (Hin & -> & Hd).
    split; [|exists data; set_solver]. destruct (Hns data Hin) as [Hx|[_ ?]]; [by rewrite Hx in Hd|done].
  - refine (NodeInv_mono _ _ _ _ _ _ _ _ _ _ Hnode); [done|apply snoc_nonempty|done].
Qed.

(** ** The node *)

Section Node.
Variables ng cg : Prop.
Variable st : AddrPort -> Prop.

(** Changes of the socket that keep what the attempt relies on. *)
Definition keeps (c c' : PunchPacketConn) : Prop :=
  (fresh c -> fresh c') /\ forall ph, fresh c -> phaseOk ng cg st c ph -> phaseOk ng cg st c' ph.

Lemma NodeInv_conn p c' :
  NodeInv ng cg st p -> attempts c' = attempts (conn p) -> (forall event, event ∈ events c' -> eventOk ng cg event) ->
  fresh c' -> (forall a, running p !! id0 = Some a -> phaseOk ng cg st (conn p) (a_phase a) -> phaseOk ng cg st c' (a_phase a)) ->
  NodeInv ng cg st {| p with conn := c' |}.
Proof.
  intros [He Hch Hr Ha Hret Hf] Hat Hev Hf' Hph. split; simpl; [done|done| |by rewrite Hat|done|done].
  intros a Hrun. destruct (Hr a Hrun) as (? & ? & Hp). rewrite Hat. auto.
Qed.

Lemma keeps_watch c peer : keeps c (WatchPeerTraffic c peer).2.
Proof.
  split.
  - intros [Hw Hcl]. split; simpl; [|intros ch H; specialize (Hcl ch H); lia].
    intros a ch. rewrite lookup_insert_Some. intros [[_ <-]|[_ H]]; [lia|]. specialize (Hw a ch H). lia.
  - intros [|peer' ty ch] Hf; [done|]. simpl. intros (? & ? & Hlt & Hu & ?). repeat split; [done|done|lia| |done].
    intros a. rewrite lookup_insert_Some. intros [[_ <-]|[_ Hq]]; [lia|auto].
Qed.

Lemma keeps_unwatch c peer : keeps c (UnwatchPeerTraffic c peer).
Proof.
  split.
  - intros [Hw Hcl]. split; simpl; [|done]. intros a ch. rewrite lookup_delete_Some. intros [_ H]. eauto.
  - intros [|peer' ty ch] Hf; [done|]. simpl. intros (? & ? & ? & Hu & ?). repeat split; [done..| |done].
    intros a. rewrite lookup_delete_Some. intros [_ Hq]. auto.
Qed.

Lemma fresh_notify c from : fresh c -> fresh (notifyPeerTraffic c from).
Proof.
  intros [Hw Hcl]. unfold notifyPeerTraffic. destruct (watch c !! from) as [ch|] eqn:Hc; [|done]. split; simpl.
  - intros a ch'. rewrite lookup_delete_Some. intros [_ H]. eauto.
  - intros ch'. rewrite elem_of_union, elem_of_singleton. intros [->|H]; eauto.
Qed.

Lemma phaseOk_notify c from ph :
  (match ph with Confirming peer _ _ => peer = from | Waiting => False end -> cg \/ st from) -> phaseOk ng cg st c ph -> phaseOk ng cg st (notifyPeerTraffic c from) ph.
Proof.
  intros Hcg. unfold notifyPeerTraffic. destruct (watch c !! from) as [ch|] eqn:Hc; [|done].
  destruct ph as [|peer ty ch']; [done|]. simpl. intros (? & Hpeer & ? & Hu & Hcl). repeat split; [done..| |].
  - intros a. rewrite lookup_delete_Some. intros [_ Hq]. auto.
  - rewrite elem_of_union, elem_of_singleton. intros [->|Hq]; [|auto]. rewrite <- (Hu _ Hc). apply Hcg. symmetry. by apply Hu.
Qed.

Lemma elem_of_offer {A} (x y : A) ch : y ∈ offer x ch -> y = x \/ y ∈ ch.
Proof. unfold offer. destruct (_ <? _)%nat; set_solver. Qed.

Lemma matchAttempt_Some order atts data id ty :
  matchAttempt Sum256 order atts data = Some (id, ty) ->
  exists m, atts !! id = Some m /\ DecodePunchPacket Sum256 data m = Ok ty.
Proof.
  induction order as [|i order IH]; simpl; [done|]. destruct (atts !! i) as [m|] eqn:Hm; [|done].
  destruct (DecodePunchPacket _ _ _) eqn:Hd; [|exact IH|exact IH]. intros [= <- <-]. eauto.
Qed.

Lemma matchAttempt_None order atts data id m ty :
  matchAttempt Sum256 order atts data = None -> id ∈ order -> atts !! id = Some m -> DecodePunchPacket Sum256 data m <> Ok ty.
Proof.
  induction order as [|i order IH]; simpl; [set_solver|]. intros Hn [->|Hin]%elem_of_cons Hm.
  - rewrite Hm in Hn. revert Hn. by destruct (DecodePunchPacket _ _ _).
  - apply IH; [|done|done]. revert Hn. destruct (atts !! i) as [m'|]; [|done]. by destruct (DecodePunchPacket Sum256 data m').
Qed.

(** What is known of a datagram that reaches the node. *)
Definition received (p : ServerPuncher) (data : list byte) (from : AddrPort) : Prop :=
  (forall ty, Decode data = Ok ty -> ng /\ from ∈ clientAddrs /\ (ty = PunchAck -> cg)) /\
  (foreign data -> confirms p from = true -> cg \/ st from).

Lemma demux_Inv order p data addr read c :
  NodeInv ng cg st p -> dom (attempts (conn p)) ⊆ list_to_set order -> received p data (unmapPort addr) ->
  demux Sum256 order (conn p) data addr = (read, c) -> NodeInv ng cg st {| p with conn := c |}.
Proof.
  intros HI Hdom [Hdec Hfor]. pose proof HI as [He Hch Hr Ha Hret Hf]. unfold demux.
  assert (forall c, attempts c = attempts (conn p) -> events c = events (conn p) ->
    fresh c -> (forall a, running p !! id0 = Some a -> phaseOk ng cg st (conn p) (a_phase a) -> phaseOk ng cg st c (a_phase a)) ->
    NodeInv ng cg st {| p with conn := c |}) as Hsame.
  { intros c' H1 H2 H3 H4. apply NodeInv_conn; [done|done| |done|done]. by rewrite H2. }
  assert (NodeInv ng cg st {| p with conn := conn p |}) as Hid by (by apply Hsame).
  assert ((forall a, running p !! id0 = Some a -> foreign data) ->
    NodeInv ng cg st {| p with conn := notifyPeerTraffic (conn p) (unmapPort addr) |}) as Hnotify.
  { intros Hrun. apply Hsame; [unfold notifyPeerTraffic; by destruct (watch _ !! _)..|by apply fresh_notify|].
    intros a Hra. apply phaseOk_notify. intros Hph. apply Hfor; [by apply (Hrun a)|]. unfold confirms. rewrite Hra.
    destruct (a_phase a); [done|]. by apply bool_decide_eq_true. }
  destruct (Stun.IsMessage data).
  { destruct (Stun.Decode data); [|by intros [= _ <-]..]. intros [= _ <-]. destruct (ap_IsValid _); [|done]. by apply Hsame. }
  destruct (decide _) as [Hempty|Hne].
  { intros [= _ <-]. destruct (ap_IsValid _); [|done]. apply Hnotify. intros a Hra.
    destruct (Hr a Hra) as (_ & H & _). rewrite Hempty in H. by rewrite lookup_empty in H. }
  destruct (matchAttempt _ _ _ _) as [[id ty]|] eqn:Hm; intros [= _ <-]; (destruct (ap_IsValid _); [|done]).
  - apply matchAttempt_Some in Hm as (m & Hm & Hd). apply NodeInv_conn; [done|done| |done|done].
    simpl. intros event [->|Hin]%elem_of_offer; [|auto]. intros Hid'. simpl in *. subst id.
    rewrite (Ha m Hm) in Hd. by apply Hdec.
  - apply Hnotify. intros a Hra ty. destruct (Hr a Hra) as (_ & H & _).
    eapply matchAttempt_None; [exact Hm| |exact H]. assert (id0 ∈ dom (attempts (conn p))) by (by apply elem_of_dom). set_solver.
Qed.

Lemma return_Inv p id out :
  NodeInv ng cg st p -> (forall r, id = id0 -> out = Ok r -> ng /\ (cg \/ st (PeerAddr r)) /\ PeerAddr r ∈ clientAddrs) ->
  NodeInv ng cg st (return_ p id out).
Proof.
  intros [He Hch Hr Ha Hret Hf] Hout. split; simpl; [done| | | | |done].
  - intros ch event [_ H]%lookup_delete_Some. eauto.
  - intros a [Hne H]%lookup_delete_Some. destruct (Hr a H) as (? & ? & ?). rewrite lookup_delete_ne by done. auto.
  - intros m [_ H]%lookup_delete_Some. auto.
  - intros r [[<- ->]|[_ H]]%lookup_insert_Some; eauto.
Qed.

Lemma keeps_Inv p c :
  NodeInv ng cg st p -> keeps (conn p) c -> attempts c = attempts (conn p) -> events c = events (conn p) ->
  NodeInv ng cg st {| p with conn := c |}.
Proof.
  intros HI [Hk1 Hk2] Ha He. pose proof (inv_fresh _ _ _ _ HI) as Hf. apply NodeInv_conn; [done|done| |auto|eauto].
  rewrite He. apply HI.
Qed.

(** A new state of a running attempt. *)
Lemma running_Inv p id a a' :
  NodeInv ng cg st p -> running p !! id = Some a -> a_metadata a' = a_metadata a ->
  (id = id0 -> phaseOk ng cg st (conn p) (a_phase a')) ->
  NodeInv ng cg st {| p with running := <[id := a']> (running p) |}.
Proof.
  intros [He Hch Hr Ha Hret Hf] Hrun Hm Hp. split; simpl; [done|done| |done|done|done].
  intros b [[-> ->]|[_ H]]%lookup_insert_Some; [|auto]. destruct (Hr a Hrun) as (? & ? & _). rewrite Hm. auto.
Qed.

Lemma take_Inv p id event rest :
  NodeInv ng cg st p -> channels p !! id = Some (event :: rest) ->
  NodeInv ng cg st {| p with channels := <[id := rest]> (channels p) |}.
Proof.
  intros [He Hch Hr Ha Hret Hf] Hc. split; simpl; [done| |done|done|done|done].
  intros ch ev [[-> <-]|[_ H]]%lookup_insert_Some Hin; [|eauto]. eapply Hch; [done|by right].
Qed.

(** What the attempt sends. *)
Definition sendsOk (sent : list (AddrPort * list byte)) : Prop :=
  forall d, d ∈ sent.*2 -> Decode d = Ok PunchHello \/ Decode d = Ok PunchAck /\ ng.

Lemma sendsOk_nil : sendsOk [].
Proof. by intros d ?%not_elem_of_nil. Qed.

Lemma hellos_Ok random p a : wf_random random -> NodeInv ng cg st p -> running p !! id0 = Some a -> sendsOk (hellos Sum256 random a).
Proof.
  intros Hw HI Hr d. destruct (inv_running _ _ _ _ HI a Hr) as (Hm & _). unfold hellos. rewrite Hm.
  destruct (a_passiveOnly a); [set_solver|]. intros Hd. left. by eapply hellos_decode.
Qed.

Lemma ack_Ok random i peer : wf_random random -> ng -> sendsOk (sendPunchPacket Sum256 (random i) peer PunchAck md).
Proof. intros Hw Hn d Hd. right. split; [|done]. eapply sent_decodes; [done|by right|done]. Qed.

Lemma onEvent_Inv random p id a event sent p' :
  wf_random random -> NodeInv ng cg st p -> running p !! id = Some a ->
  (id = id0 -> AttemptID event = id0 /\ eventOk ng cg event) ->
  onEvent Sum256 p random id a event = (sent, p') -> NodeInv ng cg st p' /\ (id = id0 -> sendsOk sent).
Proof.
  intros Hw HI Hrun Hev. unfold onEvent.
  assert (id = id0 -> ng /\ From event ∈ clientAddrs /\ (ev_Type event = PunchAck -> cg) /\ a_metadata a = md /\ phaseOk ng cg st (conn p) (a_phase a)) as Hid.
  { intros Hid. destruct (Hev Hid) as [Hname Hok]. destruct (Hok Hname) as (? & ? & ?). rewrite Hid in Hrun.
    destruct (inv_running _ _ _ _ HI a Hrun) as (? & _ & ?). done. }
  clear Hev. destruct (a_phase a) as [|peer ty ch] eqn:Hphase.
  - case_bool_decide as Hack.
    + intros [= <- <-]. split; [|intros _; apply sendsOk_nil]. apply return_Inv; [done|]. intros r Hi [= <-]. destruct (Hid Hi) as (? & ? & ? & _). auto.
    + destruct (WatchPeerTraffic (conn p) (From event)) as [trafficCh c] eqn:Hwatch. intros [= <- <-].
      pose proof (keeps_watch (conn p) (From event)) as Hkeep. rewrite Hwatch in Hkeep. simpl in Hkeep.
      assert (NodeInv ng cg st {| p with conn := c |}) as HI'.
      { apply keeps_Inv; [done|done|..]; by injection Hwatch as _ <-. }
      split; [|intros Hi; destruct (Hid Hi) as (? & _ & _ & -> & _); by apply ack_Ok].
      refine (running_Inv {| p with conn := c |} id a _ HI' Hrun _ _); [done|]. simpl. intros Hi. destruct (Hid Hi) as (? & ? & _).
      injection Hwatch as <- <-. simpl. pose proof (inv_fresh _ _ _ _ HI) as [Hf1 Hf2]. repeat split; [done|done|lia| |].
      * intros x [[-> _]|[_ Hx]]%lookup_insert_Some; [done|]. specialize (Hf1 _ _ Hx). lia.
      * intros Hx. specialize (Hf2 _ Hx). lia.
  - case_bool_decide as Hack; [|case_bool_decide as Hhello].
    + intros [= <- <-]. split; [|intros _; apply sendsOk_nil]. apply return_Inv.
      * apply keeps_Inv; [done|apply keeps_unwatch|done|done].
      * intros r Hi [= <-]. destruct (Hid Hi) as (? & _ & Hcg & _ & Hp). simpl in Hp. destruct Hp as (_ & ? & _). auto.
    + intros [= <- <-]. split; [done|]. intros Hi. destruct (Hid Hi) as (? & _ & _ & -> & _). by apply ack_Ok.
    + intros [= <- <-]. split; [done|intros _; apply sendsOk_nil].
Qed.

Lemma start_Inv random p id order peers metadata passiveOnly sent p' :
  wf_random random -> NodeInv ng cg st p -> (id = id0 -> metadata = md) -> running p !! id = None -> returned p !! id = None ->
  respondStart Sum256 p random id order peers metadata passiveOnly = (sent, p') ->
  NodeInv ng cg st p' /\ (id = id0 -> sendsOk sent).
Proof.
  intros Hw [He Hch Hr Ha Hret Hf] Hmd Hrun Hnret. unfold respondStart. destruct (negb passiveOnly && _).
  - intros [= <- <-]. split; [|intros _; apply sendsOk_nil]. split; simpl; [done..| |done].
    intros r [[_ [=]]|[_ H]]%lookup_insert_Some. auto.
  - intros [= <- <-]. split.
    + split; simpl; [done| | | |done|done].
      * intros ch event [[_ <-]|[_ H]]%lookup_insert_Some; [set_solver|eauto].
      * intros a [[-> <-]|[Hne H]]%lookup_insert_Some; simpl.
        -- rewrite Hmd, lookup_insert_eq by done. done.
        -- rewrite lookup_insert_ne by done. auto.
      * intros m [[-> <-]|[_ H]]%lookup_insert_Some; auto.
    + intros Hid d. unfold hellos. simpl. rewrite (Hmd Hid). destruct passiveOnly; [set_solver|].
      intros Hd. left. by eapply hellos_decode.
Qed.

Lemma unconfirmed_Inv p id a peer : NodeInv ng cg st p -> running p !! id = Some a -> NodeInv ng cg st (unconfirmed p id a peer).
Proof.
  intros HI Hr. apply (running_Inv {| p with conn := UnwatchPeerTraffic (conn p) peer |} id a); [|done|done|done].
  apply keeps_Inv; [done|apply keeps_unwatch|done|done].
Qed.

(** What is assumed of a move. *)
Definition moveOk (p : ServerPuncher) (m : move) : Prop :=
  match m with
  | Receive _ data addr => received p data (unmapPort addr)
  | Start id _ _ metadata _ => id = id0 -> metadata = md
  | _ => True
  end.

Lemma step_Inv random p m sent read p' :
  wf_random random -> NodeInv ng cg st p -> moveOk p m -> step Sum256 random p m = Some (sent, read, p') ->
  NodeInv ng cg st p' /\ (attemptOf m = Some id0 -> sendsOk sent).
Proof.
  intros Hw HI Hok. destruct m as [order data addr| |id order peers metadata passiveOnly|id|id|id|id|id err]; cbn [step moveOk attemptOf] in *.
  - destruct (decide _); [|done]. destruct (demux _ _ _ _ _) as [rd c] eqn:Hd. intros [= <- <- <-]. split; [|done].
    by eapply demux_Inv.
  - unfold dispatch. destruct (events (conn p)) as [|event rest] eqn:He; [done|]. cbn [mbind option_bind].
    assert (NodeInv ng cg st (let c := conn p in {| p with conn := {| c with events := rest |} |})) as HI'.
    { apply NodeInv_conn; [done|done| |apply HI|done]. simpl. intros ev Hev. apply HI. rewrite He. by right. }
    simpl. destruct (channels p !! AttemptID event) as [ch|] eqn:Hc; intros [= <- <- <-]; (split; [|done]); [|exact HI'].
    destruct HI' as [He' Hch Hr Ha Hret Hf]. split; simpl in *; [done| |done..].
    intros ch' ev [[<- <-]|[_ H]]%lookup_insert_Some Hin; [|eauto]. apply elem_of_offer in Hin as [->|Hin]; [|eauto].
    split; [done|]. apply (inv_events _ _ _ _ HI). rewrite He. by left.
  - destruct (decide _) as [|Hn]; [done|]. destruct (respondStart _ _ _ _ _ _ _ _) as [hs p1] eqn:Hs. intros [= <- <- <-].
    destruct (start_Inv _ _ _ _ _ _ _ _ _ Hw HI Hok ltac:(apply eq_None_not_Some; tauto) ltac:(apply eq_None_not_Some; tauto) Hs) as [? Hsent].
    split; [done|]. intros [= ->]. auto.
  - destruct (running p !! id) as [a|] eqn:Hr; [|done]. destruct (channels p !! id) as [[|event rest]|] eqn:Hc; [done| |done].
    cbn [mbind option_bind]. destruct (onEvent _ _ _ _ _ _) as [hs p1] eqn:Ho. intros [= <- <- <-].
    destruct (onEvent_Inv _ _ _ _ _ _ _ Hw (take_Inv _ _ _ _ HI Hc) Hr
      ltac:(intros ->; eapply (inv_channel _ _ _ _ HI); [exact Hc|by left]) Ho) as [? Hsent].
    split; [done|]. intros [= ->]. auto.
  - destruct (running p !! id) as [a|] eqn:Hr; [|done]. intros [= <- <- <-]. split; [done|]. intros [= ->]. by eapply hellos_Ok.
  - destruct (running p !! id) as [a|] eqn:Hr; [|done]. cbn [mbind option_bind]. destruct (a_phase a) as [|peer ty ch] eqn:Hp; [done|].
    destruct (decide _) as [Hcl|]; [|done]. intros [= <- <- <-]. split; [|intros _; apply sendsOk_nil].
    apply return_Inv; [apply keeps_Inv; [done|apply keeps_unwatch|done|done]|]. intros r -> [= <-].
    destruct (inv_running _ _ _ _ HI a Hr) as (_ & _ & Hph). rewrite Hp in Hph. destruct Hph as (? & ? & _ & _ & ?). auto.
  - destruct (running p !! id) as [a|] eqn:Hr; [|done]. cbn [mbind option_bind]. destruct (a_phase a) as [|peer ty ch] eqn:Hp; [done|].
    intros [= <- <- <-]. split; [|intros _; apply sendsOk_nil].
    by apply unconfirmed_Inv.
  - destruct (running p !! id) as [a|] eqn:Hr; [|done]. cbn [mbind option_bind]. destruct (a_phase a) as [|peer ty ch] eqn:Hp; intros [= <- <- <-];
      (split; [|intros _; apply sendsOk_nil]).
    + by apply return_Inv.
    + by apply unconfirmed_Inv.
Qed.

End Node.

Lemma wstep_Inv w w' : Inv w -> wstep w w' -> Inv w'.
Proof.
  intros HI Hstep. destruct Hstep as [w st t got sent next Hc Hr Hw Ht|w r data Hc Hf|w m random got stray sent read node' Hreads Hw Hs].
  - by eapply client_Inv.
  - pose proof HI as [Hns Hcs Hcl Hnode]. split; simpl; [done| |done|done]. intros d [?|Hd]%elem_of_app; [auto|].
    apply list_elem_of_singleton in Hd as ->. right. split; [by right|]. destruct (Hcl r Hc) as (_ & x & Hx & _). by destruct (clientGot w); [set_solver|].
  - pose proof HI as [Hns Hcs Hcl Hnode].
    assert (nodeGot w <> [] -> nodeGot w ++ got <> []) as Hmono by apply snoc_nonempty.
    assert (NodeInv (nodeGot w ++ got <> []) (clientGot w <> []) (strayFrom (strays w ++ stray)) (node w)) as Hnode'.
    { refine (NodeInv_mono _ _ _ _ _ _ _ Hmono _ _ Hnode); [done|]. intros a [data Hd]. exists data. set_solver. }
    assert (moveOk (nodeGot w ++ got <> []) (clientGot w <> []) (strayFrom (strays w ++ stray)) (node w) m) as Hok.
    { destruct Hreads as [order data addr Hin Ha|order data addr Hf| | |[] Hm]; simpl; try done.
      - split.
        + intros ty Hd. split; [by destruct (nodeGot w)|]. split; [done|]. intros ->.
          destruct (Hcs data Hin) as [Hx|[_ ?]]; [by rewrite Hx in Hd|done].
        + intros Hf _. left. destruct (Hcs data Hin) as [Hx|[_ ?]]; [by destruct (Hf PunchHello)|done].
      - split; [intros ty Hd; by destruct (Hf ty)|]. intros _ ->. right. exists data. set_solver. }
    destruct (step_Inv _ _ _ _ _ _ _ _ _ Hw Hnode' Hok Hs) as [Hnode'' Hsent]. split; simpl; [|done| |done].
    + intros d [Hd|Hd]%elem_of_app; [destruct (Hns d Hd) as [?|[? ?]]; auto|].
      destruct (decide _) as [Hid|]; [by apply Hsent|set_solver].
    + intros r Hr. destruct (Hcl r Hr) as (? & ?). auto.
Qed.

Lemma reachable_Inv w : reachable w -> Inv w.
Proof. induction 1; [by apply initial_Inv|by eapply wstep_Inv]. Qed.

Lemma reachable_foreign w : reachable w -> forall from data, (from, data) ∈ strays w -> foreign data.
Proof.
  induction 1 as [w Hi|w w' _ IH Hs].
  - destruct Hi as (_ & _ & _ & _ & _ & _ & ->). set_solver.
  - destruct Hs as [| |w m random got stray sent read node' Hreads]; [done|done|]. simpl. intros from data [?|Hd]%elem_of_app; [eauto|].
    destruct Hreads; try (by apply not_elem_of_nil in Hd). destruct (confirms _ _); [|by apply not_elem_of_nil in Hd].
    apply list_elem_of_singleton in Hd as [= _ ->]. done.
Qed.

(** C11: no false success.  Whatever the network drops, repeats, reorders or readdresses,
    whatever other attempts the node runs and whatever bytes that are no packets of this
    attempt reach either side: when the client reports success, it has received an
    acknowledgement of the node, and the node a packet of the client.  When the node
    reports success, a packet of the client has reached it, the address it reports is one
    the client's datagrams came from, and either a packet of the node has reached the
    client, or, while the node was confirming that very address, a datagram that is no
    packet of the attempt reached it from there. *)
Theorem punch_success_is_two_way w :
  reachable w ->
  (forall r, client w = inr (Ok r) -> nodeGot w <> [] /\ exists d, d ∈ clientGot w /\ Decode d = Ok PunchAck) /\
  (forall r, returned (node w) !! id0 = Some (Ok r) ->
     nodeGot w <> [] /\ PeerAddr r ∈ clientAddrs /\
     (clientGot w <> [] \/ exists data, (PeerAddr r, data) ∈ strays w /\ foreign data)).
Proof.
  intros Hw. pose proof (reachable_foreign w Hw) as Hf. apply reachable_Inv in Hw as [_ _ Hc Hn]. split; [done|].
  intros r Hr. destruct (inv_returned _ _ _ _ Hn r Hr) as (? & Hcg & ?). split; [done|]. split; [done|].
  destruct Hcg as [?|[data Hd]]; eauto.
Qed.

End System.
