(* ===== verification/RealmPunchRuns.v ===== *)
(** * Runs of a punch: the loop of the client returns, and concrete runs of the system *)

From S2P Require Import Prelude GoStd Metadata Binary Instances Datagram RealmPacket RealmStun RealmCandidates RealmPunch.
From S2P Require Import RealmPunchTheorems.
From Stdlib Require Import Strings.Byte.
From stdpp Require Import list.
Import netip RealmPacket RealmCandidates RealmPunch.

Open Scope Z_scope.

Section Client.
Context `{E : Externals}.
Variable Sum256 : list byte -> list byte.
Variable md : PunchMetadata.
(** The deadline of the context. *)
Variable D : Z.

(** The state in which a turn reads. *)
Definition afterSend (st : ClientState) (t : turn) : ClientState :=
  if nextSend st <=? t_now t then {| st with nextSend := t_now t + punchInterval |} else st.

(** A run on a clock that does not go back, with a context that ends at [D] and reads
    that time out no earlier than their deadline. *)
Fixpoint honest (st : ClientState) (clock : Z) (turns : list turn) : Prop :=
  match turns with
  | [] => True
  | t :: turns =>
      clock <= t_now t <= t_after t /\ t_deadline t = D /\ (D <= t_now t -> t_ctxErr t <> None) /\
      (t_read t = ReadTimeout -> readDeadline (afterSend st t) D <= t_after t) /\
      match (clientTurn Sum256 md st t).2 with
      | inl st => honest st (t_after t) turns
      | inr _ => True
      end
  end.

Definition timedOut (t : turn) : bool := match t_read t with ReadTimeout => true | _ => false end.
Definition timeouts (turns : list turn) : Z := Z.of_nat (length (List.filter timedOut turns)).

(** Where the loop stands: the last round of packets it has paid for. *)
Definition progress (st : ClientState) (clock : Z) : Z :=
  if nextSend st <=? clock then clock else nextSend st - punchInterval.

(** A turn that does not return. *)
Lemma clientTurn_continues st t st' :
  (clientTurn Sum256 md st t).2 = inl st' ->
  t_ctxErr t = None /\ (forall d, confirmDeadline st = Some d -> t_now t < d) /\
  nextSend st' = nextSend (afterSend st t) /\
  (confirmDeadline st' = confirmDeadline st \/ confirmDeadline st = None /\ confirmDeadline st' = Some (t_after t + punchConfirmWindow)) /\
  (t_read t = ReadTimeout -> st' = afterSend st t).
Proof.
  unfold clientTurn. destruct (t_ctxErr t); [done|]. case_bool; [done|]. intros H. split; [done|]. split.
  { intros d Hd. rewrite Hd in Heqb. by apply Z.leb_gt in Heqb. }
  assert (forall answers next, clientRead Sum256 md (afterSend st t) t = (answers, next) -> next = inl st') as Hr.
  { intros answers next Hr. revert H Hr. unfold afterSend. destruct (nextSend st <=? t_now t); simpl;
      (destruct (clientRead _ _ _ _) as [a n]); by intros Hn [= <- <-]. }
  clear H. assert (confirmDeadline (afterSend st t) = confirmDeadline st) as Hcd by (unfold afterSend; by destruct (_ <=? _)).
  revert Hr. unfold clientRead. destruct (t_read t) as [|err|data addr]; intros Hr.
  - specialize (Hr _ _ eq_refl). injection Hr as <-. auto.
  - by specialize (Hr _ _ eq_refl).
  - split; [|split; [|done]]; revert Hr; (destruct (negb _); [by intros Hr; specialize (Hr _ _ eq_refl); injection Hr as <-; auto|]);
      (destruct (DecodePunchPacket _ _ _); [|by intros Hr; specialize (Hr _ _ eq_refl); injection Hr as <-; auto..]);
      (case_bool_decide; [by intros Hr; specialize (Hr _ _ eq_refl)|]); intros Hr; specialize (Hr _ _ eq_refl); injection Hr as <-.
    + case_bool_decide; simpl; rewrite Hcd; by destruct (confirmDeadline st).
    + case_bool_decide; simpl; rewrite Hcd; destruct (confirmDeadline st); simpl; rewrite ?Hcd; auto.
Qed.

Lemma readDeadline_cases st : readDeadline st D = nextSend st \/ readDeadline st D = D \/ confirmDeadline st = Some (readDeadline st D).
Proof. unfold readDeadline. destruct (confirmDeadline st) as [d|]; repeat case_bool; auto. Qed.

(** A turn leaves the loop no later than it was, and a time-out a round further. *)
Lemma progress_turn st clock t st' turns :
  (clientTurn Sum256 md st t).2 = inl st' -> honest st clock (t :: turns) -> nextSend st <= clock + punchInterval ->
  (t_read t = ReadTimeout -> t_after t < D /\ forall d, confirmDeadline st = Some d -> t_after t < d) ->
  nextSend st' <= t_after t + punchInterval /\
  progress st clock + (if timedOut t then punchInterval else 0) <= progress st' (t_after t).
Proof.
  intros Ht [Hclock (_ & _ & Htime & _)] Hns Hnext. destruct (clientTurn_continues _ _ _ Ht) as (_ & _ & Hs & Hcd & Hst).
  unfold progress, timedOut. rewrite Hs. assert (confirmDeadline (afterSend st t) = confirmDeadline st) as Ha by (unfold afterSend; by case_bool).
  assert (0 < punchInterval) as HI by done.
  assert (t_read t = ReadTimeout -> nextSend (afterSend st t) <= t_after t) as Hdue.
  { intros Hr. specialize (Htime Hr). destruct (Hnext Hr) as [H1 H2].
    destruct (readDeadline_cases (afterSend st t)) as [->|[->|Hd]] in Htime; [done|lia|]. rewrite Ha in Hd. specialize (H2 _ Hd). lia. }
  unfold afterSend in *.
  destruct (nextSend st <=? t_now t) eqn:H1; simpl in *; [apply Z.leb_le in H1|apply Z.leb_gt in H1];
    (destruct (nextSend st <=? clock) eqn:H2; [apply Z.leb_le in H2|apply Z.leb_gt in H2]); (split; [lia|]);
    (destruct (t_read t); [specialize (Hdue eq_refl)|..]); case_bool; rewrite ?Z.leb_le, ?Z.leb_gt in *; lia.
Qed.

Lemma timeouts_bounded turns st clock sent st' B :
  honest st clock turns -> clientLoop Sum256 md st turns = (sent, inl st') -> nextSend st <= clock + punchInterval ->
  B = D \/ confirmDeadline st = Some B -> 0 < timeouts turns ->
  (timeouts turns - 1) * punchInterval < B - progress st clock.
Proof.
  assert (0 < punchInterval) as HI by done.
  revert st clock sent. induction turns as [|t turns IH]; intros st clock sent Hh Hl Hns HB Hk; [done|].
  cbn [clientLoop] in Hl. destruct (clientTurn Sum256 md st t) as [s1 [st1|out]] eqn:Ht; [|done].
  destruct (clientLoop Sum256 md st1 turns) as [s2 next] eqn:Hl1. injection Hl as _ ->.
  assert ((clientTurn Sum256 md st t).2 = inl st1) as Ht2 by (by rewrite Ht).
  pose proof (clientTurn_continues _ _ _ Ht2) as (Hctx & Hcd & _ & Hcd' & Hst).
  pose proof Hh as [Hclock (_ & Hdl & _ & Hrest)]. rewrite Ht2 in Hrest.
  assert (t_now t < B) as HnowB.
  { destruct HB as [->|HB]; [|by apply Hcd]. destruct (Z.lt_ge_cases (t_now t) D) as [?|Hge]; [done|]. by destruct (Hdl Hge). }
  assert (progress st clock < B) as Hprog by (unfold progress; case_bool; rewrite ?Z.leb_le, ?Z.leb_gt in *; lia).
  assert (timeouts (t :: turns) = (if timedOut t then 1 else 0) + timeouts turns) as Hcount.
  { unfold timeouts. cbn [List.filter]. destruct (timedOut t); [rewrite length_cons|]; lia. }
  destruct (Z.le_gt_cases (timeouts turns) 0) as [H0|Hpos].
  { rewrite Hcount. destruct (timedOut t); unfold timeouts in *; nia. }
  assert (t_read t = ReadTimeout -> t_after t < D /\ forall d, confirmDeadline st = Some d -> t_after t < d) as Hnext.
  { intros Hr. destruct turns as [|t2 turns]; [done|]. cbn [clientLoop] in Hl1.
    destruct (clientTurn Sum256 md st1 t2) as [s3 [st2|out]] eqn:Hn; [|done].
    destruct (clientTurn_continues st1 t2 st2) as (Hctx2 & Hcd2 & _); [by rewrite Hn|].
    destruct Hrest as [Hclock2 (_ & Hdl2 & _)]. split.
    - destruct (Z.lt_ge_cases (t_now t2) D) as [?|Hge]; [lia|]. by destruct (Hdl2 Hge).
    - intros d Hd. destruct Hcd' as [Hcd'|[Hn' _]]; [|congruence]. rewrite <- Hcd' in Hd. specialize (Hcd2 _ Hd). lia. }
  destruct (progress_turn st clock t st1 turns Ht2 Hh Hns Hnext) as [Hns1 Hstep].
  assert (B = D \/ confirmDeadline st1 = Some B) as HB1.
  { destruct HB as [?|HB]; [by left|right]. destruct Hcd' as [->|[Hn _]]; [done|congruence]. }
  specialize (IH st1 (t_after t) s2 Hrest Hl1 Hns1 HB1 Hpos). rewrite Hcount. destruct (timedOut t); lia.
Qed.

(** A run up to some turn, and from there on. *)
Lemma run_app before after st clock sent st' :
  honest st clock (before ++ after) -> clientLoop Sum256 md st (before ++ after) = (sent, inl st') ->
  nextSend st <= clock + punchInterval ->
  exists sent1 st1 sent2 clock1, clientLoop Sum256 md st before = (sent1, inl st1) /\
    clientLoop Sum256 md st1 after = (sent2, inl st') /\ honest st1 clock1 after /\ nextSend st1 <= clock1 + punchInterval /\
    (forall t, last before = Some t -> clock1 = t_after t) /\ (before = [] -> clock1 = clock).
Proof.
  revert st clock sent. induction before as [|t before IH]; intros st clock sent Hh Hl Hns.
  { exists [], st, sent, clock. done. }
  cbn [app clientLoop] in *. destruct (clientTurn Sum256 md st t) as [s1 [st1|out]] eqn:Ht; [|done].
  destruct (clientLoop Sum256 md st1 (before ++ after)) as [s2 next] eqn:Hl1. injection Hl as <- ->.
  cbn [honest] in Hh. destruct Hh as (Hclock & _ & _ & _ & Hrest). rewrite Ht in Hrest. cbn [snd] in Hrest.
  destruct (clientTurn_continues st t st1) as (_ & _ & Hs & _); [by rewrite Ht|].
  assert (nextSend st1 <= t_after t + punchInterval) as Hns1.
  { rewrite Hs. unfold afterSend. case_bool; simpl; [lia|]. assert (0 < punchInterval) by done. lia. }
  destruct (IH st1 (t_after t) s2 Hrest Hl1 Hns1) as (sent1 & st2 & sent2 & clock1 & -> & ? & ? & ? & Hlast & Hnil).
  exists (s1 ++ sent1), st2, sent2, clock1. repeat split; [done..| |done]. intros t' Ht'.
  destruct before as [|t2 before]; [injection Ht' as <-; auto|]. apply Hlast. exact Ht'.
Qed.

Lemma honest_prefix before after st clock : honest st clock (before ++ after) -> honest st clock before.
Proof.
  revert st clock. induction before as [|t before IH]; intros st clock; [done|]. cbn [app honest].
  intros (? & ? & ? & ? & Hrest). repeat (split; [done|]). destruct (clientTurn Sum256 md st t).2; [auto|done].
Qed.

(** A punch of the client returns.  On a clock that does not go back, with reads
    that respect their deadlines, at most a hundred reads time out in its ten seconds,
    and at most sixteen after it has answered the first hello, before it returns. *)
Theorem punch_client_returns order peers now turns sent st :
  (forall st0, punchStart order peers now = inl st0 -> honest st0 now turns) ->
  Punch Sum256 md order peers now turns = (sent, inl st) -> D <= now + punchTimeout ->
  timeouts turns <= 100 /\
  forall before t after st1 sent1 st2 sent2, turns = before ++ t :: after ->
    Punch Sum256 md order peers now before = (sent1, inl st1) -> confirmDeadline st1 = None ->
    Punch Sum256 md order peers now (before ++ [t]) = (sent2, inl st2) -> confirmDeadline st2 <> None ->
    timeouts after <= 16.
Proof.
  unfold Punch. destruct (punchStart order peers now) as [st0|out] eqn:Hstart; [|done]. intros Hh Hl HD. specialize (Hh _ eq_refl).
  assert (nextSend st0 = now) as Hns0.
  { revert Hstart. unfold punchStart. case_bool; [done|]. by intros [= <-]. }
  assert (nextSend st0 <= now + punchInterval) as Hns by (rewrite Hns0; assert (0 < punchInterval) by done; lia).
  split.
  - destruct (Z.le_gt_cases (timeouts turns) 0) as [|Hpos]; [lia|].
    pose proof (timeouts_bounded _ _ _ _ _ D Hh Hl Hns (or_introl eq_refl) Hpos) as Hb.
    unfold progress in Hb. rewrite Hns0, Z.leb_refl in Hb. unfold punchTimeout, punchInterval, Millisecond in *. lia.
  - intros before t after st1 sent1 st2 sent2 -> Hl1 Hnone Hl2 Hsome.
    replace (before ++ t :: after) with ((before ++ [t]) ++ after) in Hh, Hl by (by rewrite <- app_assoc).
    destruct (run_app _ _ _ _ _ _ Hh Hl Hns) as (s1 & st2' & s2 & clock & E2 & Hafter & Hh2 & Hns2 & Hlast & _).
    rewrite Hl2 in E2. injection E2 as <- <-. rewrite (Hlast t) in * by apply last_snoc. clear Hlast.
    assert (honest st0 now (before ++ [t])) as Hh1 by exact (honest_prefix _ _ _ _ Hh).
    destruct (run_app before [t] _ _ _ _ Hh1 Hl2 Hns) as (s3 & st1' & s4 & clock1 & E1 & Hturn & _).
    rewrite Hl1 in E1. injection E1 as <- <-. cbn [clientLoop] in Hturn.
    destruct (clientTurn Sum256 md st1 t) as [s5 [st2'|out]] eqn:Ht; [|done]. injection Hturn as _ ->.
    destruct (clientTurn_continues st1 t st2) as (_ & _ & _ & Hcd & _); [by rewrite Ht|].
    destruct Hcd as [Hcd|[_ Hcd]]; [congruence|].
    destruct (Z.le_gt_cases (timeouts after) 0) as [|Hpos]; [lia|].
    pose proof (timeouts_bounded _ _ _ _ _ _ Hh2 Hafter Hns2 (or_intror Hcd) Hpos) as Hb.
    unfold progress in Hb. destruct (nextSend st2 <=? t_after t) eqn:Hle; rewrite ?Z.leb_le, ?Z.leb_gt in Hle;
      unfold punchConfirmWindow, punchInterval, Millisecond in *; lia.
Qed.

End Client.

(** ** Concrete runs

    The hash is constant, so that the obfuscation does nothing, and the random bytes are
    zero. *)

Definition sampleSum (_ : list byte) : list byte := [].
Definition sampleRandom (_ : nat) : result (list byte) := Ok (repeat x00 1034).
Definition sampleMd : PunchMetadata := mkPunchMetadata (repeat x07 16) (repeat x00 32).
Definition otherMd : PunchMetadata := mkPunchMetadata (repeat x08 16) (repeat x00 32).
Definition clientAddr : AddrPort := AddrPortFrom (Addr4 1) 4000.
Definition nodeAddr : AddrPort := AddrPortFrom (Addr4 2) 5000.

#[local] Existing Instance sampleExternals.

Lemma sampleRandom_wf : wf_random sampleRandom.
Proof. by intros i r [= <-]. Qed.

Definition packet (packetType : byte) (md : PunchMetadata) : list byte :=
  match EncodePunchPacket sampleSum (sampleRandom 0) packetType md with Ok data => data | _ => [] end.

(** A move of the sample system. *)
Inductive wmove : Type :=
| ClientReads (now : Z) (read : ReadResult)
| ClientTimes (now : Z)
| ClientData (data : list byte)
| NodeMove (m : move).

Definition foreignb (data : list byte) : bool :=
  match DecodePunchPacket sampleSum data sampleMd with Ok _ => false | _ => true end.

Lemma foreignb_foreign data : foreignb data = true -> foreign sampleSum sampleMd data.
Proof. unfold foreignb, foreign. by destruct (DecodePunchPacket _ _ _). Qed.

Definition exec1 (w : World) (m : wmove) : option World :=
  match m with
  | ClientReads now read =>
      match client w with
      | inl st =>
          let t := mkTurn None now (now + 1) sampleRandom read now in
          let '(sent, next) := clientTurn sampleSum sampleMd st t in
          match read with
          | ReadFrom data addr =>
              if decide (data ∈ nodeSent w)
              then Some (mkWorld (node w) next (nodeSent w) (clientSent w ++ sent.*2) (nodeGot w) (clientGot w ++ [data]) (strays w))
              else None
          | _ => None
          end
      | inr _ => None
      end
  | ClientTimes now =>
      match client w with
      | inl st =>
          let t := mkTurn None now (now + 1) sampleRandom ReadTimeout now in
          let '(sent, next) := clientTurn sampleSum sampleMd st t in
          Some (mkWorld (node w) next (nodeSent w) (clientSent w ++ sent.*2) (nodeGot w) (clientGot w ++ []) (strays w))
      | inr _ => None
      end
  | ClientData data =>
      match client w with
      | inr (Ok _) =>
          if foreignb data then Some (mkWorld (node w) (client w) (nodeSent w) (clientSent w ++ [data]) (nodeGot w) (clientGot w) (strays w))
          else None
      | _ => None
      end
  | NodeMove m =>
      match step sampleSum sampleRandom (node w) m with
      | Some (sent, _, node') =>
          let after got stray := Some (mkWorld node' (client w) (nodeSent w ++ if decide (attemptOf m = Some "x") then sent.*2 else [])
                             (clientSent w) (nodeGot w ++ got) (clientGot w) (strays w ++ stray)) in
          match m with
          | Receive _ data addr =>
              if decide (data ∈ clientSent w /\ unmapPort addr ∈ ({[clientAddr]} : gset AddrPort)) then after [data] []
              else if foreignb data
              then after [] (if confirms "x" (node w) (unmapPort addr) then [(unmapPort addr, data)] else [])
              else None
          | Start id _ _ metadata _ =>
              if decide (id <> "x" \/ Nonce metadata = Nonce sampleMd /\ ObfuscationKey metadata = ObfuscationKey sampleMd)
              then after [] [] else None
          | _ => after [] []
          end
      | None => None
      end
  end.

Lemma exec1_sound w m w' : exec1 w m = Some w' -> wstep sampleSum "x" sampleMd {[clientAddr]} w w'.
Proof.
  destruct m as [now read|now|data|m]; cbn [exec1].
  - destruct (client w) as [st|] eqn:Hc; [|done]. destruct (clientTurn _ _ _ _) as [sent next] eqn:Ht.
    destruct read as [| |data addr]; [done|done|]. destruct (decide _) as [Hin|]; [|done]. intros [= <-].
    refine (ClientMoves _ _ _ _ w st _ [data] sent next Hc _ _ Ht); [by apply ReadsNode|exact sampleRandom_wf].
  - destruct (client w) as [st|] eqn:Hc; [|done]. destruct (clientTurn _ _ _ _) as [sent next] eqn:Ht. intros [= <-].
    refine (ClientMoves _ _ _ _ w st _ [] sent next Hc _ _ Ht); [apply ReadsTimeout|exact sampleRandom_wf].
  - destruct (client w) as [|[r| |]] eqn:Hc; try done. destruct (foreignb data) eqn:Hf; [|done]. intros [= <-].
    rewrite <- Hc. eapply ClientSends; [exact Hc|by apply foreignb_foreign].
  - destruct (step _ _ _ _) as [[[sent rd] node']|] eqn:Hs; [|done]. pose proof sampleRandom_wf as Hw.
    destruct m as [order data addr| |id order peers metadata passive|id|id|id|id|id err];
      try (intros [= <-]; refine (NodeMoves _ _ _ _ w _ _ [] [] _ _ _ _ Hw Hs); by apply MovesOther).
    + destruct (decide _) as [[Hin Ha]|]; [|destruct (foreignb data) eqn:Hf; [|done]]; intros [= <-].
      * refine (NodeMoves _ _ _ _ w _ _ [data] [] _ _ _ _ Hw Hs). by apply ReceivesClient.
      * refine (NodeMoves _ _ _ _ w _ _ [] _ _ _ _ _ Hw Hs). by apply ReceivesForeign, foreignb_foreign.
    + destruct (decide _) as [Hd|]; [|done]. intros [= <-]. refine (NodeMoves _ _ _ _ w _ _ [] [] _ _ _ _ Hw Hs).
      destruct (decide (id = "x")) as [->|Hne]; [|by apply StartsOther]. destruct Hd as [?|[Hn Ho]]; [done|].
      destruct metadata as [n o]. simpl in Hn, Ho. subst. apply StartsAttempt.
Qed.

Fixpoint execAll (w : World) (ms : list wmove) : option World :=
  match ms with
  | [] => Some w
  | m :: ms => match exec1 w m with Some w => execAll w ms | None => None end
  end.

Lemma execAll_reachable w ms w' :
  reachable sampleSum "x" sampleMd {[clientAddr]} w -> execAll w ms = Some w' -> reachable sampleSum "x" sampleMd {[clientAddr]} w'.
Proof.
  revert w. induction ms as [|m ms IH]; intros w Hr; cbn [execAll]; [by intros [= <-]|].
  destruct (exec1 w m) as [w1|] eqn:He; [|done]. apply IH. eapply ReachStep; [exact Hr|]. by eapply exec1_sound.
Qed.

Definition startWorld : World := mkWorld NewServerPuncher (punchStart [] [nodeAddr] 0) [] [] [] [] [].
Lemma startWorld_reachable : reachable sampleSum "x" sampleMd {[clientAddr]} startWorld.
Proof. apply ReachInitial. split; [by exists [], [nodeAddr], 0|]. by repeat split. Qed.

(** Hellos cross, the node confirms by the first bytes of the connection. *)
Definition successMoves : list wmove :=
  [NodeMove (Start "x" [] [clientAddr] sampleMd false);
   ClientReads 0 (ReadFrom (packet PunchHello sampleMd) nodeAddr);
   NodeMove (Receive ["x"] (packet PunchHello sampleMd) clientAddr);
   NodeMove Dispatch;
   NodeMove (TakeEvent "x");
   ClientReads 1 (ReadFrom (packet PunchAck sampleMd) nodeAddr);
   ClientData [x40];
   NodeMove (Receive ["x"] [x40] clientAddr);
   NodeMove (Traffic "x")].

Definition succeeded (w : World) : bool :=
  match client w, returned (node w) !! "x" with inr (Ok _), Some (Ok _) => true | _, _ => false end.
Definition successWorld : World := default startWorld (execAll startWorld successMoves).
Lemma successWorld_ok : match execAll startWorld successMoves with Some w => succeeded w | None => false end = true.
Proof. vm_compute. reflexivity. Qed.
Lemma successWorld_reachable : reachable sampleSum "x" sampleMd {[clientAddr]} successWorld /\ succeeded successWorld = true.
Proof.
  pose proof successWorld_ok as H. unfold successWorld. destruct (execAll startWorld successMoves) as [w|] eqn:He; [|done].
  split; [|done]. by eapply execAll_reachable; [exact startWorld_reachable|].
Qed.

Lemma successWorld_strays : strays successWorld = [].
Proof. vm_compute. reflexivity. Qed.

Lemma punch_success_is_two_way_witness :
  succeeded successWorld = true /\
  (forall r, client successWorld = inr (Ok r) -> nodeGot successWorld <> []) /\
  (forall r, returned (node successWorld) !! "x" = Some (Ok r) -> clientGot successWorld <> []).
Proof.
  destruct successWorld_reachable as [Hr Hs].
  destruct (punch_success_is_two_way sampleSum "x" sampleMd {[clientAddr]} eq_refl successWorld Hr) as [H1 H2].
  split; [exact Hs|]. split; [intros r Hc; exact (proj1 (H1 r Hc))|]. intros r Hn.
  destruct (H2 r Hn) as (_ & _ & [Hg|(data & Hd & _)]); [exact Hg|]. rewrite successWorld_strays in Hd. destruct (not_elem_of_nil _ Hd).
Defined.

Lemma punch_packets_decode_witness :
  DecodePunchPacket sampleSum (packet PunchAck sampleMd) sampleMd = Ok PunchAck.
Proof.
  refine (proj2 (punch_packets_decode sampleSum sampleMd (packet PunchAck sampleMd) PunchAck eq_refl) _).
  split; [by right|]. exists (repeat x00 1034). split; reflexivity.
Defined.

Definition idleTurn : turn := mkTurn None 0 punchTimeout sampleRandom ReadTimeout punchInterval.
Lemma punch_client_returns_witness : timeouts [idleTurn] <= 100.
Proof.
  refine (proj1 (punch_client_returns sampleSum sampleMd punchTimeout [] [nodeAddr] 0 [idleTurn] _
    (mkClientState [nodeAddr] punchInterval None) _ eq_refl _)).
  - intros st0 [= <-]. split; [done|]. split; [done|]. split; [by intros H%Z.leb_le|]. split; [intros _; by apply Z.leb_le|done].
  - by apply Z.leb_le.
Defined.

(** ** What counts as evidence *)

(** The moves of a node, for which the iteration visits the attempts in the order given. *)
Fixpoint nodeRun (p : ServerPuncher) (ms : list move) : option ServerPuncher :=
  match ms with
  | [] => Some p
  | m :: ms => match step sampleSum sampleRandom p m with Some (_, _, p) => nodeRun p ms | None => None end
  end.

(** A hello of an attempt that has ended counts as traffic of the peer: it confirms a
    later attempt from the same address, whose client has received nothing. *)
Definition staleMoves : list move :=
  [Start "1" [] [clientAddr] otherMd false; ContextDone "1" ErrDeadlineExceeded;
   Start "2" [] [clientAddr] sampleMd false;
   Receive ["2"] (packet PunchHello sampleMd) clientAddr; Dispatch; TakeEvent "2";
   Receive ["2"] (packet PunchHello otherMd) clientAddr; Traffic "2"].
Theorem stale_hello_confirms :
  match nodeRun NewServerPuncher staleMoves with
  | Some p => returned p !! "2" = Some (Ok (mkPunchResult clientAddr PunchHello))
  | None => False
  end.
Proof. vm_compute. reflexivity. Qed.

(** The same in the system of both sides: the node has succeeded on a stray, and nothing
    has reached the client. *)
Definition strayMoves : list wmove :=
  [NodeMove (Start "1" [] [clientAddr] otherMd false); NodeMove (ContextDone "1" ErrDeadlineExceeded);
   NodeMove (Start "x" [] [clientAddr] sampleMd false);
   ClientTimes 0;
   NodeMove (Receive ["x"] (packet PunchHello sampleMd) clientAddr); NodeMove Dispatch; NodeMove (TakeEvent "x");
   NodeMove (Receive ["x"] (packet PunchHello otherMd) clientAddr); NodeMove (Traffic "x")].
Lemma strayMoves_ok :
  match execAll startWorld strayMoves with
  | Some w =>
      match returned (node w) !! "x" with Some (Ok r) => bool_decide (PeerAddr r = clientAddr) | _ => false end &&
      (length (clientGot w) =? 0)%nat && bool_decide (strays w = [(clientAddr, packet PunchHello otherMd)])
  | None => false
  end = true.
Proof. vm_compute. reflexivity. Qed.
Theorem stray_confirms :
  exists w r, reachable sampleSum "x" sampleMd {[clientAddr]} w /\
    returned (node w) !! "x" = Some (Ok r) /\ PeerAddr r = clientAddr /\ clientGot w = [] /\
    strays w = [(clientAddr, packet PunchHello otherMd)].
Proof.
  pose proof strayMoves_ok as H. destruct (execAll startWorld strayMoves) as [w|] eqn:He; [|done].
  destruct (returned (node w) !! "x") as [[r| |]|] eqn:Hret; [|done..].
  rewrite !andb_true_iff, !bool_decide_eq_true in H. destruct H as ((Hr & Hg) & Hs). exists w, r.
  split; [by eapply execAll_reachable; [exact startWorld_reachable|]|]. split; [done|]. split; [done|]. split; [by destruct (clientGot w)|done].
Qed.

(** While the node confirms one address, an acknowledgement from any other address makes
    it report the first one. *)
Theorem ack_from_elsewhere_confirms `{E : Externals} Sum256 random p id a peer packetType ch from :
  a_phase a = Confirming peer packetType ch ->
  returned (onEvent Sum256 p random id a (mkPunchPacketEvent id from PunchAck)).2 !! id = Some (Ok (mkPunchResult peer packetType)).
Proof. intros Hp. unfold onEvent. rewrite Hp. simpl. apply lookup_insert_eq. Qed.
