(* ===== verification/RealmDiscover.v ===== *)
(** * The reflexive addresses of a socket (src/third_party/sing-quic/hysteria2/realm/stun.go)

    [Discover] asks STUN servers up to three times; what the socket and the clock do in
    an attempt is the record [attempt].  The addresses it returns are distinct, and each
    was in a message with the identifier of one request of this call. *)

From S2P Require Import Prelude GoStd Metadata Binary Instances Datagram RealmStun RealmCandidates RealmPunch.
From Stdlib Require Import Strings.Byte Strings.Ascii.
Import netip.

Open Scope Z_scope.

(** ** net.SplitHostPort *)

Module hostport.

Definition index_of (c : ascii) (l : list ascii) : option nat := fst <$> list_find (fun d => d = c) l.
Definition last_index_of (c : ascii) (l : list ascii) : option nat :=
  (fun i => length l - 1 - i)%nat <$> index_of c (rev l).
Definition has (c : ascii) (l : list ascii) : bool := bool_decide (is_Some (index_of c l)).

Definition colon : ascii := ":".
Definition open_bracket : ascii := "[".
Definition close_bracket : ascii := "]".

(** The host with its end, the end of what may hold brackets, and the port. *)
Definition SplitHostPort (s : string) : option (string * string) :=
  let l := String.list_ascii_of_string s in
  i ← last_index_of colon l;
  '(host, j, k) ←
    (if bool_decide (head l = Some open_bracket) then
       finish ← index_of close_bracket l;
       if bool_decide (S finish = i) then Some (drop 1 (take finish l), 1%nat, S finish) else None
     else if has colon (take i l) then None else Some (take i l, 0%nat, 0%nat));
  if has open_bracket (drop j l) || has close_bracket (drop k l) then None
  else Some (String.string_of_list_ascii host, String.string_of_list_ascii (drop (S i) l)).

End hostport.

Module Discover.
Import RealmCandidates RealmPunch Stun hostport.

Section Discover.
Context `{E : Externals}.

(** ** Servers *)

Definition Resolver : Type := string -> bool -> bool -> result (list Addr).

Definition resolveOne (resolver : Resolver) (ipv4 ipv6 : bool) (server : string) : result (list AddrPort) :=
  let '(host, port) := match SplitHostPort server with Some hp => hp | None => (server, "3478"%string) end in
  portNumber ← map_err (fun err => E_Cause err ["resolve STUN port: "; port]) (strconv.ParseUint port 16);
  match netip_ParseAddr host with
  | Ok addr =>
      let addr := Unmap addr in
      if Is4 addr && negb ipv4 then Ok []
      else if negb (Is4 addr) && negb ipv6 then Ok []
      else Ok [AddrPortFrom addr portNumber]
  | _ =>
      addresses ← map_err (fun err => E_Cause err ["resolve STUN server: "; server]) (resolver host ipv4 ipv6);
      Ok (map (fun address => AddrPortFrom address portNumber) addresses)
  end.

(** The results of a batch, or the error that came first; [order]: the tasks in the
    order in which they ended. *)
Fixpoint batch {A} (l : list (result (list A))) : result (list A) :=
  match l with
  | [] => Ok []
  | r :: l => x ← r; rest ← batch l; Ok (x ++ rest)
  end.
Definition WaitAndGetResult {A} (order : list nat) (tasks : list (result (list A))) : result (list A) :=
  match omap (fun i => match tasks !! i with Some (Err e) => Some e | _ => None end) order with
  | err :: _ => Err err
  | [] => batch tasks
  end.

Definition ResolveSTUNServers (order : list nat) (servers : list string) (resolver : option Resolver) (ipv4 ipv6 : bool)
    : result (list AddrPort) :=
  match resolver with
  | None => Err (E_New ["realm: resolver is required"])
  | Some resolver =>
      resolved ← WaitAndGetResult order (map (resolveOne resolver ipv4 ipv6) servers);
      if (length resolved =? 0)%nat then Err (E_New ["no STUN servers resolved"]) else Ok resolved
  end.

(** ** Requests *)

Record stunRequest : Type := mkStunRequest { server : AddrPort; rawMessage : list byte; transactionID : list byte }.

(** [random i]: the random bytes of the [i]-th request. *)
Fixpoint buildSTUNRequests (random : nat -> result (list byte)) (servers : list AddrPort) : result (list stunRequest) :=
  match servers with
  | [] => Ok []
  | server :: servers =>
      message ← map_err (fun err => E_Cause err ["build STUN request"]) (NewBindingRequest (random 0%nat));
      requests ← buildSTUNRequests (fun i => random (S i)) servers;
      Ok (mkStunRequest server (Raw message) (TransactionID message) :: requests)
  end.

(** [pending]: the identifiers without an answer. *)
Abbreviation ids := (gset (list byte)).

(** What is sent, and the error.  [write]: the result of a write; [E_Errors]: the errors
    joined. *)
Variable E_Errors : list error -> error.
Variable AddrPort_String : AddrPort -> string.

Definition transmitSTUNRequests (write : AddrPort -> option error) (requests : list stunRequest) (pending : ids)
    : list (AddrPort * list byte) * option error :=
  let asked := filter (fun r => transactionID r ∈ pending) requests in
  let sent := filter (fun r => write (server r) = None) asked in
  let sendErr :=
    foldl (fun acc r => match write (server r) with
                        | Some err => Some (E_Errors (option_list acc ++ [E_Cause err ["send STUN request to "; AddrPort_String (server r)]]))
                        | None => acc
                        end) None asked in
  (map (fun r => (server r, rawMessage r)) sent,
   if (length sent =? 0)%nat
   then Some (match sendErr with Some err => err | None => E_New ["no STUN requests sent"] end)
   else sendErr).

(** ** One attempt *)

(** The answer in a message for a pending request, which is no longer pending then. *)
Definition answer (message : Message) (pending : ids) (addresses : list AddrPort) : ids * list AddrPort :=
  if bool_decide (TransactionID message ∈ pending) then
    (pending ∖ {[TransactionID message]},
     match XORMappedAddress message with Some (Ok address) => addresses ++ [address] | _ => addresses end)
  else (pending, addresses).

(** The loop over the datagrams: the clock before each read, and the read.  [None]: the
    reads end before the loop does. *)
Fixpoint readAnswers (deadline : Z) (reads : list (Z * ReadResult)) (now : Z) (pending : ids) (addresses : list AddrPort)
    : option (result (list AddrPort) * ids) :=
  if (now <? deadline) && negb (bool_decide (pending = ∅)) then
    match reads with
    | [] => None
    | (after, read) :: reads =>
        match read with
        | ReadTimeout => Some (Ok addresses, pending)
        | ReadError err => Some (Err (E_Cause err ["read STUN response"]), pending)
        | ReadFrom data _ =>
            let '(pending, addresses) :=
              match Stun.Decode data with
              | Ok message => answer message pending addresses
              | _ => (pending, addresses)
              end in
            readAnswers deadline reads after pending addresses
        end
    end
  else Some (Ok addresses, pending).

(** The loop over the messages that the demultiplexer found. *)
Inductive demuxed : Type :=
| Done (err : error)
| Timer
| STUNEvent (message : Message).

Fixpoint awaitAnswers (evs : list demuxed) (pending : ids) (addresses : list AddrPort)
    : option ((list AddrPort * option error) * ids) :=
  if negb (bool_decide (pending = ∅)) then
    match evs with
    | [] => None
    | Done err :: _ => Some ((addresses, Some err), pending)
    | Timer :: _ => Some ((addresses, None), pending)
    | STUNEvent message :: evs =>
        let '(pending, addresses) := answer message pending addresses in
        awaitAnswers evs pending addresses
    end
  else Some ((addresses, None), pending).

(** [a_run]: the attempt, from the deadline and what is pending to the addresses, the
    error and what is still pending. *)
Record attempt : Type := mkAttempt {
  a_ctxErr : option error;
  a_write : AddrPort -> option error;
  a_now : Z;
  a_run : Z -> ids -> option ((list AddrPort * option error) * ids);
}.

(** Attempts of [Discover] and of [DiscoverDemuxed]. *)
Definition runAttempt (setDeadline : option error) (reads : list (Z * ReadResult)) (now : Z) (deadline : Z) (pending : ids)
    : option ((list AddrPort * option error) * ids) :=
  match setDeadline with
  | Some err => Some (([], Some (E_Cause err ["set read deadline"])), pending)
  | None =>
      '(out, pending) ← readAnswers deadline reads now pending [];
      Some (match out with Ok addresses => (addresses, None) | Err err => ([], Some err) | Panic _ => ([], None) end, pending)
  end.
Definition runAttemptDemuxed (evs : list demuxed) (_ : Z) (pending : ids)
    : option ((list AddrPort * option error) * ids) :=
  awaitAnswers evs pending [].

(** ** The attempts *)

Definition attemptTimeouts : list Z := [500 * Millisecond; 2000 * Millisecond; 4000 * Millisecond].

(** [result], without duplicates. *)
Fixpoint addNew (addresses : list AddrPort) (seen : gset AddrPort) (result : list AddrPort) : gset AddrPort * list AddrPort :=
  match addresses with
  | [] => (seen, result)
  | a :: addresses =>
      if bool_decide (a ∈ seen) then addNew addresses seen result else addNew addresses ({[a]} ∪ seen) (result ++ [a])
  end.

Variable IsCanceled : error -> bool.

Definition discovered (found : list AddrPort) (lastErr : option error) : result (list AddrPort) :=
  if (0 <? length found)%nat then Ok found
  else match lastErr with Some err => Err err | None => Err (E_New ["no STUN responses received"]) end.

Fixpoint discoveryLoop (timeouts : list Z) (attempts : list attempt) (requests : list stunRequest) (pending : ids)
    (seen : gset AddrPort) (found : list AddrPort) (lastErr : option error) : option (result (list AddrPort)) :=
  match timeouts, attempts with
  | [], _ => Some (discovered found lastErr)
  | _, [] => None
  | timeout :: timeouts, a :: attempts =>
      match a_ctxErr a with
      | Some err => Some (discovered found (Some err))
      | None =>
          if bool_decide (pending = ∅) then Some (discovered found lastErr)
          else
            let '(_, err) := transmitSTUNRequests (a_write a) requests pending in
            let lastErr := match err with Some err => Some err | None => lastErr end in
            '((addresses, attemptErr), pending) ← a_run a (a_now a + timeout) pending;
            let '(seen, found) := addNew addresses seen found in
            match attemptErr with
            | Some err => if IsCanceled err then Some (discovered found (Some err)) else Some (Err err)
            | None => discoveryLoop timeouts attempts requests pending seen found lastErr
            end
      end
  end.

Definition runDiscoveryAttempts (attempts : list attempt) (requests : list stunRequest) : option (result (list AddrPort)) :=
  discoveryLoop attemptTimeouts attempts requests (list_to_set (map transactionID requests)) ∅ [] None.

(** [Discover] and [DiscoverDemuxed] differ in their attempts. *)
Definition Discover (random : nat -> result (list byte)) (attempts : list attempt) (servers : list AddrPort)
    : option (result (list AddrPort)) :=
  if (length servers =? 0)%nat then Some (Err (E_New ["no STUN servers"]))
  else
    match buildSTUNRequests random servers with
    | Ok requests => runDiscoveryAttempts attempts requests
    | Err err => Some (Err err)
    | Panic msg => Some (Panic msg)
    end.

(** What happens in an attempt of [Discover]. *)
Record trial : Type := mkTrial {
  r_ctxErr : option error;
  r_write : AddrPort -> option error;
  r_now : Z;
  r_setDeadline : option error;
  r_start : Z;
  r_reads : list (Z * ReadResult);
}.
Definition attemptOf (t : trial) : attempt :=
  mkAttempt (r_ctxErr t) (r_write t) (r_now t) (runAttempt (r_setDeadline t) (r_reads t) (r_start t)).

(** ** What is discovered *)

(** An address that a message with a pending identifier brought. *)
Definition brought (received : Message -> Prop) (pending : ids) (a : AddrPort) : Prop :=
  exists m, received m /\ TransactionID m ∈ pending /\ XORMappedAddress m = Some (Ok a).

(** Every address uses up one identifier. *)
Definition honestRun (received : Message -> Prop) (p : ids) (addresses : list AddrPort) (p' : ids) : Prop :=
  (length addresses + size p' <= size p)%nat /\ p' ⊆ p /\ Forall (brought received p) addresses.

Lemma brought_mono (received : Message -> Prop) (p p' : ids) (a : AddrPort) : p' ⊆ p -> brought received p' a -> brought received p a.
Proof. intros Hs (m & Hr & Ht & Hx). exists m. set_solver. Qed.

Lemma honestRun_refl (received : Message -> Prop) (p : ids) : honestRun received p [] p.
Proof. repeat split; [simpl; lia | set_solver | constructor]. Qed.

Lemma honestRun_trans (received : Message -> Prop) (p p1 p2 : ids) (a1 a2 : list AddrPort) :
  honestRun received p a1 p1 -> honestRun received p1 a2 p2 -> honestRun received p (a1 ++ a2) p2.
Proof.
  intros (Hl1 & Hs1 & Hf1) (Hl2 & Hs2 & Hf2). split; [rewrite length_app; lia|]. split; [set_solver|].
  apply Forall_app. split; [done|]. eapply Forall_impl; [|exact Hf2]. intros a. by apply brought_mono.
Qed.

Lemma answer_honest (received : Message -> Prop) m p addresses p' addresses' :
  received m -> answer m p addresses = (p', addresses') ->
  exists new, addresses' = addresses ++ new /\ honestRun received p new p'.
Proof.
  intros Hm. unfold answer. case_bool_decide as Ht; intros [= <- <-].
  - assert (size (p ∖ {[TransactionID m]}) + 1 <= size p)%nat.
    { rewrite size_difference by set_solver. rewrite size_singleton.
      assert (size ({[TransactionID m]} : ids) <= size p)%nat by (apply subseteq_size; set_solver).
      rewrite size_singleton in *. lia. }
    destruct (XORMappedAddress m) as [[a|e|msg]|] eqn:Hx;
      [exists [a] | exists [] | exists [] | exists []]; rewrite ?app_nil_r; (split; [done|]);
      (split; [simpl; lia|]); (split; [set_solver|]); repeat constructor.
    exists m. auto.
  - exists []. rewrite app_nil_r. split; [done|]. apply honestRun_refl.
Qed.

Lemma readAnswers_honest (received : Message -> Prop) deadline reads now p addresses out p' :
  (forall t data from m, (t, ReadFrom data from) ∈ reads -> Stun.Decode data = Ok m -> received m) ->
  readAnswers deadline reads now p addresses = Some (Ok out, p') ->
  exists new, out = addresses ++ new /\ honestRun received p new p'.
Proof.
  revert now p addresses. induction reads as [|[after read] reads IH]; intros now p addresses Hr; simpl;
    (destruct (_ && _); [|intros [= <- <-]; exists []; rewrite app_nil_r; split; [done|apply honestRun_refl]]); [done|].
  destruct read as [|err|data from]; [|done|].
  { intros [= <- <-]. exists []. rewrite app_nil_r. split; [done|apply honestRun_refl]. }
  assert (Hr' : forall t data from m, (t, ReadFrom data from) ∈ reads -> Stun.Decode data = Ok m -> received m)
    by (intros; eapply Hr; [by apply list_elem_of_further|done]).
  destruct (Stun.Decode data) as [m|e|msg] eqn:Hd; [|by apply IH|by apply IH].
  destruct (answer m p addresses) as [p1 a1] eqn:Ha. intros Hrun.
  destruct (answer_honest received m p addresses p1 a1) as (n1 & -> & H1); [|done|].
  { eapply Hr; [by apply list_elem_of_here|done]. }
  destruct (IH after p1 (addresses ++ n1) Hr' Hrun) as (n2 & -> & H2).
  exists (n1 ++ n2). rewrite app_assoc. split; [done|]. by eapply honestRun_trans.
Qed.

Lemma readAnswers_pending deadline reads now p addresses out p' :
  readAnswers deadline reads now p addresses = Some (out, p') -> p' ⊆ p.
Proof.
  revert now p addresses. induction reads as [|[after read] reads IH]; intros now p addresses; simpl;
    (destruct (_ && _); [|by intros [= _ <-]]); [done|].
  destruct read as [|err|data from]; [by intros [= _ <-]..|].
  destruct (Stun.Decode data) as [m|e|msg]; [|apply IH..].
  unfold answer. case_bool_decide; [|apply IH]. intros ?%IH. set_solver.
Qed.

(** The messages of an attempt. *)
Definition hears (t : trial) (m : Message) : Prop :=
  exists after data from, (after, ReadFrom data from) ∈ r_reads t /\ Stun.Decode data = Ok m.

Lemma attemptOf_honest t deadline p addresses err p' :
  a_run (attemptOf t) deadline p = Some ((addresses, err), p') -> honestRun (hears t) p addresses p'.
Proof.
  cbn [attemptOf a_run]. unfold runAttempt. destruct (r_setDeadline t); [intros [= <- _ <-]; apply honestRun_refl|].
  destruct (readAnswers _ _ _ _ _) as [[out q]|] eqn:Hrun; cbn [mbind option_bind]; [|done].
  assert (Hq := readAnswers_pending _ _ _ _ _ _ _ Hrun). apply subseteq_size in Hq as Hsize.
  destruct out as [out|e|msg]; intros [= <- _ <-].
  2,3: by repeat split; [simpl; lia | done | constructor].
  apply (readAnswers_honest (hears t)) in Hrun as (new & -> & H); [done|].
  intros after data from m Hin Hd. by exists after, data, from.
Qed.

Lemma addNew_spec addresses seen found :
  agree found seen ->
  let '(seen', found') := addNew addresses seen found in
  agree found' seen' /\ (length found' <= length found + length addresses)%nat
  /\ forall a, a ∈ found' <-> a ∈ found \/ a ∈ addresses.
Proof.
  revert seen found. induction addresses as [|a addresses IH]; intros seen found Hs; simpl.
  { repeat split; try apply Hs; [lia | set_solver..]. }
  case_bool_decide as Ha.
  - specialize (IH seen found Hs). destruct (addNew addresses seen found) as [s r].
    destruct IH as (H1 & H3 & H4). split; [done|]. split; [lia|]. intros b. rewrite H4, elem_of_cons.
    destruct Hs as [_ Hs]. specialize (Hs a). naive_solver.
  - specialize (IH _ _ (agree_snoc _ _ _ Hs Ha)). destruct (addNew addresses _ _) as [s r].
    destruct IH as (H1 & H3 & H4). rewrite length_app in H3. simpl in H3. split; [done|]. split; [lia|].
    intros b. rewrite H4, elem_of_app, list_elem_of_singleton, elem_of_cons. tauto.
Qed.

Lemma discoveryLoop_sound (P : ids) n requests timeouts trials pending seen found lastErr addresses :
  agree found seen -> pending ⊆ P -> (length found + size pending <= n)%nat ->
  discoveryLoop timeouts (map attemptOf trials) requests pending seen found lastErr = Some (Ok addresses) ->
  addresses <> [] /\ NoDup addresses /\ (length addresses <= n)%nat
  /\ forall a, a ∈ addresses -> a ∈ found \/ exists t, t ∈ trials /\ brought (hears t) P a.
Proof.
  assert (Hend : forall found lastErr (trials : list trial), discovered found lastErr = Ok addresses -> NoDup found -> (length found <= n)%nat ->
    addresses <> [] /\ NoDup addresses /\ (length addresses <= n)%nat
    /\ forall a, a ∈ addresses -> a ∈ found \/ exists t, t ∈ trials /\ brought (hears t) P a).
  { intros f le ts Hd Hn Hl. unfold discovered in Hd. destruct (Nat.ltb_spec 0 (length f)); [|by destruct le].
    injection Hd as <-. split; [by destruct f; [simpl in *; lia|]|]. auto. }
  revert trials pending seen found lastErr.
  induction timeouts as [|timeout timeouts IH]; intros trials pending seen found lastErr Hs Hp Hn; simpl.
  { intros [= Hrun]. apply (Hend found lastErr); [done|apply Hs|lia]. }
  destruct trials as [|t trials]; simpl; [done|].
  destruct (r_ctxErr t); [intros [= Hrun]; eapply Hend; [done|apply Hs|lia]|].
  case_bool_decide as Hempty; [intros [= Hrun]; eapply Hend; [done|apply Hs|lia]|].
  destruct (transmitSTUNRequests (r_write t) requests pending) as [sent err].
  destruct (runAttempt (r_setDeadline t) (r_reads t) (r_start t) (r_now t + timeout) pending) as [[[new attemptErr] pending']|] eqn:Hrun; cbn [mbind option_bind]; [|done].
  apply (attemptOf_honest t) in Hrun as (Hl & Hsub & Hf). assert (Hadd := addNew_spec new seen found Hs).
  destruct (addNew new seen found) as [seen' found']. destruct Hadd as (Hs' & Hl' & Hin).
  assert (Hnew : forall a, a ∈ found' -> a ∈ found \/ exists t', t' ∈ t :: trials /\ brought (hears t') P a).
  { intros a [?|Ha]%Hin; [by left|]. right. exists t. split; [by apply list_elem_of_here|].
    rewrite Forall_forall in Hf. apply (brought_mono _ P pending); [done|]. by apply Hf, list_elem_of_In. }
  assert (Hstep : forall (out : list AddrPort),
    (forall a, a ∈ out -> a ∈ found' \/ exists t, t ∈ trials /\ brought (hears t) P a) ->
    forall a, a ∈ out -> a ∈ found \/ exists t', t' ∈ t :: trials /\ brought (hears t') P a).
  { intros out Hout a [?|(t' & Ht & Hb)]%Hout; [by apply Hnew|]. right. exists t'. split; [by apply list_elem_of_further|done]. }
  destruct attemptErr as [err'|].
  - destruct (IsCanceled err'); [|done]. intros [= Hrun].
    destruct (Hend found' (Some err') trials Hrun (proj1 Hs')) as (? & ? & ? & ?); [lia|]. eauto.
  - intros Hrun. apply IH in Hrun as (? & ? & ? & ?); [by eauto | done | set_solver | lia].
Qed.

Lemma ids_size (l : list (list byte)) : (size (list_to_set l : ids) <= length l)%nat.
Proof.
  induction l as [|x l IH]; [done|]. rewrite list_to_set_cons, size_union_alt, size_singleton. cbn [length].
  assert (size ((list_to_set l : ids) ∖ {[x]}) <= size (list_to_set l : ids))%nat by (apply subseteq_size; set_solver). lia.
Qed.

Lemma buildSTUNRequests_ids random servers requests : buildSTUNRequests random servers = Ok requests ->
  length requests = length servers
  /\ forall r, r ∈ requests -> exists i, (i < length servers)%nat /\ random i = Ok (transactionID r).
Proof.
  revert random requests. induction servers as [|s servers IH]; intros random requests; simpl.
  { intros [= <-]. split; [done|]. intros r Hr. by apply not_elem_of_nil in Hr. }
  intros (m & Hm & Hrest)%bind_Ok_inv. apply bind_Ok_inv in Hrest as (rs & Hrs & [= <-]).
  destruct (IH _ _ Hrs) as [Hl Hids]. split; [simpl; lia|]. intros r [->|Hr]%elem_of_cons.
  - exists 0%nat. split; [lia|]. unfold NewBindingRequest in Hm. destruct (random 0%nat); by simplify_eq/=.
  - destruct (Hids r Hr) as (i & Hi & He). exists (S i). split; [lia|done].
Qed.

Lemma Discover_distinct random trials servers addresses :
  Discover random (map attemptOf trials) servers = Some (Ok addresses) -> NoDup addresses.
Proof.
  unfold Discover. destruct (length servers =? 0)%nat; [done|]. destruct (buildSTUNRequests random servers) as [requests|e|msg]; [|done..].
  intros Hrun. eapply (discoveryLoop_sound (list_to_set (map transactionID requests)) _ requests attemptTimeouts trials) in Hrun as (_ & H & _);
    [done | split; [constructor|set_solver] | done | reflexivity].
Qed.

(** When [Discover] returns addresses there is at least one, no address is twice in the
    list, there are no more than there are servers, and each was the mapped address of a
    datagram that was read during this call and that carries the random identifier of one
    of the requests of this call. *)
Theorem discovered_addresses random trials servers addresses :
  Discover random (map attemptOf trials) servers = Some (Ok addresses) ->
  addresses <> [] /\ NoDup addresses /\ (length addresses <= length servers)%nat
  /\ forall a, a ∈ addresses -> exists t m i, t ∈ trials /\ hears t m /\ XORMappedAddress m = Some (Ok a)
       /\ (i < length servers)%nat /\ random i = Ok (TransactionID m).
Proof.
  unfold Discover. destruct (length servers =? 0)%nat; [done|].
  destruct (buildSTUNRequests random servers) as [requests|e|msg] eqn:Hb; [|done..].
  destruct (buildSTUNRequests_ids _ _ _ Hb) as [Hl Hids]. intros Hrun.
  destruct (discoveryLoop_sound (list_to_set (map transactionID requests)) (length servers) requests
    attemptTimeouts trials (list_to_set (map transactionID requests)) ∅ [] None addresses) as (H1 & H2 & H3 & H4);
    [split; [constructor|set_solver] | done | | done |].
  { simpl. rewrite <- Hl, <- (length_map transactionID requests). apply ids_size. }
  repeat split; auto. intros a [Ha|(t & Ht & m & Hm & Hid & Hx)]%H4; [by apply not_elem_of_nil in Ha|].
  apply elem_of_list_to_set, list_elem_of_fmap in Hid as (r & Htid & Hr).
  destruct (Hids r Hr) as (i & Hi & He). exists t, m, i. rewrite Htid. auto.
Qed.

End Discover.
End Discover.

(** Two servers; the answer of the second comes after the second transmission, and that
    of the first twice. *)
Definition sampleTID (i : nat) : list byte := repeat (if (i =? 0)%nat then x07 else x08) 12.
Definition sampleAnswer (i : nat) (a : AddrPort) : list byte :=
  Stun.response 0x0101 (sampleTID i) (Stun.attribute Stun.attrXORMappedAddr (Stun.mappedValue (sampleTID i) a)).
Definition sampleAddress (port : N) : AddrPort := AddrPortFrom (Addr4 0xC0000201) port.
Definition sampleTrials : list Discover.trial :=
  [ Discover.mkTrial None (fun _ => None) 0 None 0
      [(1, RealmPunch.ReadFrom (sampleAnswer 0 (sampleAddress 4000)) (sampleAddress 1));
       (2, RealmPunch.ReadFrom (sampleAnswer 0 (sampleAddress 4000)) (sampleAddress 1)); (3, RealmPunch.ReadTimeout)];
    Discover.mkTrial None (fun _ => None) 500000000 None 500000000
      [(500000001, RealmPunch.ReadFrom (sampleAnswer 1 (sampleAddress 4001)) (sampleAddress 2))];
    Discover.mkTrial None (fun _ => None) 500000002 None 500000002 [] ].
Definition sampleDiscovered : list AddrPort := [sampleAddress 4000; sampleAddress 4001].

Lemma sampleTrials_discover :
  Discover.Discover (hd (E_New [])) (fun _ => ""%string) (fun _ => false) (fun i => Ok (sampleTID i))
    (map (Discover.attemptOf (E := sampleExternals)) sampleTrials) [sampleAddress 1; sampleAddress 2] = Some (Ok sampleDiscovered).
Proof. vm_compute. reflexivity. Qed.

Lemma discovered_addresses_witness :
  sampleDiscovered <> [] /\ NoDup sampleDiscovered /\ (length sampleDiscovered <= 2)%nat.
Proof.
  destruct (Discover.discovered_addresses (E := sampleExternals) (hd (E_New [])) (fun _ => ""%string) (fun _ => false)
    (fun i => Ok (sampleTID i)) sampleTrials _ sampleDiscovered sampleTrials_discover) as (H1 & H2 & H3 & _).
  exact (conj H1 (conj H2 H3)).
Defined.
