(* ===== verification/RealmControl.v ===== *)
(** * The client of the rendezvous (src/third_party/sing-quic/hysteria2/realm/control.go)

    The exchange of addresses and metadata, and the stream of events that tells a node
    who wants to reach it.  HTTP and JSON are parameters: [post] and [Unmarshal]. *)

From S2P Require Import Prelude GoStd Metadata Binary Instances Datagram RealmPacket.
From Stdlib Require Import Strings.Byte Strings.Ascii.
Import netip RealmPacket.

Open Scope N_scope.

Module RealmControl.

Section Control.
Context `{E : Externals}.

(** ** Metadata on the wire *)

Record punchMetadataWire : Type := mkPunchMetadataWire {
  w_Addresses : list AddrPort;
  w_Nonce : string;
  w_Obfs : string;
  w_Relay : list AddrPort;
}.

(** [hex.EncodeToString] *)
Definition EncodeToString (l : list byte) : string :=
  String.string_of_list_ascii (flat_map (fun b => [net.hex_char (Byte.to_N b / 16); net.hex_char (Byte.to_N b mod 16)]) l).
(** [hex.DecodeString] *)
Definition DecodeString (s : string) : result (list byte) :=
  match net.hex_DecodeString s with
  | Some l => Ok (map byte_of_N l)
  | None => Err (ErrExternal "encoding/hex: invalid byte or odd length hex string")
  end.

Definition decodeWireMetadata (nonceHex obfsHex : string) : result PunchMetadata :=
  nonce ← map_err (fun err => E_Cause err ["decode nonce"]) (DecodeString nonceHex);
  if negb (length nonce =? 16)%nat then Err (E_New ["invalid nonce length: "; F_int (Z.of_nat (length nonce))])
  else
    obfs ← map_err (fun err => E_Cause err ["decode obfs"]) (DecodeString obfsHex);
    if negb (length obfs =? 32)%nat then Err (E_New ["invalid obfs length: "; F_int (Z.of_nat (length obfs))])
    else Ok (mkPunchMetadata nonce obfs).

(** ** Connect *)

Record ConnectResponse : Type := mkConnectResponse {
  c_Addresses : list AddrPort;
  c_PunchMetadata : PunchMetadata;
  c_Relay : list AddrPort;
}.

(** [post]: the exchange with the control server, [doJSON]. *)
Definition Connect (post : string -> punchMetadataWire -> result punchMetadataWire)
    (realmID : string) (addresses : list AddrPort) (metadata : PunchMetadata) : result ConnectResponse :=
  raw ← map_err (fun err => E_Cause err ["connect"])
    (post realmID (mkPunchMetadataWire addresses (EncodeToString (Nonce metadata)) (EncodeToString (ObfuscationKey metadata)) []));
  metaOut ← map_err (fun err => E_Cause err ["decode connect response metadata"]) (decodeWireMetadata (w_Nonce raw) (w_Obfs raw));
  Ok (mkConnectResponse (w_Addresses raw) metaOut (w_Relay raw)).

(** ** Events *)

Record PunchEvent : Type := mkPunchEvent { v_Addresses : list AddrPort; v_PunchMetadata : PunchMetadata }.

(** [json.Unmarshal] to the wire format. *)
Variable Unmarshal : string -> option punchMetadataWire.

(** The scanner: the lines to come, and its error at their end. *)
Record EventStream : Type := mkEventStream { lines : list string; scanErr : option error }.

(** [strings.Cut(line, ":")] *)
Definition Cut (line : string) : option (string * string) :=
  match strings.Index line ":" with
  | Some i => Some (strings.take_str i line, strings.drop_str (S i) line)
  | None => None
  end.
Definition isComment (line : string) : bool :=
  match line with String c _ => bool_decide (c = ":"%char) | EmptyString => false end.

(** What a punch event in [data] holds. *)
Definition parseEvent (data : string) : option PunchEvent :=
  raw ← Unmarshal data;
  match decodeWireMetadata (w_Nonce raw) (w_Obfs raw) with
  | Ok metadata => Some (mkPunchEvent (w_Addresses raw) metadata)
  | _ => None
  end.

(** [dataBuilder] after another line of data. *)
Definition addData (data value : string) : string :=
  (if bool_decide (data = "") then data else data +:+ String "010" "") +:+ value.

Fixpoint nextEvent (ls : list string) (eventType data : string) : option PunchEvent * list string :=
  match ls with
  | [] => (None, [])
  | line :: ls =>
      if bool_decide (line = "") then
        if bool_decide (eventType = "punch") && negb (bool_decide (data = "")) then
          match parseEvent data with
          | Some event => (Some event, ls)
          | None => nextEvent ls "" ""
          end
        else nextEvent ls "" ""
      else if isComment line then nextEvent ls eventType data
      else
        match Cut line with
        | None => nextEvent ls eventType data
        | Some (field, value) =>
            let value := strings.TrimSpace unicode_tables value in
            if bool_decide (field = "event") then nextEvent ls value data
            else if bool_decide (field = "data") then nextEvent ls eventType (addData data value)
            else nextEvent ls eventType data
        end
  end.

Definition Next (s : EventStream) : result PunchEvent * EventStream :=
  match nextEvent (lines s) "" "" with
  | (Some event, rest) => (Ok event, mkEventStream rest (scanErr s))
  | (None, rest) =>
      (match scanErr s with
       | Some err => Err (E_Cause err ["read event stream"])
       | None => Err ErrEOF
       end, mkEventStream rest (scanErr s))
  end.

(** ** Metadata comes through *)

Lemma hex_byte_chars (b : byte) :
  net.hex_byte (net.hex_char (Byte.to_N b / 16)) (net.hex_char (Byte.to_N b mod 16)) = Some (Byte.to_N b).
Proof. destruct b; reflexivity. Qed.

Lemma DecodeString_EncodeToString l : DecodeString (EncodeToString l) = Ok l.
Proof.
  unfold DecodeString, EncodeToString, net.hex_DecodeString. rewrite String.list_ascii_of_string_of_list_ascii.
  assert (net.hex_decode (flat_map (fun b => [net.hex_char (Byte.to_N b / 16); net.hex_char (Byte.to_N b mod 16)]) l)
          = Some (map Byte.to_N l)) as ->.
  { induction l as [|b l IH]; [done|]. cbn [flat_map app net.hex_decode]. by rewrite hex_byte_chars, IH. }
  rewrite map_map. f_equal. rewrite <- (map_id l) at 2. apply map_ext, byte_of_to_N.
Qed.

Lemma decodeWireMetadata_encoded metadata : wf_metadata metadata ->
  decodeWireMetadata (EncodeToString (Nonce metadata)) (EncodeToString (ObfuscationKey metadata)) = Ok metadata.
Proof.
  intros [Hn Ho]. unfold decodeWireMetadata. rewrite !DecodeString_EncodeToString. cbn [map_err mbind result_bind].
  rewrite Hn, Ho. by destruct metadata.
Qed.

Lemma decodeWireMetadata_wf nonceHex obfsHex metadata :
  decodeWireMetadata nonceHex obfsHex = Ok metadata -> wf_metadata metadata.
Proof.
  unfold decodeWireMetadata. intros (nonce & _ & H)%bind_Ok_inv. destruct (Nat.eqb_spec (length nonce) 16); [|done].
  cbn [negb] in H. apply bind_Ok_inv in H as (obfs & _ & H). destruct (Nat.eqb_spec (length obfs) 32); [|done].
  by injection H as <-.
Qed.

(** ** Events come through *)

(** A frame of the stream: comments, and fields with their values. *)
Inductive entry : Type :=
| Comment (text : string)
| Field (name value : string).
Definition frame : Type := list entry.

Definition lineOf (e : entry) : string :=
  match e with Comment text => ":" +:+ text | Field name value => name +:+ ":" +:+ value end.
Definition render (f : frame) : list string := map lineOf f ++ [""].

Fixpoint colonless (s : string) : bool :=
  match s with EmptyString => true | String c s => negb (bool_decide (c = ":"%char)) && colonless s end.
Definition wf_entry (e : entry) : bool :=
  match e with Comment _ => true | Field name _ => negb (bool_decide (name = "")) && colonless name end.

(** The type and the data after the fields of a frame. *)
Fixpoint fieldsOf (f : frame) (eventType data : string) : string * string :=
  match f with
  | [] => (eventType, data)
  | Comment _ :: f => fieldsOf f eventType data
  | Field name value :: f =>
      let value := strings.TrimSpace unicode_tables value in
      if bool_decide (name = "event") then fieldsOf f value data
      else if bool_decide (name = "data") then fieldsOf f eventType (addData data value)
      else fieldsOf f eventType data
  end.

(** What a frame announces. *)
Definition eventOf (f : frame) : option PunchEvent :=
  let '(eventType, data) := fieldsOf f "" "" in
  if bool_decide (eventType = "punch") && negb (bool_decide (data = "")) then parseEvent data else None.

(** The events of a stream until its end, and the error there. *)
Fixpoint drain (n : nat) (s : EventStream) : list PunchEvent * option error :=
  match n with
  | O => ([], None)
  | S n =>
      match Next s with
      | (Ok event, s) => let '(events, err) := drain n s in (event :: events, err)
      | (Err err, _) => ([], Some err)
      | (Panic _, _) => ([], None)
      end
  end.

Lemma index_colon f v : colonless f = true -> strings.Index (f +:+ ":" +:+ v) ":" = Some (String.length f).
Proof.
  unfold strings.Index. induction f as [|c f IH]; [by destruct v|]. cbn [colonless].
  intros [Hc Hf]%andb_prop. apply negb_true_iff, bool_decide_eq_false in Hc. specialize (IH Hf).
  change (String c f +:+ ":" +:+ v) with (String c (f +:+ ":" +:+ v)).
  cbn [String.index String.prefix String.length]. destruct (ascii_dec ":" c); [congruence|].
  change (match String.index 0 ":" (f +:+ ":" +:+ v) with Some n => Some (S n) | None => None end = Some (S (String.length f))).
  by rewrite IH.
Qed.

Lemma substring_all s : String.substring 0 (String.length s) s = s.
Proof. induction s as [|c s IH]; simpl; [done|]. by rewrite IH. Qed.

Lemma Cut_field f v : colonless f = true -> Cut (f +:+ ":" +:+ v) = Some (f, v).
Proof.
  intros Hf. unfold Cut. rewrite index_colon by done. f_equal. f_equal.
  - unfold strings.take_str. clear Hf. induction f as [|c f IH]; simpl; [done|]. by rewrite IH.
  - unfold strings.drop_str. clear Hf. induction f as [|c f IH]; simpl in *; [by rewrite Nat.sub_0_r, substring_all|]. exact IH.
Qed.

Lemma nextEvent_fields f ls eventType data : forallb wf_entry f = true ->
  nextEvent (map lineOf f ++ ls) eventType data = nextEvent ls (fieldsOf f eventType data).1 (fieldsOf f eventType data).2.
Proof.
  revert eventType data. induction f as [|e f IH]; intros eventType data; simpl; [done|].
  intros [He Hf]%andb_prop. destruct e as [text|name value]; cbn [lineOf].
  { rewrite bool_decide_eq_false_2 by done. assert (isComment (":" +:+ text) = true) as -> by done. by apply IH. }
  cbn [wf_entry] in He. apply andb_prop in He as [Hn Hc]. destruct name as [|c name]; [done|].
  rewrite bool_decide_eq_false_2 by done.
  assert (isComment (String c name +:+ ":" +:+ value) = false) as ->.
  { cbn [colonless] in Hc. apply andb_prop in Hc as [Hc _]. by apply negb_true_iff in Hc. }
  rewrite Cut_field by done.
  cbn zeta. destruct (bool_decide (String c name = "event")), (bool_decide (String c name = "data")); by apply IH.
Qed.

Lemma nextEvent_frame f ls : forallb wf_entry f = true ->
  nextEvent (render f ++ ls) "" "" = match eventOf f with Some event => (Some event, ls) | None => nextEvent ls "" "" end.
Proof.
  intros Hf. unfold render. rewrite <- app_assoc, nextEvent_fields by done. cbn [app nextEvent].
  rewrite bool_decide_eq_true_2 by done. unfold eventOf. destruct (fieldsOf f "" "") as [t d]. cbn [fst snd].
  by destruct (_ && _).
Qed.

Lemma Next_frames frames err : forallb (forallb wf_entry) frames = true ->
  match Next (mkEventStream (concat (map render frames)) err) with
  | (Ok event, s) => exists frames', s = mkEventStream (concat (map render frames')) err
      /\ forallb (forallb wf_entry) frames' = true /\ omap eventOf frames = event :: omap eventOf frames'
  | (Err e, _) => omap eventOf frames = [] /\ e = match err with Some err => E_Cause err ["read event stream"] | None => ErrEOF end
  | (Panic _, _) => False
  end.
Proof.
  unfold Next. cbn [lines scanErr]. induction frames as [|f frames IH]; simpl; [by destruct err|].
  intros [Hf Hfs]%andb_prop. rewrite nextEvent_frame by done.
  destruct (eventOf f) as [event|]; [|by apply IH]. by exists frames.
Qed.

(** A node that reads the stream of the rendezvous gets every event that the stream
    announces, in order and once, whatever comments, other fields, other events and
    undecodable events are in between, and then the end of the stream or the error of the
    connection. *)
Theorem events_in_order frames err : forallb (forallb wf_entry) frames = true ->
  drain (S (length frames)) (mkEventStream (concat (map render frames)) err)
  = (omap eventOf frames, Some (match err with Some err => E_Cause err ["read event stream"] | None => ErrEOF end)).
Proof.
  assert (Hn : forall n frames, (length (omap eventOf frames) < n)%nat -> forallb (forallb wf_entry) frames = true ->
    drain n (mkEventStream (concat (map render frames)) err)
    = (omap eventOf frames, Some (match err with Some err => E_Cause err ["read event stream"] | None => ErrEOF end))).
  { intros n. induction n as [|n IH]; intros fs Hl Hf; [lia|]. cbn [drain]. pose proof (Next_frames fs err Hf) as H.
    destruct (Next _) as [[event|e|msg] s]; [|by destruct H as [-> ->]|done].
    destruct H as (fs' & -> & Hf' & He). rewrite He in *. simpl in Hl. rewrite IH by (done || lia). done. }
  intros Hf. apply Hn; [|done]. clear. induction frames as [|f frames IH]; [simpl; lia|].
  change (omap eventOf (f :: frames)) with (match eventOf f with Some x => x :: omap eventOf frames | None => omap eventOf frames end).
  destruct (eventOf f); cbn [length]; lia.
Qed.

End Control.

End RealmControl.

(** A keep-alive, an event of another kind, an event that does not decode, and two calls. *)
Definition sampleWire (first : byte) : RealmControl.punchMetadataWire :=
  RealmControl.mkPunchMetadataWire [AddrPortFrom (Addr4 0xC0000201) 4000]
    (RealmControl.EncodeToString (first :: repeat x01 15)) (RealmControl.EncodeToString (repeat x02 32)) [].
Definition sampleUnmarshal (data : string) : option RealmControl.punchMetadataWire :=
  if bool_decide (data = "{a}") then Some (sampleWire x0a) else if bool_decide (data = "{b}") then Some (sampleWire x0b) else None.
Definition sampleFrames : list RealmControl.frame :=
  [ [RealmControl.Comment "ping"];
    [RealmControl.Field "event" " punch"; RealmControl.Field "data" " {a}"];
    [RealmControl.Field "event" " closing"; RealmControl.Field "data" " {b}"];
    [RealmControl.Field "event" " punch"; RealmControl.Field "data" " {"];
    [RealmControl.Field "id" "7"; RealmControl.Field "event" "punch"; RealmControl.Comment ""; RealmControl.Field "data" "{b}"] ].

Lemma events_in_order_witness :
  RealmControl.drain (E := sampleExternals) sampleUnmarshal 6 (RealmControl.mkEventStream (concat (map RealmControl.render sampleFrames)) None)
  = ([RealmControl.mkPunchEvent [AddrPortFrom (Addr4 0xC0000201) 4000] (mkPunchMetadata (x0a :: repeat x01 15) (repeat x02 32));
      RealmControl.mkPunchEvent [AddrPortFrom (Addr4 0xC0000201) 4000] (mkPunchMetadata (x0b :: repeat x01 15) (repeat x02 32))],
     Some ErrEOF).
Proof.
  etransitivity; [exact (RealmControl.events_in_order (E := sampleExternals) sampleUnmarshal sampleFrames None eq_refl)|].
  vm_compute. reflexivity.
Defined.
