(* ===== verification/Rendezvous.v ===== *)
(** * The rendezvous of realms (src/protocol/hysteria2/realm_server.go)

    Nodes register a realm, keep their session alive and read a stream of events; a
    client that connects is announced to the node and gets the addresses of the node.
    Requests run at the same time: every section under the lock is a step of its own, and
    a request is a [thread] between two of them.  Sessions and channels are pointers into
    stores, because requests hold on to a session that others remove. *)

From S2P Require Import Prelude GoStd Metadata Binary Datagram RealmPacket RealmControl.
From Stdlib Require Import Strings.Byte Strings.Ascii.
Import RealmControl.

Open Scope Z_scope.

Module Rendezvous.

Definition Second : Z := 10 ^ 9.
Definition sessionTTL : Z := 60 * Second.
Definition maxAddresses : nat := 8.
Definition nonceHexLength : nat := 32.
Definition obfsHexLength : nat := 64.
Definition eventChannelSize : nat := 16.
Definition maxPendingAttempts : nat := 16.
Definition connectResponseTimeout : Z := 10 * Second.

(** The pattern [^[A-Za-z0-9][A-Za-z0-9_-]{0,63}$]. *)
Definition alphanumeric (c : ascii) : bool :=
  let n := N_of_ascii c in
  ((48 <=? n) && (n <=? 57) || (65 <=? n) && (n <=? 90) || (97 <=? n) && (n <=? 122))%N.
Definition realmPattern (id : string) : bool :=
  match String.list_ascii_of_string id with
  | c :: rest =>
      alphanumeric c && forallb (fun c => alphanumeric c || bool_decide (c = "_"%char) || bool_decide (c = "-"%char)) rest
      && (length rest <=? 63)%nat
  | [] => false
  end.

(** ** State *)

Record realmUser : Type := mkRealmUser { u_name : string; u_maxRealms : Z }.

Record punchEvent : Type := mkPunchEvent_ { p_Addresses : list string; p_Nonce : string; p_Obfs : string }.
(** The kinds [punch] and [heartbeat_ack] with their data. *)
Inductive realmEvent : Type :=
| PunchKind (data : punchEvent)
| HeartbeatAck (ttl : Z).

#[export] Instance punchEvent_eq_dec : EqDecision punchEvent.
Proof. solve_decision. Defined.
#[export] Instance realmEvent_eq_dec : EqDecision realmEvent.
Proof. solve_decision. Defined.

(** A [chan punchResponsePayload] with room for one payload, its addresses. *)
Record channel : Type := mkChannel { ch_payload : option (list string); ch_closed : bool }.

(** [s_timer]: when the timer fires; [None]: it is stopped or has fired.  [s_done]: the
    channel [done] is closed; [s_eventsOpen]: the channel [events] is not. *)
Record realmSession : Type := mkRealmSession {
  s_id : string;
  s_realmID : string;
  s_username : string;
  s_addresses : list string;
  s_relay : list string;
  s_expires : Z;
  s_events : list realmEvent;
  s_eventsOpen : bool;
  s_timer : option Z;
  s_done : bool;
  s_closed : bool;
  s_pending : gmap string nat;
}.

Record server : Type := mkServer {
  store : gmap nat realmSession;
  channels : gmap nat channel;
  realms : gmap string nat;
  sessions : gmap string nat;
  userCounts : gmap string Z;
  nextSession : nat;
  nextChannel : nat;
}.

Definition newServer : server := mkServer ∅ ∅ ∅ ∅ ∅ 0 0.

Definition setSession (p : nat) (sess : realmSession) (s : server) : server := {| s with store := <[p := sess]> (store s) |}.
Definition count (s : server) (user : string) : Z := default 0 (userCounts s !! user).

(** ** Replies *)

(** A failure carries its status, and the fields [error] and [message]. *)
Inductive response : Type :=
| Failure (status : N) (code : string) (message : error)
| Registered (session_id : string) (ttl : Z)
| HeartbeatReply (ttl : Z)
| NoContent
| Connected (addresses : list string) (nonce obfs : string) (relay : list string)
| StreamEnd
| NoReply.

Definition badRequest (message : error) : response := Failure 400 "bad_request" message.
Definition realmNotFound : response := Failure 404 "realm_not_found" (E_New ["realm not registered"]).

(** ** Authentication *)

Definition authBearer {A} (name header : string) (lookup : string -> option A) : response + A :=
  let invalid := Failure 401 "invalid_token" (E_New ["invalid " +:+ name +:+ " token"]) in
  match strings.Index header " " with
  | Some i =>
      if negb (bool_decide (strings.take_str i header = "Bearer")) then inl invalid
      else match lookup (strings.drop_str (S i) header) with Some value => inr value | None => inl invalid end
  | None => inl invalid
  end.

Definition getSessionByToken (now : Z) (token : string) (s : server) : option (nat * realmSession) :=
  p ← sessions s !! token;
  sess ← store s !! p;
  if s_closed sess || (s_expires sess <? now) then None else Some (p, sess).

Definition authSession (now : Z) (id header : string) (s : server) : response + nat :=
  authBearer "session" header (fun token =>
    '(p, sess) ← getSessionByToken now token s;
    if bool_decide (s_realmID sess = id) then Some p else None).

(** ** Channels *)

(** [close] *)
Definition closeChannel (ch : nat) (chs : gmap nat channel) : result (gmap nat channel) :=
  match chs !! ch with
  | Some c => if ch_closed c then Panic "close of closed channel" else Ok (<[ch := {| c with ch_closed := true |}]> chs)
  | None => Panic "close of nil channel"
  end.
Fixpoint closeChannels (l : list nat) (chs : gmap nat channel) : result (gmap nat channel) :=
  match l with
  | [] => Ok chs
  | ch :: l => chs ← closeChannel ch chs; closeChannels l chs
  end.

(** ** Sections under the lock *)

(** The counter of the user of a session that is removed. *)
Definition uncount (sess : realmSession) (s : server) : gmap string Z :=
  if bool_decide (is_Some (sessions s !! s_id sess)) then
    let n := count s (s_username sess) - 1 in
    if n <=? 0 then delete (s_username sess) (userCounts s) else <[s_username sess := n]> (userCounts s)
  else userCounts s.

Definition removeSessionLocked (p : nat) (s : server) : result server :=
  match store s !! p with
  | None => Panic "nil pointer dereference"
  | Some sess =>
      if s_closed sess then Ok s
      else if s_done sess || negb (s_eventsOpen sess) then Panic "close of closed channel"
      else
        chs ← closeChannels (map snd (map_to_list (s_pending sess))) (channels s);
        Ok {| s with
          store := <[p := {| sess with s_closed := true; s_done := true; s_timer := None; s_eventsOpen := false; s_pending := ∅ |}]> (store s);
          channels := chs;
          realms := if bool_decide (realms s !! s_realmID sess = Some p) then delete (s_realmID sess) (realms s) else realms s;
          userCounts := uncount sess s;
          sessions := delete (s_id sess) (sessions s) |}
  end.

Definition removeExpiredSession (now : Z) (p : nat) (s : server) : result server :=
  match store s !! p with
  | None => Panic "nil pointer dereference"
  | Some sess => if s_closed sess || negb (s_expires sess <? now) then Ok s else removeSessionLocked p s
  end.

Fixpoint removeSessions (l : list nat) (s : server) : result server :=
  match l with
  | [] => Ok s
  | p :: l => s ← removeSessionLocked p s; removeSessions l s
  end.
Definition closeAll (s : server) : result server := removeSessions (map snd (map_to_list (sessions s))) s.

Definition registerPending (p : nat) (nonce : string) (s : server) : option (nat * server) :=
  sess ← store s !! p;
  if s_closed sess || (maxPendingAttempts <=? size (s_pending sess))%nat then None
  else if bool_decide (is_Some (s_pending sess !! nonce)) then None
  else
    let ch := nextChannel s in
    Some (ch, {| s with store := <[p := {| sess with s_pending := <[nonce := ch]> (s_pending sess) |}]> (store s);
                        channels := <[ch := mkChannel None false]> (channels s); nextChannel := S ch |}).

Definition deliverPending (p : nat) (nonce : string) (addresses : list string) (s : server) : result (bool * server) :=
  match store s !! p with
  | None => Panic "nil pointer dereference"
  | Some sess =>
      if s_closed sess then Ok (false, s)
      else
        match s_pending sess !! nonce with
        | None => Ok (false, s)
        | Some ch =>
            let s := setSession p {| sess with s_pending := delete nonce (s_pending sess) |} s in
            match channels s !! ch with
            | None => Ok (true, s)
            | Some c =>
                if ch_closed c then Panic "send on closed channel"
                else Ok (true, match ch_payload c with
                               | None => {| s with channels := <[ch := {| c with ch_payload := Some addresses |}]> (channels s) |}
                               | Some _ => s
                               end)
            end
        end
  end.

Definition cancelPending (p : nat) (nonce : string) (s : server) : server :=
  match store s !! p with
  | Some sess => setSession p {| sess with s_pending := delete nonce (s_pending sess) |} s
  | None => s
  end.

Definition sendEvent (p : nat) (ev : realmEvent) (s : server) : result (bool * server) :=
  match store s !! p with
  | None => Panic "nil pointer dereference"
  | Some sess =>
      if s_closed sess then Ok (false, s)
      else if negb (s_eventsOpen sess) then Panic "send on closed channel"
      else if (length (s_events sess) <? eventChannelSize)%nat
      then Ok (true, setSession p {| sess with s_events := s_events sess ++ [ev] |} s)
      else Ok (false, s)
  end.

(** ** Requests *)

(** The bodies; a field that is missing is [None]. *)
Record addressesRequest : Type := mkAddressesRequest { a_Addresses : option (list string); a_Relay : option (list string) }.
Record connectRequest : Type := mkConnectRequest { r_Addresses : list string; r_Nonce : string; r_Obfs : string }.

(** Where a request waits for the lock, for a channel, or has replied. *)
Inductive thread : Type :=
| Deregistering (p : nat)
| Heartbeating (p : nat) (req : addressesRequest)
| Acknowledging (p : nat)
| Streaming (p : nat)
| Found (p : nat) (addresses relay : list string) (req : connectRequest)
| Announcing (p : nat) (addresses relay : list string) (req : connectRequest) (ch : nat)
| Waiting (p : nat) (addresses relay : list string) (req : connectRequest) (ch : nat) (deadline : Z)
| Leaving (p : nat) (nonce : string) (reply : response)
| Delivering (p : nat) (nonce : string) (addresses : list string)
| Expiring (p : nat)
| Done (reply : response).

(** What happened: [Reported]: a node told its addresses; [Sent], [Streamed]: an event was
    put into the channel of a session, or written to a stream; [Answered]: a node told the
    addresses for an attempt. *)
Inductive fact : Type :=
| Reported (p : nat) (time : Z) (addresses relay : option (list string))
| Sent (p tid : nat) (ev : realmEvent)
| Streamed (p tid : nat) (ev : realmEvent)
| Answered (p : nat) (nonce : string) (addresses : list string).

Record world : Type := mkWorld {
  srv : server;
  now : Z;
  threads : gmap nat thread;
  facts : list fact;
}.
Definition newWorld (time : Z) : world := mkWorld newServer time ∅ [].

(** A case of the [select] statements. *)
Inductive choice : Type := FromChannel | FromTimer | FromDone | FromContext.

Inductive action : Type :=
| Advance (d : N)
| Register (tid : nat) (header id : string) (body : result addressesRequest) (random : result (list byte))
| Deregister (tid : nat) (header id : string)
| Heartbeat (tid : nat) (header id : string) (body : result addressesRequest)
| Events (tid : nat) (header id : string)
| Connect (tid : nat) (header id : string) (body : result connectRequest)
| ConnectResponse (tid : nat) (header id nonce : string) (body : result (list string))
| TimerFires (tid p : nat)
| CloseAll
| Run (tid : nat) (c : choice).

Definition proceed (tid : nat) (t : thread) (w : world) : world := {| w with threads := <[tid := t]> (threads w) |}.
Definition note (f : fact) (w : world) : world := {| w with facts := facts w ++ [f] |}.
Definition onServer (w : world) (s : server) : world := {| w with srv := s |}.

Section Server.
(** [netip.ParseAddrPort], and the tokens of the users. *)
Variable ParseAddrPort : string -> option AddrPort.
Variable tokenMap : gmap string realmUser.

Definition authUser (header : string) : response + realmUser := authBearer "realm" header (fun token => tokenMap !! token).

Definition validateAddresses (addresses : list string) : option error :=
  if (length addresses =? 0)%nat then Some (E_New ["at least one address required"])
  else if (maxAddresses <? length addresses)%nat then Some (E_New ["too many addresses (max "; pretty maxAddresses; ")"])
  else
    match filter (fun address => ParseAddrPort address = None) addresses with
    | address :: _ => Some (E_New ["invalid address: "; address])
    | [] => None
    end.
(** A field that may be missing. *)
Definition validateOptional (addresses : option (list string)) : option error :=
  match addresses with Some addresses => validateAddresses addresses | None => None end.

Definition validateHexField (name value : string) (len : nat) : option error :=
  if negb (String.length value =? len)%nat then Some (E_New [name; " must be "; pretty len; " hex characters"])
  else match DecodeString value with Ok _ => None | _ => Some (E_New [name; " must be valid hex"]) end.

(** ** The start of requests *)

(** The session that a registration creates. *)
Definition newSession (time : Z) (user : realmUser) (id : string) (req : addressesRequest) (b : list byte) : realmSession :=
  mkRealmSession (EncodeToString b) id (u_name user) (default [] (a_Addresses req)) (default [] (a_Relay req))
    (time + sessionTTL) [] true (Some (time + sessionTTL)) false false ∅.

Definition handleRegister (tid : nat) (user : realmUser) (id : string) (body : result addressesRequest)
    (random : result (list byte)) (w : world) : world :=
  let reply r := proceed tid (Done r) w in
  match body with
  | Ok req =>
      match validateAddresses (default [] (a_Addresses req)), validateOptional (a_Relay req) with
      | Some err, _ => reply (badRequest err)
      | None, Some err => reply (badRequest err)
      | None, None =>
          let s := srv w in
          if bool_decide (is_Some (realms s !! id)) then reply (Failure 409 "realm_taken" (E_New ["realm already registered"]))
          else if (0 <? u_maxRealms user) && (u_maxRealms user <=? count s (u_name user))
          then reply (Failure 429 "realm_limit_reached" (E_New ["per-user realm limit reached"]))
          else
            match random with
            | Ok b =>
                let p := nextSession s in
                let sess := newSession (now w) user id req b in
                let s := {| s with store := <[p := sess]> (store s); realms := <[id := p]> (realms s);
                                   sessions := <[s_id sess := p]> (sessions s);
                                   userCounts := <[u_name user := count s (u_name user) + 1]> (userCounts s); nextSession := S p |} in
                note (Reported p (now w) (a_Addresses req) (a_Relay req))
                  (proceed tid (Done (Registered (s_id sess) (sessionTTL `div` Second))) (onServer w s))
            | _ => reply (Failure 500 "internal" (E_New ["entropy failure"]))
            end
      end
  | _ => reply (badRequest (E_New ["invalid json"]))
  end.

(** [handleHeartbeat] until it takes the lock; a body may be missing. *)
Definition handleHeartbeat (tid p : nat) (body : result addressesRequest) (w : world) : world :=
  let reply r := proceed tid (Done r) w in
  let req := match body with
             | Ok req => Some req
             | Err err => if errors.Is err ErrEOF then Some (mkAddressesRequest None None) else None
             | Panic _ => None
             end in
  match req with
  | Some req =>
      match validateOptional (a_Addresses req), validateOptional (a_Relay req) with
      | Some err, _ => reply (badRequest err)
      | None, Some err => reply (badRequest err)
      | None, None => proceed tid (Heartbeating p req) w
      end
  | None => reply (badRequest (E_New ["invalid json"]))
  end.

(** [handleConnect] until it has looked up the session. *)
Definition handleConnect (tid : nat) (id : string) (body : result connectRequest) (w : world) : world :=
  let reply r := proceed tid (Done r) w in
  match body with
  | Ok req =>
      match validateAddresses (r_Addresses req), validateHexField "nonce" (r_Nonce req) nonceHexLength,
            validateHexField "obfs" (r_Obfs req) obfsHexLength with
      | Some err, _, _ | None, Some err, _ | None, None, Some err => reply (badRequest err)
      | None, None, None =>
          match realms (srv w) !! id ≫= (fun p => pair p <$> store (srv w) !! p) with
          | Some (p, sess) =>
              if s_closed sess || (s_expires sess <? now w) then reply realmNotFound
              else proceed tid (Found p (s_addresses sess) (s_relay sess) req) w
          | None => reply realmNotFound
          end
      end
  | _ => reply (badRequest (E_New ["invalid json"]))
  end.

Definition handleConnectResponse (tid p : nat) (nonce : string) (body : result (list string)) (w : world) : world :=
  let reply r := proceed tid (Done r) w in
  match validateHexField "nonce" nonce nonceHexLength, body with
  | Some err, _ => reply (badRequest err)
  | None, Ok addresses =>
      match validateAddresses addresses with
      | Some err => reply (badRequest err)
      | None => proceed tid (Delivering p nonce addresses) w
      end
  | None, _ => reply (badRequest (E_New ["invalid json"]))
  end.

(** ** The sections of a request *)

Definition punchOf (req : connectRequest) : realmEvent := PunchKind (mkPunchEvent_ (r_Addresses req) (r_Nonce req) (r_Obfs req)).
Definition ttlSeconds : Z := sessionTTL `div` Second.

(** The section of [handleHeartbeat] under the lock. *)
Definition heartbeat (time : Z) (req : addressesRequest) (sess : realmSession) : realmSession :=
  {| sess with s_expires := time + sessionTTL; s_addresses := default (s_addresses sess) (a_Addresses req);
               s_relay := default (s_relay sess) (a_Relay req); s_timer := Some (time + sessionTTL) |}.

(** The [select] of [handleConnect]: the reply, and the channels. *)
Definition await (c : choice) (p : nat) (addresses relay : list string) (req : connectRequest) (ch : nat) (deadline : Z) (w : world)
    : option (response * gmap nat channel) :=
  let connected addresses := Connected addresses (r_Nonce req) (r_Obfs req) relay in
  match c with
  | FromChannel =>
      chan ← channels (srv w) !! ch;
      match ch_payload chan with
      | Some payload =>
          Some (connected (if (0 <? length payload)%nat then payload else addresses), <[ch := {| chan with ch_payload := None |}]> (channels (srv w)))
      | None => if ch_closed chan then Some (realmNotFound, channels (srv w)) else None
      end
  | FromTimer => if deadline <=? now w then Some (connected addresses, channels (srv w)) else None
  | FromDone => sess ← store (srv w) !! p; if s_done sess then Some (realmNotFound, channels (srv w)) else None
  | FromContext => Some (NoReply, channels (srv w))
  end.

(** The next section of the request [tid]; [None] when it has to wait. *)
Definition resume (tid : nat) (c : choice) (t : thread) (w : world) : option (result world) :=
  let reply r w := proceed tid (Done r) w in
  match t with
  | Deregistering p => Some (s ← removeSessionLocked p (srv w); Ok (reply NoContent (onServer w s)))
  | Heartbeating p req =>
      sess ← store (srv w) !! p;
      Some (Ok (note (Reported p (now w) (a_Addresses req) (a_Relay req))
        (proceed tid (Acknowledging p) (onServer w (setSession p (heartbeat (now w) req sess) (srv w))))))
  | Acknowledging p =>
      Some ('(sent, s) ← sendEvent p (HeartbeatAck ttlSeconds) (srv w);
            let w := reply (HeartbeatReply ttlSeconds) (onServer w s) in
            Ok (if (sent : bool) then note (Sent p tid (HeartbeatAck ttlSeconds)) w else w))
  | Streaming p =>
      match c with
      | FromContext => Some (Ok (reply StreamEnd w))
      | FromChannel =>
          sess ← store (srv w) !! p;
          match s_events sess with
          | ev :: rest => Some (Ok (note (Streamed p tid ev) (onServer w (setSession p {| sess with s_events := rest |} (srv w)))))
          | [] => if s_eventsOpen sess then None else Some (Ok (reply StreamEnd w))
          end
      | _ => None
      end
  | Found p addresses relay req =>
      match registerPending p (r_Nonce req) (srv w) with
      | Some (ch, s) => Some (Ok (proceed tid (Announcing p addresses relay req ch) (onServer w s)))
      | None => Some (Ok (reply (Failure 503 "rate_limited" (E_New ["too many in-flight connect attempts"])) w))
      end
  | Announcing p addresses relay req ch =>
      Some ('(sent, s) ← sendEvent p (punchOf req) (srv w);
            let w := onServer w s in
            Ok (if (sent : bool)
                then note (Sent p tid (punchOf req)) (proceed tid (Waiting p addresses relay req ch (now w + connectResponseTimeout)) w)
                else proceed tid (Leaving p (r_Nonce req) (Failure 503 "rate_limited" (E_New ["server event buffer full"]))) w))
  | Waiting p addresses relay req ch deadline =>
      '(r, chs) ← await c p addresses relay req ch deadline w;
      Some (Ok (proceed tid (Leaving p (r_Nonce req) r) (onServer w {| (srv w) with channels := chs |})))
  | Leaving p nonce r => Some (Ok (reply r (onServer w (cancelPending p nonce (srv w)))))
  | Delivering p nonce addresses =>
      Some ('(delivered, s) ← deliverPending p nonce addresses (srv w);
            let w := onServer w s in
            Ok (if (delivered : bool) then note (Answered p nonce addresses) (reply NoContent w)
                else reply (Failure 404 "attempt_not_found" (E_New ["no pending attempt for nonce"])) w))
  | Expiring p => Some (s ← removeExpiredSession (now w) p (srv w); Ok (reply NoReply (onServer w s)))
  | Done _ => None
  end.

(** A request to a route of the realm [id]: the middlewares, and then its handler. *)
Definition routed {A} (tid : nat) (id : string) (auth : response + A) (handler : A -> world -> world) (w : world) : option (result world) :=
  if bool_decide (is_Some (threads w !! tid)) then None
  else Some (Ok (
    if negb (realmPattern id) then proceed tid (Done (badRequest (E_New ["invalid realm name"]))) w
    else match auth with inl r => proceed tid (Done r) w | inr a => handler a w end)).

Definition step (a : action) (w : world) : option (result world) :=
  let session id header := authSession (now w) id header (srv w) in
  match a with
  | Advance d => Some (Ok {| w with now := now w + Z.of_N d |})
  | Register tid header id body random => routed tid id (authUser header) (fun user => handleRegister tid user id body random) w
  | Deregister tid header id => routed tid id (session id header) (fun p => proceed tid (Deregistering p)) w
  | Heartbeat tid header id body => routed tid id (session id header) (fun p => handleHeartbeat tid p body) w
  | Events tid header id => routed tid id (session id header) (fun p => proceed tid (Streaming p)) w
  | Connect tid header id body => routed tid id (authUser header) (fun _ => handleConnect tid id body) w
  | ConnectResponse tid header id nonce body => routed tid id (session id header) (fun p => handleConnectResponse tid p nonce body) w
  | TimerFires tid p =>
      sess ← store (srv w) !! p;
      d ← s_timer sess;
      if bool_decide (is_Some (threads w !! tid)) || (now w <? d) then None
      else Some (Ok (proceed tid (Expiring p) (onServer w (setSession p {| sess with s_timer := None |} (srv w)))))
  | CloseAll => Some (s ← closeAll (srv w); Ok (onServer w s))
  | Run tid c => t ← threads w !! tid; resume tid c t w
  end.

(** A run; [None] when an action is not possible. *)
Fixpoint run (actions : list action) (w : world) : option (result world) :=
  match actions with
  | [] => Some (Ok w)
  | a :: actions =>
      match step a w with
      | Some (Ok w) => run actions w
      | out => out
      end
  end.

End Server.

End Rendezvous.
