(* ===== verification/RendezvousTheorems.v ===== *)
(** * Properties of the rendezvous (Rendezvous) *)

From S2P Require Import Prelude GoStd Metadata Binary Datagram RealmPacket RealmControl Rendezvous.
From Stdlib Require Import Strings.Byte.
From stdpp Require Import list.
Import RealmControl Rendezvous.

Open Scope nat_scope.

(** ** The server *)

(** The sessions of a user. *)
Definition owned (s : server) (user : string) : gmap string nat :=
  filter (fun ip => s_username <$> store s !! ip.2 = Some user) (sessions s).

Record SInv (s : server) : Prop := mkSInv {
  si_store : forall p sess, store s !! p = Some sess -> p < nextSession s;
  si_channels : forall c ch, channels s !! c = Some ch -> c < nextChannel s;
  si_realms : forall r p, realms s !! r = Some p -> exists sess, store s !! p = Some sess /\ s_closed sess = false /\ s_realmID sess = r;
  si_sessions : forall i p, sessions s !! i = Some p -> exists sess, store s !! p = Some sess /\ s_closed sess = false /\ s_id sess = i;
  si_live : forall p sess, store s !! p = Some sess -> s_closed sess = false ->
    realms s !! s_realmID sess = Some p /\ sessions s !! s_id sess = Some p;
  si_flags : forall p sess, store s !! p = Some sess ->
    s_done sess = s_closed sess /\ s_eventsOpen sess = negb (s_closed sess) /\ (s_closed sess = true -> s_pending sess = ∅);
  si_bounds : forall p sess, store s !! p = Some sess -> length (s_events sess) <= eventChannelSize /\ size (s_pending sess) <= maxPendingAttempts;
  si_pending : forall p sess n c, store s !! p = Some sess -> s_pending sess !! n = Some c -> channels s !! c = Some (mkChannel None false);
  si_distinct : forall p sess n p' sess' n' c, store s !! p = Some sess -> store s !! p' = Some sess' ->
    s_pending sess !! n = Some c -> s_pending sess' !! n' = Some c -> p = p' /\ n = n';
  si_counts : forall u, count s u = Z.of_nat (size (owned s u)) /\ forall n, userCounts s !! u = Some n -> (0 < n)%Z;
}.

Lemma SInv_new : SInv newServer.
Proof. by split. Qed.

Lemma owned_ext s s' u : sessions s' = sessions s ->
  (forall i p, sessions s !! i = Some p -> s_username <$> store s' !! p = s_username <$> store s !! p) -> owned s' u = owned s u.
Proof. intros Hs H. unfold owned. rewrite Hs. apply map_filter_ext. intros i p Hp. cbn. by rewrite (H i p Hp). Qed.

(** A change of one session that keeps what the maps of the server know about it. *)
Definition similar (sess sess' : realmSession) : Prop :=
  s_id sess' = s_id sess /\ s_realmID sess' = s_realmID sess /\ s_username sess' = s_username sess /\
  s_closed sess' = s_closed sess /\ s_done sess' = s_done sess /\ s_eventsOpen sess' = s_eventsOpen sess.

Lemma lookup_setSession s p sess' q k : store (setSession p sess' s) !! q = Some k -> (q = p /\ k = sess') \/ (q <> p /\ store s !! q = Some k).
Proof. cbn [setSession store]. rewrite lookup_insert_Some. naive_solver. Qed.

Lemma SInv_setSession s p sess sess' : SInv s -> store s !! p = Some sess -> similar sess sess' ->
  length (s_events sess') <= eventChannelSize -> s_pending sess' ⊆ s_pending sess -> SInv (setSession p sess' s).
Proof.
  intros H Hp (Hi & Hr & Hu & Hc & Hd & He) Hev Hsub. split; cbn [setSession realms sessions channels nextSession nextChannel userCounts].
  - intros q k [[-> ->]|[_ Hq]]%lookup_setSession; by eapply si_store.
  - apply H.
  - intros r q (k & Hk & Hkc & Hkr)%(si_realms _ H). cbn [setSession store]. destruct (decide (q = p)) as [->|Hne].
    + rewrite lookup_insert_eq. exists sess'. naive_solver.
    + rewrite lookup_insert_ne by done. eauto.
  - intros i q (k & Hk & Hkc & Hki)%(si_sessions _ H). cbn [setSession store]. destruct (decide (q = p)) as [->|Hne].
    + rewrite lookup_insert_eq. exists sess'. naive_solver.
    + rewrite lookup_insert_ne by done. eauto.
  - intros q k [[-> ->]|[_ Hq]]%lookup_setSession Hk; [|by apply H]. rewrite Hr, Hi. apply H; congruence.
  - intros q k [[-> ->]|[_ Hq]]%lookup_setSession; [|by apply (si_flags _ H q)]. rewrite Hd, He, Hc.
    destruct (si_flags _ H p sess Hp) as (-> & -> & Hpe). split_and!; [done..|]. intros Hcl. rewrite (Hpe Hcl) in Hsub.
    apply map_empty. intros n. destruct (s_pending sess' !! n) eqn:Hn; [|done]. eapply lookup_weaken in Hn; [|exact Hsub].
    by rewrite lookup_empty in Hn.
  - intros q k [[-> ->]|[_ Hq]]%lookup_setSession; [|by apply (si_bounds _ H q)]. split; [done|].
    etransitivity; [by apply map_subseteq_size|]. by apply (si_bounds _ H p).
  - intros q k n c [[-> ->]|[_ Hq]]%lookup_setSession Hn; [|by eapply (si_pending _ H q)]. eapply (si_pending _ H p); [done|].
    by eapply lookup_weaken.
  - intros q k n q' k' n' c [[-> ->]|[_ Hq]]%lookup_setSession [[-> ->]|[_ Hq']]%lookup_setSession Hn Hn';
      eapply (si_distinct _ H); eauto using lookup_weaken.
  - intros u. unfold count. cbn [userCounts]. rewrite (owned_ext s); [apply H|done|]. intros i q _. cbn [setSession store].
    destruct (decide (q = p)) as [->|Hne]; [rewrite lookup_insert_eq, Hp; cbn; by rewrite Hu|by rewrite lookup_insert_ne].
Qed.

(** ** Removing sessions *)

Lemma closeChannels_open l chs : NoDup l -> (forall c, c ∈ l -> chs !! c = Some (mkChannel None false)) ->
  exists chs', closeChannels l chs = Ok chs' /\ dom chs' = dom chs /\ (forall c, c ∉ l -> chs' !! c = chs !! c)
    /\ forall c, c ∈ l -> chs' !! c = Some (mkChannel None true).
Proof.
  revert chs. induction l as [|c l IH]; intros chs Hn Ho; [by exists chs; split_and!; intros; [..|set_solver]|].
  apply NoDup_cons in Hn as [Hc Hn]. cbn [closeChannels]. unfold closeChannel. rewrite (Ho c) by left. cbn [ch_closed mbind result_bind].
  destruct (IH (<[c := mkChannel None true]> chs) Hn) as (chs' & He & Hd & Hs & Hcl).
  { intros d Hd. rewrite lookup_insert_ne by (by intros <-). apply Ho. by right. }
  exists chs'. cbn. split_and!; [exact He|..].
  - rewrite Hd, dom_insert_lookup_L; [done|]. rewrite (Ho c) by left. eauto.
  - intros d [Hne Hdl]%not_elem_of_cons. rewrite Hs by done. by rewrite lookup_insert_ne.
  - intros d [->|Hdl]%elem_of_cons; [|by apply Hcl]. rewrite Hs by done. by rewrite lookup_insert_eq.
Qed.

(** The channels of the attempts of a session. *)
Definition pendingOf (sess : realmSession) : list nat := map snd (map_to_list (s_pending sess)).

Lemma elem_of_pendingOf sess c : c ∈ pendingOf sess <-> exists n, s_pending sess !! n = Some c.
Proof.
  unfold pendingOf. rewrite list_elem_of_fmap. setoid_rewrite elem_of_map_to_list'. split.
  - intros ([n d] & -> & H). eauto.
  - intros [n H]. by exists (n, c).
Qed.

Lemma NoDup_pendingOf s p sess : SInv s -> store s !! p = Some sess -> NoDup (pendingOf sess).
Proof.
  intros H Hp. unfold pendingOf. apply NoDup_fmap_2_strong; [|apply NoDup_map_to_list].
  intros [n c] [n' c'] Hn%elem_of_map_to_list Hn'%elem_of_map_to_list ?; cbn in *. subst c'.
  by destruct (si_distinct _ H p sess n p sess n' c) as [_ ->].
Qed.

Lemma removeSessionLocked_total s p sess : SInv s -> store s !! p = Some sess -> exists s', removeSessionLocked p s = Ok s'.
Proof.
  intros H Hp. unfold removeSessionLocked. rewrite Hp. destruct (s_closed sess) eqn:Hc; [eauto|].
  destruct (si_flags _ H p sess Hp) as (-> & -> & _). rewrite Hc. cbn [orb negb].
  destruct (closeChannels_open (pendingOf sess) (channels s)) as (chs & He & _); [by eapply NoDup_pendingOf| |].
  { intros c [n Hn]%elem_of_pendingOf. by eapply si_pending. }
  unfold pendingOf in He. rewrite He. cbn. eauto.
Qed.

Lemma size_owned_delete s s' id sess p u : sessions s' = delete id (sessions s) -> sessions s !! id = Some p -> store s !! p = Some sess ->
  (forall q, s_username <$> store s' !! q = s_username <$> store s !! q) ->
  size (owned s' u) = if decide (s_username sess = u) then size (owned s u) - 1 else size (owned s u).
Proof.
  intros Hs Hi Hp Hu. assert (owned s' u = delete id (owned s u)) as ->.
  { unfold owned. rewrite Hs, <- map_filter_delete. apply map_filter_ext. intros i q _. cbn. by rewrite Hu. }
  destruct (decide (s_username sess = u)) as [<-|Hne].
  - rewrite map_size_delete_Some; [lia|]. exists p. apply map_lookup_filter_Some. split; [done|]. cbn. by rewrite Hp.
  - rewrite delete_id; [done|]. apply map_lookup_filter_None. right. intros q Hq. assert (q = p) as -> by congruence. cbn. rewrite Hp. cbn. congruence.
Qed.

Lemma owned_pos s sess p : sessions s !! s_id sess = Some p -> store s !! p = Some sess -> 0 < size (owned s (s_username sess)).
Proof.
  intros Hi Hp. assert (size (owned s (s_username sess)) <> 0); [|lia]. intros He%map_size_empty_iff.
  assert (owned s (s_username sess) !! s_id sess = Some p) as Ho by (apply map_lookup_filter_Some; split; [done|]; cbn; by rewrite Hp).
  by rewrite He, lookup_empty in Ho.
Qed.

Lemma count_uncount s sess p u : SInv s -> sessions s !! s_id sess = Some p -> store s !! p = Some sess ->
  default 0%Z (uncount sess s !! u) = (if decide (s_username sess = u) then count s u - 1 else count s u)%Z
  /\ forall n, uncount sess s !! u = Some n -> (0 < n)%Z.
Proof.
  intros H Hi Hp. unfold uncount. rewrite bool_decide_eq_true_2 by (rewrite Hi; eauto). cbn zeta.
  assert (Hpos : (0 < count s (s_username sess))%Z).
  { destruct (si_counts _ H (s_username sess)) as [-> _]. pose proof (owned_pos s sess p Hi Hp). lia. }
  destruct (decide (s_username sess = u)) as [<-|Hne]; destruct (Z.leb_spec (count s (s_username sess) - 1) 0).
  - rewrite lookup_delete_eq. cbn. split; [lia|done].
  - rewrite lookup_insert_eq. cbn. split; [done|]. intros n [= <-]. lia.
  - rewrite lookup_delete_ne by done. split; [done|]. apply (si_counts _ H u).
  - rewrite lookup_insert_ne by done. split; [done|]. apply (si_counts _ H u).
Qed.

(** What is left of the session [p] after its removal. *)
Definition gone (sess : realmSession) : realmSession :=
  {| sess with s_closed := true; s_done := true; s_timer := None; s_eventsOpen := false; s_pending := ∅ |}.

(** The effect of a removal. *)
Record removed (p : nat) (s s' : server) : Prop := mkRemoved {
  rm_store : forall q, store s' !! q = (if decide (q = p) then gone <$> store s !! p else store s !! q);
  rm_realms : forall r, realms s' !! r = (if decide (realms s !! r = Some p) then None else realms s !! r);
  rm_sessions : forall i, sessions s' !! i = (if decide (sessions s !! i = Some p) then None else sessions s !! i);
  rm_channels : forall c, channels s' !! c = channels s !! c \/ channels s !! c = Some (mkChannel None false) /\ channels s' !! c = Some (mkChannel None true);
  rm_next : nextSession s' = nextSession s /\ nextChannel s' = nextChannel s;
}.

Lemma SInv_removed p sess s s' : SInv s -> store s !! p = Some sess -> s_closed sess = false -> removed p s s' ->
  (forall c, c ∉ pendingOf sess -> channels s' !! c = channels s !! c) -> userCounts s' = uncount sess s -> SInv s'.
Proof.
  intros H Hp Hc [Rs Rr Ri Rc [Rn Rm]] Hout Hcount. destruct (si_live _ H p sess Hp Hc) as [Hr Hi].
  assert (Hold : forall q k, store s' !! q = Some k -> q = p /\ k = gone sess \/ q <> p /\ store s !! q = Some k).
  { intros q k. rewrite Rs. destruct (decide (q = p)) as [->|]; [rewrite Hp; cbn; intros [= <-]|]; auto. }
  split.
  - intros q k [[-> ->]|[_ Hq]]%Hold; rewrite Rn; by eapply si_store.
  - intros c ch Hch. rewrite Rm. destruct (Rc c) as [He|[He _]]; [rewrite He in Hch|]; by eapply si_channels.
  - intros r q. rewrite Rr. destruct (decide _) as [|Hne]; [done|]. intros Hq. destruct (si_realms _ H r q Hq) as (k & Hk & ?).
    exists k. by rewrite Rs, decide_False by congruence.
  - intros i q. rewrite Ri. destruct (decide _) as [|Hne]; [done|]. intros Hq. destruct (si_sessions _ H i q Hq) as (k & Hk & ?).
    exists k. by rewrite Rs, decide_False by congruence.
  - intros q k [[-> ->]|[Hne Hq]]%Hold Hk; [done|]. destruct (si_live _ H q k Hq Hk) as [H1 H2].
    rewrite Rr, Ri, !decide_False by congruence. done.
  - intros q k [[-> ->]|[_ Hq]]%Hold; [done|by eapply si_flags].
  - intros q k [[-> ->]|[_ Hq]]%Hold; [|by eapply si_bounds]. cbn [gone s_events s_pending]. rewrite map_size_empty.
    split; [by eapply si_bounds|unfold maxPendingAttempts; lia].
  - intros q k n c [[-> ->]|[Hne Hq]]%Hold Hn; [by cbn in Hn; rewrite lookup_empty in Hn|]. rewrite Hout; [by eapply si_pending|].
    intros [n' Hn']%elem_of_pendingOf. by destruct (si_distinct _ H q k n p sess n' c).
  - intros q k n q' k' n' c [[-> ->]|[_ Hq]]%Hold [[-> ->]|[_ Hq']]%Hold Hn Hn';
      cbn [gone s_pending] in *; rewrite ?lookup_empty in *; try done. by eapply (si_distinct _ H).
  - intros u. unfold count. rewrite Hcount. destruct (count_uncount s sess p u H Hi Hp) as [-> Hpos]. split; [|exact Hpos].
    rewrite (size_owned_delete s s' (s_id sess) sess p u); [|apply map_eq|done|done|].
    + destruct (si_counts _ H u) as [-> _]. destruct (decide (s_username sess = u)) as [<-|]; [|done].
      pose proof (owned_pos s sess p Hi Hp). lia.
    + intros i. rewrite Ri. destruct (decide _) as [Hip|Hne].
      * destruct (si_sessions _ H i p Hip) as (k & Hk & _ & <-). assert (k = sess) as -> by congruence. by rewrite lookup_delete_eq.
      * rewrite lookup_delete_ne; [done|]. by intros <-.
    + intros q. rewrite Rs. destruct (decide (q = p)) as [->|]; [by rewrite Hp|done].
Qed.

Lemma removeSessionLocked_spec s p sess s' : SInv s -> store s !! p = Some sess -> removeSessionLocked p s = Ok s' ->
  (s_closed sess = true /\ s' = s) \/ (s_closed sess = false /\ removed p s s' /\ SInv s').
Proof.
  intros H Hp. unfold removeSessionLocked. rewrite Hp. destruct (s_closed sess) eqn:Hc; [intros [= <-]; by left|].
  destruct (si_flags _ H p sess Hp) as (-> & -> & _). rewrite Hc. cbn [orb negb].
  destruct (closeChannels_open (pendingOf sess) (channels s)) as (chs & He & Hd & Hout & Hin); [by eapply NoDup_pendingOf| |].
  { intros c [n Hn]%elem_of_pendingOf. by eapply si_pending. }
  fold (pendingOf sess). rewrite He. cbn [mbind result_bind]. fold (gone sess).
  destruct (si_live _ H p sess Hp Hc) as [Hr Hi]. rewrite bool_decide_eq_true_2 by done. intros [= Hs]. right. split; [done|].
  assert (R : removed p s s').
  { rewrite <- Hs. split; cbn [store realms sessions channels nextSession nextChannel]; [..|done].
    - intros q. destruct (decide (q = p)) as [->|Hne]; [by rewrite lookup_insert_eq, Hp|by rewrite lookup_insert_ne].
    - intros r. destruct (decide (realms s !! r = Some p)) as [Hrp|Hne].
      + destruct (si_realms _ H r p Hrp) as (k & Hk & _ & <-). assert (k = sess) as -> by congruence. apply lookup_delete_eq.
      + apply lookup_delete_ne. intros <-. done.
    - intros i. destruct (decide (sessions s !! i = Some p)) as [Hip|Hne].
      + destruct (si_sessions _ H i p Hip) as (k & Hk & _ & <-). assert (k = sess) as -> by congruence. apply lookup_delete_eq.
      + apply lookup_delete_ne. intros <-. done.
    - intros c. destruct (decide (c ∈ pendingOf sess)) as [Hcp|Hcp]; [|left; by apply Hout]. right. split; [|by apply Hin].
      apply elem_of_pendingOf in Hcp as [n Hn]. by eapply si_pending. }
  split; [exact R|]. eapply SInv_removed; [done..| |]; by rewrite <- Hs.
Qed.

(** ** Other sections *)

Lemma SInv_registerPending s p nonce ch s' : SInv s -> registerPending p nonce s = Some (ch, s') -> SInv s'.
Proof.
  intros H. unfold registerPending. destruct (store s !! p) as [sess|] eqn:Hp; [|done]. cbn [mbind option_bind].
  destruct (s_closed sess || _) eqn:Hg; [done|]. apply orb_false_iff in Hg as [Hc Hsize%Nat.leb_gt].
  case_bool_decide as Hn; [done|]. intros [= <- Hs]. apply eq_None_not_Some in Hn. set (c := nextChannel s) in *.
  set (sess' := {| sess with s_pending := <[nonce := c]> (s_pending sess) |}) in *.
  assert (Hnew : forall d ch, channels s !! d = Some ch -> d <> c) by (intros d ch0 ?%(si_channels _ H) ->; unfold c in *; lia).
  assert (Hold : forall q k, store s' !! q = Some k -> q = p /\ k = sess' \/ q <> p /\ store s !! q = Some k).
  { intros q k. rewrite <- Hs. cbn [store]. rewrite lookup_insert_Some. intros [[<- <-]|[Hne Hq]]; auto. }
  assert (Hpend : forall q k n d, store s' !! q = Some k -> s_pending k !! n = Some d ->
    q = p /\ n = nonce /\ d = c \/ d <> c /\ exists k0, store s !! q = Some k0 /\ s_pending k0 !! n = Some d).
  { intros q k n d [[-> ->]|[Hne Hq]]%Hold; cbn [sess' s_pending].
    - rewrite lookup_insert_Some. intros [[<- <-]|[Hnn Hd]]; [by left|]. right. split; [|eauto].
      eapply Hnew. by eapply (si_pending _ H p).
    - intros Hd. right. split; [|eauto]. eapply Hnew. by eapply (si_pending _ H q). }
  assert (Hst : forall q, s_username <$> store s' !! q = s_username <$> store s !! q).
  { intros q. rewrite <- Hs. cbn [store]. destruct (decide (q = p)) as [->|]; [by rewrite lookup_insert_eq, Hp|by rewrite lookup_insert_ne]. }
  assert (Hup : forall q k, store s !! q = Some k -> exists k', store s' !! q = Some k' /\ s_closed k' = s_closed k /\ s_id k' = s_id k /\ s_realmID k' = s_realmID k).
  { intros q k Hq. rewrite <- Hs. cbn [store]. destruct (decide (q = p)) as [->|].
    - exists sess'. rewrite lookup_insert_eq. assert (k = sess) as -> by congruence. done.
    - exists k. by rewrite lookup_insert_ne. }
  split; rewrite <- ?Hs; cbn [realms sessions channels nextSession nextChannel userCounts]; rewrite ?Hs.
  - intros q k [[-> _]|[_ Hq]]%Hold; by eapply si_store.
  - intros d ch. rewrite lookup_insert_Some. intros [[<- _]|[_ Hd]]; [lia|]. apply (si_channels _ H) in Hd. unfold c. lia.
  - intros r q (k & Hk & ? & ?)%(si_realms _ H). destruct (Hup q k Hk) as (k' & Hk' & ? & ? & ?). exists k'. split_and!; congruence.
  - intros r q (k & Hk & ? & ?)%(si_sessions _ H). destruct (Hup q k Hk) as (k' & Hk' & ? & ? & ?). exists k'. split_and!; congruence.
  - intros q k [[-> ->]|[_ Hq]]%Hold Hcl; [exact (si_live _ H p sess Hp Hc)|by apply (si_live _ H)].
  - intros q k [[-> ->]|[_ Hq]]%Hold; [|by eapply si_flags]. cbn. destruct (si_flags _ H p sess Hp) as (-> & -> & _). by rewrite Hc.
  - intros q k [[-> ->]|[_ Hq]]%Hold; [|by eapply si_bounds]. cbn. rewrite map_size_insert_None by done. split; [by eapply si_bounds|lia].
  - intros q k n d Hq [(-> & -> & ->)|(Hne & k0 & Hk0 & Hd)]%(Hpend q k n d Hq); [by rewrite lookup_insert_eq|].
    rewrite lookup_insert_ne by done. by eapply si_pending.
  - intros q k n q' k' n' d Hq Hq' [(-> & -> & Hd)|(Hne & k0 & Hk0 & Hd)]%(Hpend q k n d Hq)
      [(-> & -> & Hd')|(Hne' & k0' & Hk0' & Hd')]%(Hpend q' k' n' d Hq'); [done|congruence..|]. by eapply (si_distinct _ H).
  - intros u. unfold count. rewrite (owned_ext s); [|by rewrite <- Hs|by intros]. rewrite <- Hs. apply H.
Qed.

Lemma SInv_channel s c ch : SInv s -> channels s !! c = Some ch -> (forall q k n, store s !! q = Some k -> s_pending k !! n <> Some c) ->
  forall ch', SInv {| s with channels := <[c := ch']> (channels s) |}.
Proof.
  intros H Hc Hn ch'. split; cbn [store channels realms sessions nextSession nextChannel]; try apply H.
  - intros d k. rewrite lookup_insert_Some. intros [[<- _]|[_ Hd]]; by eapply si_channels.
  - intros q k n d Hq Hd. rewrite lookup_insert_ne; [by eapply si_pending|]. intros <-. by eapply Hn.
Qed.

Lemma sendEvent_spec s p sess ev : SInv s -> store s !! p = Some sess ->
  exists sent s', sendEvent p ev s = Ok (sent, s') /\ SInv s' /\
    (if (sent : bool) then s_closed sess = false /\ length (s_events sess) < eventChannelSize
       /\ s' = setSession p {| sess with s_events := s_events sess ++ [ev] |} s else s' = s).
Proof.
  intros H Hp. unfold sendEvent. rewrite Hp. destruct (si_flags _ H p sess Hp) as (_ & Ho & _).
  destruct (s_closed sess) eqn:Hc; [by exists false, s|]. rewrite Ho. cbn [negb].
  destruct (Nat.ltb_spec (length (s_events sess)) eventChannelSize); [|by exists false, s].
  eexists true, _. split; [done|]. split; [|done]. eapply SInv_setSession; [done..| | |done].
  - by repeat split.
  - cbn. rewrite length_app. cbn. lia.
Qed.

Lemma deliverPending_spec s p sess nonce addresses : SInv s -> store s !! p = Some sess ->
  exists delivered s', deliverPending p nonce addresses s = Ok (delivered, s') /\ SInv s' /\
    (if (delivered : bool)
     then exists ch, s_pending sess !! nonce = Some ch
       /\ s' = {| (setSession p {| sess with s_pending := delete nonce (s_pending sess) |} s) with
                  channels := <[ch := mkChannel (Some addresses) false]> (channels s) |}
     else s' = s).
Proof.
  intros H Hp. unfold deliverPending. rewrite Hp.
  destruct (s_pending sess !! nonce) as [ch|] eqn:Hn; [|exists false, s; by destruct (s_closed sess)].
  pose proof (si_pending _ H p sess nonce ch Hp Hn) as Hch. set (sess' := {| sess with s_pending := delete nonce (s_pending sess) |}).
  assert (H1 : SInv (setSession p sess' s)).
  { eapply SInv_setSession; [done..| | |apply delete_subseteq]; [by repeat split|exact (proj1 (si_bounds _ H p sess Hp))]. }
  destruct (s_closed sess); [by exists false, s|]. cbn [setSession channels]. rewrite Hch. cbn [ch_closed ch_payload].
  eexists true, _. split; [done|]. split; [|by exists ch].
  eapply (SInv_channel _ ch _ H1); [exact Hch|]. intros q k n [[-> ->]|[Hne Hq]]%lookup_setSession Hk; cbn [sess' s_pending] in Hk.
  - apply lookup_delete_Some in Hk as [Hnn Hk]. by destruct (si_distinct _ H p sess n p sess nonce ch).
  - by destruct (si_distinct _ H q k n p sess nonce ch).
Qed.

Lemma SInv_cancelPending s p nonce : SInv s -> SInv (cancelPending p nonce s).
Proof.
  intros H. unfold cancelPending. destruct (store s !! p) as [sess|] eqn:Hp; [|done].
  eapply SInv_setSession; [done..| | |apply delete_subseteq]; [by repeat split|exact (proj1 (si_bounds _ H p sess Hp))].
Qed.

(** The server after a registration. *)
Definition registered (s : server) (id : string) (sess : realmSession) : server :=
  let p := nextSession s in
  {| s with store := <[p := sess]> (store s); realms := <[id := p]> (realms s); sessions := <[s_id sess := p]> (sessions s);
            userCounts := <[s_username sess := (count s (s_username sess) + 1)%Z]> (userCounts s); nextSession := S p |}.

Lemma SInv_registered s id sess : SInv s -> realms s !! id = None -> sessions s !! s_id sess = None -> s_realmID sess = id ->
  s_closed sess = false -> s_done sess = false -> s_eventsOpen sess = true -> s_events sess = [] -> s_pending sess = ∅ ->
  SInv (registered s id sess).
Proof.
  intros H Hr Hi Hid Hc Hd Ho He Hpe. set (p := nextSession s). assert (Hp : store s !! p = None).
  { destruct (store s !! p) eqn:Hq; [|done]. apply (si_store _ H) in Hq. unfold p in Hq. lia. }
  assert (Hold : forall q k, store (registered s id sess) !! q = Some k -> q = p /\ k = sess \/ q <> p /\ store s !! q = Some k).
  { intros q k. cbn [registered store]. rewrite lookup_insert_Some. fold p. intros [[<- <-]|[Hne Hq]]; auto. }
  assert (Hkeep : forall q k, store s !! q = Some k -> store (registered s id sess) !! q = Some k).
  { intros q k Hq. cbn [registered store]. rewrite lookup_insert_ne; [done|]. fold p. congruence. }
  split; cbn [registered realms sessions channels nextSession nextChannel userCounts]; fold p.
  - intros q k [[-> ->]|[_ Hq]]%Hold; [lia|]. apply (si_store _ H) in Hq. unfold p. lia.
  - apply H.
  - intros r q. rewrite lookup_insert_Some. intros [[<- <-]|[_ (k & Hk & ?)%(si_realms _ H)]]; [|eauto].
    exists sess. cbn [registered store]. by rewrite lookup_insert_eq.
  - intros i q. rewrite lookup_insert_Some. intros [[<- <-]|[_ (k & Hk & ?)%(si_sessions _ H)]]; [|eauto].
    exists sess. cbn [registered store]. by rewrite lookup_insert_eq.
  - intros q k [[-> ->]|[Hne Hq]]%Hold Hk; [by rewrite Hid, !lookup_insert_eq|]. destruct (si_live _ H q k Hq Hk) as [H1 H2].
    rewrite !lookup_insert_ne by congruence. done.
  - intros q k [[-> ->]|[_ Hq]]%Hold; [|by eapply si_flags]. by rewrite Hc, Hd, Ho.
  - intros q k [[-> ->]|[_ Hq]]%Hold; [|by eapply si_bounds]. rewrite He, Hpe, map_size_empty. cbn. unfold maxPendingAttempts. lia.
  - intros q k n c [[-> ->]|[_ Hq]]%Hold Hn; [by rewrite Hpe, lookup_empty in Hn|by eapply si_pending].
  - intros q k n q' k' n' c [[-> ->]|[_ Hq]]%Hold [[-> ->]|[_ Hq']]%Hold Hn Hn'; rewrite ?Hpe, ?lookup_empty in *; try done.
    by eapply (si_distinct _ H).
  - intros u. assert (Ho1 : owned (registered s id sess) u = if decide (s_username sess = u) then <[s_id sess := p]> (owned s u) else owned s u).
    { unfold owned. cbn [registered sessions store]. fold p.
      assert (Hext : filter (fun ip => s_username <$> <[p := sess]> (store s) !! ip.2 = Some u) (sessions s)
              = filter (fun ip => s_username <$> store s !! ip.2 = Some u) (sessions s)).
      { apply map_filter_ext. intros i q (k & Hk & _)%(si_sessions _ H). cbn. rewrite lookup_insert_ne by congruence. done. }
      destruct (decide (s_username sess = u)) as [<-|Hne].
      - rewrite map_filter_insert_True; [by rewrite Hext|]. cbn. by rewrite lookup_insert_eq.
      - rewrite map_filter_insert_False; [|cbn; rewrite lookup_insert_eq; cbn; congruence]. by rewrite delete_id. }
    unfold count. cbn [registered userCounts]. rewrite Ho1. destruct (decide (s_username sess = u)) as [<-|Hne].
    + rewrite !lookup_insert_eq, map_size_insert_None; [|apply map_lookup_filter_None; by left].
      destruct (si_counts _ H (s_username sess)) as [Hcnt _]. unfold count in *. rewrite Hcnt. cbn. split; [lia|]. intros n [= <-]. lia.
    + rewrite !lookup_insert_ne by done. exact (si_counts _ H u).
Qed.
