(* ===== verification/RendezvousRuns.v ===== *)
(** * Runs of the rendezvous (Rendezvous): whom it introduces to whom *)

From S2P Require Import Prelude GoStd Metadata Binary Datagram RealmPacket RealmControl Rendezvous RendezvousTheorems.
From Stdlib Require Import Strings.Byte.
From stdpp Require Import list.
Import RealmControl Rendezvous.

Open Scope nat_scope.

(** ** What happened to a session *)

Definition sentTo (p : nat) (fs : list fact) : list realmEvent :=
  omap (fun f => match f with Sent q _ ev => if decide (q = p) then Some ev else None | _ => None end) fs.
Definition streamedFrom (p : nat) (fs : list fact) : list realmEvent :=
  omap (fun f => match f with Streamed q _ ev => if decide (q = p) then Some ev else None | _ => None end) fs.

(** The random bytes of the registrations. *)
Definition randoms (actions : list action) : list (list byte) :=
  omap (fun a => match a with Register _ _ _ _ (Ok b) => Some b | _ => None end) actions.

Section Runs.
Variable ParseAddrPort : string -> option AddrPort.
Variable tokenMap : gmap string realmUser.
Variable t0 : Z.

Abbreviation step := (step ParseAddrPort tokenMap).
Abbreviation run := (run ParseAddrPort tokenMap).
Abbreviation valid addresses := (validateAddresses ParseAddrPort addresses = None).

(** The request [tid] asked for a realm that a node held with the session [p], and found
    the addresses [own] and [relay]. *)
Definition introduced (actions : list action) (tid : nat) (req : connectRequest) (p : nat) (own relay : list string) : Prop :=
  exists before after header id user w0 sess,
    actions = before ++ Connect tid header id (Ok req) :: after /\ run before (newWorld t0) = Some (Ok w0) /\
    authUser tokenMap header = inr user /\ realms (srv w0) !! id = Some p /\ store (srv w0) !! p = Some sess /\
    (now w0 <= s_expires sess)%Z /\ s_addresses sess = own /\ s_relay sess = relay.

(** The channel [ch] belongs to the attempt with the nonce at the session [p]. *)
Definition attempt (w : world) (p : nat) (nonce : string) (ch : nat) : Prop :=
  ch < nextChannel (srv w) /\
  (forall q sess n, store (srv w) !! q = Some sess -> s_pending sess !! n = Some ch -> q = p /\ n = nonce) /\
  (forall c l, channels (srv w) !! ch = Some c -> ch_payload c = Some l -> Answered p nonce l ∈ facts w /\ valid l).

Definition answered (actions : list action) (w : world) (tid : nat) (reply : response) : Prop :=
  match reply with
  | Connected addresses nonce obfs relay =>
      exists p own req, introduced actions tid req p own relay /\ nonce = r_Nonce req /\ obfs = r_Obfs req /\
        valid addresses /\ (addresses = own \/ Answered p nonce addresses ∈ facts w) /\ Sent p tid (punchOf req) ∈ facts w
  | _ => True
  end.

Definition TInv (actions : list action) (w : world) (tid : nat) (t : thread) : Prop :=
  match t with
  | Deregistering p | Acknowledging p | Streaming p | Expiring p => is_Some (store (srv w) !! p)
  | Heartbeating p req => is_Some (store (srv w) !! p) /\ (forall l, a_Addresses req = Some l -> valid l)
      /\ (forall l, a_Relay req = Some l -> valid l)
  | Delivering p _ addresses => is_Some (store (srv w) !! p) /\ valid addresses
  | Found p own relay req => is_Some (store (srv w) !! p) /\ introduced actions tid req p own relay /\ valid own
  | Announcing p own relay req ch =>
      is_Some (store (srv w) !! p) /\ introduced actions tid req p own relay /\ valid own /\ attempt w p (r_Nonce req) ch
  | Waiting p own relay req ch _ =>
      is_Some (store (srv w) !! p) /\ introduced actions tid req p own relay /\ valid own /\ attempt w p (r_Nonce req) ch
      /\ Sent p tid (punchOf req) ∈ facts w
  | Leaving p _ reply => is_Some (store (srv w) !! p) /\ answered actions w tid reply
  | Done reply => answered actions w tid reply
  end.

(** A session and the reports of its node. *)
Definition reported (fs : list fact) (p : nat) (sess : realmSession) : Prop :=
  (exists t r, Reported p t (Some (s_addresses sess)) r ∈ fs) /\ valid (s_addresses sess) /\
  (s_relay sess = [] \/ valid (s_relay sess) /\ exists t a, Reported p t a (Some (s_relay sess)) ∈ fs) /\
  exists t a r, Reported p t a r ∈ fs /\ s_expires sess = (t + sessionTTL)%Z.

(** The largest number of realms the tokens of a user allow. *)
Definition limited (user : string) (limit : Z) : Prop :=
  forall token u, tokenMap !! token = Some u -> u_name u = user -> (0 < u_maxRealms u <= limit)%Z.

Record WInv (actions : list action) (w : world) : Prop := mkWInv {
  wi_server : SInv (srv w);
  wi_ids : forall p sess, store (srv w) !! p = Some sess -> exists b, b ∈ randoms actions /\ s_id sess = EncodeToString b;
  wi_threads : forall tid t, threads w !! tid = Some t -> TInv actions w tid t;
  wi_events : forall p, sentTo p (facts w) = streamedFrom p (facts w) ++ (match store (srv w) !! p with Some sess => s_events sess | None => [] end);
  wi_reported : forall p sess, store (srv w) !! p = Some sess -> reported (facts w) p sess;
  wi_quota : forall user limit, limited user limit -> (0 <= limit)%Z -> (count (srv w) user <= limit)%Z;
}.

(** ** Steps keep what is known about threads *)

Lemma introduced_mono actions more tid req p own relay : introduced actions tid req p own relay -> introduced (actions ++ more) tid req p own relay.
Proof.
  intros (before & after & header & id & user & w0 & sess & -> & H). exists before, (after ++ more), header, id, user, w0, sess.
  split; [|done]. by rewrite <- app_assoc.
Qed.

(** From [w] to [w']: sessions stay, new attempts have new channels, and payloads are
    answers to attempts. *)
Record evolves (w w' : world) : Prop := mkEvolves {
  ev_store : forall p, is_Some (store (srv w) !! p) -> is_Some (store (srv w') !! p);
  ev_facts : facts w ⊆ facts w';
  ev_next : nextChannel (srv w) <= nextChannel (srv w');
  ev_pending : forall q sess' n c, store (srv w') !! q = Some sess' -> s_pending sess' !! n = Some c -> c < nextChannel (srv w) ->
    exists sess, store (srv w) !! q = Some sess /\ s_pending sess !! n = Some c;
  ev_payload : forall c ch' l, channels (srv w') !! c = Some ch' -> ch_payload ch' = Some l -> c < nextChannel (srv w) ->
    (exists ch, channels (srv w) !! c = Some ch /\ ch_payload ch = Some l) \/
    (exists p sess n, store (srv w) !! p = Some sess /\ s_pending sess !! n = Some c /\ Answered p n l ∈ facts w' /\ valid l);
}.

Lemma attempt_evolves w w' p nonce ch : evolves w w' -> attempt w p nonce ch -> attempt w' p nonce ch.
Proof.
  intros E (Hlt & Hown & Hpay). split; [pose proof (ev_next _ _ E); lia|]. split.
  - intros q sess' n Hq Hn. destruct (ev_pending _ _ E q sess' n ch Hq Hn Hlt) as (sess & Hs & Hp). by apply (Hown q sess n).
  - intros c l Hc Hl. destruct (ev_payload _ _ E ch c l Hc Hl Hlt) as [(c0 & Hc0 & Hl0)|(q & sess & n & Hq & Hn & Ha & Hv)].
    + destruct (Hpay c0 l Hc0 Hl0) as [Ha Hv]. split; [by apply (ev_facts _ _ E)|done].
    + by destruct (Hown q sess n Hq Hn) as [-> ->].
Qed.

Lemma answered_evolves actions more w w' tid reply : facts w ⊆ facts w' -> answered actions w tid reply -> answered (actions ++ more) w' tid reply.
Proof.
  intros Hf. destruct reply; try done. intros (p & own & req & Hi & Hn & Ho & Hv & Ha & Hs). exists p, own, req.
  split_and!; [by apply introduced_mono|done..| |by apply Hf]. destruct Ha as [Ha|Ha]; [by left|right; by apply Hf].
Qed.

Lemma TInv_evolves actions more w w' tid t : evolves w w' -> TInv actions w tid t -> TInv (actions ++ more) w' tid t.
Proof.
  intros E. pose proof (ev_store _ _ E) as Hs. pose proof (ev_facts _ _ E) as Hf.
  destruct t; cbn [TInv]; intros H; repeat match goal with H : _ /\ _ |- _ => destruct H end;
    split_and?; eauto using introduced_mono, attempt_evolves, answered_evolves.
Qed.

(** ** Quiet changes of the server: sessions keep their reports and events *)

Definition calm (sess sess' : realmSession) : Prop :=
  s_id sess' = s_id sess /\ s_addresses sess' = s_addresses sess /\ s_relay sess' = s_relay sess /\
  s_expires sess' = s_expires sess /\ s_events sess' = s_events sess.

Record smooth (fs : list fact) (s s' : server) : Prop := mkSmooth {
  sm_inv : SInv s';
  sm_back : forall p sess', store s' !! p = Some sess' -> exists sess, store s !! p = Some sess /\ calm sess sess';
  sm_forth : forall p, is_Some (store s !! p) -> is_Some (store s' !! p);
  sm_next : nextChannel s <= nextChannel s';
  sm_pending : forall q sess' n c, store s' !! q = Some sess' -> s_pending sess' !! n = Some c -> c < nextChannel s ->
    exists sess, store s !! q = Some sess /\ s_pending sess !! n = Some c;
  sm_payload : forall c ch' l, channels s' !! c = Some ch' -> ch_payload ch' = Some l -> c < nextChannel s ->
    (exists ch, channels s !! c = Some ch /\ ch_payload ch = Some l) \/
    (exists p sess n, store s !! p = Some sess /\ s_pending sess !! n = Some c /\ Answered p n l ∈ fs /\ valid l);
  sm_count : forall u, (count s' u <= count s u)%Z;
}.

Lemma smooth_refl fs s : SInv s -> smooth fs s s.
Proof. intros H. split; eauto; try lia. intros p sess Hp. exists sess. by repeat split. Qed.

(** A change of one session. *)
Lemma smooth_setSession fs s p sess sess' : SInv s -> store s !! p = Some sess -> similar sess sess' -> calm sess sess' ->
  s_pending sess' ⊆ s_pending sess -> smooth fs s (setSession p sess' s).
Proof.
  intros H Hp Hsim Hcalm Hsub. split; try done.
  - eapply SInv_setSession; [done..| |done]. destruct Hcalm as (_ & _ & _ & _ & ->). by eapply si_bounds.
  - intros q k [[-> ->]|[_ Hq]]%lookup_setSession; [by exists sess|]. exists k. by repeat split.
  - intros q Hq. cbn [setSession store]. destruct (decide (q = p)) as [->|]; [rewrite lookup_insert_eq; eauto|by rewrite lookup_insert_ne].
  - intros q k n c [[-> ->]|[_ Hq]]%lookup_setSession Hn _; [|eauto]. exists sess. split; [done|]. by eapply lookup_weaken.
  - intros c ch l Hc Hl _. left. eauto.
Qed.

Lemma smooth_removed fs s p s' : SInv s -> removeSessionLocked p s = Ok s' -> smooth fs s s'.
Proof.
  intros H. unfold removeSessionLocked at 1. destruct (store s !! p) as [sess|] eqn:Hp; [|done]. intros Hr.
  assert (Hrem : removeSessionLocked p s = Ok s') by (unfold removeSessionLocked; by rewrite Hp). clear Hr.
  destruct (removeSessionLocked_spec s p sess s' H Hp Hrem) as [[_ ->]|(Hc & R & H')]; [by apply smooth_refl|].
  split; [done|..].
  - intros q k. rewrite (rm_store _ _ _ R). destruct (decide (q = p)) as [->|]; [rewrite Hp; cbn; intros [= <-]; exists sess|exists k]; by repeat split.
  - intros q Hq. rewrite (rm_store _ _ _ R). destruct (decide (q = p)) as [->|]; [rewrite Hp; cbn; eauto|done].
  - by rewrite (proj2 (rm_next _ _ _ R)).
  - intros q k n c. rewrite (rm_store _ _ _ R). destruct (decide (q = p)) as [->|]; [rewrite Hp; cbn; intros [= <-]; cbn; by rewrite lookup_empty|eauto].
  - intros c ch l Hch Hl _. left. destruct (rm_channels _ _ _ R c) as [He|[_ He]]; [rewrite He in Hch; eauto|]. rewrite He in Hch.
    injection Hch as <-. done.
  - intros u. unfold count. assert (userCounts s' = uncount sess s) as ->.
    { revert Hrem. unfold removeSessionLocked. rewrite Hp, Hc. destruct (_ || _); [done|]. intros (chs & _ & [= <-])%bind_Ok_inv. done. }
    destruct (si_live _ H p sess Hp Hc) as [_ Hi]. destruct (count_uncount s sess p u H Hi Hp) as [-> _]. fold (count s u).
    destruct (decide _); lia.
Qed.

Lemma smooth_registerPending fs s p nonce ch s' : SInv s -> registerPending p nonce s = Some (ch, s') -> smooth fs s s'.
Proof.
  intros H Hreg. pose proof (SInv_registerPending s p nonce ch s' H Hreg) as H'. revert Hreg. unfold registerPending.
  destruct (store s !! p) as [sess|] eqn:Hp; [|done]. cbn [mbind option_bind]. destruct (s_closed sess || _) eqn:Hg; [done|].
  case_bool_decide; [done|]. intros [= <- <-]. split; [done|..]; cbn [store channels nextChannel]; [..|done].
  - intros q k. rewrite lookup_insert_Some. intros [[<- <-]|[_ Hq]]; [exists sess|exists k]; by repeat split.
  - intros q Hq. destruct (decide (q = p)) as [->|]; [rewrite lookup_insert_eq; eauto|by rewrite lookup_insert_ne].
  - lia.
  - intros q k n c. rewrite lookup_insert_Some. intros [[<- <-]|[_ Hq]]; [|eauto]. cbn [s_pending]. rewrite lookup_insert_Some.
    intros [[_ <-]|[_ Hn]] Hlt; [lia|eauto].
  - intros c k l. rewrite lookup_insert_Some. intros [[<- <-]|[_ Hq]]; [done|eauto].
Qed.

Lemma smooth_cancelPending fs s p nonce : SInv s -> smooth fs s (cancelPending p nonce s).
Proof.
  intros H. unfold cancelPending. destruct (store s !! p) as [sess|] eqn:Hp; [|by apply smooth_refl].
  eapply smooth_setSession; [done..| | |apply delete_subseteq]; by repeat split.
Qed.

Lemma smooth_deliver fs s p sess nonce addresses : SInv s -> store s !! p = Some sess -> Answered p nonce addresses ∈ fs -> valid addresses ->
  exists delivered s', deliverPending p nonce addresses s = Ok (delivered, s') /\ smooth fs s s' /\ (delivered = false -> s' = s).
Proof.
  intros H Hp Ha Hv. destruct (deliverPending_spec s p sess nonce addresses H Hp) as (delivered & s' & -> & H' & Hd).
  exists delivered, s'. split; [done|]. destruct delivered; [|subst s'; split; [by apply smooth_refl|done]]. split; [|done].
  destruct Hd as (ch & Hn & ->). set (sess' := {| sess with s_pending := delete nonce (s_pending sess) |}) in *.
  assert (Hset : smooth fs s (setSession p sess' s)) by (eapply smooth_setSession; [done..| | |apply delete_subseteq]; by repeat split).
  split; [done|apply Hset..| |apply Hset]. cbn [channels]. intros c k l. rewrite lookup_insert_Some.
  intros [[<- <-]|[_ Hq]]; [|eauto]. intros [= <-] _. right. by exists p, sess, nonce.
Qed.

Lemma smooth_await fs c p own relay req ch deadline w r chs : SInv (srv w) -> await c p own relay req ch deadline w = Some (r, chs) ->
  smooth fs (srv w) {| (srv w) with channels := chs |}.
Proof.
  intros H. assert (Hsame : smooth fs (srv w) {| (srv w) with channels := channels (srv w) |}) by (destruct (srv w); by apply smooth_refl).
  destruct c; cbn [await].
  - destruct (channels (srv w) !! ch) as [k|] eqn:Hch; [|done]. cbn [mbind option_bind]. destruct (ch_payload k) as [l|] eqn:Hl.
    + intros [= _ <-]. set (k' := {| k with ch_payload := None |}). assert (H' : SInv {| (srv w) with channels := <[ch := k']> (channels (srv w)) |}).
      { apply (SInv_channel (srv w) ch k H Hch). intros q sess n Hq Hn. apply (si_pending _ H q sess n ch Hq) in Hn. rewrite Hch in Hn. by injection Hn as ->. }
      split; [done|apply Hsame..| |apply Hsame]. cbn [channels]. intros c k0 l0. rewrite lookup_insert_Some. intros [[<- <-]|[_ Hq]]; [done|eauto].
    + destruct (ch_closed k); [|done]. by intros [= _ <-].
  - destruct (deadline <=? now w)%Z; [|done]. by intros [= _ <-].
  - destruct (store (srv w) !! p) as [sess|]; [|done]. cbn [mbind option_bind]. destruct (s_done sess); [|done]. by intros [= _ <-].
  - by intros [= _ <-].
Qed.

(** ** The invariant is kept *)

Lemma randoms_app l k : randoms (l ++ k) = randoms l ++ randoms k.
Proof. apply omap_app. Qed.
Lemma sentTo_app p l k : sentTo p (l ++ k) = sentTo p l ++ sentTo p k.
Proof. apply omap_app. Qed.
Lemma streamedFrom_app p l k : streamedFrom p (l ++ k) = streamedFrom p l ++ streamedFrom p k.
Proof. apply omap_app. Qed.

Lemma reported_mono fs fs' p sess sess' : fs ⊆ fs' ->
  s_addresses sess' = s_addresses sess /\ s_relay sess' = s_relay sess /\ s_expires sess' = s_expires sess -> reported fs p sess -> reported fs' p sess'.
Proof.
  intros Hf (Ha & Hr & He) ((t & r & H1) & Hv & H2 & (t' & a' & r' & H3 & H4)). unfold reported. rewrite Ha, Hr, He.
  split_and!; [by eauto|done| |by exists t', a', r'; auto]. destruct H2 as [H2|(H2 & t2 & a2 & H2')]; [by left|right; by eauto].
Qed.

(** The facts of a step that are no events. *)
Definition silent (fs : list fact) : Prop := forall p, sentTo p fs = [] /\ streamedFrom p fs = [].

Lemma smooth_evolves fs w w' : facts w' = facts w ++ fs -> smooth (facts w') (srv w) (srv w') -> evolves w w'.
Proof. intros Hf [Hi Hb Hfo Hn Hp Hpay Hc]. split; try done. rewrite Hf. set_solver. Qed.

Lemma WInv_smooth actions a w w' fs : WInv actions w -> facts w' = facts w ++ fs -> silent fs -> smooth (facts w') (srv w) (srv w') ->
  (forall tid t, threads w' !! tid = Some t -> threads w !! tid = Some t \/ TInv (actions ++ [a]) w' tid t) -> WInv (actions ++ [a]) w'.
Proof.
  intros H Hf Hs Hsm Ht. assert (E : evolves w w') by (by eapply smooth_evolves). split.
  - apply Hsm.
  - intros p sess' (sess & Hp & Hid & _)%(sm_back _ _ _ Hsm). destruct (wi_ids _ _ H p sess Hp) as (b & Hb & He).
    exists b. rewrite randoms_app, Hid. split; [|done]. apply elem_of_app. by left.
  - intros tid t [Hold|Hnew]%Ht; [|done]. eapply TInv_evolves; [done|]. by apply (wi_threads _ _ H).
  - intros p. rewrite Hf, sentTo_app, streamedFrom_app. destruct (Hs p) as [-> ->]. rewrite !app_nil_r, (wi_events _ _ H p). f_equal.
    destruct (store (srv w') !! p) as [sess'|] eqn:Hp.
    + destruct (sm_back _ _ _ Hsm p sess' Hp) as (sess & -> & _ & _ & _ & _ & Hev). by rewrite Hev.
    + destruct (store (srv w) !! p) as [sess|] eqn:Hp0; [|done]. destruct (sm_forth _ _ _ Hsm p); [by rewrite Hp0|congruence].
  - intros p sess' (sess & Hp & Hcalm)%(sm_back _ _ _ Hsm). destruct Hcalm as (_ & ? & ? & ? & _).
    eapply (reported_mono (facts w)); [rewrite Hf; set_solver|done|by eapply wi_reported].
  - intros user limit Hl Hpos. pose proof (wi_quota _ _ H user limit Hl Hpos). pose proof (sm_count _ _ _ Hsm user). lia.
Qed.

Lemma evolves_setSession w w' fs p sess sess' : store (srv w) !! p = Some sess -> srv w' = setSession p sess' (srv w) -> facts w' = facts w ++ fs ->
  s_pending sess' ⊆ s_pending sess -> evolves w w'.
Proof.
  intros Hp Hs Hf Hsub. split; rewrite ?Hs.
  - intros q Hq. cbn [setSession store]. destruct (decide (q = p)) as [->|]; [rewrite lookup_insert_eq; eauto|by rewrite lookup_insert_ne].
  - rewrite Hf. set_solver.
  - done.
  - intros q k n c [[-> ->]|[_ Hq]]%lookup_setSession Hn _; [|eauto]. exists sess. split; [done|]. by eapply lookup_weaken.
  - eauto.
Qed.

(** A session with other reports or events. *)
Lemma WInv_session actions a w w' fs p sess sess' : WInv actions w -> store (srv w) !! p = Some sess -> srv w' = setSession p sess' (srv w) ->
  facts w' = facts w ++ fs -> similar sess sess' -> length (s_events sess') <= eventChannelSize -> s_pending sess' ⊆ s_pending sess ->
  s_events sess ++ sentTo p fs = streamedFrom p fs ++ s_events sess' -> (forall q, q <> p -> sentTo q fs = [] /\ streamedFrom q fs = []) ->
  reported (facts w') p sess' ->
  (forall tid t, threads w' !! tid = Some t -> threads w !! tid = Some t \/ TInv (actions ++ [a]) w' tid t) -> WInv (actions ++ [a]) w'.
Proof.
  intros H Hp Hs Hf Hsim Hlen Hsub Hev Hquiet Hrep Ht.
  assert (E : evolves w w') by (by eapply evolves_setSession). split; rewrite ?Hs.
  - by eapply SInv_setSession; [apply H|..].
  - intros q k Hq. assert (exists k0, store (srv w) !! q = Some k0 /\ s_id k = s_id k0) as (k0 & Hk0 & ->).
    { apply lookup_setSession in Hq as [[-> ->]|[_ Hq]]; [|eauto]. exists sess. split; [done|]. apply Hsim. }
    destruct (wi_ids _ _ H q k0 Hk0) as (b & Hb & He). exists b. rewrite randoms_app. split; [|done]. apply elem_of_app. by left.
  - intros tid t [Hold|Hnew]%Ht; [|done]. eapply TInv_evolves; [done|]. by apply (wi_threads _ _ H).
  - intros q. rewrite Hf, sentTo_app, streamedFrom_app, (wi_events _ _ H q). cbn [setSession store]. destruct (decide (q = p)) as [->|Hne].
    + rewrite lookup_insert_eq, Hp, <- !app_assoc. by rewrite Hev.
    + rewrite lookup_insert_ne by done. destruct (Hquiet q Hne) as [-> ->]. by rewrite !app_nil_r.
  - intros q k [[-> ->]|[_ Hq]]%lookup_setSession; [done|]. eapply (reported_mono (facts w) _ q k k); [rewrite Hf; set_solver|by repeat split|].
    by apply (wi_reported _ _ H).
  - apply H.
Qed.

Lemma WInv_proceed actions a w tid t : WInv actions w -> TInv (actions ++ [a]) w tid t -> WInv (actions ++ [a]) (proceed tid t w).
Proof.
  intros H Ht. eapply (WInv_smooth actions a w (proceed tid t w) []); [done|by rewrite app_nil_r|done|apply smooth_refl, H|].
  intros tid' t'. cbn [proceed threads]. rewrite lookup_insert_Some. intros [[<- <-]|[_ Hold]]; auto.
Qed.

Lemma WInv_fail actions a w tid r : WInv actions w -> (forall x y z u, r <> Connected x y z u) -> WInv (actions ++ [a]) (proceed tid (Done r) w).
Proof. intros H Hr. apply WInv_proceed; [done|]. cbn. destruct r; try done. by destruct (Hr addresses nonce obfs relay). Qed.

(** The server changes quietly, and the request goes on. *)
Lemma WInv_quiet actions a w s' tid t : WInv actions w -> smooth (facts w) (srv w) s' -> TInv (actions ++ [a]) (onServer w s') tid t ->
  WInv (actions ++ [a]) (proceed tid t (onServer w s')).
Proof.
  intros H Hs Ht. eapply (WInv_smooth actions a w _ []); [done|by rewrite app_nil_r|done|exact Hs|].
  intros tid' t'. cbn [proceed onServer threads]. rewrite lookup_insert_Some. intros [[<- <-]|[_ Hold]]; auto.
Qed.

Lemma sentTo_one p q tid ev : sentTo p [Sent q tid ev] = if decide (q = p) then [ev] else [].
Proof. cbn. by destruct (decide (q = p)). Qed.
Lemma streamedFrom_one p q tid ev : streamedFrom p [Streamed q tid ev] = if decide (q = p) then [ev] else [].
Proof. cbn. by destruct (decide (q = p)). Qed.

(** An event that is sent, or is not. *)
Lemma WInv_sent actions a w p sess ev tid t : WInv actions w -> store (srv w) !! p = Some sess -> s_closed sess = false ->
  length (s_events sess) < eventChannelSize ->
  let s' := setSession p {| sess with s_events := s_events sess ++ [ev] |} (srv w) in
  TInv (actions ++ [a]) (note (Sent p tid ev) (onServer w s')) tid t ->
  WInv (actions ++ [a]) (note (Sent p tid ev) (proceed tid t (onServer w s'))).
Proof.
  intros H Hp Hc Hlen s' Ht. eapply (WInv_session actions a w _ [Sent p tid ev] p sess); [done|done|done|done|by repeat split| |done|..].
  - cbn. rewrite length_app. cbn. lia.
  - rewrite sentTo_one, decide_True by done. done.
  - intros q Hq. rewrite sentTo_one, decide_False by done. done.
  - eapply (reported_mono (facts w) _ p sess); [cbn; set_solver|by repeat split|by apply (wi_reported _ _ H)].
  - intros tid' t'. cbn [note proceed onServer threads]. rewrite lookup_insert_Some. intros [[<- <-]|[_ Hold]]; auto.
Qed.

(** ** The sections of requests *)

Lemma resume_sends actions a w p sess ev tid (go : bool -> thread) : WInv actions w -> store (srv w) !! p = Some sess ->
  (forall s', is_Some (store s' !! p) -> evolves w (note (Sent p tid ev) (onServer w s')) ->
     TInv (actions ++ [a]) (note (Sent p tid ev) (onServer w s')) tid (go true)) ->
  TInv (actions ++ [a]) w tid (go false) ->
  exists sent s', sendEvent p ev (srv w) = Ok (sent, s') /\
    WInv (actions ++ [a]) (if (sent : bool) then note (Sent p tid ev) (proceed tid (go true) (onServer w s')) else proceed tid (go false) (onServer w s')).
Proof.
  intros H Hp Htrue Hfalse. destruct (sendEvent_spec (srv w) p sess ev (wi_server _ _ H) Hp) as ([] & s' & Hse & Hi & Hcase).
  - destruct Hcase as (Hc & Hlen & ->). eexists true, _. split; [exact Hse|]. eapply WInv_sent; [done..|].
    apply Htrue; [cbn [setSession store]; rewrite lookup_insert_eq; eauto|].
    by eapply (evolves_setSession w _ [Sent p tid ev] p sess).
  - subst s'. exists false, (srv w). split; [done|]. apply WInv_quiet; [done|apply smooth_refl, H|]. by destruct w.
Qed.

Lemma resume_Heartbeating actions a w p req sess tid : WInv actions w -> store (srv w) !! p = Some sess ->
  (forall l, a_Addresses req = Some l -> valid l) -> (forall l, a_Relay req = Some l -> valid l) ->
  WInv (actions ++ [a]) (note (Reported p (now w) (a_Addresses req) (a_Relay req))
    (proceed tid (Acknowledging p) (onServer w (setSession p (heartbeat (now w) req sess) (srv w))))).
Proof.
  intros H Hp Ha Hr. pose proof (wi_reported _ _ H p sess Hp) as ((t1 & r1 & H1) & Hv & H2 & _).
  eapply (WInv_session actions a w _ [Reported p (now w) (a_Addresses req) (a_Relay req)] p sess); [done|done|done|done|by repeat split| |done|..].
  - cbn [heartbeat s_events]. by eapply (si_bounds _ (wi_server _ _ H)).
  - cbn. by rewrite app_nil_r.
  - done.
  - unfold reported. cbn [heartbeat s_addresses s_relay s_expires note facts proceed onServer].
    assert (Hnew : forall f, f = Reported p (now w) (a_Addresses req) (a_Relay req) -> f ∈ facts w ++ [Reported p (now w) (a_Addresses req) (a_Relay req)])
      by (intros f ->; set_solver).
    assert (Hold : forall f, f ∈ facts w -> f ∈ facts w ++ [Reported p (now w) (a_Addresses req) (a_Relay req)]) by set_solver.
    split_and!.
    + destruct (a_Addresses req) as [l|]; cbn; [eexists _, _; by apply Hnew|eexists _, _; by apply Hold].
    + destruct (a_Addresses req) as [l|] eqn:Hl; cbn; [by apply Ha|done].
    + destruct (a_Relay req) as [l|] eqn:Hl; cbn.
      * right. split; [by apply Hr|]. eexists _, _. by apply Hnew.
      * destruct H2 as [H2|(H2 & t2 & a2 & H3)]; [by left|right; split; [done|]; eexists _, _; by apply Hold].
    + eexists _, _, _. split; [by apply Hnew|done].
  - intros tid' t'. cbn [note proceed onServer threads]. rewrite lookup_insert_Some. intros [[<- <-]|[_ Hold]]; [right|by left].
    cbn. rewrite lookup_insert_eq. eauto.
Qed.

Lemma resume_Streaming actions a w p sess ev rest tid : WInv actions w -> store (srv w) !! p = Some sess -> s_events sess = ev :: rest ->
  WInv (actions ++ [a]) (note (Streamed p tid ev) (onServer w (setSession p {| sess with s_events := rest |} (srv w)))).
Proof.
  intros H Hp He. eapply (WInv_session actions a w _ [Streamed p tid ev] p sess); [done|done|done|done|by repeat split| |done|..].
  - pose proof (si_bounds _ (wi_server _ _ H) p sess Hp) as [Hb _]. rewrite He in Hb. cbn in *. lia.
  - rewrite streamedFrom_one, decide_True, He by done. cbn. by rewrite app_nil_r.
  - intros q Hq. rewrite streamedFrom_one, decide_False by done. done.
  - eapply (reported_mono (facts w) _ p sess); [cbn; set_solver|by repeat split|by apply (wi_reported _ _ H)].
  - by left.
Qed.

Lemma resume_Waiting actions a w p own relay req ch deadline tid c r chs : WInv actions w ->
  threads w !! tid = Some (Waiting p own relay req ch deadline) -> await c p own relay req ch deadline w = Some (r, chs) ->
  WInv (actions ++ [a]) (proceed tid (Leaving p (r_Nonce req) r) (onServer w {| (srv w) with channels := chs |})).
Proof.
  intros H Ht Haw. pose proof (wi_threads _ _ H tid _ Ht) as (Hs & Hi & Hv & Hatt & Hsent).
  apply WInv_quiet; [done|by eapply smooth_await; [apply H|]|]. split; [done|].
  assert (Hans : forall l, valid l -> (l = own \/ Answered p (r_Nonce req) l ∈ facts w) ->
    answered (actions ++ [a]) (onServer w {| (srv w) with channels := chs |}) tid (Connected l (r_Nonce req) (r_Obfs req) relay)).
  { intros l Hl Ho. exists p, own, req. split_and!; try done. by apply introduced_mono. }
  destruct c; cbn [await] in Haw.
  - destruct (channels (srv w) !! ch) as [k|] eqn:Hch; [|done]. cbn [mbind option_bind] in Haw.
    destruct (ch_payload k) as [l|] eqn:Hl; [|destruct (ch_closed k); [|done]; by injection Haw as <- _].
    injection Haw as <- _. destruct Hatt as (_ & _ & Hpay). destruct (Hpay k l Hch Hl) as [Ha Hvl].
    destruct (0 <? length l); apply Hans; auto.
  - destruct (deadline <=? now w)%Z; [|done]. injection Haw as <- _. apply Hans; auto.
  - destruct (store (srv w) !! p); [|done]. cbn [mbind option_bind] in Haw. destruct (s_done _); [|done]. by injection Haw as <- _.
  - by injection Haw as <- _.
Qed.

Lemma registerPending_attempt w p nonce ch s' : SInv (srv w) -> registerPending p nonce (srv w) = Some (ch, s') ->
  is_Some (store s' !! p) /\ attempt (onServer w s') p nonce ch.
Proof.
  intros H. unfold registerPending. destruct (store (srv w) !! p) as [sess|] eqn:Hp; [|done]. cbn [mbind option_bind].
  destruct (s_closed sess || _); [done|]. case_bool_decide; [done|]. intros [= <- <-]. cbn [store].
  split; [rewrite lookup_insert_eq; eauto|]. unfold attempt. cbn [onServer srv store channels nextChannel]. split; [lia|]. split.
  - intros q k n. rewrite lookup_insert_Some. intros [[<- <-]|[Hne Hq]] Hn.
    + cbn [s_pending] in Hn. apply lookup_insert_Some in Hn as [[-> _]|[_ Hn]]; [done|].
      apply (si_pending _ H p sess n _ Hp), (si_channels _ H) in Hn. lia.
    + apply (si_pending _ H q k n _ Hq), (si_channels _ H) in Hn. lia.
  - intros k l. rewrite lookup_insert_eq. by intros [= <-].
Qed.

Lemma resume_WInv actions a w tid c t out : WInv actions w -> threads w !! tid = Some t -> resume tid c t w = Some out ->
  exists w', out = Ok w' /\ WInv (actions ++ [a]) w'.
Proof.
  intros H Ht. pose proof (wi_server _ _ H) as HS. pose proof (wi_threads _ _ H tid t Ht) as HT.
  destruct t as [p|p req|p|p|p own relay req|p own relay req ch|p own relay req ch deadline|p nonce r|p nonce addresses|p|r]; cbn [resume TInv] in *.
  - destruct HT as [sess Hp]. destruct (removeSessionLocked_total (srv w) p sess HS Hp) as [s' Hr]. rewrite Hr. intros [= <-].
    eexists. split; [done|]. apply WInv_quiet; [done|by eapply smooth_removed|done].
  - destruct HT as ([sess Hp] & Ha & Hr). rewrite Hp. intros [= <-]. eexists. split; [done|]. by apply resume_Heartbeating.
  - destruct HT as [sess Hp].
    destruct (resume_sends actions a w p sess (HeartbeatAck ttlSeconds) tid (fun _ => Done (HeartbeatReply ttlSeconds)) H Hp) as (sent & s' & Hse & Hw); [done..|].
    rewrite Hse. cbn. intros [= <-]. eexists. split; [done|]. by destruct sent.
  - destruct c; try done; [|intros [= <-]; eexists; split; [done|]; by apply WInv_fail].
    destruct HT as [sess Hp]. rewrite Hp. cbn [mbind option_bind]. destruct (s_events sess) as [|ev rest] eqn:He.
    + destruct (s_eventsOpen sess); [done|]. intros [= <-]. eexists. split; [done|]. by apply WInv_fail.
    + intros [= <-]. eexists. split; [done|]. by apply resume_Streaming.
  - destruct HT as (Hs & Hi & Hv). destruct (registerPending p (r_Nonce req) (srv w)) as [[ch s']|] eqn:Hr; intros [= <-]; eexists; (split; [done|]).
    + destruct (registerPending_attempt w p _ ch s' HS Hr) as [Hs' Hatt]. apply WInv_quiet; [done|by eapply smooth_registerPending|].
      split_and!; try done. by apply introduced_mono.
    + by apply WInv_fail.
  - destruct HT as ([sess Hp] & Hi & Hv & Hatt).
    destruct (resume_sends actions a w p sess (punchOf req) tid
      (fun sent => if (sent : bool) then Waiting p own relay req ch (now w + connectResponseTimeout)%Z
        else Leaving p (r_Nonce req) (Failure 503 "rate_limited" (E_New ["server event buffer full"]))) H Hp) as (sent & s' & Hse & Hw).
    + intros s' Hs' E. split_and!; [done|by apply introduced_mono|done|by eapply attempt_evolves|]. cbn. set_solver.
    + cbn. split; [eauto|done].
    + rewrite Hse. cbn. intros [= <-]. eexists. split; [done|]. by destruct sent.
  - destruct (await c p own relay req ch deadline w) as [[r chs]|] eqn:Haw; [|done]. intros [= <-]. eexists. split; [done|].
    by eapply resume_Waiting.
  - destruct HT as [[sess Hp] Hans]. intros [= <-]. eexists. split; [done|]. apply WInv_quiet; [done|by apply smooth_cancelPending|].
    by eapply answered_evolves.
  - destruct HT as [[sess Hp] Hv]. set (f := Answered p nonce addresses).
    destruct (smooth_deliver (facts w ++ [f]) (srv w) p sess nonce addresses HS Hp) as (delivered & s' & Hd & Hs & Hno); [set_solver|done|].
    rewrite Hd. cbn [mbind result_bind]. intros [= <-]. eexists. split; [done|]. destruct delivered.
    + eapply (WInv_smooth actions a w _ [f]); [done|done|done|exact Hs|]. intros tid' t'. cbn [note proceed onServer threads].
      rewrite lookup_insert_Some. intros [[<- <-]|[_ Hold]]; [by right|by left].
    + rewrite Hno by done. apply WInv_quiet; [done|by apply smooth_refl|done].
  - destruct HT as [sess Hp]. unfold removeExpiredSession. rewrite Hp. destruct (_ || _); cbn [mbind result_bind].
    + intros [= <-]. eexists. split; [done|]. apply WInv_quiet; [done|by apply smooth_refl|done].
    + destruct (removeSessionLocked_total (srv w) p sess HS Hp) as [s' Hr]. rewrite Hr. intros [= <-].
      eexists. split; [done|]. apply WInv_quiet; [done|by eapply smooth_removed|done].
  - done.
Qed.

(** ** New requests *)

Lemma EncodeToString_inj b b' : EncodeToString b = EncodeToString b' -> b = b'.
Proof. intros H. pose proof (DecodeString_EncodeToString b) as Hb. rewrite H, DecodeString_EncodeToString in Hb. by injection Hb. Qed.

Lemma WInv_registered actions a w tid token user id req l b : WInv actions w -> b ∉ randoms actions -> randoms [a] = [b] ->
  tokenMap !! token = Some user -> realms (srv w) !! id = None ->
  ((0 <? u_maxRealms user) && (u_maxRealms user <=? count (srv w) (u_name user)) = false)%Z ->
  a_Addresses req = Some l -> valid l -> (forall l, a_Relay req = Some l -> valid l) ->
  let sess := newSession (now w) user id req b in
  WInv (actions ++ [a]) (note (Reported (nextSession (srv w)) (now w) (a_Addresses req) (a_Relay req))
    (proceed tid (Done (Registered (s_id sess) ttlSeconds)) (onServer w (registered (srv w) id sess)))).
Proof.
  intros H Hb Ha Htok Hr Hquota Haddr Hv Hrel sess. set (p := nextSession (srv w)). set (w' := note _ _).
  pose proof (wi_server _ _ H) as HS. assert (Hp : store (srv w) !! p = None).
  { destruct (store (srv w) !! p) eqn:Hq; [|done]. apply (si_store _ HS) in Hq. unfold p in Hq. lia. }
  assert (Hid : sessions (srv w) !! s_id sess = None).
  { destruct (sessions (srv w) !! s_id sess) as [q|] eqn:Hq; [|done]. destruct (si_sessions _ HS _ q Hq) as (k & Hk & _ & He).
    destruct (wi_ids _ _ H q k Hk) as (b' & Hb' & He'). rewrite He' in He. apply EncodeToString_inj in He as ->. done. }
  assert (Hold : forall q k, store (srv w') !! q = Some k -> q = p /\ k = sess \/ q <> p /\ store (srv w) !! q = Some k).
  { intros q k. cbn [w' note proceed onServer srv registered store]. fold p. rewrite lookup_insert_Some. intros [[<- <-]|[Hne Hq]]; auto. }
  assert (E : evolves w w').
  { split; cbn [w' note proceed onServer srv registered store facts nextChannel channels]; fold p.
    - intros q Hq. rewrite lookup_insert_ne; [done|]. intros <-. rewrite Hp in Hq. by destruct Hq.
    - set_solver.
    - done.
    - intros q k n c. rewrite lookup_insert_Some. intros [[<- <-]|[_ Hq]] Hn; [by cbn in Hn; rewrite lookup_empty in Hn|eauto].
    - eauto. }
  split.
  - by apply SInv_registered.
  - intros q k [[-> ->]|[_ Hq]]%Hold; rewrite randoms_app.
    + exists b. rewrite Ha. split; [apply elem_of_app; right; by left|done].
    + destruct (wi_ids _ _ H q k Hq) as (b' & Hb' & He). exists b'. split; [apply elem_of_app; by left|done].
  - intros tid' t. cbn [w' note proceed onServer threads]. rewrite lookup_insert_Some. intros [[<- <-]|[_ Ht]]; [done|].
    eapply TInv_evolves; [done|]. by apply (wi_threads _ _ H).
  - intros q. cbn [w' note proceed onServer srv facts registered store]. fold p. rewrite sentTo_app, streamedFrom_app. cbn. rewrite !app_nil_r.
    rewrite (wi_events _ _ H q). destruct (decide (q = p)) as [->|]; [by rewrite lookup_insert_eq, Hp|by rewrite lookup_insert_ne].
  - intros q k [[-> ->]|[_ Hq]]%Hold.
    + unfold reported. cbn [sess newSession s_addresses s_relay s_expires w' note proceed onServer facts]. rewrite Haddr. cbn [default].
      assert (Hin : Reported p (now w) (Some l) (a_Relay req) ∈ facts w ++ [Reported p (now w) (Some l) (a_Relay req)])
        by (apply elem_of_app; right; by left).
      split_and!; [by eexists _, _|done| |by eexists _, _, _].
      destruct (a_Relay req) as [r|] eqn:Hr'; cbn; [right; split; [by apply Hrel|by eexists _, _]|by left].
    + eapply (reported_mono (facts w) _ q k k); [cbn; set_solver|done|]. by apply (wi_reported _ _ H).
  - intros u limit Hl Hpos. cbn [w' note proceed onServer srv]. unfold count. cbn [registered userCounts sess newSession s_username].
    destruct (decide (u_name user = u)) as [<-|Hne].
    + rewrite lookup_insert_eq. cbn. pose proof (Hl token user Htok eq_refl). apply andb_false_iff in Hquota as [Hq|Hq]; lia.
    + rewrite lookup_insert_ne by done. by apply (wi_quota _ _ H).
Qed.

Lemma authBearer_inr {A} name header (lookup : string -> option A) a : authBearer name header lookup = inr a -> exists token, lookup token = Some a.
Proof.
  unfold authBearer. destruct (strings.Index header " "); [|done]. destruct (negb _); [done|].
  destruct (lookup _) as [b|] eqn:Hl; [|done]. intros [= ->]. eauto.
Qed.

Lemma authSession_inr time id header s p : authSession time id header s = inr p -> is_Some (store s !! p).
Proof.
  intros (token & H)%authBearer_inr. unfold getSessionByToken in H. destruct (sessions s !! token) as [q|]; [|done]. cbn in H.
  destruct (store s !! q) as [sess|] eqn:Hq; [|done]. cbn in H. destruct (_ || _); [done|]. cbn in H. case_bool_decide; [|done].
  injection H as ->. eauto.
Qed.

Lemma routed_WInv {A} actions a w tid id (auth : response + A) handler out : WInv actions w ->
  (forall r, auth = inl r -> forall x y z u, r <> Connected x y z u) ->
  (forall b, auth = inr b -> WInv (actions ++ [a]) (handler b w)) ->
  routed tid id auth handler w = Some out -> exists w', out = Ok w' /\ WInv (actions ++ [a]) w'.
Proof.
  intros H Hl Hr. unfold routed. case_bool_decide; [done|]. intros [= <-]. eexists. split; [done|].
  destruct (negb (realmPattern id)); [by apply WInv_fail|]. destruct auth as [r|b]; [|by apply Hr]. apply WInv_fail; [done|]. by apply Hl.
Qed.

Lemma authBearer_inl {A} name header (lookup : string -> option A) r : authBearer name header lookup = inl r -> forall x y z u, r <> Connected x y z u.
Proof.
  unfold authBearer. destruct (strings.Index header " "); [|by intros [= <-]]. destruct (negb _); [by intros [= <-]|].
  destruct (lookup _); by intros [= <-].
Qed.

Lemma handleRegister_WInv actions w tid header token user id body random : WInv actions w -> tokenMap !! token = Some user ->
  NoDup (randoms (actions ++ [Register tid header id body random])) ->
  WInv (actions ++ [Register tid header id body random]) (handleRegister ParseAddrPort tid user id body random w).
Proof.
  intros H Htok Hnd. unfold handleRegister. destruct body as [req|e|m]; [|by apply WInv_fail..].
  destruct (validateAddresses ParseAddrPort (default [] (a_Addresses req))) eqn:Hv; [by apply WInv_fail|].
  destruct (validateOptional ParseAddrPort (a_Relay req)) eqn:Hrel; [by apply WInv_fail|].
  case_bool_decide as Hr; [by apply WInv_fail|]. apply eq_None_not_Some in Hr.
  destruct (_ && _) eqn:Hq; [by apply WInv_fail|]. destruct random as [b|e|m]; [|by apply WInv_fail..].
  destruct (a_Addresses req) as [l|] eqn:Ha; [|done]. rewrite <- Ha. apply (WInv_registered actions _ w tid token user id req l b); try done.
  - intros Hin. rewrite randoms_app in Hnd. apply NoDup_app in Hnd as (_ & Hd & _). apply (Hd b Hin). cbn. by left.
  - intros r Hr'. rewrite Hr' in Hrel. done.
Qed.

Lemma handleHeartbeat_WInv actions a w tid p body : WInv actions w -> is_Some (store (srv w) !! p) ->
  WInv (actions ++ [a]) (handleHeartbeat ParseAddrPort tid p body w).
Proof.
  intros H Hp. unfold handleHeartbeat. destruct (match body with Ok _ => _ | _ => _ end) as [req|]; [|by apply WInv_fail].
  destruct (validateOptional ParseAddrPort (a_Addresses req)) eqn:Ha; [by apply WInv_fail|].
  destruct (validateOptional ParseAddrPort (a_Relay req)) eqn:Hr; [by apply WInv_fail|]. apply WInv_proceed; [done|]. split; [done|].
  split; intros l Hl; [rewrite Hl in Ha|rewrite Hl in Hr]; done.
Qed.

Lemma handleConnect_WInv actions w tid header user id body : WInv actions w -> run actions (newWorld t0) = Some (Ok w) ->
  authUser tokenMap header = inr user ->
  WInv (actions ++ [Connect tid header id body]) (handleConnect ParseAddrPort tid id body w).
Proof.
  intros H Hrun Hauth. unfold handleConnect. destruct body as [req|e|m]; [|by apply WInv_fail..].
  destruct (validateAddresses ParseAddrPort (r_Addresses req)); [by apply WInv_fail|].
  destruct (validateHexField "nonce" _ _); [by apply WInv_fail|]. destruct (validateHexField "obfs" _ _); [by apply WInv_fail|].
  destruct (realms (srv w) !! id) as [p|] eqn:Hr; [|by apply WInv_fail]. cbn [mbind option_bind].
  destruct (store (srv w) !! p) as [sess|] eqn:Hp; [|by apply WInv_fail]. cbn [fmap option_fmap option_map].
  destruct (s_closed sess || _) eqn:Hg; [by apply WInv_fail|]. apply orb_false_iff in Hg as [_ He%Z.ltb_ge].
  apply WInv_proceed; [done|]. split_and!; [eauto| |by destruct (wi_reported _ _ H p sess Hp) as (_ & ? & _)].
  exists actions, [], header, id, user, w, sess. done.
Qed.

Lemma handleConnectResponse_WInv actions a w tid p nonce body : WInv actions w -> is_Some (store (srv w) !! p) ->
  WInv (actions ++ [a]) (handleConnectResponse ParseAddrPort tid p nonce body w).
Proof.
  intros H Hp. unfold handleConnectResponse. destruct (validateHexField "nonce" nonce nonceHexLength); [by apply WInv_fail|].
  destruct body as [l|e|m]; [|by apply WInv_fail..]. destruct (validateAddresses ParseAddrPort l) eqn:Hv; [by apply WInv_fail|].
  by apply WInv_proceed.
Qed.

Lemma smooth_trans fs s s1 s2 : smooth fs s s1 -> smooth fs s1 s2 -> smooth fs s s2.
Proof.
  intros [Hi Hb Hf Hn Hp Hpay Hc] [Hi' Hb' Hf' Hn' Hp' Hpay' Hc']. split; [done|..|lia| | |].
  - intros p k2 (k1 & (k & Hk & Hcalm)%Hb & Hcalm')%Hb'. exists k. split; [done|]. unfold calm in *. naive_solver congruence.
  - auto.
  - intros q k2 n c H2 Hc2 Hlt. destruct (Hp' q k2 n c H2 Hc2) as (k1 & H1 & Hc1); [lia|]. by eapply Hp.
  - intros c ch l H2 Hl Hlt. destruct (Hpay' c ch l H2 Hl) as [(ch1 & H1 & Hl1)|(p & k1 & n & H1 & Hc1 & Ha & Hv)]; [lia|by eapply Hpay|].
    right. destruct (Hp p k1 n c H1 Hc1 Hlt) as (k & Hk & Hn0). by exists p, k, n.
  - intros u. specialize (Hc u). specialize (Hc' u). lia.
Qed.

Lemma removeSessions_smooth fs l s : SInv s -> (forall p, p ∈ l -> is_Some (store s !! p)) -> exists s', removeSessions l s = Ok s' /\ smooth fs s s'.
Proof.
  revert s. induction l as [|p l IH]; intros s H Hl; [exists s; split; [done|by apply smooth_refl]|]. cbn [removeSessions].
  destruct (Hl p (list_elem_of_here _ _)) as [sess Hp]. destruct (removeSessionLocked_total s p sess H Hp) as [s1 Hr]. rewrite Hr.
  pose proof (smooth_removed fs s p s1 H Hr) as Hs. destruct (IH s1) as (s2 & Hr2 & Hs2); [apply Hs|intros q Hq; apply Hs, Hl; by right|].
  exists s2. split; [exact Hr2|]. by eapply smooth_trans.
Qed.

Lemma step_WInv actions a w out : WInv actions w -> run actions (newWorld t0) = Some (Ok w) -> NoDup (randoms (actions ++ [a])) ->
  step a w = Some out -> exists w', out = Ok w' /\ WInv (actions ++ [a]) w'.
Proof.
  intros H Hrun Hnd. pose proof (wi_server _ _ H) as HS. destruct a as [d|tid header id body random|tid header id|tid header id body|tid header id|tid header id body
    |tid header id nonce body|tid p| |tid c]; cbn [Rendezvous.step].
  - intros [= <-]. eexists. split; [done|].
    eapply (WInv_smooth actions _ w _ []); [done|by rewrite app_nil_r|done|by apply smooth_refl|]. by left.
  - apply routed_WInv; [done|by apply authBearer_inl|]. intros user (token & Htok)%authBearer_inr. by eapply handleRegister_WInv.
  - apply routed_WInv; [done|by apply authBearer_inl|]. intros p Hp%authSession_inr. by apply WInv_proceed.
  - apply routed_WInv; [done|by apply authBearer_inl|]. intros p Hp%authSession_inr. by apply handleHeartbeat_WInv.
  - apply routed_WInv; [done|by apply authBearer_inl|]. intros p Hp%authSession_inr. by apply WInv_proceed.
  - apply routed_WInv; [done|by apply authBearer_inl|]. intros user Huser. by eapply handleConnect_WInv.
  - apply routed_WInv; [done|by apply authBearer_inl|]. intros p Hp%authSession_inr. by apply handleConnectResponse_WInv.
  - destruct (store (srv w) !! p) as [sess|] eqn:Hp; [|done]. cbn [mbind option_bind]. destruct (s_timer sess) as [d|]; [|done].
    cbn [mbind option_bind]. destruct (_ || _); [done|]. intros [= <-]. eexists. split; [done|]. apply WInv_quiet; [done| |].
    + eapply smooth_setSession; [done|done|by repeat split|by repeat split|done].
    + cbn. rewrite lookup_insert_eq. eauto.
  - assert (Hl : forall p, p ∈ map snd (map_to_list (sessions (srv w))) -> is_Some (store (srv w) !! p)).
    { intros p ([i q] & -> & Hi)%list_elem_of_fmap. apply elem_of_map_to_list in Hi. destruct (si_sessions _ HS i q Hi) as (k & Hk & _). eauto. }
    destruct (removeSessions_smooth (facts w) _ (srv w) HS Hl) as (s' & Hr & Hs). unfold closeAll. rewrite Hr. intros [= <-].
    eexists. split; [done|]. eapply (WInv_smooth actions _ w _ []); [done|by rewrite app_nil_r|done|exact Hs|]. by left.
  - destruct (threads w !! tid) as [t|] eqn:Ht; [|done]. cbn [mbind option_bind]. by apply resume_WInv.
Qed.

(** ** Runs *)

Lemma rendezvous_run_app l k w : run (l ++ k) w = match run l w with Some (Ok w') => run k w' | out => out end.
Proof.
  revert w. induction l as [|a l IH]; intros w; [done|]. cbn [app Rendezvous.run]. destruct (step a w) as [[w'|e|m]|]; [apply IH|done..].
Qed.

Lemma WInv_new : WInv [] (newWorld t0).
Proof. by split. Qed.

Lemma run_WInv actions out : NoDup (randoms actions) -> run actions (newWorld t0) = Some out -> exists w, out = Ok w /\ WInv actions w.
Proof.
  revert out. induction actions as [|a actions IH] using rev_ind; intros out Hnd; [intros [= <-]; eexists; split; [done|apply WInv_new]|].
  rewrite rendezvous_run_app. assert (Hnd0 : NoDup (randoms actions)) by (rewrite randoms_app in Hnd; by apply NoDup_app in Hnd as (? & _)).
  destruct (run actions (newWorld t0)) as [o|] eqn:Hrun; [|done]. destruct (IH o Hnd0 eq_refl) as (w & -> & H). cbn [Rendezvous.run].
  destruct (step a w) as [o|] eqn:Hstep; [|done]. destruct (step_WInv actions a w o H Hrun Hnd Hstep) as (w' & -> & H').
  intros [= <-]. eauto.
Qed.

(** C15: the rendezvous never panics.  However requests, timers and shutdowns interleave,
    a realm has at most one live session, and a session that is not live has no
    attempts; a user holds at most as many realms as the tokens of the user allow; and
    the events of a session are streamed in the order in which they were sent, each once,
    the rest waiting in the channel. *)
Theorem rendezvous_is_sound actions out :
  NoDup (randoms actions) -> run actions (newWorld t0) = Some out ->
  exists w, out = Ok w
    /\ (forall p sess, store (srv w) !! p = Some sess ->
         if s_closed sess then s_pending sess = ∅
         else realms (srv w) !! s_realmID sess = Some p /\ sessions (srv w) !! s_id sess = Some p)
    /\ (forall user limit, limited user limit -> (0 <= limit)%Z -> (Z.of_nat (size (owned (srv w) user)) <= limit)%Z)
    /\ (forall p sess, store (srv w) !! p = Some sess -> sentTo p (facts w) = streamedFrom p (facts w) ++ s_events sess).
Proof.
  intros Hnd Hrun. destruct (run_WInv actions out Hnd Hrun) as (w & -> & H). exists w. pose proof (wi_server _ _ H) as HS. split_and!; [done|..].
  - intros p sess Hp. destruct (s_closed sess) eqn:Hc; [by apply (si_flags _ HS p sess Hp)|by apply (si_live _ HS)].
  - intros user limit Hl Hpos. destruct (si_counts _ HS user) as [<- _]. by apply (wi_quota _ _ H).
  - intros p sess Hp. by rewrite (wi_events _ _ H p), Hp.
Qed.

(** C17: whom the rendezvous introduces.  When a connect request is answered with addresses,
    a user sent it with these nonce and obfuscation key, at that moment a node held the
    realm with a session it had reported to within the last minute; the addresses are
    what the node reported last or answered to this nonce, the relays what it reported,
    and the request was announced to the session. *)
Theorem rendezvous_introduces actions w tid addresses nonce obfs relay :
  NoDup (randoms actions) -> run actions (newWorld t0) = Some (Ok w) ->
  threads w !! tid = Some (Done (Connected addresses nonce obfs relay)) ->
  exists before after header user id req w0 p sess r,
    actions = before ++ Connect tid header id (Ok req) :: after /\ run before (newWorld t0) = Some (Ok w0)
    /\ authUser tokenMap header = inr user /\ r_Nonce req = nonce /\ r_Obfs req = obfs
    /\ realms (srv w0) !! id = Some p /\ store (srv w0) !! p = Some sess
    /\ (exists time a r, Reported p time a r ∈ facts w0 /\ (now w0 <= time + sessionTTL)%Z)
    /\ (addresses = s_addresses sess /\ (exists time, Reported p time (Some addresses) r ∈ facts w0) \/ Answered p nonce addresses ∈ facts w)
    /\ relay = s_relay sess /\ valid addresses /\ Sent p tid (punchOf req) ∈ facts w.
Proof.
  intros Hnd Hrun Ht. destruct (run_WInv actions _ Hnd Hrun) as (w' & [= <-] & H). pose proof (wi_threads _ _ H tid _ Ht) as HT.
  destruct HT as (p & own & req & (before & after & header & id & user & w0 & sess & -> & Hb & Hauth & Hr & Hp & He & Hown & Hrel) & Hn & Ho & Hv & Ha & Hs).
  assert (Hnd0 : NoDup (randoms before)) by (rewrite randoms_app in Hnd; by apply NoDup_app in Hnd as (? & _)).
  destruct (run_WInv before _ Hnd0 Hb) as (w0' & [= <-] & H0).
  destruct (wi_reported _ _ H0 p sess Hp) as ((t1 & r1 & Hrep) & _ & _ & (t2 & a2 & r2 & Hrep2 & Hexp)).
  exists before, after, header, user, id, req, w0, p, sess, r1. split_and!; try done; [exists t2, a2, r2; split; [done|lia]|].
  destruct Ha as [->|Ha]; [left|by right]. subst own. eauto.
Qed.

(** ** Every request is started once *)

Definition starts (a : action) : option nat :=
  match a with
  | Register tid _ _ _ _ | Deregister tid _ _ | Heartbeat tid _ _ _ | Events tid _ _ | Connect tid _ _ _ | ConnectResponse tid _ _ _ _
  | TimerFires tid _ => Some tid
  | Advance _ | CloseAll | Run _ _ => None
  end.

(** [w'] has the request [tid] in place of what [w] has. *)
Definition touches (tid : nat) (w w' : world) : Prop := forall tid', tid' <> tid -> threads w' !! tid' = threads w !! tid'.

Lemma touches_proceed tid t w : touches tid w (proceed tid t w).
Proof. intros tid' Hne. cbn. by rewrite lookup_insert_ne. Qed.

Lemma routed_touches {A} tid id (auth : response + A) handler w w' : (forall a, touches tid w (handler a w) /\ is_Some (threads (handler a w) !! tid)) ->
  routed tid id auth handler w = Some (Ok w') -> threads w !! tid = None /\ touches tid w w' /\ is_Some (threads w' !! tid).
Proof.
  intros Hh. unfold routed. case_bool_decide as Ht; [done|]. apply eq_None_not_Some in Ht. intros [= <-]. split; [done|].
  destruct (negb _); [|destruct auth as [r|a]; [|by apply Hh]]; (split; [apply touches_proceed|cbn; rewrite lookup_insert_eq; eauto]).
Qed.

Lemma resume_touches tid c t w w' : threads w !! tid = Some t -> resume tid c t w = Some (Ok w') -> touches tid w w' /\ is_Some (threads w' !! tid).
Proof.
  intros Ht. assert (Hp : forall s u f, touches tid w (note f (proceed tid u (onServer w s))) /\ is_Some (threads (note f (proceed tid u (onServer w s))) !! tid)).
  { intros s u f. split; [|cbn; rewrite lookup_insert_eq; eauto]. intros tid' Hne. cbn. by rewrite lookup_insert_ne. }
  assert (Hq : forall s u, touches tid w (proceed tid u (onServer w s)) /\ is_Some (threads (proceed tid u (onServer w s)) !! tid))
    by (intros s u; apply (Hp s u (Answered 0 "" []))).
  assert (Hr : forall u, touches tid w (proceed tid u w) /\ is_Some (threads (proceed tid u w) !! tid)).
  { intros u. destruct (Hq (srv w) u) as [H1 H2]. by destruct w. }
  destruct t; cbn [resume].
  - intros [= H]. apply bind_Ok_inv in H as (s & _ & [= <-]). apply Hq.
  - destruct (store (srv w) !! p); [|done]. intros [= <-]. apply Hp.
  - intros [= H]. apply bind_Ok_inv in H as ([b s] & _ & [= <-]). destruct b; [apply Hp|apply Hq].
  - destruct c; try done; [|intros [= <-]; apply Hr]. destruct (store (srv w) !! p) as [sess|]; [|done]. cbn [mbind option_bind].
    destruct (s_events sess) as [|ev rest]; [destruct (s_eventsOpen sess); [done|]; intros [= <-]; apply Hr|].
    intros [= <-]. cbn. split; [done|eauto].
  - destruct (registerPending _ _ _) as [[ch s]|]; intros [= <-]; [apply Hq|apply Hr].
  - intros [= H]. apply bind_Ok_inv in H as ([b s] & _ & [= <-]). destruct b; [apply Hp|apply Hq].
  - destruct (await _ _ _ _ _ _ _ _) as [[r chs]|]; [|done]. intros [= <-]. apply Hq.
  - intros [= <-]. apply Hq.
  - intros [= H]. apply bind_Ok_inv in H as ([b s] & _ & [= <-]). destruct b; [apply Hp|apply Hq].
  - intros [= H]. apply bind_Ok_inv in H as (s & _ & [= <-]). apply Hq.
  - done.
Qed.

Ltac handled :=
  repeat match goal with
  | |- context [match ?x with _ => _ end] => destruct x
  | |- context [if ?x then _ else _] => destruct x
  end; (split; [intros tid' Hne; cbn; by rewrite lookup_insert_ne|cbn; rewrite lookup_insert_eq; eauto]).

Lemma step_touches a w w' : step a w = Some (Ok w') ->
  match starts a with
  | Some tid => threads w !! tid = None /\ touches tid w w' /\ is_Some (threads w' !! tid)
  | None => forall tid, is_Some (threads w' !! tid) <-> is_Some (threads w !! tid)
  end.
Proof.
  destruct a as [d|tid header id body random|tid header id|tid header id body|tid header id|tid header id body
    |tid header id nonce body|tid p| |tid c]; cbn [Rendezvous.step starts].
  - by intros [= <-].
  - apply routed_touches. intros user. unfold handleRegister. handled.
  - apply routed_touches. intros p. handled.
  - apply routed_touches. intros p. unfold handleHeartbeat. handled.
  - apply routed_touches. intros p. handled.
  - apply routed_touches. intros user. unfold handleConnect. handled.
  - apply routed_touches. intros p. unfold handleConnectResponse. handled.
  - destruct (store (srv w) !! p) as [sess|]; [|done]. cbn [mbind option_bind]. destruct (s_timer sess); [|done]. cbn [mbind option_bind].
    case_bool_decide as Ht; [done|]. apply eq_None_not_Some in Ht. destruct (_ <? _)%Z; [done|]. intros [= <-]. split; [done|].
    split; [intros tid' Hne; cbn; by rewrite lookup_insert_ne|cbn; rewrite lookup_insert_eq; eauto].
  - intros [= H]. by apply bind_Ok_inv in H as (s & _ & [= <-]).
  - destruct (threads w !! tid) as [t|] eqn:Ht; [|done]. cbn [mbind option_bind]. intros Hr. destruct (resume_touches tid c t w w' Ht Hr) as [H1 H2].
    intros tid'. destruct (decide (tid' = tid)) as [->|Hne]; [rewrite Ht; by split; eauto|by rewrite H1].
Qed.

Lemma run_starts actions w : run actions (newWorld t0) = Some (Ok w) ->
  NoDup (omap starts actions) /\ forall tid, is_Some (threads w !! tid) <-> tid ∈ omap starts actions.
Proof.
  revert w. induction actions as [|a actions IH] using rev_ind; intros w.
  { intros [= <-]. cbn. split; [constructor|]. intros tid. rewrite lookup_empty, elem_of_nil. split; [by intros [? ?]|done]. }
  rewrite rendezvous_run_app. destruct (run actions (newWorld t0)) as [[w0|e|m]|] eqn:Hrun; [|done..]. cbn [Rendezvous.run].
  destruct (step a w0) as [[w1|e|m]|] eqn:Hs; [|done..]. intros [= <-]. destruct (IH w0 eq_refl) as [Hnd Hin].
  apply step_touches in Hs. rewrite omap_app. cbn. destruct (starts a) as [tid|]; cbn.
  - destruct Hs as (Hnew & Htouch & Hsome). assert (Hni : tid ∉ omap starts actions) by (rewrite <- Hin, Hnew; by intros [? ?]). split.
    + apply NoDup_app. split; [done|]. split; [|apply NoDup_singleton]. intros x Hx ->%list_elem_of_singleton. done.
    + intros tid'. rewrite elem_of_app, list_elem_of_singleton, <- Hin. destruct (decide (tid' = tid)) as [->|Hne]; [naive_solver|].
      rewrite (Htouch tid' Hne). naive_solver.
  - rewrite app_nil_r. split; [done|]. intros tid. by rewrite Hs.
Qed.

(** The action that started a request is the only one. *)
Lemma started_once actions w a b tid : run actions (newWorld t0) = Some (Ok w) -> a ∈ actions -> b ∈ actions ->
  starts a = Some tid -> starts b = Some tid -> a = b.
Proof.
  intros [Hnd _]%run_starts Ha Hb Hsa Hsb. apply list_elem_of_lookup in Ha as [i Hi], Hb as [j Hj]. clear w. revert actions i j Hnd Hi Hj.
  induction actions as [|c actions IH]; intros i j Hnd Hi Hj; [done|]. cbn in Hnd.
  assert (Hin : forall k x, actions !! k = Some x -> starts x = Some tid -> tid ∈ omap starts actions).
  { intros k x Hk Hx. apply list_elem_of_omap. exists x. split; [by eapply list_elem_of_lookup_2|done]. }
  destruct i as [|i], j as [|j]; cbn in Hi, Hj.
  - congruence.
  - injection Hi as ->. rewrite Hsa in Hnd. apply NoDup_cons in Hnd as [Hni _]. destruct Hni. by eapply Hin.
  - injection Hj as ->. rewrite Hsb in Hnd. apply NoDup_cons in Hnd as [Hni _]. destruct Hni. by eapply Hin.
  - eapply IH; [|done..]. destruct (starts c); [by apply NoDup_cons in Hnd as [_ ?]|done].
Qed.

End Runs.
