(* ===== verification/RendezvousSystem.v ===== *)
(** * A client and a node that meet at the rendezvous

    The requests and replies of RealmControl over the server of Rendezvous: both sides get
    the same metadata, so that their punch packets decode (RealmPacket).  At the end,
    concrete runs. *)

From S2P Require Import Prelude GoStd Metadata Binary Instances Datagram RealmPacket RealmControl Rendezvous RendezvousTheorems RendezvousRuns.
From Stdlib Require Import Strings.Byte Strings.Ascii.
From stdpp Require Import list.
Import netip RealmPacket RealmControl Rendezvous.

Open Scope nat_scope.

(** ** Texts *)

(** The texts of addresses and JSON: [AddrPort.MarshalText], [AddrPort.UnmarshalText] and
    [json.Marshal] of the data of an event. *)
Record Texts : Type := mkTexts {
  ParseAddrPort : string -> option AddrPort;
  AddrPort_String : AddrPort -> string;
  Marshal : realmEvent -> string;
  Unmarshal : string -> option punchMetadataWire;
}.

Record TextLaws (T : Texts) : Prop := mkTextLaws {
  tl_address : forall a, ap_IsValid a = true -> ParseAddrPort T (AddrPort_String T a) = Some a;
  tl_object : forall ev, exists members, Marshal T ev = ("{" +:+ members +:+ "}")%string;
  tl_punch : forall ev addresses, mapM (ParseAddrPort T) (p_Addresses ev) = Some addresses ->
    Unmarshal T (Marshal T (PunchKind ev)) = Some (mkPunchMetadataWire addresses (p_Nonce ev) (p_Obfs ev) []);
}.

Section System.
Context `{E : Externals} (T : Texts) (L : TextLaws T).
Variable tokenMap : gmap string realmUser.
Variable t0 : Z.

Abbreviation run := (Rendezvous.run (ParseAddrPort T) tokenMap).

(** ** Requests and replies over HTTP *)

Definition requestOf (wire : punchMetadataWire) : connectRequest :=
  mkConnectRequest (map (AddrPort_String T) (w_Addresses wire)) (w_Nonce wire) (w_Obfs wire).

(** [doJSON] on a reply: [checkStatus], and the decoder. *)
Definition replyOf (r : response) : result punchMetadataWire :=
  match r with
  | Connected addresses nonce obfs relay =>
      match mapM (ParseAddrPort T) addresses, mapM (ParseAddrPort T) relay with
      | Some addresses, Some relay => Ok (mkPunchMetadataWire addresses nonce obfs relay)
      | _, _ => Err (E_Cause (ErrExternal "json") ["decode response"])
      end
  | Failure _ code message => Err (E_Cause message ["control "; code])
  | _ => Err (ErrExternal "http")
  end.

(** What [handleEvents] writes for an event. *)
Definition kind (ev : realmEvent) : string := match ev with PunchKind _ => "punch" | HeartbeatAck _ => "heartbeat_ack" end.
Definition frameOf (ev : realmEvent) : frame := [Field "event" (" " +:+ kind ev); Field "data" (" " +:+ Marshal T ev)].
(** The stream that a node reads, while the connection is open. *)
Definition streamOf (events : list realmEvent) (err : option error) : EventStream :=
  mkEventStream (concat (map render (map frameOf events))) err.

(** ** The stream *)

Lemma list_ascii_app s t : String.list_ascii_of_string (s +:+ t) = String.list_ascii_of_string s ++ String.list_ascii_of_string t.
Proof. induction s as [|c s IH]; [done|]. change (String c s +:+ t) with (String c (s +:+ t)). cbn. by rewrite IH. Qed.

Lemma TrimSpace_object members :
  strings.TrimSpace unicode_tables (" " +:+ "{" +:+ members +:+ "}") = ("{" +:+ members +:+ "}")%string.
Proof.
  unfold strings.TrimSpace. set (s := ("{" +:+ members +:+ "}")%string).
  assert (strings.trim_left (" " +:+ s) = inl s) as -> by done.
  assert (strings.rev_str s = ("}" +:+ strings.rev_str ("{" +:+ members))%string) as Hr.
  { unfold strings.rev_str, s. rewrite !list_ascii_app. cbn [String.list_ascii_of_string]. rewrite app_assoc, rev_app_distr. by cbn [rev app]. }
  assert (strings.trim_left (strings.rev_str s) = inl (strings.rev_str s)) as -> by (by rewrite Hr).
  unfold strings.rev_str. by rewrite String.list_ascii_of_string_of_list_ascii, rev_involutive, String.string_of_list_ascii_of_string.
Qed.

Lemma eventOf_frameOf ev : eventOf (Unmarshal T) (frameOf ev) = match ev with PunchKind _ => parseEvent (Unmarshal T) (Marshal T ev) | HeartbeatAck _ => None end.
Proof.
  destruct (tl_object _ L ev) as [members Hm]. unfold eventOf, frameOf. cbn [fieldsOf].
  rewrite bool_decide_eq_true_2 by done. cbn [fieldsOf]. rewrite bool_decide_eq_false_2, bool_decide_eq_true_2 by done.
  rewrite Hm, TrimSpace_object. unfold addData. rewrite (bool_decide_eq_true_2 ("" = "")) by done. cbn [fieldsOf].
  destruct ev; [|done]. assert (strings.TrimSpace unicode_tables (" " +:+ kind (PunchKind data)) = "punch") as -> by done.
  rewrite bool_decide_eq_true_2 by done. by rewrite bool_decide_eq_false_2.
Qed.

Lemma mapM_AddrPort_String addresses : Forall (fun a => ap_IsValid a = true) addresses ->
  mapM (ParseAddrPort T) (map (AddrPort_String T) addresses) = Some addresses.
Proof. induction 1 as [|a l Ha _ IH]; [done|]. cbn. by rewrite (tl_address _ L a Ha), IH. Qed.

(** What the node reads of an announced request. *)
Lemma eventOf_punch addresses metadata : wf_metadata metadata -> Forall (fun a => ap_IsValid a = true) addresses ->
  let wire := mkPunchMetadataWire addresses (EncodeToString (Nonce metadata)) (EncodeToString (ObfuscationKey metadata)) [] in
  eventOf (Unmarshal T) (frameOf (punchOf (requestOf wire))) = Some (mkPunchEvent addresses metadata).
Proof.
  intros Hm Ha wire. rewrite eventOf_frameOf. unfold punchOf, parseEvent. cbn [requestOf r_Addresses r_Nonce r_Obfs wire w_Addresses w_Nonce w_Obfs].
  rewrite (tl_punch _ L _ addresses) by (cbn; by apply mapM_AddrPort_String). cbn [mbind option_bind w_Nonce w_Obfs w_Addresses p_Nonce p_Obfs].
  by rewrite decodeWireMetadata_encoded.
Qed.

Lemma drain_streamOf events err : (drain (Unmarshal T) (S (length events)) (streamOf events err)).1 = omap (fun ev => eventOf (Unmarshal T) (frameOf ev)) events.
Proof.
  unfold streamOf. rewrite <- (length_map frameOf events), events_in_order.
  - cbn [fst]. induction events as [|ev events IH]; [done|]. cbn. destruct (eventOf _ _); by rewrite <- ?IH.
  - induction events as [|ev events IH]; [done|]. cbn. exact IH.
Qed.

Lemma Connect_Ok reply id addresses metadata resp : wf_metadata metadata -> RealmControl.Connect (fun _ _ => replyOf reply) id addresses metadata = Ok resp ->
  exists own nonce obfs relay, reply = Connected own nonce obfs relay /\ mapM (ParseAddrPort T) own = Some (c_Addresses resp)
    /\ mapM (ParseAddrPort T) relay = Some (c_Relay resp) /\ decodeWireMetadata nonce obfs = Ok (c_PunchMetadata resp).
Proof.
  intros Hm. unfold RealmControl.Connect. intros (raw & Hraw & H)%bind_Ok_inv. apply map_err_Ok_inv in Hraw.
  apply bind_Ok_inv in H as (meta & Hmeta & [= <-]). apply map_err_Ok_inv in Hmeta. destruct reply as [| | | |own nonce obfs relay| |]; try done.
  cbn [replyOf] in Hraw. destruct (mapM _ own) as [a|] eqn:Ha; [|done]. destruct (mapM _ relay) as [r|] eqn:Hr; [|done]. injection Hraw as <-.
  by exists own, nonce, obfs, relay.
Qed.

(** C16: client and node agree.  When the connect request of a client succeeds, the metadata
    it gets is the metadata it made; the addresses and relays are those of the session
    that held the realm when the request came; the request was announced to that session,
    and once it is streamed, the node reads from its stream the addresses of the client
    with the same metadata. *)
Theorem rendezvous_agrees actions w tid header id addresses metadata reply resp :
  let wire := mkPunchMetadataWire addresses (EncodeToString (Nonce metadata)) (EncodeToString (ObfuscationKey metadata)) [] in
  let request := Rendezvous.Connect tid header id (Ok (requestOf wire)) in
  NoDup (randoms actions) -> run actions (newWorld t0) = Some (Ok w) ->
  request ∈ actions -> threads w !! tid = Some (Done reply) ->
  wf_metadata metadata -> Forall (fun a => ap_IsValid a = true) addresses ->
  RealmControl.Connect (fun _ _ => replyOf reply) id addresses metadata = Ok resp ->
  c_PunchMetadata resp = metadata /\
  exists before after w0 p sess own,
    actions = before ++ request :: after /\ run before (newWorld t0) = Some (Ok w0)
    /\ realms (srv w0) !! id = Some p /\ store (srv w0) !! p = Some sess /\ (now w0 <= s_expires sess)%Z
    /\ mapM (ParseAddrPort T) own = Some (c_Addresses resp) /\ (own = s_addresses sess \/ Answered p (w_Nonce wire) own ∈ facts w)
    /\ mapM (ParseAddrPort T) (s_relay sess) = Some (c_Relay resp)
    /\ punchOf (requestOf wire) ∈ sentTo p (facts w)
    /\ forall err, punchOf (requestOf wire) ∈ streamedFrom p (facts w) ->
         let events := streamedFrom p (facts w) in
         mkPunchEvent addresses metadata ∈ (drain (Unmarshal T) (S (length events)) (streamOf events err)).1.
Proof.
  intros wire request Hnd Hrun Hreq Ht Hm Ha Hc. destruct (Connect_Ok _ _ _ _ _ Hm Hc) as (got & nonce & obfs & relay & -> & Hgot & Hrelay & Hmeta).
  destruct (run_WInv _ _ _ actions _ Hnd Hrun) as (w' & [= <-] & H). pose proof (wi_threads _ _ _ _ _ H tid _ Ht) as HT.
  destruct HT as (p & own & req & (before & after & header' & id' & user & w0 & sess & Hact & Hb & _ & Hr & Hp & He & Hown & Hrel) & -> & -> & _ & Hgot' & Hs).
  assert (Rendezvous.Connect tid header' id' (Ok req) = request) as Heq.
  { eapply (started_once (ParseAddrPort T) tokenMap t0 actions w _ _ tid Hrun); [rewrite Hact; set_solver|done..]. }
  injection Heq as -> -> ->. assert (Hmeta' : decodeWireMetadata (w_Nonce wire) (w_Obfs wire) = Ok metadata) by (by apply decodeWireMetadata_encoded).
  change (decodeWireMetadata (w_Nonce wire) (w_Obfs wire) = Ok (c_PunchMetadata resp)) in Hmeta.
  split; [congruence|]. exists before, after, w0, p, sess, got. subst own relay. split_and!; try done.
  - apply list_elem_of_omap. exists (Sent p tid (punchOf (requestOf wire))). split; [done|]. by rewrite decide_True.
  - intros err Hstream events. rewrite drain_streamOf. apply list_elem_of_omap. eexists. split; [exact Hstream|]. by apply eventOf_punch.
Qed.

End System.

(** ** Texts: the bits of an encoding, between braces for JSON *)

Fixpoint bits (p : positive) : string :=
  match p with xH => "}" | xO p => String "0" (bits p) | xI p => String "1" (bits p) end.
Fixpoint unbits (s : string) : positive :=
  match s with String "0" s => xO (unbits s) | String "1" s => xI (unbits s) | _ => xH end.
Lemma unbits_bits p : unbits (bits p) = p.
Proof. induction p as [p IH|p IH|]; simpl; by rewrite ?IH. Qed.
Lemma bits_object p : exists members, bits p = (members +:+ "}")%string.
Proof.
  induction p as [p [m Hm]|p [m Hm]|]; cbn [bits]; rewrite ?Hm; [by exists (String "1" m)|by exists (String "0" m)|by exists ""].
Qed.

Definition sampleParse (s : string) : option AddrPort := decode (unbits s).
Definition sampleTexts : Texts := {|
  ParseAddrPort := sampleParse;
  AddrPort_String := fun a => bits (encode a);
  Marshal := fun ev => match ev with
    | PunchKind ev => "{" +:+ bits (encode (p_Addresses ev, p_Nonce ev, p_Obfs ev))
    | HeartbeatAck ttl => "{" +:+ bits (encode ttl)
    end;
  Unmarshal := fun s =>
    '(l, nonce, obfs) ← (decode (unbits (strings.drop_str 1 s)) : option (list string * string * string));
    addresses ← mapM sampleParse l;
    Some (mkPunchMetadataWire addresses nonce obfs []);
|}.

Lemma sampleTexts_laws : TextLaws sampleTexts.
Proof.
  split.
  - intros a _. cbn. unfold sampleParse. by rewrite unbits_bits, decode_encode.
  - intros [ev|ttl]; cbn.
    + destruct (bits_object (encode (p_Addresses ev, p_Nonce ev, p_Obfs ev))) as [m ->]. by exists m.
    + destruct (bits_object (encode ttl)) as [m ->]. by exists m.
  - intros ev addresses Ha. cbn [Unmarshal Marshal sampleTexts]. set (e := encode _).
    assert (strings.drop_str 1 ("{" +:+ bits e) = bits e) as ->.
    { unfold strings.drop_str. cbn [String.length String.substring]. change ("{" +:+ bits e) with (String "{" (bits e)).
      cbn [String.length String.substring]. rewrite Nat.sub_succ, Nat.sub_0_r. apply substring_all. }
    unfold e. rewrite unbits_bits, decode_encode. cbn [mbind option_bind]. cbn in Ha. by rewrite Ha.
Qed.

(** ** A node and a client *)

Definition nodeAddress : AddrPort := AddrPortFrom (Addr4 1) 1.
Definition nodeAddress2 : AddrPort := AddrPortFrom (Addr4 1) 2.
Definition clientAddress : AddrPort := AddrPortFrom (Addr4 2) 1.
Definition relayAddress : AddrPort := AddrPortFrom (Addr4 3) 1.
Definition text (a : AddrPort) : string := AddrPort_String sampleTexts a.

Definition sampleTokens : gmap string realmUser := {["t" := mkRealmUser "u" 1]}.
Definition token : list byte := repeat x07 2.
Definition session : string := "Bearer " +:+ EncodeToString token.
Definition metadata : PunchMetadata := mkPunchMetadata (repeat x01 16) (repeat x02 32).
Definition wire : punchMetadataWire :=
  mkPunchMetadataWire [clientAddress] (EncodeToString (Nonce metadata)) (EncodeToString (ObfuscationKey metadata)) [].

Abbreviation run := (Rendezvous.run sampleParse sampleTokens).
Definition worldAfter (actions : list action) : world := match run actions (newWorld 0) with Some (Ok w) => w | _ => newWorld 0 end.

Definition register : action :=
  Register 0 "Bearer t" "home" (Ok (mkAddressesRequest (Some [text nodeAddress]) (Some [text relayAddress]))) (Ok token).
Definition connect (tid : nat) : action := Rendezvous.Connect tid "Bearer t" "home" (Ok (requestOf sampleTexts wire)).
Definition respond (tid : nat) : action := Rendezvous.ConnectResponse tid session "home" (w_Nonce wire) (Ok [text nodeAddress2]).

(** The node registers and reads its stream, the client connects, and the node answers
    with a new address. *)
Definition meeting : list action :=
  [register; Events 1 session "home"; connect 2; Run 2 FromChannel; Run 2 FromChannel; Run 1 FromChannel;
   respond 3; Run 3 FromChannel; Run 2 FromChannel; Run 2 FromChannel].
Definition met : world := worldAfter meeting.

Lemma meeting_runs : run meeting (newWorld 0) = Some (Ok met).
Proof. vm_compute. reflexivity. Qed.
Lemma meeting_replies : threads met !! 2 = Some (Done (Connected [text nodeAddress2] (w_Nonce wire) (w_Obfs wire) [text relayAddress])).
Proof. vm_compute. reflexivity. Qed.

(** ** Witnesses *)

Lemma meeting_randoms : NoDup (randoms meeting).
Proof. cbn. apply NoDup_singleton. Qed.

Lemma rendezvous_is_sound_witness :
  NoDup (randoms meeting) /\ run meeting (newWorld 0) = Some (Ok met) /\ limited sampleTokens "u" 1 /\
  exists w, Ok met = Ok w /\ (Z.of_nat (size (owned (srv w) "u")) <= 1)%Z.
Proof.
  assert (Hl : limited sampleTokens "u" 1).
  { intros token u. unfold sampleTokens. rewrite lookup_singleton_Some. intros [_ <-] _. cbn. lia. }
  split; [exact meeting_randoms|]. split; [exact meeting_runs|]. split; [exact Hl|].
  destruct (rendezvous_is_sound sampleParse sampleTokens 0 meeting (Ok met) meeting_randoms meeting_runs) as (w & Hw & _ & Hq & _).
  exists w. split; [exact Hw|]. apply (Hq "u" 1%Z Hl). lia.
Defined.

Lemma rendezvous_introduces_witness :
  threads met !! 2 = Some (Done (Connected [text nodeAddress2] (w_Nonce wire) (w_Obfs wire) [text relayAddress])) /\
  exists p req, r_Nonce req = w_Nonce wire /\ Sent p 2 (punchOf req) ∈ facts met.
Proof.
  split; [exact meeting_replies|].
  destruct (rendezvous_introduces sampleParse sampleTokens 0 meeting met 2 _ _ _ _ meeting_randoms meeting_runs meeting_replies)
    as (before & after & header & user & id & req & w0 & p & sess & r & _ & _ & _ & Hn & _ & _ & _ & _ & _ & _ & _ & Hs).
  exists p, req. split; [exact Hn|exact Hs].
Defined.

Lemma rendezvous_agrees_witness :
  exists resp, RealmControl.Connect (E := sampleExternals)
      (fun _ _ => replyOf sampleTexts (Connected [text nodeAddress2] (w_Nonce wire) (w_Obfs wire) [text relayAddress]))
      "home" [clientAddress] metadata = Ok resp
    /\ c_PunchMetadata resp = metadata.
Proof.
  exists (mkConnectResponse [nodeAddress2] metadata [relayAddress]).
  assert (Hc : RealmControl.Connect (E := sampleExternals)
      (fun _ _ => replyOf sampleTexts (Connected [text nodeAddress2] (w_Nonce wire) (w_Obfs wire) [text relayAddress]))
      "home" [clientAddress] metadata = Ok (mkConnectResponse [nodeAddress2] metadata [relayAddress])) by (vm_compute; reflexivity).
  split; [exact Hc|].
  assert (Hin : connect 2 ∈ meeting) by (apply list_elem_of_further, list_elem_of_further, list_elem_of_here).
  assert (Ha : Forall (fun a => ap_IsValid a = true) [clientAddress]) by (by constructor).
  destruct (rendezvous_agrees (E := sampleExternals) sampleTexts sampleTexts_laws sampleTokens 0 meeting met 2 "Bearer t" "home" [clientAddress] metadata
    _ _ meeting_randoms meeting_runs Hin meeting_replies (conj eq_refl eq_refl) Ha Hc) as [H _].
  exact H.
Defined.

(** ** Where the server differs from its intent *)

(** The deferred [cancelPending] of a request removes the attempt of a later request with
    the same nonce, whose answer is then refused. *)
Definition reusedNonce : list action :=
  [register; connect 1; Run 1 FromChannel; Run 1 FromChannel; respond 2; Run 2 FromChannel; Run 1 FromChannel;
   connect 3; Run 3 FromChannel; Run 3 FromChannel; Run 1 FromChannel; respond 4; Run 4 FromChannel].
Lemma earlier_request_cancels_later :
  threads (worldAfter reusedNonce) !! 4 = Some (Done (Failure 404 "attempt_not_found" (E_New ["no pending attempt for nonce"])))
  /\ match threads (worldAfter reusedNonce) !! 3 with Some (Waiting _ _ _ _ _ _) => true | _ => false end = true.
Proof. split; vm_compute; reflexivity. Qed.

(** A timer that fires at the very moment of expiry removes nothing and is not set again:
    the realm stays taken, and no client finds it. *)
Definition sameMoment : list action :=
  [register; Advance 60000000000; TimerFires 1 0; Run 1 FromChannel; Advance 3600000000000;
   Register 2 "Bearer t" "home" (Ok (mkAddressesRequest (Some [text nodeAddress]) None)) (Ok [x00]); connect 3].
Lemma expired_session_keeps_realm :
  threads (worldAfter sameMoment) !! 2 = Some (Done (Failure 409 "realm_taken" (E_New ["realm already registered"])))
  /\ threads (worldAfter sameMoment) !! 3 = Some (Done realmNotFound)
  /\ (s_timer <$> store (srv (worldAfter sameMoment)) !! 0) = Some None.
Proof. split_and!; vm_compute; reflexivity. Qed.
