(* ===== verification/RealmDial.v ===== *)
(** * Reaching a node (src/transport/realm/punch.go, relay.go, relay_race.go and probe_trace.go, and
    src/third_party/sing-quic/hysteria2/realm/punch_select.go)

    [PunchTracedWithMode] opens sockets, asks the rendezvous for the addresses of the node,
    races the address families and falls back to a relay.  Programs pass the sockets on:
    which were opened, which are open, and the calls of Close.  What the network does is
    the record [Env]; [None] means that a program does not return, because it waits for
    something that does not happen or because it panics. *)

From S2P Require Import Prelude GoStd Metadata Binary Datagram RealmPacket RealmStun RealmCandidates.
From S2P Require Import RealmPunch RealmDiscover RealmControl.
From Stdlib Require Import Strings.Byte.
Import netip RealmPacket RealmCandidates RealmPunch RealmControl.

Open Scope N_scope.

Module RealmDial.

(** A value or an error; a panic ends the program. *)
Definition failed {A} (r : error + A) : bool := match r with inl _ => true | inr _ => false end.

(** ** Sockets *)

Record Sockets : Type := mkSockets { opened : nat; live : gset nat; closes : list nat }.

Definition M (A : Type) : Type := Sockets -> option (A * Sockets).
#[export] Instance M_ret : MRet M := fun A a s => Some (a, s).
#[export] Instance M_bind : MBind M := fun A B f m s =>
  match m s with Some (a, s) => f a s | None => None end.

Definition blocked {A} : M A := fun _ => None.
Definition openSocket : M nat := fun s =>
  Some (opened s, mkSockets (S (opened s)) ({[opened s]} ∪ live s) (closes s)).
Definition Close (conn : nat) : M unit := fun s =>
  Some (tt, mkSockets (opened s) (live s ∖ {[conn]}) (closes s ++ [conn])).
Fixpoint closeAll (conns : list nat) : M unit :=
  match conns with
  | [] => mret tt
  | conn :: conns => _ ← Close conn; closeAll conns
  end.

(** [listenPacket] *)
Definition listenPacket (err : option error) : M (error + nat) :=
  match err with
  | Some err => mret (inl err)
  | None => conn ← openSocket; mret (inr conn)
  end.

(** ** The winner of a race of address families *)

Record PunchOutcome (F : Type) : Type := mkPunchOutcome { Family : F; IPv4 : bool; outcome : error + PunchResult }.
Arguments mkPunchOutcome {F}.
Arguments Family {F}.
Arguments IPv4 {F}.
Arguments outcome {F}.

(** What the [select] of the race sees. *)
Inductive arrival (F : Type) : Type :=
| Arrives (o : PunchOutcome F)
| GraceEnds.
Arguments Arrives {F}.
Arguments GraceEnds {F}.

(** The winner, if there is one, and the failures in the order of arrival. *)
Fixpoint selectLoop {F} (arrivals : list (arrival F)) (pending received : nat) (grace : bool) (v4Win : option (PunchOutcome F))
    (failures : list (PunchOutcome F)) : option (option (PunchOutcome F) * list (PunchOutcome F)) :=
  if (received <? pending)%nat then
    match arrivals with
    | [] => None
    | Arrives o :: arrivals =>
        let received := S received in
        if failed (outcome o) then
          let failures := failures ++ [o] in
          match v4Win with
          | Some w => if negb (IPv4 o) then Some (Some w, failures)
                      else selectLoop arrivals pending received grace v4Win failures
          | None => selectLoop arrivals pending received grace v4Win failures
          end
        else if negb (IPv4 o) then Some (Some o, failures)
        else if negb grace || (pending <=? received)%nat then Some (Some o, failures)
        else selectLoop arrivals pending received grace (Some o) failures
    | GraceEnds :: arrivals =>
        match v4Win with
        | Some w => Some (Some w, failures)
        | None => selectLoop arrivals pending received grace v4Win failures
        end
    end
  else Some (v4Win, failures).

(** [grace]: whether the window for IPv6 is positive. *)
Definition SelectPunchWinner {F} (arrivals : list (arrival F)) (pending : nat) (grace : bool)
    : option (option (PunchOutcome F) * list (PunchOutcome F)) :=
  selectLoop arrivals pending 0 grace None [].

(** ** Traces *)

Inductive FailStage : Type :=
| FailStageSTUN | FailStageRendezvous | FailStageCandidate | FailStagePunch | FailStageHandshake | FailStageFirstByte.
#[export] Instance FailStage_eq_dec : EqDecision FailStage.
Proof. solve_decision. Defined.

Inductive NATTypeGuess : Type := NATTypeUnknown | NATTypeCone | NATTypeSymmetric.
#[export] Instance NATTypeGuess_eq_dec : EqDecision NATTypeGuess.
Proof. solve_decision. Defined.

Definition guessNATType (srflx : list AddrPort) : NATTypeGuess :=
  match srflx with
  | first :: ((_ :: _) as rest) =>
      if existsb (fun addr => negb (bool_decide (ap_Addr addr = ap_Addr first)) || negb (ap_Port addr =? ap_Port first)) rest
      then NATTypeSymmetric else NATTypeCone
  | _ => NATTypeUnknown
  end.

(** The fields of a trace that the dialer sets; times are in nanoseconds, and durations
    in milliseconds.  The code of an error is not modelled. *)
Record Trace : Type := mkTrace {
  TraceNonce : list byte;
  TunnelEstablished : bool;
  TraceFailStage : option FailStage;
  TraceError : option error;
  RelayUsed : bool;
  RelayAddr : option AddrPort;
  RelayError : option error;
  STUNMs : option Z;
  RendezvousMs : option Z;
  PunchMs : option Z;
  HandshakeMs : option Z;
  TotalMs : option Z;
  STUNServerUsed : list string;
  LocalSrflx : list AddrPort;
  NATGuess : option NATTypeGuess;
  PeerCandidates : list AddrPort;
  CandidateCount : nat;
  CandidatePairs : list AddrPort;
  PeerAddrMatched : option AddrPort;
  FirstRecvType : string;
  WinnerFamily : string;
  start : Z;
  stageStart : Z;
}.

Definition NewTrace (now : Z) : Trace :=
  mkTrace [] false None None false None None None None None None None [] [] None [] 0 [] None "" "" now now.

Definition msSince (since now : Z) : option Z := Some (Z.quot (now - since) Millisecond).

Definition STUNDone (srflx : list AddrPort) (serversUsed : list string) (now : Z) (t : Trace) : Trace :=
  {| t with STUNMs := msSince (stageStart t) now; stageStart := now;
            STUNServerUsed := serversUsed; LocalSrflx := srflx; NATGuess := Some (guessNATType srflx) |}.
Definition RendezvousDone (peerCandidates : list AddrPort) (now : Z) (t : Trace) : Trace :=
  {| t with RendezvousMs := msSince (stageStart t) now; stageStart := now; PeerCandidates := peerCandidates |}.
Definition NonceNegotiated (metadata : PunchMetadata) (t : Trace) : Trace := {| t with TraceNonce := Nonce metadata |}.
Definition CandidatesComputed (candidates : list AddrPort) (t : Trace) : Trace :=
  if (CandidateCount t <? length candidates)%nat
  then {| t with CandidateCount := length candidates; CandidatePairs := candidates |} else t.
Definition punchTypeName (packetType : byte) : string :=
  if bool_decide (packetType = PunchHello) then "hello" else if bool_decide (packetType = PunchAck) then "ack" else "".
Definition PunchDone (r : PunchResult) (family : string) (now : Z) (t : Trace) : Trace :=
  {| t with PunchMs := msSince (stageStart t) now; stageStart := now;
            PeerAddrMatched := Some (PeerAddr r); FirstRecvType := punchTypeName (Type_ r); WinnerFamily := family |}.
Definition HandshakeDone (now : Z) (t : Trace) : Trace :=
  {| t with HandshakeMs := msSince (stageStart t) now; stageStart := now; TunnelEstablished := true; TotalMs := msSince (start t) now |}.
Definition RelayEstablished (relayAddr : AddrPort) (now : Z) (t : Trace) : Trace :=
  {| t with RelayUsed := true; RelayAddr := Some relayAddr; TotalMs := msSince (start t) now |}.
Definition RelayFailed (err : error) (t : Trace) : Trace := {| t with RelayError := Some err |}.
(** The first failure counts. *)
Definition Fail (stage : FailStage) (err : error) (now : Z) (t : Trace) : Trace :=
  match TraceFailStage t with
  | Some _ => t
  | None => {| t with TraceFailStage := Some stage; TraceError := Some err; TotalMs := msSince (start t) now |}
  end.

(** ** The environment *)

(** One address family: opening its socket, discovery, and the punch loop.  [f_order] is
    the order of the map of the candidates. *)
Record FamilyEnv : Type := mkFamilyEnv {
  f_listen : option error;
  f_random : nat -> result (list byte);
  f_trials : list Discover.trial;
  f_order : list Addr;
  f_now : Z;
  f_turns : list turn;
}.

(** What a socket that waits for a relay reads; [None]: not a UDP address.  [timedOut]:
    whether the context has ended. *)
Inductive relayRead : Type :=
| RelayReadError (err : error) (timedOut : bool)
| RelayReadFrom (data : list byte) (from : option AddrPort).

Record RelayEnv : Type := mkRelayEnv { y_listen : option error; y_reads : list relayRead }.

(** [e_arrivals]: the families in the order in which their punches end, and the end of
    the grace period.  [e_relayOrder]: the relays in the order in which their handshakes
    end.  [e_relayFirst]: whether the relays end before the punches.  [e_now]: the clock
    at the points where a trace reads it. *)
Record Env : Type := mkEnv {
  e_v4 : FamilyEnv;
  e_v6 : FamilyEnv;
  e_resolveOrder : list nat;
  e_nonce : result (list byte);
  e_key : result (list byte);
  e_post : string -> punchMetadataWire -> result punchMetadataWire;
  e_placeholder : option error;
  e_placeholderAddr : option AddrPort;
  e_arrivals : list (option bool);
  e_relays : nat -> RelayEnv;
  e_relayOrder : list nat;
  e_relayFirst : bool;
  e_now : nat -> Z;
}.

Record Config : Type := mkConfig {
  ServerURL : string;
  STUNServers : list string;
  cfg_Resolver : option Discover.Resolver;
}.

Definition familyEnv (e : Env) (ipv4 : bool) : FamilyEnv := if ipv4 then e_v4 e else e_v6 e.

(** A result of a call that may panic. *)
Definition settle {A} (r : result A) : M (error + A) :=
  match r with Ok a => mret (inr a) | Err err => mret (inl err) | Panic _ => blocked end.
(** A result of a call that may not return. *)
Definition await {A} (r : option (result A)) : M (error + A) :=
  match r with Some r => settle r | None => blocked end.

Section Dial.
Context `{E : Externals}.
Variable Sum256 : list byte -> list byte.
(** [E.Errors], [err.Error()], [netip.AddrPort.String] and [E.IsCanceled] *)
Variable E_Errors : list error -> error.
Variable Error_String : error -> string.
Variable AddrPort_String : AddrPort -> string.
Variable IsCanceled : error -> bool.

(** ** Address families *)

Record familyConn : Type := mkFamilyConn {
  family : string;
  ipv4 : bool;
  conn : nat;
  localAddresses : list AddrPort;
}.

Definition rights {A B} (l : list (A + B)) : list B := omap (fun x => match x with inr b => Some b | inl _ => None end) l.
Definition lefts {A B} (l : list (A + B)) : list A := omap (fun x => match x with inl a => Some a | inr _ => None end) l.

Definition openFamily (e : Env) (name : string) (v4 : bool) : M (error + familyConn) :=
  conn ← listenPacket (f_listen (familyEnv e v4));
  mret (match conn with inr conn => inr (mkFamilyConn name v4 conn []) | inl err => inl (E_Cause err [name]) end).

Definition openFamilies (e : Env) : M (error + list familyConn) :=
  v4 ← openFamily e "v4" true;
  v6 ← openFamily e "v6" false;
  let families := rights [v4; v6] in
  mret (if (length families =? 0)%nat then inl (E_Cause (E_Errors (lefts [v4; v6])) ["listen UDP for realm"]) else inr families).

(** The discovery of a family.  When it is cancelled after the grace period, its trials
    say so. *)
Definition discoverFamily (e : Env) (stunServers : list AddrPort) (f : familyConn) : M (error + list AddrPort) :=
  let env := familyEnv e (ipv4 f) in
  await (Discover.Discover E_Errors AddrPort_String IsCanceled (f_random env) (map Discover.attemptOf (f_trials env))
           (filter (fun server => Is4 (ap_Addr server) = ipv4 f) stunServers)).

(** The families whose discovery ended well; the sockets of the others are closed. *)
Fixpoint survivors (families : list familyConn) (results : list (error + list AddrPort)) : M (list familyConn * list error) :=
  match families, results with
  | f :: families, inl err :: results =>
      _ ← Close (conn f);
      '(surviving, errs) ← survivors families results;
      mret (surviving, E_Cause err [family f] :: errs)
  | f :: families, inr addrs :: results =>
      '(surviving, errs) ← survivors families results;
      mret ({| f with localAddresses := addrs |} :: surviving, errs)
  | _, _ => mret ([], [])
  end.

Fixpoint mapM_ {A B} (f : A -> M B) (l : list A) : M (list B) :=
  match l with
  | [] => mret []
  | x :: l => y ← f x; ys ← mapM_ f l; mret (y :: ys)
  end.

Definition discoverFamilies (e : Env) (cfg : Config) (families : list familyConn)
    : M (error + (list familyConn * list AddrPort)) :=
  let needIPv4 := existsb ipv4 families in
  let needIPv6 := existsb (fun f => negb (ipv4 f)) families in
  stunServers ← settle (Discover.ResolveSTUNServers (e_resolveOrder e) (STUNServers cfg) (cfg_Resolver cfg) needIPv4 needIPv6);
  match stunServers with
  | inl err => _ ← closeAll (map conn families); mret (inl (E_Cause err ["resolve STUN servers"]))
  | inr stunServers =>
      results ← mapM_ (discoverFamily e stunServers) families;
      '(surviving, errs) ← survivors families results;
      mret (if (length surviving =? 0)%nat then inl (E_Cause (E_Errors errs) ["realm STUN discovery"])
            else inr (surviving, concat (map localAddresses surviving)))
  end.

(** ** Punching *)

(** The punch of a family; [None]: it has not returned. *)
Definition punchFamily (e : Env) (peerAddresses : list AddrPort) (metadata : PunchMetadata) (f : familyConn)
    : option (error + PunchResult) :=
  let env := familyEnv e (ipv4 f) in
  match snd (Punch Sum256 metadata (f_order env) (filter (fun peer => Is4 (ap_Addr peer) = ipv4 f) peerAddresses)
               (f_now env) (f_turns env)) with
  | inr (Ok r) => Some (inr r)
  | inr (Err err) => Some (inl err)
  | _ => None
  end.

(** What the race sees of an arrival. *)
Definition arrivalOf (e : Env) (families : list familyConn) (peerAddresses : list AddrPort) (metadata : PunchMetadata)
    (a : option bool) : option (arrival familyConn) :=
  match a with
  | None => Some GraceEnds
  | Some v4 =>
      f ← snd <$> list_find (fun f => ipv4 f = v4) families;
      o ← punchFamily e peerAddresses metadata f;
      Some (Arrives (mkPunchOutcome f (ipv4 f) o))
  end.

(** [DefaultV6PreferGrace] is positive. *)
Definition racePunch (e : Env) (families : list familyConn) (peerAddresses : list AddrPort) (metadata : PunchMetadata)
    : M (error + (familyConn * PunchResult)) :=
  match SelectPunchWinner (omap (arrivalOf e families peerAddresses metadata) (e_arrivals e)) (length families) true with
  | None => blocked
  | Some (Some winner, _) =>
      match outcome winner with
      | inr r =>
          _ ← closeAll (map conn (filter (fun f => conn f <> conn (Family winner)) families));
          mret (inr (Family winner, r))
      | inl _ => blocked (* [SelectPunchWinner_Ok]: a winner has a result *)
      end
  | Some (None, failures) =>
      let errs := omap (fun o => match outcome o with inl err => Some (E_Cause err [family (Family o)]) | inr _ => None end) failures in
      _ ← closeAll (map conn families);
      mret (inl (E_Cause (E_Errors errs) ["realm punch"]))
  end.

(** ** Relays *)

Record PunchedConn : Type := mkPunchedConn { PacketConn : nat; PunchedPeer : AddrPort }.

Fixpoint relayJoin (reads : list relayRead) (relayAddr : AddrPort) (nonce : list byte) : option (error + unit) :=
  match reads with
  | [] => None
  | RelayReadError err timedOut :: _ =>
      Some (inl (if timedOut then E_New ["relay pairing timeout"] else E_Cause err ["read relay ack"]))
  | RelayReadFrom data from :: reads =>
      match from with
      | Some from =>
          if bool_decide (unmapPort from = relayAddr) then
            if isRelayJoinAck data nonce then Some (inr tt) else relayJoin reads relayAddr nonce
          else relayJoin reads relayAddr nonce
      | None => relayJoin reads relayAddr nonce
      end
  end.

Definition dialRelayOne (y : RelayEnv) (relayAddr : AddrPort) (nonce : list byte) : M (error + PunchedConn) :=
  conn ← listenPacket (y_listen y);
  match conn with
  | inl err => mret (inl (E_Cause err ["listen UDP for relay"]))
  | inr conn =>
      match relayJoin (y_reads y) relayAddr nonce with
      | None => blocked
      | Some (inl err) => _ ← Close conn; mret (inl err)
      | Some (inr _) => mret (inr (mkPunchedConn conn relayAddr))
      end
  end.

(** All relays are awaited, also when there is a winner. *)
Fixpoint relayLoop (order : list nat) (outcomes : list (AddrPort * (error + PunchedConn))) (pending : nat)
    (winner : option PunchedConn) (errs : list error) {struct pending} : M (option PunchedConn * list error) :=
  match pending with
  | O => mret (winner, errs)
  | S pending =>
      match order with
      | [] => blocked
      | i :: order =>
          match outcomes !! i with
          | None => blocked
          | Some (addr, inl err) => relayLoop order outcomes pending winner (errs ++ [E_Cause err [AddrPort_String addr]])
          | Some (_, inr c) =>
              match winner with
              | None => relayLoop order outcomes pending (Some c) errs
              | Some _ => _ ← Close (PacketConn c); relayLoop order outcomes pending winner errs
              end
          end
      end
  end.

Definition DialRelay (e : Env) (relayAddresses : list AddrPort) (nonce : list byte) : M (error + PunchedConn) :=
  if (length relayAddresses =? 0)%nat then mret (inl (E_New ["realm relay: no relay address"]))
  else
    outcomes ← mapM_ (fun '(i, addr) => dialRelayOne (e_relays e i) addr nonce) (imap pair relayAddresses);
    '(winner, errs) ← relayLoop (e_relayOrder e) (zip relayAddresses outcomes) (length relayAddresses) None [];
    mret (match winner with Some c => inr c | None => inl (E_Cause (E_Errors errs) ["realm relay"]) end).

(** The sockets of the two races are distinct, so that it does not matter how their steps
    interleave.  The result, and whether it goes through a relay. *)
Definition racePunchAndRelay (e : Env) (families : list familyConn) (punchAddresses relayAddresses : list AddrPort)
    (metadata : PunchMetadata) : M (error + (PunchedConn * bool)) :=
  punchRes ← racePunch e families punchAddresses metadata;
  relayRes ← DialRelay e relayAddresses (Nonce metadata);
  let punchWins '(f, r) := (mkPunchedConn (conn f) (PeerAddr r), false) in
  match punchRes, relayRes with
  | inr (f, r), inr c =>
      if e_relayFirst e then _ ← Close (conn f); mret (inr (c, true))
      else _ ← Close (PacketConn c); mret (inr (punchWins (f, r)))
  | inr (f, r), inl _ => mret (inr (punchWins (f, r)))
  | inl _, inr c => mret (inr (c, true))
  | inl perr, inl rerr => mret (inl (E_Cause perr ["relay also failed: " +:+ Error_String rerr]))
  end.

(** ** Dialing *)

Inductive PunchMode : Type := ModeNormal | ModePunchOnly | ModeRelayOnly.
#[export] Instance PunchMode_eq_dec : EqDecision PunchMode.
Proof. solve_decision. Defined.

Definition NewControlClient (serverURL : string) : error + unit :=
  if bool_decide (serverURL = "") then inl (E_New ["control server URL is required"]) else inr tt.

(** The result of a dial, and its trace. *)
Abbreviation traced := ((error + PunchedConn) * option Trace)%type.

(** [trace.Fail], and the error. *)
Definition failAt (stage : FailStage) (recorded : error) (returned : error) (now : Z) (trace : option Trace) : M traced :=
  mret (inl returned, Fail stage recorded now <$> trace).

Definition relayed (c : PunchedConn) (now : Z) (trace : option Trace) : M traced :=
  mret (inr c, RelayEstablished (PunchedPeer c) now <$> trace).

Definition dialRelayOnly (e : Env) (cfg : Config) (realmID : string) (trace : option Trace) : M traced :=
  match NewControlClient (ServerURL cfg) with
  | inl err => failAt FailStageRendezvous err err (e_now e 0) trace
  | inr _ =>
      metadata ← settle (GeneratePunchMetadata (e_nonce e) (e_key e));
      match metadata with
      | inl err => failAt FailStageRendezvous err (E_Cause err ["generate punch metadata"]) (e_now e 1) trace
      | inr metadata =>
          placeholderConn ← listenPacket (e_placeholder e);
          match placeholderConn with
          | inl err => failAt FailStageSTUN err (E_Cause err ["relay-only: open local socket for address"]) (e_now e 2) trace
          | inr placeholderConn =>
              match e_placeholderAddr e with
              | None => blocked
              | Some localAddr =>
                  _ ← Close placeholderConn;
                  response ← settle (Connect (e_post e) realmID [localAddr] metadata);
                  match response with
                  | inl err => failAt FailStageRendezvous err (E_Cause err ["realm connect"]) (e_now e 3) trace
                  | inr response =>
                      let trace := NonceNegotiated (c_PunchMetadata response) ∘ RendezvousDone (c_Addresses response) (e_now e 4) <$> trace in
                      if (length (c_Relay response) =? 0)%nat then
                        let err := E_New ["realm relay-only: rendezvous returned no relay address"] in
                        failAt FailStageCandidate err err (e_now e 5) trace
                      else
                        relayConn ← DialRelay e (c_Relay response) (Nonce (c_PunchMetadata response));
                        match relayConn with
                        | inl relayErr =>
                            mret (inl (E_Cause relayErr ["realm relay-only"]),
                                  RelayFailed relayErr ∘ Fail FailStagePunch relayErr (e_now e 6) <$> trace)
                        | inr relayConn => relayed relayConn (e_now e 7) trace
                        end
                  end
              end
          end
      end
  end.

(** The direct way, and the relay after it failed. *)
Definition punchThenRelay (e : Env) (surviving : list familyConn) (response : ConnectResponse) (trace : option Trace)
    (mode : PunchMode) : M traced :=
  punched ← racePunch e surviving (c_Addresses response) (c_PunchMetadata response);
  match punched with
  | inl err =>
      let stage := if (length (c_Addresses response) =? 0)%nat then FailStageCandidate else FailStagePunch in
      let trace := Fail stage err (e_now e 8) <$> trace in
      if bool_decide (mode = ModePunchOnly) then mret (inl err, trace)
      else if (0 <? length (c_Relay response))%nat then
        relayConn ← DialRelay e (c_Relay response) (Nonce (c_PunchMetadata response));
        match relayConn with
        | inr relayConn => relayed relayConn (e_now e 9) trace
        | inl relayErr => mret (inl err, RelayFailed relayErr <$> trace)
        end
      else mret (inl err, trace)
  | inr (winner, r) =>
      mret (inr (mkPunchedConn (conn winner) (PeerAddr r)), PunchDone r (family winner) (e_now e 10) <$> trace)
  end.

(** Both ways at once. *)
Definition punchAlongRelay (e : Env) (surviving : list familyConn) (response : ConnectResponse) (trace : option Trace) : M traced :=
  raced ← racePunchAndRelay e surviving (c_Addresses response) (c_Relay response) (c_PunchMetadata response);
  match raced with
  | inl raceErr => failAt FailStagePunch raceErr raceErr (e_now e 11) trace
  | inr (c, true) => relayed c (e_now e 12) trace
  | inr (c, false) => mret (inr c, PunchDone (mkPunchResult (PunchedPeer c) x00) "" (e_now e 13) <$> trace)
  end.

Definition PunchTracedWithMode (e : Env) (cfg : Config) (realmID : string) (trace : option Trace) (mode : PunchMode) : M traced :=
  if bool_decide (realmID = "") then mret (inl (E_New ["realm: realm ID is required"]), trace)
  else if bool_decide (mode = ModeRelayOnly) then dialRelayOnly e cfg realmID trace
  else if (length (STUNServers cfg) =? 0)%nat then mret (inl (E_New ["realm: at least one STUN server is required"]), trace)
  else if match cfg_Resolver cfg with None => true | Some _ => false end then mret (inl (E_New ["realm: resolver is required"]), trace)
  else
    match NewControlClient (ServerURL cfg) with
    | inl err => failAt FailStageRendezvous err err (e_now e 14) trace
    | inr _ =>
        families ← openFamilies e;
        match families with
        | inl err => failAt FailStageSTUN err err (e_now e 15) trace
        | inr families =>
            discovered ← discoverFamilies e cfg families;
            match discovered with
            | inl err => failAt FailStageSTUN err err (e_now e 16) trace
            | inr (surviving, localAddresses) =>
                let trace := STUNDone localAddresses (STUNServers cfg) (e_now e 17) <$> trace in
                metadata ← settle (GeneratePunchMetadata (e_nonce e) (e_key e));
                match metadata with
                | inl err =>
                    _ ← closeAll (map conn surviving);
                    failAt FailStageRendezvous err (E_Cause err ["generate punch metadata"]) (e_now e 18) trace
                | inr metadata =>
                    response ← settle (Connect (e_post e) realmID localAddresses metadata);
                    match response with
                    | inl err =>
                        _ ← closeAll (map conn surviving);
                        failAt FailStageRendezvous err (E_Cause err ["realm connect"]) (e_now e 19) trace
                    | inr response =>
                        let trace := CandidatesComputed (c_Addresses response) ∘ NonceNegotiated (c_PunchMetadata response)
                                     ∘ RendezvousDone (c_Addresses response) (e_now e 20) <$> trace in
                        if bool_decide (mode = ModeNormal) && (0 <? length (c_Relay response))%nat
                           && bool_decide (guessNATType localAddresses = NATTypeSymmetric)
                        then punchAlongRelay e surviving response trace
                        else punchThenRelay e surviving response trace mode
                    end
                end
            end
        end
    end.

Definition PunchTraced (e : Env) (cfg : Config) (realmID : string) (trace : option Trace) : M traced :=
  PunchTracedWithMode e cfg realmID trace ModeNormal.
Definition DialPunch (e : Env) (cfg : Config) (realmID : string) : M (error + PunchedConn) :=
  '(r, _) ← PunchTraced e cfg realmID None; mret r.

End Dial.

End RealmDial.
