(* ===== verification/RealmDialTheorems.v ===== *)
(** * Properties of reaching a node (RealmDial)

    Programs account for sockets: those they take and those they open are kept or closed,
    each exactly once.  From this follow that dialing leaks no socket, and, with the
    winner of the race of families and the loops of RealmPunch, when dialing succeeds. *)

From S2P Require Import Prelude GoStd Metadata Binary Instances Datagram RealmPacket RealmStun RealmCandidates.
From S2P Require Import RealmPunch RealmDiscover RealmControl RealmDial.
From Stdlib Require Import Strings.Byte.
Import netip RealmPacket RealmCandidates RealmPunch RealmControl RealmDial.

Open Scope nat_scope.

(** ** Accounting for sockets *)

(** The sockets opened between two states. *)
Definition fresh (s s' : Sockets) : list nat := seq (opened s) (opened s' - opened s).

Definition accounts {A} (taken : list nat) (m : M A) (kept : A -> list nat) : Prop :=
  forall s a s', NoDup taken -> Forall (fun c => c < opened s) taken -> m s = Some (a, s') ->
  opened s <= opened s' /\ exists closed,
    closes s' = closes s ++ closed
    /\ taken ++ fresh s s' ≡ₚ kept a ++ closed
    /\ live s' = (live s ∪ list_to_set (fresh s s')) ∖ list_to_set closed.

Lemma fresh_refl s : fresh s s = [].
Proof. unfold fresh. by rewrite Nat.sub_diag. Qed.

Lemma elem_of_fresh s s' c : c ∈ fresh s s' <-> opened s <= c < opened s'.
Proof. unfold fresh. rewrite elem_of_seq. lia. Qed.

Lemma fresh_app s s1 s2 : opened s <= opened s1 -> opened s1 <= opened s2 -> fresh s s2 = fresh s s1 ++ fresh s1 s2.
Proof.
  intros H1 H2. unfold fresh. replace (opened s2 - opened s) with ((opened s1 - opened s) + (opened s2 - opened s1)) by lia.
  rewrite seq_app. do 2 f_equal. lia.
Qed.

Lemma fresh_disjoint taken s s' : NoDup taken -> Forall (fun c => c < opened s) taken -> NoDup (taken ++ fresh s s').
Proof.
  intros Hn Hf. apply list.NoDup_app. split; [done|]. split; [|unfold fresh; apply NoDup_seq].
  intros c Hc Hin. rewrite elem_of_fresh in Hin. rewrite list.Forall_forall in Hf. specialize (Hf c Hc). simpl in Hf. lia.
Qed.

Lemma accounts_ret {A} (a : A) kept : accounts (kept a) (mret a) kept.
Proof.
  intros s b s' _ _ [= <- <-]. split; [done|]. exists []. rewrite fresh_refl, !app_nil_r.
  repeat split; [done|]. set_solver.
Qed.

Lemma accounts_blocked {A} taken (kept : A -> list nat) : accounts taken blocked kept.
Proof. done. Qed.

Lemma accounts_bind_run {A B} taken (m : M A) (f : A -> M B) mid kept :
  accounts taken m mid -> (forall a s s', m s = Some (a, s') -> accounts (mid a) (f a) kept) -> accounts taken (m ≫= f) kept.
Proof.
  intros Hm Hf s b s' Hn Hl Hrun. unfold mbind, M_bind in Hrun. destruct (m s) as [[a s1]|] eqn:H1; [|done].
  destruct (Hm _ _ _ Hn Hl H1) as (Ho1 & c1 & Hc1 & Hp1 & Hl1).
  pose proof (fresh_disjoint taken s s1 Hn Hl) as Hd. rewrite Hp1 in Hd. apply list.NoDup_app in Hd as (Hn1 & _ & _).
  assert (Hbound : forall c, c ∈ taken ++ fresh s s1 -> c < opened s1).
  { intros c [Hc|Hc]%elem_of_app; [|apply elem_of_fresh in Hc; lia].
    rewrite list.Forall_forall in Hl. specialize (Hl c Hc). simpl in Hl. lia. }
  destruct (Hf a s s1 H1 s1 b s' Hn1) as (Ho2 & c2 & Hc2 & Hp2 & Hl2); [|done|].
  { apply list.Forall_forall. intros c Hc. apply Hbound. rewrite Hp1. set_solver. }
  split; [lia|]. exists (c1 ++ c2). rewrite (fresh_app s s1 s'), Hc2, Hc1, Hl2, Hl1 by done. rewrite <- app_assoc. split; [done|].
  split.
  - rewrite app_assoc, Hp1, <- app_assoc, (Permutation_app_comm c1 (fresh s1 s')), app_assoc, Hp2, <- app_assoc.
    by rewrite (Permutation_app_comm c2 c1).
  - assert (forall c, c ∈ c1 -> c ∉ fresh s1 s').
    { intros c Hc Hin. rewrite elem_of_fresh in Hin. assert (c < opened s1); [|lia]. apply Hbound. rewrite Hp1. set_solver. }
    rewrite !list_to_set_app_L. set_solver.
Qed.

Lemma accounts_bind {A B} taken (m : M A) (f : A -> M B) mid kept :
  accounts taken m mid -> (forall a, accounts (mid a) (f a) kept) -> accounts taken (m ≫= f) kept.
Proof. intros Hm Hf. by eapply accounts_bind_run. Qed.

(** A program that returns. *)
Ltac account_ret := match goal with |- accounts _ (mret ?r) ?kept => apply (accounts_ret r kept) end.

Lemma accounts_frame {A} rest taken (m : M A) kept :
  accounts taken m kept -> accounts (rest ++ taken) m (fun a => rest ++ kept a).
Proof.
  intros Hm s a s' Hn Hl Hrun. apply list.NoDup_app in Hn as (_ & _ & Hn). apply Forall_app in Hl as [_ Hl].
  destruct (Hm _ _ _ Hn Hl Hrun) as (Ho & c & Hc & Hp & Hlv). split; [done|]. exists c.
  repeat split; [done| |done]. by rewrite <- !app_assoc, Hp.
Qed.

Lemma accounts_perm {A} taken taken' (m : M A) kept kept' :
  taken ≡ₚ taken' -> (forall a, kept' a ≡ₚ kept a) -> accounts taken' m kept' -> accounts taken m kept.
Proof.
  intros Ht Hk Hm s a s' Hn Hl Hrun. rewrite Ht in Hn, Hl.
  destruct (Hm _ _ _ Hn Hl Hrun) as (Ho & c & Hc & Hp & Hlv). split; [done|]. exists c.
  repeat split; [done| |done]. by rewrite Ht, Hp, Hk.
Qed.

Lemma accounts_distinct {A} taken (m : M A) kept : (NoDup taken -> accounts taken m kept) -> accounts taken m kept.
Proof. intros Hm s a s' Hn. by apply Hm. Qed.

(** It is enough to look at programs that return. *)
Lemma accounts_returns {A} taken (m : M A) kept :
  (forall s a s', m s = Some (a, s') -> accounts taken m kept) -> accounts taken m kept.
Proof. intros Hm s a s' Hn Hl Hrun. by eapply Hm. Qed.

Lemma accounts_open : accounts [] openSocket (fun c => [c]).
Proof.
  intros s c s' _ _ [= <- <-]. split; [simpl; lia|]. exists []. unfold fresh. cbn [opened closes live].
  replace (S (opened s) - opened s) with 1 by lia. rewrite !app_nil_r. repeat split; [done|]. cbn [seq]. set_solver.
Qed.

Lemma accounts_Close c : accounts [c] (Close c) (fun _ => []).
Proof.
  intros s [] s' _ _ [= <-]. split; [done|]. exists [c]. unfold fresh. cbn [opened closes live].
  rewrite Nat.sub_diag. repeat split; [done|]. cbn [seq]. set_solver.
Qed.

Lemma accounts_closeAll l : accounts l (closeAll l) (fun _ => []).
Proof.
  induction l as [|c l IH]; cbn [closeAll]; [account_ret|].
  apply (accounts_bind _ _ _ (fun _ => l)); [|done].
  apply (accounts_perm _ (l ++ [c]) _ _ (fun _ => l ++ [])); [apply Permutation_cons_append | by intros; rewrite app_nil_r |].
  apply accounts_frame, accounts_Close.
Qed.

(** [m] closes what it is given and then goes on with nothing. *)
Lemma accounts_closing {A} l (m : M A) kept : accounts [] m kept -> accounts l (_ ← closeAll l; m) kept.
Proof. intros Hm. apply (accounts_bind _ _ _ (fun _ => [])); [apply accounts_closeAll|done]. Qed.

Create HintDb accounts.
#[export] Hint Resolve accounts_blocked accounts_open accounts_Close accounts_closeAll accounts_closing : accounts.

Lemma accounts_settle {A} taken (r : result A) : accounts taken (settle r) (fun _ => taken).
Proof. destruct r as [a|e|msg]; cbn [settle]; [account_ret | account_ret | done]. Qed.
Lemma accounts_await {A} taken (r : option (result A)) : accounts taken (await r) (fun _ => taken).
Proof. destruct r; [apply accounts_settle|done]. Qed.

(** What a fallible program keeps. *)
Definition keeps {A} (kept : A -> list nat) (r : error + A) : list nat :=
  match r with inl _ => [] | inr a => kept a end.

Lemma accounts_err {A} err (kept : A -> list nat) : accounts [] (mret (inl err)) (keeps kept).
Proof. account_ret. Qed.
#[export] Hint Resolve accounts_err : accounts.

Lemma accounts_listenPacket err : accounts [] (listenPacket err) (keeps (fun c => [c])).
Proof.
  destruct err; cbn [listenPacket]; [auto with accounts|]. apply (accounts_bind _ _ _ (fun c => [c])); [auto with accounts|].
  intros c. account_ret.
Qed.

Lemma accounts_mapM {A B} (f : A -> M B) kept l :
  (forall x, accounts [] (f x) kept) -> accounts [] (mapM_ f l) (fun ys => concat (map kept ys)).
Proof.
  intros Hf. induction l as [|x l IH]; cbn [mapM_]; [account_ret|].
  apply (accounts_bind _ _ _ kept); [done|]. intros y.
  apply (accounts_bind _ _ _ (fun ys => kept y ++ concat (map kept ys))).
  - rewrite <- (app_nil_r (kept y)) at 1. by apply accounts_frame.
  - intros ys. account_ret.
Qed.

Lemma accounts_mapM_const {A B} taken (f : A -> M B) l :
  (forall x, accounts taken (f x) (fun _ => taken)) -> accounts taken (mapM_ f l) (fun _ => taken).
Proof.
  intros Hf. induction l as [|x l IH]; cbn [mapM_]; [account_ret|].
  apply (accounts_bind _ _ _ (fun _ => taken)); [done|]. intros y.
  apply (accounts_bind _ _ _ (fun _ => taken)); [done|]. intros ys. account_ret.
Qed.

(** The length of the list of results. *)
Lemma mapM_length {A B} (f : A -> M B) l s ys s' : mapM_ f l s = Some (ys, s') -> length ys = length l.
Proof.
  revert s ys s'. induction l as [|x l IH]; intros s ys s'; cbn [mapM_]; unfold mbind, M_bind; [by intros [= <- _]|].
  destruct (f x s) as [[y s1]|]; [|done]. destruct (mapM_ f l s1) as [[zs s2]|] eqn:H; [|done].
  intros [= <- _]. simpl. f_equal. by eapply IH.
Qed.

Section Dial.
Context `{E : Externals}.
Variable Sum256 : list byte -> list byte.
Variable E_Errors : list error -> error.
Variable Error_String : error -> string.
Variable AddrPort_String : AddrPort -> string.
Variable IsCanceled : error -> bool.

Lemma accounts_openFamily e name v4 : accounts [] (openFamily e name v4) (keeps (fun f => [conn f])).
Proof.
  apply (accounts_bind _ _ _ (keeps (fun c => [c]))); [apply accounts_listenPacket|].
  intros [err|c]; [apply accounts_err|]. account_ret.
Qed.

Lemma accounts_openFamilies e : accounts [] (openFamilies E_Errors e) (keeps (map conn)).
Proof.
  apply (accounts_bind _ _ _ (keeps (fun f => [conn f]))); [apply accounts_openFamily|]. intros v4.
  apply (accounts_bind _ _ _ (fun v6 => map conn (rights [v4; v6]))).
  - apply (accounts_perm _ (keeps (fun f => [conn f]) v4 ++ []) _ _ (fun v6 => keeps (fun f => [conn f]) v4 ++ keeps (fun f => [conn f]) v6));
      [by rewrite app_nil_r | by destruct v4; intros []|]. apply accounts_frame, accounts_openFamily.
  - intros v6. destruct v4, v6; cbn; auto with accounts; account_ret.
Qed.

Lemma accounts_survivors families results : length results = length families ->
  accounts (map conn families) (survivors families results) (fun r => map conn r.1).
Proof.
  revert results. induction families as [|f families IH]; intros [|r results]; simpl; intros Hl; try lia.
  { account_ret. }
  destruct r as [err|addrs].
  - apply (accounts_bind _ _ _ (fun _ => map conn families)).
    { apply (accounts_perm _ (map conn families ++ [conn f]) _ _ (fun _ => map conn families ++ []));
        [apply Permutation_cons_append | by intros; rewrite app_nil_r |]. apply accounts_frame, accounts_Close. }
    intros _. apply (accounts_bind _ _ _ (fun r => map conn r.1)); [by apply IH; lia|]. intros [surviving errs].
    account_ret.
  - apply (accounts_bind _ _ _ (fun r => conn f :: map conn r.1)).
    { apply (accounts_frame [conn f]). apply IH. lia. }
    intros [surviving errs].
    account_ret.
Qed.

Lemma accounts_discoverFamilies e cfg families :
  accounts (map conn families) (discoverFamilies E_Errors AddrPort_String IsCanceled e cfg families)
    (keeps (fun r => map conn r.1)).
Proof.
  unfold discoverFamilies. apply (accounts_bind _ _ _ (fun _ => map conn families)); [apply accounts_settle|].
  intros [err|stunServers]; [auto with accounts|].
  apply (accounts_bind_run _ _ _ (fun _ => map conn families)).
  { apply accounts_mapM_const. intros f. apply accounts_await. }
  intros results s s' Hl%mapM_length. apply (accounts_bind _ _ _ (fun r => map conn r.1)); [by apply accounts_survivors|].
  intros [surviving errs]. destruct surviving; cbn; [auto with accounts|account_ret].
Qed.

(** ** The race *)

Lemma selectLoop_winner {F} (arrivals : list (arrival F)) pending received grace v4Win failures w failures' :
  selectLoop arrivals pending received grace v4Win failures = Some (Some w, failures') ->
  (v4Win = Some w) \/ (Arrives w ∈ arrivals /\ failed (outcome w) = false).
Proof.
  revert received v4Win failures. induction arrivals as [|a arrivals IH]; intros received v4Win failures; simpl;
    (destruct (received <? pending); [|intros [= -> _]; by left]); [done|].
  destruct a as [o|].
  - destruct (failed (outcome o)) eqn:Ho; cbn [negb].
    + assert (Hnext : selectLoop arrivals pending (S received) grace v4Win (failures ++ [o]) = Some (Some w, failures') ->
        v4Win = Some w \/ Arrives w ∈ Arrives o :: arrivals /\ failed (outcome w) = false)
        by (intros [?|[? ?]]%IH; [by left | right; split; [by apply list_elem_of_further|done]]).
      destruct v4Win as [w4|]; [|done]. destruct (negb (IPv4 o)); [intros [= -> _]; by left|done].
    + destruct (negb (IPv4 o)); [intros [= <- _]; right; split; [by apply list_elem_of_here|done]|].
      destruct (negb grace || _); [intros [= <- _]; right; split; [by apply list_elem_of_here|done]|].
      intros [[= ->]|[? ?]]%IH; right; split; try done; [by apply list_elem_of_here | by apply list_elem_of_further].
  - destruct v4Win as [w4|]; [intros [= -> _]; by left|].
    intros [?|[? ?]]%IH; [by left | right; split; [by apply list_elem_of_further|done]].
Qed.

(** A winner took part and has a result. *)
Lemma SelectPunchWinner_Ok {F} (arrivals : list (arrival F)) pending grace w failures :
  SelectPunchWinner arrivals pending grace = Some (Some w, failures) -> Arrives w ∈ arrivals /\ failed (outcome w) = false.
Proof. by intros [?|?]%selectLoop_winner. Qed.

Lemma arrivalOf_family e families peers metadata a o :
  arrivalOf Sum256 e families peers metadata a = Some (Arrives o) ->
  Family o ∈ families /\ IPv4 o = ipv4 (Family o) /\ punchFamily Sum256 e peers metadata (Family o) = Some (outcome o).
Proof.
  unfold arrivalOf. destruct a as [v4|]; [|done]. destruct (list_find _ families) as [[i f]|] eqn:Hf; [|done].
  apply list_find_Some in Hf as (Hi & _ & _). cbn [fmap option_fmap option_map mbind option_bind snd].
  destruct (punchFamily _ _ _ _ f) as [r|] eqn:Hr; cbn [mbind option_bind]; [|done]. intros [= <-]. cbn [Family IPv4 outcome].
  split; [by eapply list_elem_of_lookup_2|]. split; [done|]. exact Hr.
Qed.

Lemma others_perm (f : familyConn) families : NoDup (map conn families) -> f ∈ families ->
  map conn families ≡ₚ [conn f] ++ map conn (filter (fun g => conn g <> conn f) families).
Proof.
  induction families as [|g families IH]; intros Hn Hf; [by apply not_elem_of_nil in Hf|].
  cbn [map] in Hn. apply list.NoDup_cons in Hn as [Hg Hn]. apply elem_of_cons in Hf as [->|Hf].
  - rewrite filter_cons_False by auto. cbn [map app]. constructor.
    replace (filter (fun g' => conn g' <> conn g) families) with families; [done|].
    clear -Hg. induction families as [|h families IH]; [done|]. cbn [map] in Hg. apply not_elem_of_cons in Hg as [Hh Hg].
    rewrite filter_cons_True by auto. f_equal. auto.
  - assert (conn g <> conn f). { intros He. apply Hg. rewrite He. apply list_elem_of_fmap. eauto. }
    rewrite filter_cons_True by done. cbn [map app]. rewrite (IH Hn Hf) at 1. cbn [app]. apply perm_swap.
Qed.

Lemma accounts_racePunch e families peers metadata :
  accounts (map conn families) (racePunch Sum256 E_Errors e families peers metadata) (keeps (fun r => [conn r.1])).
Proof.
  apply accounts_distinct. intros Hn. unfold racePunch.
  destruct (SelectPunchWinner _ _ _) as [[[w|] failures]|] eqn:Hw; [|auto with accounts|done].
  apply SelectPunchWinner_Ok in Hw as [Hw _]. apply list_elem_of_omap in Hw as (a & _ & (Hf & _ & _)%arrivalOf_family).
  destruct (outcome w) as [err|r]; [done|].
  eapply accounts_perm; [exact (others_perm _ _ Hn Hf) | reflexivity |]. apply (accounts_bind _ _ _ (fun _ => [conn (Family w)] ++ [])).
  - apply accounts_frame, accounts_closeAll.
  - intros _. account_ret.
Qed.

(** ** Relays *)

Definition sock (r : error + PunchedConn) : list nat := keeps (fun c => [PacketConn c]) r.
Definition sockAt (outcomes : list (AddrPort * (error + PunchedConn))) (i : nat) : list nat :=
  match outcomes !! i with Some (_, r) => sock r | None => [] end.
Definition winnerSock (w : option PunchedConn) : list nat := match w with Some c => [PacketConn c] | None => [] end.

Lemma accounts_dialRelayOne y relayAddr nonce : accounts [] (dialRelayOne y relayAddr nonce) sock.
Proof.
  apply (accounts_bind _ _ _ (keeps (fun c => [c]))); [apply accounts_listenPacket|].
  intros [err|c]; [apply accounts_err|]. cbn [keeps]. destruct (relayJoin _ _ _) as [[err|[]]|]; [|account_ret|done].
  apply (accounts_bind _ _ _ (fun _ => [])); [apply accounts_Close|]. intros _. apply accounts_err.
Qed.

Lemma accounts_relayLoop order outcomes pending winner errs :
  accounts (winnerSock winner ++ concat (map (sockAt outcomes) (take pending order)))
    (relayLoop AddrPort_String order outcomes pending winner errs) (fun r => winnerSock r.1).
Proof.
  revert order winner errs. induction pending as [|pending IH]; intros order winner errs.
  { cbn [take map concat relayLoop]. rewrite app_nil_r. account_ret. }
  destruct order as [|i order]; [done|]. cbn [take map concat relayLoop]. unfold sockAt at 1.
  destruct (outcomes !! i) as [[addr [err|c]]|]; [apply IH| |done]. destruct winner as [w|]; [|exact (IH order (Some c) errs)].
  apply (accounts_bind _ _ _ (fun _ => winnerSock (Some w) ++ concat (map (sockAt outcomes) (take pending order)))).
  - cbn [sock keeps winnerSock app].
    apply (accounts_perm _ ((PacketConn w :: concat (map (sockAt outcomes) (take pending order))) ++ [PacketConn c]) _ _
      (fun _ => (PacketConn w :: concat (map (sockAt outcomes) (take pending order))) ++ [])).
    + cbn [app]. constructor. apply Permutation_cons_append.
    + intros _. by rewrite app_nil_r.
    + apply accounts_frame, accounts_Close.
  - intros _. apply IH.
Qed.

(** Every relay is awaited. *)
Lemma relayLoop_order order outcomes pending winner errs s r s' :
  relayLoop AddrPort_String order outcomes pending winner errs s = Some (r, s') ->
  length (take pending order) = pending /\ forall i, i ∈ take pending order -> i < length outcomes.
Proof.
  revert order winner errs s. induction pending as [|pending IH]; intros order winner errs s.
  { intros _. split; [done|]. intros i Hi. by apply not_elem_of_nil in Hi. }
  destruct order as [|i order]; cbn [relayLoop take]; [done|]. destruct (outcomes !! i) as [[addr r0]|] eqn:Hi; [|done].
  intros Hrun. assert (exists w errs' s1, relayLoop AddrPort_String order outcomes pending w errs' s1 = Some (r, s')) as (w & errs' & s1 & H).
  { destruct r0 as [err|c]; [by eauto|]. destruct winner; [|by eauto]. unfold mbind, M_bind, Close in Hrun. by eauto. }
  apply IH in H as [Hl Hin]. split; [simpl; lia|]. intros j [->|Hj]%elem_of_cons; [by eapply lookup_lt_Some|auto].
Qed.

Lemma sockAt_seq outcomes : map (sockAt outcomes) (seq 0 (length outcomes)) = map (fun o => sock o.2) outcomes.
Proof.
  apply list_eq. intros i. rewrite !list_lookup_fmap. destruct (decide (i < length outcomes)) as [Hi|Hi].
  - rewrite lookup_seq_lt by done. cbn. unfold sockAt. simpl.
    destruct (lookup_lt_is_Some_2 outcomes i Hi) as [[a r] ->]. done.
  - rewrite lookup_seq_ge, lookup_ge_None_2 by lia. done.
Qed.

Lemma order_covers (order : list nat) n : NoDup order -> length (take n order) = n -> (forall i, i ∈ take n order -> i < n) ->
  take n order ≡ₚ seq 0 n.
Proof.
  intros Hn Hl Hi. apply NoDup_Permutation_bis.
  - apply NoDup_ListNoDup. rewrite <- (take_drop n order) in Hn. by apply list.NoDup_app in Hn as (Hn & _ & _).
  - rewrite length_seq, Hl. done.
  - intros i Hin. apply in_seq. apply list_elem_of_In, Hi in Hin. lia.
Qed.

Lemma accounts_DialRelay e relays nonce : NoDup (e_relayOrder e) ->
  accounts [] (DialRelay E_Errors AddrPort_String e relays nonce) sock.
Proof.
  intros Ho. unfold DialRelay. destruct (length relays =? 0); [apply accounts_err|].
  apply (accounts_bind_run _ _ _ (fun rs => concat (map sock rs))).
  { apply accounts_mapM. intros [i addr]. apply accounts_dialRelayOne. }
  intros outcomes s s' Hl%mapM_length. rewrite length_imap in Hl.
  apply (accounts_bind _ _ _ (fun r => winnerSock r.1)).
  - apply accounts_returns. intros s1 r s1' (Hlen & Hin)%relayLoop_order.
    apply (accounts_perm _ _ _ _ _) with (3 := accounts_relayLoop (e_relayOrder e) (zip relays outcomes) (length relays) None []); [|reflexivity]. cbn [winnerSock app].
    assert (Hz : length (zip relays outcomes) = length relays) by (rewrite length_zip_with; lia).
    rewrite Hz in Hin. rewrite (order_covers (e_relayOrder e) (length relays)), <- Hz, sockAt_seq by auto.
    replace (map (fun o => sock o.2) (zip relays outcomes)) with (map sock (map snd (zip relays outcomes))) by apply map_map.
    change (map snd (zip relays outcomes)) with ((zip relays outcomes).*2). rewrite snd_zip by lia. done.
  - intros [[c|] errs]; account_ret.
Qed.

(** ** Dialing *)

Definition tracedSock (r : (error + PunchedConn) * option Trace) : list nat := sock r.1.

Lemma accounts_failAt stage recorded returned now trace : accounts [] (failAt stage recorded returned now trace) tracedSock.
Proof. unfold failAt. account_ret. Qed.
Lemma accounts_failed {A} err (trace : A) kept : kept (inl err, trace) = [] -> accounts [] (mret (inl err, trace)) (kept : (error + PunchedConn) * A -> list nat).
Proof. intros <-. account_ret. Qed.
Lemma accounts_relayed c now trace : accounts (sock (inr c)) (relayed c now trace) tracedSock.
Proof. unfold relayed. account_ret. Qed.

Lemma accounts_racePunchAndRelay e families peers relays metadata : NoDup (e_relayOrder e) ->
  accounts (map conn families)
    (racePunchAndRelay Sum256 E_Errors Error_String AddrPort_String e families peers relays metadata)
    (keeps (fun r => [PacketConn r.1])).
Proof.
  intros Ho. apply (accounts_bind _ _ _ (keeps (fun r => [conn r.1]))); [apply accounts_racePunch|]. intros punchRes.
  apply (accounts_bind _ _ _ (fun relayRes => keeps (fun r => [conn r.1]) punchRes ++ sock relayRes)).
  { rewrite <- (app_nil_r (keeps _ punchRes)) at 1. by apply accounts_frame, accounts_DialRelay. }
  intros relayRes. destruct punchRes as [perr|[f r]], relayRes as [rerr|c]; cbn [keeps sock app]; [account_ret..|].
  destruct (e_relayFirst e).
  - apply (accounts_bind _ _ _ (fun _ => [PacketConn c] ++ [])); [|intros _; account_ret].
    apply (accounts_perm _ ([PacketConn c] ++ [conn f]) _ _ (fun _ => [PacketConn c] ++ [])); [apply perm_swap|done|].
    apply accounts_frame, accounts_Close.
  - apply (accounts_bind _ _ _ (fun _ => [conn f] ++ [])); [|intros _; account_ret].
    apply (accounts_frame [conn f]), accounts_Close.
Qed.

Lemma accounts_dialRelayOnly e cfg realmID trace : NoDup (e_relayOrder e) ->
  accounts [] (dialRelayOnly E_Errors AddrPort_String e cfg realmID trace) tracedSock.
Proof.
  intros Ho. unfold dialRelayOnly. destruct (NewControlClient _) as [err|[]]; [apply accounts_failAt|].
  apply (accounts_bind _ _ _ (fun _ => [])); [apply accounts_settle|]. intros [err|metadata]; [apply accounts_failAt|].
  apply (accounts_bind _ _ _ (keeps (fun c => [c]))); [apply accounts_listenPacket|].
  intros [err|c]; [apply accounts_failAt|]. destruct (e_placeholderAddr e) as [a|]; [|done].
  apply (accounts_bind _ _ _ (fun _ => [])); [apply accounts_Close|]. intros _.
  apply (accounts_bind _ _ _ (fun _ => [])); [apply accounts_settle|]. intros [err|response]; [apply accounts_failAt|].
  cbn zeta. destruct (length (c_Relay response) =? 0); [apply accounts_failAt|].
  apply (accounts_bind _ _ _ sock); [by apply accounts_DialRelay|].
  intros [err|c']; [account_ret|apply accounts_relayed].
Qed.

Lemma accounts_punchThenRelay e surviving response trace mode : NoDup (e_relayOrder e) ->
  accounts (map conn surviving) (punchThenRelay Sum256 E_Errors AddrPort_String e surviving response trace mode) tracedSock.
Proof.
  intros Ho. apply (accounts_bind _ _ _ (keeps (fun r => [conn r.1]))); [apply accounts_racePunch|].
  intros [err|[winner r]]; [|account_ret]. cbn zeta. cbn [keeps].
  destruct (bool_decide _); [account_ret|]. destruct (0 <? _); [|account_ret].
  apply (accounts_bind _ _ _ sock); [by apply accounts_DialRelay|].
  intros [err'|c]; [account_ret|apply accounts_relayed].
Qed.

Lemma accounts_punchAlongRelay e surviving response trace : NoDup (e_relayOrder e) ->
  accounts (map conn surviving) (punchAlongRelay Sum256 E_Errors Error_String AddrPort_String e surviving response trace) tracedSock.
Proof.
  intros Ho. apply (accounts_bind _ _ _ (keeps (fun r => [PacketConn r.1]))); [by apply accounts_racePunchAndRelay|].
  intros [err|[c []]]; [apply accounts_failAt | apply accounts_relayed | account_ret].
Qed.

Lemma accounts_PunchTracedWithMode e cfg realmID trace mode : NoDup (e_relayOrder e) ->
  accounts [] (PunchTracedWithMode Sum256 E_Errors Error_String AddrPort_String IsCanceled e cfg realmID trace mode) tracedSock.
Proof.
  intros Ho. unfold PunchTracedWithMode. do 4 (destruct (_ : bool); [first [account_ret | by apply accounts_dialRelayOnly]|]).
  destruct (NewControlClient _) as [err|[]]; [apply accounts_failAt|].
  apply (accounts_bind _ _ _ (keeps (map conn))); [apply accounts_openFamilies|].
  intros [err|families]; [apply accounts_failAt|].
  apply (accounts_bind _ _ _ (keeps (fun r => map conn r.1))); [apply accounts_discoverFamilies|].
  intros [err|[surviving addresses]]; [apply accounts_failAt|]. cbn zeta. cbn [keeps fst].
  apply (accounts_bind _ _ _ (fun _ => map conn surviving)); [apply accounts_settle|].
  intros [err|metadata]; [apply accounts_closing, accounts_failAt|].
  apply (accounts_bind _ _ _ (fun _ => map conn surviving)); [apply accounts_settle|].
  intros [err|response]; [apply accounts_closing, accounts_failAt|].
  destruct (_ && _); [by apply accounts_punchAlongRelay | by apply accounts_punchThenRelay].
Qed.

(** C10: however the network behaves and the goroutines interleave, when dialing returns an
    error every socket it opened is closed, when it returns a connection exactly the
    socket of the connection stays open, no socket is closed twice, and sockets that were
    open before are neither closed nor returned. *)
Theorem dial_leaks_no_socket e cfg realmID trace mode s r trace' s' :
  NoDup (e_relayOrder e) -> (forall c, c ∈ live s -> c < opened s) ->
  PunchTracedWithMode Sum256 E_Errors Error_String AddrPort_String IsCanceled e cfg realmID trace mode s = Some ((r, trace'), s') ->
  match r with
  | inl _ => live s' = live s
  | inr c => opened s <= PacketConn c < opened s' /\ live s' = live s ∪ {[PacketConn c]}
  end
  /\ exists closed, closes s' = closes s ++ closed /\ NoDup closed /\ forall c, c ∈ closed -> opened s <= c < opened s'.
Proof.
  intros Ho Hs Hrun. apply accounts_PunchTracedWithMode in Hrun as (Hle & closed & Hc & Hp & Hl); [|done|constructor..].
  cbn [app tracedSock fst] in Hp. assert (Hn : NoDup (sock r ++ closed)) by (rewrite <- Hp; unfold fresh; apply NoDup_seq).
  apply list.NoDup_app in Hn as (_ & Hd & Hn).
  assert (Hf : forall c, opened s <= c < opened s' <-> c ∈ sock r \/ c ∈ closed)
    by (intros c; rewrite <- elem_of_fresh, Hp, elem_of_app; done).
  assert (Hlive : forall c, c ∈ live s' <-> c ∈ live s \/ c ∈ sock r).
  { intros c. rewrite Hl, elem_of_difference, elem_of_union, !elem_of_list_to_set, elem_of_fresh, Hf.
    specialize (Hs c). specialize (Hd c). specialize (Hf c). split; [naive_solver|].
    intros [Hc'|Hc']; [|by split; auto]. split; [by left|]. intros Hin.
    assert (opened s <= c) by naive_solver. specialize (Hs Hc'). lia. }
  split; [|exists closed; repeat split; naive_solver].
  destruct r as [err|c]; cbn [sock keeps] in *.
  - apply set_eq. intros c. rewrite Hlive. set_solver.
  - split; [apply Hf; set_solver|]. apply set_eq. intros c'. rewrite Hlive. set_solver.
Qed.

(** ** Traces *)

(** Equal up to the trace. *)
Definition sameRun (m m' : M ((error + PunchedConn) * option Trace)) : Prop :=
  forall s, (fun out => (out.1.1, out.2)) <$> m s = (fun out => (out.1.1, out.2)) <$> m' s.

Lemma sameRun_bind {A} (m : M A) f f' : (forall a, sameRun (f a) (f' a)) -> sameRun (m ≫= f) (m ≫= f').
Proof. intros Hf s. unfold mbind, M_bind. destruct (m s) as [[a s1]|]; [apply Hf|done]. Qed.
Lemma sameRun_ret r trace trace' : sameRun (mret (r, trace)) (mret (r, trace')).
Proof. done. Qed.

#[local] Hint Resolve sameRun_ret : core.
#[local] Hint Extern 1 (sameRun (failAt _ _ _ _ _) _) => apply sameRun_ret : core.
#[local] Hint Extern 1 (sameRun (relayed _ _ _) _) => apply sameRun_ret : core.

Lemma sameRun_dialRelayOnly e cfg realmID trace :
  sameRun (dialRelayOnly E_Errors AddrPort_String e cfg realmID trace) (dialRelayOnly E_Errors AddrPort_String e cfg realmID None).
Proof.
  unfold dialRelayOnly. destruct (NewControlClient _) as [err|[]]; [auto|].
  apply sameRun_bind. intros [err|metadata]; [auto|]. apply sameRun_bind. intros [err|c]; [auto|].
  destruct (e_placeholderAddr e); [|done]. apply sameRun_bind. intros _. apply sameRun_bind. intros [err|response]; [auto|].
  cbn zeta. destruct (length (c_Relay response) =? 0); [auto|]. apply sameRun_bind. intros [err|c']; auto.
Qed.

Lemma sameRun_punchThenRelay e surviving response trace trace' mode :
  sameRun (punchThenRelay Sum256 E_Errors AddrPort_String e surviving response trace mode)
    (punchThenRelay Sum256 E_Errors AddrPort_String e surviving response trace' mode).
Proof.
  apply sameRun_bind. intros [err|[winner r]]; [|auto]. cbn zeta. destruct (bool_decide _); [auto|].
  destruct (0 <? _); [|auto]. apply sameRun_bind. intros [err'|c]; auto.
Qed.

Lemma sameRun_punchAlongRelay e surviving response trace trace' :
  sameRun (punchAlongRelay Sum256 E_Errors Error_String AddrPort_String e surviving response trace)
    (punchAlongRelay Sum256 E_Errors Error_String AddrPort_String e surviving response trace').
Proof. apply sameRun_bind. intros [err|[c []]]; auto. Qed.

(** Tracing changes nothing but the trace: with a trace and without one the sockets and
    the result of dialing are the same. *)
Theorem trace_is_transparent e cfg realmID trace mode s :
  (fun out => (out.1.1, out.2)) <$> PunchTracedWithMode Sum256 E_Errors Error_String AddrPort_String IsCanceled e cfg realmID trace mode s
  = (fun out => (out.1.1, out.2)) <$> PunchTracedWithMode Sum256 E_Errors Error_String AddrPort_String IsCanceled e cfg realmID None mode s.
Proof.
  revert s. change (sameRun (PunchTracedWithMode Sum256 E_Errors Error_String AddrPort_String IsCanceled e cfg realmID trace mode)
    (PunchTracedWithMode Sum256 E_Errors Error_String AddrPort_String IsCanceled e cfg realmID None mode)).
  unfold PunchTracedWithMode. do 4 (destruct (_ : bool); [first [apply sameRun_dialRelayOnly | by auto]|]).
  destruct (NewControlClient _) as [err|[]]; [auto|]. apply sameRun_bind. intros [err|families]; [auto|].
  apply sameRun_bind. intros [err|[surviving addresses]]; [auto|]. cbn zeta.
  apply sameRun_bind. intros [err|metadata]; [apply sameRun_bind; auto|].
  apply sameRun_bind. intros [err|response]; [apply sameRun_bind; auto|].
  destruct (_ && _); [apply sameRun_punchAlongRelay | apply sameRun_punchThenRelay].
Qed.

End Dial.
