(* ===== verification/RealmDialRuns.v ===== *)
(** * Which way a dial takes: the winner of the race of families, when dialing succeeds,
    what a connection proves, and concrete runs *)

From S2P Require Import Prelude GoStd Metadata Binary Instances Datagram RealmPacket RealmStun RealmCandidates.
From S2P Require Import RealmPunch RealmPunchTheorems RealmPunchRuns RealmDiscover RealmControl RealmDial RealmDialTheorems.
From Stdlib Require Import Strings.Byte.
From stdpp Require Import list.
Import netip RealmPacket RealmCandidates RealmPunch RealmControl RealmDial.

Open Scope nat_scope.

(** ** The winner *)

(** The outcomes that arrive. *)
Definition outcomesOf {F} (arrivals : list (arrival F)) : list (PunchOutcome F) :=
  omap (fun a => match a with Arrives o => Some o | GraceEnds => None end) arrivals.

Definition failing {F} (o : PunchOutcome F) : Prop := failed (outcome o) = true.

(** The loop decides: there is no winner exactly when everything failed. *)
Definition decides {F} (out : option (option (PunchOutcome F) * list (PunchOutcome F))) (v4Win : option (PunchOutcome F))
    (os failures : list (PunchOutcome F)) : Prop :=
  exists w failures', out = Some (w, failures')
    /\ (w = None <-> v4Win = None /\ Forall failing os) /\ (w = None -> failures' = failures ++ os).

Lemma decides_winner {F} (w : PunchOutcome F) failures' v4Win os failures :
  is_Some v4Win \/ Exists (fun o => ~ failing o) os -> decides (Some (Some w, failures')) v4Win os failures.
Proof.
  intros Hw. exists (Some w), failures'. split; [done|]. split; [|done]. split; [done|]. intros [-> Hf].
  destruct Hw as [[? ?]|Hw]; [done|]. by apply Exists_not_Forall in Hw.
Qed.

Lemma decides_failure {F} out v4Win (o : PunchOutcome F) os failures : failing o ->
  decides out v4Win os (failures ++ [o]) -> decides out v4Win (o :: os) failures.
Proof.
  intros Ho (w & f & -> & Hw & Hf). exists w, f. split; [done|]. rewrite Hw, Forall_cons. split; [tauto|].
  intros H. rewrite Hf by tauto. by rewrite <- app_assoc.
Qed.

Lemma selectLoop_decides {F} (arrivals : list (arrival F)) pending received grace v4Win failures :
  received + length (outcomesOf arrivals) = pending ->
  decides (selectLoop arrivals pending received grace v4Win failures) v4Win (outcomesOf arrivals) failures.
Proof.
  assert (Hend : forall v4Win failures, decides (F := F) (Some (v4Win, failures)) v4Win [] failures).
  { intros v f. exists v, f. rewrite app_nil_r. split; [done|]. split; [|done]. split; [by intros ->|by intros [-> _]]. }
  revert received v4Win failures. induction arrivals as [|a arrivals IH]; intros received v4Win failures Hl; simpl.
  { simpl in Hl. rewrite (proj2 (Nat.ltb_ge _ _)) by lia. apply Hend. }
  destruct a as [o|].
  - change (outcomesOf (Arrives o :: arrivals)) with (o :: outcomesOf arrivals) in *. cbn [length] in Hl.
    rewrite (proj2 (Nat.ltb_lt _ _)) by lia. destruct (failed (outcome o)) eqn:Ho.
    + pose proof (decides_failure _ v4Win o _ failures Ho (IH (S received) v4Win (failures ++ [o]) ltac:(lia))) as Hnext.
      destruct v4Win as [w|]; [|done]. destruct (negb (IPv4 o)); [apply decides_winner; left; by eexists|done].
    + assert (Hex : Exists (fun o => ~ failing o) (o :: outcomesOf arrivals)) by (left; unfold failing; congruence).
      destruct (negb (IPv4 o)); [apply decides_winner; by right|].
      destruct (_ || _); [apply decides_winner; by right|].
      destruct (IH (S received) (Some o) failures ltac:(lia)) as (w & f & -> & Hw & _).
      destruct w as [w|]; [apply decides_winner; by right|]. by destruct (proj1 Hw eq_refl).
  - change (outcomesOf (GraceEnds :: arrivals)) with (outcomesOf arrivals) in *.
    destruct (Nat.ltb_spec received pending).
    + destruct v4Win as [w|]; [apply decides_winner; left; by eexists|by apply IH].
    + replace (outcomesOf arrivals) with ([] : list (PunchOutcome F)); [apply Hend|].
      destruct (outcomesOf arrivals); simpl in Hl; [done|lia].
Qed.

(** An IPv6 success that arrives before the grace period ends wins. *)
Lemma selectLoop_ipv6 {F} (before after : list (arrival F)) o pending received v4Win failures :
  received + length (outcomesOf (before ++ Arrives o :: after)) <= pending ->
  ~ failing o -> IPv4 o = false -> GraceEnds ∉ before -> (forall o', Arrives o' ∈ before -> IPv4 o' = true) ->
  exists failures', selectLoop (before ++ Arrives o :: after) pending received true v4Win failures = Some (Some o, failures').
Proof.
  intros Hl Ho H6 Hg H4. revert received v4Win failures Hl.
  induction before as [|a before IH]; intros received v4Win failures Hl.
  - simpl. simpl in Hl. rewrite (proj2 (Nat.ltb_lt _ _)) by lia. unfold failing in Ho.
    destruct (failed (outcome o)); [done|]. rewrite H6. eauto.
  - apply not_elem_of_cons in Hg as [Ha Hg]. destruct a as [o'|]; [|done].
    assert (IPv4 o' = true) as H by (apply H4; by left).
    assert (H4' : forall o', Arrives o' ∈ before -> IPv4 o' = true) by (intros; apply H4; by right).
    specialize (IH Hg H4'). cbn [app selectLoop].
    change (outcomesOf ((Arrives o' :: before) ++ Arrives o :: after)) with (o' :: outcomesOf (before ++ Arrives o :: after)) in Hl.
    cbn [length] in Hl. rewrite (proj2 (Nat.ltb_lt _ _)) by lia. rewrite H. cbn [negb orb].
    assert (0 < length (outcomesOf (before ++ Arrives o :: after))).
    { unfold outcomesOf. rewrite omap_app, length_app. simpl. lia. }
    rewrite (proj2 (Nat.leb_gt _ _)) by lia.
    destruct (failed (outcome o')); [destruct v4Win|]; apply IH; lia.
Qed.

(** Once every family has reported, the race has a winner exactly when some family
    succeeded; the winner took part and has a result, without a winner all failures are
    reported in the order of their arrival, and an IPv6 success that arrives before the
    grace period ends wins, however early IPv4 succeeded. *)
Theorem punch_race_winner {F} (arrivals : list (arrival F)) :
  exists w failures, SelectPunchWinner arrivals (length (outcomesOf arrivals)) true = Some (w, failures)
    /\ match w with
       | None => Forall failing (outcomesOf arrivals) /\ failures = outcomesOf arrivals
       | Some o => o ∈ outcomesOf arrivals /\ ~ failing o
       end
    /\ forall before o after, arrivals = before ++ Arrives o :: after -> ~ failing o -> IPv4 o = false ->
         GraceEnds ∉ before -> (forall o', Arrives o' ∈ before -> IPv4 o' = true) -> w = Some o.
Proof.
  destruct (selectLoop_decides arrivals (length (outcomesOf arrivals)) 0 true None []) as (w & f & Hrun & Hw & Hf); [done|].
  exists w, f. split; [exact Hrun|]. split.
  - destruct w as [o|]; [|split; [by apply Hw | by apply Hf]].
    destruct (SelectPunchWinner_Ok _ _ _ _ _ Hrun) as [Hin Ho]. unfold failing, outcomesOf. rewrite Ho. split; [|done].
    apply list_elem_of_omap. by exists (Arrives o).
  - intros before o after -> Ho H6 Hg H4.
    destruct (selectLoop_ipv6 before after o (length (outcomesOf (before ++ Arrives o :: after))) 0 None []) as [f' Hrun']; [done..|].
    rewrite Hrun' in Hrun. by injection Hrun as <- _.
Qed.

(** ** When dialing succeeds *)

(** A program that returns, with a property of the result. *)
Definition returns {A} (m : M A) (P : A -> Prop) : Prop := forall s, exists a s', m s = Some (a, s') /\ P a.

Lemma dial_returns_ret {A} (a : A) (P : A -> Prop) : P a -> returns (mret a) P.
Proof. intros HP s. by exists a, s. Qed.
Lemma dial_returns_bind {A B} (m : M A) (f : A -> M B) (P : A -> Prop) Q :
  returns m P -> (forall a, P a -> returns (f a) Q) -> returns (m ≫= f) Q.
Proof. intros Hm Hf s. unfold mbind, M_bind. destruct (Hm s) as (a & s1 & -> & Ha). by apply Hf. Qed.
Lemma returns_weaken {A} (m : M A) (P Q : A -> Prop) : returns m P -> (forall a, P a -> Q a) -> returns m Q.
Proof. intros Hm HQ s. destruct (Hm s) as (a & s1 & -> & Ha). eauto. Qed.
Lemma returns_Close c : returns (Close c) (fun _ => True).
Proof. intros s. by eexists _, _. Qed.
Lemma returns_open : returns openSocket (fun _ => True).
Proof. intros s. by eexists _, _. Qed.
Lemma returns_closeAll l : returns (closeAll l) (fun _ => True).
Proof.
  induction l as [|c l IH]; cbn [closeAll]; [by apply dial_returns_ret|].
  eapply dial_returns_bind; [apply returns_Close|]. by intros [].
Qed.
Lemma returns_closing {A} l (m : M A) P : returns m P -> returns (_ ← closeAll l; m) P.
Proof. intros Hm. eapply dial_returns_bind; [apply returns_closeAll|]. by intros []. Qed.

Lemma returns_mapM {A B} (f : A -> M B) (P : A -> B -> Prop) l :
  (forall x, x ∈ l -> returns (f x) (P x)) -> returns (mapM_ f l) (Forall2 P l).
Proof.
  induction l as [|x l IH]; intros Hf; cbn [mapM_]; [by apply dial_returns_ret|].
  eapply dial_returns_bind; [apply Hf; by left|]. intros y Hy.
  eapply dial_returns_bind; [apply IH; intros; apply Hf; by right|]. intros ys Hys. apply dial_returns_ret. by constructor.
Qed.

Section Dial.
Context `{E : Externals}.
Variable Sum256 : list byte -> list byte.
Variable E_Errors : list error -> error.
Variable Error_String : error -> string.
Variable AddrPort_String : AddrPort -> string.
Variable IsCanceled : error -> bool.

(** Some family punches through. *)
Definition direct (e : Env) (families : list familyConn) (peers : list AddrPort) (metadata : PunchMetadata) : Prop :=
  exists f r, f ∈ families /\ punchFamily Sum256 e peers metadata f = Some (inr r).
(** Some relay pairs the two sides. *)
Definition relayWorks (e : Env) (relays : list AddrPort) (nonce : list byte) : Prop :=
  exists i addr, relays !! i = Some addr /\ y_listen (e_relays e i) = None
    /\ relayJoin (y_reads (e_relays e i)) addr nonce = Some (inr tt).

(** The clock runs past the ten seconds of a punch, and a context that is past its
    deadline says so. *)
Definition clockRuns (env : FamilyEnv) : Prop :=
  (exists t, t ∈ f_turns env /\ (f_now env + punchTimeout <= t_now t)%Z)
  /\ forall t, t ∈ f_turns env -> (f_now env + punchTimeout <= t_now t)%Z -> t_ctxErr t <> None.
(** There is one socket for a family, and the race receives what each punch returns once. *)
Definition punchesRun (e : Env) (families : list familyConn) : Prop :=
  NoDup (map ipv4 families) /\ omap id (e_arrivals e) ≡ₚ map ipv4 families
  /\ forall f, f ∈ families -> clockRuns (familyEnv e (ipv4 f)).
(** A read of each relay fails when the time of its handshake is over, if not before, and
    what each handshake returns is received once. *)
Definition relaysRun (e : Env) (relays : list AddrPort) : Prop :=
  e_relayOrder e ≡ₚ seq 0 (length relays)
  /\ forall i, (i < length relays)%nat -> exists err timedOut, RelayReadError err timedOut ∈ y_reads (e_relays e i).

Lemma clientTurn_not_Panic md st t msg : (clientTurn Sum256 md st t).2 <> inr (Panic msg).
Proof.
  unfold clientTurn. destruct (t_ctxErr t); [done|]. case_bool; [done|].
  destruct (if (nextSend st <=? t_now t)%Z then _ else _) as [hs st']. destruct (clientRead Sum256 md st' t) as [answers next] eqn:Hr.
  simpl. intros ->. revert Hr. unfold clientRead. destruct (t_read t); [done|done|]. destruct (negb _); [done|].
  destruct (DecodePunchPacket _ _ _); [|done..]. by case_bool_decide.
Qed.

(** A loop that meets a context that has ended returns. *)
Lemma clientLoop_returns md st turns t :
  t ∈ turns -> t_ctxErr t <> None ->
  (exists r, (clientLoop Sum256 md st turns).2 = inr (Ok r)) \/ (exists err, (clientLoop Sum256 md st turns).2 = inr (Err err)).
Proof.
  intros Hin Ht. revert st. induction turns as [|t' turns IH]; intros st; [by apply not_elem_of_nil in Hin|]. cbn [clientLoop].
  destruct (clientTurn Sum256 md st t') as [sent next] eqn:Hn.
  destruct next as [st'|[r|err|msg]]; [|left; by exists r|right; by exists err|by destruct (clientTurn_not_Panic md st t' msg); rewrite Hn].
  apply elem_of_cons in Hin as [->|Hin].
  - unfold clientTurn in Hn. by destruct (t_ctxErr t').
  - specialize (IH Hin st'). by destruct (clientLoop Sum256 md st' turns).
Qed.

Lemma punchFamily_returns e peers metadata f :
  clockRuns (familyEnv e (ipv4 f)) -> is_Some (punchFamily Sum256 e peers metadata f).
Proof.
  intros [(t & Hin & Ht) Hctx]. specialize (Hctx t Hin Ht). unfold punchFamily, Punch, punchStart. destruct (_ =? 0)%nat; [by eexists|].
  destruct (clientLoop_returns metadata (mkClientState (candidatePunchAddrs (f_order (familyEnv e (ipv4 f)))
    (filter (fun peer => Is4 (ap_Addr peer) = ipv4 f) peers)) (f_now (familyEnv e (ipv4 f))) None) _ t Hin Hctx) as [[r ->]|[err ->]]; by eexists.
Qed.

Lemma relayJoin_returns reads relay nonce err timedOut : RelayReadError err timedOut ∈ reads -> is_Some (relayJoin reads relay nonce).
Proof.
  induction reads as [|x reads IH]; intros Hin; [by apply not_elem_of_nil in Hin|]. apply elem_of_cons in Hin as [<-|Hin]; [by eexists|].
  cbn [relayJoin]. destruct x as [|? [from|]]; [by eexists| |auto]. case_bool_decide; [|auto]. destruct (isRelayJoinAck _ _); [by eexists|auto].
Qed.

Lemma list_find_ipv4 families f : NoDup (map ipv4 families) -> f ∈ families ->
  snd <$> list_find (fun g => ipv4 g = ipv4 f) families = Some f.
Proof.
  intros Hn Hf. destruct (list_find _ families) as [[i g]|] eqn:Hg.
  - apply list_find_Some in Hg as (Hi & Hv & _). simpl. f_equal. apply list_elem_of_lookup in Hf as [j Hj].
    assert (i = j) as ->; [|congruence]. apply (NoDup_lookup (map ipv4 families) i j (ipv4 f)); [done|..];
      rewrite list_lookup_fmap; [rewrite Hi | rewrite Hj]; simpl; congruence.
  - apply list_find_None in Hg. rewrite Forall_forall in Hg. by destruct (Hg f Hf).
Qed.

Lemma arrivalOf_ends e families peers metadata f : punchesRun e families -> f ∈ families ->
  exists o, punchFamily Sum256 e peers metadata f = Some o
    /\ arrivalOf Sum256 e families peers metadata (Some (ipv4 f)) = Some (Arrives (mkPunchOutcome f (ipv4 f) o)).
Proof.
  intros (Hn & _ & He) Hf. destruct (punchFamily_returns e peers metadata f (He f Hf)) as [o Ho]. exists o. split; [done|]. unfold arrivalOf.
  rewrite (list_find_ipv4 families f Hn Hf). cbn [mbind option_bind]. by rewrite Ho.
Qed.

Lemma arrivals_count e families peers metadata l : punchesRun e families ->
  (forall v4, v4 ∈ omap id l -> v4 ∈ map ipv4 families) ->
  length (outcomesOf (omap (arrivalOf Sum256 e families peers metadata) l)) = length (omap id l).
Proof.
  intros He. induction l as [|[v4|] l IH]; intros Hl; [done| |].
  - change (omap id (Some v4 :: l)) with (v4 :: omap id l) in *.
    assert (v4 ∈ map ipv4 families) as (f & -> & Hf)%list_elem_of_fmap by (apply Hl; by left).
    destruct (arrivalOf_ends e families peers metadata f He Hf) as (o & _ & Ho).
    change (omap (arrivalOf Sum256 e families peers metadata) (Some (ipv4 f) :: l)) with
      (match arrivalOf Sum256 e families peers metadata (Some (ipv4 f)) with
       | Some a => a :: omap (arrivalOf Sum256 e families peers metadata) l
       | None => omap (arrivalOf Sum256 e families peers metadata) l end).
    rewrite Ho. cbn [length]. rewrite <- IH by (intros; apply Hl; by right). done.
  - apply IH. intros v4 Hv. by apply Hl.
Qed.

Lemma returns_racePunch e families peers metadata : punchesRun e families ->
  returns (racePunch Sum256 E_Errors e families peers metadata) (fun r => failed r = false <-> direct e families peers metadata).
Proof.
  intros He. pose proof He as (Hn & Hperm & _). unfold racePunch.
  pose proof (arrivals_count e families peers metadata (e_arrivals e) He) as Hcount.
  rewrite Hperm, length_map in Hcount. specialize (Hcount (fun v4 Hv => ltac:(by rewrite <- Hperm))).
  set (arrivals := omap (arrivalOf _ _ _ _ _) (e_arrivals e)) in *.
  destruct (selectLoop_decides arrivals (length families) 0 true None []) as (w & failures & Hrun & Hw & _); [by rewrite Hcount|].
  unfold SelectPunchWinner. rewrite Hrun. destruct w as [w|].
  - destruct (SelectPunchWinner_Ok arrivals _ _ w failures Hrun) as [Hin Ho].
    apply list_elem_of_omap in Hin as (a & _ & (Hf & _ & Hp)%arrivalOf_family).
    destruct (outcome w) as [err|r]; [done|]. apply returns_closing, dial_returns_ret. split; [|done]. intros _. by exists (Family w), r.
  - apply returns_closing, dial_returns_ret. split; [done|]. intros (f & r & Hf & Hr). exfalso.
    destruct (proj1 Hw eq_refl) as [_ Hall]. rewrite Forall_forall in Hall.
    destruct (arrivalOf_ends e families peers metadata f He Hf) as (o & Ho & Ha). rewrite Hr in Ho. injection Ho as <-.
    assert (failing (mkPunchOutcome f (ipv4 f) (inr r : error + PunchResult))); [|done]. apply Hall.
    apply list_elem_of_omap. exists (Arrives (mkPunchOutcome f (ipv4 f) (inr r))). split; [|done].
    apply list_elem_of_omap. exists (Some (ipv4 f)). split; [|done].
    assert (ipv4 f ∈ omap id (e_arrivals e)) as Hin by (rewrite Hperm; apply list_elem_of_fmap; eauto).
    apply list_elem_of_omap in Hin as (x & Hx & Heq). simpl in Heq. by subst.
Qed.

Lemma returns_dialRelayOne y addr nonce : is_Some (relayJoin (y_reads y) addr nonce) ->
  returns (dialRelayOne y addr nonce)
    (fun r => failed r = false <-> y_listen y = None /\ relayJoin (y_reads y) addr nonce = Some (inr tt)).
Proof.
  intros [r Hr]. unfold dialRelayOne. destruct (y_listen y) as [err|]; cbn [listenPacket].
  { eapply (dial_returns_bind _ _ (fun r => r = inl err)); [by apply dial_returns_ret|]. intros ? ->. apply dial_returns_ret. naive_solver. }
  eapply (dial_returns_bind _ _ (fun r => exists c, r = inr c)).
  { eapply dial_returns_bind; [apply returns_open|]. intros c _. apply dial_returns_ret. eauto. }
  intros ? [c ->]. rewrite Hr. destruct r as [err|[]]; [|by apply dial_returns_ret].
  eapply dial_returns_bind; [apply returns_Close|]. intros _ _. apply dial_returns_ret. naive_solver.
Qed.

Definition failsAt (outcomes : list (AddrPort * (error + PunchedConn))) (i : nat) : bool :=
  match outcomes !! i with Some (_, inl _) => true | _ => false end.

Lemma returns_relayLoop order outcomes pending winner errs :
  pending <= length order -> (forall i, i ∈ order -> i < length outcomes) ->
  returns (relayLoop AddrPort_String order outcomes pending winner errs)
    (fun r => r.1 = None <-> winner = None /\ Forall (fun i => failsAt outcomes i = true) (take pending order)).
Proof.
  revert order winner errs. induction pending as [|pending IH]; intros order winner errs Hl Hi; cbn [relayLoop].
  { apply dial_returns_ret. simpl. split; [intros ->; by split|by intros [-> _]]. }
  destruct order as [|i order]; [simpl in Hl; lia|]. simpl in Hl. cbn [take].
  assert (i < length outcomes) as [[addr r] Hr]%lookup_lt_is_Some by (apply Hi; by left). rewrite Hr.
  assert (Hi' : forall i, i ∈ order -> i < length outcomes) by (intros; apply Hi; by right).
  assert (Hok : failsAt outcomes i = failed r) by (unfold failsAt; rewrite Hr; by destruct r).
  destruct r as [err|c].
  - eapply returns_weaken; [apply IH; [lia|done]|]. simpl. intros [w es] ->. rewrite Forall_cons. naive_solver.
  - cbn [failed] in Hok. destruct winner as [w|].
    + eapply dial_returns_bind; [apply returns_Close|]. intros _ _. eapply returns_weaken; [apply IH; [lia|done]|].
      simpl. intros [w' es] ->. split; by intros [? _].
    + eapply returns_weaken; [apply IH; [lia|done]|]. simpl. intros [w es] ->. rewrite Forall_cons, Hok.
      split; [by intros [? _]|by intros (_ & ? & _)].
Qed.

Lemma returns_DialRelay e relays nonce : relaysRun e relays ->
  returns (DialRelay E_Errors AddrPort_String e relays nonce) (fun r => failed r = false <-> relayWorks e relays nonce).
Proof.
  intros (Hperm & He). unfold DialRelay. destruct (length relays =? 0) eqn:Hz.
  { destruct relays; [|done]. apply dial_returns_ret. split; [done|]. by intros (i & addr & Hi & _). }
  eapply dial_returns_bind.
  { apply (returns_mapM _ (fun x r => failed r = false <-> y_listen (e_relays e x.1) = None
      /\ relayJoin (y_reads (e_relays e x.1)) x.2 nonce = Some (inr tt))).
    intros [i addr] (j & y & Hij & Hy)%elem_of_lookup_imap. injection Hij as -> ->. apply returns_dialRelayOne.
    apply lookup_lt_Some in Hy. destruct (He _ Hy) as (err & timedOut & Hr). by eapply relayJoin_returns. }
  intros outcomes Hout. simpl in Hout.
  assert (Hlen : length outcomes = length relays) by (apply Forall2_length in Hout; by rewrite length_imap in Hout).
  assert (Hlo : length (e_relayOrder e) = length relays) by (by rewrite Hperm, length_seq).
  eapply dial_returns_bind; [apply returns_relayLoop|].
  { lia. }
  { intros i. rewrite Hperm, elem_of_seq, length_zip_with. lia. }
  intros [w errs] Hw. simpl in Hw. rewrite take_ge in Hw by lia. apply dial_returns_ret.
  assert (Hat : forall i addr, relays !! i = Some addr -> exists r, zip relays outcomes !! i = Some (addr, r) /\
    (failed r = false <-> y_listen (e_relays e i) = None /\ relayJoin (y_reads (e_relays e i)) addr nonce = Some (inr tt))).
  { intros i addr Hi. destruct (Forall2_lookup_l _ _ _ i (i, addr) Hout) as (r & Hr & Hok); [by rewrite list_lookup_imap, Hi|].
    exists r. split; [|done]. apply lookup_zip_with_Some. by exists addr, r. }
  destruct w as [c|]; simpl.
  - split; [|done]. intros _. destruct (decide (Forall (fun i => failsAt (zip relays outcomes) i = true) (e_relayOrder e))) as [Hall|Hnot].
    + by apply (conj eq_refl), Hw in Hall.
    + apply not_Forall_Exists in Hnot; [|apply _]. apply Exists_exists in Hnot as (i & Hi & Hbad).
      rewrite Hperm, elem_of_seq in Hi. destruct (lookup_lt_is_Some_2 relays i) as [addr Haddr]; [lia|].
      destruct (Hat i addr Haddr) as (r & Hr & Hok). unfold failsAt in Hbad. simpl in Hbad. rewrite Hr in Hbad. destruct r as [err|c']; [done|].
      destruct (proj1 Hok eq_refl). by exists i, addr.
  - split; [done|]. intros (i & addr & Hi & Hy & Hj). exfalso. destruct (proj1 Hw eq_refl) as [_ Hall].
    rewrite Forall_forall in Hall. destruct (Hat i addr Hi) as (r & Hr & Hok).
    assert (failsAt (zip relays outcomes) i = true) as Hf by (apply Hall; rewrite Hperm, elem_of_seq; apply lookup_lt_Some in Hi; lia).
    unfold failsAt in Hf. rewrite Hr in Hf. destruct r; [|done]. by destruct Hok as [_ Hok]; specialize (Hok (conj Hy Hj)).
Qed.

(** C13: after the rendezvous dialing returns, and it returns a connection exactly when
    some family punches through or some relay that the rendezvous named pairs the two
    sides: first punching and then relaying, and doing both at once, reach the same
    nodes.  A probe that must punch gets a connection exactly when some family punches
    through.  What is assumed is that the clock runs past the ten seconds of a punch and
    its context then has ended, that a read of each relay fails when the time of the
    handshake is over, that there is at most one socket per address family, and that
    each goroutine's result is received once. *)
Theorem dial_succeeds_iff e surviving response trace :
  let peers := c_Addresses response in
  let metadata := c_PunchMetadata response in
  let relays := c_Relay response in
  punchesRun e surviving -> relaysRun e relays ->
  returns (punchThenRelay Sum256 E_Errors AddrPort_String e surviving response trace ModeNormal)
    (fun r => failed r.1 = false <-> direct e surviving peers metadata \/ relayWorks e relays (Nonce metadata))
  /\ returns (punchAlongRelay Sum256 E_Errors Error_String AddrPort_String e surviving response trace)
    (fun r => failed r.1 = false <-> direct e surviving peers metadata \/ relayWorks e relays (Nonce metadata))
  /\ returns (punchThenRelay Sum256 E_Errors AddrPort_String e surviving response trace ModePunchOnly)
    (fun r => failed r.1 = false <-> direct e surviving peers metadata).
Proof.
  intros peers metadata relays Hp Hr. pose proof (returns_racePunch e surviving peers metadata Hp) as Hpunch.
  pose proof (returns_DialRelay e relays (Nonce metadata) Hr) as Hrelay.
  split; [|split].
  - eapply dial_returns_bind; [exact Hpunch|]. intros [err|[winner r]] Hd; [|apply dial_returns_ret; naive_solver].
    cbn zeta. rewrite bool_decide_eq_false_2 by done. fold relays. destruct (0 <? length relays) eqn:Hz.
    2: { apply dial_returns_ret. apply Nat.ltb_ge in Hz. assert (relays = []) as -> by (destruct relays; [done|simpl in Hz; lia]).
         assert (~ relayWorks e [] (Nonce metadata)) by (by intros (i & addr & Hi & _)). naive_solver. }
    eapply dial_returns_bind; [exact Hrelay|]. intros [err'|c] Hd'; apply dial_returns_ret; naive_solver.
  - eapply (dial_returns_bind _ _ (fun r => failed r = false <-> direct e surviving peers metadata \/ relayWorks e relays (Nonce metadata))).
    + eapply dial_returns_bind; [exact Hpunch|]. intros pr Hd. eapply dial_returns_bind; [exact Hrelay|]. intros rr Hd'.
      destruct pr as [err|[f r]], rr as [err'|c]; [apply dial_returns_ret; naive_solver..|].
      destruct (e_relayFirst e); (eapply dial_returns_bind; [apply returns_Close|]); intros _ _; apply dial_returns_ret; naive_solver.
    + intros [err|[c []]] Hd; apply dial_returns_ret; naive_solver.
  - eapply dial_returns_bind; [exact Hpunch|]. intros [err|[winner r]] Hd; apply dial_returns_ret; naive_solver.
Qed.

(** ** What a connection proves *)

Definition ensures {A} (m : M A) (P : A -> Prop) : Prop := forall s a s', m s = Some (a, s') -> P a.

Lemma ensures_ret {A} (a : A) (P : A -> Prop) : P a -> ensures (mret a) P.
Proof. by intros HP s b s' [= <- _]. Qed.
Lemma ensures_bind {A B} (m : M A) (f : A -> M B) P Q :
  ensures m P -> (forall a, P a -> ensures (f a) Q) -> ensures (m ≫= f) Q.
Proof. intros Hm Hf s b s'. unfold mbind, M_bind. destruct (m s) as [[a s1]|] eqn:H; [|done]. by eapply Hf, Hm. Qed.
Lemma ensures_any {A} (m : M A) : ensures m (fun _ => True).
Proof. done. Qed.
Lemma ensures_skip {A B} (m : M A) (f : A -> M B) Q : (forall a, ensures (f a) Q) -> ensures (m ≫= f) Q.
Proof. intros Hf. eapply ensures_bind; [apply ensures_any|]. auto. Qed.

(** The peer acknowledged a packet with this metadata on a socket of the dial. *)
Definition punchAcked (e : Env) (md : PunchMetadata) (peer : AddrPort) : Prop :=
  exists v4 t data from, t ∈ f_turns (familyEnv e v4) /\ t_read t = ReadFrom data from /\ unmapPort from = peer
    /\ DecodePunchPacket Sum256 (take bufferSize data) md = Ok PunchAck.
(** A relay of the list confirmed that the other side has come with this nonce. *)
Definition relayAcked (e : Env) (relays : list AddrPort) (md : PunchMetadata) (peer : AddrPort) : Prop :=
  exists i data from, relays !! i = Some peer /\ RelayReadFrom data (Some from) ∈ y_reads (e_relays e i)
    /\ unmapPort from = peer /\ isRelayJoinAck data (Nonce md) = true.

Lemma clientTurn_acked md st t r : (clientTurn Sum256 md st t).2 = inr (Ok r) ->
  exists data from, t_read t = ReadFrom data from /\ unmapPort from = PeerAddr r
    /\ DecodePunchPacket Sum256 (take bufferSize data) md = Ok PunchAck.
Proof.
  unfold clientTurn. destruct (t_ctxErr t); [done|]. destruct (match confirmDeadline st with Some _ => _ | None => _ end); [done|].
  match goal with |- context [let '(_, _) := ?x in _] => destruct x as [sent st'] end.
  destruct (clientRead Sum256 md st' t) as [answers next] eqn:Hr. simpl. intros ->. revert Hr. unfold clientRead.
  destruct (t_read t) as [|err|data from]; [done..|]. destruct (negb _); [done|].
  destruct (DecodePunchPacket Sum256 (take bufferSize data) md) as [pt| |] eqn:Hd; [|done..].
  case_bool_decide; [|done]. intros [= _ <-]. subst. eauto.
Qed.

Lemma clientLoop_acked md turns st r : (clientLoop Sum256 md st turns).2 = inr (Ok r) ->
  exists t, t ∈ turns /\ exists data from, t_read t = ReadFrom data from /\ unmapPort from = PeerAddr r
    /\ DecodePunchPacket Sum256 (take bufferSize data) md = Ok PunchAck.
Proof.
  revert st. induction turns as [|t turns IH]; intros st; [done|]. cbn [clientLoop].
  destruct (clientTurn Sum256 md st t) as [sent next] eqn:Ht. destruct next as [st'|out].
  - specialize (IH st'). destruct (clientLoop Sum256 md st' turns) as [more next]. simpl. intros Hn.
    destruct (IH Hn) as (t' & Hin & Ha). exists t'. split; [by right|done].
  - simpl. intros [= ->]. exists t. split; [by left|]. apply (clientTurn_acked md st). by rewrite Ht.
Qed.

Lemma punchFamily_acked e peers md f r : punchFamily Sum256 e peers md f = Some (inr r) -> punchAcked e md (PeerAddr r).
Proof.
  unfold punchFamily. destruct (Punch _ _ _ _ _ _) as [sent next] eqn:Hp. simpl. destruct next as [st|[r'|err|msg]]; [done| |done..].
  intros [= ->]. unfold Punch in Hp. destruct (punchStart _ _ _) as [st|out] eqn:Hst.
  - destruct (clientLoop_acked md (f_turns (familyEnv e (ipv4 f))) st r) as (t & Ht & data & from & ?); [by rewrite Hp|].
    by exists (ipv4 f), t, data, from.
  - injection Hp as _ ->. unfold punchStart in Hst. destruct (_ =? 0); by simplify_eq.
Qed.

Lemma ensures_racePunch e families peers md :
  ensures (racePunch Sum256 E_Errors e families peers md) (fun r => forall f pr, r = inr (f, pr) -> punchAcked e md (PeerAddr pr)).
Proof.
  unfold racePunch. destruct (SelectPunchWinner _ _ _) as [[[w|] failures]|] eqn:Hw; [| |done].
  - apply SelectPunchWinner_Ok in Hw as [Hin _]. apply list_elem_of_omap in Hin as (a & _ & (_ & _ & Hp)%arrivalOf_family).
    destruct (outcome w) as [err|r]; [done|]. apply ensures_skip. intros _. apply ensures_ret. intros f pr [= _ <-].
    by eapply punchFamily_acked.
  - apply ensures_skip. intros _. by apply ensures_ret.
Qed.

Lemma relayJoin_acked reads addr nonce : relayJoin reads addr nonce = Some (inr tt) ->
  exists data from, RelayReadFrom data (Some from) ∈ reads /\ unmapPort from = addr /\ isRelayJoinAck data nonce = true.
Proof.
  induction reads as [|[err timedOut|data from] reads IH]; [done|done|]. cbn [relayJoin].
  assert (Hrest : relayJoin reads addr nonce = Some (inr tt) -> exists data' from',
    RelayReadFrom data' (Some from') ∈ RelayReadFrom data from :: reads /\ unmapPort from' = addr /\ isRelayJoinAck data' nonce = true).
  { intros (d & fr & Hin & ?)%IH. exists d, fr. split; [by right|done]. }
  destruct from as [from|]; [|done]. case_bool_decide; [|done]. destruct (isRelayJoinAck data nonce) eqn:Ha; [|done].
  intros _. exists data, from. split; [by left|done].
Qed.

Lemma ensures_DialRelay e relays md :
  ensures (DialRelay E_Errors AddrPort_String e relays (Nonce md)) (fun r => forall c, r = inr c -> relayAcked e relays md (PunchedPeer c)).
Proof.
  unfold DialRelay. destruct (length relays =? 0); [by apply ensures_ret|].
  eapply (ensures_bind _ _ (Forall2 (fun x r => forall c, r = inr c -> PunchedPeer c = x.2
    /\ relayJoin (y_reads (e_relays e x.1)) x.2 (Nonce md) = Some (inr tt)) (imap pair relays))).
  { generalize (imap pair relays). intros l. induction l as [|[i addr] l IH]; cbn [mapM_]; [by apply ensures_ret|].
    eapply (ensures_bind _ _ (fun r => forall c, r = inr c -> PunchedPeer c = addr
      /\ relayJoin (y_reads (e_relays e i)) addr (Nonce md) = Some (inr tt))).
    - apply ensures_skip. intros [err|c]; [by apply ensures_ret|].
      destruct (relayJoin _ _ _) as [[err|[]]|]; [|by apply ensures_ret; intros ? [= <-]|done].
      apply ensures_skip. intros _. by apply ensures_ret.
    - intros y Hy. eapply ensures_bind; [exact IH|]. intros ys Hys. apply ensures_ret. by constructor. }
  intros outcomes Hout.
  eapply (ensures_bind _ _ (fun r => forall c, r.1 = Some c -> inr c ∈ outcomes)).
  - assert (Hloop : forall order pending w errs, (forall c, w = Some c -> inr c ∈ outcomes) ->
      ensures (relayLoop AddrPort_String order (zip relays outcomes) pending w errs) (fun r => forall c, r.1 = Some c -> inr c ∈ outcomes)).
    { intros order pending. revert order. induction pending as [|pending IH]; intros order w errs Hw; cbn [relayLoop]; [by apply ensures_ret|].
      destruct order as [|i order]; [done|]. destruct (zip relays outcomes !! i) as [[addr [err|c]]|] eqn:Hi; [by apply IH| |done].
      destruct w as [w|]; [apply ensures_skip; intros _; by apply IH|]. apply IH. intros c' [= <-].
      apply lookup_zip_with_Some in Hi as (? & ? & [= <- <-] & _ & Hi). by eapply list_elem_of_lookup_2. }
    by apply Hloop.
  - intros [[c|] errs] Hw; apply ensures_ret; [|done]. intros c' [= <-]. specialize (Hw c eq_refl).
    apply list_elem_of_lookup in Hw as [i Hi]. destruct (Forall2_lookup_r _ _ _ _ _ Hout Hi) as ([j addr] & Hj & Hc).
    rewrite list_lookup_imap in Hj. destruct (relays !! i) as [addr'|] eqn:Hrel; [|done]. injection Hj as <- <-.
    destruct (Hc c eq_refl) as [Hpeer Hjoin]. apply relayJoin_acked in Hjoin as (data & from & Hin & Hfrom & Hack).
    exists i, data, from. simpl in *. by rewrite Hpeer.
Qed.

(** How a connection was confirmed. *)
Definition confirmed (e : Env) (realmID : string) (mode : PunchMode) (c : PunchedConn) : Prop :=
  exists addresses sent response, Connect (e_post e) realmID addresses sent = Ok response
    /\ (mode <> ModeRelayOnly /\ punchAcked e (c_PunchMetadata response) (PunchedPeer c)
        \/ mode <> ModePunchOnly /\ relayAcked e (c_Relay response) (c_PunchMetadata response) (PunchedPeer c)).

Lemma ensures_settle {A} (r : result A) : ensures (settle r) (fun x => forall a, x = inr a -> r = Ok a).
Proof. destruct r; cbn [settle]; [|by apply ensures_ret|done]. apply ensures_ret. by intros ? [= <-]. Qed.

Lemma ensures_dialRelayOnly e cfg realmID trace :
  ensures (dialRelayOnly E_Errors AddrPort_String e cfg realmID trace) (fun r => forall c, r.1 = inr c -> confirmed e realmID ModeRelayOnly c).
Proof.
  unfold dialRelayOnly, failAt, relayed. destruct (NewControlClient _) as [err|[]]; [by apply ensures_ret|].
  apply ensures_skip. intros [err|metadata]; [by apply ensures_ret|].
  apply ensures_skip. intros [err|conn]; [by apply ensures_ret|]. destruct (e_placeholderAddr e) as [a|]; [|done].
  apply ensures_skip. intros _. eapply ensures_bind; [apply ensures_settle|].
  intros [err|response] Hresp; [by apply ensures_ret|]. specialize (Hresp response eq_refl). cbn zeta.
  destruct (_ =? 0); [by apply ensures_ret|]. eapply ensures_bind; [apply ensures_DialRelay|].
  intros [err|c] Hc; apply ensures_ret; [done|]. intros c' [= <-]. exists [a], metadata, response. auto.
Qed.

Lemma ensures_punchThenRelay e surviving addresses sent response realmID trace mode :
  mode <> ModeRelayOnly -> Connect (e_post e) realmID addresses sent = Ok response ->
  ensures (punchThenRelay Sum256 E_Errors AddrPort_String e surviving response trace mode)
    (fun r => forall c, r.1 = inr c -> confirmed e realmID mode c).
Proof.
  intros Hm Hresp. eapply ensures_bind; [apply ensures_racePunch|]. intros [err|[winner r]] Hp.
  - cbn zeta. case_bool_decide; [by apply ensures_ret|]. destruct (0 <? _); [|by apply ensures_ret].
    eapply ensures_bind; [apply ensures_DialRelay|]. intros [err'|c] Hc; apply ensures_ret; [done|]. intros c' [= <-].
    exists addresses, sent, response. auto.
  - apply ensures_ret. intros c [= <-]. exists addresses, sent, response. split; [done|]. left. split; [done|]. by eapply Hp.
Qed.

(** C14: a connection that dialing returns has been confirmed from the other end: either the
    peer of the connection acknowledged a punch packet with the metadata of this
    rendezvous, or a relay of this rendezvous reported the other side under its nonce.
    A probe that must punch never returns a relayed connection, and a probe that must
    relay never a punched one. *)
Theorem dial_is_confirmed e cfg realmID trace mode s c trace' s' :
  PunchTracedWithMode Sum256 E_Errors Error_String AddrPort_String IsCanceled e cfg realmID trace mode s = Some ((inr c, trace'), s') ->
  confirmed e realmID mode c.
Proof.
  assert (H : ensures (PunchTracedWithMode Sum256 E_Errors Error_String AddrPort_String IsCanceled e cfg realmID trace mode)
    (fun r => forall c, r.1 = inr c -> confirmed e realmID mode c)); [|by intros Hrun; eapply H].
  unfold PunchTracedWithMode, failAt. destruct (bool_decide (realmID = _)); [by apply ensures_ret|].
  case_bool_decide as Hm; [subst; apply ensures_dialRelayOnly|]. do 2 (destruct (_ : bool); [by apply ensures_ret|]).
  destruct (NewControlClient _) as [err|[]]; [by apply ensures_ret|].
  apply ensures_skip. intros [err|families]; [by apply ensures_ret|].
  apply ensures_skip. intros [err|[surviving addresses]]; [by apply ensures_ret|]. cbn zeta.
  apply ensures_skip. intros [err|metadata]; [apply ensures_skip; intros _; by apply ensures_ret|].
  eapply ensures_bind; [apply ensures_settle|]. intros [err|response] Hresp; [apply ensures_skip; intros _; by apply ensures_ret|].
  specialize (Hresp response eq_refl). case_bool_decide as Hn; cbn [andb].
  - destruct (_ && _).
    + eapply (ensures_bind _ _ (fun r => forall c via, r = inr (c, via) -> confirmed e realmID mode c)).
      * eapply ensures_bind; [apply ensures_racePunch|]. intros pr Hp. eapply ensures_bind; [apply ensures_DialRelay|]. intros rr Hr.
        assert (Hdirect : forall f r, pr = inr (f, r) -> confirmed e realmID mode (mkPunchedConn (conn f) (PeerAddr r)))
          by (intros f r Heq; exists addresses, metadata, response; split; [done|]; left; split; [done|by eapply Hp]).
        assert (Hrelay : forall c, rr = inr c -> confirmed e realmID mode c)
          by (intros c' Heq; exists addresses, metadata, response; split; [done|]; right; split; [by subst|by apply Hr]).
        destruct pr as [perr|[f r]], rr as [rerr|c']; try (apply ensures_ret; naive_solver).
        destruct (e_relayFirst e); apply ensures_skip; intros _; apply ensures_ret; naive_solver.
      * intros [err|[c' []]] Hc; apply ensures_ret; naive_solver.
    + by eapply ensures_punchThenRelay.
  - by eapply ensures_punchThenRelay.
Qed.

End Dial.

#[local] Existing Instance sampleExternals.

(** ** A network

    A client with both address families, a STUN server for each, a node with an address
    in each, and two relays. *)

Definition node6 : AddrPort := AddrPortFrom (Addr6 2 "") 5000.
Definition stun4 : AddrPort := AddrPortFrom (Addr4 9) 3478.
Definition relay0 : AddrPort := AddrPortFrom (Addr4 20) 7000.
Definition relay1 : AddrPort := AddrPortFrom (Addr4 21) 7000.

Definition trialOf (mapped : AddrPort) : list Discover.trial :=
  repeat (Discover.mkTrial None (fun _ => None) 0 None 0 [(1%Z, ReadFrom (sampleAnswer 0 mapped) stun4)]) 3.
Definition punchTurn (read : ReadResult) : list turn :=
  [mkTurn None 0 punchTimeout sampleRandom read 1;
   mkTurn (Some ErrDeadlineExceeded) punchTimeout punchTimeout sampleRandom ReadTimeout punchTimeout].
Definition familySample (mapped : AddrPort) (read : ReadResult) : FamilyEnv :=
  mkFamilyEnv None (fun i => Ok (sampleTID i)) (trialOf mapped) [] 0 (punchTurn read).

Definition acks (peer : AddrPort) : ReadResult := ReadFrom (packet PunchAck sampleMd) peer.
Definition silent : ReadResult := ReadError (ErrExternal "closed").
Definition joins (relay : AddrPort) : RelayEnv :=
  mkRelayEnv None [RelayReadFrom [x00] (Some relay); RelayReadFrom (encodeRelayJoin (Nonce sampleMd)) (Some relay);
    RelayReadError ErrDeadlineExceeded true].

Definition sampleResponse (relays : list AddrPort) : punchMetadataWire :=
  mkPunchMetadataWire [nodeAddr; node6] (EncodeToString (Nonce sampleMd)) (EncodeToString (ObfuscationKey sampleMd)) relays.

Definition sampleEnv (mapped4 mapped6 : AddrPort) (read4 read6 : ReadResult) (relays : list AddrPort) (relayFirst : bool) : Env :=
  mkEnv (familySample mapped4 read4) (familySample mapped6 read6) [0] (Ok (repeat x01 16)) (Ok (repeat x02 32))
    (fun _ _ => Ok (sampleResponse relays)) None (Some clientAddr) [Some true; Some false]
    (fun i => joins (nth i relays relay0)) (seq 0 (length relays)) relayFirst (fun _ => 0%Z).
Definition sampleCfg : Config :=
  mkConfig "https://rendezvous" ["stun"] (Some (fun _ _ _ => Ok [Addr4 9; Addr6 9 ""])).

Definition mapped4 : AddrPort := AddrPortFrom (Addr4 5) 4000.
Definition mapped6 : AddrPort := AddrPortFrom (Addr6 5 "") 4000.

Definition sampleDial (e : Env) (mode : PunchMode) :=
  PunchTracedWithMode sampleSum (hd (E_New [])) (fun _ => ""%string) (fun _ => ""%string) (fun _ => false)
    e sampleCfg "node" (Some (NewTrace 0)) mode.
Definition noSockets : Sockets := mkSockets 3 {[1]} [].

(** What remains of a run. *)
Definition summary (out : option (((error + PunchedConn) * option Trace) * Sockets))
    : option (option PunchedConn * list nat * list nat * (option (option FailStage * bool * option NATTypeGuess))) :=
  match out with
  | Some ((r, trace), s) =>
      Some (match r with inr c => Some c | inl _ => None end, elements (live s), closes s,
            (fun t => (TraceFailStage t, RelayUsed t, NATGuess t)) <$> trace)
  | None => None
  end.

(** Everything works: IPv6 wins although IPv4 came first, and the sockets of IPv4 and of
    both relays are closed. *)
Definition workingEnv : Env := sampleEnv mapped4 mapped6 (acks nodeAddr) (acks node6) [relay0; relay1] false.
Lemma workingEnv_run :
  summary (sampleDial workingEnv ModeNormal noSockets)
  = Some (Some (mkPunchedConn 4 node6), [4; 1], [3; 6; 5], Some (None, false, Some NATTypeSymmetric)).
Proof. vm_compute. reflexivity. Qed.

Lemma dial_leaks_no_socket_witness :
  match sampleDial workingEnv ModeNormal noSockets with
  | Some ((inr c, _), s) => 3 <= PacketConn c < opened s /\ live s = live noSockets ∪ {[PacketConn c]}
  | _ => False
  end.
Proof.
  pose proof workingEnv_run as Hrun.
  destruct (sampleDial workingEnv ModeNormal noSockets) as [[[[err|c] t] s]|] eqn:H; [done| |done].
  apply (dial_leaks_no_socket sampleSum (hd (E_New [])) (fun _ => ""%string) (fun _ => ""%string) (fun _ => false)
    workingEnv sampleCfg "node" (Some (NewTrace 0)) ModeNormal noSockets (inr c) t s).
  - apply NoDup_seq.
  - intros x Hx. change (x ∈ ({[1]} : gset nat)) in Hx. apply elem_of_singleton in Hx as ->. cbn. lia.
  - exact H.
Defined.

Lemma dial_is_confirmed_witness :
  match sampleDial workingEnv ModeNormal noSockets with
  | Some ((inr c, _), _) => confirmed sampleSum workingEnv "node" ModeNormal c
  | _ => False
  end.
Proof.
  pose proof workingEnv_run as Hrun.
  destruct (sampleDial workingEnv ModeNormal noSockets) as [[[[err|c] t] s]|] eqn:H; [done| |done].
  exact (dial_is_confirmed sampleSum (hd (E_New [])) (fun _ => ""%string) (fun _ => ""%string) (fun _ => false)
    workingEnv sampleCfg "node" (Some (NewTrace 0)) ModeNormal noSockets c t s H).
Defined.

(** No family punches through; the first relay pairs. *)
Definition relayedEnv : Env := sampleEnv mapped4 mapped6 silent silent [relay0; relay1] false.
Definition sampleFamilies : list familyConn := [mkFamilyConn "v4" true 3 [mapped4]; mkFamilyConn "v6" false 4 [mapped6]].
Definition sampleConnect : ConnectResponse := mkConnectResponse [nodeAddr; node6] sampleMd [relay0; relay1].

Lemma relayedEnv_runs : punchesRun relayedEnv sampleFamilies /\ relaysRun relayedEnv (c_Relay sampleConnect).
Proof.
  split; split.
  - by apply (bool_decide_unpack _).
  - split; [done|]. intros f Hf. assert (f_turns (familyEnv relayedEnv (ipv4 f)) = punchTurn silent /\ f_now (familyEnv relayedEnv (ipv4 f)) = 0%Z) as [Ht Hn].
    { repeat apply elem_of_cons in Hf as [->|Hf]; [done|done|by apply not_elem_of_nil in Hf]. }
    unfold clockRuns. rewrite Ht, Hn. split.
    + eexists. split; [right; by left|]. done.
    + intros t [->|[->|[]%not_elem_of_nil]%elem_of_cons]%elem_of_cons; done.
  - done.
  - intros i Hi. eexists _, _. right. right. by left.
Qed.

Definition succeeds {A} (out : option (((error + PunchedConn) * A) * Sockets)) : bool :=
  match out with Some ((r, _), _) => negb (failed r) | None => false end.
Lemma relayedEnv_succeeds :
  succeeds (punchThenRelay sampleSum (hd (E_New [])) (fun _ => ""%string) relayedEnv sampleFamilies sampleConnect None ModeNormal noSockets) = true.
Proof. vm_compute. reflexivity. Qed.

(** Both ways of relaying find a way, the probe finds none. *)
Lemma dial_succeeds_iff_witness :
  (direct sampleSum relayedEnv sampleFamilies (c_Addresses sampleConnect) (c_PunchMetadata sampleConnect)
     \/ relayWorks relayedEnv (c_Relay sampleConnect) (Nonce (c_PunchMetadata sampleConnect)))
  /\ returns (punchAlongRelay sampleSum (hd (E_New [])) (fun _ => ""%string) (fun _ => ""%string) relayedEnv sampleFamilies sampleConnect None)
       (fun r => failed r.1 = false)
  /\ returns (punchThenRelay sampleSum (hd (E_New [])) (fun _ => ""%string) relayedEnv sampleFamilies sampleConnect None ModePunchOnly)
       (fun r => failed r.1 = false <-> direct sampleSum relayedEnv sampleFamilies (c_Addresses sampleConnect) (c_PunchMetadata sampleConnect)).
Proof.
  destruct (dial_succeeds_iff sampleSum (hd (E_New [])) (fun _ => ""%string) (fun _ => ""%string) (fun _ => false) relayedEnv sampleFamilies sampleConnect None
    (proj1 relayedEnv_runs) (proj2 relayedEnv_runs)) as (H1 & H2 & H3).
  destruct (H1 noSockets) as (a & s & Hrun & Ha). pose proof relayedEnv_succeeds as Hs. rewrite Hrun in Hs. destruct a as [r t].
  assert (Hw := proj1 Ha (proj1 (negb_true_iff _) Hs)).
  split; [exact Hw|]. split; [|exact H3]. eapply returns_weaken; [exact H2|]. intros x Hx. exact (proj2 Hx Hw).
Defined.

(** ** Differences *)

(** Distinct reflexive addresses look like a symmetric NAT. *)
Lemma guess_distinct l : NoDup l -> 2 <= length l -> guessNATType l = NATTypeSymmetric.
Proof.
  destruct l as [|a [|b l]]; simpl; [lia|lia|]. intros Hn _. apply NoDup_cons in Hn as [Ha _].
  destruct (_ || existsb _ _) eqn:He; [done|]. exfalso. apply orb_false_iff in He as [He _].
  apply orb_false_iff in He as [H1 H2]. apply negb_false_iff, bool_decide_eq_true in H1. apply negb_false_iff, N.eqb_eq in H2.
  apply Ha, elem_of_cons. left. destruct a, b; simpl in *. congruence.
Qed.

(** The guess is never that of a cone NAT, because discovery removes duplicates: several
    servers that see one mapping give one address, and that is too few for a guess. *)
Theorem discovery_never_guesses_cone `{E : Externals} E_Errors AddrPort_String IsCanceled random trials servers addresses :
  Discover.Discover E_Errors AddrPort_String IsCanceled random (map Discover.attemptOf trials) servers = Some (Ok addresses) ->
  guessNATType addresses <> NATTypeCone.
Proof.
  intros Hn%Discover.Discover_distinct. destruct (decide (2 <= length addresses)).
  - by rewrite guess_distinct.
  - by destruct addresses as [|a [|b l]]; simpl in *; [..|lia].
Qed.

(** A client with one stable mapping in each family is taken for one behind a symmetric
    NAT, so that it races the relays with its punches. *)
Theorem dual_stack_guessed_symmetric :
  guessNATType [mapped4; mapped6] = NATTypeSymmetric
  /\ option_map (fun t => (RelayUsed t, NATGuess t))
       (match sampleDial (sampleEnv mapped4 mapped6 (acks nodeAddr) (acks node6) [relay0] true) ModeNormal noSockets with
        | Some ((_, t), _) => t
        | None => None
        end) = Some (true, Some NATTypeSymmetric).
Proof. split; vm_compute; reflexivity. Qed.

(** After a punch failed, a relayed connection is traced with the failed stage when the
    relay was dialed second, and without one when it was raced. *)
Definition singleStack : Env :=
  mkEnv (familySample mapped4 silent) (mkFamilyEnv (Some (ErrExternal "no IPv6")) (fun i => Ok (sampleTID i)) [] [] 0 []) [0]
    (Ok (repeat x01 16)) (Ok (repeat x02 32)) (fun _ _ => Ok (sampleResponse [relay0])) None (Some clientAddr) [Some true]
    (fun _ => joins relay0) [0] false (fun _ => 0%Z).
Theorem relayed_trace_depends_on_race :
  summary (sampleDial singleStack ModeNormal noSockets)
    = Some (Some (mkPunchedConn 4 relay0), [4; 1], [3], Some (Some FailStagePunch, true, Some NATTypeUnknown))
  /\ summary (sampleDial relayedEnv ModeNormal noSockets)
    = Some (Some (mkPunchedConn 5 relay0), [5; 1], [3; 4; 6], Some (None, true, Some NATTypeSymmetric)).
Proof. split; vm_compute; reflexivity. Qed.

(** A relay given as an IPv4-mapped IPv6 address never answers: the address of its
    datagrams is unmapped before it is compared. *)
Theorem mapped_relay_never_joins `{E : Externals} reads relay nonce :
  Is4In6 (ap_Addr relay) = true -> relayJoin reads relay nonce <> Some (inr tt).
Proof.
  intros Hm (data & from & _ & <- & _)%relayJoin_acked. revert Hm. unfold unmapPort. cbn [ap_Addr]. unfold Unmap.
  destruct (Is4In6 (ap_Addr from)) eqn:H; [done|congruence].
Qed.
