(* ===== verification/Hy2Wire.v ===== *)
(** * The wire format of Hysteria 2 (src/third_party/sing-quic/hysteria2/internal/protocol/proxy.go,
    and the messages of src/third_party/sing-quic/hysteria2/packet.go)

    Requests and responses of streams, and datagrams.  Strings are their bytes.  The
    package quicvarint, which reads the variable-length integers of QUIC, is a parameter
    with the laws of RFC 9000, section 16. *)

From S2P Require Import Prelude GoStd Metadata Binary Datagram.
From Stdlib Require Import Strings.Byte.

Open Scope N_scope.

(** [quicvarint.Read] and [quicvarint.Len] *)
Class Quicvarint : Type := {
  qv_Read : Reader N;
  qv_Len : N -> N;
}.

(** The two high bits of the first byte are the binary logarithm of the length, and the
    others the value, most significant first. *)
Definition varintBits (k : nat) : N := 8 * 2 ^ N.of_nat k - 2.
Definition varint (k : nat) (i : N) : list byte := be_encode (2 ^ k) (N.of_nat k * 2 ^ varintBits k + i).

Class QuicvarintLaws (Q : Quicvarint) : Prop := {
  qv_Read_varint : forall k i, (k < 4)%nat -> i < 2 ^ varintBits k -> reads qv_Read (varint k i) i;
  qv_Len_least : forall k i, (k < 4)%nat -> i < 2 ^ varintBits k ->
    (forall j, (j < k)%nat -> 2 ^ varintBits j <= i) -> qv_Len i = 2 ^ N.of_nat k;
}.

Module Hy2Wire.

Definition FrameTypeTCPRequest : N := 0x401.
Definition MaxAddressLength : N := 2048.
Definition MaxMessageLength : N := 2048.
Definition MaxPaddingLength : N := 4096.
Definition MaxUDPSize : nat := 4096.
Definition maxVarInt1 : N := 63.
Definition maxVarInt2 : N := 16383.
Definition maxVarInt4 : N := 1073741823.
Definition maxVarInt8 : N := 4611686018427387903.

(** ** Integers and strings *)

(** The bytes that are written. *)
Definition varintPut (i : N) : result (list byte) :=
  let u8 n := n mod 256 in
  if i <=? maxVarInt1 then Ok [byte_of_N (u8 i)]
  else if i <=? maxVarInt2 then
    Ok [byte_of_N (N.lor (u8 (N.shiftr i 8)) 0x40); byte_of_N (u8 i)]
  else if i <=? maxVarInt4 then
    Ok [byte_of_N (N.lor (u8 (N.shiftr i 24)) 0x80); byte_of_N (u8 (N.shiftr i 16)); byte_of_N (u8 (N.shiftr i 8)); byte_of_N (u8 i)]
  else if i <=? maxVarInt8 then
    Ok [byte_of_N (N.lor (u8 (N.shiftr i 56)) 0xc0); byte_of_N (u8 (N.shiftr i 48)); byte_of_N (u8 (N.shiftr i 40));
        byte_of_N (u8 (N.shiftr i 32)); byte_of_N (u8 (N.shiftr i 24)); byte_of_N (u8 (N.shiftr i 16)); byte_of_N (u8 (N.shiftr i 8));
        byte_of_N (u8 i)]
  else Panic "doesn't fit into 62 bits".

Definition WriteUVariant (value : N) : result (list byte) := varintPut value.
Definition WriteVString (value : list byte) : result (list byte) :=
  b ← WriteUVariant (N.of_nat (length value)); Ok (b ++ value).

Section Wire.
Context {Q : Quicvarint}.

Definition ReadVString : Reader (list byte) :=
  length ← qv_Read;
  if MaxAddressLength <? length then fail (E_New ["invalid address length"]) else ReadFull length.

(** [io.CopyN(io.Discard, r, n)] *)
Definition Discard (n : N) : Reader unit := fun input =>
  if N.of_nat (length input) <? n then Some (Err ErrEOF) else Some (Ok (tt, drop (N.to_nat n) input)).

(** ** Streams *)

(** The type of the frame has been read before. *)
Definition ReadTCPRequest : Reader (list byte) :=
  addrLen ← qv_Read;
  if (addrLen =? 0) || (MaxAddressLength <? addrLen) then fail (E_New ["invalid address length"])
  else
    addrBuf ← ReadFull addrLen;
    paddingLen ← qv_Read;
    if MaxPaddingLength <? paddingLen then fail (E_New ["invalid padding length"])
    else if 0 <? paddingLen then _ ← Discard paddingLen; mret addrBuf
    else mret addrBuf.

Definition WriteTCPRequest (padding addr payload : list byte) : result (list byte) :=
  frameType ← varintPut FrameTypeTCPRequest;
  addrLen ← varintPut (N.of_nat (length addr));
  paddingLen ← varintPut (N.of_nat (length padding));
  Ok (frameType ++ addrLen ++ addr ++ paddingLen ++ padding ++ payload).

Definition ReadTCPResponse : Reader (bool * list byte) :=
  status ← ReadFull 1;
  let ok := bool_decide (status = [x00]) in
  messageLen ← qv_Read;
  if MaxMessageLength <? messageLen then fail (E_New ["invalid message length"])
  else
    message ← ReadFull messageLen;
    paddingLen ← qv_Read;
    if MaxPaddingLength <? paddingLen then fail (E_New ["invalid padding length"])
    else if 0 <? paddingLen then _ ← Discard paddingLen; mret (ok, message)
    else mret (ok, message).

(** [padding]: the bytes that [Extend] leaves in the buffer. *)
Definition WriteTCPResponse (padding : list byte) (ok : bool) (msg payload : list byte) : result (list byte) :=
  let msgLen := N.min (N.of_nat (length msg)) MaxMessageLength in
  message ← WriteVString (take (N.to_nat msgLen) msg);
  paddingLen ← WriteUVariant (N.of_nat (length padding));
  Ok ([if ok then x00 else x01] ++ message ++ paddingLen ++ padding ++ payload).

(** ** Datagrams *)

Record udpMessage : Type := mkUdpMessage {
  sessionID : N;
  packetID : N;
  fragmentID : N;
  fragmentTotal : N;
  destination : list byte;
  data : list byte;
}.

Definition wf_message (m : udpMessage) : Prop :=
  sessionID m < 2 ^ 32 /\ packetID m < 2 ^ 16 /\ fragmentID m < 2 ^ 8 /\ fragmentTotal m < 2 ^ 8
  /\ N.of_nat (length (destination m)) <= MaxAddressLength.

Definition headerSize (m : udpMessage) : Z :=
  8 + Z.of_N (qv_Len (N.of_nat (length (destination m)))) + Z.of_nat (length (destination m)).

(** [common.Must] panics on an error. *)
Definition pack (m : udpMessage) : result (list byte) :=
  destination ← WriteVString (destination m);
  Ok (be_encode 4 (sessionID m) ++ be_encode 2 (packetID m) ++ be_encode 1 (fragmentID m) ++ be_encode 1 (fragmentTotal m)
      ++ destination ++ data m).

Definition readHeader : Reader (N * N * N * N * list byte) :=
  sessionID ← Read_uint32;
  packetID ← (bs ← ReadFull 2; mret (be_decode bs));
  fragmentID ← Read_uint8;
  fragmentTotal ← Read_uint8;
  destination ← ReadVString;
  mret (sessionID, packetID, fragmentID, fragmentTotal, destination).
(** The rest of the datagram is the data. *)
Definition decodeUDPMessage (datagram : list byte) : option (result udpMessage) :=
  match readHeader datagram with
  | None => None
  | Some (Err e) => Some (Err e)
  | Some (Panic msg) => Some (Panic msg)
  | Some (Ok ((sessionID, packetID, fragmentID, fragmentTotal, destination), rest)) =>
      Some (Ok (mkUdpMessage sessionID packetID fragmentID fragmentTotal destination rest))
  end.

(** ** Round trips *)

Context {L : QuicvarintLaws Q}.

Lemma byte_of_N_mod a b : a mod 256 = b mod 256 -> byte_of_N a = byte_of_N b.
Proof. intros H. unfold byte_of_N. by rewrite H. Qed.

Lemma le_encode_high m c i : le_encode (S m) (c * 256 ^ N.of_nat m + i) = le_encode m i ++ [byte_of_N (c + i / 256 ^ N.of_nat m)].
Proof.
  revert i. induction m as [|m IH]; intros i.
  { cbn [le_encode app]. by rewrite N.mul_1_r, N.div_1_r. }
  assert (Hp : 256 ^ N.of_nat (S m) = 256 * 256 ^ N.of_nat m) by (rewrite Nat2N.inj_succ; apply N.pow_succ_r').
  change (le_encode (S (S m)) (c * 256 ^ N.of_nat (S m) + i)) with
    (byte_of_N (c * 256 ^ N.of_nat (S m) + i) :: le_encode (S m) ((c * 256 ^ N.of_nat (S m) + i) / 256)).
  rewrite Hp. replace (c * (256 * 256 ^ N.of_nat m) + i) with ((c * 256 ^ N.of_nat m) * 256 + i) by lia.
  rewrite N.div_add_l, IH, N.Div0.div_div by done. cbn [le_encode app]. f_equal.
  apply byte_of_N_mod. rewrite N.add_comm. apply N.Div0.mod_add.
Qed.

Lemma be_encode_high m c i : be_encode (S m) (c * 256 ^ N.of_nat m + i) = byte_of_N (c + i / 256 ^ N.of_nat m) :: be_encode m i.
Proof. unfold be_encode. by rewrite le_encode_high, rev_app_distr. Qed.

Lemma lor_high : forallb (fun i => (N.lor i 0x40 =? 0x40 + i) && (N.lor i 0x80 =? 0x80 + i) && (N.lor i 0xc0 =? 0xc0 + i))
  (map N.of_nat (seq 0 64)) = true.
Proof. reflexivity. Qed.

Lemma lor_add i : i < 64 -> N.lor i 0x40 = 0x40 + i /\ N.lor i 0x80 = 0x80 + i /\ N.lor i 0xc0 = 0xc0 + i.
Proof.
  intros Hi. pose proof lor_high as H. rewrite forallb_forall in H. specialize (H i).
  rewrite !andb_true_iff, !N.eqb_eq in H. destruct H as [[H1 H2] H3]; [|done].
  apply in_map_iff. exists (N.to_nat i). rewrite N2Nat.id. split; [done|]. apply in_seq. lia.
Qed.

(** The least length that holds a value. *)
Definition varintClass (i : N) : nat :=
  if i <=? maxVarInt1 then 0%nat else if i <=? maxVarInt2 then 1%nat else if i <=? maxVarInt4 then 2%nat else 3%nat.

Lemma varintClass_fits i : i <= maxVarInt8 -> (varintClass i < 4)%nat /\ i < 2 ^ varintBits (varintClass i).
Proof.
  intros Hi. unfold varintClass. destruct (N.leb_spec i maxVarInt1); [|destruct (N.leb_spec i maxVarInt2); [|destruct (N.leb_spec i maxVarInt4)]];
    (split; [lia|]); unfold maxVarInt1, maxVarInt2, maxVarInt4, maxVarInt8 in *.
  - change (2 ^ varintBits 0) with 64. lia.
  - change (2 ^ varintBits 1) with 16384. lia.
  - change (2 ^ varintBits 2) with 1073741824. lia.
  - change (2 ^ varintBits 3) with 4611686018427387904. lia.
Qed.

Lemma byte_mod i : byte_of_N (i mod 256) = byte_of_N i.
Proof. apply byte_of_N_mod. apply N.Div0.mod_mod. Qed.

(** The first byte, with the two high bits. *)
Lemma first_byte i j c : i < 2 ^ (j + 6) -> In c [0x40; 0x80; 0xc0] ->
  byte_of_N (N.lor (N.shiftr i j mod 256) c) = byte_of_N (c + i / 2 ^ j).
Proof.
  intros Hi Hc. rewrite N.shiftr_div_pow2.
  assert (H : i / 2 ^ j < 64) by (apply N.Div0.div_lt_upper_bound; rewrite N.pow_add_r in Hi; exact Hi).
  rewrite N.mod_small by lia. destruct (lor_add _ H) as (H1 & H2 & H3).
  destruct Hc as [<-|[<-|[<-|[]]]]; by rewrite ?H1, ?H2, ?H3.
Qed.

Lemma be_encode_1 i : be_encode 1 i = [byte_of_N i].
Proof. done. Qed.
Lemma be_encode_3 i : be_encode 3 i = [byte_of_N (i / 2 ^ 16); byte_of_N (i / 2 ^ 8); byte_of_N i].
Proof. unfold be_encode. cbn [le_encode rev app]. by rewrite !N.Div0.div_div. Qed.
Lemma be_encode_7 i : be_encode 7 i = [byte_of_N (i / 2 ^ 48); byte_of_N (i / 2 ^ 40); byte_of_N (i / 2 ^ 32);
  byte_of_N (i / 2 ^ 24); byte_of_N (i / 2 ^ 16); byte_of_N (i / 2 ^ 8); byte_of_N i].
Proof. unfold be_encode. cbn [le_encode rev app]. by rewrite !N.Div0.div_div. Qed.

Lemma varintPut_varint i : i <= maxVarInt8 -> varintPut i = Ok (varint (varintClass i) i).
Proof.
  intros Hi. destruct (varintClass_fits i Hi) as [_ Hfit]. unfold varintPut, varintClass in *. cbn zeta.
  destruct (i <=? maxVarInt1); [|destruct (i <=? maxVarInt2); [|destruct (i <=? maxVarInt4); [|rewrite (proj2 (N.leb_le _ _)) by done]]];
    f_equal; rewrite ?byte_mod; unfold varint.
  - done.
  - change (2 ^ 1)%nat with 2%nat. change (N.of_nat 1 * 2 ^ varintBits 1) with (0x40 * 256 ^ N.of_nat 1).
    rewrite be_encode_high, be_encode_1, (first_byte i 8) by (done || simpl; tauto). done.
  - change (2 ^ 2)%nat with 4%nat. change (N.of_nat 2 * 2 ^ varintBits 2) with (0x80 * 256 ^ N.of_nat 3).
    rewrite be_encode_high, be_encode_3, (first_byte i 24), !N.shiftr_div_pow2 by (done || simpl; tauto). done.
  - change (2 ^ 3)%nat with 8%nat. change (N.of_nat 3 * 2 ^ varintBits 3) with (0xc0 * 256 ^ N.of_nat 7).
    rewrite be_encode_high, be_encode_7, (first_byte i 56), !N.shiftr_div_pow2 by (done || simpl; tauto). done.
Qed.

Lemma reads_varint i : i <= maxVarInt8 -> reads qv_Read (varint (varintClass i) i) i.
Proof. intros Hi. destruct (varintClass_fits i Hi). by apply qv_Read_varint. Qed.

Lemma qv_Len_varint i : i <= maxVarInt8 -> qv_Len i = N.of_nat (length (varint (varintClass i) i)).
Proof.
  intros Hi. destruct (varintClass_fits i Hi) as [Hk Hf]. unfold varint. rewrite length_be_encode.
  rewrite (qv_Len_least (varintClass i) i Hk Hf).
  - destruct (varintClass i) as [|[|[|[|k]]]]; [done..|lia].
  - intros j Hj. unfold varintClass in *. unfold maxVarInt1, maxVarInt2, maxVarInt4 in *.
    destruct (N.leb_spec i 63); [lia|]. destruct (N.leb_spec i 16383).
    { destruct j; [|lia]. change (2 ^ varintBits 0) with 64. lia. }
    destruct (N.leb_spec i 1073741823).
    { destruct j as [|[|j]]; [| |lia]; [change (2 ^ varintBits 0) with 64|change (2 ^ varintBits 1) with 16384]; lia. }
    destruct j as [|[|[|j]]]; [| | |lia];
      [change (2 ^ varintBits 0) with 64|change (2 ^ varintBits 1) with 16384|change (2 ^ varintBits 2) with 1073741824]; lia.
Qed.

(** ** Streams come through *)

Lemma reads_Discard (padding : list byte) n : n = N.of_nat (length padding) -> reads (Discard n) padding tt.
Proof.
  intros -> rest. unfold Discard. rewrite length_app, (proj2 (N.ltb_ge _ _)) by lia. by rewrite Nat2N.id, drop_app_length.
Qed.

(** The padding that both formats end with. *)
Lemma reads_padding {A} (a : A) (padding : list byte) : N.of_nat (length padding) <= MaxPaddingLength ->
  reads (paddingLen ← qv_Read;
         if MaxPaddingLength <? paddingLen then fail (E_New ["invalid padding length"])
         else if 0 <? paddingLen then _ ← Discard paddingLen; mret a else mret a)
    (varint (varintClass (N.of_nat (length padding))) (N.of_nat (length padding)) ++ padding) a.
Proof.
  intros Hp. assert (N.of_nat (length padding) <= maxVarInt8) by (unfold MaxPaddingLength, maxVarInt8 in *; lia).
  eapply reads_bind; [by apply reads_varint|]. rewrite (proj2 (N.ltb_ge _ _)) by done.
  destruct (N.ltb_spec 0 (N.of_nat (length padding))) as [Hl|Hl].
  - eapply reads_bind_ret; [by apply reads_Discard|apply reads_ret].
  - destruct padding; [apply reads_ret|simpl in Hl; lia].
Qed.

(** What follows the type of the frame in a request. *)
Lemma WriteTCPRequest_reads padding addr payload :
  (0 < length addr)%nat -> N.of_nat (length addr) <= MaxAddressLength -> N.of_nat (length padding) <= MaxPaddingLength ->
  exists head, WriteTCPRequest padding addr payload = Ok (varint 1 FrameTypeTCPRequest ++ head ++ payload)
    /\ reads ReadTCPRequest head addr.
Proof.
  intros Ha Hm Hp. unfold WriteTCPRequest, MaxAddressLength, MaxPaddingLength in *.
  rewrite !varintPut_varint by (unfold maxVarInt8, FrameTypeTCPRequest; lia). cbn [mbind result_bind].
  exists (varint (varintClass (N.of_nat (length addr))) (N.of_nat (length addr))
    ++ addr ++ varint (varintClass (N.of_nat (length padding))) (N.of_nat (length padding)) ++ padding).
  split; [by rewrite <- !app_assoc|].
  eapply reads_bind; [apply reads_varint; unfold maxVarInt8; lia|].
  rewrite (proj2 (N.eqb_neq _ _)) by lia. rewrite (proj2 (N.ltb_ge _ _)) by (unfold MaxAddressLength; lia). cbn [orb].
  eapply reads_bind; [by apply reads_ReadFull|]. by apply reads_padding.
Qed.

Lemma WriteTCPResponse_reads padding ok msg payload : N.of_nat (length padding) <= MaxPaddingLength ->
  exists head, WriteTCPResponse padding ok msg payload = Ok (head ++ payload)
    /\ reads ReadTCPResponse head (ok, take (N.to_nat MaxMessageLength) msg).
Proof.
  intros Hp. unfold WriteTCPResponse, WriteVString, WriteUVariant.
  set (msgLen := N.to_nat _). assert (Hlen : (length (take msgLen msg) <= 2048)%nat)
    by (rewrite length_take; unfold msgLen, MaxMessageLength; lia).
  rewrite !varintPut_varint by (unfold MaxPaddingLength, maxVarInt8 in *; lia). cbn [mbind result_bind].
  eexists. split; [by rewrite !app_assoc; reflexivity|]. rewrite <- !app_assoc.
  assert (take msgLen msg = take (N.to_nat MaxMessageLength) msg) as <-.
  { unfold msgLen. destruct (N.min_spec (N.of_nat (length msg)) MaxMessageLength) as [[? ->]|[? ->]]; [|done].
    rewrite Nat2N.id, firstn_all, take_ge by lia. done. }
  eapply reads_bind; [by apply reads_ReadFull|]. replace (bool_decide (_ = [x00])) with ok by (by destruct ok).
  eapply reads_bind; [apply reads_varint; unfold maxVarInt8; lia|].
  rewrite (proj2 (N.ltb_ge _ _)) by (unfold MaxMessageLength; lia).
  eapply reads_bind; [by apply reads_ReadFull|]. by apply reads_padding.
Qed.

(** What a client writes to open a stream, a server reads, with the address and nothing
    of the payload consumed, and what a server answers, the client reads: the status, the
    message cut to its greatest length, and nothing of the payload; neither writer
    panics. *)
Theorem hy2_streams_round_trip padding addr ok msg payload :
  (0 < length addr)%nat -> N.of_nat (length addr) <= MaxAddressLength -> N.of_nat (length padding) <= MaxPaddingLength ->
  (exists request rest, WriteTCPRequest padding addr payload = Ok request
     /\ qv_Read request = Some (Ok (FrameTypeTCPRequest, rest)) /\ ReadTCPRequest rest = Some (Ok (addr, payload)))
  /\ (exists response, WriteTCPResponse padding ok msg payload = Ok response
     /\ ReadTCPResponse response = Some (Ok ((ok, take (N.to_nat MaxMessageLength) msg), payload))).
Proof.
  intros Ha Hm Hp. split.
  - destruct (WriteTCPRequest_reads padding addr payload Ha Hm Hp) as (head & -> & Hr).
    exists (varint 1 FrameTypeTCPRequest ++ head ++ payload), (head ++ payload). split; [done|]. split; [|apply Hr].
    apply qv_Read_varint; [lia|done].
  - destruct (WriteTCPResponse_reads padding ok msg payload Hp) as (head & -> & Hr). exists (head ++ payload). split; [done|]. apply Hr.
Qed.

(** ** Datagrams come through *)

Lemma pack_Ok m : wf_message m ->
  pack m = Ok (be_encode 4 (sessionID m) ++ be_encode 2 (packetID m) ++ be_encode 1 (fragmentID m) ++ be_encode 1 (fragmentTotal m)
    ++ (varint (varintClass (N.of_nat (length (destination m)))) (N.of_nat (length (destination m))) ++ destination m) ++ data m).
Proof.
  intros (_ & _ & _ & _ & Hd). unfold pack, WriteVString, WriteUVariant.
  by rewrite varintPut_varint by (unfold MaxAddressLength, maxVarInt8 in *; lia).
Qed.

Lemma length_pack m packet : wf_message m -> pack m = Ok packet -> Z.of_nat (length packet) = (headerSize m + Z.of_nat (length (data m)))%Z.
Proof.
  intros Hm. rewrite pack_Ok by done. intros Hok.
  match type of Hok with Ok ?l = _ => assert (packet = l) as -> by congruence end. destruct Hm as (_ & _ & _ & _ & Hd).
  unfold headerSize. rewrite qv_Len_varint by (unfold MaxAddressLength, maxVarInt8 in *; lia).
  rewrite !length_app, !(length_be_encode _ _). unfold varint. rewrite !length_be_encode. lia.
Qed.

Lemma reads_header m : wf_message m ->
  reads readHeader (be_encode 4 (sessionID m) ++ be_encode 2 (packetID m) ++ be_encode 1 (fragmentID m) ++ be_encode 1 (fragmentTotal m)
    ++ varint (varintClass (N.of_nat (length (destination m)))) (N.of_nat (length (destination m))) ++ destination m)
    (sessionID m, packetID m, fragmentID m, fragmentTotal m, destination m).
Proof.
  intros (Hs & Hp & Hi & Ht & Hd). unfold readHeader.
  eapply reads_bind; [by apply reads_uint32|]. eapply reads_bind; [by apply (reads_fixed 2 (packetID m) id)|].
  eapply reads_bind; [by apply (reads_fixed 1 (fragmentID m) id)|]. eapply reads_bind; [by apply (reads_fixed 1 (fragmentTotal m) id)|].
  eapply reads_bind_ret; [|apply reads_ret].
  eapply reads_bind; [apply reads_varint; unfold MaxAddressLength, maxVarInt8 in *; lia|].
  rewrite (proj2 (N.ltb_ge _ _)) by done. by apply reads_ReadFull.
Qed.

Lemma decode_pack m : wf_message m -> exists packet, pack m = Ok packet /\ decodeUDPMessage packet = Some (Ok m).
Proof.
  intros Hm. rewrite (pack_Ok m Hm). eexists. split; [done|]. unfold decodeUDPMessage.
  pose proof (reads_header m Hm (data m)) as H. rewrite <- !app_assoc in H. rewrite <- !app_assoc, H. by destruct m.
Qed.

End Wire.

End Hy2Wire.

(** An implementation of quicvarint that satisfies the laws. *)
Definition sampleVarint : Quicvarint := {|
  qv_Read := fun input =>
    match input with
    | [] => Some (Err ErrEOF)
    | b :: _ =>
        let k := N.to_nat (Byte.to_N b / 64) in
        if (length input <? 2 ^ k)%nat then Some (Err ErrEOF)
        else Some (Ok (be_decode (take (2 ^ k) input) - N.of_nat k * 2 ^ varintBits k, drop (2 ^ k) input))
    end;
  qv_Len := fun i => if i <? 2 ^ varintBits 0 then 1 else if i <? 2 ^ varintBits 1 then 2 else if i <? 2 ^ varintBits 2 then 4 else 8;
|}.

Lemma sampleVarint_laws : QuicvarintLaws sampleVarint.
Proof.
  split.
  - intros k i Hk Hi rest. unfold varint.
    assert (H : exists m, (2 ^ k)%nat = S m /\ N.of_nat k * 2 ^ varintBits k = (N.of_nat k * 64) * 256 ^ N.of_nat m
      /\ 2 ^ varintBits k = 64 * 256 ^ N.of_nat m).
    { destruct k as [|[|[|[|k]]]]; [exists 0%nat|exists 1%nat|exists 3%nat|exists 7%nat|lia]; repeat split. }
    destruct H as (m & Hm & HK & Hb). rewrite Hm, HK.
    assert (Hq : i / 256 ^ N.of_nat m < 64) by (apply N.Div0.div_lt_upper_bound; lia).
    assert (Hdec : be_decode (be_encode (S m) (N.of_nat k * 64 * 256 ^ N.of_nat m + i)) = N.of_nat k * 64 * 256 ^ N.of_nat m + i).
    { apply be_decode_encode. rewrite Nat2N.inj_succ, N.pow_succ_r'. rewrite Hb in Hi. nia. }
    pose proof (length_be_encode (S m) (N.of_nat k * 64 * 256 ^ N.of_nat m + i)) as Hlen.
    rewrite Hy2Wire.be_encode_high in *. cbn [app qv_Read sampleVarint].
    assert (Hd : N.to_nat (Byte.to_N (byte_of_N (N.of_nat k * 64 + i / 256 ^ N.of_nat m)) / 64) = k).
    { rewrite to_N_byte_of_N, N.mod_small by nia. rewrite N.div_add_l by done. rewrite N.div_small by done. lia. }
    rewrite Hd, Hm. rewrite app_comm_cons. rewrite length_app, Hlen, (proj2 (Nat.ltb_ge _ _)) by lia.
    rewrite (take_app_length' _ _ (S m)), (drop_app_length' _ _ (S m)) by done. rewrite Hdec, HK. do 3 f_equal. lia.
  - intros k i Hk Hi Hmin. cbn [qv_Len sampleVarint].
    destruct k as [|[|[|[|k]]]]; [| | | |lia].
    + by rewrite (proj2 (N.ltb_lt _ _)).
    + rewrite (proj2 (N.ltb_ge _ _)) by (apply Hmin; lia). by rewrite (proj2 (N.ltb_lt _ _)).
    + rewrite !(proj2 (N.ltb_ge _ _)) by (apply Hmin; lia). by rewrite (proj2 (N.ltb_lt _ _)).
    + by rewrite !(proj2 (N.ltb_ge _ _)) by (apply Hmin; lia).
Qed.

Lemma hy2_streams_round_trip_witness :
  exists response, Hy2Wire.WriteTCPResponse [x00] false [x6e; x6f] [x2a] = Ok response
    /\ Hy2Wire.ReadTCPResponse (Q := sampleVarint) response = Some (Ok ((false, [x6e; x6f]), [x2a])).
Proof.
  refine (proj2 (Hy2Wire.hy2_streams_round_trip (Q := sampleVarint) (L := sampleVarint_laws) [x00] [x61] false [x6e; x6f] [x2a] _ _ _)).
  - simpl. lia.
  - done.
  - done.
Defined.
