(* ===== verification/QuicSniff.v ===== *)
(** * The QUIC sniffer (src/common/sniff/quic.go, src/common/sniff/quic_blacklist.go,
    src/common/sniff/internal/qtls)

    An Initial packet is opened with the keys that anybody can derive from its connection
    identifier; the CRYPTO frames of one or more packets are put together to a client hello.  The
    cryptographic primitives are parameters. *)

From S2P Require Import Prelude GoStd Metadata Binary Rules RuleActions Route Datagram Hy2Wire Sniff Ja3.
From Stdlib Require Import Strings.Byte.
From stdpp Require Import list.
Import Rules RuleActions Sniff.

Open Scope N_scope.

(** golang.org/x/crypto/hkdf with SHA-256, crypto/aes and crypto/cipher: [gcm_Open] of a key, a
    nonce, a ciphertext and the additional data. *)
Class QuicCrypto : Type := {
  hkdf_Extract : list byte -> list byte -> list byte;
  hkdf_Expand : list byte -> list byte -> nat -> list byte;
  aes_Encrypt : list byte -> list byte -> list byte;
  gcm_Open : list byte -> list byte -> list byte -> list byte -> result (list byte);
}.

Module QuicSniff.

Definition VersionDraft29 : N := 0xff00001d.
Definition Version1 : N := 0x1.
Definition Version2 : N := 0x6b3343cf.

Definition SaltOld : list byte := byte_of_N <$> [0xaf; 0xbf; 0xec; 0x28; 0x99; 0x93; 0xd2; 0x4c; 0x9e; 0x97; 0x86; 0xf1; 0x9c; 0x61; 0x11; 0xe0; 0x43; 0x90; 0xa8; 0x99].
Definition SaltV1 : list byte := byte_of_N <$> [0x38; 0x76; 0x2c; 0xf7; 0xf5; 0x59; 0x34; 0xb3; 0x4d; 0x17; 0x9a; 0xe6; 0xa4; 0xc8; 0x0c; 0xad; 0xcc; 0xbb; 0x7f; 0x0a].
Definition SaltV2 : list byte := byte_of_N <$> [0x0d; 0xed; 0xe3; 0xde; 0xf7; 0x00; 0xa6; 0xdb; 0x81; 0x93; 0x81; 0xbe; 0x6e; 0x26; 0x9d; 0xcb; 0xf9; 0xbd; 0x2e; 0xd9].

Definition ClientChromium : string := "chromium".
Definition ClientSafari : string := "safari".
Definition ClientFirefox : string := "firefox".
Definition ClientQUICGo : string := "quic-go".
Definition ClientUnknown : string := "unknown".

(** ** Reading *)

(** [ReadByte] of a [bytes.Reader]. *)
Definition ReadByte (r : list byte) : result (N * list byte) := match r with [] => Err ErrEOF | b :: r => Ok (Byte.to_N b, r) end.
(** [io.ReadFull] and [io.CopyN(io.Discard, ...)]. *)
Definition ReadFull (n : nat) (r : list byte) : result (list byte * list byte) :=
  if (length r <? n)%nat then Err (if (0 <? length r)%nat then ErrUnexpectedEOF else ErrEOF) else Ok (take n r, drop n r).
Definition Discard (n : N) (r : list byte) : result (list byte) :=
  if N.of_nat (length r) <? n then Err ErrEOF else Ok (drop (N.to_nat n) r).

(** qtls.ReadUvarint *)
Definition ReadUvarint (r : list byte) : result (N * list byte) :=
  '(firstByte, r) ← ReadByte r;
  let len := N.shiftl 1 (N.shiftr (N.land firstByte 0xc0) 6) in
  let b1 := N.land firstByte (0xff - 0xc0) in
  if len =? 1 then Ok (b1, r)
  else
    '(b2, r) ← ReadByte r;
    if len =? 2 then Ok (b2 + N.shiftl b1 8, r)
    else
      '(b3, r) ← ReadByte r;
      '(b4, r) ← ReadByte r;
      if len =? 4 then Ok (b4 + N.shiftl b3 8 + N.shiftl b2 16 + N.shiftl b1 24, r)
      else
        '(b5, r) ← ReadByte r;
        '(b6, r) ← ReadByte r;
        '(b7, r) ← ReadByte r;
        '(b8, r) ← ReadByte r;
        Ok (b8 + N.shiftl b7 8 + N.shiftl b6 16 + N.shiftl b5 24 + N.shiftl b4 32 + N.shiftl b3 40 + N.shiftl b2 48 + N.shiftl b1 56, r).

(** ** The packet *)

Section Packet.
Context `{QuicCrypto}.

(** qtls.HKDFExpandLabel; [out] has the length that was asked for. *)
Definition HKDFExpandLabel (secret : list byte) (label : string) (n : nat) : result (list byte) :=
  let b := be_encode 2 (N.of_nat n) ++ [byte_of_N (6 + N.of_nat (String.length label))] ++ bytes_of_string "tls13 " ++ bytes_of_string label ++ [x00] in
  let out := hkdf_Expand secret b n in
  if (length out =? n)%nat then Ok out else Panic "quic: HKDF-Expand-Label invocation failed unexpectedly".

(** qtls.AEADAESGCMTLS13 and its [Open] with an 8-byte nonce. *)
Definition aead_Open (key nonceMask nonce ciphertext additionalData : list byte) : result (list byte) :=
  if negb (length nonceMask =? 12)%nat then Panic "tls: internal error: wrong nonce length"
  else gcm_Open key (take 4 nonceMask ++ zip_with byte_xor (drop 4 nonceMask) nonce) ciphertext additionalData.

(** What the long header says: version, destination connection identifier, where the packet number
    starts, and the length of the rest. *)
Record header : Type := mkHeader { versionNumber : N; destConnID : list byte; hdrLen : nat; packetLen : N; pnBytes : list byte }.

Definition parseHeader (packet : list byte) : result header :=
  '(typeByte, r) ← ReadByte packet;
  if N.land typeByte 0x40 =? 0 then Err (E_New ["bad type byte"])
  else
    '(versionBytes, r) ← ReadFull 4 r;
    let versionNumber := be_decode versionBytes in
    if negb (existsb (N.eqb versionNumber) [VersionDraft29; Version1; Version2]) then Err (E_New ["bad version"])
    else
      let packetType := N.shiftr (N.land typeByte 0x30) 4 in
      if ((packetType =? 0) && (versionNumber =? Version2)) || ((packetType =? 2) && negb (versionNumber =? Version2)) || (2 <? packetType)
      then Err (E_New ["bad packet type"])
      else
        '(destConnIDLen, r) ← ReadByte r;
        if (destConnIDLen =? 0) || (20 <? destConnIDLen) then Err (E_New ["bad destination connection id length"])
        else
          '(destConnID, r) ← ReadFull (N.to_nat destConnIDLen) r;
          '(srcConnIDLen, r) ← ReadByte r;
          r ← Discard srcConnIDLen r;
          '(tokenLen, r) ← ReadUvarint r;
          r ← Discard tokenLen r;
          '(packetLen, r) ← ReadUvarint r;
          let hdrLen := (length packet - length r)%nat in
          if N.of_nat (length packet) <? N.of_nat hdrLen + packetLen then Err ErrInvalid
          else
            r ← Discard 4 r;
            '(pnBytes, _) ← ReadFull 16 r;
            Ok (mkHeader versionNumber destConnID hdrLen packetLen pnBytes).

Definition xor_at (i : nat) (k : byte) (l : list byte) : result (list byte) := b ← index i l; Ok (<[i := byte_xor b k]> l).

(** The header protection: the first byte and four bytes of the packet number are uncovered. *)
Definition unprotect (h : header) (mask packet : list byte) : result (list byte) :=
  m0 ← index 0 mask;
  newPacket ← xor_at 0 (byte_of_N (N.land (Byte.to_N m0) 0xf)) packet;
  _ ← sub_slice (hdrLen h) (hdrLen h + 4) newPacket;
  foldl (fun acc i => p ← acc; m ← index (S i) mask; xor_at (hdrLen h + i) m p) (Ok newPacket) (seq 0 4).

Definition labels (version : N) : string * string * string :=
  if version =? Version2 then ("quicv2 hp", "quicv2 key", "quicv2 iv") else ("quic hp", "quic key", "quic iv").
Definition salt (version : N) : list byte := if version =? Version1 then SaltV1 else if version =? Version2 then SaltV2 else SaltOld.

(** The decrypted payload, and the bytes behind it in the same array. *)
Definition openInitial (packet : list byte) : result (list byte * list byte) :=
  h ← parseHeader packet;
  let '(hpLabel, keyLabel, ivLabel) := labels (versionNumber h) in
  let initialSecret := hkdf_Extract (destConnID h) (salt (versionNumber h)) in
  secret ← HKDFExpandLabel initialSecret "client in" 32;
  hpKey ← HKDFExpandLabel secret hpLabel 16;
  let mask := aes_Encrypt hpKey (pnBytes h) in
  newPacket ← unprotect h mask packet;
  first ← index 0 newPacket;
  let packetNumberLength := N.to_nat (N.land (Byte.to_N first) 3 + 1) in
  if packetLen h <? N.of_nat packetNumberLength then Err ErrInvalid
  else
    number ← sub_slice (hdrLen h) (hdrLen h + packetNumberLength) newPacket;
    let packetNumber := be_decode number in
    let extHdrLen := (hdrLen h + packetNumberLength)%nat in
    let newPacket := take extHdrLen newPacket ++ drop extHdrLen packet in
    let end_ := (N.to_nat (packetLen h) + hdrLen h)%nat in
    data ← sub_slice extHdrLen end_ newPacket;
    key ← HKDFExpandLabel secret keyLabel 16;
    iv ← HKDFExpandLabel secret ivLabel 12;
    decrypted ← aead_Open key iv (be_encode 8 packetNumber) data (take extHdrLen newPacket);
    Ok (decrypted, drop (extHdrLen + length decrypted) newPacket).

End Packet.

(** ** Frames *)

Definition frameTypePadding : N := 0x00.
Definition frameTypePing : N := 0x01.
Definition frameTypeAck : N := 0x02.
Definition frameTypeAck2 : N := 0x03.
Definition frameTypeCrypto : N := 0x06.
Definition frameTypeConnectionClose : N := 0x1c.

(** [qCryptoFragment]: offset, length and payload. *)
Abbreviation fragment := (N * N * list byte)%type.

(** Variable-length integers that are not used. *)
Fixpoint skipUvarints (n : nat) (r : list byte) : result (list byte) :=
  match n with
  | O => Ok r
  | S n => '(_, r) ← ReadUvarint r; skipUvarints n r
  end.
(** The loop over the ranges of an ACK frame; every range takes bytes, so that the fuel is never
    used up before them. *)
Fixpoint skipRanges (fuel : nat) (n : N) (r : list byte) : result (list byte) :=
  if n =? 0 then Ok r
  else
    match fuel with
    | O => Err ErrEOF
    | S fuel => r ← skipUvarints 2 r; skipRanges fuel (n - 1) r
    end.

(** One frame behind its type, in a payload with the bytes [tail] behind it in the array. *)
Definition parseFrame (frameType : N) (r tail : list byte) : result (option fragment * list byte) :=
  if (frameType =? frameTypePadding) || (frameType =? frameTypePing) then Ok (None, r)
  else if (frameType =? frameTypeAck) || (frameType =? frameTypeAck2) then
    r ← skipUvarints 2 r;
    '(ackRangeCount, r) ← ReadUvarint r;
    r ← skipUvarints 1 r;
    r ← skipRanges (length r) ackRangeCount r;
    r ← (if frameType =? frameTypeAck2 then skipUvarints 3 r else Ok r);
    Ok (None, r)
  else if frameType =? frameTypeCrypto then
    '(offset, r) ← ReadUvarint r;
    '(length_, r) ← ReadUvarint r;
    if N.of_nat (length (r ++ tail)) <? length_ then Panic "slice bounds out of range"
    else Ok (Some (offset, length_, take (N.to_nat length_) (r ++ tail)), drop (N.to_nat length_) r)
  else if frameType =? frameTypeConnectionClose then
    r ← skipUvarints 2 r;
    '(length_, r) ← ReadUvarint r;
    Ok (None, if N.of_nat (length r) <=? length_ then [] else drop (N.to_nat length_) r)
  else Err ErrInvalid.

(** The types of the frames and the fragments, in order. *)
Fixpoint parseFrames (fuel : nat) (r tail : list byte) : option (result (list N * list fragment)) :=
  match r, fuel with
  | [], _ => Some (Ok ([], []))
  | _, O => None
  | b :: r, S fuel =>
      match parseFrame (Byte.to_N b) r tail with
      | Err err => Some (Err err)
      | Panic msg => Some (Panic msg)
      | Ok (fr, r) =>
          option_map (fun rest => '(types, fragments) ← rest; Ok (Byte.to_N b :: types, option_list fr ++ fragments)) (parseFrames fuel r tail)
      end
  end.

(** ** The hello *)

(** The loop [find]: the fragments that follow one another; [None] when it has not ended. *)
Fixpoint assemble (fuel : nat) (index : N) (fragments : list fragment) : option (list byte) :=
  match list_find (fun fr => fr.1.1 = index) fragments with
  | None => Some []
  | Some (_, (offset, length_, payload)) =>
      match fuel with
      | O => None
      | S fuel => option_map (app payload) (assemble fuel (u64 (offset + length_)) fragments)
      end
  end.

(** [buffer.Bytes()]; every fragment is written at most once, so that the buffer has room for them. *)
Definition helloBuffer (fuel : nat) (fragments : list fragment) : option (list byte) :=
  let frameLen := foldl (fun n fr => u64 (n + fr.1.2)) 0 fragments in
  option_map (fun payload => x16 :: be_encode 2 0x0303 ++ be_encode 2 (frameLen mod 2 ^ 16) ++ payload) (assemble fuel 0 fragments).

Definition isZero (l : list N) : bool := forallb (N.eqb 0) l.
Definition count (l : list N) (value : N) : nat := length (filter (fun x => x = value) l).

Definition isQUICGo (fingerprint : Ja3.ClientHello) : bool :=
  existsb (N.eqb 0x11EC) (Ja3.EllipticCurves fingerprint) || existsb (N.eqb 0xFF01) (Ja3.Extensions fingerprint).

Definition grease (l : list N) : bool := match l with v :: _ => N.land v Ja3.GreaseBitmask =? 0x0A0A | [] => false end.

Definition safari (j : Ja3.ClientHello) : bool :=
  ((length (Ja3.Versions j) =? 2)%nat && grease (Ja3.Versions j) && (length (Ja3.EllipticCurves j) =? 5)%nat && grease (Ja3.EllipticCurves j))
  || bool_decide (Ja3.CipherSuites j = [0x1302] /\ Ja3.EllipticCurves j = [0x1d] /\ Ja3.SignatureAlgorithms j = [0x0403]).

(** The client, from the types of the frames of the last packet and the hello. *)
Definition guessClient (frameTypeList : list N) (j : Ja3.ClientHello) : result string :=
  if (length frameTypeList =? 1)%nat then Ok ClientFirefox
  else
    match frameTypeList with
    | [] => Panic "index out of range"
    | first :: rest =>
        if (first =? frameTypeCrypto) && isZero rest && safari j then Ok ClientSafari
        else if bool_decide (last frameTypeList = Some frameTypeCrypto) && isZero (removelast frameTypeList) then Ok ClientQUICGo
        else if (1 <? count frameTypeList frameTypeCrypto)%nat || (0 <? count frameTypeList frameTypePing)%nat
        then Ok (if isQUICGo j then ClientQUICGo else ClientChromium)
        else Ok ClientUnknown
    end.

Section Sniffer.
Context `{SniffLib} `{QuicCrypto}.

(** Behind the decryption: the frames of this packet and what earlier packets left. *)
Definition sniffFrames (fuel : nat) (md : InboundContext) (frameTypeList : list N) (fragments : list fragment) : option (result (InboundContext * option error)) :=
  let fragments := fragments ++ default [] (SniffContext md) in
  match helloBuffer fuel fragments with
  | None => None
  | Some buffer =>
      let md := {| md with SniffContext := None; Protocol := ProtocolQUIC |} in
      match Ja3.Compute buffer with
      | None => None
      | Some (Panic msg) => Some (Panic msg)
      | Some (Err err) => Some (Ok ({| md with SniffContext := Some fragments |}, Some (E_Cause1 ErrNeedMoreData err)))
      | Some (Ok fingerprint) =>
          let md := {| md with Domain := Ja3.ServerName fingerprint |} in
          if bool_decide (Client md = "")
          then Some (client ← guessClient frameTypeList fingerprint; Ok ({| md with Client := client |}, None))
          else Some (Ok (md, None))
      end
  end.

Definition QUICClientHello (fuel : nat) (md : InboundContext) (packet : list byte) : option (result (InboundContext * option error)) :=
  match openInitial packet with
  | Panic msg => Some (Panic msg)
  | Err err => Some (Ok (md, Some err))
  | Ok (decrypted, tail) =>
      match parseFrames (length decrypted) decrypted tail with
      | None => None
      | Some (Panic msg) => Some (Panic msg)
      | Some (Err err) => Some (Ok (md, Some err))
      | Some (Ok (frameTypeList, fragments)) => sniffFrames fuel md frameTypeList fragments
      end
  end.

End Sniffer.

(** ** Integers *)

(** The two high bits of the first byte are the class, the others belong to the number. *)
Lemma byte_high b : N.shiftr (N.land (Byte.to_N b) 0xc0) 6 = Byte.to_N b / 64 /\ Byte.to_N b = Byte.to_N b / 64 * 64 + N.land (Byte.to_N b) 0x3f.
Proof. by destruct b. Qed.

(** What is read is the big-endian number without the class. *)
Lemma ReadUvarint_bytes b l rest k : (k < 4)%nat -> Byte.to_N b / 64 = N.of_nat k -> length (b :: l) = (2 ^ k)%nat ->
  ReadUvarint (b :: l ++ rest) = Ok (be_decode (b :: l) - N.of_nat k * 2 ^ varintBits k, rest).
Proof.
  intros Hk Hb Hl. destruct (byte_high b) as [Hb' Hsplit]. rewrite Hb in Hb', Hsplit.
  unfold ReadUvarint. cbn [ReadByte mbind result_bind]. rewrite Hb'. change (0xff - 0xc0) with 0x3f.
  revert Hsplit. generalize (N.land (Byte.to_N b) 0x3f). intros b1 Hb1.
  destruct k as [|[|[|[|k]]]]; [| | | |lia];
    cbn [length Nat.pow Nat.mul Nat.add] in Hl; simplify_eq;
    repeat match goal with H : length ?l = _ |- _ => is_var l; destruct l; simpl in H; simplify_eq end; cbn -[N.shiftl be_decode varintBits N.pow];
    do 2 f_equal; rewrite ?N.shiftl_mul_pow2; unfold be_decode; cbn -[N.mul N.add N.sub Byte.to_N N.pow varintBits]; rewrite Hb1;
    match goal with |- context [N.of_nat ?k * 2 ^ varintBits ?k] => let v := eval vm_compute in (N.of_nat k * 2 ^ varintBits k) in change (N.of_nat k * 2 ^ varintBits k) with v end; lia.
Qed.

(** The integers that RFC 9000 encodes are read. *)
Lemma ReadUvarint_varint k i rest : (k < 4)%nat -> i < 2 ^ varintBits k -> ReadUvarint (varint k i ++ rest) = Ok (i, rest).
Proof.
  intros Hk Hi. unfold varint.
  assert (H : exists m, (2 ^ k)%nat = S m /\ 2 ^ varintBits k = 64 * 256 ^ N.of_nat m).
  { destruct k as [|[|[|[|k]]]]; [exists 0%nat|exists 1%nat|exists 3%nat|exists 7%nat|lia]; repeat split. }
  destruct H as (m & Hm & Hb). assert (Hq : i / 256 ^ N.of_nat m < 64) by (apply N.Div0.div_lt_upper_bound; lia).
  assert (HK : N.of_nat k * 2 ^ varintBits k + i = (N.of_nat k * 64) * 256 ^ N.of_nat m + i) by (rewrite Hb; lia).
  assert (Hdec : be_decode (be_encode (2 ^ k) (N.of_nat k * 2 ^ varintBits k + i)) = N.of_nat k * 2 ^ varintBits k + i).
  { apply be_decode_encode. rewrite Hm, Nat2N.inj_succ, N.pow_succ_r', HK. rewrite Hb in Hi. nia. }
  pose proof (length_be_encode (2 ^ k) (N.of_nat k * 2 ^ varintBits k + i)) as Hlen.
  assert (E : be_encode (2 ^ k) (N.of_nat k * 2 ^ varintBits k + i) = byte_of_N (N.of_nat k * 64 + i / 256 ^ N.of_nat m) :: be_encode m i)
    by (rewrite Hm, HK; apply Hy2Wire.be_encode_high).
  rewrite E in Hdec, Hlen |- *. cbn [app]. rewrite (ReadUvarint_bytes _ _ _ k); [rewrite Hdec; do 2 f_equal; lia|done| |done].
  rewrite to_N_byte_of_N, N.mod_small by lia. rewrite N.div_add_l, N.div_small by done. lia.
Qed.

Lemma ReadByte_inv r b r' : ReadByte r = Ok (b, r') -> b < 256 /\ exists c, r = c :: r' /\ Byte.to_N c = b.
Proof. destruct r as [|c r]; [done|]. cbn. intros [= <- <-]. split; [apply to_N_lt|eauto]. Qed.
Lemma ReadByte_total r : not_panic (ReadByte r).
Proof. by destruct r. Qed.

Lemma ReadUvarint_total r : not_panic (ReadUvarint r).
Proof.
  unfold ReadUvarint. repeat (apply not_panic_bind; [apply ReadByte_total|intros [? ?] _]; try (destruct (_ =? _); [done|])). done.
Qed.

(** Numbers have at most 62 bits, and take at least a byte. *)
Lemma ReadUvarint_inv r i r' : ReadUvarint r = Ok (i, r') -> i < 2 ^ 62 /\ exists a, r = a ++ r' /\ (0 < length a)%nat.
Proof.
  unfold ReadUvarint. intros ([b1 r1] & (_ & c1 & -> & <-)%ReadByte_inv & E)%bind_Ok_inv. change (0xff - 0xc0) with 0x3f in E.
  assert (H1 : N.land (Byte.to_N c1) 0x3f < 64) by (by destruct c1). revert H1 E. generalize (N.land (Byte.to_N c1) 0x3f). intros b1 H1 E.
  destruct (_ =? 1); [injection E as <- <-; split; [lia|exists [c1]; split; [done|cbn; lia]]|].
  apply bind_Ok_inv in E as ([b2 r2] & (H2 & c2 & -> & _)%ReadByte_inv & E).
  destruct (_ =? 2); [injection E as <- <-; rewrite ?N.shiftl_mul_pow2; split; [lia|exists [c1; c2]; split; [done|cbn; lia]]|].
  apply bind_Ok_inv in E as ([b3 r3] & (H3 & c3 & -> & _)%ReadByte_inv & E). apply bind_Ok_inv in E as ([b4 r4] & (H4 & c4 & -> & _)%ReadByte_inv & E).
  destruct (_ =? 4); [injection E as <- <-; rewrite ?N.shiftl_mul_pow2; split; [lia|exists [c1; c2; c3; c4]; split; [done|cbn; lia]]|].
  apply bind_Ok_inv in E as ([b5 r5] & (H5 & c5 & -> & _)%ReadByte_inv & E). apply bind_Ok_inv in E as ([b6 r6] & (H6 & c6 & -> & _)%ReadByte_inv & E).
  apply bind_Ok_inv in E as ([b7 r7] & (H7 & c7 & -> & _)%ReadByte_inv & E). apply bind_Ok_inv in E as ([b8 r8] & (H8 & c8 & -> & _)%ReadByte_inv & E).
  injection E as <- <-. rewrite ?N.shiftl_mul_pow2. split; [lia|exists [c1; c2; c3; c4; c5; c6; c7; c8]; split; [done|cbn; lia]].
Qed.

(** ** Opening never panics *)

(** What the documentation of the packages says: HKDF gives up to 255 blocks, a cipher works on its block, and
    [Open] only panics on nonces of another length and returns at most as many bytes as it was given. *)
Class QuicCryptoLaws `{QuicCrypto} : Prop := {
  hkdf_Expand_length secret info n : (n <= 255 * 32)%nat -> length (hkdf_Expand secret info n) = n;
  aes_Encrypt_length key block : length block = 16%nat -> length (aes_Encrypt key block) = 16%nat;
  gcm_Open_total key nonce ciphertext ad : length nonce = 12%nat -> not_panic (gcm_Open key nonce ciphertext ad);
  gcm_Open_length key nonce ciphertext ad plain : gcm_Open key nonce ciphertext ad = Ok plain -> (length plain <= length ciphertext)%nat;
}.

Section Opening.
Context `{QuicCryptoLaws}.

Lemma ReadByte_length r b r' : ReadByte r = Ok (b, r') -> (length r' <= length r)%nat.
Proof. intros (_ & c & -> & _)%ReadByte_inv. cbn. lia. Qed.
Lemma ReadFull_inv n r a r' : ReadFull n r = Ok (a, r') -> length a = n /\ r = a ++ r'.
Proof.
  unfold ReadFull. destruct (Nat.ltb_spec (length r) n); [done|]. intros [= <- <-]. rewrite length_take, take_drop. split; [lia|done].
Qed.
Lemma ReadFull_total n r : not_panic (ReadFull n r).
Proof. unfold ReadFull. by destruct (_ <? _)%nat. Qed.
Lemma Discard_inv n r r' : Discard n r = Ok r' -> (length r' + N.to_nat n = length r)%nat.
Proof. unfold Discard. destruct (N.ltb_spec (N.of_nat (length r)) n); [done|]. intros [= <-]. rewrite length_drop. lia. Qed.
Lemma Discard_total n r : not_panic (Discard n r).
Proof. unfold Discard. by destruct (_ <? _). Qed.

Lemma parseHeader_total packet : not_panic (parseHeader packet).
Proof.
  unfold parseHeader.
  repeat first
    [ done | apply not_panic_bind; [first [apply ReadByte_total|apply ReadFull_total|apply Discard_total|apply ReadUvarint_total]|intros ? _]
    | match goal with |- not_panic (match ?x with pair _ _ => _ end) => destruct x end
    | match goal with |- not_panic (if ?b then _ else _) => destruct b end ].
Qed.

(** The packet number and the sample behind it lie in the packet, and so does what the length promises. *)
Lemma parseHeader_inv packet hd : parseHeader packet = Ok hd ->
  (hdrLen hd + 20 <= length packet)%nat /\ (hdrLen hd + N.to_nat (packetLen hd) <= length packet)%nat /\ length (pnBytes hd) = 16%nat.
Proof.
  unfold parseHeader. intros ([b r1] & H1%ReadByte_length & E)%bind_Ok_inv. destruct (_ =? 0); [done|]. apply bind_Ok_inv in E as ([v r2] & [_ H2]%ReadFull_inv & E).
  destruct (negb _); [done|]. destruct (_ || _ || _); [done|]. apply bind_Ok_inv in E as ([n r3] & H3%ReadByte_length & E). destruct (_ || _); [done|].
  apply bind_Ok_inv in E as ([d r4] & [_ H4]%ReadFull_inv & E). apply bind_Ok_inv in E as ([sl r5] & H5%ReadByte_length & E).
  apply bind_Ok_inv in E as (r6 & H6%Discard_inv & E). apply bind_Ok_inv in E as ([t r7] & (_ & u & H7 & _)%ReadUvarint_inv & E).
  apply bind_Ok_inv in E as (r8 & H8%Discard_inv & E). apply bind_Ok_inv in E as ([pl r9] & (_ & w & H9 & _)%ReadUvarint_inv & E).
  assert (Hshort : (length r9 <= length packet)%nat) by (subst; rewrite ?length_app in *; lia). clear - Hshort E.
  destruct (N.ltb_spec (N.of_nat (length packet)) (N.of_nat (length packet - length r9) + pl)) as [|Hfit]; [done|].
  apply bind_Ok_inv in E as (r10 & H10%Discard_inv & E). apply bind_Ok_inv in E as ([pn r11] & [Hpn ->]%ReadFull_inv & [= <-]).
  cbn. rewrite length_app, Hpn in H10. repeat split; lia.
Qed.

Lemma HKDFExpandLabel_Ok secret label n : (n <= 255 * 32)%nat -> exists out, HKDFExpandLabel secret label n = Ok out /\ length out = n.
Proof.
  intros Hn. unfold HKDFExpandLabel. pose proof (hkdf_Expand_length secret (be_encode 2 (N.of_nat n) ++ [byte_of_N (6 + N.of_nat (String.length label))]
    ++ bytes_of_string "tls13 " ++ bytes_of_string label ++ [x00]) n Hn) as Hl. rewrite Hl, Nat.eqb_refl. eauto.
Qed.

Lemma index_Ok {A} i (l : list A) : (i < length l)%nat -> exists x, index i l = Ok x.
Proof. intros [x Hx]%lookup_lt_is_Some_2. exists x. unfold index. by rewrite Hx. Qed.

Lemma xor_at_Ok i k l : (i < length l)%nat -> exists l', xor_at i k l = Ok l' /\ length l' = length l.
Proof. intros [b Hb]%index_Ok. unfold xor_at. rewrite Hb. cbn. eexists. split; [done|]. apply length_insert. Qed.

Lemma unprotect_Ok hd mask packet : length mask = 16%nat -> (hdrLen hd + 20 <= length packet)%nat ->
  exists newPacket, unprotect hd mask packet = Ok newPacket /\ length newPacket = length packet.
Proof.
  intros Hm Hp. unfold unprotect. destruct (index_Ok 0 mask) as [m0 ->]; [lia|]. cbn [mbind result_bind].
  destruct (xor_at_Ok 0 (byte_of_N (N.land (Byte.to_N m0) 0xf)) packet) as (p & -> & Hl); [lia|]. cbn [mbind result_bind].
  rewrite sub_slice_Ok by lia. cbn [mbind result_bind]. rewrite <- Hl in Hp |- *. clear Hl.
  assert (Hgen : forall idx p', length p' = length p -> Forall (fun i => (i < 4)%nat) idx -> exists newPacket,
    foldl (fun acc i => q ← acc; m ← index (S i) mask; xor_at (hdrLen hd + i) m q) (Ok p') idx = Ok newPacket /\ length newPacket = length p);
    [|apply Hgen; [done|]; repeat constructor].
  induction idx as [|i idx IH]; intros p' Hp' Hf; cbn [foldl]; [by exists p'|]. apply Forall_cons in Hf as [Hi Hf]. cbn [mbind result_bind].
  destruct (index_Ok (S i) mask) as [m ->]; [lia|]. cbn [mbind result_bind]. destruct (xor_at_Ok (hdrLen hd + i) m p') as (p2 & -> & Hl); [lia|].
  apply IH; [lia|done].
Qed.

(** Whatever the packet says, its header idx uncovered and its payload opened within it. *)
Lemma openInitial_total packet : not_panic (openInitial packet) /\
  forall decrypted tail, openInitial packet = Ok (decrypted, tail) -> (length decrypted <= length packet)%nat.
Proof.
  unfold openInitial. pose proof (parseHeader_total packet) as Ht. destruct (parseHeader packet) as [hd|e|m] eqn:Eh; [|done|by destruct (Ht m)].
  apply parseHeader_inv in Eh as (Hp & Hl & Hpn). cbn [mbind result_bind]. destruct (labels (versionNumber hd)) as [[hpLabel keyLabel] ivLabel].
  destruct (HKDFExpandLabel_Ok (hkdf_Extract (destConnID hd) (salt (versionNumber hd))) "client in" 32) as (secret & -> & _); [lia|]. cbn [mbind result_bind].
  destruct (HKDFExpandLabel_Ok secret hpLabel 16) as (hpKey & -> & _); [lia|]. cbn [mbind result_bind].
  destruct (unprotect_Ok hd (aes_Encrypt hpKey (pnBytes hd)) packet) as (newPacket & -> & Hn); [by apply aes_Encrypt_length|done|]. cbn [mbind result_bind].
  destruct (index_Ok 0 newPacket) as [first ->]; [lia|]. cbn [mbind result_bind].
  assert (Hk : (N.to_nat (N.land (Byte.to_N first) 3 + 1) <= 4)%nat) by (by destruct first; vm_compute; lia).
  revert Hk. generalize (N.to_nat (N.land (Byte.to_N first) 3 + 1)). intros k Hk.
  destruct (N.ltb_spec (packetLen hd) (N.of_nat k)) as [|Hfit]; [done|]. rewrite (sub_slice_Ok (hdrLen hd) (hdrLen hd + k)) by lia. cbn [mbind result_bind].
  set (patched := take (hdrLen hd + k) newPacket ++ drop (hdrLen hd + k) packet).
  assert (Hpl : length patched = length packet) by (unfold patched; rewrite length_app, length_take, length_drop; lia).
  rewrite sub_slice_Ok by lia. cbn [mbind result_bind]. set (data := take _ (drop (hdrLen hd + k) patched)).
  destruct (HKDFExpandLabel_Ok secret keyLabel 16) as (key & -> & _); [lia|]. cbn [mbind result_bind].
  destruct (HKDFExpandLabel_Ok secret ivLabel 12) as (iv & -> & Hiv); [lia|]. cbn [mbind result_bind]. unfold aead_Open. rewrite Hiv. cbn [Nat.eqb negb].
  match goal with |- context [gcm_Open key ?nonce data ?ad] => set (nonce_ := nonce); set (ad_ := ad) end.
  assert (Hnonce : length nonce_ = 12%nat) by (unfold nonce_; rewrite length_app, length_take, length_zip_with, length_drop, length_be_encode; lia).
  pose proof (gcm_Open_total key nonce_ data ad_ Hnonce) as Hg. destruct (gcm_Open key nonce_ data ad_) as [plain|e|m] eqn:Eg; [|done|by destruct (Hg m)].
  split; [done|]. intros d t [= <- _]. apply gcm_Open_length in Eg. unfold data in Eg. rewrite length_take, length_drop in Eg. lia.
Qed.

End Opening.

(** ** Frames are taken from the front *)

Definition suffix_of (r' r : list byte) : Prop := exists a, r = a ++ r'.
#[local] Instance suffix_of_preorder : PreOrder suffix_of.
Proof.
  split; [intros r; by exists []|]. intros r1 r2 r3 [a ->] [b ->]. exists (b ++ a). by rewrite app_assoc.
Qed.
Lemma suffix_of_length r' r : suffix_of r' r -> (length r' <= length r)%nat.
Proof. intros [a ->]. rewrite length_app. lia. Qed.
Lemma suffix_of_drop n r : suffix_of (drop n r) r.
Proof. exists (take n r). by rewrite take_drop. Qed.

Lemma ReadUvarint_suffix r i r' : ReadUvarint r = Ok (i, r') -> suffix_of r' r.
Proof. intros (_ & a & -> & _)%ReadUvarint_inv. by exists a. Qed.

Lemma skipUvarints_suffix n r r' : skipUvarints n r = Ok r' -> suffix_of r' r.
Proof.
  revert r. induction n as [|n IH]; intros r; cbn; [intros [= ->]; reflexivity|].
  intros ([i r1] & H1%ReadUvarint_suffix & E)%bind_Ok_inv. etransitivity; [by apply IH|done].
Qed.
Lemma skipUvarints_total n r : not_panic (skipUvarints n r).
Proof. revert r. induction n as [|n IH]; intros r; cbn; [done|]. apply not_panic_bind; [apply ReadUvarint_total|]. intros [i r1] _. apply IH. Qed.

Lemma skipRanges_suffix fuel n r r' : skipRanges fuel n r = Ok r' -> suffix_of r' r.
Proof.
  revert n r. induction fuel as [|fuel IH]; intros n r; cbn [skipRanges]; destruct (n =? 0); try (intros [= ->]; reflexivity).
  intros (r1 & H1%(skipUvarints_suffix 2) & E)%bind_Ok_inv. etransitivity; [by eapply IH|done].
Qed.
Lemma skipRanges_total fuel n r : not_panic (skipRanges fuel n r).
Proof.
  revert n r. induction fuel as [|fuel IH]; intros n r; cbn [skipRanges]; destruct (n =? 0); try done.
  apply not_panic_bind; [apply (skipUvarints_total 2)|]. intros r1 _. apply IH.
Qed.
(** Fuel for the bytes is enough. *)
Lemma skipRanges_fuel fuel fuel' n r : (length r <= fuel)%nat -> (length r <= fuel')%nat -> skipRanges fuel n r = skipRanges fuel' n r.
Proof.
  revert fuel' n r. induction fuel as [|fuel IH]; intros [|fuel'] n r H H'; cbn [skipRanges]; destruct (n =? 0); try done;
    try (destruct r; [done|cbn in *; lia]).
  destruct (skipUvarints 2 r) as [r1|e|msg] eqn:E; try done. cbn [mbind result_bind]. cbn [skipUvarints] in E.
  apply bind_Ok_inv in E as ([i r2] & (_ & a & -> & Ha)%ReadUvarint_inv & E). apply bind_Ok_inv in E as ([j r3] & H3%ReadUvarint_suffix%suffix_of_length & [= <-]).
  rewrite length_app in *. apply IH; lia.
Qed.

(** A CRYPTO frame that is longer than the array it is in. *)
Definition overlong (r tail : list byte) : Prop :=
  exists offset r1 length_ r2, ReadUvarint r = Ok (offset, r1) /\ ReadUvarint r1 = Ok (length_, r2) /\ N.of_nat (length (r2 ++ tail)) < length_.

Lemma parseFrame_suffix t r tail fr r' : parseFrame t r tail = Ok (fr, r') -> suffix_of r' r.
Proof.
  unfold parseFrame. destruct (_ || _); [intros [= _ ->]; reflexivity|]. destruct (_ || _).
  - intros (r1 & H1%skipUvarints_suffix & E)%bind_Ok_inv. apply bind_Ok_inv in E as ([n r2] & H2%ReadUvarint_suffix & E).
    apply bind_Ok_inv in E as (r3 & H3%skipUvarints_suffix & E). apply bind_Ok_inv in E as (r4 & H4%skipRanges_suffix & E).
    apply bind_Ok_inv in E as (r5 & H5 & [= _ <-]). trans r4; [|by trans r3; [|trans r2; [|trans r1]]].
    destruct (_ =? _); [by apply skipUvarints_suffix in H5|injection H5 as ->; reflexivity].
  - destruct (_ =? _).
    + intros ([o r1] & H1%ReadUvarint_suffix & E)%bind_Ok_inv. apply bind_Ok_inv in E as ([n r2] & H2%ReadUvarint_suffix & E).
      destruct (_ <? _); [done|]. injection E as _ <-. trans r2; [apply suffix_of_drop|by trans r1].
    + destruct (_ =? _); [|done]. intros (r1 & H1%skipUvarints_suffix & E)%bind_Ok_inv. apply bind_Ok_inv in E as ([n r2] & H2%ReadUvarint_suffix & E).
      injection E as _ <-. trans r2; [|by trans r1]. destruct (_ <=? _); [exists r2; by rewrite app_nil_r|apply suffix_of_drop].
Qed.

Lemma parseFrame_panic t r tail msg : parseFrame t r tail = Panic msg -> t = frameTypeCrypto /\ overlong r tail.
Proof.
  unfold parseFrame. destruct (_ || _); [done|]. destruct (_ || _).
  - intros E. exfalso. revert msg E. apply not_panic_bind; [apply skipUvarints_total|intros r1 _]. apply not_panic_bind; [apply ReadUvarint_total|intros [n r2] _].
    apply not_panic_bind; [apply skipUvarints_total|intros r3 _]. apply not_panic_bind; [apply skipRanges_total|intros r4 _].
    apply not_panic_bind; [destruct (_ =? _); [apply skipUvarints_total|done]|done].
  - destruct (N.eqb_spec t frameTypeCrypto) as [->|_].
    + pose proof (ReadUvarint_total r) as Ht. unfold overlong. destruct (ReadUvarint r) as [[o r1]|e|m]; [|done|by destruct (Ht m)]. cbn [mbind result_bind].
      pose proof (ReadUvarint_total r1) as Ht1. destruct (ReadUvarint r1) as [[n r2]|e|m] eqn:E1; [|done|by destruct (Ht1 m)]. cbn [mbind result_bind].
      destruct (N.ltb_spec (N.of_nat (length (r2 ++ tail))) n); [|done]. intros _. split; [done|]. by exists o, r1, n, r2.
    + destruct (_ =? _); [|done]. intros E. exfalso. revert msg E. apply not_panic_bind; [apply skipUvarints_total|intros r1 _].
      apply not_panic_bind; [apply ReadUvarint_total|by intros [n r2] _].
Qed.

(** The frames of every payload are read to an end; an overlong CRYPTO frame is the only panic. *)
Lemma parseFrames_total fuel r tail : (length r <= fuel)%nat ->
  exists res, parseFrames fuel r tail = Some res /\ forall msg, res = Panic msg -> exists a r', r = a ++ byte_of_N frameTypeCrypto :: r' /\ overlong r' tail.
Proof.
  revert r. induction fuel as [|fuel IH]; intros [|b r] Hlen; cbn [parseFrames]; try by eexists. { cbn in Hlen. lia. }
  destruct (parseFrame (Byte.to_N b) r tail) as [[fr r']|e|msg] eqn:E; [|by eexists|].
  - apply parseFrame_suffix in E as Hs. pose proof (suffix_of_length _ _ Hs) as Hl. cbn in Hlen. destruct (IH r') as (res & -> & Hp); [lia|].
    cbn. eexists. split; [done|]. intros msg Hmsg. destruct res as [[ts frs]|e|m]; try done. destruct (Hp m eq_refl) as (a & r1 & -> & Ho).
    destruct Hs as [c ->]. exists (b :: c ++ a), r1. split; [|done]. cbn. by rewrite <- app_assoc.
  - eexists. split; [done|]. intros m [= <-]. apply parseFrame_panic in E as [Hb Ho]. exists [], r. split; [|done]. cbn. f_equal.
    rewrite <- Hb. symmetry. apply byte_of_to_N.
Qed.

(** ** Fragments *)

(** The numbers of a fragment are those that a frame can hold, and it has bytes. *)
Definition fragment_ok (fr : fragment) : Prop := fr.1.1 < 2 ^ 62 /\ 0 < fr.1.2 < 2 ^ 62.

Lemma filter_lt {A} (P Q : A -> Prop) `{!forall x, Decision (P x), !forall x, Decision (Q x)} l x :
  (forall y, Q y -> P y) -> x ∈ l -> P x -> ~ Q x -> (length (filter Q l) < length (filter P l))%nat.
Proof.
  intros HQP Hx HP HQ.
  assert (Hle : forall l, (length (filter Q l) <= length (filter P l))%nat).
  { clear - HQP. induction l as [|y l IH]; [done|]. rewrite !filter_cons. destruct (decide (Q y)) as [Hq|], (decide (P y)) as [|Hp]; cbn; try lia. by destruct (Hp (HQP _ Hq)). }
  induction Hx as [z l|z y l Hx IH]; rewrite !filter_cons.
  - rewrite decide_False, decide_True by done. cbn. specialize (Hle l). lia.
  - specialize (IH HP HQ). destruct (decide (Q y)) as [Hq|], (decide (P y)) as [|Hp]; cbn; try lia. by destruct (Hp (HQP _ Hq)).
Qed.

(** The loop ends: every fragment it takes moves the offset forward. *)
Lemma assemble_ends fuel index fragments : Forall fragment_ok fragments ->
  (length (filter (fun fr : fragment => (index <= fr.1.1)%N) fragments) <= fuel)%nat -> exists payload, assemble fuel index fragments = Some payload.
Proof.
  intros Hok. revert index. induction fuel as [|fuel IH]; intros index Hlen; cbn [assemble];
    (destruct (list_find _ fragments) as [[i [[o n] p]]|] eqn:E; [|by eexists]);
    apply list_find_Some in E as (Hi & Ho & _); cbn in Ho; subst o; apply list_elem_of_lookup_2 in Hi.
  - apply Nat.le_0_r, nil_length_inv in Hlen. exfalso. eapply (not_elem_of_nil (index, n, p)). rewrite <- Hlen. apply list_elem_of_filter. cbn. split; [lia|done].
  - rewrite Forall_forall in Hok. destruct (Hok _ Hi) as [H1 H2]. cbn in H1, H2.
    destruct (IH (u64 (index + n))) as [payload ->]; [|by eexists].
    assert (Hu : u64 (index + n) = index + n) by (apply N.mod_small; lia). rewrite Hu.
    enough (length (filter (fun fr : fragment => (index + n <= fr.1.1)%N) fragments) < length (filter (fun fr : fragment => (index <= fr.1.1)%N) fragments))%nat by lia.
    apply filter_lt with (x := (index, n, p)); cbn; [intros [[a b] c]; cbn; lia|done|lia|lia].
Qed.

Lemma assemble_mono fuel fuel' index fragments payload : (fuel <= fuel')%nat -> assemble fuel index fragments = Some payload -> assemble fuel' index fragments = Some payload.
Proof.
  revert fuel' index payload. induction fuel as [|fuel IH]; intros [|fuel'] index payload Hle; cbn [assemble]; try lia; try done;
    destruct (list_find _ fragments) as [[i [[o n] p]]|]; try done.
  destruct (assemble fuel _ fragments) as [q|] eqn:E; [|done]. apply (IH fuel') in E as ->; [done|lia].
Qed.

(** A fragment without bytes where the loop stands keeps it there. *)
Lemma assemble_hangs fuel index fragments i p : list_find (fun fr : fragment => fr.1.1 = index) fragments = Some (i, (index, 0, p)) -> index < 2 ^ 64 ->
  assemble fuel index fragments = None.
Proof.
  intros E Hi. induction fuel as [|fuel IH]; cbn [assemble]; rewrite E; [done|]. rewrite N.add_0_r. unfold u64. rewrite N.mod_small by done. by rewrite IH.
Qed.

Lemma parseFrame_fragment t r tail fr r' : parseFrame t r tail = Ok (Some fr, r') -> fr.1.1 < 2 ^ 62 /\ fr.1.2 < 2 ^ 62.
Proof.
  unfold parseFrame. destruct (_ || _); [done|]. destruct (_ || _).
  { intros E. repeat (apply bind_Ok_inv in E as ([? ?] & _ & E) || apply bind_Ok_inv in E as (? & _ & E)). done. }
  destruct (_ =? _).
  - intros ([o r1] & [Ho _]%ReadUvarint_inv & E)%bind_Ok_inv. apply bind_Ok_inv in E as ([n r2] & [Hn _]%ReadUvarint_inv & E).
    destruct (_ <? _); [done|]. by injection E as <- _.
  - destruct (_ =? _); [|done]. intros E. apply bind_Ok_inv in E as (? & _ & E). apply bind_Ok_inv in E as ([? ?] & _ & E). done.
Qed.

Lemma parseFrames_fragments fuel r tail types frs : parseFrames fuel r tail = Some (Ok (types, frs)) ->
  Forall (fun fr : fragment => fr.1.1 < 2 ^ 62 /\ fr.1.2 < 2 ^ 62) frs /\ (length frs <= length r)%nat /\ (types = [] -> r = []).
Proof.
  revert r types frs. induction fuel as [|fuel IH]; intros [|b r] types frs; cbn [parseFrames]; try (intros [= <- <-]; split_and!; [constructor|cbn; lia|done]); [done|].
  destruct (parseFrame (Byte.to_N b) r tail) as [[fr r']|e|msg] eqn:E; try done. pose proof (suffix_of_length _ _ (parseFrame_suffix _ _ _ _ _ E)) as Hs.
  destruct (parseFrames fuel r' tail) as [[[ts fs]|e|msg]|] eqn:Er; try done. cbn. intros [= <- <-]. apply IH in Er as (Hfs & Hl & _).
  destruct fr as [fr|]; cbn; (split_and!; [|lia|done]); [|done]. constructor; [by apply parseFrame_fragment in E|done].
Qed.

(** ** A hello in pieces *)

(** The fragments that consecutive pieces make, from an offset on. *)
Fixpoint cut (offset : N) (pieces : list (list byte)) : list fragment :=
  match pieces with
  | [] => []
  | p :: pieces => (offset, N.of_nat (length p), p) :: cut (offset + N.of_nat (length p)) pieces
  end.

Definition total (fragments : list fragment) : N := foldr (fun fr n => fr.1.2 + n) 0 fragments.

Lemma total_app l k : total (l ++ k) = total l + total k.
Proof. unfold total. induction l as [|fr l IH]; cbn; [done|]. rewrite IH. lia. Qed.
#[local] Instance total_perm : Proper ((≡ₚ) ==> (=)) total.
Proof. unfold total. induction 1 as [|x l k _ IH|x y l|l k m _ IH1 _ IH2]; cbn; [done|by rewrite IH|lia|by rewrite IH1]. Qed.
Lemma total_cut offset pieces : total (cut offset pieces) = N.of_nat (length (concat pieces)).
Proof. revert offset. induction pieces as [|p pieces IH]; intros offset; cbn; [done|]. rewrite IH, length_app. lia. Qed.
Lemma total_le l k : l ⊆+ k -> total l <= total k.
Proof. intros [m ->]%submseteq_Permutation. rewrite total_app. lia. Qed.

(** The sum of the lengths does not wrap around. *)
Lemma frameLen_total fragments : total fragments < 2 ^ 64 -> foldl (fun n fr => u64 (n + fr.1.2)) 0 fragments = total fragments.
Proof.
  assert (H : forall n, n + total fragments < 2 ^ 64 -> foldl (fun n fr => u64 (n + fr.1.2)) n fragments = n + total fragments); [|intros; by rewrite H].
  unfold total. induction fragments as [|fr fragments IH]; intros n Hn; cbn in *; [lia|]. unfold u64 at 2. rewrite N.mod_small by lia. rewrite IH; lia.
Qed.

Lemma cut_app offset l k : cut offset (l ++ k) = cut offset l ++ cut (offset + N.of_nat (length (concat l))) k.
Proof.
  revert offset. induction l as [|p l IH]; intros offset; cbn; [by rewrite N.add_0_r|]. rewrite IH, length_app. do 3 f_equal. lia.
Qed.

(** Fragments lie between the first offset and the last byte. *)
Lemma cut_range offset pieces o n p : Forall (fun p => p <> []) pieces -> (o, n, p) ∈ cut offset pieces ->
  offset <= o < offset + N.of_nat (length (concat pieces)).
Proof.
  intros Hne. revert offset. induction Hne as [|q pieces Hq Hne IH]; intros offset; cbn; [by rewrite elem_of_nil|].
  assert (length q <> 0)%nat by (by destruct q). rewrite length_app, elem_of_cons. intros [[= -> -> ->]|Hin%IH]; lia.
Qed.

Lemma cut_NoDup offset pieces : Forall (fun p => p <> []) pieces -> NoDup (cut offset pieces).
Proof.
  intros Hne. revert offset. induction Hne as [|q pieces Hq Hne IH]; intros offset; cbn; [constructor|].
  constructor; [|apply IH]. intros Hin%cut_range; [|done]. assert (length q <> 0)%nat by (by destruct q). lia.
Qed.

(** At an offset where a piece starts there is only this piece. *)
Lemma cut_unique offset l p k n q : Forall (fun p => p <> []) (l ++ p :: k) ->
  (offset + N.of_nat (length (concat l)), n, q) ∈ cut offset (l ++ p :: k) -> n = N.of_nat (length p) /\ q = p.
Proof.
  intros Hne. rewrite cut_app. cbn. apply Forall_app in Hne as [Hl Hpk]. apply Forall_cons in Hpk as [Hp Hk].
  assert (length p <> 0)%nat by (by destruct p). rewrite elem_of_app, elem_of_cons. intros [Hin%cut_range|[[= -> ->]|Hin%cut_range]]; [lia|done|done|lia|done].
Qed.

(** The loop over some of the fragments of a hello: the pieces before the first that is missing. *)
Lemma assemble_cut fuel received l k : Forall (fun p => p <> []) (l ++ k) -> N.of_nat (length (concat (l ++ k))) < 2 ^ 64 ->
  (forall fr, fr ∈ received -> fr ∈ cut 0 (l ++ k)) -> (length k <= fuel)%nat ->
  exists done_ rest, k = done_ ++ rest /\ assemble fuel (N.of_nat (length (concat l))) received = Some (concat done_) /\
    (forall fr, fr ∈ cut (N.of_nat (length (concat l))) done_ -> fr ∈ received) /\
    (rest = [] \/ exists fr, fr ∈ cut 0 (l ++ k) /\ fr ∉ received).
Proof.
  revert l fuel. induction k as [|p k IH]; intros l fuel Hne Hlen Hin Hfuel.
  - exists [], []. rewrite app_nil_r in *. split_and!; [done| |by intros fr ?%elem_of_nil|by left].
    destruct (list_find (fun fr : fragment => fr.1.1 = N.of_nat (length (concat l))) received) as [[i [[o n] q]]|] eqn:E; [|by destruct fuel; cbn; rewrite E].
    apply list_find_Some in E as (Hi & Ho & _). cbn in Ho. apply list_elem_of_lookup_2, Hin, cut_range in Hi; [lia|done].
  - destruct (list_find (fun fr : fragment => fr.1.1 = N.of_nat (length (concat l))) received) as [[i [[o n] q]]|] eqn:E.
    + pose proof E as (Hi & Ho & _)%list_find_Some. cbn in Ho. subst o. apply list_elem_of_lookup_2 in Hi.
      destruct (cut_unique 0 l p k n q) as [-> ->]; [done|rewrite N.add_0_l; by apply Hin|].
      destruct fuel as [|fuel]; [cbn in Hfuel; lia|]. destruct (IH (l ++ [p]) fuel) as (d & rest & -> & Ha & Hd & Hr);
        rewrite <- ?app_assoc in *; cbn [app] in *; [done|done|done|cbn in Hfuel; lia|].
      assert (Hc : N.of_nat (length (concat (l ++ [p]))) = N.of_nat (length (concat l)) + N.of_nat (length p))
        by (rewrite concat_app, length_app; cbn; rewrite app_nil_r; lia). rewrite Hc in *.
      exists (p :: d), rest. split_and!; [done| |cbn; intros fr [->|Hfr]%elem_of_cons; [done|by apply Hd]|done].
      cbn [assemble]. rewrite E. unfold u64. rewrite concat_app, length_app in Hlen. cbn in Hlen. rewrite length_app in Hlen. rewrite N.mod_small by lia. by rewrite Ha.
    + exists [], (p :: k). split_and!; [done|by destruct fuel; cbn; rewrite E|by intros fr ?%elem_of_nil|]. right.
      exists (N.of_nat (length (concat l)), N.of_nat (length p), p). split.
      * rewrite cut_app. apply elem_of_app. right. cbn. apply elem_of_cons. left. done.
      * intros Hfr. apply list_find_None in E. rewrite Forall_forall in E. by apply (E _ Hfr).
Qed.

Section Hello.
Context (h : Ja3.hello) (pieces : list (list byte)).
Hypothesis (Hok : Ja3.hello_ok h) (Hlen : N.of_nat (length (Ja3.handshake h)) < 65536).
Hypothesis (Hpieces : concat pieces = Ja3.handshake h) (Hne : Forall (fun p => p <> []) pieces).

(** What some of the fragments make: the hello when all are there, and a record that is refused otherwise. *)
Lemma hello_received received fuel : received ⊆+ cut 0 pieces -> (length pieces <= fuel)%nat ->
  exists buffer, helloBuffer fuel received = Some buffer /\
    (Ja3.Compute buffer = Some (Ok (Ja3.fields h)) /\ received ≡ₚ cut 0 pieces \/ (exists e, Ja3.Compute buffer = Some (Err e)) /\ ~ received ≡ₚ cut 0 pieces).
Proof.
  intros Hsub Hfuel. pose proof (total_le _ _ Hsub) as Htot. rewrite total_cut, Hpieces in Htot.
  destruct (assemble_cut fuel received [] pieces) as (d & rest & E & Ha & Hd & Hr); [done|cbn [app]; rewrite Hpieces; lia| |done|].
  { intros fr Hfr. by eapply elem_of_submseteq. }
  change (N.of_nat (length (concat []))) with 0 in Ha, Hd. unfold helloBuffer. rewrite Ha, frameLen_total, N.mod_small by lia. cbn [option_map]. eexists. split; [done|].
  change (x16 :: be_encode 2 0x0303 ++ be_encode 2 (total received) ++ concat d) with (Ja3.record (total received) (concat d)).
  rewrite E in Hne, Hpieces. apply Forall_app in Hne as [Hned Hner]. rewrite concat_app in Hpieces. assert (Hds : cut 0 d ⊆+ received) by (apply NoDup_submseteq; [by apply cut_NoDup|done]).
  destruct rest as [|p rest].
  - left. rewrite app_nil_r in E. subst d. cbn in Hpieces. rewrite app_nil_r in Hpieces. pose proof (total_le _ _ Hds) as Hge. rewrite total_cut, Hpieces in Hge.
    replace (total received) with (N.of_nat (length (Ja3.handshake h))) by lia. rewrite Hpieces. split; [by apply Ja3.client_hello_read|by apply (anti_symm submseteq)].
  - right. destruct Hr as [?|(fr & Hin & Hout)]; [done|]. split; [|intros Hp; apply Hout; by rewrite Hp].
    apply (Ja3.hello_prefix_refused h _ _ (concat (p :: rest))); [done| |done|lia|].
    + apply Forall_cons in Hner as [Hp _]. by destruct p.
    + pose proof (total_le _ _ Hds) as Hge. rewrite total_cut in Hge. lia.
Qed.

Context `{SniffLaws}.

Lemma guessClient_total types j : types <> [] -> exists client, guessClient types j = Ok client.
Proof.
  intros Ht. unfold guessClient. destruct (length types =? 1)%nat; [eauto|]. destruct types as [|t types]; [done|].
  destruct (_ && _ && _); [eauto|]. destruct (_ && _); [eauto|]. destruct (_ || _); eauto.
Qed.

(** A packet with some of the fragments: the name when they are complete, and a request for more otherwise. *)
Lemma sniffFrames_hello fuel md types frs : let received := frs ++ default [] (SniffContext md) in
  types <> [] -> received ⊆+ cut 0 pieces -> (length pieces <= fuel)%nat ->
  exists md' err, sniffFrames fuel md types frs = Some (Ok (md', err)) /\ Protocol md' = ProtocolQUIC /\
    match err with
    | None => Domain md' = Ja3.ServerName (Ja3.fields h) /\ received ≡ₚ cut 0 pieces
    | Some e => wantsMore e = true /\ SniffContext md' = Some received /\ ~ received ≡ₚ cut 0 pieces
    end.
Proof.
  intros received Ht Hsub Hfuel. unfold sniffFrames. fold received. destruct (hello_received received fuel Hsub Hfuel) as (buffer & -> & [[-> Hall]|[(e & ->) Hn]]).
  - destruct (guessClient_total types (Ja3.fields h) Ht) as (client & Hg). cbn. case_bool_decide; [rewrite Hg; cbn|]; by eexists _, None.
  - eexists _, (Some _). split; [done|]. split; [done|]. split; [apply wantsMore_Cause1|done].
Qed.

End Hello.

(** ** Packets *)

(** The frames of a client that starts a connection; numbers of any size that holds them. *)
Inductive frame : Type :=
| FPadding
| FPing
| FCrypto (ko kl : nat) (offset : N) (payload : list byte).

Definition encode_frame (f : frame) : list byte :=
  match f with
  | FPadding => [x00]
  | FPing => [x01]
  | FCrypto ko kl offset payload => x06 :: varint ko offset ++ varint kl (N.of_nat (length payload)) ++ payload
  end.
Definition frame_ok (f : frame) : Prop :=
  match f with
  | FCrypto ko kl offset payload => (ko < 4)%nat /\ (kl < 4)%nat /\ offset < 2 ^ varintBits ko /\ N.of_nat (length payload) < 2 ^ varintBits kl
  | _ => True
  end.
Definition frame_type (f : frame) : N := match f with FPadding => frameTypePadding | FPing => frameTypePing | FCrypto _ _ _ _ => frameTypeCrypto end.
Definition frame_fragment (f : frame) : option fragment :=
  match f with FCrypto _ _ offset payload => Some (offset, N.of_nat (length payload), payload) | _ => None end.

Definition fragments_of (frames : list frame) : list fragment := omap frame_fragment frames.

Lemma parseFrame_crypto ko kl offset n r tail : (ko < 4)%nat -> (kl < 4)%nat -> offset < 2 ^ varintBits ko -> n < 2 ^ varintBits kl ->
  parseFrame frameTypeCrypto (varint ko offset ++ varint kl n ++ r) tail =
    if N.of_nat (length (r ++ tail)) <? n then Panic "slice bounds out of range"
    else Ok (Some (offset, n, take (N.to_nat n) (r ++ tail)), drop (N.to_nat n) r).
Proof.
  intros Ho Hl Hoff Hn. unfold parseFrame. cbn [N.eqb Pos.eqb orb frameTypeCrypto frameTypePadding frameTypePing frameTypeAck frameTypeAck2].
  rewrite ReadUvarint_varint by done. cbn [mbind result_bind]. rewrite ReadUvarint_varint by done. done.
Qed.

Lemma parseFrame_encode f r tail : frame_ok f -> exists b l, encode_frame f ++ r = b :: l /\ Byte.to_N b = frame_type f /\
  parseFrame (Byte.to_N b) l tail = Ok (frame_fragment f, r).
Proof.
  destruct f as [| |ko kl offset payload]; cbn [frame_ok encode_frame app]; [by eexists _, _|by eexists _, _|].
  intros (Ho & Hl & Hoff & Hn). eexists _, _. split; [done|]. split; [done|]. rewrite <- !app_assoc.
  change (Byte.to_N x06) with frameTypeCrypto. rewrite parseFrame_crypto by done. rewrite (proj2 (N.ltb_ge _ _)) by (rewrite !length_app; lia).
  rewrite Nat2N.id, <- app_assoc, take_app_length, drop_app_length. done.
Qed.

Lemma parseFrames_encode frames tail fuel : Forall frame_ok frames -> (length frames <= fuel)%nat ->
  parseFrames fuel (flat_map encode_frame frames) tail = Some (Ok (frame_type <$> frames, fragments_of frames)).
Proof.
  intros Hok. revert fuel. induction Hok as [|f frames Hf Hok IH]; intros [|fuel] Hfuel; cbn [length] in Hfuel; try done; try lia.
  cbn [flat_map]. destruct (parseFrame_encode f (flat_map encode_frame frames) tail Hf) as (b & l & -> & Hb & E). cbn [parseFrames]. rewrite E, IH by lia.
  cbn. rewrite Hb. do 2 f_equal. by destruct (frame_fragment f).
Qed.

Lemma length_frames frames : (length frames <= length (flat_map encode_frame frames))%nat.
Proof.
  induction frames as [|f frames IH]; cbn; [done|]. rewrite length_app. enough (0 < length (encode_frame f))%nat by lia. destruct f; cbn; lia.
Qed.

Section Router.
Context `{SniffLaws} `{QuicCrypto}.

(** The sniffer as a function value. *)
Definition quicSniffer (fuel : nat) : PacketSniffer := fun md packet => default (Panic "the loop does not end") (QUICClientHello fuel md packet).

(** A packet that opens to these frames. *)
Definition carries (packet : list byte) (frames : list frame) : Prop :=
  Forall frame_ok frames /\ frames <> [] /\ exists tail, openInitial packet = Ok (flat_map encode_frame frames, tail).

Lemma quicSniffer_carries fuel md packet frames : carries packet frames ->
  QUICClientHello fuel md packet = sniffFrames fuel md (frame_type <$> frames) (fragments_of frames).
Proof.
  intros (Hok & _ & tail & E). unfold QUICClientHello. rewrite E, parseFrames_encode; [done|done|apply length_frames].
Qed.

Definition arrives (packet : Route.PacketBuffer) : Route.packet_event := Route.PacketRead packet.1 packet.2.

(** A sniffer that does not know the packet. *)
Definition refuses (packet : list byte) (s : PacketSniffer) : Prop := forall md, exists e, s md packet = Ok (md, Some e).

Lemma peek_refused packet l md errs : Forall (refuses packet) l -> exists errs', peekPacket_loop l md packet errs = Ok (md, E_Errors (errs ++ errs')).
Proof.
  intros Hl. revert errs. induction Hl as [|s l Hs Hl IH]; intros errs; cbn; [exists []; by rewrite app_nil_r|].
  destruct (Hs md) as [e ->]. destruct (IH (errs ++ [Some e])) as [errs' Hloop]. exists (Some e :: errs'). cbn. by rewrite Hloop, <- app_assoc.
Qed.

(** Among sniffers that refuse a packet the answer is that of the one that does not. *)
Lemma peek_among packet before s after md md' err : Forall (refuses packet) (before ++ after) -> s md packet = Ok (md', err) ->
  from_option wantsMore true err = true -> exists err', PeekPacket md packet (before ++ s :: after) = Ok (md', err') /\
    errors.opt_Is err' ErrNeedMoreData = bool_decide (err <> None) /\ (err = None -> err' = None).
Proof.
  intros [Hb Ha]%Forall_app Hs Hw. unfold PeekPacket.
  assert (Hgen : forall errs, exists err', peekPacket_loop (before ++ s :: after) md packet errs = Ok (md', err') /\
    errors.opt_Is err' ErrNeedMoreData = bool_decide (err <> None) /\ (err = None -> err' = None)); [|apply Hgen].
  induction Hb as [|t before Ht Hb IH]; intros errs; cbn.
  - rewrite Hs. cbn. destruct err as [e|]; [|by exists None]. destruct (peek_refused packet after md' (errs ++ [Some e]) Ha) as [errs' ->].
    eexists. split; [done|]. split; [|done]. rewrite Errors_Is, !existsb_app. cbn. cbn in Hw. unfold wantsMore in Hw. rewrite Hw. by rewrite !orb_true_r.
  - destruct (Ht md) as [e ->]. apply IH.
Qed.

Section Pieces.
Context (h : Ja3.hello) (pieces : list (list byte)) (sniffers : Sniffers) (fuel : nat) (action : RuleActionSniff) (before after : list PacketSniffer).
Hypothesis (Hok : Ja3.hello_ok h) (Hlen : N.of_nat (length (Ja3.handshake h)) < 65536).
Hypothesis (Hpieces : concat pieces = Ja3.handshake h) (Hne : Forall (fun p => p <> []) pieces).
Hypothesis (Hfuel : (length pieces <= fuel)%nat) (Hquic : RuleActions.QUICClientHello sniffers = quicSniffer fuel).

#[local] Abbreviation quicAmong := (before ++ RuleActions.QUICClientHello sniffers :: after).
(** The first packet is left to the QUIC sniffer because the others refuse it, the later ones because it asked for them. *)
Definition leftToQuic (packet : list byte) (md : InboundContext) : Prop :=
  Route.quicMoreData action md = true \/ Forall (refuses packet) (before ++ after).
(** The fragments that arrived and those still to come. *)
Definition awaits (md : InboundContext) (contents : list (list frame)) : Prop :=
  default [] (SniffContext md) ++ concat (fragments_of <$> contents) ≡ₚ cut 0 pieces.
Definition hello_found (md : InboundContext) : Prop := Protocol md = ProtocolQUIC /\ Domain md = Ja3.ServerName (Ja3.fields h).

(** One packet: the name when nothing is missing behind it, and a request for more otherwise. *)
Lemma sniffPacket_hello packet frames contents md : carries packet frames -> leftToQuic packet md -> awaits md (frames :: contents) ->
  exists md' err, Route.sniffPacket sniffers action quicAmong packet md = Ok (md', err) /\
    (concat (fragments_of <$> contents) = [] -> err = None /\ hello_found md') /\
    (concat (fragments_of <$> contents) <> [] -> errors.opt_Is err ErrNeedMoreData = true /\ Route.quicMoreData action md' = true /\ awaits md' contents).
Proof.
  intros Hc Hleft Hperm. pose proof Hc as (_ & Hframes & _). set (received := fragments_of frames ++ default [] (SniffContext md)).
  assert (Hrest : received ++ concat (fragments_of <$> contents) ≡ₚ cut 0 pieces).
  { rewrite <- Hperm. cbn. unfold received. by rewrite (Permutation_app_comm (fragments_of _)), <- app_assoc. }
  destruct (sniffFrames_hello h pieces Hok Hlen Hpieces Hne fuel md (frame_type <$> frames) (fragments_of frames)) as (md' & err & E & Hproto & Herr);
    [by destruct frames|rewrite <- Hrest; by apply submseteq_inserts_r|done|]. fold received in Herr.
  assert (Hs : RuleActions.QUICClientHello sniffers md packet = Ok (md', err)) by (rewrite Hquic; unfold quicSniffer; by rewrite (quicSniffer_carries _ _ _ _ Hc), E).
  assert (Hw : from_option wantsMore true err = true) by (destruct err; [apply Herr|done]).
  assert (Hpeek : exists err', PeekPacket md packet (if Route.quicMoreData action md then [RuleActions.QUICClientHello sniffers] else quicAmong)
      = Ok (md', err') /\ errors.opt_Is err' ErrNeedMoreData = bool_decide (err <> None) /\ (err = None -> err' = None)).
  { destruct (Route.quicMoreData action md) eqn:Em; [by apply (peek_among packet [] _ [])|]. apply peek_among; [|done..]. destruct Hleft as [Hm|]; [by rewrite Em in Hm|done]. }
  destruct Hpeek as (err' & Hp & Hmore & Hnone). unfold Route.sniffPacket. rewrite Hp. eexists _, _. split; [done|].
  destruct err as [e|].
  - destruct Herr as (_ & Hctx & Hn). split; [intros Hnil; destruct Hn; by rewrite Hnil, app_nil_r in Hrest|]. intros _. split; [by rewrite Hmore|]. split.
    + unfold Route.quicMoreData. cbn. rewrite bool_decide_true by done. by rewrite Hmore.
    + unfold awaits. cbn. by rewrite Hctx.
  - destruct Herr as [HD Hall]. split; [intros _; split; [auto|done]|]. intros Hnil. destruct Hnil. apply Permutation_nil_r, (Permutation_app_inv_l received).
    by rewrite Hrest, app_nil_r.
Qed.

(** The packets that come last have something to say. *)
Definition tailed (contents : list (list frame)) : Prop := from_option (fun frames => fragments_of frames <> []) False (last contents).
Lemma tailed_pieces contents : tailed contents -> concat (fragments_of <$> contents) <> [].
Proof.
  unfold tailed. destruct (last contents) as [frames|] eqn:E; [|done]. cbn. intros Hf Hnil. apply last_Some in E as [l ->].
  rewrite fmap_app, concat_app in Hnil. apply app_eq_nil in Hnil as [_ Hnil]. cbn in Hnil. by rewrite app_nil_r in Hnil.
Qed.
Lemma tailed_cons frames contents : tailed (frames :: contents) -> contents = [] \/ tailed contents.
Proof. destruct contents as [|c contents]; [by left|right; done]. Qed.

(** Packets that arrived before the action. *)
Lemma sniffCached_hello cached contents rest md : Forall2 (fun packet frames => carries packet.1 frames) cached contents ->
  (forall packet, head cached = Some packet -> leftToQuic packet.1 md) -> awaits md (contents ++ rest) -> tailed (contents ++ rest) ->
  exists md' err, Route.sniffCached sniffers action quicAmong cached md = Ok (md', err) /\
    (rest = [] -> err = Some None /\ hello_found md') /\
    (rest <> [] -> err = None /\ awaits md' rest /\ tailed rest /\ (cached = [] /\ md' = md \/ Route.quicMoreData action md' = true)).
Proof.
  intros Hc. revert md. induction Hc as [|packet frames cached contents Hpc Hc IH]; intros md Hhead Hw Ht; cbn [app] in *.
  { eexists _, _. split; [done|]. split; [by intros ->|]. intros _. split_and!; [done|done|done|by left]. }
  destruct (sniffPacket_hello packet.1 frames (contents ++ rest) md Hpc (Hhead packet eq_refl) Hw) as (md' & err & E & Hnil & Hmore).
  cbn [Route.sniffCached]. rewrite E. cbn [mbind result_bind]. destruct (tailed_cons _ _ Ht) as [Hn|Ht'].
  - apply app_eq_nil in Hn as [-> ->]. destruct Hnil as [-> Hf]; [done|]. eexists _, _. split; [done|]. split; [done|done].
  - destruct (Hmore (tailed_pieces _ Ht')) as (-> & Hq & Hw'). destruct (IH md') as (md2 & err2 & E2 & Hr & Hr'); [by intros; left|done|done|].
    eexists _, _. split; [exact E2|]. split; [done|]. intros Hrest. destruct (Hr' Hrest) as (-> & ? & ? & Hlast). split_and!; [done|done|done|]. right. by destruct Hlast as [[-> ->]|].
Qed.

(** Packets that the action reads. *)
Lemma sniffPackets_hello reads contents events packetBuffers md : Forall2 (fun packet frames => carries packet.1 frames) reads contents ->
  (forall packet, head reads = Some packet -> leftToQuic packet.1 md) -> awaits md contents -> tailed contents ->
  exists md', Route.sniffPackets sniffers action quicAmong ((arrives <$> reads) ++ events) packetBuffers md
      = Ok (md', packetBuffers ++ reads, events, inl None) /\ hello_found md'.
Proof.
  intros Hc. revert md packetBuffers. induction Hc as [|packet frames reads contents Hpc Hc IH]; intros md packetBuffers Hhead Hw Ht; [done|].
  destruct (sniffPacket_hello packet.1 frames contents md Hpc (Hhead packet eq_refl) Hw) as (md' & err & E & Hnil & Hmore).
  cbn [app fmap list_fmap Route.sniffPackets arrives]. rewrite E. cbn [mbind result_bind]. replace (packet.1, packet.2) with packet by (by destruct packet).
  destruct (tailed_cons _ _ Ht) as [->|Ht'].
  - destruct Hnil as [-> Hf]; [done|]. inversion Hc; subst. cbn. by exists md'.
  - destruct (Hmore (tailed_pieces _ Ht')) as (-> & Hq & Hw'). destruct (IH md' (packetBuffers ++ [packet])) as (md2 & E2 & Hf); [by intros; left|done|done|].
    exists md2. split; [|done]. by rewrite <- app_assoc in E2.
Qed.

End Pieces.

(** The sniffers that the packet branch runs. *)
Definition usedSniffers (sniffers : Sniffers) (action : RuleActionSniff) : list PacketSniffer :=
  if nonempty (PacketSniffers action) then PacketSniffers action else Route.defaultPacketSniffers sniffers.

(** C21: a client hello in CRYPTO frames, cut into pieces at any place and sent in any order over any number of packets, is
    put together by the router when the other sniffers of its action refuse the first of the packets: it takes the packets
    that it already has and reads exactly those that follow up to the one that brings the last piece, and then the name of
    the server is that of the hello. *)
Theorem quic_hello_found h pieces sniffers fuel action before after cached reads events contents md :
  Ja3.hello_ok h -> N.of_nat (length (Ja3.handshake h)) < 65536 -> concat pieces = Ja3.handshake h -> Forall (fun p => p <> []) pieces ->
  (length pieces <= fuel)%nat -> RuleActions.QUICClientHello sniffers = quicSniffer fuel ->
  usedSniffers sniffers action = before ++ RuleActions.QUICClientHello sniffers :: after ->
  Route.sniffSkipped action (PacketSniffers action) (StreamSniffers action) md = false ->
  Forall2 (fun packet frames => carries packet.1 frames) (cached ++ reads) contents ->
  (forall packet, head (cached ++ reads) = Some packet -> Forall (refuses packet.1) (before ++ after)) ->
  concat (fragments_of <$> contents) ≡ₚ cut 0 pieces -> tailed contents -> SniffContext md = None ->
  exists md', Route.sniffPacketConn sniffers action ((arrives <$> reads) ++ events) cached md
      = Ok (md', if nonempty reads then cached ++ reads else [], events, None) /\
    Protocol md' = ProtocolQUIC /\ Domain md' = Ja3.ServerName (Ja3.fields h).
Proof.
  intros Hok Hlen Hp Hne Hfuel Hq Hused Hskip Hc Href Hperm Ht Hctx.
  apply Forall2_app_inv_l in Hc as (c1 & c2 & Hc1 & Hc2 & ->).
  assert (Hw : awaits pieces md (c1 ++ c2)) by (unfold awaits; by rewrite Hctx).
  unfold Route.sniffPacketConn. rewrite Hskip. fold (usedSniffers sniffers action). rewrite Hused.
  destruct (sniffCached_hello h pieces sniffers fuel action before after Hok Hlen Hp Hne Hfuel Hq cached c1 c2 md) as (md1 & err & -> & Hnone & Hmore);
    [done|intros packet Hh; right; apply Href; by destruct cached|done|done|]. cbn [mbind result_bind].
  destruct reads as [|packet reads]; [apply Forall2_nil_inv_l in Hc2 as ->|].
  { destruct Hnone as [-> [HP HD]]; [done|]. eexists. split; [done|]. unfold Route.sniffed. by destruct (_ && _). }
  destruct Hmore as (-> & Hw1 & Ht1 & Hleft); [by inversion Hc2|].
  destruct (sniffPackets_hello h pieces sniffers fuel action before after Hok Hlen Hp Hne Hfuel Hq (packet :: reads) c2 events cached md1) as (md2 & E2 & HP & HD); [done| |done|done|].
  { intros p [= <-]. destruct Hleft as [[-> ->]|]; [right; by apply Href|by left]. }
  rewrite E2. cbn [mbind result_bind]. eexists. split; [done|]. unfold Route.sniffed. by destruct (_ && _).
Qed.

End Router.

Section Returns.
Context `{SniffLib} `{QuicCryptoLaws}.

(** What is behind the decryption returns; [n] fragments can come from a packet. *)
Lemma sniffFrames_returns md types frs n : (length frs <= n)%nat -> Forall fragment_ok (frs ++ default [] (SniffContext md)) ->
  exists buffer res, (forall fuel, (n + length (default [] (SniffContext md)) <= fuel)%nat ->
      helloBuffer fuel (frs ++ default [] (SniffContext md)) = Some buffer /\ sniffFrames fuel md types frs = Some res) /\
    (forall md' err, res = Ok (md', err) -> Forall fragment_ok (default [] (SniffContext md'))) /\
    (forall msg, res = Panic msg -> types = [] \/ exists exType sex, Ja3.inside buffer exType sex /\ Ja3.overrun exType sex).
Proof.
  intros Hl Hall. set (all := frs ++ default [] (SniffContext md)) in *.
  destruct (assemble_ends (length all) 0 all Hall) as [payload Hp]; [apply length_filter|].
  assert (Hbuf : exists buffer, forall fuel, (n + length (default [] (SniffContext md)) <= fuel)%nat -> helloBuffer fuel all = Some buffer).
  { eexists. intros fuel Hfuel. unfold helloBuffer. erewrite assemble_mono; [done| |done]. unfold all. rewrite length_app. lia. }
  destruct Hbuf as [buffer Hbuf]. exists buffer. destruct (Ja3.ja3_panics_only_in_lists buffer) as (r & Hr & Hlists).
  destruct r as [j|e|m].
  - destruct (decide (Client md = "")) as [Hc|Hc].
    + eexists. split; [intros fuel Hfuel; unfold sniffFrames; fold all; rewrite Hbuf, Hr by done; cbn; by rewrite bool_decide_true|].
      split; [intros md' err (client & _ & [= <- _])%bind_Ok_inv; cbn; constructor|]. intros msg Hm. left. destruct types as [|t types]; [done|].
      exfalso. destruct (guessClient_total (t :: types) j) as (client & Hg); [done|]. by rewrite Hg in Hm.
    + eexists. split; [intros fuel Hfuel; unfold sniffFrames; fold all; rewrite Hbuf, Hr by done; cbn; by rewrite bool_decide_false|].
      split; [intros md' err [= <- _]; cbn; constructor|done].
  - eexists. split; [intros fuel Hfuel; unfold sniffFrames; fold all; by rewrite Hbuf, Hr|]. split; [intros md' err [= <- _]; done|done].
  - eexists. split; [intros fuel Hfuel; unfold sniffFrames; fold all; by rewrite Hbuf, Hr|]. split; [done|]. intros msg _. right. eauto.
Qed.


End Returns.

(** ** Packets that stop the sniffer *)

Section Hostile.
Context `{SniffLib} `{QuicCrypto}.

(** An empty CRYPTO frame at the start of the stream: the loop over the fragments never ends. *)
Lemma quic_empty_frame_hangs fuel md packet ko kl frames : carries packet (FCrypto ko kl 0 [] :: frames) -> QUICClientHello fuel md packet = None.
Proof.
  intros Hc. rewrite (quicSniffer_carries _ _ _ _ Hc). unfold sniffFrames, helloBuffer.
  rewrite (assemble_hangs fuel 0 _ 0 []); [done| |done]. cbn. done.
Qed.

(** A CRYPTO frame that claims more bytes than there are. *)
Lemma quic_overlong_frame_panics fuel md packet ko kl offset n r tail : (ko < 4)%nat -> (kl < 4)%nat -> offset < 2 ^ varintBits ko -> n < 2 ^ varintBits kl ->
  openInitial packet = Ok (x06 :: varint ko offset ++ varint kl n ++ r, tail) -> N.of_nat (length (r ++ tail)) < n ->
  QUICClientHello fuel md packet = Some (Panic "slice bounds out of range").
Proof.
  intros Ho Hl Hoff Hn E Hlong. unfold QUICClientHello. rewrite E. cbn [length parseFrames]. change (Byte.to_N x06) with frameTypeCrypto.
  rewrite parseFrame_crypto by done. by rewrite (proj2 (N.ltb_lt _ _)).
Qed.

End Hostile.

(** ** Samples *)

(** Cryptography that leaves everything as it is. *)
#[local] Instance sampleCrypto : QuicCrypto := {
  hkdf_Extract _ _ := [];
  hkdf_Expand _ _ n := replicate n x00;
  aes_Encrypt _ block := replicate (length block) x00;
  gcm_Open _ _ ciphertext _ := if (length ciphertext <? 16)%nat then Err (E_New ["cipher: message authentication failed"]) else Ok (take (length ciphertext - 16) ciphertext);
}.
#[local] Existing Instances sampleSniffLib sampleRoute sampleSniffLaws.

Definition initialPacket (payload : list byte) : list byte :=
  byte_of_N 0xc0 :: be_encode 4 Version1 ++ [x08] ++ replicate 8 x2a ++ [x00] ++ varint 0 0
  ++ varint 1 (N.of_nat (1 + length payload + 16)) ++ [x00] ++ payload ++ replicate 16 x00.

Definition sampleHello : Ja3.hello := Ja3.sampleHello Ja3.sampleExtensions.
Definition samplePieces : list (list byte) := [take 20 (Ja3.handshake sampleHello); take 30 (drop 20 (Ja3.handshake sampleHello)); drop 50 (Ja3.handshake sampleHello)].
(** The last piece comes first, the others together. *)
Definition sampleFrames : list (list frame) :=
  [[FPing; FCrypto 1 1 50 (drop 50 (Ja3.handshake sampleHello))];
   [FCrypto 0 1 20 (take 30 (drop 20 (Ja3.handshake sampleHello))); FPadding; FCrypto 0 0 0 (take 20 (Ja3.handshake sampleHello))]].
Definition samplePackets : list Route.PacketBuffer := (fun frames => (initialPacket (flat_map encode_frame frames), SocksaddrZero)) <$> sampleFrames.

#[local] Instance sampleCryptoLaws : QuicCryptoLaws.
Proof.
  split.
  - intros. apply length_replicate.
  - intros key block Hb. cbn [gcm_Open aes_Encrypt sampleCrypto]. by rewrite length_replicate.
  - intros key nonce ciphertext ad _. cbn [gcm_Open aes_Encrypt sampleCrypto]. by destruct (_ <? _)%nat.
  - intros key nonce ciphertext ad plain. cbn [gcm_Open aes_Encrypt sampleCrypto]. destruct (_ <? _)%nat; [done|]. intros [= <-]. rewrite length_take. lia.
Qed.

Definition sampleSniffers : Sniffers :=
  let no {A} : InboundContext -> A -> result (InboundContext * option error) := fun md _ => Ok (md, Some ErrInvalid) in
  mkSniffers no no no no no no no (quicSniffer 3) no no no no no.
(** Trackers are looked for before QUIC, DTLS behind it. *)
Definition sampleAction : RuleActionSniff :=
  mkSniff ["bittorrent"; "quic"; "dtls"] [] [as_sniffer UDPTracker; RuleActions.QUICClientHello sampleSniffers; as_sniffer DTLSRecord] 0 false.
Definition samplePacket (i : nat) : Route.PacketBuffer := default ([], SocksaddrZero) (samplePackets !! i).

(** The first packet was there before, the second is read, and the third is left. *)
Lemma quic_hello_found_witness : exists md',
  Route.sniffPacketConn sampleSniffers sampleAction [arrives (samplePacket 1); arrives ([], SocksaddrZero)] [samplePacket 0] InboundContextZero
    = Ok (md', samplePackets, [arrives ([], SocksaddrZero)], None) /\
  Protocol md' = "quic" /\ Domain md' = "example.org".
Proof.
  destruct (quic_hello_found sampleHello samplePieces sampleSniffers 3 sampleAction [as_sniffer UDPTracker] [as_sniffer DTLSRecord]
    [samplePacket 0] [samplePacket 1] [arrives ([], SocksaddrZero)] sampleFrames InboundContextZero) as (md' & E & HP & HD).
  - exact Ja3.sampleHello_ok.
  - vm_compute. reflexivity.
  - vm_compute. reflexivity.
  - repeat constructor; vm_compute; discriminate.
  - cbn. lia.
  - reflexivity.
  - reflexivity.
  - vm_compute. reflexivity.
  - repeat constructor; try discriminate; try (vm_compute; reflexivity); eexists; vm_compute; reflexivity.
  - intros packet [= <-]. repeat constructor; intros md; eexists; vm_compute; reflexivity.
  - vm_compute. etransitivity; [apply Permutation_app_comm with (l := [_]) (l' := [_; _])|]. cbn. apply Permutation_swap.
  - vm_compute. discriminate.
  - reflexivity.
  - exists md'. split; [exact E|]. split; [exact HP|]. rewrite HD. vm_compute. reflexivity.
Defined.


(** One packet of a hello in two arrives twice: the lengths no longer add up, and the hello is not found. *)
Example quic_duplicate_fragment :
  let first := initialPacket (encode_frame (FCrypto 1 1 0 (take 50 (Ja3.handshake sampleHello)))) in
  let second := initialPacket (encode_frame (FCrypto 1 1 50 (drop 50 (Ja3.handshake sampleHello)))) in
  let sniff packets := '(md, _, rest, _) ← Route.sniffPacketConn sampleSniffers sampleAction ((fun p => arrives (p, SocksaddrZero)) <$> packets) [] InboundContextZero;
    Ok (Domain md, SniffError md, length rest) in
  sniff [first; second] = Ok ("example.org", None, 0%nat) /\
  exists err, sniff [first; first; second] = Ok ("", Some err, 0%nat).
Proof. split; [vm_compute; reflexivity|]. eexists. vm_compute. reflexivity. Qed.

Example quic_empty_frame_sample fuel : QUICClientHello fuel InboundContextZero (initialPacket (flat_map encode_frame (FCrypto 0 0 0 [] :: replicate 20 FPadding))) = None.
Proof. apply (quic_empty_frame_hangs _ _ _ 0 0 (replicate 20 FPadding)). split_and!; [repeat constructor|done|eexists; vm_compute; reflexivity]. Qed.

Example quic_overlong_frame_sample fuel : QUICClientHello fuel InboundContextZero (initialPacket [x06; x00; x3f]) = Some (Panic "slice bounds out of range").
Proof.
  eapply (quic_overlong_frame_panics _ _ _ 0 0 0 63 [] (replicate 16 x00)); [lia|lia|done|done|vm_compute; reflexivity|vm_compute; reflexivity].
Qed.

(** Such a packet stops the router that sniffs it. *)
Example quic_overlong_frame_stops_router : Route.sniffPacketConn sampleSniffers sampleAction [arrives (initialPacket [x06; x00; x3f], SocksaddrZero)] [] InboundContextZero
  = Panic "slice bounds out of range".
Proof. vm_compute. reflexivity. Qed.

End QuicSniff.
