(* ===== verification/Hy2Udp.v ===== *)
(** * Datagrams of Hysteria 2 (src/third_party/sing-quic/hysteria2/packet.go)

    A packet that does not fit into a datagram is cut into fragments, and the receiver
    joins them.  The cache of the receiver forgets packets on its own; the datagrams of
    QUIC come in any order, and may be lost. *)

From S2P Require Import Prelude GoStd Metadata Binary Datagram Hy2Wire.
From Stdlib Require Import Strings.Byte.
From stdpp Require Import list.
Import Hy2Wire.

Open Scope Z_scope.

Module Hy2Udp.

(** ** Packets that are being joined

    Messages are of a type [P] with their content: [P] is [udpMessage] here, and that of
    pointers in Hy2Session. *)

Record packetItem (P : Type) : Type := mkPacketItem { messages : list (option P); count : N }.
Arguments mkPacketItem {P}.
Arguments messages {P}.
Arguments count {P}.

Definition newPacketItem {P} : packetItem P := mkPacketItem [] 0.

(** [udpDefragger], by the identifiers of packets. *)
Abbreviation udpDefragger P := (gmap N (packetItem P)).

(** What [feed] returns: nothing, its argument, or a new message that takes the place of
    fragments. *)
Inductive fed (P : Type) : Type :=
| Nothing
| Same
| Joined (parts : list P) (new : option udpMessage).
Arguments Nothing {P}.
Arguments Same {P}.
Arguments Joined {P}.

Section Udp.
Context {Q : Quicvarint}.

(** ** Cutting *)

(** The loop over the packet.  [None]: it runs on; a negative size makes the slice panic. *)
Fixpoint fragLoop (fuel : nat) (originPacket : list byte) (remaining udpMTU : Z) : option (result (list (list byte))) :=
  if 0 <? remaining then
    match fuel with
    | O => None
    | S fuel =>
        if udpMTU <? remaining then
          if udpMTU <? 0 then Some (Panic "slice bounds out of range")
          else
            match fragLoop fuel (drop (Z.to_nat udpMTU) originPacket) (remaining - udpMTU) udpMTU with
            | Some (Ok fragments) => Some (Ok (take (Z.to_nat udpMTU) originPacket :: fragments))
            | out => out
            end
        else
          match fragLoop fuel [] (remaining - udpMTU) udpMTU with
          | Some (Ok fragments) => Some (Ok (originPacket :: fragments))
          | out => out
          end
    end
  else Some (Ok []).

Definition fragment (message : udpMessage) (total : N) (index : nat) (bytes : list byte) : udpMessage :=
  {| message with fragmentID := (N.of_nat index mod 256)%N; fragmentTotal := (total mod 256)%N; data := bytes |}.

Definition fragUDPMessage (message : udpMessage) (maxPacketSize : Z) : option (result (list udpMessage)) :=
  let udpMTU := maxPacketSize - headerSize message in
  if Z.of_nat (length (data message)) <=? udpMTU then Some (Ok [message])
  else
    match fragLoop (length (data message)) (data message) (Z.of_nat (length (data message))) udpMTU with
    | Some (Ok fragments) =>
        let fragmentTotal := (N.of_nat (length fragments) mod 65536)%N in
        Some (Ok (imap (fragment message fragmentTotal) fragments))
    | Some (Err err) => Some (Err err)
    | Some (Panic msg) => Some (Panic msg)
    | None => None
    end.

(** ** Writing *)

(** What [SendDatagram] says. *)
Inductive reply : Type :=
| Sent
| TooLarge (maxDatagramPayloadSize : Z)
| Refused (err : error).

Inductive sendOutcome : Type :=
| SendOk
| SendTooLarge (maxDatagramPayloadSize : Z)
| SendError (err : error).

Definition writePacket (r : reply) (message : udpMessage) : result (list (list byte) * sendOutcome) :=
  packet ← pack message;
  Ok (match r with Sent => ([packet], SendOk) | TooLarge n => ([], SendTooLarge n) | Refused err => ([], SendError err) end).

(** [replies i]: the answer to the [i]-th datagram. *)
Fixpoint writePackets (replies : nat -> reply) (messages : list udpMessage) : result (list (list byte) * sendOutcome) :=
  match messages with
  | [] => Ok ([], SendOk)
  | message :: messages =>
      '(sent, out) ← writePacket (replies 0%nat) message;
      match out with
      | SendOk => '(more, out) ← writePackets (fun i => replies (S i)) messages; Ok (sent ++ more, out)
      | out => Ok (sent, out)
      end
  end.

(** Sends the fragments of a message. *)
Definition writeFragments (replies : nat -> reply) (message : udpMessage) (maxPacketSize : Z)
    : option (result (list (list byte) * sendOutcome)) :=
  match fragUDPMessage message maxPacketSize with
  | Some (Ok fragments) => Some (writePackets replies fragments)
  | Some (Err err) => Some (Err err)
  | Some (Panic msg) => Some (Panic msg)
  | None => None
  end.

Definition udpMTU : Z := 1200 - 3.

(** The identifier of the next packet; [counter] is an [atomic.Uint32]. *)
Definition nextPacketID (counter : N) : N * N :=
  let counter := ((counter + 1) mod 2 ^ 32)%N in (counter, (counter mod 65535)%N).

(** [WritePacket] and [WriteTo]: the counter, the datagrams sent, and the outcome.
    [replies] answer the first attempt, and [replies2] the second. *)
Definition WritePacket (replies replies2 : nat -> reply) (done : bool) (session counter : N) (dest buffer : list byte)
    : N * option (result (list (list byte) * sendOutcome)) :=
  if done then (counter, Some (Ok ([], SendError (ErrExternal "net.ErrClosed"))))
  else if (MaxUDPSize <? length buffer)%nat then (counter, Some (Ok ([], SendTooLarge (Z.of_nat MaxUDPSize))))
  else
    let '(counter, packetId) := nextPacketID counter in
    let message := mkUdpMessage session packetId 0 1 dest buffer in
    let first :=
      if udpMTU - headerSize message <? Z.of_nat (length buffer) then writeFragments replies message udpMTU
      else Some (writePacket (replies 0%nat) message) in
    (counter,
     match first with
     | Some (Ok (sent, SendTooLarge n)) =>
         match writeFragments replies2 message (n - 3) with
         | Some (Ok (more, out)) => Some (Ok (sent ++ more, out))
         | out => out
         end
     | out => out
     end).

(** ** Joining *)

(** [feed] on the item of the packet: the item, and all fragments when they are complete. *)
Definition feedItem {P} (get : P -> udpMessage) (item : packetItem P) (m : P) : packetItem P * option (list P) :=
  let total := N.to_nat (fragmentTotal (get m)) in
  let i := N.to_nat (fragmentID (get m)) in
  if negb (total =? length (messages item))%nat then
    (mkPacketItem (<[i := Some m]> (replicate total None)) 1, None)
  else
    match messages item !! i with
    | Some None =>
        let messages := <[i := Some m]> (messages item) in
        let count := ((count item + 1) mod 256)%N in
        if negb (N.to_nat count =? length messages)%nat then (mkPacketItem messages count, None)
        else (mkPacketItem [] count, Some (omap id messages))
    | _ => (item, None)
    end.

(** The message made of all fragments, where [m] came last; a message without data is
    dropped. *)
Definition joined {P} (get : P -> udpMessage) (m : P) (parts : list P) : option udpMessage :=
  let bytes := concat (map (fun p => data (get p)) parts) in
  if (0 <? length bytes)%nat then
    Some (mkUdpMessage (sessionID (get m)) (packetID (get m)) 0 0
            (match parts with p :: _ => destination (get p) | [] => [] end) bytes)
  else None.

Definition feed {P} (get : P -> udpMessage) (d : udpDefragger P) (m : P) : udpDefragger P * fed P :=
  if (fragmentTotal (get m) <=? 1)%N then (d, Same)
  else if (fragmentTotal (get m) <=? fragmentID (get m))%N then (d, Nothing)
  else
    let item := default newPacketItem (d !! packetID (get m)) in
    let '(item, parts) := feedItem get item m in
    (<[packetID (get m) := item]> d,
     match parts with Some parts => Joined parts (joined get m parts) | None => Nothing end).

(** ** The receiving side of a connection *)

(** The channel [data]; a [select] with a [default] branch drops what does not fit. *)
Definition dataCapacity : nat := 64.
Definition offerData {A} (x : A) (ch : list A) : list A := if (length ch <? dataCapacity)%nat then ch ++ [x] else ch.

(** What [udpPacketConn] has for receiving. *)
Record receiver : Type := mkReceiver { defragger : udpDefragger udpMessage; dataQueue : list udpMessage }.

Definition inputPacket (c : receiver) (m : udpMessage) : receiver :=
  if (fragmentTotal m <=? 1)%N then {| c with dataQueue := offerData m (dataQueue c) |}
  else
    let '(d, newMessage) := feed id (defragger c) m in
    let c := {| c with defragger := d |} in
    match newMessage with
    | Joined _ (Some newMessage) => {| c with dataQueue := offerData newMessage (dataQueue c) |}
    | Same => {| c with dataQueue := offerData m (dataQueue c) |}
    | _ => c
    end.

(** What [ReadPacket] takes from the channel, if there is something. *)
Definition takeData (c : receiver) : receiver * option udpMessage :=
  match dataQueue c with
  | [] => (c, None)
  | m :: rest => ({| c with dataQueue := rest |}, Some m)
  end.

End Udp.

End Hy2Udp.
