(* ===== verification/Hy2UdpTheorems.v ===== *)
(** * Properties of the datagrams of Hysteria 2 (Hy2Udp) *)

From S2P Require Import Prelude GoStd Metadata Binary Datagram Hy2Wire Hy2Udp.
From Stdlib Require Import Strings.Byte.
From stdpp Require Import list.
Import Hy2Wire Hy2Udp.

Open Scope nat_scope.

Section Udp.
Context {Q : Quicvarint} {L : QuicvarintLaws Q}.

(** ** Cutting *)

Lemma fragLoop_spec fuel origin mtu : (0 < mtu)%Z -> length origin <= fuel ->
  exists chunks, fragLoop fuel origin (Z.of_nat (length origin)) mtu = Some (Ok chunks)
    /\ concat chunks = origin
    /\ Forall (fun c => (0 < Z.of_nat (length c) <= mtu)%Z) chunks
    /\ ((Z.of_nat (length chunks) - 1) * mtu <= Z.of_nat (length origin) - 1 \/ origin = [])%Z
    /\ ((mtu < Z.of_nat (length origin))%Z -> 2 <= length chunks).
Proof.
  intros Hm. revert origin. induction fuel as [|fuel IH]; intros origin Hf.
  { destruct origin; [|simpl in Hf; lia]. exists []. repeat split; [constructor|by right|simpl; lia]. }
  cbn [fragLoop]. destruct (Z.ltb_spec 0 (Z.of_nat (length origin))) as [H0|H0].
  2:{ destruct origin; [|simpl in H0; lia]. exists []. repeat split; [constructor|by right|simpl; lia]. }
  destruct (Z.ltb_spec mtu (Z.of_nat (length origin))) as [Hlt|Hge].
  - rewrite (proj2 (Z.ltb_ge _ _)) by lia.
    destruct (IH (drop (Z.to_nat mtu) origin)) as (chunks & Hrun & Hc & Hall & Hn & _); [rewrite length_drop; lia|].
    rewrite length_drop in Hrun, Hn.
    replace (Z.of_nat (length origin) - mtu)%Z with (Z.of_nat (length origin - Z.to_nat mtu)) by lia. rewrite Hrun.
    exists (take (Z.to_nat mtu) origin :: chunks). split; [done|]. split; [cbn [concat]; by rewrite Hc, take_drop|].
    split; [constructor; [rewrite length_take; lia|done]|].
    assert (0 < length chunks). { destruct chunks; [|simpl; lia]. apply (f_equal length) in Hc. rewrite length_drop in Hc. simpl in Hc. lia. }
    destruct Hn as [Hn|Hn]; [|apply (f_equal length) in Hn; rewrite length_drop in Hn; simpl in Hn; lia].
    split; [left; cbn [length]; nia|simpl; lia].
  - assert (fragLoop fuel [] (Z.of_nat (length origin) - mtu) mtu = Some (Ok [])) as ->.
    { destruct fuel; cbn [fragLoop]; by rewrite (proj2 (Z.ltb_ge _ _)) by lia. }
    exists [origin]. split; [done|]. split; [cbn [concat]; by rewrite app_nil_r|].
    split; [constructor; [lia|constructor]|]. split; [left; simpl; lia|lia].
Qed.

(** A message in pieces. *)
Definition piecesOf (message : udpMessage) (pieces : list udpMessage) : Prop :=
  2 <= length pieces <= 255
  /\ (forall i piece, pieces !! i = Some piece ->
        piece = {| message with fragmentID := N.of_nat i; fragmentTotal := N.of_nat (length pieces); data := data piece |})
  /\ concat (map data pieces) = data message.

Lemma fragUDPMessage_pieces message maxPacketSize :
  let mtu := (maxPacketSize - headerSize message)%Z in
  (0 < mtu < Z.of_nat (length (data message)))%Z -> (Z.of_nat (length (data message)) <= 255 * mtu)%Z ->
  exists pieces, fragUDPMessage message maxPacketSize = Some (Ok pieces) /\ piecesOf message pieces
    /\ Forall (fun piece => (0 < Z.of_nat (length (data piece)) <= mtu)%Z) pieces.
Proof.
  intros mtu [Hpos Hlt] Hmax. unfold fragUDPMessage. fold mtu. rewrite (proj2 (Z.leb_gt _ _)) by done.
  destruct (fragLoop_spec (length (data message)) (data message) mtu Hpos ltac:(done)) as (chunks & -> & Hc & Hall & Hn & H2).
  specialize (H2 Hlt). assert (Hlen : length chunks <= 255). { destruct Hn as [Hn|Hn]; [nia|rewrite Hn in Hlt; simpl in Hlt; lia]. }
  eexists. split; [done|]. rewrite (N.mod_small _ 65536) by lia.
  set (pieces := imap _ chunks). assert (Hl : length pieces = length chunks) by apply length_imap.
  split; [split; [lia|split]|].
  - intros i piece Hi. unfold pieces in Hi. rewrite list_lookup_imap in Hi. destruct (chunks !! i) as [c|] eqn:Hci; [|done].
    injection Hi as <-. apply lookup_lt_Some in Hci. rewrite Hl. unfold fragment. cbn [data].
    rewrite !N.mod_small by lia. done.
  - rewrite <- Hc. f_equal. apply list_eq. intros i. unfold pieces. rewrite list_lookup_fmap, list_lookup_imap.
    by destruct (chunks !! i).
  - apply Forall_lookup. intros i piece Hi. unfold pieces in Hi. rewrite list_lookup_imap in Hi.
    destruct (chunks !! i) as [c|] eqn:Hci; [|done]. injection Hi as <-. cbn [data fragment].
    by apply (proj1 (Forall_lookup _ _) Hall i).
Qed.

Lemma piece_wf message pieces piece : wf_message message -> piecesOf message pieces -> piece ∈ pieces ->
  wf_message piece /\ headerSize piece = headerSize message.
Proof.
  intros (H1 & H2 & _ & _ & H5) (Hn & Hp & _) (i & Hi)%list_elem_of_lookup. specialize (Hp i piece Hi) as ->.
  apply lookup_lt_Some in Hi. repeat split; cbn; try done; lia.
Qed.

(** A packet of up to 4096 bytes that does not fit into a datagram, but of which at least
    17 bytes fit, is cut into between 2 and 255 fragments; every fragment fits into a
    datagram, decodes to what was sent, and together they hold the packet. *)
Theorem hy2_fragments_fit message maxPacketSize :
  wf_message message -> (length (data message) <= MaxUDPSize) ->
  (headerSize message + 17 <= maxPacketSize < headerSize message + Z.of_nat (length (data message)))%Z ->
  exists pieces, fragUDPMessage message maxPacketSize = Some (Ok pieces) /\ piecesOf message pieces
    /\ forall piece, piece ∈ pieces -> exists packet, pack piece = Ok packet
         /\ (Z.of_nat (length packet) <= maxPacketSize)%Z /\ decodeUDPMessage packet = Some (Ok piece).
Proof.
  intros Hwf Hlen Hmax. unfold MaxUDPSize in Hlen.
  destruct (fragUDPMessage_pieces message maxPacketSize) as (pieces & Hrun & Hp & Hfit); [lia..|].
  exists pieces. split; [done|]. split; [done|]. intros piece Hin.
  destruct (piece_wf message pieces piece Hwf Hp Hin) as [Hw Hh]. destruct (decode_pack piece Hw) as (packet & Hpack & Hdec).
  exists packet. split; [done|]. split; [|done]. rewrite (length_pack piece packet Hw Hpack), Hh.
  rewrite Forall_forall in Hfit. specialize (Hfit piece Hin). simpl in Hfit. lia.
Qed.

End Udp.

(** ** Joining *)

(** What happens to a receiver: a message arrives, its cache forgets a packet, or somebody reads. *)
Inductive event : Type :=
| Arrive (m : udpMessage)
| Forget (id : N)
| Take.
Definition about (id : N) (e : event) : Prop :=
  match e with Arrive m => packetID m = id | Forget i => i = id | Take => False end.
#[local] Instance about_dec id e : Decision (about id e).
Proof. destruct e; unfold about; apply _. Defined.

(** The receiver afterwards, and what was read from it. *)
Fixpoint receive (es : list event) (c : receiver) : receiver * list udpMessage :=
  match es with
  | [] => (c, [])
  | Arrive m :: es => receive es (inputPacket c m)
  | Forget id :: es => receive es {| c with defragger := delete id (defragger c) |}
  | Take :: es =>
      let '(c, m) := takeData c in
      let '(c, ms) := receive es c in (c, option_list m ++ ms)
  end.
(** What was read, and what can still be read. *)
Definition handedOver (es : list event) (c : receiver) : list udpMessage :=
  let '(c, ms) := receive es c in ms ++ dataQueue c.

Abbreviation ofPacket pid := (filter (fun m => packetID m = pid)).
Abbreviation itemOf pid c := (default newPacketItem (defragger c !! pid)).

Lemma receive_app es es' c : receive (es ++ es') c =
  let '(c1, ms) := receive es c in let '(c2, ms') := receive es' c1 in (c2, ms ++ ms').
Proof.
  revert c. induction es as [|[m|id'|] es IH]; intros c; cbn [app receive]; [by destruct (receive es' c)|apply IH|apply IH|].
  destruct (takeData c) as [c1 m]. rewrite IH. destruct (receive es c1) as [c2 ms], (receive es' c2). by rewrite app_assoc.
Qed.

Lemma offerData_of pid m ch : ofPacket pid (offerData m ch) =
  ofPacket pid ch ++ (if length ch <? dataCapacity then ofPacket pid [m] else []).
Proof. unfold offerData. destruct (_ <? _); [apply filter_app|by rewrite app_nil_r]. Qed.

Lemma inputPacket_other c m pid : packetID m <> pid ->
  defragger (inputPacket c m) !! pid = defragger c !! pid /\ ofPacket pid (dataQueue (inputPacket c m)) = ofPacket pid (dataQueue c).
Proof.
  intros Hne. assert (Hoff : forall m', packetID m' = packetID m -> ofPacket pid (offerData m' (dataQueue c)) = ofPacket pid (dataQueue c)).
  { intros m' Hm'. rewrite offerData_of. destruct (_ <? _); [|apply app_nil_r]. rewrite filter_cons_False by congruence. apply app_nil_r. }
  unfold inputPacket. destruct (fragmentTotal m <=? 1)%N eqn:E1; [split; [done|by apply Hoff]|]. unfold feed. cbn [id]. rewrite E1.
  destruct (_ <=? fragmentID _)%N; [done|]. destruct (feedItem _ _ _) as [item [parts|]]; [|split; [by apply lookup_insert_ne|done]].
  unfold joined. destruct (0 <? _); (split; [by apply lookup_insert_ne|]); [by apply Hoff|done].
Qed.

(** A fragment goes to the item of its packet, and when it is the last one the packet is offered. *)
Lemma inputPacket_fragment c m item parts : (1 < fragmentTotal m)%N -> (fragmentID m < fragmentTotal m)%N -> feedItem id (itemOf (packetID m) c) m = (item, parts) ->
  itemOf (packetID m) (inputPacket c m) = item /\
  dataQueue (inputPacket c m) = match parts ≫= joined id m with Some new => offerData new (dataQueue c) | None => dataQueue c end.
Proof.
  intros H1 H2 Hf. unfold inputPacket, feed. cbn [id]. rewrite (proj2 (N.leb_gt _ _)) by done. rewrite (proj2 (N.leb_gt _ _)) by done. rewrite Hf.
  destruct parts as [parts|]; cbn; [destruct (joined id m parts); cbn|]; by rewrite lookup_insert_eq.
Qed.

(** The receiver of one packet, as long as it is not complete. *)
Fixpoint feedAll (ms : list udpMessage) (item : packetItem udpMessage) : option (packetItem udpMessage) :=
  match ms with
  | [] => Some item
  | m :: ms => match feedItem id item m with (item, None) => feedAll ms item | _ => None end
  end.

(** Other packets do not matter to a packet, nor do the reads. *)
Lemma receive_quiet es c pid ms item : (forall m, m ∈ ms -> (1 < fragmentTotal m)%N /\ (fragmentID m < fragmentTotal m)%N) ->
  filter (about pid) es = map Arrive ms -> feedAll ms (itemOf pid c) = Some item ->
  let '(c', got) := receive es c in itemOf pid c' = item /\ ofPacket pid (got ++ dataQueue c') = ofPacket pid (dataQueue c).
Proof.
  revert c ms. induction es as [|e es IH]; intros c ms Hms Hf Hitem; cbn [receive].
  { destruct ms; [|done]. by injection Hitem as ->. }
  destruct (decide (about pid e)) as [Ha|Ha].
  - rewrite filter_cons_True in Hf by done. destruct ms as [|m ms]; [done|]. cbn [map] in Hf. injection Hf as -> Hf. cbn [about] in Ha. subst pid.
    destruct (Hms m) as [H1 H2]; [by left|]. cbn [feedAll] in Hitem. destruct (feedItem id _ m) as [item' [parts|]] eqn:E; [done|].
    destruct (inputPacket_fragment c m item' None H1 H2 E) as [Hi Hq]. cbn in Hq. rewrite <- Hi in Hitem.
    specialize (IH (inputPacket c m) ms (fun m' Hm' => Hms m' (list_elem_of_further _ _ _ Hm')) Hf Hitem). by rewrite Hq in IH.
  - rewrite filter_cons_False in Hf by done. destruct e as [m|id'|].
    + destruct (inputPacket_other c m pid Ha) as [Hd Hq]. rewrite <- Hd in Hitem. specialize (IH _ ms Hms Hf Hitem). by rewrite Hq in IH.
    + specialize (IH {| c with defragger := delete id' (defragger c) |} ms Hms Hf). cbn [defragger dataQueue] in IH. rewrite lookup_delete_ne in IH by done. by apply IH.
    + unfold takeData. destruct (dataQueue c) as [|m rest] eqn:Eq; cbn beta iota.
      * specialize (IH c ms Hms Hf Hitem). destruct (receive es c) as [c' got]. by rewrite Eq in IH.
      * specialize (IH {| c with dataQueue := rest |} ms Hms Hf Hitem). destruct (receive es _) as [c' got]. destruct IH as [Hi Hq]. split; [done|].
        change (ofPacket pid (m :: (got ++ dataQueue c')) = ofPacket pid (m :: rest)). rewrite !filter_cons, Hq. done.
Qed.

(** The item when the pieces with some indices have arrived. *)
Definition partial (pieces : list udpMessage) (done : list nat) : packetItem udpMessage :=
  if decide (done = []) then newPacketItem
  else mkPacketItem (map (fun i => if decide (i ∈ done) then pieces !! i else None) (seq 0 (length pieces))) (N.of_nat (length done)).

(** A new item, up to a counter that does not matter. *)
Definition empty_item (item : packetItem udpMessage) : Prop := messages item = [].

Lemma insert_partial (pieces : list udpMessage) done j piece : pieces !! j = Some piece -> j ∉ done ->
  <[j := Some piece]> (map (fun i => if decide (i ∈ done) then pieces !! i else None) (seq 0 (length pieces)))
  = map (fun i => if decide (i ∈ done ++ [j]) then pieces !! i else None) (seq 0 (length pieces)).
Proof.
  intros Hj Hn. apply list_eq. intros i. destruct (decide (i < length pieces)) as [Hi|Hi].
  - destruct (decide (i = j)) as [->|Hne].
    + rewrite list_lookup_insert_eq by (by rewrite length_map, length_seq).
      rewrite list_lookup_fmap, lookup_seq_lt by done. cbn. rewrite decide_True by set_solver. by rewrite Hj.
    + rewrite list_lookup_insert_ne, !list_lookup_fmap, lookup_seq_lt by done. cbn.
      destruct (decide (i ∈ done)) as [Hd|Hd]; [rewrite decide_True by set_solver|rewrite decide_False by set_solver]; done.
  - rewrite !lookup_ge_None_2; [done|rewrite length_map, length_seq; lia|rewrite length_insert, length_map, length_seq; lia].
Qed.

Lemma piece_ids message pieces j piece : piecesOf message pieces -> pieces !! j = Some piece ->
  fragmentTotal piece = N.of_nat (length pieces) /\ fragmentID piece = N.of_nat j.
Proof. intros (_ & Hp & _) Hj. specialize (Hp j piece Hj). by rewrite Hp. Qed.

Lemma feedItem_first message pieces item j piece : piecesOf message pieces -> pieces !! j = Some piece -> empty_item item ->
  feedItem id item piece = (partial pieces [j], None).
Proof.
  intros Hpc Hj He. destruct (piece_ids _ _ _ _ Hpc Hj) as [Ht Hi]. destruct Hpc as (Hn & _ & _).
  unfold feedItem. cbn [id]. rewrite Ht, Hi, !Nat2N.id, He. cbn [length]. rewrite (proj2 (Nat.eqb_neq _ _)) by lia. cbn [negb]. unfold partial.
  rewrite decide_False by done. f_equal. f_equal.
  etransitivity; [|exact (insert_partial pieces [] j piece Hj (not_elem_of_nil j))]. f_equal.
  apply list_eq. intros i. rewrite list_lookup_fmap. destruct (decide (i < length pieces)).
  - rewrite lookup_replicate_2, lookup_seq_lt by done. done.
  - rewrite lookup_seq_ge by lia. by rewrite lookup_ge_None_2 by (rewrite length_replicate; lia).
Qed.

Lemma partial_cons pieces done : done <> [] ->
  partial pieces done = mkPacketItem (map (fun i => if decide (i ∈ done) then pieces !! i else None) (seq 0 (length pieces))) (N.of_nat (length done)).
Proof. intros Hd. unfold partial. by rewrite decide_False. Qed.

Lemma feedItem_next message pieces done j piece : piecesOf message pieces -> done <> [] -> NoDup (done ++ [j]) ->
  (forall i, i ∈ done -> i < length pieces) -> pieces !! j = Some piece ->
  feedItem id (partial pieces done) piece =
    if decide (S (length done) = length pieces) then (mkPacketItem [] (N.of_nat (length pieces)), Some pieces)
    else (partial pieces (done ++ [j]), None).
Proof.
  intros Hpc Hne Hd Hin Hj. destruct (piece_ids _ _ _ _ Hpc Hj) as [Ht Hid]. destruct Hpc as (Hn & _ & _). assert (Hnew : j ∉ done) by (apply NoDup_app in Hd as (_ & Hd & _); set_solver).
  assert (Hjl : j < length pieces) by (by eapply lookup_lt_Some).
  assert (Hlen : length (done ++ [j]) <= length pieces).
  { rewrite <- (length_seq (length pieces) 0). apply submseteq_length, NoDup_submseteq; [done|]. intros i Hi.
    apply elem_of_seq. apply elem_of_app in Hi as [Hi|Hi]; [specialize (Hin i Hi)|apply list_elem_of_singleton in Hi]; lia. }
  rewrite length_app in Hlen. cbn [length] in Hlen.
  unfold feedItem. cbn [id]. rewrite (partial_cons pieces done), (partial_cons pieces (done ++ [j])) by (done || by destruct done). cbn [messages count].
  rewrite Ht, Hid, !Nat2N.id, length_map, length_seq, Nat.eqb_refl. cbn [negb].
  rewrite list_lookup_fmap, lookup_seq_lt by done. cbn [fmap option_fmap option_map]. rewrite decide_False by done.
  rewrite insert_partial by done. rewrite length_map, length_seq. rewrite N.mod_small by lia.
  replace (N.to_nat (N.of_nat (length done) + 1)) with (S (length done)) by lia.
  destruct (decide (S (length done) = length pieces)) as [He|He].
  - rewrite He, Nat.eqb_refl. cbn [negb]. f_equal; [f_equal; lia|]. f_equal.
    assert (Hall : map (fun i => if decide (i ∈ done ++ [j]) then pieces !! i else None) (seq 0 (length pieces)) = map Some pieces).
    { apply list_eq. intros i. rewrite !list_lookup_fmap. destruct (decide (i < length pieces)) as [Hi|Hi].
      - rewrite lookup_seq_lt by done. destruct (lookup_lt_is_Some_2 pieces i Hi) as [x Hx]. cbn. rewrite Hx. cbn.
        rewrite decide_True; [done|]. assert (Hperm : done ++ [j] ≡ₚ seq 0 (length pieces)).
        { apply submseteq_length_Permutation; [|rewrite length_seq, length_app; simpl; lia]. apply NoDup_submseteq; [done|].
          intros k Hk. apply elem_of_seq. apply elem_of_app in Hk as [Hk|Hk]; [specialize (Hin k Hk)|apply list_elem_of_singleton in Hk]; lia. }
        rewrite Hperm. apply elem_of_seq. lia.
      - rewrite lookup_seq_ge, (lookup_ge_None_2 pieces) by lia. done. }
    rewrite Hall. clear. induction pieces as [|x l IH]; [done|]. cbn. f_equal. exact IH.
  - rewrite (proj2 (Nat.eqb_neq _ _)) by done. cbn [negb].
    rewrite length_app. cbn [length]. f_equal. f_equal. lia.
Qed.

(** The message without the marks of a fragment. *)
Definition whole (message : udpMessage) : udpMessage := {| message with fragmentID := 0%N; fragmentTotal := 0%N |}.

Lemma joined_pieces message pieces j piece : piecesOf message pieces -> data message <> [] -> pieces !! j = Some piece ->
  joined id piece pieces = Some (whole message).
Proof.
  intros (Hn & Hp & Hc) Hd Hj. unfold joined. change (map (fun p => data (id p)) pieces) with (map data pieces). rewrite Hc.
  destruct (0 <? length (data message)) eqn:Hl; [|by destruct (data message)].
  assert (Hpc := Hp j piece Hj). destruct pieces as [|p0 pieces]; [simpl in Hn; lia|]. assert (Hp0 := Hp 0 p0 eq_refl).
  cbn [id]. rewrite Hpc, Hp0. done.
Qed.

Lemma feedAll_pieces message pieces ms todo got rest item :
  piecesOf message pieces -> Forall2 (fun m j => pieces !! j = Some m) ms todo ->
  got ++ todo ++ rest ≡ₚ seq 0 (length pieces) -> rest <> [] ->
  match got with [] => empty_item item | _ => item = partial pieces got end ->
  exists item', feedAll ms item = Some item' /\ match got ++ todo with [] => empty_item item' | _ => item' = partial pieces (got ++ todo) end.
Proof.
  intros Hpc Hf. revert got item. induction Hf as [|m j ms todo Hj Hf IH]; intros got item Hperm Hne Hitem.
  { exists item. rewrite app_nil_r. done. }
  assert (Hnd : NoDup (got ++ j :: todo ++ rest)) by (rewrite Hperm; apply NoDup_seq).
  assert (Hlen := Permutation_length Hperm). rewrite length_seq, length_app in Hlen. cbn [length app] in Hlen. rewrite length_app in Hlen.
  assert (Hrest : 0 < length rest) by (destruct rest; [done|simpl; lia]).
  assert (Hcons : forall l : list nat, (got ++ [j]) ++ l = got ++ j :: l) by (intros l; by rewrite <- app_assoc).
  cbn [feedAll]. rewrite <- (Hcons todo). destruct got as [|d got].
  - rewrite (feedItem_first message pieces item j m Hpc Hj Hitem). by apply (IH [j]).
  - subst item. rewrite (feedItem_next message pieces (d :: got) j m Hpc); [|done| | |done].
    2:{ rewrite <- (Hcons (todo ++ rest)) in Hnd. by apply NoDup_app in Hnd as (Hnd & _ & _). }
    2:{ intros i Hi. assert (i ∈ seq 0 (length pieces)) as H by (rewrite <- Hperm; set_solver). apply elem_of_seq in H. lia. }
    rewrite decide_False by (simpl in Hlen; simpl; lia). apply (IH ((d :: got) ++ [j])); [|done|done].
    by rewrite Hcons.
Qed.

Lemma filter_last {A} (P : A -> Prop) `{!forall x, Decision (P x)} l k x : filter P l = k ++ [x] ->
  exists l1 l2, l = l1 ++ x :: l2 /\ filter P l1 = k /\ filter P l2 = [].
Proof.
  revert k. induction l as [|y l IH]; intros k; [by destruct k|]. rewrite filter_cons. destruct (decide (P y)) as [Hy|Hy].
  - destruct k as [|z k]; cbn [app]; intros [= -> E].
    + exists [], l. done.
    + destruct (IH k E) as (l1 & l2 & -> & H1 & H2). exists (z :: l1), l2. rewrite filter_cons_True by done. by rewrite H1.
  - intros E. destruct (IH k E) as (l1 & l2 & -> & H1 & H2). exists (y :: l1), l2. by rewrite filter_cons_False.
Qed.

Lemma pieces_indexed (pieces : list udpMessage) : Forall2 (fun m j => pieces !! j = Some m) pieces (seq 0 (length pieces)).
Proof.
  apply Forall2_same_length_lookup. split; [by rewrite length_seq|]. intros i m j Hm Hj.
  apply lookup_seq in Hj as [-> _]. done.
Qed.

Lemma piece_bounds message pieces m : piecesOf message pieces -> m ∈ pieces -> (1 < fragmentTotal m)%N /\ (fragmentID m < fragmentTotal m)%N /\ packetID m = packetID message.
Proof.
  intros Hpc [j Hj]%list_elem_of_lookup. destruct (piece_ids _ _ _ _ Hpc Hj) as [-> ->]. destruct Hpc as (Hn & Hp & _). apply lookup_lt_Some in Hj as Hl.
  split_and!; [lia|lia|]. by rewrite (Hp j m Hj).
Qed.

(** The packet when its last fragment has come: offered to the channel. *)
Lemma last_fragment message pieces ms last todo j c : piecesOf message pieces -> data message <> [] ->
  Forall2 (fun m j => pieces !! j = Some m) (ms ++ [last]) (todo ++ [j]) -> todo ++ [j] ≡ₚ seq 0 (length pieces) -> itemOf (packetID message) c = partial pieces todo ->
  dataQueue (inputPacket c last) = offerData (whole message) (dataQueue c).
Proof.
  intros Hpc Hd Hf Hperm Hitem. apply Forall2_app_inv in Hf as [Hf Hl]; [|apply Forall2_length in Hf; rewrite !length_app in Hf; simpl in Hf; lia].
  apply Forall2_cons_1 in Hl as [Hj _]. assert (Hlen := Permutation_length Hperm). rewrite length_app, length_seq in Hlen. simpl in Hlen.
  pose proof Hpc as [Hn _]. assert (Hnd : NoDup (todo ++ [j])) by (rewrite Hperm; apply NoDup_seq).
  destruct (piece_bounds message pieces last Hpc) as (H1 & H2 & Hid); [by eapply list_elem_of_lookup_2|].
  assert (E : feedItem id (itemOf (packetID last) c) last = (mkPacketItem [] (N.of_nat (length pieces)), Some pieces)).
  { rewrite Hid, Hitem, (feedItem_next message pieces todo j last Hpc); [by rewrite decide_True by lia| |done| |done].
    - intros ->. simpl in Hlen. lia.
    - intros i Hi. assert (i ∈ seq 0 (length pieces)) as H by (rewrite <- Hperm; set_solver). apply elem_of_seq in H. lia. }
  destruct (inputPacket_fragment c last _ _ H1 H2 E) as [_ ->]. cbn. by rewrite (joined_pieces message pieces j last Hpc Hd Hj).
Qed.

(** C23: the fragments of a packet, in any order and between any datagrams of packets with other identifiers, while the
    cache forgets other packets and the reader reads, make the receiver hand over the packet exactly once, with its
    session, destination and data, if the channel to the reader has room when the last of them comes; if the channel is
    full with its 64 messages the packet is dropped.  Nothing of this packet was there before. *)
Theorem hy2_packets_reassemble message pieces es c : let pid := packetID message in
  piecesOf message pieces -> data message <> [] -> filter (about pid) es ≡ₚ map Arrive pieces ->
  empty_item (itemOf pid c) -> ofPacket pid (dataQueue c) = [] ->
  exists es1 last es2, es = es1 ++ Arrive last :: es2 /\ last ∈ pieces /\ filter (about pid) es2 = [] /\
    ofPacket pid (handedOver es c) = if length (dataQueue (receive es1 c).1) <? 64 then [whole message] else [].
Proof.
  intros pid Hpc Hd Hes Hitem Hq. apply Permutation_map_inv in Hes as (ms & Hms & Hperm).
  destruct (Permutation_Forall2 Hperm (pieces_indexed pieces)) as (todo & Htodo & Hf).
  assert (Hlen := Permutation_length Htodo). rewrite length_seq in Hlen. pose proof Hpc as [Hn _].
  destruct ms as [|last ms _] using rev_ind; [apply Forall2_nil_inv_l in Hf as ->; simpl in Hlen; lia|].
  destruct todo as [|j todo _] using rev_ind; [simpl in Hlen; lia|]. symmetry in Htodo.
  rewrite map_app in Hms. destruct (filter_last _ _ _ _ Hms) as (es1 & es2 & -> & H1 & H2).
  assert (Hin : forall m, m ∈ ms ++ [last] -> m ∈ pieces) by (intros m Hm; by rewrite Hperm).
  exists es1, last, es2. split; [done|]. split; [apply Hin; set_solver|]. split; [done|].
  destruct (feedAll_pieces message pieces ms todo [] [j] (itemOf pid c)) as (item & Hall & Hst); [done| |done|done|done|].
  { apply Forall2_app_inv in Hf as [Hf _]; [done|]. apply Forall2_length in Hf. rewrite !length_app in Hf. simpl in Hf. lia. }
  pose proof (receive_quiet es1 c pid ms item) as Hq1. unfold handedOver. rewrite receive_app. cbn [receive]. destruct (receive es1 c) as [c1 got1].
  destruct Hq1 as [Hi1 Hg1]; [intros m Hm; destruct (piece_bounds message pieces m Hpc) as (? & ? & _); [apply Hin; set_solver|done]|done|done|].
  cbn [fst]. cbn [app] in Hst. assert (item = partial pieces todo) as ->.
  { destruct todo; [|done]. simpl in Hlen. lia. }
  pose proof (last_fragment message pieces ms last todo j c1 Hpc Hd Hf Htodo Hi1) as Hlast.
  pose proof (receive_quiet es2 (inputPacket c1 last) pid [] _ ltac:(by intros m ?%elem_of_nil) H2 eq_refl) as Hq2.
  destruct (receive es2 (inputPacket c1 last)) as [c2 got2]. destruct Hq2 as [_ Hg2].
  rewrite <- app_assoc, filter_app, Hg2, Hlast, offerData_of, app_assoc, <- filter_app, Hg1, Hq. change dataCapacity with 64. cbn [app].
  destruct (_ <? 64); [|done]. by rewrite filter_cons_True.
Qed.

(** ** A packet in three fragments *)

Definition samplePacket : udpMessage := mkUdpMessage 7 9 0 1 [x61] (repeat x05 40).
Definition samplePieces : list udpMessage :=
  [mkUdpMessage 7 9 0 3 [x61] (repeat x05 17); mkUdpMessage 7 9 1 3 [x61] (repeat x05 17); mkUdpMessage 7 9 2 3 [x61] (repeat x05 6)].

Lemma hy2_fragments_fit_witness :
  exists pieces, fragUDPMessage (Q := sampleVarint) samplePacket 27 = Some (Ok pieces) /\ piecesOf samplePacket pieces.
Proof.
  destruct (hy2_fragments_fit (Q := sampleVarint) (L := sampleVarint_laws) samplePacket 27) as (pieces & H1 & H2 & _).
  - by repeat split.
  - cbn. unfold MaxUDPSize. lia.
  - split; reflexivity.
  - by exists pieces.
Defined.

Lemma samplePieces_ok : piecesOf samplePacket samplePieces.
Proof.
  split; [cbn; lia|]. split; [|reflexivity]. intros i piece Hi. destruct i as [|[|[|i]]]; [injection Hi as <-; reflexivity..|done].
Qed.

(** The last fragment comes first, and another packet in between. *)
Definition sampleEvents : list event :=
  Arrive (mkUdpMessage 7 9 2 3 [x61] (repeat x05 6)) :: Arrive (mkUdpMessage 7 10 0 1 [x61] [x01]) :: Forget 11
  :: Arrive (mkUdpMessage 7 9 0 3 [x61] (repeat x05 17)) :: Arrive (mkUdpMessage 7 8 1 3 [x61] [x02])
  :: Arrive (mkUdpMessage 7 9 1 3 [x61] (repeat x05 17)) :: [].

Lemma hy2_packets_reassemble_witness :
  ofPacket 9%N (handedOver (sampleEvents ++ [Take; Take]) (mkReceiver ∅ [])) = [whole samplePacket].
Proof.
  destruct (hy2_packets_reassemble samplePacket samplePieces (sampleEvents ++ [Take; Take]) (mkReceiver ∅ [])) as (es1 & last & es2 & E & _ & H2 & T).
  - exact samplePieces_ok.
  - done.
  - exact (Permutation_cons_append _ _).
  - reflexivity.
  - reflexivity.
  - change (packetID samplePacket) with 9%N in T. rewrite T. clear T.
    destruct es1 as [|? [|? [|? [|? [|? [|? [|? es1]]]]]]]; cbn in E; simplify_eq; try (cbn in H2; discriminate); [reflexivity|].
    match goal with E : _ = es1 ++ _ |- _ => destruct es1 as [|? [|? es1]]; discriminate E end.
Defined.

(** With 64 messages that nobody has read the packet is lost. *)
Example hy2_full_queue_drops : ofPacket 9%N (handedOver sampleEvents (mkReceiver ∅ (repeat (mkUdpMessage 7 1 0 1 [x61] [x01]) 64))) = [].
Proof. vm_compute. reflexivity. Qed.
