(* ===== verification/Hy2Session.v ===== *)
(** * The UDP sessions of a Hysteria 2 server (src/third_party/sing-quic/hysteria2/service_packet.go, and the
    connections and the pool of messages of src/third_party/sing-quic/hysteria2/packet.go)

    Messages come from a pool and go back to it when they have been read, joined or
    forgotten, so that their records are shared: a message is a pointer into a store.
    In every run a reader only gets packets of its own session.  The function that a
    connection calls when it is closed, however, reads the session from a message that
    has been given back long before. *)

From S2P Require Import Prelude GoStd Metadata Binary Datagram Hy2Wire Hy2Udp.
From Stdlib Require Import Strings.Byte.
From stdpp Require Import list.
Import Hy2Wire Hy2Udp.

Open Scope nat_scope.

Module Hy2Session.

(** [c_message]: the message that opened the connection, which its [onDestroy] keeps; [c_done] and [c_destroyed]: how far
    [Close] has come, that is whether the context is cancelled and whether [onDestroy] has run. *)
Record udpPacketConn : Type := mkUdpPacketConn {
  c_session : N;
  c_done : bool;
  c_destroyed : bool;
  c_message : nat;
  c_data : list nat;
  c_defragger : udpDefragger nat;
}.

(** [store]: the messages by their pointers; [pool]: those that were given back. *)
Record serverSession : Type := mkServerSession {
  store : gmap nat udpMessage;
  pool : list nat;
  allocated : nat;
  conns : gmap nat udpPacketConn;
  udpConnMap : gmap N nat;
  nextConn : nat;
}.

Definition zeroMessage : udpMessage := mkUdpMessage 0 0 0 0 [] [].
Definition content (s : serverSession) (p : nat) : udpMessage := default zeroMessage (store s !! p).

(** ** The pool *)

(** [sync.Pool.Get]: one of the pool, or a new message. *)
Definition allocMessage (choice : option nat) (s : serverSession) : nat * serverSession :=
  match choice ≫= (pool s !!.) with
  | Some p => (p, {| s with pool := filter (fun q => q <> p) (pool s) |})
  | None => (allocated s, {| s with allocated := S (allocated s); store := <[allocated s := zeroMessage]> (store s) |})
  end.
Definition setMessage (p : nat) (m : udpMessage) (s : serverSession) : serverSession := {| s with store := <[p := m]> (store s) |}.
(** [release]: [referenced] is set by [allocMessage] and cleared here, that is it holds
    exactly of the messages outside of the pool. *)
Definition release (p : nat) (s : serverSession) : serverSession :=
  if bool_decide (p ∈ pool s) then s else {| s with store := <[p := zeroMessage]> (store s); pool := p :: pool s |}.
Definition releaseMessages (ps : list nat) (s : serverSession) : serverSession := foldl (fun s p => release p s) s ps.

(** ** Connections *)

Definition setConn (c : nat) (k : udpPacketConn) (s : serverSession) : serverSession := {| s with conns := <[c := k]> (conns s) |}.

(** [select { case c.data <- message: default: }] *)
Definition deliver (c : nat) (p : nat) (s : serverSession) : serverSession :=
  match conns s !! c with
  | Some k => setConn c {| k with c_data := offerData p (c_data k) |} s
  | None => s
  end.

(** The messages that [feed] gives back when the number of fragments changes. *)
Definition stale (total : nat) (item : packetItem nat) : list nat :=
  if (total =? length (messages item))%nat then [] else omap id (messages item).

(** [inputPacket] with [feed]; [choice]: where the joined message comes from. *)
Definition inputMessage (choice : option nat) (c p : nat) (s : serverSession) : serverSession :=
  match conns s !! c with
  | None => s
  | Some k =>
      let m := content s p in
      if (fragmentTotal m <=? 1)%N then deliver c p s
      else if (fragmentTotal m <=? fragmentID m)%N then s
      else
        let item := default newPacketItem (c_defragger k !! packetID m) in
        let '(item', parts) := feedItem (content s) item p in
        let s1 := setConn c {| k with c_defragger := <[packetID m := item']> (c_defragger k) |} s in
        match parts with
        | None => releaseMessages (stale (N.to_nat (fragmentTotal m)) item) s1
        | Some parts =>
            let '(new, s2) := allocMessage choice s1 in
            match joined (content s) p parts with
            | Some message => deliver c new (releaseMessages parts (setMessage new message s2))
            | None => releaseMessages parts (release new s2)
            end
        end
  end.

(** A message for a session without a connection opens one. *)
Definition handleUDPMessage (choice : option nat) (p : nat) (s : serverSession) : serverSession :=
  let session := sessionID (content s p) in
  match udpConnMap s !! session with
  | Some c =>
      if match conns s !! c with Some k => negb (c_done k) | None => false end then inputMessage choice c p s
      else inputMessage choice (nextConn s) p
             {| s with conns := <[nextConn s := mkUdpPacketConn session false false p [] ∅]> (conns s);
                       udpConnMap := <[session := nextConn s]> (udpConnMap s); nextConn := S (nextConn s) |}
  | None =>
      inputMessage choice (nextConn s) p
        {| s with conns := <[nextConn s := mkUdpPacketConn session false false p [] ∅]> (conns s);
                  udpConnMap := <[session := nextConn s]> (udpConnMap s); nextConn := S (nextConn s) |}
  end.

Inductive action : Type :=
| Datagram (choice choice2 : option nat) (m : result udpMessage)
| ReadPacket (c : nat)
| CloseConn (c : nat)
| DestroyConn (c : nat)
| Evict (c : nat) (id : N).

(** What a reader gets. *)
Abbreviation output := (nat * udpMessage)%type.

(** [Datagram]: [handleMessage] with the result of [decodeUDPMessage].  [CloseConn]:
    [Close] cancels the context, once.  [DestroyConn]: it goes on with [onDestroy], which takes the lock and removes the
    connection; datagrams can arrive in between. *)
Definition step (a : action) (s : serverSession) : serverSession * option output :=
  match a with
  | Datagram choice choice2 m =>
      let '(p, s) := allocMessage choice s in
      match m with
      | Ok m => (handleUDPMessage choice2 p (setMessage p m s), None)
      | _ => (release p s, None)
      end
  | ReadPacket c =>
      match conns s !! c with
      | Some k =>
          match c_data k with
          | p :: rest => (release p (setConn c {| k with c_data := rest |} s), Some (c, content s p))
          | [] => (s, None)
          end
      | None => (s, None)
      end
  | CloseConn c =>
      match conns s !! c with
      | Some k =>
          if c_done k then (s, None) else (setConn c {| k with c_done := true |} s, None)
      | None => (s, None)
      end
  | DestroyConn c =>
      match conns s !! c with
      | Some k =>
          if c_done k && negb (c_destroyed k) then
            let s := setConn c {| k with c_destroyed := true |} s in
            ({| s with udpConnMap := delete (sessionID (content s (c_message k))) (udpConnMap s) |}, None)
          else (s, None)
      | None => (s, None)
      end
  | Evict c id =>
      match conns s !! c with
      | Some k =>
          let item := default newPacketItem (c_defragger k !! id) in
          (releaseMessages (omap Datatypes.id (messages item)) (setConn c {| k with c_defragger := delete id (c_defragger k) |} s), None)
      | None => (s, None)
      end
  end.

Definition newSession : serverSession := mkServerSession ∅ [] 0 ∅ ∅ 0.

(** A run: the session, and what the readers got. *)
Fixpoint run (actions : list action) (s : serverSession) : serverSession * list output :=
  match actions with
  | [] => (s, [])
  | a :: actions =>
      let '(s, out) := step a s in
      let '(s, outs) := run actions s in
      (s, option_list out ++ outs)
  end.

End Hy2Session.
