(* ===== verification/Hy2SessionTheorems.v ===== *)
(** * Properties of the sessions of a Hysteria 2 server (Hy2Session) *)

From S2P Require Import Prelude GoStd Metadata Binary Datagram Hy2Wire Hy2Udp Hy2Session.
From Stdlib Require Import Strings.Byte.
From stdpp Require Import list.
Import Hy2Wire Hy2Udp Hy2Session.

Open Scope nat_scope.

(** ** Where messages are *)

(** A message that is in no place belongs to the running step, or is lost. *)
Inductive place : Type :=
| InPool
| InQueue (c : nat)
| InItem (c : nat) (id : N).
#[local] Instance place_eq_dec : EqDecision place.
Proof. solve_decision. Defined.

(** The messages that came in. *)
Definition history : Type := list udpMessage.

(** A message that came in, or one made of fragments of one packet of its session. *)
Definition genuine (hist : history) (m : udpMessage) : Prop :=
  m ∈ hist \/ exists parts, parts <> [] /\ data m = concat (map data parts)
    /\ Forall (fun p => p ∈ hist /\ sessionID p = sessionID m /\ packetID p = packetID m) parts.

Definition held (item : packetItem nat) : list nat := omap id (messages item).

Record Inv (at_ : nat -> option place) (hist : history) (s : serverSession) : Prop := mkInv {
  inv_bound : forall p, at_ p <> None -> p < allocated s;
  inv_pool : forall p, p ∈ pool s -> at_ p = Some InPool;
  inv_pool_distinct : NoDup (pool s);
  inv_data : forall c k p, conns s !! c = Some k -> p ∈ c_data k ->
    at_ p = Some (InQueue c) /\ sessionID (content s p) = c_session k /\ genuine hist (content s p);
  inv_data_distinct : forall c k, conns s !! c = Some k -> NoDup (c_data k);
  inv_item : forall c k id item p, conns s !! c = Some k -> c_defragger k !! id = Some item -> p ∈ held item ->
    at_ p = Some (InItem c id) /\ content s p ∈ hist /\ sessionID (content s p) = c_session k /\ packetID (content s p) = id;
  inv_item_distinct : forall c k id item, conns s !! c = Some k -> c_defragger k !! id = Some item -> NoDup (held item);
  inv_conn : forall c k, conns s !! c = Some k -> c < nextConn s;
}.

(** Moves a message. *)
Definition moved (at_ : nat -> option place) (p : nat) (x : option place) : nat -> option place :=
  fun q => if decide (q = p) then x else at_ q.

(** A message that only the running step has. *)
Definition free (at_ : nat -> option place) (s : serverSession) (p : nat) : Prop := at_ p = None /\ p < allocated s.

Lemma content_setMessage p m s q : content (setMessage p m s) q = if decide (q = p) then m else content s q.
Proof.
  unfold content, setMessage. cbn [store]. destruct (decide (q = p)) as [->|Hne]; [by rewrite lookup_insert_eq|].
  by rewrite lookup_insert_ne.
Qed.

(** Changes of the store and the pool that leave the messages of connections alone. *)
Lemma Inv_store at_ at' hist s s' : Inv at_ hist s -> conns s' = conns s -> nextConn s' = nextConn s ->
  (forall q x, at_ q = Some x -> x <> InPool -> at' q = Some x /\ content s' q = content s q) ->
  (forall q, q ∈ pool s' -> at' q = Some InPool) -> NoDup (pool s') -> (forall q, at' q <> None -> q < allocated s') ->
  Inv at' hist s'.
Proof.
  intros H Hc Hn Hsame Hp Hd Hb. split; try done; rewrite ?Hc, ?Hn.
  - intros c k q Hk Hq. destruct (inv_data _ _ _ H c k q Hk Hq) as (Ha & ? & ?).
    destruct (Hsame q _ Ha) as [-> ->]; [done|]. done.
  - apply H.
  - intros c k id item q Hk Hi Hq. destruct (inv_item _ _ _ H c k id item q Hk Hi Hq) as (Ha & ? & ? & ?).
    destruct (Hsame q _ Ha) as [-> ->]; [done|]. done.
  - apply H.
  - apply H.
Qed.

Lemma Inv_setMessage at_ hist s p m : Inv at_ hist s -> free at_ s p -> Inv at_ hist (setMessage p m s).
Proof.
  intros H [Hp Hb]. apply (Inv_store at_ at_ hist s); try done; try apply H. intros q x Hq Hx. split; [done|].
  rewrite content_setMessage, decide_False; [done|]. intros ->. congruence.
Qed.

Lemma Inv_release at_ hist s p : Inv at_ hist s -> free at_ s p -> Inv (moved at_ p (Some InPool)) hist (release p s).
Proof.
  intros H [Hp Hb]. assert (Hnp : p ∉ pool s) by (intros Hin%(inv_pool _ _ _ H); congruence).
  unfold release. rewrite bool_decide_eq_false_2 by done. apply (Inv_store at_ _ hist s); try done; unfold moved.
  - intros q x Hq Hx. assert (q <> p) as Hne by (intros ->; congruence). rewrite decide_False by done. split; [done|].
    etransitivity; [apply (content_setMessage p zeroMessage s q)|]. by rewrite decide_False.
  - cbn [pool]. intros q [->|Hq]%elem_of_cons; [by rewrite decide_True|]. destruct (decide (q = p)); [done|]. by apply H.
  - cbn [pool]. constructor; [done|apply H].
  - cbn [allocated]. intros q. destruct (decide (q = p)) as [->|]; [done|apply H].
Qed.

Lemma Inv_releaseMessages ps at_ hist s : Inv at_ hist s -> NoDup ps -> (forall p, p ∈ ps -> free at_ s p) ->
  exists at', Inv at' hist (releaseMessages ps s) /\ (forall q, q ∉ ps -> at' q = at_ q).
Proof.
  revert at_ s. induction ps as [|p ps IH]; intros at_ s H Hn Hf; [by exists at_|].
  apply NoDup_cons in Hn as [Hp Hn]. assert (Hfree := Hf p (list_elem_of_here _ _)).
  destruct (IH (moved at_ p (Some InPool)) (release p s)) as (at' & H' & Hsame); [by apply Inv_release|done| |].
  { intros q Hq. destruct (Hf q (list_elem_of_further _ _ _ Hq)) as [Ha Hb]. unfold free, moved. split; [|unfold release; by case_bool_decide].
    rewrite decide_False; [done|]. by intros ->. }
  exists at'. split; [exact H'|]. intros q Hq. apply not_elem_of_cons in Hq as [Hne Hq]. rewrite (Hsame q Hq). unfold moved.
  by rewrite decide_False.
Qed.

Lemma Inv_alloc at_ hist s choice p s' : Inv at_ hist s -> allocMessage choice s = (p, s') ->
  Inv (moved at_ p None) hist s' /\ free (moved at_ p None) s' p
  /\ (at_ p = Some InPool \/ p = allocated s) /\ allocated s <= allocated s'
  /\ conns s' = conns s /\ udpConnMap s' = udpConnMap s /\ nextConn s' = nextConn s.
Proof.
  intros H. unfold allocMessage. destruct (choice ≫= (pool s !!.)) as [q|] eqn:Hq; intros [= <- <-].
  - destruct choice as [i|]; [|done]. cbn in Hq. apply list_elem_of_lookup_2 in Hq.
    assert (Hp := inv_pool _ _ _ H q Hq). assert (Hb : q < allocated s) by (apply (inv_bound _ _ _ H); by rewrite Hp).
    unfold free, moved. split; [|rewrite decide_True by done; by auto 10].
    apply (Inv_store at_ _ hist s); try done; cbn [pool allocated].
    + intros x y Hx Hy. rewrite decide_False; [done|]. intros ->. congruence.
    + intros x [Hx Hin]%list_elem_of_filter. rewrite decide_False by done. by apply H.
    + apply NoDup_filter, H.
    + intros x. destruct (decide (x = q)); [done|]. apply H.
  - assert (Hnew : forall x, at_ x <> None -> x <> allocated s) by (intros x Hx%(inv_bound _ _ _ H); lia).
    unfold free, moved. split; [|rewrite decide_True by done; cbn; by auto 10 with lia].
    apply (Inv_store at_ _ hist s); try done; cbn [pool allocated].
    + intros x y Hx Hy. assert (x <> allocated s) by (apply Hnew; congruence). rewrite decide_False by done. split; [done|].
      change (content {| s with allocated := S (allocated s); store := <[allocated s := zeroMessage]> (store s) |} x)
        with (content (setMessage (allocated s) zeroMessage s) x). by rewrite content_setMessage, decide_False.
    + intros x Hx%(inv_pool _ _ _ H). rewrite decide_False; [done|]. apply Hnew. congruence.
    + apply H.
    + intros x. destruct (decide (x = allocated s)); [done|]. intros Hx%(inv_bound _ _ _ H). lia.
Qed.

(** ** Changes of a connection *)

(** A connection that changes, while the places of the messages of other connections do
    not. *)
Lemma Inv_conn at_ at' hist s c k k' : Inv at_ hist s -> conns s !! c = Some k -> c_session k' = c_session k ->
  (forall q x, at_ q = Some x -> (forall id, x <> InItem c id) -> x <> InQueue c -> at' q = Some x) ->
  (forall q, at' q <> None -> q < allocated s) ->
  (forall p, p ∈ c_data k' -> at' p = Some (InQueue c) /\ sessionID (content s p) = c_session k /\ genuine hist (content s p)) ->
  NoDup (c_data k') ->
  (forall id item p, c_defragger k' !! id = Some item -> p ∈ held item ->
     at' p = Some (InItem c id) /\ content s p ∈ hist /\ sessionID (content s p) = c_session k /\ packetID (content s p) = id) ->
  (forall id item, c_defragger k' !! id = Some item -> NoDup (held item)) ->
  Inv at' hist (setConn c k' s).
Proof.
  intros H Hk Hs Hsame Hb Hd Hdd Hi Hid. unfold setConn.
  assert (Hcases : forall c0 k0, <[c := k']> (conns s) !! c0 = Some k0 -> c0 = c /\ k0 = k' \/ c0 <> c /\ conns s !! c0 = Some k0).
  { intros c0 k0. destruct (decide (c0 = c)) as [->|Hne]; [rewrite lookup_insert_eq; intros [= <-]; auto|].
    rewrite lookup_insert_ne by done. auto. }
  split; cbn [allocated pool conns nextConn]; try done.
  - intros q Hq%(inv_pool _ _ _ H). by apply (Hsame q InPool).
  - apply H.
  - intros c0 k0 q [[-> ->]|[Hne Hc0]]%Hcases Hq; [rewrite Hs; by apply Hd|].
    destruct (inv_data _ _ _ H c0 k0 q Hc0 Hq) as (Ha & ? & ?). split; [apply Hsame; [done..|congruence]|done].
  - intros c0 k0 [[-> ->]|[Hne Hc0]]%Hcases; [done|]. by apply (inv_data_distinct _ _ _ H c0).
  - intros c0 k0 id item q [[-> ->]|[Hne Hc0]]%Hcases Hit Hq; [rewrite Hs; by apply (Hi id item)|].
    destruct (inv_item _ _ _ H c0 k0 id item q Hc0 Hit Hq) as (Ha & ? & ? & ?). split; [apply Hsame; [done|congruence|done]|done].
  - intros c0 k0 id item [[-> ->]|[Hne Hc0]]%Hcases Hit; [by apply (Hid id)|]. by apply (inv_item_distinct _ _ _ H c0 k0 id).
  - intros c0 k0 [[-> ->]|[Hne Hc0]]%Hcases; by eapply (inv_conn _ _ _ H).
Qed.

Lemma Inv_deliver at_ hist s c k p : Inv at_ hist s -> conns s !! c = Some k -> free at_ s p ->
  sessionID (content s p) = c_session k -> genuine hist (content s p) ->
  exists at', Inv at' hist (deliver c p s).
Proof.
  intros H Hk [Hp Hb] Hsession Hgen. unfold deliver. rewrite Hk. unfold offerData.
  destruct (_ <? _).
  - exists (moved at_ p (Some (InQueue c))). unfold moved. eapply Inv_conn; [done..| | | | | |]; cbn [c_data c_defragger].
    + intros q x Hq _ _. rewrite decide_False; [done|]. intros ->. congruence.
    + intros q. destruct (decide (q = p)) as [->|]; [done|apply H].
    + intros q [Hq|Hq]%elem_of_app.
      * destruct (inv_data _ _ _ H c k q Hk Hq) as (Ha & ? & ?). rewrite decide_False; [done|]. intros ->. congruence.
      * apply list_elem_of_singleton in Hq as ->. by rewrite decide_True.
    + apply NoDup_app. split; [by apply (inv_data_distinct _ _ _ H c)|]. split; [|apply NoDup_singleton].
      intros q Hq Hin. apply list_elem_of_singleton in Hin as ->. destruct (inv_data _ _ _ H c k p Hk Hq) as (Ha & _). congruence.
    + intros id item q Hi Hq. destruct (inv_item _ _ _ H c k id item q Hk Hi Hq) as (Ha & ?).
      rewrite decide_False; [done|]. intros ->. congruence.
    + intros id item. by apply (inv_item_distinct _ _ _ H c k id).
  - exists at_. eapply Inv_conn; [done..| | | | | |]; cbn [c_data c_defragger]; try apply H; try done.
    + intros q Hq. by apply (inv_data _ _ _ H c k).
    + by apply (inv_data_distinct _ _ _ H c).
    + intros id item q. by apply (inv_item _ _ _ H c k).
    + intros id item. by apply (inv_item_distinct _ _ _ H c k id).
Qed.

(** The places after the item of a packet has changed. *)
Definition placesOf (at_ : nat -> option place) (c : nat) (id : N) (now : list nat) : nat -> option place :=
  fun q => if decide (q ∈ now) then Some (InItem c id) else if decide (at_ q = Some (InItem c id)) then None else at_ q.

Lemma Inv_items at_ hist s c k pid d' now : Inv at_ hist s -> conns s !! c = Some k ->
  (forall id, id <> pid -> d' !! id = c_defragger k !! id) ->
  (forall item, d' !! pid = Some item -> held item = now) -> NoDup now ->
  (forall p, p ∈ now -> (at_ p = None \/ at_ p = Some (InItem c pid)) /\ p < allocated s
     /\ content s p ∈ hist /\ sessionID (content s p) = c_session k /\ packetID (content s p) = pid) ->
  Inv (placesOf at_ c pid now) hist (setConn c {| k with c_defragger := d' |} s).
Proof.
  intros H Hk Hother Hnow Hdist Hgood. unfold placesOf.
  assert (Hkeep : forall q x, at_ q = Some x -> x <> InItem c pid ->
    (if decide (q ∈ now) then Some (InItem c pid) else if decide (at_ q = Some (InItem c pid)) then None else at_ q) = Some x).
  { intros q x Hq Hx. rewrite decide_False by (intros [[?|?] _]%Hgood; congruence). rewrite decide_False by congruence. done. }
  eapply Inv_conn; [done..| | | | | |]; cbn [c_data c_defragger].
  - intros q x Hq Hi _. by apply Hkeep.
  - intros q. destruct (decide (q ∈ now)) as [Hq|_]; [intros _; by apply Hgood|]. destruct (decide _); [done|apply H].
  - intros q Hq. destruct (inv_data _ _ _ H c k q Hk Hq) as (Ha & ? & ?). split; [by apply Hkeep|done].
  - by apply (inv_data_distinct _ _ _ H c).
  - intros id item q Hi Hq. destruct (decide (id = pid)) as [->|Hne].
    + specialize (Hnow item Hi). rewrite Hnow in Hq. rewrite decide_True by done. split; [done|]. by apply Hgood.
    + rewrite Hother in Hi by done. destruct (inv_item _ _ _ H c k id item q Hk Hi Hq) as (Ha & ?).
      split; [apply Hkeep; [done|congruence]|done].
  - intros id item Hi. destruct (decide (id = pid)) as [->|Hne]; [by rewrite (Hnow item Hi)|].
    rewrite Hother in Hi by done. by apply (inv_item_distinct _ _ _ H c k id).
Qed.

(** What was in the item and is not any more belongs to the step. *)
Lemma placesOf_free at_ hist s c k pid now q : Inv at_ hist s -> conns s !! c = Some k ->
  q ∈ held (default newPacketItem (c_defragger k !! pid)) -> q ∉ now -> placesOf at_ c pid now q = None /\ q < allocated s.
Proof.
  intros H Hk Hq Hn. destruct (c_defragger k !! pid) as [item|] eqn:Hi; [|by apply not_elem_of_nil in Hq].
  destruct (inv_item _ _ _ H c k pid item q Hk Hi Hq) as (Ha & _). unfold placesOf. rewrite decide_False, decide_True by done.
  split; [done|]. apply (inv_bound _ _ _ H). congruence.
Qed.

(** The pointers that [feedItem] leaves in the item, and those it hands back. *)
Lemma omap_insert_None (l : list (option nat)) i p : l !! i = Some None ->
  omap id (<[i := Some p]> l) ≡ₚ p :: omap id l.
Proof.
  revert i. induction l as [|x l IH]; intros i Hi; [done|]. destruct i as [|i]; [injection Hi as ->; done|].
  cbn in Hi. specialize (IH i Hi). cbn [insert list_insert]. destruct x as [x|].
  - change (x :: omap id (<[i := Some p]> l) ≡ₚ p :: x :: omap id l). rewrite IH. apply perm_swap.
  - exact IH.
Qed.

Lemma omap_replicate_None n : omap id (replicate n (None : option nat)) = [].
Proof. induction n as [|n IH]; [done|]. exact IH. Qed.

(** The cases of [feedItem]: a new item, nothing, one more, or complete. *)
Lemma feedItem_held get item p item' parts :
  (fragmentID (get p) < fragmentTotal (get p))%N -> feedItem get item p = (item', parts) ->
  parts = None /\ (N.to_nat (fragmentTotal (get p)) =? length (messages item)) = false /\ held item' ≡ₚ [p]
  \/ parts = None /\ (N.to_nat (fragmentTotal (get p)) =? length (messages item)) = true /\ (item' = item \/ held item' ≡ₚ p :: held item)
  \/ exists l, parts = Some l /\ l ≡ₚ p :: held item /\ held item' = [].
Proof.
  intros Hlt. unfold feedItem. destruct (_ =? length (messages item)) eqn:Ht; cbn [negb].
  - destruct (messages item !! N.to_nat (fragmentID (get p))) as [[q|]|] eqn:Hi.
    + intros [= <- <-]. right. left. auto.
    + destruct (negb _); intros [= <- <-].
      * right. left. split; [done|]. split; [done|]. right. by apply omap_insert_None.
      * right. right. eexists. split; [done|]. split; [by apply omap_insert_None|done].
    + intros [= <- <-]. right. left. auto.
  - intros [= <- <-]. left. split; [done|]. split; [done|]. unfold held. cbn [messages].
    rewrite omap_insert_None; [by rewrite omap_replicate_None|]. apply lookup_replicate_2. lia.
Qed.

Lemma releaseMessages_keeps ps s : conns (releaseMessages ps s) = conns s /\ udpConnMap (releaseMessages ps s) = udpConnMap s
  /\ nextConn (releaseMessages ps s) = nextConn s /\ allocated (releaseMessages ps s) = allocated s
  /\ forall q, q ∉ ps -> content (releaseMessages ps s) q = content s q.
Proof.
  revert s. induction ps as [|p ps IH]; intros s; [done|]. destruct (IH (release p s)) as (H1 & H2 & H3 & H4 & H5).
  change (releaseMessages (p :: ps) s) with (releaseMessages ps (release p s)). rewrite H1, H2, H3, H4.
  assert (Hrel : forall q, q ∉ p :: ps -> content (releaseMessages ps (release p s)) q = content (release p s) q)
    by (intros q [_ Hq]%not_elem_of_cons; by apply H5).
  clear -Hrel. unfold release in *. case_bool_decide; [done|]. repeat split. intros q Hq. rewrite (Hrel q Hq).
  apply not_elem_of_cons in Hq as [Hne _]. etransitivity; [apply (content_setMessage p zeroMessage s q)|]. by rewrite decide_False.
Qed.

(** The contents of the item of a packet. *)
Lemma held_content at_ hist s c k pid q : Inv at_ hist s -> conns s !! c = Some k ->
  q ∈ held (default newPacketItem (c_defragger k !! pid)) ->
  at_ q = Some (InItem c pid) /\ q < allocated s /\ content s q ∈ hist /\ sessionID (content s q) = c_session k /\ packetID (content s q) = pid.
Proof.
  intros H Hk Hq. destruct (c_defragger k !! pid) as [item|] eqn:Hi; [|by apply not_elem_of_nil in Hq].
  destruct (inv_item _ _ _ H c k pid item q Hk Hi Hq) as (Ha & ?). split; [done|]. split; [|done]. apply (inv_bound _ _ _ H). congruence.
Qed.
Lemma held_distinct at_ hist s c k pid : Inv at_ hist s -> conns s !! c = Some k ->
  NoDup (held (default newPacketItem (c_defragger k !! pid))).
Proof.
  intros H Hk. destruct (c_defragger k !! pid) as [item|] eqn:Hi; [|constructor]. by apply (inv_item_distinct _ _ _ H c k pid).
Qed.

Section Input.
Variables (at_ : nat -> option place) (hist : history) (s : serverSession) (c p : nat) (k : udpPacketConn).
Hypotheses (H : Inv at_ hist s) (Hk : conns s !! c = Some k) (Hp : free at_ s p)
  (Hin : content s p ∈ hist) (Hsession : sessionID (content s p) = c_session k).

Let pid : N := packetID (content s p).
Let item : packetItem nat := default newPacketItem (c_defragger k !! pid).

Lemma p_not_held : p ∉ held item.
Proof. intros Hq. destruct (held_content _ _ _ _ _ _ _ H Hk Hq) as [Ha _]. destruct Hp. congruence. Qed.

Lemma held_good q : q = p \/ q ∈ held item ->
  (at_ q = None \/ at_ q = Some (InItem c pid)) /\ q < allocated s
  /\ content s q ∈ hist /\ sessionID (content s q) = c_session k /\ packetID (content s q) = pid.
Proof.
  intros [->|Hq]; [destruct Hp; auto|]. destruct (held_content _ _ _ _ _ _ _ H Hk Hq) as (? & ? & ? & ? & ?). auto.
Qed.

(** The item after [feed]. *)
Lemma Inv_fed item' now : held item' = now -> NoDup now -> (forall q, q ∈ now -> q = p \/ q ∈ held item) ->
  Inv (placesOf at_ c pid now) hist (setConn c {| k with c_defragger := <[pid := item']> (c_defragger k) |} s).
Proof.
  intros Hnow Hd Hq. apply Inv_items; try done.
  - intros id Hne. by rewrite lookup_insert_ne.
  - intros it. rewrite lookup_insert_eq. by intros [= <-].
  - intros q Hqn. by apply held_good, Hq.
Qed.

(** The step when the packet is complete. *)
Lemma Inv_complete choice parts item' : parts ≡ₚ p :: held item -> held item' = [] ->
  let s1 := setConn c {| k with c_defragger := <[pid := item']> (c_defragger k) |} s in
  let '(new, s2) := allocMessage choice s1 in
  exists at', Inv at' hist (match joined (content s) p parts with
                            | Some message => deliver c new (releaseMessages parts (setMessage new message s2))
                            | None => releaseMessages parts (release new s2)
                            end).
Proof.
  intros Hparts Hempty s1. pose proof (Inv_fed item' [] Hempty (NoDup_nil_2) ltac:(intros q Hq; by apply not_elem_of_nil in Hq)) as H1.
  fold s1 in H1. set (at1 := placesOf at_ c pid []) in *. destruct (allocMessage choice s1) as [new s2] eqn:Hal.
  destruct (Inv_alloc _ _ _ _ _ _ H1 Hal) as (H2 & Hnew & Hwhere & Hle & Hc2 & Hm2 & Hn2).
  assert (Hfree : forall q, q ∈ parts -> at1 q = None /\ q < allocated s1).
  { intros q Hq. rewrite Hparts in Hq. apply elem_of_cons in Hq as [->|Hq].
    - destruct Hp as [Ha Hb]. unfold at1, placesOf. rewrite decide_False by apply not_elem_of_nil. rewrite decide_False by congruence. done.
    - by apply (placesOf_free _ hist s c k pid [] q H Hk Hq), not_elem_of_nil. }
  assert (Hnp : new ∉ parts).
  { intros [Ha Hb]%Hfree. destruct Hwhere as [Hw| ->]; [congruence|lia]. }
  assert (Hdist : NoDup parts). { rewrite Hparts. constructor; [apply p_not_held|]. by apply (held_distinct at_ hist s c k pid). }
  set (at2 := moved at1 new None) in *.
  assert (Hfree2 : forall s3, allocated s3 = allocated s2 -> forall q, q ∈ parts -> free at2 s3 q).
  { intros s3 Ha q Hq. destruct (Hfree q Hq). split; [unfold at2, moved; rewrite decide_False; [done|by intros ->]|lia]. }
  destruct (joined (content s) p parts) as [message|] eqn:Hj.
  - destruct (Inv_releaseMessages parts at2 hist (setMessage new message s2)) as (at3 & H3 & Hsame);
      [by apply Inv_setMessage | done | by apply Hfree2 |].
    destruct (releaseMessages_keeps parts (setMessage new message s2)) as (Hc3 & _ & _ & Ha3 & Hcont).
    assert (Hcnew : content (releaseMessages parts (setMessage new message s2)) new = message)
      by (rewrite (Hcont new Hnp), content_setMessage; by rewrite decide_True).
    unfold joined in Hj. destruct (0 <? length _); [|done]. injection Hj as <-.
    eapply Inv_deliver; [exact H3 | | | |].
    + rewrite Hc3. cbn [setMessage conns]. rewrite Hc2. apply lookup_insert_eq.
    + split; [|rewrite Ha3; apply Hnew]. rewrite (Hsame new Hnp). apply Hnew.
    + rewrite Hcnew. exact Hsession.
    + rewrite Hcnew. right. exists (map (content s) parts). cbn [data sessionID packetID]. rewrite map_map. repeat split.
      * intros He. apply map_eq_nil in He. rewrite He in Hparts. by apply Permutation_nil_l in Hparts.
      * apply Forall_fmap, Forall_forall. intros q Hq. rewrite Hparts in Hq. apply elem_of_cons in Hq.
        destruct (held_good q Hq) as (_ & _ & ? & Hs & ?). cbn. split; [done|]. by rewrite Hs, Hsession.
  - destruct (Inv_releaseMessages parts (moved at2 new (Some InPool)) hist (release new s2)) as (at3 & H3 & _);
      [by apply Inv_release | done | | by exists at3].
    intros q Hq. destruct (Hfree2 s2 eq_refl q Hq) as [Ha Hb]. split; [|unfold release; by case_bool_decide]. unfold moved at 1. rewrite decide_False; [done|].
    by intros ->.
Qed.

Lemma Inv_inputMessage choice : exists at', Inv at' hist (inputMessage choice c p s).
Proof.
  unfold inputMessage. rewrite Hk. cbn zeta. destruct (fragmentTotal (content s p) <=? 1)%N.
  { eapply Inv_deliver; [done..|]. by left. }
  destruct (N.leb_spec (fragmentTotal (content s p)) (fragmentID (content s p))) as [Hge|Hlt]; [by exists at_|].
  fold pid. fold item. destruct (feedItem (content s) item p) as [item' parts] eqn:Hf.
  destruct (feedItem_held _ _ _ _ _ Hlt Hf) as [(-> & Ht & Hheld)|[(-> & Ht & Hheld)|(l & -> & Hl & Hheld)]].
  - apply Permutation_singleton_r in Hheld. unfold stale. rewrite Ht. fold (held item).
    destruct (Inv_releaseMessages (held item) _ hist _ (Inv_fed item' [p] Hheld (NoDup_singleton p) ltac:(intros q Hq; left; by apply list_elem_of_singleton in Hq)))
      as (at' & H' & _); [by apply (held_distinct at_ hist s c k pid) | | by exists at'].
    intros q Hq. apply (placesOf_free at_ hist s c k pid [p] q H Hk Hq). intros ->%list_elem_of_singleton. by apply p_not_held.
  - unfold stale. rewrite Ht. cbn [releaseMessages foldl].
    assert (Hnow : NoDup (held item') /\ forall q, q ∈ held item' -> q = p \/ q ∈ held item).
    { destruct Hheld as [->|Hheld]; [split; [by apply (held_distinct at_ hist s c k pid)|auto]|].
      split; [rewrite Hheld; constructor; [apply p_not_held|by apply (held_distinct at_ hist s c k pid)]|].
      intros q. rewrite Hheld, elem_of_cons. done. }
    destruct Hnow as [Hd Hq]. eexists. by apply (Inv_fed item' (held item')).
  - pose proof (Inv_complete choice l item' Hl Hheld) as Hc. cbn zeta in Hc. by destruct (allocMessage choice _) as [new s2].
Qed.

End Input.

(** ** Connections and their sessions *)

(** The connection that the map has for a session is one of the session. *)
Definition mapped (s : serverSession) : Prop :=
  forall sid c, udpConnMap s !! sid = Some c -> exists k, conns s !! c = Some k /\ c_session k = sid.

Definition keepsSessions (s s' : serverSession) : Prop :=
  udpConnMap s' = udpConnMap s /\ forall c k, conns s !! c = Some k -> exists k', conns s' !! c = Some k' /\ c_session k' = c_session k.

Lemma keepsSessions_refl s : keepsSessions s s.
Proof. split; eauto. Qed.
Lemma keepsSessions_trans s1 s2 s3 : keepsSessions s1 s2 -> keepsSessions s2 s3 -> keepsSessions s1 s3.
Proof.
  intros [Hm1 H1] [Hm2 H2]. split; [congruence|]. intros c k Hk. destruct (H1 c k Hk) as (k1 & Hk1 & <-).
  destruct (H2 c k1 Hk1) as (k2 & Hk2 & <-). eauto.
Qed.
Lemma keepsSessions_same s s' : udpConnMap s' = udpConnMap s -> conns s' = conns s -> keepsSessions s s'.
Proof. intros Hm Hc. split; [done|]. rewrite Hc. eauto. Qed.
Lemma keepsSessions_setConn s c k k' : conns s !! c = Some k -> c_session k' = c_session k -> keepsSessions s (setConn c k' s).
Proof.
  intros Hk Hs. split; [done|]. intros c0 k0 Hk0. cbn [setConn conns]. destruct (decide (c0 = c)) as [->|Hne].
  - exists k'. rewrite lookup_insert_eq. split; [done|]. congruence.
  - exists k0. by rewrite lookup_insert_ne.
Qed.
Lemma keepsSessions_deliver s c p : keepsSessions s (deliver c p s).
Proof. unfold deliver. destruct (conns s !! c) as [k|] eqn:Hk; [by eapply keepsSessions_setConn|apply keepsSessions_refl]. Qed.
Lemma keepsSessions_release s ps : keepsSessions s (releaseMessages ps s).
Proof. destruct (releaseMessages_keeps ps s) as (H1 & H2 & _). by apply keepsSessions_same. Qed.
Lemma keepsSessions_alloc s choice p s' : allocMessage choice s = (p, s') -> keepsSessions s s'.
Proof. unfold allocMessage. destruct (_ ≫= _); intros [= _ <-]; by apply keepsSessions_same. Qed.

Lemma keepsSessions_inputMessage s choice c p : keepsSessions s (inputMessage choice c p s).
Proof.
  unfold inputMessage. destruct (conns s !! c) as [k|] eqn:Hk; [|apply keepsSessions_refl]. cbn zeta.
  destruct (_ <=? 1)%N; [apply keepsSessions_deliver|]. destruct (_ <=? fragmentID _)%N; [apply keepsSessions_refl|].
  destruct (feedItem _ _ _) as [item' parts]. set (s1 := setConn c _ s).
  assert (H1 : keepsSessions s s1) by (by eapply keepsSessions_setConn). eapply keepsSessions_trans; [exact H1|].
  destruct parts as [parts|]; [|apply keepsSessions_release]. destruct (allocMessage choice s1) as [new s2] eqn:Hal.
  eapply keepsSessions_trans; [by eapply keepsSessions_alloc|]. destruct (joined _ _ _) as [message|].
  - eapply keepsSessions_trans; [|apply keepsSessions_deliver]. eapply keepsSessions_trans; [|apply keepsSessions_release].
    by apply keepsSessions_same.
  - eapply keepsSessions_trans; [apply (keepsSessions_release _ [new])|apply keepsSessions_release].
Qed.

Lemma mapped_keeps s s' : mapped s -> keepsSessions s s' -> mapped s'.
Proof.
  intros Hm [Heq Hc] sid c. rewrite Heq. intros (k & Hk & <-)%Hm. by apply Hc.
Qed.

(** A new connection. *)
Definition opened (session : N) (p : nat) (s : serverSession) : serverSession :=
  {| s with conns := <[nextConn s := mkUdpPacketConn session false false p [] ∅]> (conns s);
            udpConnMap := <[session := nextConn s]> (udpConnMap s); nextConn := S (nextConn s) |}.

Lemma Inv_opened at_ hist s session p : Inv at_ hist s -> Inv at_ hist (opened session p s).
Proof.
  intros H. assert (Hnew : conns s !! nextConn s = None).
  { destruct (conns s !! nextConn s) as [k|] eqn:Hk; [|done]. apply (inv_conn _ _ _ H) in Hk. lia. }
  assert (Hcases : forall c k, <[nextConn s := mkUdpPacketConn session false false p [] ∅]> (conns s) !! c = Some k ->
    c = nextConn s /\ k = mkUdpPacketConn session false false p [] ∅ \/ conns s !! c = Some k).
  { intros c k. destruct (decide (c = nextConn s)) as [->|Hne]; [rewrite lookup_insert_eq; intros [= <-]; auto|].
    rewrite lookup_insert_ne by done. auto. }
  split; cbn [opened allocated pool conns nextConn]; try apply H.
  - intros c k q [[-> ->]|Hc]%Hcases Hq; [by apply not_elem_of_nil in Hq|]. by apply (inv_data _ _ _ H c k q).
  - intros c k [[-> ->]|Hc]%Hcases; [constructor|]. by apply (inv_data_distinct _ _ _ H c).
  - intros c k id item q [[-> ->]|Hc]%Hcases Hi Hq; [cbn [c_defragger] in Hi; by apply lookup_empty_Some in Hi|]. by apply (inv_item _ _ _ H c k id item q).
  - intros c k id item [[-> ->]|Hc]%Hcases Hi; [cbn [c_defragger] in Hi; by apply lookup_empty_Some in Hi|]. by apply (inv_item_distinct _ _ _ H c k id).
  - intros c k [[-> ->]|Hc]%Hcases; [lia|]. apply (inv_conn _ _ _ H) in Hc. lia.
Qed.

Lemma mapped_opened at_ hist s session p : Inv at_ hist s -> mapped s -> mapped (opened session p s).
Proof.
  intros H Hm sid c. cbn [opened udpConnMap conns]. destruct (decide (sid = session)) as [->|Hne].
  - rewrite lookup_insert_eq. intros [= <-]. eexists. by rewrite lookup_insert_eq.
  - rewrite lookup_insert_ne by done. intros (k & Hk & <-)%Hm. exists k. rewrite lookup_insert_ne; [done|].
    apply (inv_conn _ _ _ H) in Hk. lia.
Qed.

Definition Good (hist : history) (s : serverSession) : Prop := mapped s /\ exists at_, Inv at_ hist s.

Lemma Good_handle hist s at_ choice p : mapped s -> Inv at_ hist s -> free at_ s p -> content s p ∈ hist ->
  Good hist (handleUDPMessage choice p s).
Proof.
  intros Hm H Hp Hin. set (session := sessionID (content s p)).
  assert (Hopen : Good hist (inputMessage choice (nextConn s) p (opened session p s))).
  { split; [eapply mapped_keeps; [by eapply mapped_opened|apply keepsSessions_inputMessage]|].
    eapply (Inv_inputMessage at_ hist (opened session p s)); [by apply Inv_opened | apply lookup_insert_eq | done..]. }
  unfold handleUDPMessage. fold session. destruct (udpConnMap s !! session) as [c|] eqn:Hc; [|exact Hopen].
  destruct (Hm session c Hc) as (k & Hk & Hs). rewrite Hk. destruct (negb (c_done k)); [|exact Hopen].
  split; [eapply mapped_keeps; [done|apply keepsSessions_inputMessage]|]. by eapply (Inv_inputMessage at_ hist s).
Qed.

Lemma genuine_mono hist hist' m : hist ⊆ hist' -> genuine hist m -> genuine hist' m.
Proof.
  intros Hs [Hm|(parts & Hne & Hd & Hf)]; [left; by apply Hs|]. right. exists parts. split; [done|]. split; [done|].
  eapply Forall_impl; [exact Hf|]. intros q (? & ?). split; [by apply Hs|done].
Qed.
Lemma Inv_mono at_ hist hist' s : hist ⊆ hist' -> Inv at_ hist s -> Inv at_ hist' s.
Proof.
  intros Hs H. split; try apply H.
  - intros c k q Hk Hq. destruct (inv_data _ _ _ H c k q Hk Hq) as (? & ? & Hg). split; [done|]. split; [done|]. by eapply genuine_mono.
  - intros c k id item q Hk Hi Hq. destruct (inv_item _ _ _ H c k id item q Hk Hi Hq) as (? & Hg & ?). split; [done|]. split; [by apply Hs|done].
Qed.

(** What an action adds to the history. *)
Definition arriving (a : action) : history := match a with Datagram _ _ (Ok m) => [m] | _ => [] end.

(** What a reader gets is of its session. *)
Definition fits (hist : history) (s : serverSession) (out : output) : Prop :=
  exists k, conns s !! out.1 = Some k /\ sessionID out.2 = c_session k /\ genuine hist out.2.

(** Closing a connection only changes its flags. *)
Lemma Good_marked at_ hist s c k k' : mapped s -> Inv at_ hist s -> conns s !! c = Some k ->
  c_session k' = c_session k -> c_data k' = c_data k -> c_defragger k' = c_defragger k -> Good hist (setConn c k' s).
Proof.
  intros Hm H Hk Hsess Hdata Hdefrag. split; [eapply mapped_keeps; [done|by eapply keepsSessions_setConn]|]. exists at_.
  eapply Inv_conn; [exact H|done|done| | | | | |]; rewrite ?Hsess, ?Hdata, ?Hdefrag; try done; try apply H.
  - intros q Hq. by apply (inv_data _ _ _ H c k).
  - by apply (inv_data_distinct _ _ _ H c).
  - intros id item q. by apply (inv_item _ _ _ H c k).
  - intros id item. by apply (inv_item_distinct _ _ _ H c k id).
Qed.

Lemma step_Good a hist s s' out : Good hist s -> step a s = (s', out) ->
  Good (hist ++ arriving a) s' /\ forall o, out = Some o -> fits (hist ++ arriving a) s o.
Proof.
  intros [Hm [at_ H0]]. assert (Hs : hist ⊆ hist ++ arriving a) by set_solver.
  assert (H : Inv at_ (hist ++ arriving a) s) by (by eapply Inv_mono). clear H0 Hs.
  destruct a as [choice choice2 m|c|c|c|c id]; cbn [step].
  - destruct (allocMessage choice s) as [p s1] eqn:Hal. destruct (Inv_alloc _ _ _ _ _ _ H Hal) as (H1 & Hf & _).
    assert (Hm1 : mapped s1) by (eapply mapped_keeps; [done|by eapply keepsSessions_alloc]).
    destruct m as [m|e|msg]; intros [= <- <-]; (split; [|done]).
    + eapply Good_handle; [by eapply mapped_keeps; [|by apply keepsSessions_same] | by apply Inv_setMessage | exact Hf |].
      rewrite content_setMessage, decide_True by done. cbn [arriving]. set_solver.
    + split; [eapply mapped_keeps; [done|apply (keepsSessions_release _ [p])]|]. eexists. by apply Inv_release.
    + split; [eapply mapped_keeps; [done|apply (keepsSessions_release _ [p])]|]. eexists. by apply Inv_release.
  - destruct (conns s !! c) as [k|] eqn:Hk; [|intros [= <- <-]; split; [split; [done|by exists at_]|done]].
    destruct (c_data k) as [|p rest] eqn:Hd; [intros [= <- <-]; split; [split; [done|by exists at_]|done]|].
    intros [= <- <-]. pose proof (inv_data_distinct _ _ _ H c k Hk) as Hnd. rewrite Hd in Hnd. apply NoDup_cons in Hnd as [Hp Hnd].
    assert (Hdp : p ∈ c_data k) by (rewrite Hd; by left).
    destruct (inv_data _ _ _ H c k p Hk Hdp) as (Ha & Hsess & Hgen). split; [|intros o [= <-]; by exists k].
    set (k' := {| k with c_data := rest |}). split.
    { eapply mapped_keeps; [done|]. eapply keepsSessions_trans; [by eapply (keepsSessions_setConn s c k k')|apply (keepsSessions_release _ [p])]. }
    exists (moved (moved at_ p None) p (Some InPool)). apply Inv_release.
    + unfold moved. eapply Inv_conn; [exact H|done|done| | | | | |]; cbn [k' c_data c_defragger].
      * intros q x Hq _ Hx. rewrite decide_False; [done|]. intros ->. congruence.
      * intros q. destruct (decide (q = p)); [done|apply H].
      * intros q Hq. rewrite decide_False by (by intros ->). apply (inv_data _ _ _ H c k q Hk). rewrite Hd. by right.
      * done.
      * intros id item q Hi Hq. destruct (inv_item _ _ _ H c k id item q Hk Hi Hq) as (Hb & ?). rewrite decide_False; [done|]. intros ->. congruence.
      * intros id item. by apply (inv_item_distinct _ _ _ H c k id).
    + unfold free, moved. rewrite decide_True by done. split; [done|]. apply (inv_bound _ _ _ H). congruence.
  - destruct (conns s !! c) as [k|] eqn:Hk; [|intros [= <- <-]; split; [split; [done|by exists at_]|done]].
    destruct (c_done k); [intros [= <- <-]; split; [split; [done|by exists at_]|done]|]. intros [= <- <-]. split; [|done].
    by eapply (Good_marked at_ _ s c k {| k with c_done := true |}).
  - destruct (conns s !! c) as [k|] eqn:Hk; [|intros [= <- <-]; split; [split; [done|by exists at_]|done]].
    destruct (_ && _); [|intros [= <- <-]; split; [split; [done|by exists at_]|done]]. intros [= <- <-]. split; [|done].
    destruct (Good_marked at_ (hist ++ []) s c k {| k with c_destroyed := true |}) as [Hm' [at' H']]; try done.
    split; [|exists at'; split; apply H']. intros sid c0. cbn [udpConnMap]. intros [_ Hc0]%lookup_delete_Some. by apply Hm'.
  - destruct (conns s !! c) as [k|] eqn:Hk; [|intros [= <- <-]; split; [split; [done|by exists at_]|done]].
    intros [= <- <-]. split; [|done]. set (k' := {| k with c_defragger := delete id (c_defragger k) |}).
    assert (H1 : Inv (placesOf at_ c id []) (hist ++ []) (setConn c k' s)).
    { apply Inv_items; try done.
      - intros id' Hne. by rewrite lookup_delete_ne.
      - intros item. by rewrite lookup_delete_eq.
      - constructor.
      - intros q Hq. by apply not_elem_of_nil in Hq. }
    split.
    + eapply mapped_keeps; [done|]. eapply keepsSessions_trans; [by eapply (keepsSessions_setConn s c k k')|apply keepsSessions_release].
    + destruct (Inv_releaseMessages (held (default newPacketItem (c_defragger k !! id))) _ _ _ H1) as (at' & H' & _).
      * exact (held_distinct at_ _ s c k id H Hk).
      * intros q Hq. apply (placesOf_free at_ _ s c k id [] q H Hk Hq), not_elem_of_nil.
      * by exists at'.
Qed.

(** Connections stay, with their sessions. *)
Definition persists (s s' : serverSession) : Prop :=
  forall c k, conns s !! c = Some k -> exists k', conns s' !! c = Some k' /\ c_session k' = c_session k.

Lemma step_persists a hist s : Good hist s -> persists s (step a s).1.
Proof.
  intros [_ [at_ H]]. assert (Hkeep : forall s', keepsSessions s s' -> persists s s') by (by intros s' [_ ?]).
  destruct a as [choice choice2 m|c|c|c|c id]; cbn [step].
  - destruct (allocMessage choice s) as [p s1] eqn:Hal. destruct (keepsSessions_alloc _ _ _ _ Hal) as [_ H1].
    destruct (Inv_alloc _ _ _ _ _ _ H Hal) as (Hi1 & _ & _ & _ & Hc1 & _).
    destruct m as [m|e|msg]; cbn [fst]; [|by destruct (keepsSessions_trans _ _ _ (keepsSessions_alloc _ _ _ _ Hal) (keepsSessions_release s1 [p])) as [_ ?]..]. unfold handleUDPMessage.
    assert (Hopen : persists s (inputMessage choice2 (nextConn (setMessage p m s1)) p (opened (sessionID (content (setMessage p m s1) p)) p (setMessage p m s1)))).
    { intros c k Hk. destruct (keepsSessions_inputMessage (opened (sessionID (content (setMessage p m s1) p)) p (setMessage p m s1)) choice2
        (nextConn (setMessage p m s1)) p) as [_ H2]. apply H2. cbn [opened conns setMessage nextConn]. rewrite lookup_insert_ne; [by rewrite Hc1|].
      rewrite <- Hc1 in Hk. apply (inv_conn _ _ _ Hi1) in Hk. lia. }
    destruct (udpConnMap (setMessage p m s1) !! _) as [c0|]; [|exact Hopen]. destruct (match conns _ !! c0 with Some _ => _ | None => _ end); [|exact Hopen].
    intros c k Hk. destruct (keepsSessions_inputMessage (setMessage p m s1) choice2 c0 p) as [_ H2]. apply H2. cbn [setMessage conns]. by rewrite Hc1.
  - destruct (conns s !! c) as [k|] eqn:Hk; [|apply Hkeep, keepsSessions_refl]. destruct (c_data k) as [|p rest]; [apply Hkeep, keepsSessions_refl|].
    apply Hkeep. cbn [fst]. eapply keepsSessions_trans; [by eapply (keepsSessions_setConn s c k {| k with c_data := rest |})|apply (keepsSessions_release _ [p])].
  - destruct (conns s !! c) as [k|] eqn:Hk; [|apply Hkeep, keepsSessions_refl]. destruct (c_done k); [apply Hkeep, keepsSessions_refl|].
    cbn [fst]. destruct (keepsSessions_setConn s c k {| k with c_done := true |} Hk eq_refl) as [_ H1]. exact H1.
  - destruct (conns s !! c) as [k|] eqn:Hk; [|apply Hkeep, keepsSessions_refl]. destruct (_ && _); [|apply Hkeep, keepsSessions_refl].
    cbn [fst]. destruct (keepsSessions_setConn s c k {| k with c_destroyed := true |} Hk eq_refl) as [_ H1]. exact H1.
  - destruct (conns s !! c) as [k|] eqn:Hk; [|apply Hkeep, keepsSessions_refl]. apply Hkeep. cbn [fst].
    eapply keepsSessions_trans; [by eapply (keepsSessions_setConn s c k {| k with c_defragger := delete id (c_defragger k) |})|apply keepsSessions_release].
Qed.

Definition arrivals (actions : list action) : history := concat (map arriving actions).

Lemma run_Good actions hist s : Good hist s ->
  let '(s', outs) := run actions s in
  persists s s' /\ Good (hist ++ arrivals actions) s' /\ Forall (fits (hist ++ arrivals actions) s') outs.
Proof.
  revert hist s. induction actions as [|a actions IH]; intros hist s H; cbn [run].
  { unfold arrivals. cbn. rewrite app_nil_r. split; [intros c k Hk; eauto|]. split; [done|constructor]. }
  pose proof (step_persists a hist s H) as Hp. destruct (step a s) as [s1 out] eqn:Hstep. cbn [fst] in Hp.
  destruct (step_Good a hist s s1 out H Hstep) as [H1 Hout]. specialize (IH _ _ H1). destruct (run actions s1) as [s2 outs].
  destruct IH as (Hp2 & H2 & Hf). change (arrivals (a :: actions)) with (arriving a ++ arrivals actions). rewrite <- app_assoc in H2, Hf.
  assert (Hp12 : persists s s2).
  { intros c k Hk. destruct (Hp c k Hk) as (k1 & Hk1 & <-). by apply Hp2. }
  split; [done|]. split; [done|]. apply Forall_app. split; [|done]. destruct out as [o|]; [|constructor]. constructor; [|constructor].
  destruct (Hout o eq_refl) as (k & Hk & Hs & Hg). destruct (Hp12 _ _ Hk) as (k2 & Hk2 & Hs2). exists k2. rewrite Hs2. split; [done|]. split; [done|].
  eapply genuine_mono; [|exact Hg]. set_solver.
Qed.

Lemma newSession_Good : Good [] newSession.
Proof.
  split; [intros sid c Hc; cbn in Hc; by apply lookup_empty_Some in Hc|]. exists (fun _ => None).
  split; cbn; try done; try constructor; intros *; try (intros Hk; by apply lookup_empty_Some in Hk). by intros ?%not_elem_of_nil.
Qed.

(** C12: however datagrams arrive, readers read, connections close and packets are forgotten,
    and whichever messages of the pool are used again, what a reader gets belongs to the
    session of its connection, and is a datagram that arrived or is made of the fragments
    of one packet that arrived in that session. *)
Theorem hy2_sessions_isolated actions :
  let '(s, outs) := run actions newSession in
  Forall (fun out => exists k, conns s !! out.1 = Some k /\ sessionID out.2 = c_session k /\ genuine (arrivals actions) out.2) outs.
Proof.
  pose proof (run_Good actions [] newSession newSession_Good) as H. destruct (run actions newSession) as [s outs].
  by destruct H as (_ & _ & H).
Qed.

(** ** Closing a connection *)

(** A connection reads the session it removes from the message that opened it; that message
    has been given back when it was read.  Two sessions get a packet each, both packets
    are read, and the second connection is closed: the first session is removed. *)
Definition packetFor (session : N) : action := Datagram None None (Ok (mkUdpMessage session 1 0 1 [x61] [x01])).
Theorem closing_removes_other_session :
  udpConnMap (run [packetFor 0; packetFor 1; ReadPacket 0; ReadPacket 1; CloseConn 1; DestroyConn 1] newSession).1 = {[1%N := 1]}.
Proof. vm_compute. reflexivity. Qed.

(** The next packet of the first session opens another connection. *)
Theorem closing_splits_session :
  (run [packetFor 0; packetFor 1; ReadPacket 0; ReadPacket 1; CloseConn 1; DestroyConn 1; packetFor 0; ReadPacket 2] newSession).2
  = [(0, mkUdpMessage 0 1 0 1 [x61] [x01]); (1, mkUdpMessage 1 1 0 1 [x61] [x01]); (2, mkUdpMessage 0 1 0 1 [x61] [x01])].
Proof. vm_compute. reflexivity. Qed.

(** Even when the message is still the one that opened the connection: a packet between the two halves of [Close] opens
    another connection of the session, and [onDestroy] removes that one. *)
Example closing_removes_successor :
  udpConnMap (run [packetFor 5; CloseConn 0; packetFor 5; DestroyConn 0] newSession).1 = ∅ /\
  c_done <$> (conns (run [packetFor 5; CloseConn 0; packetFor 5; DestroyConn 0] newSession).1 !! 1) = Some false.
Proof. vm_compute. done. Qed.
